(* ===== verification/_CoqProject ===== *)
-Q . S2P
Prelude.v
Pickle.v
Roles.v
Lockout.v
Approval.v
Session.v
Lagrange.v
Gf256.v
Shamir.v
Kra.v
Der.v
ProxyPath.v
Algorithm.v
AuditLog.v
Pathval.v
OcspRequest.v
Signing.v
OcspResponse.v
OcspCache.v
OcspResponder.v
OcspFreshness.v
TampTypes.v
TampCms.v
TampStore.v
TampManager.v
Programs.v
Credits.v
Text.v
IpAddr.v
AcmeIdentifier.v
AddressGuard.v
AcmeJws.v
AcmeStore.v
AcmeValidators.v
ValidatorRuns.v
AcmeServer.v
AcmeFinalize.v
AcmeRun.v
AcmeSafety.v
AcmeGuarantees.v
ValidatorGuarantees.v
X509Names.v
Csr.v
CertParser.v
CertProfile.v
CertBuilder.v
CaStore.v
CaCore.v
CrlBuilder.v
Revocation.v
Issuance.v
GrpcIdentity.v
CaGrpc.v
CaApi.v
IssuedCert.v
CaInv.v
CaSchedule.v
CrlPublished.v
IssuanceRuns.v
CaSafety.v
CrlGuarantees.v
IssuanceGuarantees.v
EstLabel.v
EstStore.v
EstCore.v
EstAuth.v
EstPolicy.v
EstClient.v
EstServer.v
EstApi.v
EstInv.v
EnrollRuns.v
EstSafety.v
TokenBudget.v
EstGuarantees.v
ScmsStore.v
ScmsServer.v
ScmsRuns.v
ScmsGuarantees.v
