(* ===== verification/Prelude.v ===== *)
(** * OstrichPKI: a verification development (root file)

    OstrichPKI is a public key infrastructure in Rust: a certification
    authority, an OCSP responder, ACME and EST servers, a TAMP trust anchor
    manager, a smartcard server and a key recovery authority over one database,
    with shared crates for roles and sessions, audit, cryptography and X.509.  This library models
    the crates' own logic, shallowly: one definition per type, function and
    method, executable, under the name it has in the source, with the guards
    and the order of effects of the code.

    ** Files and sources

    Paths are below [src/crates/].  Each file's opening comment says more.

    - Prelude (this file): Rust's [Result], panics, machine integers ([wrap]),
      time ([DateTime] is nanoseconds since the epoch), hash iteration order
      as the classes [HashIter] and [HashSetIter], a state and error monad for
      code that changes a store ([Exec]), and the lists and tables the
      components share.
    - Programs: code that waits, as programs of effects; interleaved runs; and
      a program logic for invariants of all runs.  Also a program on its own,
      against any answers.  Pickle: a concrete codec
      for witnesses.
    - Roles ([ostrich-common/src/auth/roles.rs], [permissions.rs], [user.rs],
      [rbac.rs]), Lockout ([lockout.rs]), Session ([session.rs]), Approval
      ([ostrich-ca/src/approval.rs]): who may do what.  Approval uses Roles:
      the approver's permission and identity.
    - Lagrange, Gf256, Shamir ([ostrich-kra/src/shamir.rs]) and Kra
      ([escrow.rs], [recovery.rs], [wrap.rs], [ostrich-db] kra tables): secret
      sharing, and the escrow and recovery of keys over it.
    - AuditLog ([ostrich-audit/src/event.rs], [sink.rs], [ostrich-db] audit
      repository): the hash-chained, signed audit table.
    - Algorithm, Signing ([ostrich-crypto/src/algorithm.rs],
      [verify.rs], [ostrich-x509/src/signing.rs]): algorithm choice, X.509
      identifiers and signature forms.
    - Pathval ([ostrich-x509/src/validation/]): trust anchors, path building
      and path validation.
    - Der, OcspRequest, OcspResponse, OcspCache, OcspResponder, OcspFreshness
      ([ostrich-ocsp/src/]): the responder from bytes to bytes, and its
      concurrency with revocation.
    - TampTypes, TampCms, TampStore, TampManager ([ostrich-tamp/src/]): trust
      anchor management messages, their CMS protection, store and manager.
    - IpAddr, AcmeIdentifier, AcmeJws, AcmeStore, AcmeServer, AcmeFinalize,
      AcmeRun, AcmeSafety, AcmeGuarantees ([ostrich-acme/src/]): every handler
      of the ACME server as a program over its tables, and all its runs.
    - AddressGuard, AcmeValidators ([ostrich-acme/src/validation.rs]): which
      addresses a validation may reach, and the http-01, dns-01 and tls-alpn-01
      validators as programs over the network; ValidatorRuns has their runs and
      ValidatorGuarantees the theorems, with the server.
    - X509Names, Csr, CertParser, CertProfile, CertBuilder, CrlBuilder
      ([ostrich-x509/src/parser.rs], [profile.rs], [secure_defaults.rs],
      [builder/], [crl.rs]): names, requests, certificates and CRLs between
      the program's records and the ASN.1 library's; X509Names ends
      with an instance of that library.
    - CaStore, CaCore, Revocation, Issuance, CaApi ([ostrich-db] certificate,
      CRL and approval repositories; [ostrich-ca/src/revocation.rs],
      [issuance.rs], [rest.rs]): the CA's tables, its issuer and revocation
      manager and the handlers that change state, as programs.
    - CaInv, CaSafety, over CrlPublished, IssuedCert and
      IssuanceRuns: every run of the CA, the invariant of its
      tables, and what each program does in any company; CaSchedule computes
      runs.  CrlGuarantees and IssuanceGuarantees have the theorems.
    - EstLabel, EstStore, GrpcIdentity, EstCore, EstAuth, EstPolicy, EstClient,
      EstServer, EstApi ([ostrich-est/src/], the [ostrich-db] est
      repository, [ostrich-common/src/auth/provider.rs], [middleware.rs],
      [grpc_tls.rs]): every route of the EST server as a program, from the
      authentication of the request to the certificate.
    - EstInv, over EnrollRuns and EstSafety:
      every run of the EST server and its invariant; TokenBudget, over Credits,
      the uses of a token; EstGuarantees computes runs and has the
      theorems.
    - ScmsStore, ScmsServer, ScmsRuns ([ostrich-scms/src/], the [ostrich-db] scms
      repository): smartcard tokens, their tables, every route as a program and
      all its runs; ScmsGuarantees has the theorems and computes runs.
    - ProxyPath ([ostrich-common/src/util/proxy_path.rs]): which paths the
      portals forward.

    State is what the code keeps: a table is the list of its rows in the order
    of insertion with its unique constraints, a [HashMap] a [gmap].  A
    component with awaits is either a program (ACME, EST, SCMS, the CA), a step relation
    (OcspFreshness, AuditLog), or takes what its environment chose as an
    argument.  Third-party code (SHA-256, AES-GCM, [ring], DER codecs of other
    crates, chrono's texts, JSON) is a class or an argument with the
    documented laws it needs, and each has a concrete instance in a witness.

    ** What the theorems show

    - Access: validated role sets separate duties ([separation_of_duties]);
      decisions on a request are by someone else with the permission
      ([segregation_of_duties]); a terminated session is never valid again and
      concurrent sessions are bounded.
    - Secrets: a threshold of shares reconstructs, fewer say nothing
      ([split_reconstruct], [perfect_secrecy]); an escrowed key comes back
      ([escrow_then_recover]).
    - Audit: along all interleavings of writers the log is one chain
      ([reachable_log_verifies]), [record] refines an append
      ([record_refines]), two logs with one head agree or SHA-256 collides
      ([tamper_evident]).
    - OCSP: the request parser is total and inverts its encoder; answers are
      what the table said and are stale for a bounded time
      ([bounded_staleness]); every body gets an answer ([ocsp_post_total]).
    - TAMP: sequence numbers increase and a numbered message is accepted once
      ([ingest_no_replay]); a failed request leaves no trace
      ([issue_fails_clean]); the store stays well formed.
    - ACME: in every run a certificate is requested only for names the
      order's account proved control of ([issuance_authorized]), a nonce
      authenticates one request, and the identifier and finalize checks
      compute their specifications.  A validator says yes exactly to proof of the
      key authorization ([validator_proves]), connects only where the guard lets
      it, whose ranges [disallowed_spec] lists ([validator_guarded]), and ends
      after at most 34 requests ([validator_bounded]); so with the server every
      name of a requested certificate was shown on the network
      ([issuance_demonstrated]).
    - Issuance: in every run each certificate is accounted for: requested,
      checked, signed by the CA's key over what was asked
      ([certificates_accounted], [issue_spec]), and, where approval is
      required, approved by someone else ([issued_after_approval]); and runs
      that show what does not hold of the approval workflow.
    - CRLs: numbers are consecutive, times monotone and revocations final in
      every run ([crl_history]); what a full and a delta CRL list
      ([full_crl_spec], [delta_crl_spec]); and races in which a CRL lacks a
      revocation.
    - EST: in every run a CA is asked only for what the client may have
      ([enrollment_authorized]), a token is minted by who may
      ([tokens_minted]), pays for no more certificates of simple enrollments
      than its uses ([token_budget]), and a successful answer is the
      certificate that was issued ([simple_enroll_spec]); runs that show what
      does not hold of tokens and names.  The labels that are accepted are those whose parts are within their
      limits ([label_roundtrip]); a renewal compares sets of names
      ([normalize_san_set_spec]).
    - SCMS: in every run a token changes only on a request by who may and in a
      state that was seen ([changes_have_grounds]), and the tables are well
      formed ([tables_well_formed]); alone, a call changes a token as its method
      does ([lifecycle_refines]) and wrong PINs lock it ([lockout]); runs in
      which a revoked token returns and an attempt is lost.

    ** Bounds and fuel

    The OCSP parser's loops take the length of the input as fuel and
    [from_der_total] shows it never runs out; [gf_inv] and [gf_mul_u16] take
    8 and 16 turns; the SQL retry loops have the code's own limits.  Programs
    are well-founded trees: a handler always ends once its effects answer.
    [u8], [u32], [u64] arithmetic wraps where the code's does; [usize] has 64
    bits; instants are unbounded.

    ** Not modelled

    Start-up, configuration, TLS and HTTP routing; SQL beyond single
    statements and their constraints; code that only converts to the types of
    third-party crates; PKCS#11; the HTTP, DNS and TLS clients of the
    ACME challenge validators; the CA's listings and its gRPC and administrative
    handlers; the notification service, the portals and command line tools. *)
From stdpp Require Import base list gmap strings.
From Stdlib Require Import ZArith Lia.

#[global] Set Default Goal Selector "!".

(** ** Results

    Rust's [Result<T, E>], and the same with a third outcome for code that
    can panic. *)

Inductive result (T E : Type) : Type :=
| Ok (x : T)
| Err (e : E).
Arguments Ok {T E} x.
Arguments Err {T E} e.

Inductive outcome (T E : Type) : Type :=
| Ret (x : T)
| Fail (e : E)
| Panic.
Arguments Ret {T E} x.
Arguments Fail {T E} e.
Arguments Panic {T E}.

Definition res_bind {A B E} (r : result A E) (k : A → result B E) : result B E :=
  match r with Ok x => k x | Err e => Err e end.

Definition out_bind {A B E} (r : outcome A E) (k : A → outcome B E) : outcome B E :=
  match r with Ret x => k x | Fail e => Fail e | Panic => Panic end.

(** [Option::ok_or]. *)
Definition ok_or {A E} (o : option A) (e : E) : result A E :=
  match o with Some x => Ok x | None => Err e end.

(** [iter().map(f).collect()] for an [f] that can panic. *)
Fixpoint out_map {A B E} (f : A → outcome B E) (l : list A) : outcome (list B) E :=
  match l with
  | [] => Ret []
  | x :: l => out_bind (f x) (λ y, out_bind (out_map f l) (λ ys, Ret (y :: ys)))
  end.

Definition is_ok {A E} (r : result A E) : bool :=
  match r with Ok _ => true | Err _ => false end.

Declare Scope rust_scope.
Delimit Scope rust_scope with rust.

(** The [?] operator, for both kinds of result. *)
Notation "'let?' x ':=' r 'in' k" := (res_bind r (λ x, k))
  (at level 10, x name, r at level 100, k at level 200,
   format "'[v' 'let?'  x  ':='  r  'in' '/' k ']'") : rust_scope.
Notation "'let!' x ':=' r 'in' k" := (out_bind r (λ x, k))
  (at level 10, x name, r at level 100, k at level 200,
   format "'[v' 'let!'  x  ':='  r  'in' '/' k ']'") : rust_scope.
#[global] Open Scope rust_scope.

(** Without the simplification that [injection] does of its results. *)
Lemma Ok_inj {A E} (x y : A) : @Ok A E x = Ok y → x = y.
Proof. congruence. Qed.

Lemma ok_or_Ok {A E} (o : option A) (e : E) x : ok_or o e = Ok x ↔ o = Some x.
Proof. destruct o; cbn; split; congruence. Qed.
Lemma res_bind_Ok {A B E} (r : result A E) (k : A → result B E) y :
  res_bind r k = Ok y ↔ ∃ x, r = Ok x ∧ k x = Ok y.
Proof. destruct r; simpl; naive_solver. Qed.

Lemma out_bind_Ret {A B E} (r : outcome A E) (k : A → outcome B E) y :
  out_bind r k = Ret y ↔ ∃ x, r = Ret x ∧ k x = Ret y.
Proof. destruct r; simpl; naive_solver. Qed.

Lemma out_map_Ret {A B E} (f : A → outcome B E) (g : A → B) l :
  (∀ x, x ∈ l → f x = Ret (g x)) → out_map f l = Ret (g <$> l).
Proof.
  induction l as [|x l IH]; intros H; [done|]. simpl.
  rewrite H by apply list_elem_of_here. simpl.
  rewrite IH; [done|]. intros y Hy. by apply H, list_elem_of_further.
Qed.

(** ** Stateful code that can fail or panic

    A computation over a state [W]; the state it leaves is part of the result
    on every path, as the effects before an early return stay. *)
Definition Exec (W A E : Type) : Type := W → outcome A E * W.
Definition exec_ret {W A E} (x : A) : Exec W A E := λ w, (Ret x, w).
Definition exec_fail {W A E} (e : E) : Exec W A E := λ w, (Fail e, w).
Definition exec_bind {W A B E} (m : Exec W A E) (k : A → Exec W B E) : Exec W B E :=
  λ w, match m w with
       | (Ret x, w) => k x w
       | (Fail e, w) => (Fail e, w)
       | (Panic, w) => (Panic, w)
       end.
Definition exec_pure {W A E} (r : outcome A E) : Exec W A E := λ w, (r, w).
Definition exec_get {W E} : Exec W W E := λ w, (Ret w, w).
Definition exec_modify {W E} (f : W → W) : Exec W unit E := λ w, (Ret tt, f w).
Arguments exec_ret {W A E} x w /.
Arguments exec_fail {W A E} e w /.
Arguments exec_bind {W A B E} m k w /.
Arguments exec_pure {W A E} r w /.
Arguments exec_get {W E} w /.
Arguments exec_modify {W E} f w /.

Notation "'let*' x ':=' m 'in' k" := (exec_bind m (λ x, k))
  (at level 10, x name, m at level 100, k at level 200,
   format "'[v' 'let*'  x  ':='  m  'in' '/' k ']'") : rust_scope.

Definition res_outcome {A E} (r : result A E) : outcome A E :=
  match r with Ok x => Ret x | Err e => Fail e end.

Lemma exec_bind_Ret {W A B E} (m : Exec W A E) (k : A → Exec W B E) w y w'' :
  exec_bind m k w = (Ret y, w'') ↔ ∃ x w', m w = (Ret x, w') ∧ k x w' = (Ret y, w'').
Proof. unfold exec_bind. destruct (m w) as [[x|e|] w']; naive_solver. Qed.

(** A relation between the states before and after that every run of [m]
    respects, whatever the outcome. *)
Definition exec_respects {W A E} (R : W → W → Prop) (m : Exec W A E) : Prop :=
  ∀ w, R w (m w).2.

Lemma respects_bind {W A B E} (R : W → W → Prop) `{!PreOrder R}
    (m : Exec W A E) (k : A → Exec W B E) :
  exec_respects R m → (∀ x, exec_respects R (k x)) → exec_respects R (exec_bind m k).
Proof.
  intros Hm Hk w. specialize (Hm w). unfold exec_bind.
  destruct (m w) as [[x|e|] w']; simpl in *; [|done..]. etransitivity; [exact Hm|apply Hk].
Qed.

Lemma respects_pure {W A E} (R : W → W → Prop) `{!PreOrder R} (r : outcome A E) :
  exec_respects R (exec_pure r).
Proof. intros w. reflexivity. Qed.
Lemma respects_ret {W A E} (R : W → W → Prop) `{!PreOrder R} (x : A) :
  exec_respects R (@exec_ret W A E x).
Proof. intros w. reflexivity. Qed.
Lemma respects_fail {W A E} (R : W → W → Prop) `{!PreOrder R} (e : E) :
  exec_respects R (@exec_fail W A E e).
Proof. intros w. reflexivity. Qed.
Lemma respects_get {W E} (R : W → W → Prop) `{!PreOrder R} :
  exec_respects R (@exec_get W E).
Proof. intros w. reflexivity. Qed.

(** ** Machine integers *)

Abbreviation u8 := Z (only parsing).
Definition wrap (w : Z) (z : Z) : Z := z mod 2 ^ w.
Definition u32_MAX : Z := 2 ^ 32 - 1.
Definition i64_MAX : Z := 2 ^ 63 - 1.
Definition is_u8 (z : Z) : bool := (0 <=? z)%Z && (z <? 256)%Z.
Definition u8_list (l : list Z) : Prop := Forall (λ z, is_u8 z = true) l.

Lemma is_u8_range z : is_u8 z = true ↔ (0 ≤ z < 256)%Z.
Proof. unfold is_u8. rewrite andb_true_iff, Z.leb_le, Z.ltb_lt. done. Qed.

(** ** Identifiers and time

    A [Uuid] is its 128-bit number.  A [DateTime<Utc>] is a number of
    nanoseconds since the epoch, [Duration::seconds n] is [n * 10^9] of them
    and [num_seconds] truncates towards zero, as chrono does.  Every call of
    [Utc::now()] in an operation is a separate read of the clock: an
    operation takes a [Clock] and its [i]-th read is [clk i]. *)

Abbreviation Uuid := N.
Abbreviation DateTime := Z.
Definition NANOS : Z := 1000000000.
Definition seconds (n : Z) : Z := n * NANOS.
Definition num_seconds (d : Z) : Z := Z.quot d NANOS.
Abbreviation Clock := (nat → Z).

(** The clock does not run backwards during one operation. *)
Definition clock_mono (clk : Clock) : Prop := ∀ i j, i ≤ j → (clk i ≤ clk j)%Z.

Lemma clock_mono_const t : clock_mono (λ _, t).
Proof. intros i j _. lia. Qed.

(** ** Strings *)

Definition ascii_lower (c : Ascii.ascii) : Ascii.ascii :=
  let n := Ascii.N_of_ascii c in
  if ((65 <=? n) && (n <=? 90))%N then Ascii.ascii_of_N (n + 32) else c.

Fixpoint to_ascii_lowercase (s : string) : string :=
  match s with
  | EmptyString => EmptyString
  | String c s => String (ascii_lower c) (to_ascii_lowercase s)
  end.

Fixpoint is_ascii (s : string) : bool :=
  match s with
  | EmptyString => true
  | String c s => (Ascii.N_of_ascii c <? 128)%N && is_ascii s
  end.

(** [str::to_lowercase] follows the Unicode tables; the code relies on it
    only where the text is ASCII, where it is [to_ascii_lowercase]. *)
Class Lowercase := {
  to_lowercase : string → string;
  to_lowercase_ascii s : is_ascii s = true → to_lowercase s = to_ascii_lowercase s
}.

#[export] Instance ascii_Lowercase : Lowercase := {|
  to_lowercase := to_ascii_lowercase;
  to_lowercase_ascii _ _ := eq_refl
|}.

(** ** Hash maps

    [HashMap] iterates in an unspecified order.  [hash_values] is the order
    of one run; nothing but [hash_values_perm] is known of it. *)
Class HashIter (K V : Type) `{Countable K} := {
  hash_values : gmap K V → list V;
  hash_values_perm m : hash_values m ≡ₚ (map_to_list m).*2
}.

#[export] Instance map_HashIter {K V} `{Countable K} : HashIter K V := {|
  hash_values m := (map_to_list m).*2;
  hash_values_perm m := reflexivity _
|}.

Lemma elem_of_hash_values {K V} `{Countable K} `{!HashIter K V} (m : gmap K V) v :
  v ∈ hash_values m ↔ ∃ k, m !! k = Some v.
Proof.
  rewrite hash_values_perm, list_elem_of_fmap. split.
  - intros ([k v'] & -> & Hin). exists k. by apply elem_of_map_to_list.
  - intros [k Hk]. exists (k, v). split; [done|]. by apply elem_of_map_to_list.
Qed.

(** [collect::<HashSet<_>>()] followed by iteration: the elements once each,
    in an unspecified order. *)
Class HashSetIter (A : Type) := {
  hash_set : list A → list A;
  elem_of_hash_set l x : x ∈ hash_set l ↔ x ∈ l;
  hash_set_NoDup l : NoDup (hash_set l)
}.

#[export] Instance remove_dups_HashSetIter {A} `{EqDecision A} : HashSetIter A := {|
  hash_set := remove_dups;
  elem_of_hash_set l x := elem_of_remove_dups l x;
  hash_set_NoDup := NoDup_remove_dups
|}.

(** ** Lists *)

(** A loop that returns at the first element [f] has an answer for. *)
Fixpoint find_map {A B} (f : A → option B) (l : list A) : option B :=
  match l with
  | [] => None
  | x :: l => match f x with Some y => Some y | None => find_map f l end
  end.

Lemma find_map_Some {A B} (f : A → option B) l y :
  find_map f l = Some y → ∃ x, x ∈ l ∧ f x = Some y.
Proof.
  induction l as [|x l IH]; simpl; [done|]. destruct (f x) eqn:E.
  - intros [= ->]. exists x. split; [apply list_elem_of_here|done].
  - intros (z & Hz & Hf)%IH. exists z. split; [by apply list_elem_of_further|done].
Qed.

Lemma find_map_None {A B} (f : A → option B) l :
  find_map f l = None ↔ ∀ x, x ∈ l → f x = None.
Proof.
  induction l as [|x l IH]; simpl; [set_solver|].
  destruct (f x) eqn:E; [|rewrite IH]; set_solver.
Qed.

Lemma existsb_elem_of {A} (f : A → bool) l :
  existsb f l = true ↔ ∃ x, x ∈ l ∧ f x = true.
Proof. rewrite existsb_exists. by setoid_rewrite list_elem_of_In. Qed.

Lemma forallb_elem_of {A} (f : A → bool) l :
  forallb f l = true ↔ ∀ x, x ∈ l → f x = true.
Proof. rewrite forallb_forall. by setoid_rewrite list_elem_of_In. Qed.

(** ** Tables

    Rows with a key, and lists that grow at their end. *)

Lemma NoDup_insert {R K} (key : R → K) (clash : R → R → bool) (r : R) (rows : list R) :
  (∀ a b, key a = key b → clash a b = true) → NoDup (key <$> rows) →
  existsb (clash r) rows = false → NoDup (key <$> rows ++ [r]).
Proof.
  intros Hc Hn He. rewrite fmap_app. apply NoDup_app. split_and!; [done| |apply NoDup_singleton].
  intros k (r' & -> & Hr')%list_elem_of_fmap Hk%list_elem_of_singleton.
  assert (existsb (clash r) rows = true) as Ht; [|by rewrite Ht in He].
  apply existsb_elem_of. exists r'. split; [done|]. by apply Hc.
Qed.

Lemma update_keys {R K} (key : R → K) (P : R → bool) (f : R → R) (rows : list R) :
  (∀ r, key (f r) = key r) → key <$> ((λ r, if P r then f r else r) <$> rows) = key <$> rows.
Proof.
  intros Hf. rewrite <- list_fmap_compose. apply list_fmap_ext.
  intros i r _. cbn. destruct (P r); [apply Hf|done].
Qed.

Lemma head_filter_Some {R} (P : R → bool) rows r :
  head (List.filter P rows) = Some r → r ∈ rows ∧ P r = true.
Proof.
  intros HH. assert (r ∈ List.filter P rows) as Hin.
  { destruct (List.filter P rows); [done|]. injection HH as ->. apply list_elem_of_here. }
  apply list_elem_of_In, filter_In in Hin as [Hin HP]. by apply list_elem_of_In in Hin.
Qed.
Lemma elem_of_filter_bool {R} (P : R → bool) rows r :
  r ∈ List.filter P rows ↔ r ∈ rows ∧ P r = true.
Proof. by rewrite list_elem_of_In, filter_In, <- list_elem_of_In. Qed.

Lemma snoc_split {A} (t t1 t2 : list A) x y :
  t ++ [x] = t1 ++ y :: t2 → (t1 = t ∧ y = x ∧ t2 = []) ∨ ∃ t2', t2 = t2' ++ [x] ∧ t = t1 ++ y :: t2'.
Proof.
  destruct t2 as [|z t2' _] using rev_ind; intros HH.
  - apply app_inj_tail in HH as [-> ->]. by left.
  - right. exists t2'. rewrite app_comm_cons, app_assoc in HH. apply app_inj_tail in HH as [-> ->]. done.
Qed.

Lemma NoDup_key_eq {R K} (key : R → K) (rows : list R) r r' :
  NoDup (key <$> rows) → r ∈ rows → r' ∈ rows → key r = key r' → r = r'.
Proof.
  intros Hn [i Hi]%list_elem_of_lookup [j Hj]%list_elem_of_lookup Hk.
  assert (i = j) as ->; [|congruence].
  eapply NoDup_lookup; [exact Hn|by rewrite list_lookup_fmap, Hi|by rewrite list_lookup_fmap, Hj, Hk].
Qed.

Lemma list_choice {A} (P : nat → A → Prop) m :
  (∀ k, k < m → ∃ x, P k x) → ∃ l : list A, length l = m ∧ ∀ k x, l !! k = Some x → P k x.
Proof.
  induction m as [|m IH]; intros H; [by exists []|].
  destruct IH as (l & Hl & HP); [intros k Hk; apply H; lia|].
  destruct (H m) as [x Hx]; [lia|]. exists (l ++ [x]). rewrite length_app. split; [simpl; lia|].
  intros k y [?|[Hge Hy]]%lookup_app_Some; [by apply HP|]. apply list_lookup_singleton_Some in Hy.
  destruct Hy as [Hk ->]. by replace k with m by lia.
Qed.

Lemma fmap_nth_seq {A} (d : A) (l : list A) : (λ k, nth k l d) <$> seq 0 (length l) = l.
Proof.
  apply list_eq. intros i. rewrite list_lookup_fmap. destruct (decide (i < length l)) as [Hi|Hi].
  - rewrite lookup_seq_lt by done. simpl. destruct (lookup_lt_is_Some_2 l i Hi) as [x Hx].
    by rewrite (nth_lookup_Some _ _ _ _ Hx).
  - rewrite lookup_seq_ge, lookup_ge_None_2 by lia. done.
Qed.

(** A decision over a finite type by enumeration. *)
Lemma forall_by_enum {A} (enum : list A) (complete : ∀ x, x ∈ enum) (f : A → bool) :
  forallb f enum = true → ∀ x, f x = true.
Proof. rewrite forallb_elem_of. auto. Qed.

Definition contains {A} `{EqDecision A} (x : A) (l : list A) : bool :=
  bool_decide (x ∈ l).

Lemma contains_true {A} `{EqDecision A} (x : A) l : contains x l = true ↔ x ∈ l.
Proof. apply bool_decide_eq_true. Qed.

(** Reading a name back from a table of names. *)
Fixpoint table_lookup {A} (s : string) (t : list (string * A)) : option A :=
  match t with
  | [] => None
  | (k, v) :: t => if String.eqb s k then Some v else table_lookup s t
  end.

(** ** Tactics *)

(** Splits every [match] and [if] of the goal or a hypothesis. *)
Ltac split_matches :=
  repeat (case_match; simplify_eq/=; try done).

Create HintDb pki.
#[export] Hint Resolve respects_pure respects_ret respects_fail respects_get : pki.
#[export] Hint Extern 1 (PreOrder _) => typeclasses eauto : pki.
#[export] Hint Resolve clock_mono_const : pki.
#[export] Hint Rewrite @res_bind_Ok @out_bind_Ret : pki.
