(* ===== verification/Pickle.v ===== *)
(** * A concrete codec

    The libraries' codecs are parameters of the model.  The witnesses
    instantiate them with this one: self-delimiting lists of numbers that
    load back. *)
From stdpp Require Import base list strings.
From S2P Require Import Prelude.
#[local] Open Scope Z_scope.

Class Pickle (A : Type) := {
  dump : A → list Z;
  load : list Z → option (A * list Z);
  load_dump x r : load (dump x ++ r) = Some (x, r)
}.

Definition load_Z (l : list Z) : option (Z * list Z) :=
  match l with z :: r => Some (z, r) | [] => None end.
Lemma load_dump_Z z r : load_Z ([z] ++ r) = Some (z, r).
Proof. done. Qed.
#[export] Instance Z_Pickle : Pickle Z :=
  {| dump z := [z]; load := load_Z; load_dump := load_dump_Z |}.

Section prod.
Context {A B} `{!Pickle A, !Pickle B}.
Definition load_pair (l : list Z) : option ((A * B) * list Z) :=
  '(a, l) ← load l; '(b, r) ← load l; Some ((a, b), r).
Lemma load_dump_pair (p : A * B) r : load_pair ((dump p.1 ++ dump p.2) ++ r) = Some (p, r).
Proof.
  unfold load_pair. rewrite <- app_assoc, load_dump. cbn. rewrite load_dump. by destruct p.
Qed.
#[export] Instance prod_Pickle : Pickle (A * B) :=
  {| dump p := dump p.1 ++ dump p.2; load := load_pair; load_dump := load_dump_pair |}.
End prod.

Section list.
Context {A} `{!Pickle A}.
Fixpoint load_n (n : nat) (l : list Z) : option (list A * list Z) :=
  match n with
  | O => Some ([], l)
  | S n => '(a, l) ← load l; '(x, r) ← load_n n l; Some (a :: x, r)
  end.
Definition dump_list (x : list A) : list Z := Z.of_nat (length x) :: concat (dump <$> x).
Definition load_list (l : list Z) : option (list A * list Z) :=
  match l with n :: l => load_n (Z.to_nat n) l | [] => None end.
Lemma load_dump_n (x : list A) r :
  load_n (length x) (concat (dump <$> x) ++ r) = Some (x, r).
Proof.
  induction x as [|a x IH]; [done|]. cbn. rewrite <- app_assoc, load_dump. cbn. by rewrite IH.
Qed.
Lemma load_dump_list (x : list A) r : load_list (dump_list x ++ r) = Some (x, r).
Proof. unfold dump_list. cbn. rewrite Nat2Z.id. apply load_dump_n. Qed.
#[export] Instance list_Pickle : Pickle (list A) :=
  {| dump := dump_list; load := load_list; load_dump := load_dump_list |}.
End list.

(** A type by its image in another. *)
Section image.
Context {A B} `{!Pickle B} (f : A → B) (g : B → A) (fg : ∀ x, g (f x) = x).
Definition load_image (l : list Z) : option (A * list Z) := '(b, r) ← load l; Some (g b, r).
Lemma load_dump_image x r : load_image (dump (f x) ++ r) = Some (x, r).
Proof. unfold load_image. rewrite load_dump. cbn. by rewrite fg. Qed.
Definition image_Pickle : Pickle A :=
  {| dump x := dump (f x); load := load_image; load_dump := load_dump_image |}.
End image.

Definition string_Z (s : string) : list Z :=
  (λ c, Z.of_N (Ascii.N_of_ascii c)) <$> String.list_ascii_of_string s.
Definition Z_string (l : list Z) : string :=
  String.string_of_list_ascii ((λ z, Ascii.ascii_of_N (Z.to_N z)) <$> l).
Lemma Z_string_Z s : Z_string (string_Z s) = s.
Proof.
  unfold Z_string, string_Z. rewrite <- list_fmap_compose.
  rewrite (list_fmap_ext _ id).
  - rewrite list_fmap_id. apply String.string_of_list_ascii_of_string.
  - intros i c _. unfold compose. rewrite N2Z.id. apply Ascii.ascii_N_embedding.
Qed.
#[export] Instance string_Pickle : Pickle string := image_Pickle string_Z Z_string Z_string_Z.

Definition bool_Z (b : bool) : Z := if b then 1 else 0.
Lemma Z_bool_Z b : Z.eqb (bool_Z b) 1 = b.
Proof. by destruct b. Qed.
#[export] Instance bool_Pickle : Pickle bool := image_Pickle bool_Z (λ z, Z.eqb z 1) Z_bool_Z.

Definition option_list_Z {A} (o : option A) : list A := option_list o.
Lemma head_option_list {A} (o : option A) : head (option_list_Z o) = o.
Proof. by destruct o. Qed.
#[export] Instance option_Pickle {A} `{!Pickle A} : Pickle (option A) :=
  image_Pickle option_list_Z head head_option_list.

(** As a codec of whole byte strings. *)
Definition to_pickle {A} `{!Pickle A} (x : A) : result (list Z) string := Ok (dump x).
Definition of_pickle {A} `{!Pickle A} (l : list Z) : result A string :=
  match load l with Some (x, []) => Ok x | _ => Err "not a pickle" end.
Lemma of_to_pickle {A} `{!Pickle A} (x : A) l : to_pickle x = Ok l → of_pickle l = Ok x.
Proof.
  intros [= <-]. unfold of_pickle. rewrite <- (app_nil_r (dump x)), load_dump. done.
Qed.
