(* ===== verification/Roles.v ===== *)
(** * Roles, permissions and the role-based access policy

    [crates/ostrich-common/src/auth/roles.rs], [permissions.rs], [rbac.rs]
    and the parts of [user.rs] they use. *)
From S2P Require Import Prelude.
From stdpp Require Import base list gmap strings pretty.

(** ** Roles *)

Inductive Role : Set :=
| Administrator
| Auditor
| OperationsStaff
| RaStaff
| Aor
| EstEnrollee
| EstDevice
| PkiSponsor
| PkiSponsorAdmin
| RegistrationAuthority
| CaaAdmin
| NpeAuditor.

#[export] Instance Role_eq_dec : EqDecision Role.
Proof. solve_decision. Defined.

(** Every role (the source has no such list; [role_all] leaves out the two
    machine roles). *)
Definition every_role : list Role :=
  [Administrator; Auditor; OperationsStaff; RaStaff; Aor; EstEnrollee; EstDevice; PkiSponsor; PkiSponsorAdmin; RegistrationAuthority; CaaAdmin; NpeAuditor].

Definition role_name (r : Role) : string :=
  match r with
  | Administrator => "administrator"
  | Auditor => "auditor"
  | OperationsStaff => "operations_staff"
  | RaStaff => "ra_staff"
  | Aor => "aor"
  | EstEnrollee => "est_enrollee"
  | EstDevice => "est_device"
  | PkiSponsor => "pki_sponsor"
  | PkiSponsorAdmin => "pki_sponsor_admin"
  | RegistrationAuthority => "registration_authority"
  | CaaAdmin => "caa_admin"
  | NpeAuditor => "npe_auditor"
  end.

Definition role_from_name_table : list (string * Role) :=
  [("administrator", Administrator);
   ("admin", Administrator);
   ("auditor", Auditor);
   ("operations_staff", OperationsStaff);
   ("operations", OperationsStaff);
   ("operator", OperationsStaff);
   ("ra_staff", RaStaff);
   ("ra", RaStaff);
   ("aor", Aor);
   ("authorized_org_rep", Aor);
   ("est_enrollee", EstEnrollee);
   ("est_device", EstDevice);
   ("pki_sponsor", PkiSponsor);
   ("sponsor", PkiSponsor);
   ("pki_sponsor_admin", PkiSponsorAdmin);
   ("sponsor_admin", PkiSponsorAdmin);
   ("registration_authority", RegistrationAuthority);
   ("npe_ra", RegistrationAuthority);
   ("caa_admin", CaaAdmin);
   ("caa", CaaAdmin);
   ("npe_auditor", NpeAuditor)].

(** [<Role as FromStr>::from_str]: a match on the literal text. *)
Definition role_from_str_table : list (string * Role) :=
  [("administrator", Administrator);
   ("Administrator", Administrator);
   ("auditor", Auditor);
   ("Auditor", Auditor);
   ("operations_staff", OperationsStaff);
   ("OperationsStaff", OperationsStaff);
   ("ra_staff", RaStaff);
   ("RaStaff", RaStaff);
   ("aor", Aor);
   ("Aor", Aor);
   ("AOR", Aor);
   ("est_enrollee", EstEnrollee);
   ("EstEnrollee", EstEnrollee);
   ("est_device", EstDevice);
   ("EstDevice", EstDevice);
   ("pki_sponsor", PkiSponsor);
   ("PkiSponsor", PkiSponsor);
   ("pki_sponsor_admin", PkiSponsorAdmin);
   ("PkiSponsorAdmin", PkiSponsorAdmin);
   ("registration_authority", RegistrationAuthority);
   ("RegistrationAuthority", RegistrationAuthority);
   ("caa_admin", CaaAdmin);
   ("CaaAdmin", CaaAdmin);
   ("npe_auditor", NpeAuditor);
   ("NpeAuditor", NpeAuditor)].

Definition role_all : list Role :=
  [Administrator; Auditor; OperationsStaff; RaStaff; Aor; PkiSponsor; PkiSponsorAdmin; RegistrationAuthority; CaaAdmin; NpeAuditor].

(** ** Permissions *)

Inductive Permission : Set :=
| IssueCertificate
| RevokeCertificate
| RenewCertificate
| ViewCertificate
| GenerateCrl
| PublishCrl
| ViewCrl
| SubmitRequest
| ApproveRequest
| RejectRequest
| ViewRequests
| GenerateEstToken
| BulkEnroll
| OverrideValidation
| ManageNamespaces
| ReadAuditLog
| ExportAuditLog
| SearchAuditLog
| ModifyConfig
| ViewConfig
| CreateUser
| ModifyUser
| DeleteUser
| AssignRoles
| ViewUsers
| UnlockAccount
| ImportTrustAnchor
| RemoveTrustAnchor
| ViewTrustAnchors
| GenerateCaKey
| BackupCaKey
| RecoverKey
| ManageOcsp
| ViewOcspStatus
| ViewServiceHealth
| RestartService.

#[export] Instance Permission_eq_dec : EqDecision Permission.
Proof. solve_decision. Defined.

Definition permission_name (p : Permission) : string :=
  match p with
  | IssueCertificate => "issue_certificate"
  | RevokeCertificate => "revoke_certificate"
  | RenewCertificate => "renew_certificate"
  | ViewCertificate => "view_certificate"
  | GenerateCrl => "generate_crl"
  | PublishCrl => "publish_crl"
  | ViewCrl => "view_crl"
  | SubmitRequest => "submit_request"
  | ApproveRequest => "approve_request"
  | RejectRequest => "reject_request"
  | ViewRequests => "view_requests"
  | GenerateEstToken => "generate_est_token"
  | BulkEnroll => "bulk_enroll"
  | OverrideValidation => "override_validation"
  | ManageNamespaces => "manage_namespaces"
  | ReadAuditLog => "read_audit_log"
  | ExportAuditLog => "export_audit_log"
  | SearchAuditLog => "search_audit_log"
  | ModifyConfig => "modify_config"
  | ViewConfig => "view_config"
  | CreateUser => "create_user"
  | ModifyUser => "modify_user"
  | DeleteUser => "delete_user"
  | AssignRoles => "assign_roles"
  | ViewUsers => "view_users"
  | UnlockAccount => "unlock_account"
  | ImportTrustAnchor => "import_trust_anchor"
  | RemoveTrustAnchor => "remove_trust_anchor"
  | ViewTrustAnchors => "view_trust_anchors"
  | GenerateCaKey => "generate_ca_key"
  | BackupCaKey => "backup_ca_key"
  | RecoverKey => "recover_key"
  | ManageOcsp => "manage_ocsp"
  | ViewOcspStatus => "view_ocsp_status"
  | ViewServiceHealth => "view_service_health"
  | RestartService => "restart_service"
  end.

Definition every_permission : list Permission :=
  [IssueCertificate; RevokeCertificate; RenewCertificate; ViewCertificate; GenerateCrl; PublishCrl; ViewCrl; SubmitRequest; ApproveRequest; RejectRequest; ViewRequests; GenerateEstToken; BulkEnroll; OverrideValidation; ManageNamespaces; ReadAuditLog; ExportAuditLog; SearchAuditLog; ModifyConfig; ViewConfig; CreateUser; ModifyUser; DeleteUser; AssignRoles; ViewUsers; UnlockAccount; ImportTrustAnchor; RemoveTrustAnchor; ViewTrustAnchors; GenerateCaKey; BackupCaKey; RecoverKey; ManageOcsp; ViewOcspStatus; ViewServiceHealth; RestartService].

(** The role-permission matrix. *)
Definition permissions_for_role (role : Role) : list Permission :=
  match role with
  | Administrator => [ModifyConfig; ViewConfig; CreateUser; ModifyUser; DeleteUser; AssignRoles; ViewUsers; UnlockAccount; ImportTrustAnchor; RemoveTrustAnchor; ViewTrustAnchors; GenerateCaKey; BackupCaKey; ViewServiceHealth; RestartService; GenerateEstToken; ViewCertificate; ViewCrl; ViewRequests; ViewOcspStatus]
  | Auditor => [ReadAuditLog; ExportAuditLog; SearchAuditLog; ViewCertificate; ViewCrl; ViewRequests; ViewConfig; ViewUsers; ViewTrustAnchors; ViewOcspStatus; ViewServiceHealth]
  | OperationsStaff => [IssueCertificate; RevokeCertificate; RenewCertificate; ViewCertificate; GenerateCrl; PublishCrl; ViewCrl; ManageOcsp; ViewOcspStatus; ViewRequests; GenerateEstToken; ViewServiceHealth]
  | RaStaff => [ApproveRequest; RejectRequest; ViewRequests; SubmitRequest; ViewCertificate; ViewCrl; ViewServiceHealth]
  | Aor => [ApproveRequest; RejectRequest; ViewRequests; SubmitRequest; ViewCertificate]
  | EstEnrollee => [SubmitRequest]
  | EstDevice => [RenewCertificate]
  | PkiSponsor => [SubmitRequest; RenewCertificate; ViewRequests; ViewCertificate; GenerateEstToken]
  | PkiSponsorAdmin => [SubmitRequest; RenewCertificate; ViewRequests; ViewCertificate; GenerateEstToken; BulkEnroll]
  | RegistrationAuthority => [ApproveRequest; RejectRequest; ViewRequests; RevokeCertificate; OverrideValidation; ViewCertificate; ReadAuditLog]
  | CaaAdmin => [ModifyConfig; ViewConfig; CreateUser; ModifyUser; DeleteUser; AssignRoles; ViewUsers; ManageNamespaces; ReadAuditLog]
  | NpeAuditor => [ReadAuditLog; ViewCertificate; ViewRequests]
  end.

Section names.
Context `{!Lowercase}.

Definition role_from_name (name : string) : option Role :=
  table_lookup (to_lowercase name) role_from_name_table.
End names.

Definition role_from_str (s : string) : result Role string :=
  ok_or (table_lookup s role_from_str_table) (String.append "Unknown role: " s).

(** ** Separation of duties *)

Definition incompatible_roles (r : Role) : list Role :=
  match r with
  | Auditor => [Administrator; OperationsStaff]
  | OperationsStaff => [Auditor]
  | Administrator => []
  | RaStaff => []
  | Aor => []
  | EstEnrollee => []
  | EstDevice => []
  | PkiSponsor => []
  | PkiSponsorAdmin => []
  | RegistrationAuthority => []
  | CaaAdmin => []
  | NpeAuditor => []
  end.

Definition is_compatible_with (self other : Role) : bool :=
  negb (contains other (incompatible_roles self)).

Inductive RoleValidationError :=
| IncompatibleRoles (role1 role2 : Role) (reason : string).

Section validate.
Context `{!HashSetIter Role}.

(** The two nested loops over the [HashSet] of the roles. *)
Definition validate_role_set (roles : list Role) : result unit RoleValidationError :=
  let role_set := hash_set roles in
  match
    find_map (λ role,
      find_map (λ incompatible,
        if contains incompatible role_set then
          Some (IncompatibleRoles role incompatible
            (role_name role +:+ " cannot be combined with " +:+ role_name incompatible
               +:+ " per separation of duties policy"))
        else None) (incompatible_roles role)) role_set
  with
  | Some e => Err e
  | None => Ok tt
  end.
End validate.

(** ** Permissions of roles *)

Definition role_has_permission (role : Role) (permission : Permission) : bool :=
  contains permission (permissions_for_role role).

Definition any_role_has_permission (roles : list Role) (permission : Permission) : bool :=
  existsb (λ r, role_has_permission r permission) roles.

Section aggregate.
Context `{!HashSetIter Permission}.

(** Every permission of every role put in a [HashSet] and listed. *)
Definition aggregate_permissions (roles : list Role) : list Permission :=
  hash_set (roles ≫= permissions_for_role).
End aggregate.

(** ** Users *)

Inductive AuthMethod := Password | Certificate | ApiKey | MultiFactor.

Record AuthenticatedUser := {
  user_id : Uuid;
  username : string;
  display_name : option string;
  email : option string;
  roles : list Role;
  auth_method : AuthMethod;
  authenticated_at : DateTime;
  session_token : option string;
  certificate_subject : option string;
  source_ip : option string
}.

Definition new_user (id : Uuid) (name : string) (rs : list Role) (m : AuthMethod)
    (now : DateTime) : AuthenticatedUser := {|
  user_id := id; username := name; display_name := None; email := None; roles := rs;
  auth_method := m; authenticated_at := now; session_token := None;
  certificate_subject := None; source_ip := None
|}.

Definition has_role (u : AuthenticatedUser) (r : Role) : bool := contains r (roles u).
Definition has_any_role (u : AuthenticatedUser) (rs : list Role) : bool :=
  existsb (λ r, contains r (roles u)) rs.
Definition has_all_roles (u : AuthenticatedUser) (rs : list Role) : bool :=
  forallb (λ r, contains r (roles u)) rs.

Inductive AccountStatus := ActActive | ActLocked | ActSuspended | ActDisabled | ActPendingActivation.
#[export] Instance AccountStatus_eq_dec : EqDecision AccountStatus.
Proof. solve_decision. Defined.

Record UserAccount := {
  acct_id : Uuid;
  acct_username : string;
  acct_display_name : option string;
  acct_email : option string;
  acct_password_hash : option string;
  acct_certificate_subject : option string;
  acct_roles : list Role;
  acct_status : AccountStatus;
  acct_created_at : DateTime;
  acct_updated_at : DateTime;
  last_login_at : option DateTime;
  locked_until : option DateTime;
  acct_failed_attempts : Z
}.

Definition account_is_locked (now : DateTime) (a : UserAccount) : bool :=
  if decide (acct_status a = ActLocked) then
    match locked_until a with Some until => (now <? until)%Z | None => true end
  else
    match locked_until a with Some until => (now <? until)%Z | None => false end.

Definition can_authenticate (now : DateTime) (a : UserAccount) : bool :=
  bool_decide (acct_status a = ActActive) && negb (account_is_locked now a).

(** ** The policy engine *)

Inductive AuthorizationError :=
| PermissionDenied (permission : Permission)
| RoleDenied (required : Role)
| ResourceNotFound (resource : string)
| OperationNotAllowed (reason : string)
| SeparationOfDutiesViolation (reason : string)
| SelfApprovalProhibited.

Record AuthorizationDecision := {
  granted : bool;
  decision_user : string;
  decision_permission : Permission;
  decision_resource : string;
  denial_reason : option string
}.

(** The derived [Debug] of a role, of a list, and of a string. *)
Definition role_debug (r : Role) : string :=
  match r with
  | Administrator => "Administrator"
  | Auditor => "Auditor"
  | OperationsStaff => "OperationsStaff"
  | RaStaff => "RaStaff"
  | Aor => "Aor"
  | EstEnrollee => "EstEnrollee"
  | EstDevice => "EstDevice"
  | PkiSponsor => "PkiSponsor"
  | PkiSponsorAdmin => "PkiSponsorAdmin"
  | RegistrationAuthority => "RegistrationAuthority"
  | CaaAdmin => "CaaAdmin"
  | NpeAuditor => "NpeAuditor"
  end.

Definition list_debug (items : list string) : string :=
  "[" +:+ String.concat ", " items +:+ "]".

(** The names quoted have no character that [Debug] escapes. *)
Definition str_debug (s : string) : string :=
  let q := String (Ascii.ascii_of_nat 34) EmptyString in q +:+ s +:+ q.

Record RbacPolicy := {
  log_all_decisions : bool;
  strict_separation : bool
}.

Definition new_policy : RbacPolicy := {| log_all_decisions := true; strict_separation := true |}.
Definition with_logging (p : RbacPolicy) (enabled : bool) : RbacPolicy :=
  {| log_all_decisions := enabled; strict_separation := strict_separation p |}.
Definition with_strict_separation (p : RbacPolicy) (enabled : bool) : RbacPolicy :=
  {| log_all_decisions := log_all_decisions p; strict_separation := enabled |}.

(** The log a decision appends to. *)
Definition log_decision (p : RbacPolicy) (d : AuthorizationDecision)
    (log : list AuthorizationDecision) : list AuthorizationDecision :=
  if negb (log_all_decisions p) && granted d then log else log ++ [d].

Section rbac.
(** [Uuid]'s [Display]. *)
Context (uuid_to_string : Uuid → string).

Definition mk_decision (reason : option string) (u : AuthenticatedUser) (p : Permission)
    (resource : string) : AuthorizationDecision :=
  {| granted := match reason with None => true | Some _ => false end;
     decision_user := uuid_to_string (user_id u);
     decision_permission := p; decision_resource := resource; denial_reason := reason |}.

Definition authorize (pol : RbacPolicy) (u : AuthenticatedUser) (p : Permission)
    (resource : string) (log : list AuthorizationDecision) :
    result unit AuthorizationError * list AuthorizationDecision :=
  let g := any_role_has_permission (roles u) p in
  let reason := if g then None else
    Some ("User lacks permission '" +:+ permission_name p +:+ "' (roles: "
            +:+ list_debug (role_debug <$> roles u) +:+ ")") in
  let log := log_decision pol (mk_decision reason u p resource) log in
  (if g then Ok tt else Err (PermissionDenied p), log).

Definition authorize_any (pol : RbacPolicy) (u : AuthenticatedUser) (ps : list Permission)
    (resource : string) (log : list AuthorizationDecision) :
    result unit AuthorizationError * list AuthorizationDecision :=
  match find_map (λ p, if any_role_has_permission (roles u) p then Some p else None) ps with
  | Some p => (Ok tt, log_decision pol (mk_decision None u p resource) log)
  | None =>
      match ps with
      | first_perm :: _ =>
          (Err (PermissionDenied first_perm),
           log_decision pol (mk_decision
             (Some ("User lacks any of permissions: "
                      +:+ list_debug ((λ p, str_debug (permission_name p)) <$> ps)))
             u first_perm resource) log)
      | [] => (Err (OperationNotAllowed "No permissions specified"), log)
      end
  end.

Definition require_role (u : AuthenticatedUser) (r : Role) : result unit AuthorizationError :=
  if has_role u r then Ok tt else Err (RoleDenied r).

Definition require_any_role (u : AuthenticatedUser) (rs : list Role) :
    result unit AuthorizationError :=
  if has_any_role u rs then Ok tt
  else Err (RoleDenied (default Administrator (head rs))).

Definition verify_can_approve (pol : RbacPolicy) (approver : AuthenticatedUser)
    (requestor_id : string) (log : list AuthorizationDecision) :
    result unit AuthorizationError * list AuthorizationDecision :=
  match authorize pol approver ApproveRequest "approval_workflow" log with
  | (Err e, log) => (Err e, log)
  | (Ok _, log) =>
      if String.eqb (uuid_to_string (user_id approver)) requestor_id
      then (Err SelfApprovalProhibited, log) else (Ok tt, log)
  end.

Definition verify_can_reject (pol : RbacPolicy) (u : AuthenticatedUser)
    (requestor_id : string) (log : list AuthorizationDecision) :
    result unit AuthorizationError * list AuthorizationDecision :=
  match authorize pol u RejectRequest "approval_workflow" log with
  | (Err e, log) => (Err e, log)
  | (Ok _, log) =>
      if String.eqb (uuid_to_string (user_id u)) requestor_id
      then (Err SelfApprovalProhibited, log) else (Ok tt, log)
  end.
End rbac.

(** ** Theorems *)

Lemma every_role_complete r : r ∈ every_role.
Proof. destruct r; unfold every_role; set_solver. Qed.

Lemma every_permission_complete p : p ∈ every_permission.
Proof. by apply (bool_decide_unpack _); destruct p; vm_compute. Qed.

(** A boolean property of all roles, or of a role and a permission, holds
    when it holds on the enumerations. *)
Lemma forall_roles (f : Role → bool) : forallb f every_role = true → ∀ r, f r = true.
Proof. apply forall_by_enum, every_role_complete. Qed.

Lemma forall_roles_permissions (f : Role → Permission → bool) :
  forallb (λ r, forallb (f r) every_permission) every_role = true → ∀ r p, f r p = true.
Proof.
  intros H r. apply (forall_by_enum every_permission every_permission_complete).
  revert r. by apply forall_roles.
Qed.

Lemma role_has_permission_true r p :
  role_has_permission r p = true ↔ p ∈ permissions_for_role r.
Proof. apply contains_true. Qed.

Lemma any_role_has_permission_true rs p :
  any_role_has_permission rs p = true ↔ ∃ r, r ∈ rs ∧ p ∈ permissions_for_role r.
Proof.
  unfold any_role_has_permission. rewrite existsb_elem_of.
  by setoid_rewrite role_has_permission_true.
Qed.
#[export] Hint Rewrite any_role_has_permission_true role_has_permission_true : pki.

Lemma incompatible_roles_spec r1 r2 :
  r2 ∈ incompatible_roles r1 ↔
  (r1 = Auditor ∧ (r2 = Administrator ∨ r2 = OperationsStaff)) ∨
  (r1 = OperationsStaff ∧ r2 = Auditor).
Proof. destruct r1; simpl; set_solver. Qed.

(** A permission granted by no role outside [rs]. *)
Definition exclusive_to (rs : list Role) (p : Permission) : bool :=
  forallb (λ r, implb (role_has_permission r p) (contains r rs)) every_role.

Lemma exclusive_to_elim rs p us :
  exclusive_to rs p = true → any_role_has_permission us p = true → ∃ r, r ∈ us ∧ r ∈ rs.
Proof.
  intros Hex (r & Hr & Hp)%any_role_has_permission_true. exists r. split; [done|].
  pose proof (forall_roles _ Hex r) as H. simpl in H.
  rewrite (proj2 (role_has_permission_true r p) Hp) in H. by apply contains_true.
Qed.

(** The permissions that some role grants, but only roles of [rs]. *)
Definition reserved_to (rs : list Role) : list Permission :=
  filter (λ p, exclusive_to rs p && existsb (λ r, role_has_permission r p) every_role = true)
    every_permission.

Definition audit_permissions : list Permission := reserved_to [Auditor].
Definition operational_permissions : list Permission :=
  reserved_to [Administrator; OperationsStaff].

Example audit_permissions_are : audit_permissions = [ExportAuditLog; SearchAuditLog].
Proof. vm_compute. reflexivity. Qed.
Example operational_permissions_are :
  operational_permissions =
    [IssueCertificate; GenerateCrl; PublishCrl; UnlockAccount; ImportTrustAnchor;
     RemoveTrustAnchor; GenerateCaKey; BackupCaKey; ManageOcsp; RestartService].
Proof. vm_compute. reflexivity. Qed.

Lemma reserved_to_elim rs p us :
  p ∈ reserved_to rs → any_role_has_permission us p = true → ∃ r, r ∈ us ∧ r ∈ rs.
Proof.
  unfold reserved_to. rewrite list_elem_of_filter.
  intros [[Hex _]%andb_true_iff _]. by apply exclusive_to_elim.
Qed.

Lemma validate_role_set_Ok `{!HashSetIter Role} rs :
  validate_role_set rs = Ok tt ↔
  ∀ r1 r2, r1 ∈ rs → r2 ∈ incompatible_roles r1 → r2 ∉ rs.
Proof.
  unfold validate_role_set. case_match eqn:E.
  - split; [done|]. intros H.
    apply find_map_Some in E as (r1 & Hr1 & (r2 & Hr2 & E)%find_map_Some).
    rewrite elem_of_hash_set in Hr1. case_match eqn:Hc; [|done].
    apply contains_true in Hc. rewrite elem_of_hash_set in Hc. by destruct (H r1 r2).
  - split; [|done]. intros _ r1 r2 Hr1 Hr2 Hin. rewrite find_map_None in E.
    specialize (E r1). rewrite elem_of_hash_set, find_map_None in E.
    specialize (E Hr1 r2 Hr2). case_match eqn:Hc; [done|].
    rewrite <- elem_of_hash_set, <- contains_true, Hc in Hin. done.
Qed.

(** A set of roles is accepted exactly when it does not combine the
    auditor with the administrator or the operations staff, whatever order
    the hash set is walked in; a refusal names two roles of the set that are
    incompatible. *)
Theorem validate_role_set_spec `{!HashSetIter Role} rs :
  (validate_role_set rs = Ok tt ↔
     ¬ (Auditor ∈ rs ∧ (Administrator ∈ rs ∨ OperationsStaff ∈ rs))) ∧
  (∀ r1 r2 reason, validate_role_set rs = Err (IncompatibleRoles r1 r2 reason) →
     r1 ∈ rs ∧ r2 ∈ rs ∧ is_compatible_with r1 r2 = false).
Proof.
  split.
  - rewrite validate_role_set_Ok. setoid_rewrite incompatible_roles_spec. naive_solver.
  - intros r1 r2 reason. unfold validate_role_set. case_match eqn:E; [|done].
    intros [= ->]. apply find_map_Some in E as (r & Hr & (r' & Hr' & E)%find_map_Some).
    case_match eqn:Hc; [|done]. injection E as -> -> _.
    apply contains_true in Hc. rewrite elem_of_hash_set in Hr, Hc.
    split_and!; [done..|]. unfold is_compatible_with.
    by rewrite (proj2 (contains_true _ _) Hr').
Qed.

(** Separation of duties: no holder of an accepted set of roles has both
    a permission reserved to auditors (exporting or searching the audit log)
    and one reserved to the administrator and the operations staff (issuing
    certificates, generating CRLs or CA keys, unlocking accounts, ...). *)
Theorem separation_of_duties `{!HashSetIter Role} rs p q :
  validate_role_set rs = Ok tt →
  p ∈ audit_permissions → q ∈ operational_permissions →
  any_role_has_permission rs p = true → any_role_has_permission rs q = false.
Proof.
  intros Hok Hp Hq HP. apply not_true_iff_false. intros HQ.
  apply validate_role_set_spec in Hok. apply Hok.
  destruct (reserved_to_elim _ _ _ Hp HP) as (r & Hr & ->%list_elem_of_singleton).
  destruct (reserved_to_elim _ _ _ Hq HQ) as (r' & Hr' & Hin). set_solver.
Qed.

Lemma separation_of_duties_witness :
  any_role_has_permission [Auditor; CaaAdmin] ModifyConfig = true ∧
  any_role_has_permission [Auditor; CaaAdmin] IssueCertificate = false.
Proof.
  split; [reflexivity|].
  apply (separation_of_duties [Auditor; CaaAdmin] ExportAuditLog); try reflexivity;
    rewrite ?audit_permissions_are, ?operational_permissions_are; set_solver.
Defined.

(** Role names round-trip: [from_name] (case-insensitive) and [from_str]
    both read back the name of every role, and whatever either of them reads
    is a role under one of its listed spellings. *)
Theorem role_names_roundtrip `{!Lowercase} r :
  role_from_name (role_name r) = Some r ∧ role_from_str (role_name r) = Ok r ∧
  role_from_str (role_debug r) = Ok r.
Proof.
  unfold role_from_name. rewrite to_lowercase_ascii; destruct r; by vm_compute.
Qed.

(** Approval rights come together: a role that may approve requests may
    reject them and conversely, none of these roles may submit a renewal or
    issue a certificate itself, and no role at all is granted [RecoverKey]. *)
Theorem approver_roles r :
  role_has_permission r ApproveRequest = role_has_permission r RejectRequest ∧
  (role_has_permission r ApproveRequest = true →
     role_has_permission r IssueCertificate = false ∧
     role_has_permission r RenewCertificate = false) ∧
  role_has_permission r RecoverKey = false.
Proof. by destruct r; vm_compute. Qed.

(** The aggregated permissions are, without repetition, exactly those
    that one of the roles grants, so checking a permission against the list
    and checking it role by role agree. *)
Theorem aggregate_permissions_spec `{!HashSetIter Permission} rs :
  NoDup (aggregate_permissions rs) ∧
  ∀ p, contains p (aggregate_permissions rs) = any_role_has_permission rs p.
Proof.
  split; [apply hash_set_NoDup|]. intros p. apply eq_true_iff_eq.
  rewrite contains_true, any_role_has_permission_true. unfold aggregate_permissions.
  rewrite elem_of_hash_set, list_elem_of_bind. naive_solver.
Qed.

Lemma log_decision_denied pol d log :
  granted d = false → log_decision pol d log = log ++ [d].
Proof. unfold log_decision. intros ->. by rewrite andb_false_r. Qed.

Section rbac_theorems.
Context (uuid_to_string : Uuid → string).

(** What one call appends to the log. *)
Lemma authorize_spec pol u p res log :
  (authorize uuid_to_string pol u p res log).1 =
    (if any_role_has_permission (roles u) p then Ok tt else Err (PermissionDenied p)) ∧
  (any_role_has_permission (roles u) p = false → ∃ d,
     (authorize uuid_to_string pol u p res log).2 = log ++ [d] ∧
     granted d = false ∧ decision_permission d = p ∧ is_Some (denial_reason d)).
Proof.
  unfold authorize. destruct (any_role_has_permission (roles u) p); [done|].
  split; [done|]. intros _. eexists. rewrite log_decision_denied by done.
  split_and!; [reflexivity|done..|by eexists].
Qed.

(** The policy engine grants a list of permissions exactly when the
    user's roles grant one of them; every refusal over a non-empty list is
    logged with its reason even when the logging of grants is off, and a
    grant is logged exactly when that logging is on. *)
Theorem authorize_any_spec pol u ps res log :
  let out := authorize_any uuid_to_string pol u ps res log in
  (is_ok out.1 = existsb (any_role_has_permission (roles u)) ps) ∧
  (is_ok out.1 = false → ps ≠ [] → ∃ d, out.2 = log ++ [d] ∧
     granted d = false ∧ decision_permission d ∈ ps ∧ is_Some (denial_reason d)) ∧
  (is_ok out.1 = true →
     (log_all_decisions pol = false → out.2 = log) ∧
     (log_all_decisions pol = true → ∃ d, out.2 = log ++ [d] ∧ granted d = true)).
Proof.
  simpl. unfold authorize_any. case_match eqn:E.
  - apply find_map_Some in E as (q & Hq & E). case_match eqn:Ha; simplify_eq. split.
    + symmetry. apply existsb_elem_of. eauto.
    + split; [done|]. intros _. unfold log_decision. simpl. rewrite andb_true_r.
      split; intros ->; simpl; eauto.
  - rewrite find_map_None in E. assert (existsb (any_role_has_permission (roles u)) ps = false).
    { apply not_true_iff_false. intros (x & Hx & Hp)%existsb_elem_of.
      specialize (E x Hx). by rewrite Hp in E. }
    rewrite H. destruct ps as [|p ps]; simpl; [done|]. split_and!; [done| |done].
    intros _ _. eexists. rewrite log_decision_denied by done.
    split_and!; [reflexivity|done| |by eexists]. simpl. set_solver.
Qed.

(** Nobody passes the approval check on their own request, nor
    without [ApproveRequest]; everybody else does. *)
Theorem verify_can_approve_spec `{!Inj (=) (=) uuid_to_string} pol u requestor log :
  (verify_can_approve uuid_to_string pol u (uuid_to_string requestor) log).1 =
    if any_role_has_permission (roles u) ApproveRequest then
      if decide (user_id u = requestor) then Err SelfApprovalProhibited else Ok tt
    else Err (PermissionDenied ApproveRequest).
Proof.
  unfold verify_can_approve.
  destruct (authorize_spec pol u ApproveRequest "approval_workflow" log) as [H _].
  destruct (authorize _ _ _ _ _ _) as [r l]. simpl in H. subst r.
  destruct (any_role_has_permission _ _); [|done]. simpl.
  destruct (String.eqb_spec (uuid_to_string (user_id u))
    (uuid_to_string requestor)) as [Heq|Hne]; case_decide as Hd; try done.
  - by apply (inj uuid_to_string) in Heq.
  - by rewrite Hd in Hne.
Qed.
End rbac_theorems.

#[local] Definition demo_uuid_to_string (u : Uuid) : string := pretty.pretty u.
Lemma verify_can_approve_spec_witness :
  (verify_can_approve demo_uuid_to_string new_policy
     (new_user 7 "ra" [RaStaff] Password 0) (demo_uuid_to_string 9) []).1 = Ok tt.
Proof.
  by rewrite (verify_can_approve_spec demo_uuid_to_string new_policy
    (new_user 7 "ra" [RaStaff] Password 0) 9 []).
Defined.
