(* ===== verification/Lockout.v ===== *)
(** * Authentication failure lockout

    [crates/ostrich-common/src/auth/lockout.rs].  The manager is its
    configuration and the map of account states; an operation takes the clock
    it reads, the [i]-th read in program order being [clk i].  The read/write
    lock around the map makes each operation atomic; [LockPoisoned] needs a
    panic while the lock is held and is not modelled.  Counters are [u32]:
    [wrap 32] is the release build's arithmetic. *)
From S2P Require Import Prelude.
From stdpp Require Import base list gmap strings.
#[local] Open Scope Z_scope.

Definition DEFAULT_MAX_FAILED_ATTEMPTS : Z := 5.
Definition DEFAULT_LOCKOUT_DURATION_SECS : Z := 900.
Definition DEFAULT_FAILURE_WINDOW_SECS : Z := 3600.

Record LockoutConfig := {
  max_failed_attempts : Z;
  lockout_duration_secs : Z;
  failure_window_secs : Z;
  permanent_lockout : bool;
  lockouts_before_permanent : Z;
  notify_admin_on_lockout : bool;
  log_failed_attempts : bool
}.

Definition new_config : LockoutConfig := {|
  max_failed_attempts := DEFAULT_MAX_FAILED_ATTEMPTS;
  lockout_duration_secs := DEFAULT_LOCKOUT_DURATION_SECS;
  failure_window_secs := DEFAULT_FAILURE_WINDOW_SECS;
  permanent_lockout := false;
  lockouts_before_permanent := 3;
  notify_admin_on_lockout := true;
  log_failed_attempts := true
|}.

Definition high_security : LockoutConfig := {|
  max_failed_attempts := 3;
  lockout_duration_secs := 1800;
  failure_window_secs := 3600;
  permanent_lockout := true;
  lockouts_before_permanent := 2;
  notify_admin_on_lockout := true;
  log_failed_attempts := true
|}.

Inductive LockoutStatus := Active | TemporarilyLocked | PermanentlyLocked.
#[export] Instance LockoutStatus_eq_dec : EqDecision LockoutStatus.
Proof. solve_decision. Defined.

Inductive LockoutError :=
| LockPoisoned
| ErrPermanentlyLocked
| AccountNotFound (account_id : string).

Record FailedAttempt := {
  timestamp : DateTime;
  attempt_ip : option string;
  attempt_reason : string
}.

Record AccountState := {
  account_id : string;
  status : LockoutStatus;
  failed_attempts : list FailedAttempt;
  total_lockouts : Z;
  locked_at : option DateTime;
  lockout_expires_at : option DateTime;
  last_success : option DateTime;
  created_at : DateTime
}.

Definition new_account (id : string) (now : DateTime) : AccountState := {|
  account_id := id; status := Active; failed_attempts := []; total_lockouts := 0;
  locked_at := None; lockout_expires_at := None; last_success := None; created_at := now
|}.

Definition recent (cutoff : DateTime) (l : list FailedAttempt) : list FailedAttempt :=
  filter (λ a, cutoff < timestamp a) l.

Definition recent_failure_count (now : DateTime) (window_secs : Z) (s : AccountState) : Z :=
  wrap 32 (Z.of_nat (length (recent (now - seconds window_secs) (failed_attempts s)))).

Definition is_lockout_expired (now : DateTime) (s : AccountState) : bool :=
  match status s with
  | Active => true
  | PermanentlyLocked => false
  | TemporarilyLocked =>
      match lockout_expires_at s with
      | Some expires => expires <? now
      | None => true
      end
  end.

Record AuthLockout := {
  config : LockoutConfig;
  accounts : gmap string AccountState
}.

Definition new_lockout (c : LockoutConfig) : AuthLockout :=
  {| config := c; accounts := ∅ |}.

Definition set_account (m : AuthLockout) (id : string) (s : AccountState) : AuthLockout :=
  {| config := config m; accounts := <[id := s]> (accounts m) |}.

Definition is_authentication_allowed (m : AuthLockout) (id : string) (now : DateTime) :
    result bool LockoutError :=
  match accounts m !! id with
  | Some s =>
      match status s with
      | Active => Ok true
      | PermanentlyLocked => Ok false
      | TemporarilyLocked => if is_lockout_expired now s then Ok true else Ok false
      end
  | None => Ok true
  end.

(** "If previously locked but expired, reset to active". *)
Definition reset_if_expired (now : DateTime) (s : AccountState) : AccountState :=
  if bool_decide (status s = TemporarilyLocked) && is_lockout_expired now s then
    {| account_id := account_id s; status := Active; failed_attempts := failed_attempts s;
       total_lockouts := total_lockouts s; locked_at := None; lockout_expires_at := None;
       last_success := last_success s; created_at := created_at s |}
  else s.

Definition push_failure (a : FailedAttempt) (cutoff : DateTime) (s : AccountState) :
    AccountState :=
  {| account_id := account_id s; status := status s;
     failed_attempts := recent cutoff (failed_attempts s ++ [a]);
     total_lockouts := total_lockouts s; locked_at := locked_at s;
     lockout_expires_at := lockout_expires_at s; last_success := last_success s;
     created_at := created_at s |}.

Definition lock_account (st : LockoutStatus) (total : Z) (at_ : DateTime)
    (expires : option DateTime) (s : AccountState) : AccountState :=
  {| account_id := account_id s; status := st; failed_attempts := failed_attempts s;
     total_lockouts := total; locked_at := Some at_; lockout_expires_at := expires;
     last_success := last_success s; created_at := created_at s |}.

(** The body of [record_failure] on the entry of the account.  Reads of the
    clock: 1 the expiry test, 2 the attempt's time, 3 and 4 the two cutoffs,
    5 [locked_at], 6 the base of the expiry. *)
Definition fail_account (c : LockoutConfig) (ip : option string) (reason : string)
    (clk : Clock) (s : AccountState) : AccountState * LockoutStatus :=
  let s := reset_if_expired (clk 1%nat) s in
  if decide (status s = PermanentlyLocked) then (s, PermanentlyLocked)
  else
    let attempt := {| timestamp := clk 2%nat; attempt_ip := ip; attempt_reason := reason |} in
    let s := push_failure attempt (clk 3%nat - seconds (failure_window_secs c)) s in
    let failure_count := recent_failure_count (clk 4%nat) (failure_window_secs c) s in
    if max_failed_attempts c <=? failure_count then
      let total := wrap 32 (total_lockouts s + 1) in
      if permanent_lockout c && (lockouts_before_permanent c <=? total) then
        (lock_account PermanentlyLocked total (clk 5%nat) None s, PermanentlyLocked)
      else
        (lock_account TemporarilyLocked total (clk 5%nat)
           (Some (clk 6%nat + seconds (lockout_duration_secs c))) s, TemporarilyLocked)
    else (s, Active).

(** Read 0 of the clock is the creation time of a new entry. *)
Definition record_failure (m : AuthLockout) (id : string) (ip : option string)
    (reason : string) (clk : Clock) : result LockoutStatus LockoutError * AuthLockout :=
  let s := default (new_account id (clk 0%nat)) (accounts m !! id) in
  let '(s, st) := fail_account (config m) ip reason clk s in
  (Ok st, set_account m id s).

Definition success_account (now : DateTime) (s : AccountState) : AccountState :=
  {| account_id := account_id s; status := Active; failed_attempts := [];
     total_lockouts := total_lockouts s; locked_at := None; lockout_expires_at := None;
     last_success := Some now; created_at := created_at s |}.

Definition record_success (m : AuthLockout) (id : string) (now : DateTime) :
    result unit LockoutError * AuthLockout :=
  match accounts m !! id with
  | Some s =>
      if decide (status s = PermanentlyLocked) then (Err ErrPermanentlyLocked, m)
      else (Ok tt, set_account m id (success_account now s))
  | None => (Ok tt, m)
  end.

Definition unlock_account (s : AccountState) : AccountState :=
  {| account_id := account_id s; status := Active; failed_attempts := [];
     total_lockouts := total_lockouts s; locked_at := None; lockout_expires_at := None;
     last_success := last_success s; created_at := created_at s |}.

Definition admin_unlock (m : AuthLockout) (id : string) : result unit LockoutError * AuthLockout :=
  match accounts m !! id with
  | Some s => (Ok tt, set_account m id (unlock_account s))
  | None => (Ok tt, m)
  end.

Definition get_status (m : AuthLockout) (id : string) (now : DateTime) :
    result (option LockoutStatus) LockoutError :=
  Ok ((λ s, if bool_decide (status s = TemporarilyLocked) && is_lockout_expired now s
            then Active else status s) <$> accounts m !! id).

Definition get_remaining_lockout_time (m : AuthLockout) (id : string) (now : DateTime) :
    result Z LockoutError :=
  match accounts m !! id with
  | Some s =>
      match status s with
      | TemporarilyLocked =>
          match lockout_expires_at s with
          | Some expires => Ok (Z.max (num_seconds (expires - now)) 0)
          | None => Ok 0
          end
      | PermanentlyLocked => Ok i64_MAX
      | Active => Ok 0
      end
  | None => Ok 0
  end.

Definition get_failure_count (m : AuthLockout) (id : string) (now : DateTime) :
    result Z LockoutError :=
  Ok (match accounts m !! id with
      | Some s => recent_failure_count now (failure_window_secs (config m)) s
      | None => 0
      end).

(** ** Histories

    The operations that change the state, as a caller issues them. *)
Inductive Event :=
| EvFailure (id : string) (ip : option string) (reason : string) (clk : Clock)
| EvSuccess (id : string) (now : DateTime)
| EvAdminUnlock (id : string).

Definition ev_account (e : Event) : string :=
  match e with EvFailure id _ _ _ | EvSuccess id _ | EvAdminUnlock id => id end.

Definition ev_step (m : AuthLockout) (e : Event) : AuthLockout :=
  match e with
  | EvFailure id ip reason clk => (record_failure m id ip reason clk).2
  | EvSuccess id now => (record_success m id now).2
  | EvAdminUnlock id => (admin_unlock m id).2
  end.

Definition run (m : AuthLockout) (es : list Event) : AuthLockout := foldl ev_step m es.

(** ** Theorems *)

(** An operation changes the entry of its account only, and never removes
    an entry or changes the configuration. *)
Lemma ev_step_frame m e id :
  id ≠ ev_account e → accounts (ev_step m e) !! id = accounts m !! id.
Proof.
  intros Hne. destruct e as [i ip r clk|i now|i]; simpl in *;
    unfold record_failure, record_success, admin_unlock; simpl.
  - destruct (fail_account _ _ _ _ _). simpl. rewrite lookup_insert. by case_decide.
  - repeat case_match; simpl; by rewrite ?lookup_insert_ne by done.
  - repeat case_match; simpl; by rewrite ?lookup_insert_ne by done.
Qed.

Lemma ev_step_config m e : config (ev_step m e) = config m.
Proof.
  destruct e; simpl; unfold record_failure, record_success, admin_unlock;
    [destruct (fail_account _ _ _ _ _)|repeat case_match..]; done.
Qed.

Lemma run_config m es : config (run m es) = config m.
Proof.
  revert m. induction es as [|e es IH]; simpl; intros m; [done|].
  unfold run in *. simpl. by rewrite IH, ev_step_config.
Qed.

(** The shape of an account state: the lock fields say what the status
    says. *)
Definition account_wf (id : string) (s : AccountState) : Prop :=
  account_id s = id ∧
  match status s with
  | Active => locked_at s = None ∧ lockout_expires_at s = None
  | TemporarilyLocked => is_Some (locked_at s) ∧ is_Some (lockout_expires_at s)
  | PermanentlyLocked => is_Some (locked_at s) ∧ lockout_expires_at s = None
  end.

Definition lockout_wf (m : AuthLockout) : Prop := map_Forall account_wf (accounts m).

Lemma reset_if_expired_wf id now s :
  account_wf id s → account_wf id (reset_if_expired now s).
Proof. unfold reset_if_expired, account_wf. intros [? ?]. by destruct (bool_decide _ && _). Qed.

Lemma fail_account_wf c ip r clk id s :
  account_wf id s → account_wf id (fail_account c ip r clk s).1.
Proof.
  intros H. apply (reset_if_expired_wf _ (clk 1%nat)) in H. unfold fail_account.
  destruct (decide _); [done|]. destruct H as [Hid H].
  unfold account_wf. destruct (_ <=? _); [|done].
  destruct (permanent_lockout c && _); simpl; split_and!; eauto.
Qed.

Lemma ev_step_wf m e : lockout_wf m → lockout_wf (ev_step m e).
Proof.
  intros Hwf. destruct e as [i ip r clk|i now|i]; simpl;
    unfold record_failure, record_success, admin_unlock.
  - assert (H0 : account_wf i (default (new_account i (clk 0%nat)) (accounts m !! i))).
    { destruct (accounts m !! i) eqn:Hi; [by apply (Hwf i)|by repeat split]. }
    apply (fail_account_wf (config m) ip r clk) in H0.
    destruct (fail_account _ _ _ _ _) as [s st]. by apply map_Forall_insert_2.
  - repeat case_match; simpl; try done. apply map_Forall_insert_2; [|done].
    split; [|done]. by eapply Hwf in H as [??].
  - repeat case_match; simpl; try done. apply map_Forall_insert_2; [|done].
    split; [|done]. by eapply Hwf in H as [??].
Qed.

(** In every state the operations reach, each account's lock fields
    agree with its status: unlocked accounts carry no lock times, a temporary
    lock always has an expiry, a permanent one never has. *)
Theorem reachable_lockout_wf c es : lockout_wf (run (new_lockout c) es).
Proof.
  assert (H : lockout_wf (new_lockout c)) by (intros ???; done).
  revert H. generalize (new_lockout c) as m. induction es as [|e es IH]; simpl; [done|].
  intros m H. by apply IH, ev_step_wf.
Qed.

Lemma fail_permanent c ip r clk s :
  status s = PermanentlyLocked → fail_account c ip r clk s = (s, PermanentlyLocked).
Proof.
  intros H. unfold fail_account, reset_if_expired.
  rewrite H, bool_decide_eq_false_2 by done. simpl. by rewrite H.
Qed.

Lemma ev_step_permanent m e id s :
  accounts m !! id = Some s → status s = PermanentlyLocked → e ≠ EvAdminUnlock id →
  accounts (ev_step m e) !! id = Some s.
Proof.
  intros Hs Hp Hne. destruct (decide (id = ev_account e)) as [->|Hd];
    [|by rewrite ev_step_frame].
  destruct e as [i ip r clk|i now|i]; simpl in *; [| |congruence];
    unfold record_failure, record_success.
  - rewrite Hs. simpl. rewrite fail_permanent by done. simpl.
    rewrite lookup_insert. by case_decide.
  - rewrite Hs. by case_decide.
Qed.

(** A permanent lock is final: whatever attempts, successes and unlocks
    of other accounts follow, as long as no administrator unlocks the account
    it stays permanently locked, unchanged, and is denied at every time. *)
Theorem permanent_lock_absorbing m id s es :
  accounts m !! id = Some s → status s = PermanentlyLocked →
  EvAdminUnlock id ∉ es →
  accounts (run m es) !! id = Some s ∧
  ∀ now, is_authentication_allowed (run m es) id now = Ok false.
Proof.
  intros Hs Hp Hes.
  assert (H : accounts (run m es) !! id = Some s).
  { revert m Hs. induction es as [|e es IH]; simpl; intros m Hs; [done|].
    apply IH; [set_solver|]. apply ev_step_permanent; set_solver. }
  split; [done|]. intros now. unfold is_authentication_allowed. by rewrite H, Hp.
Qed.

(** ** The threshold *)

Definition fail_event (id : string) (clk : Clock) : Event := EvFailure id None "bad" clk.

(** Every read of the clock falls in the window that starts at [t0]. *)
Definition reads_within (t0 : DateTime) (window_secs : Z) (clk : Clock) : Prop :=
  ∀ i, t0 ≤ clk i < t0 + seconds window_secs.

Definition counting (t0 : DateTime) (s : AccountState) (k : nat) : Prop :=
  status s = Active ∧ length (failed_attempts s) = k ∧
  Forall (λ a, t0 ≤ timestamp a) (failed_attempts s).

Lemma recent_all t0 W now l :
  now < t0 + seconds W → Forall (λ a, t0 ≤ timestamp a) l → recent (now - seconds W) l = l.
Proof.
  intros Hn Hl. unfold recent. induction Hl as [|a l Ha Hl IH]; [done|].
  rewrite filter_cons_True by lia. by rewrite IH.
Qed.

Lemma fail_counting c ip r clk t0 s k :
  counting t0 s k → reads_within t0 (failure_window_secs c) clk →
  Z.of_nat (S k) < 2 ^ 32 →
  let out := fail_account c ip r clk s in
  if max_failed_attempts c <=? Z.of_nat (S k) then
    status out.1 = out.2 ∧
    (out.2 = PermanentlyLocked ∨ out.2 = TemporarilyLocked ∧
       lockout_expires_at out.1 = Some (clk 6%nat + seconds (lockout_duration_secs c)))
  else out.2 = Active ∧ counting t0 out.1 (S k).
Proof.
  intros (Ha & Hlen & Hall) Hclk Hk. simpl. unfold fail_account, reset_if_expired.
  rewrite bool_decide_eq_false_2 by congruence. simpl.
  rewrite decide_False by congruence.
  assert (Hall' : Forall (λ a, t0 ≤ timestamp a)
    (failed_attempts s ++ [{| timestamp := clk 2%nat; attempt_ip := ip; attempt_reason := r |}])).
  { apply Forall_app. split; [done|]. constructor; [apply Hclk|done]. }
  unfold recent_failure_count, push_failure. simpl.
  rewrite (recent_all t0 _ (clk 3%nat)) by (done || apply Hclk).
  rewrite (recent_all t0 _ (clk 4%nat)) by (done || apply Hclk).
  rewrite length_app, Hlen. simpl. unfold wrap.
  rewrite (Z.mod_small (Z.of_nat (k + 1))) by lia.
  replace (k + 1)%nat with (S k) by lia. case_match; [case_match; simpl; auto|].
  split; [done|]. split; [done|]. split; [|done]. simpl. rewrite length_app, Hlen. simpl. lia.
Qed.

Lemma run_snoc m es e : run m (es ++ [e]) = ev_step (run m es) e.
Proof. unfold run. by rewrite foldl_app. Qed.

Lemma fails_counting c id t0 clks :
  Forall (reads_within t0 (failure_window_secs c)) clks →
  Z.of_nat (length clks) < max_failed_attempts c < 2 ^ 32 →
  match clks with [] => True | _ =>
    ∃ s, accounts (run (new_lockout c) (fail_event id <$> clks)) !! id = Some s ∧
         counting t0 s (length clks)
  end.
Proof.
  induction clks as [|clk clks IH] using rev_ind; [done|].
  rewrite Forall_app, Forall_singleton, length_app. simpl. intros [Hclks Hclk] Hlt.
  assert (∃ s, default (new_account id (clk 0%nat))
      (accounts (run (new_lockout c) (fail_event id <$> clks)) !! id) = s ∧
    counting t0 s (length clks)) as (s & Hs & Hc).
  { specialize (IH Hclks ltac:(lia)). destruct clks as [|x l].
    - eexists. split; [reflexivity|]. unfold run. simpl. by rewrite lookup_empty.
    - destruct IH as (s & -> & Hc). by exists s. }
  pose proof (fail_counting c None "bad" clk t0 s _ Hc Hclk ltac:(lia)) as H.
  enough (Hgoal : ∃ s0, accounts (run (new_lockout c) (fail_event id <$> clks ++ [clk])) !! id
      = Some s0 ∧ counting t0 s0 (length clks + 1)) by (by destruct (clks ++ [clk])).
  rewrite fmap_app. simpl. rewrite run_snoc. simpl. unfold record_failure.
  rewrite Hs, run_config. simpl. destruct (fail_account _ _ _ _ _) as [s' st]. simpl in *.
  rewrite lookup_insert, decide_True by done. exists s'. split; [done|].
  rewrite (proj2 (Z.leb_gt _ _)) in H by lia. replace (length clks + 1)%nat with (S (length clks)) by lia.
  apply H.
Qed.

(** Brute force is stopped by the threshold: on a new account, failed
    attempts whose clock reads lie in one failure window leave the account
    open while there are fewer than [max_failed_attempts] of them, and the
    attempt that reaches the threshold locks it, so that no attempt is allowed
    up to [lockout_duration_secs] after that attempt. *)
Theorem lockout_threshold c id t0 clks clk :
  Forall (reads_within t0 (failure_window_secs c)) (clks ++ [clk]) →
  Z.of_nat (length clks) < max_failed_attempts c < 2 ^ 32 →
  let before := run (new_lockout c) (fail_event id <$> clks) in
  let after := run (new_lockout c) (fail_event id <$> clks ++ [clk]) in
  (∀ now, is_authentication_allowed before id now = Ok true) ∧
  (Z.of_nat (length clks + 1) = max_failed_attempts c →
   ∀ now, now ≤ clk 6%nat + seconds (lockout_duration_secs c) →
     is_authentication_allowed after id now = Ok false).
Proof.
  rewrite Forall_app, Forall_singleton. intros [Hclks Hclk] Hlt before after.
  pose proof (fails_counting c id t0 clks Hclks Hlt) as Hc.
  assert (H : ∃ s, default (new_account id (clk 0%nat)) (accounts before !! id) = s ∧
    counting t0 s (length clks)).
  { unfold before. destruct clks; [|destruct Hc as (s & -> & Hc); by exists s].
    eexists. split; [reflexivity|]. unfold run. simpl. by rewrite lookup_empty. }
  split.
  - intros now. unfold is_authentication_allowed, before. destruct clks; [done|].
    destruct Hc as (s & -> & -> & _). done.
  - intros Hmax now Hnow. destruct H as (s & Hs & H).
    pose proof (fail_counting c None "bad" clk t0 s _ H Hclk ltac:(lia)) as Hf.
    unfold is_authentication_allowed, after. rewrite fmap_app. simpl. rewrite run_snoc.
    fold before. simpl. unfold record_failure. rewrite Hs. unfold before. rewrite run_config.
    simpl in *. destruct (fail_account _ _ _ _ _) as [s' st]. simpl in *.
    rewrite lookup_insert, decide_True by done.
    rewrite (proj2 (Z.leb_le _ _)) in Hf by lia.
    destruct Hf as [Hst [->|[-> Hexp]]]; rewrite Hst; [done|].
    unfold is_lockout_expired. rewrite Hst, Hexp.
    by rewrite (proj2 (Z.ltb_ge _ _)) by lia.
Qed.

#[local] Definition demo_clock (t : Z) : Clock := λ _, t * NANOS.
Lemma lockout_threshold_witness :
  is_authentication_allowed
    (run (new_lockout high_security) (fail_event "bob" <$> [demo_clock 1; demo_clock 2; demo_clock 3]))
    "bob" (1000 * NANOS) = Ok false.
Proof.
  apply (lockout_threshold high_security "bob" 0 [demo_clock 1; demo_clock 2] (demo_clock 3)).
  - simpl. rewrite !Forall_cons, Forall_nil. unfold reads_within, demo_clock, seconds, NANOS.
    split_and!; simpl; try done; lia.
  - split; reflexivity.
  - reflexivity.
  - by apply Z.leb_le.
Defined.

Lemma permanent_lock_absorbing_witness :
  let m := run (new_lockout high_security)
             (fail_event "bob" <$> (demo_clock <$> [1; 2; 3; 4])) in
  is_authentication_allowed (run m [EvSuccess "bob" 0; EvAdminUnlock "eve"]) "bob" 0 = Ok false.
Proof.
  intros m. destruct (accounts m !! "bob") as [s|] eqn:E; [|by vm_compute in E].
  refine (proj2 (permanent_lock_absorbing m "bob" s [EvSuccess "bob" 0; EvAdminUnlock "eve"] E _ _) 0).
  - vm_compute in E. by simplify_eq.
  - rewrite list_elem_of_In. intros [H|[H|[]]]; discriminate H.
Defined.

(** "Number of consecutive lockouts before permanent lockout": attempts
    made while a temporary lock is in force are counted as further lockouts.
    Under [high_security] (three attempts, two lockouts) the third attempt
    locks the account for thirty minutes and a fourth, one second later,
    locks it permanently, with no lock having expired in between. *)
Theorem permanent_lock_without_second_lockout :
  let m := run (new_lockout high_security) (fail_event "bob" <$> (demo_clock <$> [1; 2; 3])) in
  get_status m "bob" (demo_clock 4 0%nat) = Ok (Some TemporarilyLocked) ∧
  (record_failure m "bob" None "bad" (demo_clock 4)).1 = Ok PermanentlyLocked.
Proof. split; vm_compute; reflexivity. Qed.
