(* ===== verification/Approval.v ===== *)
(** * Certificate request approval

    [crates/ostrich-ca/src/approval.rs]: the approval request, its decisions
    and the engine that enforces segregation of duties.  [serde_json::Value]
    is the parameter [Json]; identifiers drawn by [Uuid::new_v4()] and clock
    reads are arguments of the operations, in program order. *)
From S2P Require Import Prelude Roles.
From stdpp Require Import base list gmap strings.
#[local] Open Scope Z_scope.

Inductive RequestType := Issuance | Revocation | Renewal.
#[export] Instance RequestType_eq_dec : EqDecision RequestType.
Proof. solve_decision. Defined.

Definition request_type_display (t : RequestType) : string :=
  match t with
  | Issuance => "issuance"
  | Revocation => "revocation"
  | Renewal => "renewal"
  end.

Inductive ApprovalStatus := Pending | Approved | Rejected | Expired | Completed.
#[export] Instance ApprovalStatus_eq_dec : EqDecision ApprovalStatus.
Proof. solve_decision. Defined.

Definition approval_status_display (s : ApprovalStatus) : string :=
  match s with
  | Pending => "pending"
  | Approved => "approved"
  | Rejected => "rejected"
  | Expired => "expired"
  | Completed => "completed"
  end.

(** The derived [Debug]. *)
Definition approval_status_debug (s : ApprovalStatus) : string :=
  match s with
  | Pending => "Pending"
  | Approved => "Approved"
  | Rejected => "Rejected"
  | Expired => "Expired"
  | Completed => "Completed"
  end.

Section from_str.
Context `{!Lowercase}.

Definition request_type_from_str (s : string) : result RequestType string :=
  ok_or (table_lookup (to_lowercase s)
           [("issuance", Issuance); ("revocation", Revocation); ("renewal", Renewal)])
        ("Invalid request type: " +:+ s).

Definition approval_status_from_str (s : string) : result ApprovalStatus string :=
  ok_or (table_lookup (to_lowercase s)
           [("pending", Pending); ("approved", Approved); ("rejected", Rejected);
            ("expired", Expired); ("completed", Completed)])
        ("Invalid approval status: " +:+ s).
End from_str.

Inductive Decision := DApproved | DRejected | DNeedsInfo | DDeferred.
#[export] Instance Decision_eq_dec : EqDecision Decision.
Proof. solve_decision. Defined.

Definition decision_display (d : Decision) : string :=
  match d with
  | DApproved => "approved"
  | DRejected => "rejected"
  | DNeedsInfo => "needs_info"
  | DDeferred => "deferred"
  end.

(** The errors of [crates/ostrich-ca/src/error.rs] the workflow returns. *)
Inductive CaError :=
| ErrSelfApprovalProhibited
| InsufficientRole (required : string)
| InvalidApprovalState (current expected : string)
| ApprovalRequestExpired (expired_at : DateTime).

Record ApprovalConfig := {
  require_approval : bool;
  expiration_duration : Z;
  require_multi_approval : bool;
  required_approvals : Z
}.

Definition default_config : ApprovalConfig := {|
  require_approval := true;
  expiration_duration := seconds (7 * 86400);
  require_multi_approval := false;
  required_approvals := 1
|}.

Section approval.
Context {Json : Type}.

Record ApprovalDecision := {
  decision_id : Uuid;
  request_id : Uuid;
  approver_id : Uuid;
  approver_username : string;
  approver_roles : list Role;
  decision : Decision;
  reason : option string;
  justification : option string;
  decided_at : DateTime;
  decision_metadata : option Json
}.

Record ApprovalRequest := {
  id : Uuid;
  request_type : RequestType;
  csr_id : option Uuid;
  certificate_id : option Uuid;
  requestor_id : Uuid;
  requestor_username : string;
  requestor_roles : list Role;
  status : ApprovalStatus;
  request_details : Json;
  req_created_at : DateTime;
  expires_at : DateTime;
  approved_at : option DateTime;
  completed_at : option DateTime;
  decisions : list ApprovalDecision;
  metadata : option Json
}.

Definition new_request (new_id : Uuid) (now : DateTime) (t : RequestType)
    (requestor : AuthenticatedUser) (details : Json) (c : ApprovalConfig) :
    ApprovalRequest := {|
  id := new_id; request_type := t; csr_id := None; certificate_id := None;
  requestor_id := user_id requestor; requestor_username := username requestor;
  requestor_roles := roles requestor; status := Pending; request_details := details;
  req_created_at := now; expires_at := now + expiration_duration c; approved_at := None;
  completed_at := None; decisions := []; metadata := None
|}.

(** Assignments to the fields the methods change. *)
Definition set_status (s : ApprovalStatus) (at_ : option DateTime) (r : ApprovalRequest) :
    ApprovalRequest := {|
  id := id r; request_type := request_type r; csr_id := csr_id r;
  certificate_id := certificate_id r; requestor_id := requestor_id r;
  requestor_username := requestor_username r; requestor_roles := requestor_roles r;
  status := s; request_details := request_details r; req_created_at := req_created_at r;
  expires_at := expires_at r; approved_at := at_; completed_at := completed_at r;
  decisions := decisions r; metadata := metadata r
|}.

Definition push_decision (d : ApprovalDecision) (r : ApprovalRequest) : ApprovalRequest := {|
  id := id r; request_type := request_type r; csr_id := csr_id r;
  certificate_id := certificate_id r; requestor_id := requestor_id r;
  requestor_username := requestor_username r; requestor_roles := requestor_roles r;
  status := status r; request_details := request_details r;
  req_created_at := req_created_at r; expires_at := expires_at r;
  approved_at := approved_at r; completed_at := completed_at r;
  decisions := decisions r ++ [d]; metadata := metadata r
|}.

Definition set_links (csr cert : option Uuid) (completed : option DateTime)
    (r : ApprovalRequest) : ApprovalRequest := {|
  id := id r; request_type := request_type r; csr_id := csr; certificate_id := cert;
  requestor_id := requestor_id r; requestor_username := requestor_username r;
  requestor_roles := requestor_roles r; status := status r;
  request_details := request_details r; req_created_at := req_created_at r;
  expires_at := expires_at r; approved_at := approved_at r; completed_at := completed;
  decisions := decisions r; metadata := metadata r
|}.

Definition link_csr (csr : Uuid) (r : ApprovalRequest) : ApprovalRequest :=
  set_links (Some csr) (certificate_id r) (completed_at r) r.
Definition link_certificate (cert : Uuid) (r : ApprovalRequest) : ApprovalRequest :=
  set_links (csr_id r) (Some cert) (completed_at r) r.

Definition is_expired (now : DateTime) (r : ApprovalRequest) : bool := expires_at r <? now.

Definition can_approve (now : DateTime) (u : AuthenticatedUser) (r : ApprovalRequest) :
    result unit CaError :=
  if decide (requestor_id r = user_id u) then Err ErrSelfApprovalProhibited
  else if negb (any_role_has_permission (roles u) ApproveRequest) then
    Err (InsufficientRole "approval permission (ApproveRequest)")
  else if decide (status r ≠ Pending) then
    Err (InvalidApprovalState (approval_status_debug (status r)) "Pending")
  else if is_expired now r then Err (ApprovalRequestExpired (expires_at r))
  else Ok tt.

Definition can_reject (now : DateTime) (u : AuthenticatedUser) (r : ApprovalRequest) :
    result unit CaError :=
  if decide (requestor_id r = user_id u) then Err ErrSelfApprovalProhibited
  else if negb (any_role_has_permission (roles u) RejectRequest) then
    Err (InsufficientRole "rejection permission (RejectRequest)")
  else if decide (status r ≠ Pending) then
    Err (InvalidApprovalState (approval_status_debug (status r)) "Pending")
  else if is_expired now r then Err (ApprovalRequestExpired (expires_at r))
  else Ok tt.

Definition mk_decision_record (new_id : Uuid) (now : DateTime) (r : ApprovalRequest)
    (u : AuthenticatedUser) (d : Decision) (why just : option string) : ApprovalDecision := {|
  decision_id := new_id; request_id := id r; approver_id := user_id u;
  approver_username := username u; approver_roles := roles u; decision := d;
  reason := why; justification := just; decided_at := now; decision_metadata := None
|}.

(** Clock reads: 0 the expiry test, 1 [decided_at], 2 [approved_at]. *)
Definition add_decision (new_id : Uuid) (clk : Clock) (u : AuthenticatedUser) (d : Decision)
    (why just : option string) (r : ApprovalRequest) :
    result unit CaError * ApprovalRequest :=
  match can_approve (clk 0%nat) u r with
  | Err e => (Err e, r)
  | Ok _ =>
      let r' := push_decision (mk_decision_record new_id (clk 1%nat) r u d why just) r in
      (Ok tt,
       match d with
       | DApproved => set_status Approved (Some (clk 2%nat)) r'
       | DRejected => set_status Rejected (approved_at r') r'
       | DNeedsInfo | DDeferred => r'
       end)
  end.

Definition mark_completed (now : DateTime) (cert : Uuid) (r : ApprovalRequest) :
    result unit CaError * ApprovalRequest :=
  if decide (status r ≠ Approved) then
    (Err (InvalidApprovalState (approval_status_debug (status r)) "Approved"), r)
  else
    (Ok tt, set_links (csr_id r) (Some cert) (Some now) (set_status Completed (approved_at r) r)).

Definition expire_if_needed (now : DateTime) (r : ApprovalRequest) : ApprovalRequest :=
  if bool_decide (status r = Pending) && is_expired now r
  then set_status Expired (approved_at r) r else r.

(** The row of [approval_requests] ([ostrich_db::models::approval]). *)
Record ApprovalRequestRecord := {
  rec_id : Uuid;
  rec_request_type : string;
  rec_csr_id : option Uuid;
  rec_certificate_id : option Uuid;
  rec_requestor_id : Uuid;
  rec_requestor_username : string;
  rec_requestor_roles : list string;
  rec_status : string;
  rec_request_details : Json;
  rec_created_at : DateTime;
  rec_expires_at : DateTime;
  rec_approved_at : option DateTime;
  rec_completed_at : option DateTime;
  rec_metadata : option Json
}.

Definition from_record `{!Lowercase} (rec : ApprovalRequestRecord) : ApprovalRequest := {|
  id := rec_id rec;
  request_type :=
    match request_type_from_str (rec_request_type rec) with Ok t => t | Err _ => Issuance end;
  csr_id := rec_csr_id rec; certificate_id := rec_certificate_id rec;
  requestor_id := rec_requestor_id rec; requestor_username := rec_requestor_username rec;
  requestor_roles :=
    omap (λ s, match role_from_str s with Ok r => Some r | Err _ => None end)
      (rec_requestor_roles rec);
  status :=
    match approval_status_from_str (rec_status rec) with Ok s => s | Err _ => Pending end;
  request_details := rec_request_details rec; req_created_at := rec_created_at rec;
  expires_at := rec_expires_at rec; approved_at := rec_approved_at rec;
  completed_at := rec_completed_at rec; decisions := []; metadata := rec_metadata rec
|}.

(** The row a request is stored as (rest.rs). *)
Definition request_record (r : ApprovalRequest) : ApprovalRequestRecord :=
  {| rec_id := id r;
     rec_request_type := request_type_display (request_type r);
     rec_csr_id := csr_id r; rec_certificate_id := certificate_id r;
     rec_requestor_id := requestor_id r;
     rec_requestor_username := requestor_username r;
     rec_requestor_roles := role_name <$> requestor_roles r;
     rec_status := approval_status_display (status r);
     rec_request_details := request_details r;
     rec_created_at := req_created_at r;
     rec_expires_at := expires_at r;
     rec_approved_at := approved_at r;
     rec_completed_at := completed_at r; rec_metadata := None |}.

(** ** The engine *)

Definition create_request (c : ApprovalConfig) (new_id : Uuid) (now : DateTime)
    (t : RequestType) (requestor : AuthenticatedUser) (details : Json) : ApprovalRequest :=
  new_request new_id now t requestor details c.

(** Clock reads: 0 the expiry test, 1 [decided_at]. *)
Definition approve_request (new_id : Uuid) (clk : Clock) (u : AuthenticatedUser)
    (just : string) (r : ApprovalRequest) :
    result ApprovalDecision CaError * ApprovalRequest :=
  match can_approve (clk 0%nat) u r with
  | Err e => (Err e, r)
  | Ok _ =>
      let d := mk_decision_record new_id (clk 1%nat) r u DApproved (Some "Approved") (Some just) in
      (Ok d, set_status Approved (Some (decided_at d)) (push_decision d r))
  end.

Definition reject_request (new_id : Uuid) (clk : Clock) (u : AuthenticatedUser)
    (why just : string) (r : ApprovalRequest) :
    result ApprovalDecision CaError * ApprovalRequest :=
  match can_reject (clk 0%nat) u r with
  | Err e => (Err e, r)
  | Ok _ =>
      let d := mk_decision_record new_id (clk 1%nat) r u DRejected (Some why) (Some just) in
      (Ok d, set_status Rejected (approved_at r) (push_decision d r))
  end.

Definition complete_request (now : DateTime) (cert : Uuid) (r : ApprovalRequest) :
    result unit CaError * ApprovalRequest :=
  mark_completed now cert r.

(** ** The state machine

    One step is one call on the request, successful or not. *)
Inductive step : ApprovalRequest → ApprovalRequest → Prop :=
| StepLinkCsr csr r : step r (link_csr csr r)
| StepLinkCertificate cert r : step r (link_certificate cert r)
| StepAddDecision i clk u d why just r : step r (add_decision i clk u d why just r).2
| StepApprove i clk u just r : step r (approve_request i clk u just r).2
| StepReject i clk u why just r : step r (reject_request i clk u why just r).2
| StepComplete now cert r : step r (complete_request now cert r).2
| StepExpire now r : step r (expire_if_needed now r).

(** The transitions of the state diagram in the module's documentation. *)
Definition documented (s s' : ApprovalStatus) : bool :=
  match s, s' with
  | Pending, (Approved | Rejected | Expired) => true
  | Approved, Completed => true
  | _, _ => bool_decide (s = s')
  end.

(** The life of a request, with every decision ever made on it: calls, and
    between them the request is stored and a new object loaded from its row,
    which has no decisions. *)
Inductive life `{!Lowercase} : list ApprovalDecision → ApprovalRequest → Prop :=
| LifeNew i now t u details c : life [] (create_request c i now t u details)
| LifeStep past made r r' :
    life past r → step r r' → decisions r' = decisions r ++ made → life (past ++ made) r'
| LifeReload past r : life past r → life past (from_record (request_record r)).
End approval.
Arguments ApprovalRequest : clear implicits.
Arguments ApprovalDecision : clear implicits.
Arguments ApprovalRequestRecord : clear implicits.

(** ** Theorems *)

Section theorems.
Context {Json : Type}.
Implicit Types r : ApprovalRequest Json.

Lemma can_approve_Ok now u r :
  can_approve now u r = Ok tt ↔
  requestor_id r ≠ user_id u ∧ any_role_has_permission (roles u) ApproveRequest = true ∧
  status r = Pending ∧ now ≤ expires_at r.
Proof.
  unfold can_approve, is_expired. case_decide; [naive_solver|].
  destruct (any_role_has_permission _ _); simpl; [|naive_solver].
  case_decide; [naive_solver|]. destruct (Z.ltb_spec (expires_at r) now); naive_solver lia.
Qed.

Lemma can_reject_Ok now u r :
  can_reject now u r = Ok tt ↔
  requestor_id r ≠ user_id u ∧ any_role_has_permission (roles u) RejectRequest = true ∧
  status r = Pending ∧ now ≤ expires_at r.
Proof.
  unfold can_reject, is_expired. case_decide; [naive_solver|].
  destruct (any_role_has_permission _ _); simpl; [|naive_solver].
  case_decide; [naive_solver|]. destruct (Z.ltb_spec (expires_at r) now); naive_solver lia.
Qed.

(** A decision that [d], made on [r], is allowed to be: not by the
    requestor, and by a holder of an approver's permission. *)
Definition independent r (d : ApprovalDecision Json) : Prop :=
  approver_id d ≠ requestor_id r ∧
  any_role_has_permission (approver_roles d) ApproveRequest = true.

Definition final (d : ApprovalDecision Json) : bool :=
  bool_decide (decision d = DApproved) || bool_decide (decision d = DRejected).

(** What the status says about the decisions that decide. *)
Definition decided_as r : list Decision :=
  match status r with
  | Pending | Expired => []
  | Rejected => [DRejected]
  | Approved | Completed => [DApproved]
  end.

Definition life_inv (past : list (ApprovalDecision Json)) r : Prop :=
  Forall (independent r) past ∧
  decision <$> filter (λ d, final d = true) past = decided_as r.

(** How one call can change the request, as far as the invariant sees. *)
Inductive change r : ApprovalRequest Json → Prop :=
| ChangeLinks r' :
    requestor_id r' = requestor_id r → status r' = status r → decisions r' = decisions r →
    completed_at r' = completed_at r → change r r'
| ChangeDecision d s at_ :
    status r = Pending → independent r d →
    decided_as (set_status s at_ r) = (if final d then [decision d] else []) →
    (s = Pending ∨ s = Approved ∨ s = Rejected) →
    change r (set_status s at_ (push_decision d r))
| ChangeComplete cert now :
    status r = Approved →
    change r (set_links (csr_id r) cert now (set_status Completed (approved_at r) r))
| ChangeExpire at_ : status r = Pending → change r (set_status Expired at_ r).

Lemma set_status_id r : set_status (status r) (approved_at r) r = r.
Proof. by destruct r. Qed.

Lemma change_refl r : change r r.
Proof. by apply ChangeLinks. Qed.

Lemma approver_may_reject us :
  any_role_has_permission us RejectRequest = any_role_has_permission us ApproveRequest.
Proof.
  unfold any_role_has_permission. induction us as [|u us IH]; simpl; [done|].
  rewrite IH. by destruct u.
Qed.

Lemma step_change r r' : step r r' → change r r'.
Proof.
  intros []; try by apply ChangeLinks.
  - unfold add_decision. case_match eqn:E; [|apply change_refl]. destruct x.
    apply can_approve_Ok in E as (Hne & Hp & Hs & _).
    destruct d; simpl; [| |rewrite <- (set_status_id (push_decision _ _))..];
      (apply ChangeDecision; [done|split; simpl; [congruence|done]|unfold decided_as; simpl; by rewrite ?Hs|simpl; rewrite ?Hs; auto]).
  - unfold approve_request. case_match eqn:E; [|apply change_refl]. destruct x.
    apply can_approve_Ok in E as (Hne & Hp & Hs & _).
    apply ChangeDecision; [done|split; simpl; [congruence|done]|done|auto].
  - unfold reject_request. case_match eqn:E; [|apply change_refl]. destruct x.
    apply can_reject_Ok in E as (Hne & Hp & Hs & _). rewrite approver_may_reject in Hp.
    apply ChangeDecision; [done|split; simpl; [congruence|done]|done|auto].
  - unfold complete_request, mark_completed. case_decide as Hs; [apply change_refl|].
    by apply ChangeComplete.
  - unfold expire_if_needed. case_match eqn:E; [|apply change_refl].
    apply andb_true_iff in E as [E _]. apply bool_decide_eq_true in E.
    by apply ChangeExpire.
Qed.

Lemma independent_ext r r' d :
  requestor_id r' = requestor_id r → independent r d → independent r' d.
Proof. unfold independent. by intros ->. Qed.

Lemma app_nil_inv {A} (l k : list A) : l = l ++ k → k = [].
Proof. intros Hl. apply (app_inv_head l). by rewrite app_nil_r. Qed.

(** The decisions a change makes: none, or one on a pending request. *)
Lemma change_made r r' made :
  change r r' → decisions r' = decisions r ++ made →
  made = [] ∨ ∃ d, made = [d] ∧ status r = Pending.
Proof.
  intros Hc Hm. destruct Hc as [r' H1 H2 H3 H4|d s at_ Hp Hd Hs Hcases|cert now Hp|at_ Hp];
    simpl in Hm.
  - left. rewrite H3 in Hm. by apply app_nil_inv in Hm.
  - right. exists d. by apply app_inv_head in Hm as <-.
  - left. by apply app_nil_inv in Hm.
  - left. by apply app_nil_inv in Hm.
Qed.

Lemma change_inv past made r r' :
  change r r' → decisions r' = decisions r ++ made → life_inv past r → life_inv (past ++ made) r'.
Proof.
  intros Hc Hm (Hind & Hfin). unfold life_inv.
  destruct Hc as [r' H1 H2 H3 H4|d s at_ Hp Hd Hs Hcases|cert now Hp|at_ Hp]; simpl in Hm.
  - rewrite H3 in Hm. apply app_nil_inv in Hm as ->. rewrite app_nil_r. split.
    + eapply Forall_impl; [done|]. intros d. by apply independent_ext.
    + rewrite Hfin. unfold decided_as. by rewrite H2.
  - apply app_inv_head in Hm as <-. split; [apply Forall_app; split; [done|by constructor]|].
    unfold decided_as in *. simpl in *. rewrite Hp in Hfin. rewrite Hs.
    rewrite filter_app, fmap_app, Hfin. rewrite filter_cons, filter_nil. by destruct (final d).
  - apply app_nil_inv in Hm as ->. rewrite app_nil_r. split; [done|].
    unfold decided_as in *. by rewrite Hp in Hfin.
  - apply app_nil_inv in Hm as ->. rewrite app_nil_r. split; [done|].
    unfold decided_as in *. by rewrite Hp in Hfin.
Qed.

Lemma reloaded_status `{!Lowercase} r : status (from_record (request_record r)) = status r.
Proof.
  simpl. unfold approval_status_from_str.
  destruct (status r); rewrite to_lowercase_ascii; by vm_compute.
Qed.

Lemma life_keeps_inv `{!Lowercase} past r : life past r → life_inv past r.
Proof.
  induction 1 as [|past made r r' _ IH Hs Hm|past r _ [IH1 IH2]].
  - split; [by constructor|done].
  - eapply change_inv; [by apply step_change|done|done].
  - split.
    + eapply Forall_impl; [exact IH1|]. intros d. by apply independent_ext.
    + rewrite IH2. unfold decided_as. by rewrite reloaded_status.
Qed.

(** The state machine is the documented one: every call, successful or
    refused, takes the request along an edge of the diagram or leaves its
    status alone, and so a rejected, expired or completed request never
    changes status again. *)
Theorem step_documented r r' : step r r' → documented (status r) (status r') = true.
Proof.
  intros [r0 H1 H2 H3 H4|d s at_ Hp Hd Hs Hcases|cert now Hp|at_ Hp]%step_change; simpl.
  - rewrite H2. by destruct (status r).
  - rewrite Hp. by destruct Hcases as [->|[->| ->]].
  - by rewrite Hp.
  - by rewrite Hp.
Qed.

(** C32. Segregation of duties, over the whole life of a request, whose
    object may be stored and loaded again between any two calls.  No decision
    of any kind was made by the requestor, and each was made by a holder of a
    role that may approve requests.  The final decisions ever made are what
    the status says: none while it is pending or when it expired, exactly one
    and a rejection when it is rejected, exactly one and an approval when it
    is approved or completed.  The next call follows the documented diagram
    and makes at most one decision, and none unless the request is
    pending. *)
Theorem segregation_of_duties `{!Lowercase} past r :
  life past r →
  Forall (λ d, approver_id d ≠ requestor_id r ∧
               any_role_has_permission (approver_roles d) ApproveRequest = true) past ∧
  decision <$> filter (λ d, final d = true) past =
    match status r with
    | Pending | Expired => []
    | Rejected => [DRejected]
    | Approved | Completed => [DApproved]
    end ∧
  (∀ r' made, step r r' → decisions r' = decisions r ++ made →
     documented (status r) (status r') = true ∧
     (made = [] ∨ ∃ d, made = [d] ∧ status r = Pending)).
Proof.
  intros (Hind & Hfin)%life_keeps_inv. split_and!; [done|done|].
  intros r' made Hs Hm. split; [by apply step_documented|].
  eapply change_made; [by apply step_change|done].
Qed.

(** Approving, on every branch.  The call succeeds exactly when the
    approver is not the requestor, may approve requests, the request is
    pending and has not expired at the moment of the check; then the
    request is approved, stamped with the decision's time, and the decision
    is recorded in it.  A refused call changes nothing and reports the first
    of these conditions that fails, in this order. *)
Theorem approve_request_spec i clk u just r :
  let out := approve_request i clk u just r in
  match out.1 with
  | Ok d =>
      requestor_id r ≠ user_id u ∧ any_role_has_permission (roles u) ApproveRequest = true ∧
      status r = Pending ∧ clk 0%nat ≤ expires_at r ∧
      status out.2 = Approved ∧ approved_at out.2 = Some (decided_at d) ∧
      decisions out.2 = decisions r ++ [d] ∧ approver_id d = user_id u ∧
      request_id d = id r ∧ decision d = DApproved
  | Err e =>
      out.2 = r ∧
      match e with
      | ErrSelfApprovalProhibited => requestor_id r = user_id u
      | InsufficientRole _ =>
          requestor_id r ≠ user_id u ∧ any_role_has_permission (roles u) ApproveRequest = false
      | InvalidApprovalState _ _ =>
          requestor_id r ≠ user_id u ∧
          any_role_has_permission (roles u) ApproveRequest = true ∧ status r ≠ Pending
      | ApprovalRequestExpired t =>
          requestor_id r ≠ user_id u ∧
          any_role_has_permission (roles u) ApproveRequest = true ∧ status r = Pending ∧
          t = expires_at r ∧ t < clk 0%nat
      end
  end.
Proof.
  simpl. unfold approve_request. destruct (can_approve (clk 0%nat) u r) as [[]|e] eqn:E; simpl.
  - apply can_approve_Ok in E. naive_solver.
  - split; [done|]. revert E. unfold can_approve, is_expired.
    case_decide; [naive_solver|]. destruct (any_role_has_permission _ _) eqn:Hp; simpl; [|naive_solver].
    case_decide as Hs; [naive_solver|].
    destruct (Z.ltb_spec (expires_at r) (clk 0%nat)); naive_solver.
Qed.
End theorems.

(** The texts stored in the database are read back to the status and
    the request type they were written from, in any letter case. *)
Theorem stored_names_roundtrip `{!Lowercase} :
  (∀ s, approval_status_from_str (approval_status_display s) = Ok s) ∧
  (∀ t, request_type_from_str (request_type_display t) = Ok t).
Proof.
  unfold approval_status_from_str, request_type_from_str.
  split; intros []; rewrite to_lowercase_ascii; by vm_compute.
Qed.

#[local] Definition alice : AuthenticatedUser := new_user 1 "alice" [PkiSponsor] Password 0.
#[local] Definition ra : AuthenticatedUser := new_user 2 "ra" [RegistrationAuthority] Password 0.
#[local] Definition demo_request : ApprovalRequest unit :=
  create_request default_config 10 0 Issuance alice ().

#[local] Definition rejected_request : ApprovalRequest unit :=
  (reject_request 11 (λ _, 5) ra "no" "no" demo_request).2.

Lemma demo_life : life (decisions rejected_request) (from_record (request_record rejected_request)).
Proof.
  apply LifeReload. apply (LifeStep [] (decisions rejected_request) demo_request rejected_request).
  - apply LifeNew.
  - apply StepReject.
  - reflexivity.
Qed.

(** A rejected request, loaded again, cannot be decided a second time. *)
Lemma segregation_of_duties_witness :
  decision <$> filter (λ d, final d = true) (decisions rejected_request) = [DRejected] ∧
  documented Rejected (status (approve_request 12 (λ _, 6) ra "ok"
    (from_record (request_record rejected_request))).2) = true.
Proof.
  destruct (segregation_of_duties _ _ demo_life) as (_ & Hf & Hn). split; [exact Hf|].
  exact (proj1 (Hn _ [] (StepApprove 12 (λ _, 6) ra "ok"
    (from_record (request_record rejected_request))) eq_refl)).
Defined.

Lemma step_documented_witness :
  documented (status demo_request) (status (approve_request 11 (λ _, 5) ra "ok" demo_request).2) = true.
Proof. apply step_documented. apply StepApprove. Defined.
