(* ===== verification/Session.v ===== *)
(** * Sessions

    [crates/ostrich-common/src/auth/session.rs]: the session record, the
    [SessionStore] interface with its in-memory implementation, and the
    [SessionManager] that applies the timeout, locking and termination policy
    over any store.  The manager's theorems are proved against the interface;
    [InMemorySessionStore] discharges its laws. *)
From S2P Require Import Prelude.
From stdpp Require Import base list gmap strings.
#[local] Open Scope Z_scope.

Definition DEFAULT_INACTIVITY_TIMEOUT_SECS : Z := 900.
Definition DEFAULT_ABSOLUTE_TIMEOUT_SECS : Z := 28800.
Definition ACTIVITY_PERSIST_INTERVAL_SECS : Z := 60.

Inductive SessionStatus := Active | Locked | Expired | Terminated | AdminTerminated.
#[export] Instance SessionStatus_eq_dec : EqDecision SessionStatus.
Proof. solve_decision. Defined.

Inductive SessionError :=
| SessionNotFound
| SessionExpired
| SessionLocked
| SessionTerminated
| InvalidState (why : string)
| MaxConcurrentSessionsExceeded
| LockPoisoned
| Backend (why : string).

Record SessionConfig := {
  inactivity_timeout_secs : Z;
  absolute_timeout_secs : Z;
  lock_on_inactivity : bool;
  allow_renewal : bool;
  max_concurrent_sessions : Z;
  track_ip : bool;
  track_user_agent : bool
}.

Definition new_config : SessionConfig := {|
  inactivity_timeout_secs := DEFAULT_INACTIVITY_TIMEOUT_SECS;
  absolute_timeout_secs := DEFAULT_ABSOLUTE_TIMEOUT_SECS;
  lock_on_inactivity := true;
  allow_renewal := true;
  max_concurrent_sessions := 3;
  track_ip := true;
  track_user_agent := true
|}.

Definition high_security : SessionConfig := {|
  inactivity_timeout_secs := 300;
  absolute_timeout_secs := 14400;
  lock_on_inactivity := true;
  allow_renewal := false;
  max_concurrent_sessions := 1;
  track_ip := true;
  track_user_agent := true
|}.

Inductive SessionAuditKind := AuditCreated | TerminatedByUser | TerminatedByAdmin.

Record SessionAuditEvent := {
  kind : SessionAuditKind;
  ev_user_id : string;
  ev_session_id : Uuid;
  ev_ip_address : option string;
  actor : option string
}.

Definition terminal (s : SessionStatus) : bool :=
  match s with Terminated | AdminTerminated => true | _ => false end.

(** [metadata] is a [serde_json::Value], the parameter [Json]. *)
Record Session {Json : Type} := {
  id : Uuid;
  token : string;
  user_id : string;
  status : SessionStatus;
  ip_address : option string;
  user_agent : option string;
  created_at : DateTime;
  last_activity : DateTime;
  expires_at : DateTime;
  metadata : option Json
}.
Arguments Session : clear implicits.

Section session.
Context {Json : Type}.
Implicit Types s : Session Json.

(** [Session::new]; the identifier and the token are drawn at random by
    the caller. *)
Definition new_session (new_id : Uuid) (tok : string) (now : DateTime) (user : string)
    (ip ua : option string) (c : SessionConfig) : Session Json := {|
  id := new_id; token := tok; user_id := user; status := Active; ip_address := ip;
  user_agent := ua; created_at := now; last_activity := now;
  expires_at := now + seconds (absolute_timeout_secs c); metadata := None
|}.

Definition is_expired (now : DateTime) s : bool := expires_at s <? now.
Definition is_inactive (now : DateTime) (timeout_secs : Z) s : bool :=
  last_activity s <? now - seconds timeout_secs.
Definition idle_time (now : DateTime) s : Z := num_seconds (now - last_activity s).
Definition remaining_time (now : DateTime) s : Z := Z.max (num_seconds (expires_at s - now)) 0.

Definition set_status (st : SessionStatus) s : Session Json := {|
  id := id s; token := token s; user_id := user_id s; status := st;
  ip_address := ip_address s; user_agent := user_agent s; created_at := created_at s;
  last_activity := last_activity s; expires_at := expires_at s; metadata := metadata s
|}.
Definition touch (now : DateTime) s : Session Json := {|
  id := id s; token := token s; user_id := user_id s; status := status s;
  ip_address := ip_address s; user_agent := user_agent s; created_at := created_at s;
  last_activity := now; expires_at := expires_at s; metadata := metadata s
|}.
Definition lock s : Session Json := set_status Locked s.
Definition unlock (now : DateTime) s : Session Json :=
  if decide (status s = Locked) then touch now (set_status Active s) else s.
Definition terminate s : Session Json := set_status Terminated s.
Definition admin_terminate s : Session Json := set_status AdminTerminated s.

Abbreviation Sessions := (gmap Uuid (Session Json)).

Definition active_of (user : string) s : bool :=
  String.eqb (user_id s) user && bool_decide (status s = Active).
Definition listed_for (user : string) s : bool :=
  String.eqb (user_id s) user
    && (bool_decide (status s = Active) || bool_decide (status s = Locked)).

Definition active_count `{!HashIter Uuid (Session Json)} (user : string) (m : Sessions) : nat :=
  length (filter (λ s, active_of user s = true) (hash_values m)).

(** Whether [delete_expired] keeps a session; [now] is the clock's reading
    when it visits it. *)
Definition kept (now : DateTime) s : bool := negb (is_expired now s) && negb (terminal (status s)).

Definition idle_before (t : DateTime) s : bool :=
  bool_decide (status s = Active) && (last_activity s <? t).

(** [update]'s guard: a terminal status is never replaced by another. *)
Definition put_guarded s (m : Sessions) : Sessions :=
  match m !! id s with
  | Some existing =>
      if terminal (status existing) && negb (terminal (status s)) then m else <[id s := s]> m
  | None => <[id s := s]> m
  end.

(** ** The store interface

    [view] is the sessions a store holds.  A store may fail with any error,
    and then holds what it held; what it does when it succeeds is what the
    trait's documentation promises.  An update of an unknown session may
    insert it (the in-memory store) or do nothing (an SQL [UPDATE]). *)
Class SessionStore (S : Type) `{!HashIter Uuid (Session Json)} := {
  view : S → Sessions;
  store_create : Session Json → Z → S → result unit SessionError * S;
  store_get_by_token : string → S → result (option (Session Json)) SessionError;
  store_get_by_id : Uuid → S → result (option (Session Json)) SessionError;
  store_update : Session Json → S → result unit SessionError * S;
  store_list : string → S → result (list (Session Json)) SessionError;
  store_delete_expired : (Uuid → DateTime) → S → result nat SessionError * S;
  store_lock_idle : DateTime → S → result nat SessionError * S;

  create_law s max st :
    match store_create s max st with
    | (Ok _, st') =>
        Z.of_nat (active_count (user_id s) (view st)) < max ∧ view st' = <[id s := s]> (view st)
    | (Err _, st') => view st' = view st
    end;
  get_by_token_law tok st o :
    store_get_by_token tok st = Ok o →
    match o with
    | Some s => token s = tok ∧ ∃ i, view st !! i = Some s
    | None => ∀ i s, view st !! i = Some s → token s ≠ tok
    end;
  get_by_id_law i st o : store_get_by_id i st = Ok o → o = view st !! i;
  update_law s st :
    match store_update s st with
    | (Ok _, st') =>
        view st' = put_guarded s (view st) ∨ (view st !! id s = None ∧ view st' = view st)
    | (Err _, st') => view st' = view st
    end;
  list_law user st l :
    store_list user st = Ok l →
    l ≡ₚ filter (λ s, listed_for user s = true) (hash_values (view st));
  delete_expired_law rd st :
    match store_delete_expired rd st with
    | (Ok n, st') =>
        view st' = filter (λ p, kept (rd p.1) p.2 = true) (view st) ∧
        size (view st) = (size (view st') + n)%nat
    | (Err _, st') => view st' = view st
    end;
  lock_idle_law t st :
    match store_lock_idle t st with
    | (Ok _, st') => view st' = (λ s, if idle_before t s then lock s else s) <$> view st
    | (Err _, st') => view st' = view st
    end
}.
End session.

(** ** The in-memory store *)

Section in_memory.
Context {Json : Type} `{!HashIter Uuid (Session Json)}.
Abbreviation Sessions := (gmap Uuid (Session Json)).

Definition mem_create (s : Session Json) (max : Z) (m : Sessions) :
    result unit SessionError * Sessions :=
  if max <=? Z.of_nat (active_count (user_id s) m)
  then (Err MaxConcurrentSessionsExceeded, m) else (Ok tt, <[id s := s]> m).

Definition mem_get_by_token (tok : string) (m : Sessions) :
    result (option (Session Json)) SessionError :=
  Ok (List.find (λ s, String.eqb (token s) tok) (hash_values m)).

Definition mem_get_by_id (i : Uuid) (m : Sessions) :
    result (option (Session Json)) SessionError := Ok (m !! i).

Definition mem_update (s : Session Json) (m : Sessions) : result unit SessionError * Sessions :=
  (Ok tt, put_guarded s m).

Definition mem_list (user : string) (m : Sessions) : result (list (Session Json)) SessionError :=
  Ok (filter (λ s, listed_for user s = true) (hash_values m)).

Definition mem_delete_expired (rd : Uuid → DateTime) (m : Sessions) :
    result nat SessionError * Sessions :=
  let m' := filter (λ p, kept (rd p.1) p.2 = true) m in (Ok (size m - size m')%nat, m').

Definition mem_lock_idle (t : DateTime) (m : Sessions) : result nat SessionError * Sessions :=
  (Ok (length (filter (λ s, idle_before t s = true) (hash_values m))),
   (λ s, if idle_before t s then lock s else s) <$> m).

Lemma mem_size_filter (m : Sessions) P `{∀ x, Decision (P x)} :
  size m = (size (filter P m) + (size m - size (filter P m)))%nat.
Proof. pose proof (map_size_filter P m). lia. Qed.

#[export] Program Instance InMemorySessionStore : SessionStore (Json := Json) Sessions := {|
  view m := m;
  store_create := mem_create;
  store_get_by_token := mem_get_by_token;
  store_get_by_id := mem_get_by_id;
  store_update := mem_update;
  store_list := mem_list;
  store_delete_expired := mem_delete_expired;
  store_lock_idle := mem_lock_idle
|}.
Next Obligation.
  intros s max m. unfold mem_create. destruct (Z.leb_spec max (Z.of_nat (active_count (user_id s) m)));
    simpl; [done|]. split; [lia|done].
Qed.
Next Obligation.
  intros tok m o [= <-]. destruct (List.find _ _) as [s|] eqn:E.
  - apply find_some in E as [Hin Htok%String.eqb_eq]. split; [done|].
    by apply list_elem_of_In, elem_of_hash_values in Hin.
  - intros i s Hs Htok.
    assert (Hin : In s (hash_values m)) by (apply list_elem_of_In, elem_of_hash_values; eauto).
    apply (find_none _ _ E) in Hin. by apply String.eqb_neq in Hin.
Qed.
Next Obligation. by intros i m o [= <-]. Qed.
Next Obligation. intros s m. by left. Qed.
Next Obligation. by intros user m l [= <-]. Qed.
Next Obligation. intros rd m. simpl. split; [done|]. apply mem_size_filter. Qed.
Next Obligation. by intros t m. Qed.
End in_memory.

(** ** The manager *)

(** A manager operation runs on the store and the audit events emitted so
    far; it returns a result and both. *)
Definition M (S A : Type) : Type :=
  S * list SessionAuditEvent → result A SessionError * (S * list SessionAuditEvent).
Definition mret {S A} (x : A) : M S A := λ w, (Ok x, w).
Definition mfail {S A} (e : SessionError) : M S A := λ w, (Err e, w).
Definition mbind {S A B} (m : M S A) (k : A → M S B) : M S B :=
  λ w, match m w with (Ok x, w) => k x w | (Err e, w) => (Err e, w) end.
(** A store operation that changes the store, and one that only reads it. *)
Definition lift {S A} (f : S → result A SessionError * S) : M S A :=
  λ w, let '(r, st) := f w.1 in (r, (st, w.2)).
Definition query {S A} (f : S → result A SessionError) : M S A := λ w, (f w.1, w).
Definition emit {S} (e : SessionAuditEvent) : M S unit := λ w, (Ok tt, (w.1, w.2 ++ [e])).
Arguments mret {S A} x w /.
Arguments mfail {S A} e w /.
Arguments mbind {S A B} m k w /.
Arguments lift {S A} f w /.
Arguments query {S A} f w /.
Arguments emit {S} e w /.

Notation "'do' x <- m ; k" := (mbind m (λ x, k)) (at level 10, x name, k at level 200).

Section manager.
Context {Json S : Type} `{!HashIter Uuid (Session Json)} `{!SessionStore (Json := Json) S}.

(** [audit] is whether an audit hook is attached. *)
Record SessionManager := { config : SessionConfig; audit : bool }.
Implicit Types mgr : SessionManager.

Definition audit_event mgr (k : SessionAuditKind) (s : Session Json) (who : option string) :
    M S unit :=
  if audit mgr then
    emit {| kind := k; ev_user_id := user_id s; ev_session_id := id s;
            ev_ip_address := ip_address s; actor := who |}
  else mret tt.

Definition ok_or_m {A} (o : option A) (e : SessionError) : M S A :=
  match o with Some x => mret x | None => mfail e end.

Definition create_session mgr (new_id : Uuid) (tok : string) (now : DateTime) (user : string)
    (ip ua : option string) : M S (Session Json) :=
  if absolute_timeout_secs (config mgr) <=? 0 then
    mfail (InvalidState "absolute_timeout_secs must be positive")
  else
    let s := new_session new_id tok now user ip ua (config mgr) in
    do _ <- lift (store_create s (max_concurrent_sessions (config mgr)));
    do _ <- audit_event mgr AuditCreated s None;
    mret s.

Definition persist_after mgr : Z :=
  Z.max (Z.min ACTIVITY_PERSIST_INTERVAL_SECS (Z.quot (inactivity_timeout_secs (config mgr)) 2)) 1.

(** Clock reads: 0 the expiry test, 1 the inactivity test, 2 the idle time
    logged with a lock, 3 the idle time compared, 4 the touch. *)
Definition evaluate mgr (clk : Clock) (s : Session Json) : M S (Session Json) :=
  if is_expired (clk 0%nat) s then
    if decide (status s ≠ Expired) then
      do _ <- lift (store_update (set_status Expired s)); mfail SessionExpired
    else mfail SessionExpired
  else
    match status s with
    | Active =>
        if is_inactive (clk 1%nat) (inactivity_timeout_secs (config mgr)) s then
          if lock_on_inactivity (config mgr) then
            do _ <- lift (store_update (lock s)); mfail SessionLocked
          else
            do _ <- lift (store_update (set_status Expired s)); mfail SessionExpired
        else if persist_after mgr <=? idle_time (clk 3%nat) s then
          let s := touch (clk 4%nat) s in
          do _ <- lift (store_update s); mret s
        else mret s
    | Locked => mfail SessionLocked
    | Expired => mfail SessionExpired
    | Terminated | AdminTerminated => mfail SessionTerminated
    end.

Definition validate_session mgr (clk : Clock) (tok : string) : M S (Session Json) :=
  do o <- query (store_get_by_token tok);
  do s <- ok_or_m o SessionNotFound;
  evaluate mgr clk s.

Definition validate_session_by_id mgr (clk : Clock) (i : Uuid) : M S (Session Json) :=
  do o <- query (store_get_by_id i);
  do s <- ok_or_m o SessionNotFound;
  evaluate mgr clk s.

Definition unlock_session (now : DateTime) (i : Uuid) : M S unit :=
  do o <- query (store_get_by_id i);
  do s <- ok_or_m o SessionNotFound;
  if decide (status s ≠ Locked) then mfail (InvalidState "Session is not locked")
  else lift (store_update (unlock now s)).

Definition terminate_session mgr (i : Uuid) : M S unit :=
  do o <- query (store_get_by_id i);
  do s <- ok_or_m o SessionNotFound;
  do _ <- lift (store_update (terminate s));
  audit_event mgr TerminatedByUser (terminate s) None.

Definition admin_terminate_session mgr (i : Uuid) (admin : string) : M S unit :=
  do o <- query (store_get_by_id i);
  do s <- ok_or_m o SessionNotFound;
  do _ <- lift (store_update (admin_terminate s));
  audit_event mgr TerminatedByAdmin (admin_terminate s) (Some admin).

Fixpoint terminate_each (by_admin : bool) (l : list (Session Json)) (n : nat) : M S nat :=
  match l with
  | [] => mret n
  | s :: l =>
      if bool_decide (status s = Active) || bool_decide (status s = Locked) then
        do _ <- lift (store_update (if by_admin then admin_terminate s else terminate s));
        terminate_each by_admin l (1 + n)
      else terminate_each by_admin l n
  end.

Definition terminate_user_sessions (user : string) (admin : option string) : M S nat :=
  do l <- query (store_list user);
  terminate_each (bool_decide (is_Some admin)) l 0.

Definition get_user_sessions (user : string) : M S (list (Session Json)) :=
  query (store_list user).

(** A failure to lock idle sessions is logged and ignored.  [now] is the
    read for the idle cutoff, [rd] those of the expiry tests. *)
Definition cleanup_expired mgr (now : DateTime) (rd : Uuid → DateTime) : M S nat :=
  do _ <- (if lock_on_inactivity (config mgr) then
             λ w, let '(_, w) :=
                    lift (store_lock_idle (now - seconds (inactivity_timeout_secs (config mgr)))) w in
                  (Ok tt, w)
           else mret tt);
  lift (store_delete_expired rd).

(** ** Calls *)
Inductive Call :=
| CCreate (new_id : Uuid) (tok : string) (now : DateTime) (user : string) (ip ua : option string)
| CValidate (clk : Clock) (tok : string)
| CValidateById (clk : Clock) (i : Uuid)
| CUnlock (now : DateTime) (i : Uuid)
| CTerminate (i : Uuid)
| CAdminTerminate (i : Uuid) (admin : string)
| CTerminateUser (user : string) (admin : option string)
| CCleanup (now : DateTime) (rd : Uuid → DateTime).

Definition world : Type := S * list SessionAuditEvent.

Definition call mgr (c : Call) (w : world) : world :=
  match c with
  | CCreate i tok now user ip ua => (create_session mgr i tok now user ip ua w).2
  | CValidate clk tok => (validate_session mgr clk tok w).2
  | CValidateById clk i => (validate_session_by_id mgr clk i w).2
  | CUnlock now i => (unlock_session now i w).2
  | CTerminate i => (terminate_session mgr i w).2
  | CAdminTerminate i admin => (admin_terminate_session mgr i admin w).2
  | CTerminateUser user admin => (terminate_user_sessions user admin w).2
  | CCleanup now rd => (cleanup_expired mgr now rd w).2
  end.

(** [Uuid::new_v4()] draws an identifier no session has had. *)
Definition fresh_call (c : Call) (w : world) : Prop :=
  match c with CCreate i _ _ _ _ _ => view w.1 !! i = None | _ => True end.
End manager.
Arguments SessionManager : clear implicits.

(** ** Theorems *)

Section theorems.
Context {Json S : Type} `{!HashIter Uuid (Session Json)} `{!SessionStore (Json := Json) S}.
Implicit Types (mgr : SessionManager) (s : Session Json) (v : gmap Uuid (Session Json))
  (w : S * list SessionAuditEvent).

(** *** Stores *)

Definition keyed v : Prop := ∀ i s, v !! i = Some s → id s = i.
(** No live session under [i]: none at all, or a terminated one. *)
Definition dead (i : Uuid) v : Prop := ∀ s, v !! i = Some s → terminal (status s) = true.

Lemma lookup_put_guarded s v i :
  put_guarded s v !! i =
    if decide (i = id s) then
      match v !! i with
      | Some e => if terminal (status e) && negb (terminal (status s)) then Some e else Some s
      | None => Some s
      end
    else v !! i.
Proof.
  unfold put_guarded. case_decide as Hi.
  - subst i. destruct (v !! id s) as [e|] eqn:E; [|by rewrite lookup_insert_eq].
    destruct (terminal (status e) && _); [done|by rewrite lookup_insert_eq].
  - destruct (v !! id s) as [e|]; [destruct (terminal (status e) && _); [done|]|];
      by rewrite lookup_insert_ne.
Qed.

Lemma put_guarded_keyed s v : keyed v → keyed (put_guarded s v).
Proof.
  intros Hk i x. rewrite lookup_put_guarded. case_decide as Hi; [|apply Hk]. subst i.
  destruct (v !! id s) as [e|] eqn:E; [|by intros [= <-]].
  destruct (terminal (status e) && _); intros [= <-]; [by apply Hk|done].
Qed.

Lemma put_guarded_dead s v i :
  (id s = i → terminal (status s) = true ∨ is_Some (v !! i)) →
  dead i v → dead i (put_guarded s v).
Proof.
  intros Hs Hd x. rewrite lookup_put_guarded. case_decide as Hi; [|apply Hd]. subst i.
  destruct (v !! id s) as [e|] eqn:E.
  - specialize (Hd e E). rewrite Hd. simpl.
    destruct (terminal (status s)) eqn:Ht; simpl; by intros [= <-].
  - destruct (Hs eq_refl) as [Ht|[? ?]]; [by intros [= <-]|done].
Qed.

(** An update, successful or not, is a guarded put or nothing. *)
Lemma lift_update s w :
  let w' := (lift (store_update s) w).2 in
  view w'.1 = put_guarded s (view w.1) ∨ view w'.1 = view w.1.
Proof.
  simpl. pose proof (update_law s w.1) as H. destruct (store_update s w.1) as [[] st]; simpl.
  - destruct H as [H|[_ H]]; auto.
  - auto.
Qed.

Lemma audit_event_view mgr k s who w : (audit_event mgr k s who w).2.1 = w.1.
Proof. unfold audit_event. by destruct (audit mgr). Qed.

(** The changes a call makes to the sessions. *)
Inductive view_change (max : Z) (new : Uuid → Prop) : bool → gmap Uuid (Session Json) → gmap Uuid (Session Json) → Prop :=
| VSame b v : view_change max new b v v
| VInsert b s v :
    new (id s) → v !! id s = None → Z.of_nat (active_count (user_id s) v) < max → view_change max new b v (<[id s := s]> v)
| VPut b s s' v :
    v !! id s = Some s → id s' = id s → user_id s' = user_id s →
    (b = false → status s' = Active → status s = Active) →
    view_change max new b v (put_guarded s' v)
| VTerminate b s v : terminal (status s) = true → view_change max new b v (put_guarded s v)
| VLockIdle b t v :
    view_change max new b v ((λ s, if idle_before t s then lock s else s) <$> v)
| VDelete b rd v : view_change max new b v (filter (λ p, kept (rd p.1) p.2 = true) v)
| VTrans b v1 v2 v3 : view_change max new b v1 v2 → view_change max new b v2 v3 → view_change max new b v1 v3.

(** A put of a changed copy of a stored session, through the store. *)
Lemma lift_update_change max new b s s' w :
  view w.1 !! id s = Some s → id s' = id s → user_id s' = user_id s →
  (b = false → status s' = Active → status s = Active) →
  view_change max new b (view w.1) (view (lift (store_update s') w).2.1).
Proof.
  intros Hs Hi Hu Hst. destruct (lift_update s' w) as [-> | ->]; [|constructor].
  by eapply VPut.
Qed.

Lemma lift_update_terminate max new b s w :
  terminal (status s) = true →
  view_change max new b (view w.1) (view (lift (store_update s) w).2.1).
Proof. intros Ht. destruct (lift_update s w) as [-> | ->]; by constructor. Qed.

(** After an update the rest of a call only reads or emits. *)
Lemma bind_update_view {A} s (k : unit → M S A) w :
  (∀ x w, (k x w).2.1 = w.1) →
  view (mbind (lift (store_update s)) k w).2.1 = view (lift (store_update s) w).2.1.
Proof.
  intros Hk. simpl. destruct (store_update s w.1) as [[x|e] st]; simpl; [by rewrite Hk|done].
Qed.

Lemma evaluate_change max new b mgr clk s w :
  view w.1 !! id s = Some s →
  view_change max new b (view w.1) (view (evaluate mgr clk s w).2.1).
Proof.
  intros Hs. unfold evaluate.
  destruct (is_expired _ _).
  { case_decide; [|constructor]. rewrite bind_update_view by done.
    by apply (lift_update_change _ _ _ s). }
  destruct (status s) eqn:Hst; try constructor.
  destruct (is_inactive _ _ _).
  - destruct (lock_on_inactivity _); rewrite bind_update_view by done;
      by apply (lift_update_change _ _ _ s).
  - destruct (_ <=? _); [|constructor]. cbv zeta. rewrite bind_update_view by done.
    by apply (lift_update_change _ _ _ s).
Qed.

Lemma terminate_each_change max new b by_admin l n w :
  view_change max new b (view w.1) (view (terminate_each by_admin l n w).2.1).
Proof.
  revert n w. induction l as [|s l IH]; intros n w; [constructor|]. simpl.
  destruct (_ || _); [|apply IH].
  set (s' := if by_admin then admin_terminate s else terminate s).
  pose proof (lift_update_terminate max new b s' w ltac:(by destruct by_admin)) as H.
  simpl in *. destruct (store_update s' w.1) as [[x|e] st]; simpl in *; [|done].
  eapply VTrans; [apply H|]. apply (IH _ (st, w.2)).
Qed.

Lemma found_change max new b {A} i (k : Session Json → M S A) w :
  keyed (view w.1) →
  (∀ s, view w.1 !! id s = Some s → view_change max new b (view w.1) (view (k s w).2.1)) →
  view_change max new b (view w.1)
    (view (mbind (query (store_get_by_id i)) (λ o, mbind (ok_or_m o SessionNotFound) k) w).2.1).
Proof.
  intros Hk H. simpl. destruct (store_get_by_id i w.1) as [o|e] eqn:E; simpl; [|constructor].
  apply get_by_id_law in E. destruct o as [s|]; simpl; [|constructor].
  apply H. symmetry in E. by rewrite (Hk _ _ E).
Qed.

Definition is_unlock (c : Call) : bool := match c with CUnlock _ _ => true | _ => false end.

Definition creates (c : Call) (i : Uuid) : Prop :=
  match c with CCreate j _ _ _ _ _ => j = i | _ => False end.

Lemma call_change mgr c w :
  keyed (view w.1) → fresh_call c w →
  view_change (max_concurrent_sessions (config mgr)) (creates c) (is_unlock c)
    (view w.1) (view (call mgr c w).1).
Proof.
  intros Hk Hf. set (max := max_concurrent_sessions (config mgr)).
  destruct c as [i tok now user ip ua|clk tok|clk i|now i|i|i admin|user admin|now rd]; simpl.
  - unfold create_session. destruct (_ <=? 0); [constructor|]. cbv zeta.
    set (s := new_session i tok now user ip ua (config mgr)). simpl.
    pose proof (create_law s max w.1) as H. fold max.
    destruct (store_create s max w.1) as [[x|e] st]; simpl; [|rewrite H; constructor].
    destruct H as [Hlt Hv].
    destruct (audit_event mgr AuditCreated s None (st, w.2)) as [[y|e] w'] eqn:Ha;
      pose proof (audit_event_view mgr AuditCreated s None (st, w.2)) as Hv';
      rewrite Ha in Hv'; simpl in Hv' |- *; rewrite Hv', Hv; by constructor.
  - unfold validate_session. simpl. destruct (store_get_by_token tok w.1) as [o|e] eqn:E;
      simpl; [|constructor].
    apply get_by_token_law in E. destruct o as [s|]; simpl; [|constructor].
    destruct E as [_ [i Hi]]. apply evaluate_change. by rewrite (Hk _ _ Hi).
  - apply found_change; [done..|]. intros s Hs. by apply evaluate_change.
  - apply found_change; [done..|]. intros s Hs. case_decide; [constructor|].
    apply (lift_update_change _ _ _ s); [done| | |done]; unfold unlock; by case_decide.
  - apply found_change; [done..|]. intros s Hs.
    rewrite bind_update_view by (intros; apply audit_event_view).
    by apply lift_update_terminate.
  - apply found_change; [done..|]. intros s Hs.
    rewrite bind_update_view by (intros; apply audit_event_view).
    by apply lift_update_terminate.
  - unfold terminate_user_sessions. simpl.
    destruct (store_list user w.1) as [l|e]; simpl; [|constructor].
    apply terminate_each_change.
  - unfold cleanup_expired.
    assert (Hd : ∀ st, view_change max (λ _, False) false (view st) (view (store_delete_expired rd st).2)).
    { intros st. pose proof (delete_expired_law rd st) as H.
      destruct (store_delete_expired rd st) as [[n|e] st']; simpl; [|rewrite H; constructor].
      destruct H as [-> _]. constructor. }
    assert (Hp : ∀ w, (lift (store_delete_expired rd) w).2.1 = (store_delete_expired rd w.1).2).
    { intros w0. simpl. by destruct (store_delete_expired rd w0.1). }
    destruct (lock_on_inactivity _); simpl; [|specialize (Hp w); simpl in Hp; rewrite Hp; apply Hd].
    set (t := now - _). pose proof (lock_idle_law t w.1) as H.
    destruct (store_lock_idle t w.1) as [[n|e] st]; simpl;
      specialize (Hp (st, w.2)); simpl in Hp; rewrite Hp; [|rewrite <- H; apply Hd].
    eapply VTrans; [|apply Hd]. rewrite H. constructor.
Qed.

Lemma view_change_keyed max new b v v' : view_change max new b v v' → keyed v → keyed v'.
Proof.
  induction 1 as [| | | |b t v|b rd v|]; intros Hk; eauto using put_guarded_keyed.
  - intros i x [[<- <-]|[_ ?]]%lookup_insert_Some; [done|by apply Hk].
  - intros i x. rewrite lookup_fmap. intros (s & Hs & ->)%fmap_Some_1.
    apply Hk in Hs as <-. by destruct (idle_before t s).
  - intros i x [? _]%map_lookup_filter_Some. by apply Hk.
Qed.

Lemma view_change_dead max new b i v v' :
  view_change max new b v v' → ¬ new i → dead i v → dead i v'.
Proof.
  induction 1 as [| |b s s' v Hs Hi Hu Hst|b s v Ht|b t v|b rd v|]; intros Hnew Hd; eauto.
  - intros x [[Hi _]|[_ ?]]%lookup_insert_Some; [by destruct Hnew; rewrite <- Hi|by apply Hd].
  - apply put_guarded_dead; [|done]. intros Heq. right. rewrite <- Heq, Hi. by exists s.
  - apply put_guarded_dead; [|done]. by left.
  - intros x. rewrite lookup_fmap. intros (s & Hs & ->)%fmap_Some_1. apply Hd in Hs.
    unfold idle_before. case_bool_decide as Ha; [by rewrite Ha in Hs|done].
  - intros x [? _]%map_lookup_filter_Some. by apply Hd.
Qed.

(** *** Counting active sessions *)

Lemma active_count_size user v :
  active_count user v = size (filter (λ p, active_of user p.2 = true) v).
Proof.
  unfold active_count. rewrite hash_values_perm.
  induction v as [|i s v Hi IH] using map_ind.
  - by rewrite map_to_list_empty, map_filter_empty, map_size_empty.
  - rewrite (map_to_list_insert v i s Hi), fmap_cons. simpl.
    destruct (active_of user s) eqn:E.
    + rewrite filter_cons_True, map_filter_insert_True by done. simpl.
      rewrite map_size_insert_None, IH; [done|]. apply map_lookup_filter_None. by left.
    + rewrite filter_cons_False, map_filter_insert_False by (simpl; congruence).
      rewrite delete_id by done. apply IH.
Qed.

(** Fewer identifiers with an active session of the user, fewer of them. *)
Lemma active_count_mono user v v' :
  (∀ i s', v' !! i = Some s' → active_of user s' = true →
     ∃ s, v !! i = Some s ∧ active_of user s = true) →
  (active_count user v' ≤ active_count user v)%nat.
Proof.
  intros H. rewrite !active_count_size, <- !size_dom. apply subseteq_size.
  intros i [s' [Hs' Ha]%map_lookup_filter_Some]%elem_of_dom.
  destruct (H i s' Hs' Ha) as (s & Hs & Ha'). apply elem_of_dom. exists s.
  by apply map_lookup_filter_Some.
Qed.

Definition within_cap (max : Z) v : Prop :=
  ∀ user, (active_count user v = 0)%nat ∨ Z.of_nat (active_count user v) ≤ max.

Lemma within_cap_mono max v v' :
  (∀ i s', v' !! i = Some s' → status s' = Active →
     ∃ s, v !! i = Some s ∧ status s = Active ∧ user_id s = user_id s') →
  within_cap max v → within_cap max v'.
Proof.
  intros H Hc user. assert (active_count user v' ≤ active_count user v)%nat.
  { apply active_count_mono. intros i s' Hs' [Hu Ha]%andb_true_iff.
    apply bool_decide_eq_true in Ha. destruct (H i s' Hs' Ha) as (s & Hs & Ha' & Hu').
    exists s. split; [done|]. unfold active_of. by rewrite Hu', Hu, bool_decide_eq_true_2. }
  specialize (Hc user). lia.
Qed.

Lemma put_guarded_lookup_inv s v i x :
  put_guarded s v !! i = Some x → v !! i = Some x ∨ (i = id s ∧ x = s).
Proof.
  rewrite lookup_put_guarded. case_decide; [|auto].
  destruct (v !! i) as [e|]; [destruct (terminal (status e) && _)|]; naive_solver.
Qed.

Lemma active_count_insert user s v :
  v !! id s = None →
  active_count user (<[id s := s]> v)
    = (active_count user v + if active_of user s then 1 else 0)%nat.
Proof.
  intros Hn. rewrite !active_count_size. destruct (active_of user s) eqn:E.
  - rewrite map_filter_insert_True by done. rewrite map_size_insert_None; [lia|].
    apply map_lookup_filter_None. by left.
  - rewrite map_filter_insert_False by (simpl; congruence). rewrite delete_id by done. lia.
Qed.

Lemma view_change_cap max new v v' b :
  view_change max new b v v' → b = false → within_cap max v → within_cap max v'.
Proof.
  induction 1 as [|b s v Hnew Hn Hlt|b s s' v Hs Hi Hu Hst|b s v Ht|b t v|b rd v|];
    intros Hb; eauto.
  - intros Hc user. rewrite active_count_insert by done. specialize (Hc user).
    destruct (active_of user s) eqn:E; [|lia].
    apply andb_true_iff in E as [E _]. apply String.eqb_eq in E. subst user. lia.
  - apply within_cap_mono. intros i x [Hx|[-> ->]]%put_guarded_lookup_inv Ha; [eauto|].
    exists s. rewrite Hi. split_and!; [done|by apply Hst|done].
  - apply within_cap_mono. intros i x [Hx|[-> ->]]%put_guarded_lookup_inv Ha; [eauto|].
    by rewrite Ha in Ht.
  - apply within_cap_mono. intros i x. rewrite lookup_fmap.
    intros (s & Hs & ->)%fmap_Some_1. destruct (idle_before t s); [done|eauto].
  - apply within_cap_mono. intros i x [? _]%map_lookup_filter_Some. eauto.
Qed.

(** *** Calls in sequence *)

(** A sequence of calls all of which satisfy [P]. *)
Inductive calls_with mgr (P : Call → Prop) : world (S := S) → world (S := S) → Prop :=
| CallsNil w : calls_with mgr P w w
| CallsCons c w w' :
    P c → fresh_call c w → calls_with mgr P (call mgr c w) w' → calls_with mgr P w w'.

Lemma calls_invariant mgr P (Inv : gmap Uuid (Session Json) → Prop) w w' :
  (∀ c v v', P c → Inv v →
     view_change (max_concurrent_sessions (config mgr)) (creates c) (is_unlock c) v v' → Inv v') →
  calls_with mgr P w w' → keyed (view w.1) → Inv (view w.1) → Inv (view w'.1).
Proof.
  intros Hstep. induction 1 as [|c w w' Hp Hf _ IH]; intros Hk Hi; [done|].
  pose proof (call_change mgr c w Hk Hf) as Hc.
  apply IH; [by eapply view_change_keyed|by eapply Hstep].
Qed.

Lemma call_keyed mgr c w : keyed (view w.1) → fresh_call c w → keyed (view (call mgr c w).1).
Proof. intros Hk Hf. eapply view_change_keyed; [by apply call_change|done]. Qed.

(** C33. Termination is for ever: once the session under an identifier is
    terminated (by its user or an administrator) or has been removed, no
    sequence of manager calls, over any store that keeps the interface's
    promises, makes a session under that identifier valid again; a
    validation by identifier always fails. *)
Theorem terminated_never_valid mgr i w w' clk :
  keyed (view w.1) → dead i (view w.1) →
  calls_with mgr (λ c, ¬ creates c i) w w' →
  dead i (view w'.1) ∧ is_ok (validate_session_by_id mgr clk i w').1 = false.
Proof.
  intros Hk Hd Hc. assert (Hd' : dead i (view w'.1)).
  { eapply (calls_invariant _ _ (dead i)); [|done..]. intros c v v' Hn Hd0 Hv.
    by eapply view_change_dead. }
  split; [done|]. unfold validate_session_by_id. simpl.
  destruct (store_get_by_id i w'.1) as [o|e] eqn:E; simpl; [|done].
  apply get_by_id_law in E. destruct o as [s|]; simpl; [|done].
  symmetry in E. apply Hd' in E. unfold evaluate.
  destruct (is_expired _ _).
  - case_decide; [|done]. simpl. by destruct (store_update _ _) as [[|] ?].
  - by destruct (status s).
Qed.

(** C34. The concurrent-session limit: sequences of calls that unlock no
    session never raise the number of active sessions of a user above
    [max_concurrent_sessions]. *)
Theorem concurrent_sessions_bounded mgr w w' :
  keyed (view w.1) → within_cap (max_concurrent_sessions (config mgr)) (view w.1) →
  calls_with mgr (λ c, is_unlock c = false) w w' →
  within_cap (max_concurrent_sessions (config mgr)) (view w'.1).
Proof.
  intros Hk Hc Hcalls. eapply (calls_invariant _ _ (within_cap _)); [|done..].
  intros c v v' Hu Hv Hch. by eapply view_change_cap.
Qed.

(** What a successful validation means, over any store: the token
    belongs to a stored session that was active, not past its absolute
    expiry and not idle for longer than the inactivity timeout at the
    moments these were tested, and what is returned is that session, with a
    refreshed last activity at most. *)
Theorem validate_session_sound mgr clk tok w s' :
  (validate_session mgr clk tok w).1 = Ok s' →
  ∃ i s, view w.1 !! i = Some s ∧ token s = tok ∧ status s = Active ∧
    clk 0%nat ≤ expires_at s ∧
    clk 1%nat - seconds (inactivity_timeout_secs (config mgr)) ≤ last_activity s ∧
    (s' = s ∨ s' = touch (clk 4%nat) s).
Proof.
  unfold validate_session. simpl. destruct (store_get_by_token tok w.1) as [o|e] eqn:E; simpl; [|done].
  apply get_by_token_law in E. destruct o as [s|]; simpl; [|done].
  destruct E as [Htok [i Hi]]. intros H. exists i, s. unfold evaluate in H.
  destruct (is_expired (clk 0%nat) s) eqn:He.
  { case_decide; simpl in H; [|done]. by destruct (store_update _ _) as [[|] ?]. }
  destruct (status s) eqn:Hst; try done.
  destruct (is_inactive (clk 1%nat) _ s) eqn:Hi'.
  { by destruct (lock_on_inactivity _); simpl in H; destruct (store_update _ _) as [[|] ?]. }
  apply Z.ltb_ge in He, Hi'. split_and!; [done..|].
  destruct (_ <=? _); simpl in H; [|injection H as <-; auto].
  destruct (store_update _ _) as [[|] ?]; simpl in H; [injection H as <-; auto|done].
Qed.

(** Cleanup frees what it should and nothing else: when it succeeds,
    with all clock reads at [now], no expired or terminated session remains;
    every session left is as it was or locked for idleness; every session
    that is neither expired nor terminated is still there; and the number
    returned is the number of sessions removed. *)
Theorem cleanup_expired_spec mgr now w n :
  let w' := cleanup_expired mgr now (λ _, now) w in
  w'.1 = Ok n →
  (∀ i s', view w'.2.1 !! i = Some s' →
     kept now s' = true ∧ ∃ s, view w.1 !! i = Some s ∧ (s' = s ∨ s' = lock s)) ∧
  (∀ i s, view w.1 !! i = Some s → kept now s = true → is_Some (view w'.2.1 !! i)) ∧
  size (view w.1) = (size (view w'.2.1) + n)%nat.
Proof.
  intros w' Hw. subst w'.
  assert (Hrun : ∃ st, (view st = view w.1 ∨
      view st = (λ s, if idle_before (now - seconds (inactivity_timeout_secs (config mgr))) s
                      then lock s else s) <$> view w.1) ∧
    cleanup_expired mgr now (λ _, now) w = lift (store_delete_expired (λ _, now)) (st, w.2)).
  { unfold cleanup_expired. destruct (lock_on_inactivity _); simpl.
    - set (t := now - _). pose proof (lock_idle_law t w.1) as H.
      destruct (store_lock_idle t w.1) as [[k|e] st]; simpl; exists st; auto.
    - exists w.1. auto. }
  destruct Hrun as (st & Hst & Hrun). rewrite Hrun in *. clear Hrun. simpl in *. pose proof (delete_expired_law (λ _, now) st) as H.
  destruct (store_delete_expired (λ _, now) st) as [[k|e] st']; simpl in *; [|done].
  injection Hw as ->. destruct H as [-> Hsize].
  assert (Hk : ∀ t s, kept now (if idle_before t s then lock s else s) = kept now s).
  { intros t s. unfold idle_before. case_bool_decide as Ha; [|done]. simpl.
    destruct (_ <? _); [|done]. unfold kept. simpl. by rewrite Ha. }
  split_and!.
  - intros i s' [Hi Hkept]%map_lookup_filter_Some. split; [done|].
    destruct Hst as [Hst|Hst]; rewrite Hst in Hi; [eauto|]. rewrite lookup_fmap in Hi.
    apply fmap_Some_1 in Hi as (s & Hs & ->). exists s. split; [done|].
    destruct (idle_before _ s); auto.
  - intros i s Hs Hkept. destruct Hst as [Hst|Hst].
    + exists s. apply map_lookup_filter_Some. by rewrite Hst.
    + eexists. apply map_lookup_filter_Some. rewrite Hst, lookup_fmap, Hs. simpl.
      split; [done|]. simpl. by rewrite Hk.
  - destruct Hst as [<-|Hst]; [done|]. rewrite <- Hsize, Hst. by rewrite map_size_fmap.
Qed.

(** Terminating all sessions of a user emits no audit event, whatever
    it terminates, with or without an acting administrator. *)
Theorem terminate_user_sessions_unaudited user admin w :
  (terminate_user_sessions user admin w).2.2 = w.2.
Proof.
  unfold terminate_user_sessions. simpl. destruct (store_list user w.1) as [l|e]; simpl; [|done].
  generalize 0%nat as n. revert w. induction l as [|s l IH]; intros w n; [done|]. simpl.
  destruct (_ || _); [|apply IH]. simpl.
  destruct (store_update _ w.1) as [[x|e] st]; simpl; [|done]. apply (IH (st, w.2)).
Qed.
End theorems.

(** *** The in-memory store: two concrete runs *)

Section runs.
Context {Json : Type}.
Abbreviation Sessions := (gmap Uuid (Session Json)).

(** "A concurrent activity-touch cannot resurrect a session that was
    terminated in between": it can, when the reaper has removed it.  A
    validation fetches an active session; it is terminated; the reaper
    deletes it; the validation's update of the copy it holds then puts an
    active session back, which validates. *)
Theorem stale_update_resurrects (m : Sessions) (s : Session Json) mgr now t :
  m !! id s = Some s → status s = Active → t ≤ expires_at s →
  0 ≤ inactivity_timeout_secs (config mgr) →
  let m1 := (terminate_session mgr (id s) (m, [])).2.1 in
  let m2 := (mem_delete_expired (λ _, now) m1).2 in
  let m3 := (mem_update (touch t s) m2).2 in
  m2 !! id s = None ∧ m3 !! id s = Some (touch t s) ∧
  (validate_session_by_id mgr (λ _, t) (id s) (m3, [])).1 = Ok (touch t s).
Proof.
  intros Hs Ha Ht Hto m1 m2 m3.
  assert (H1 : m1 !! id s = Some (terminate s)).
  { unfold m1, terminate_session. simpl. rewrite Hs. simpl.
    rewrite audit_event_view. simpl. rewrite lookup_put_guarded. simpl.
    rewrite decide_True, Hs by done. by rewrite Ha. }
  assert (H2 : m2 !! id s = None).
  { unfold m2, mem_delete_expired. simpl. apply map_lookup_filter_None. right.
    intros x Hx. rewrite H1 in Hx. injection Hx as <-. unfold kept. simpl.
    by rewrite andb_false_r. }
  assert (H3 : m3 !! id s = Some (touch t s)).
  { unfold m3, mem_update. simpl. rewrite lookup_put_guarded. simpl.
    by rewrite decide_True, H2 by done. }
  split_and!; [done..|]. unfold validate_session_by_id. simpl. rewrite H3. simpl.
  unfold evaluate. assert (is_expired t (touch t s) = false) as -> by (by apply Z.ltb_ge).
  simpl. rewrite Ha.
  assert (is_inactive t (inactivity_timeout_secs (config mgr)) (touch t s) = false) as ->.
  { apply Z.ltb_ge. simpl. unfold seconds, NANOS. lia. }
  replace (_ <=? _) with false; [done|]. symmetry. apply Z.leb_gt. unfold idle_time. simpl.
  rewrite Z.sub_diag. unfold num_seconds, persist_after. rewrite Z.quot_0_l by done. lia.
Qed.
End runs.

#[local] Definition demo_mgr : SessionManager := {| config := high_security; audit := true |}.
#[local] Definition demo_world : world (S := gmap Uuid (Session unit)) :=
  foldl (λ w c, call demo_mgr c w) (∅, [])
    [CCreate 1 "a" 0 "bob" None None; CCleanup (seconds 400) (λ _, seconds 400);
     CCreate 2 "b" (seconds 401) "bob" None None; CUnlock (seconds 402) 1].

(** Unlocking does not look at the limit: with [high_security], which
    allows one session per user, a user whose idle session was locked opens a
    second one and then unlocks the first, and holds two active sessions. *)
Theorem unlock_exceeds_limit :
  max_concurrent_sessions (config demo_mgr) = 1 ∧
  active_count "bob" demo_world.1 = 2%nat ∧
  is_ok (validate_session demo_mgr (λ _, seconds 403) "a" demo_world).1 = true ∧
  is_ok (validate_session demo_mgr (λ _, seconds 403) "b" demo_world).1 = true.
Proof. vm_compute. auto. Qed.

#[local] Definition one_session : world (S := gmap Uuid (Session unit)) :=
  call demo_mgr (CCreate 1 "a" 0 "bob" None None) (∅, []).

Lemma stale_update_resurrects_witness :
  ∃ s, (validate_session_by_id demo_mgr (λ _, 5) 1
    ((mem_update (touch 5 s) (mem_delete_expired (λ _, 9)
       (terminate_session demo_mgr 1 (one_session.1, [])).2.1).2).2, [])).1 = Ok (touch 5 s).
Proof.
  destruct (one_session.1 !! 1%N) as [s|] eqn:E; [|by vm_compute in E].
  assert (id s = 1%N ∧ status s = Active ∧ 5 ≤ expires_at s) as (Hi & Ha & Ht).
  { vm_compute in E. simplify_eq. simpl. split; [done|split; [done|]]. by apply Z.leb_le. }
  exists s. destruct (stale_update_resurrects one_session.1 s demo_mgr 9 5) as (_ & _ & H);
    rewrite ?Hi in *; try done.
Defined.

Lemma one_session_keyed : keyed one_session.1.
Proof.
  change (keyed (view one_session.1)). unfold one_session.
  apply (call_keyed (Json := unit) demo_mgr (CCreate 1 "a" 0 "bob" None None)
           (∅ : gmap Uuid (Session unit), []));
    [intros i s; simpl; by rewrite lookup_empty|reflexivity].
Qed.

Lemma terminated_never_valid_witness :
  is_ok (validate_session_by_id demo_mgr (λ _, 5) 1
    (call demo_mgr (CValidate (λ _, 4) "a") (call demo_mgr (CTerminate 1) one_session))).1 = false.
Proof.
  eapply (terminated_never_valid (Json := unit) demo_mgr 1 (call demo_mgr (CTerminate 1) one_session)).
  - change (keyed (view (call demo_mgr (CTerminate 1) one_session).1)).
    by apply (call_keyed (Json := unit) demo_mgr (CTerminate 1) one_session); [apply one_session_keyed|].
  - intros s Hi. vm_compute in Hi. by simplify_eq.
  - eapply CallsCons; [| |constructor]; simpl; auto.
Defined.

Lemma concurrent_sessions_bounded_witness :
  within_cap 1 (call demo_mgr (CCreate 2 "b" 1 "bob" None None) one_session).1.
Proof.
  change (within_cap (max_concurrent_sessions (config demo_mgr))
            (view (call demo_mgr (CCreate 2 "b" 1 "bob" None None) one_session).1)).
  eapply (concurrent_sessions_bounded (Json := unit) demo_mgr (∅ : gmap Uuid (Session unit), [])).
  - intros i s. simpl. by rewrite lookup_empty.
  - intros user. by left.
  - apply (CallsCons _ _ (CCreate 1 "a" 0 "bob" None None)); [done..|].
    apply (CallsCons _ _ (CCreate 2 "b" 1 "bob" None None)); [done..|]. constructor.
Defined.

Lemma validate_session_sound_witness :
  ∃ i s, one_session.1 !! i = Some s ∧ token s = "a" ∧ status s = Active.
Proof.
  destruct (validate_session demo_mgr (λ _, 5) "a" one_session).1 as [s'|e] eqn:E;
    [|by vm_compute in E].
  destruct (validate_session_sound (Json := unit) demo_mgr (λ _, 5) "a" one_session s' E)
    as (i & s & H1 & H2 & H3 & _).
  by exists i, s.
Defined.

Lemma cleanup_expired_spec_witness :
  size (one_session.1) =
    (size (cleanup_expired demo_mgr (seconds 20000) (λ _, seconds 20000) one_session).2.1 + 1)%nat.
Proof.
  destruct (cleanup_expired_spec (Json := unit) demo_mgr (seconds 20000) one_session 1)
    as (_ & _ & H); [vm_compute; reflexivity|exact H].
Defined.
