(* ===== verification/Lagrange.v ===== *)
(** * Lagrange interpolation over a field

    The algebra behind Shamir's scheme, over an abstract field: polynomials as
    coefficient lists (constant term first), the fact that a polynomial with
    [n] coefficients is determined by [n] distinct points, and Lagrange's
    formula.  Shamir.v instantiates it at GF(256). *)
From stdpp Require Import base list sets.
From Stdlib Require Import Field.
From S2P Require Import Prelude.

Lemma list_without {A} `{EqDecision A} (z : A) (xs : list A) :
  NoDup xs → ∃ xs' : list A, NoDup xs' ∧ length xs ≤ S (length xs') ∧ ∀ x, x ∈ xs' → x ≠ z.
Proof.
  intros Hnd. destruct (decide (z ∈ xs)) as [Hz|Hz].
  - apply list_elem_of_split in Hz as (l1 & l2 & ->). exists (l1 ++ l2).
    rewrite !length_app. simpl. split_and!; [|lia|].
    + apply NoDup_app in Hnd as (H1 & H2 & H3). apply NoDup_cons in H3 as [H3 H4].
      apply NoDup_app. set_solver.
    + intros x Hx ->. apply NoDup_app in Hnd as (H1 & H2 & H3).
      apply NoDup_cons in H3 as [H3 H4]. set_solver.
  - exists xs. split_and!; [done|lia|]. by intros x Hx ->.
Qed.

Lemma delete_notin {A} (l : list A) k x : NoDup l → l !! k = Some x → x ∉ delete k l.
Proof.
  intros Hnd Hx (j & Hj)%list_elem_of_lookup. destruct (decide (j < k)) as [?|?].
  - rewrite list_lookup_delete_lt in Hj by done. assert (j = k) by by eapply NoDup_lookup. lia.
  - rewrite list_lookup_delete_ge in Hj by lia. assert (S j = k) by by eapply NoDup_lookup. lia.
Qed.

Lemma delete_elem_of {A} (l : list A) k i x : l !! k = Some x → i ≠ k → x ∈ delete i l.
Proof.
  intros Hx Hik. apply list_elem_of_lookup. destruct (decide (k < i)) as [?|?].
  - exists k. by rewrite list_lookup_delete_lt.
  - exists (pred k). rewrite list_lookup_delete_ge by lia. by replace (S (pred k)) with k by lia.
Qed.

Section lagrange.
Context {F : Type} (f0 f1 : F) (add mul sub : F → F → F) (opp : F → F)
  (div : F → F → F) (inv : F → F).
Context (Fth : field_theory f0 f1 add mul sub opp div inv (@eq F)) `{EqDecision F}.
Add Field F_field : Fth.

#[local] Infix "+" := add.
#[local] Infix "*" := mul.
#[local] Infix "-" := sub.
#[local] Infix "/" := div.

Definition sum (l : list F) : F := foldr add f0 l.

(** The polynomial with coefficients [p] at [x]. *)
Fixpoint eval (p : list F) (x : F) : F :=
  match p with
  | [] => f0
  | c :: p => c + x * eval p x
  end.

(** [(x - x1) * ... * (x - xn)]. *)
Definition prod_sub (xs : list F) (x : F) : F := foldr (λ xj acc, (x - xj) * acc) f1 xs.

(** Lagrange's formula for the points [pts], at [x]. *)
Definition lag_term (xs : list F) (x : F) (i : nat) (p : F * F) : F :=
  p.2 * (prod_sub (delete i xs) x / prod_sub (delete i xs) p.1).
Definition lag (pts : list (F * F)) (x : F) : F := sum (imap (lag_term pts.*1 x) pts).

(** A function given by [n] coefficients. *)
Definition ispoly (n : nat) (f : F → F) : Prop :=
  ∃ p, length p = n ∧ ∀ x, f x = eval p x.

(** ** Field facts *)

Lemma sub_nonzero x y : x ≠ y → x - y ≠ f0.
Proof. intros H E. apply H. replace x with ((x - y) + y) by ring. rewrite E. ring. Qed.

Lemma mul_zero_cancel x y : x ≠ f0 → x * y = f0 → y = f0.
Proof. intros Hx H. replace y with (inv x * (x * y)) by (field; done). rewrite H. ring. Qed.

Lemma f1_nonzero : f1 ≠ f0.
Proof. exact (F_1_neq_0 Fth). Qed.

(** ** Closure of the polynomial functions *)

Lemma eval_zip_add p q x :
  length p = length q → eval (zip_with add p q) x = eval p x + eval q x.
Proof.
  revert q. induction p as [|c p IH]; intros [|d q] Hl; simplify_eq/=; [ring|].
  rewrite IH by done. ring.
Qed.

Lemma eval_scale a p x : eval (map (mul a) p) x = a * eval p x.
Proof. induction p as [|c p IH]; simpl; [ring|]. rewrite IH. ring. Qed.

Lemma eval_snoc_zero p x : eval (p ++ [f0]) x = eval p x.
Proof. induction p as [|c p IH]; simpl; [ring|]. by rewrite IH. Qed.

Lemma ispoly_ext n f g : (∀ x, f x = g x) → ispoly n f → ispoly n g.
Proof. intros H (p & Hp & Hf). exists p. split; [done|]. intros x. by rewrite <- H. Qed.

Lemma ispoly_eval p : ispoly (length p) (eval p).
Proof. by exists p. Qed.

Lemma ispoly_zero n : ispoly n (λ _, f0).
Proof.
  exists (replicate n f0). split; [by rewrite length_replicate|]. intros x.
  induction n as [|n IH]; simpl; [done|]. rewrite <- IH. ring.
Qed.

Lemma ispoly_one : ispoly 1 (λ _, f1).
Proof. exists [f1]. split; [done|]. intros x. simpl. ring. Qed.

Lemma ispoly_add n f g : ispoly n f → ispoly n g → ispoly n (λ x, f x + g x).
Proof.
  intros (p & Hp & Hf) (q & Hq & Hg). exists (zip_with add p q).
  split; [by rewrite length_zip_with_l_eq; congruence|].
  intros x. rewrite eval_zip_add by congruence. congruence.
Qed.

Lemma ispoly_scale n a f : ispoly n f → ispoly n (λ x, a * f x).
Proof.
  intros (p & Hp & Hf). exists (map (mul a) p). split; [by rewrite length_map|].
  intros x. by rewrite eval_scale, Hf.
Qed.

Lemma ispoly_factor n r f : ispoly n f → ispoly (S n) (λ x, (x - r) * f x).
Proof.
  intros (p & Hp & Hf).
  exists (zip_with add (f0 :: p) (map (mul (opp r)) p ++ [f0])). split.
  - rewrite length_zip_with_l_eq; simpl; [by rewrite Hp|].
    rewrite length_app, length_map. simpl. lia.
  - intros x. rewrite eval_zip_add by (simpl; rewrite length_app, length_map; simpl; lia).
    rewrite eval_snoc_zero, eval_scale. simpl. rewrite Hf. ring.
Qed.

Lemma ispoly_prod_sub xs : ispoly (S (length xs)) (prod_sub xs).
Proof.
  induction xs as [|y xs IH]; [exact ispoly_one|]. exact (ispoly_factor _ y _ IH).
Qed.

Lemma ispoly_sum_imap {A} n (g : nat → A → F → F) (l : list A) :
  (∀ i a, l !! i = Some a → ispoly n (g i a)) →
  ispoly n (λ x, sum (imap (λ i a, g i a x) l)).
Proof.
  revert g. induction l as [|a l IH]; intros g Hg; [apply ispoly_zero|].
  apply (ispoly_ext _ (λ x, g 0 a x + sum (imap (λ i a, g (S i) a x) l))); [done|].
  apply ispoly_add; [by apply Hg|]. apply (IH (λ i, g (S i))). intros i b Hb. by apply Hg.
Qed.

(** ** Roots *)

(** Division by [x - r]. *)
Lemma eval_divide p r :
  p ≠ [] → ∃ q, S (length q) = length p ∧ ∀ x, eval p x = eval p r + (x - r) * eval q x.
Proof.
  induction p as [|c p IH]; [done|]. intros _. destruct p as [|d p].
  - exists []. split; [done|]. intros x. simpl. ring.
  - destruct IH as (q & Hq & He); [done|]. exists (eval (d :: p) r :: q).
    split; [simpl in *; lia|]. intros x.
    remember (d :: p) as p' eqn:Hp. clear Hp. simpl. rewrite (He x). ring.
Qed.

(** More distinct roots than the degree: the zero function. *)
Lemma eval_vanish xs p :
  NoDup xs → length p ≤ length xs → (∀ x, x ∈ xs → eval p x = f0) → ∀ x, eval p x = f0.
Proof.
  revert p. induction xs as [|r xs IH]; intros p Hnd Hl Hroot x.
  { by destruct p; simpl in *; [|lia]. }
  apply NoDup_cons in Hnd as [Hr Hnd]. destruct (decide (length p = 0%nat)) as [E|E].
  { by apply length_zero_iff_nil in E as ->. }
  destruct (eval_divide p r) as (q & Hq & He); [by intros ->|].
  assert (H0 : eval p r = f0) by (apply Hroot, list_elem_of_here).
  rewrite He, H0. rewrite (IH q); [ring|done|simpl in Hl; lia|].
  intros y Hy. apply (mul_zero_cancel (y - r)); [apply sub_nonzero; by intros ->|].
  specialize (Hroot y (list_elem_of_further _ _ _ Hy)). rewrite He, H0 in Hroot.
  rewrite <- Hroot. ring.
Qed.

(** Two functions given by [n] coefficients that agree on [n] points. *)
Lemma ispoly_unique n f g xs :
  ispoly n f → ispoly n g → NoDup xs → n ≤ length xs →
  (∀ x, x ∈ xs → f x = g x) → ∀ x, f x = g x.
Proof.
  intros Hf Hg Hnd Hl Hag x.
  destruct (ispoly_add n f (λ x, opp f1 * g x)) as (p & Hp & He);
    [done|by apply ispoly_scale|].
  assert (Hz : eval p x = f0).
  { apply (eval_vanish xs); [done|lia|]. intros y Hy. rewrite <- He, (Hag y Hy). ring. }
  rewrite <- He in Hz. replace (f x) with (f x + opp f1 * g x + g x) by ring.
  rewrite Hz. ring.
Qed.

(** The coefficients themselves are determined. *)
Lemma eval_zero_coeffs p xs :
  NoDup xs → length p ≤ length xs → (∀ x, x ∈ xs → eval p x = f0) →
  p = replicate (length p) f0.
Proof.
  revert xs. induction p as [|c p IH]; intros xs Hnd Hl Hroot; [done|].
  pose proof (eval_vanish xs _ Hnd Hl Hroot) as Hall.
  assert (Hc : c = f0) by (rewrite <- (Hall f0); simpl; ring). subst c. simpl. f_equal.
  destruct (list_without f0 xs) as (xs' & Hnd' & Hl' & Hnz); [done|].
  apply (IH xs'); [done|simpl in Hl; lia|].
  intros x Hx. apply (mul_zero_cancel x); [by apply Hnz|].
  rewrite <- (Hall x). simpl. ring.
Qed.

(** ** Lagrange's formula *)

Lemma prod_sub_root xs x : x ∈ xs → prod_sub xs x = f0.
Proof.
  induction 1 as [x xs|x y xs _ IH]; simpl; [ring|]. rewrite IH. ring.
Qed.

Lemma prod_sub_nonzero xs x : x ∉ xs → prod_sub xs x ≠ f0.
Proof.
  induction xs as [|y xs IH]; simpl; intros Hx; [apply f1_nonzero|].
  intros H. apply not_elem_of_cons in Hx as [Hxy Hx]. apply IH; [done|].
  by apply (mul_zero_cancel (x - y)); [apply sub_nonzero|].
Qed.

Lemma sum_imap_zero {A} (g : nat → A → F) (l : list A) :
  (∀ i b, l !! i = Some b → g i b = f0) → sum (imap g l) = f0.
Proof.
  revert g. induction l as [|b l IH]; intros g Hz; [done|].
  change (g 0 b + sum (imap (g ∘ S) l) = f0). rewrite (Hz 0 b) by done.
  rewrite IH; [ring|]. intros i c Hc. by apply (Hz (S i)).
Qed.

Lemma sum_imap_single {A} (g : nat → A → F) (l : list A) k a :
  l !! k = Some a → (∀ i b, l !! i = Some b → i ≠ k → g i b = f0) →
  sum (imap g l) = g k a.
Proof.
  revert g k. induction l as [|b l IH]; intros g k Hk Hz; [done|]. destruct k as [|k].
  - simpl in Hk. injection Hk as ->.
    change (g 0 a + sum (imap (g ∘ S) l) = g 0 a).
    rewrite sum_imap_zero; [ring|]. intros i b Hb. by apply (Hz (S i)).
  - change (g 0 b + sum (imap (g ∘ S) l) = g (S k) a).
    rewrite (Hz 0 b) by done. rewrite (IH (g ∘ S) k); [simpl; ring|done|].
    intros i c Hc Hik. apply (Hz (S i)); [done|lia].
Qed.

Lemma lag_ispoly pts : ispoly (length pts) (lag pts).
Proof.
  unfold lag. apply (ispoly_sum_imap _ (λ i p x, lag_term pts.*1 x i p)).
  intros i [xi yi] Hi. unfold lag_term. simpl.
  set (d := prod_sub _ xi).
  apply (ispoly_ext _ (λ x, (yi * inv d) * prod_sub (delete i pts.*1) x)).
  { intros x. rewrite (Fdiv_def Fth). ring. }
  apply ispoly_scale. assert (Hlt : i < length pts) by by apply lookup_lt_Some in Hi.
  replace (length pts) with (S (length (delete i pts.*1))); [apply ispoly_prod_sub|].
  rewrite length_delete, length_fmap by (apply lookup_lt_is_Some; by rewrite length_fmap). lia.
Qed.

Lemma lag_at pts k x y :
  NoDup pts.*1 → pts !! k = Some (x, y) → lag pts x = y.
Proof.
  intros Hnd Hk. unfold lag. rewrite (sum_imap_single _ _ k (x, y)); [|done|].
  - unfold lag_term. simpl. assert (prod_sub (delete k pts.*1) x ≠ f0); [|by field].
    apply prod_sub_nonzero, delete_notin; [done|]. by rewrite list_lookup_fmap, Hk.
  - intros i [xi yi] Hi Hik. unfold lag_term. simpl.
    rewrite (prod_sub_root _ x), (Fdiv_def Fth); [ring|].
    apply (delete_elem_of _ k); [|done]. by rewrite list_lookup_fmap, Hk.
Qed.

(** Interpolating the values of a polynomial function gives it back. *)
Lemma lag_correct n f xs x :
  ispoly n f → NoDup xs → length xs = n → lag ((λ x, (x, f x)) <$> xs) x = f x.
Proof.
  intros Hf Hnd Hl. set (pts := _ <$> xs).
  assert (Hpts : pts.*1 = xs) by (unfold pts; rewrite <- list_fmap_compose; apply list_fmap_id).
  apply (ispoly_unique n _ _ xs); [|done|done|lia|].
  - rewrite <- Hl, <- Hpts at 1. rewrite length_fmap. apply lag_ispoly.
  - intros y (k & Hk)%list_elem_of_lookup. apply (lag_at _ k); [by rewrite Hpts|].
    unfold pts. by rewrite list_lookup_fmap, Hk.
Qed.

(** Through any points with distinct abscissae there is one coefficient list. *)
Lemma interpolation_exists pts :
  NoDup pts.*1 → ∃ p, length p = length pts ∧ ∀ x y, (x, y) ∈ pts → eval p x = y.
Proof.
  intros Hnd. destruct (lag_ispoly pts) as (p & Hp & He). exists p. split; [done|].
  intros x y (k & Hk)%list_elem_of_lookup. rewrite <- He. by apply (lag_at _ k).
Qed.

Lemma interpolation_unique p q xs :
  NoDup xs → length p = length q → length p ≤ length xs →
  (∀ x, x ∈ xs → eval p x = eval q x) → p = q.
Proof.
  intros Hnd Hl Hle Hag.
  assert (Hz : zip_with add p (map (mul (opp f1)) q) = replicate (length p) f0).
  { assert (Hl' : length (zip_with add p (map (mul (opp f1)) q)) = length p)
      by (apply length_zip_with_l_eq; by rewrite length_map).
    rewrite <- Hl'. apply (eval_zero_coeffs _ xs); [done|lia|].
    intros x Hx. rewrite eval_zip_add by (by rewrite length_map).
    rewrite eval_scale, (Hag x Hx). ring. }
  clear xs Hnd Hle Hag. revert q Hl Hz.
  induction p as [|c p IH]; intros [|d q] Hl Hz; simpl in Hl, Hz; [done..|].
  injection Hl as Hl. injection Hz as Hc Hz. f_equal; [|by apply IH].
  replace c with (c + opp f1 * d + d) by ring. rewrite Hc. ring.
Qed.
End lagrange.
