(* ===== verification/Gf256.v ===== *)
(** * Arithmetic of GF(256) (ostrich-kra/src/shamir.rs)

    The field operations of Shamir's scheme, as the code computes them on
    [u8] and [u16]: peasant multiplication, and inversion by the extended
    Euclidean algorithm.  The theorems show that they form a field; the type
    [byte] packages that as a [field_theory] for Lagrange.v. *)
From stdpp Require Import base list.
From Stdlib Require Import ZArith Lia Field Bool.
From S2P Require Import Prelude.
Open Scope Z_scope.

(** ** The code *)

Definition gf_add (a b : u8) : u8 := Z.lxor a b.
Definition gf_sub (a b : u8) : u8 := Z.lxor a b.

(** [a <<= 1] on a [u8], then the reduction by [0x1B] when the high bit was set. *)
Definition gf_double (a : u8) : u8 :=
  let high_bit_set := negb (Z.land a 128 =? 0) in
  let a := Z.land (Z.shiftl a 1) 255 in
  if high_bit_set then Z.lxor a 27 else a.

Fixpoint gf_mul_loop (n : nat) (a b result : u8) : u8 :=
  match n with
  | O => result
  | S n =>
      let result := if negb (Z.land b 1 =? 0) then Z.lxor result a else result in
      gf_mul_loop n (gf_double a) (Z.shiftr b 1) result
  end.
Definition gf_mul (a b : u8) : u8 := gf_mul_loop 8 a b 0.

(** [16 - x.leading_zeros()] of a [u16]. *)
Definition bit_len (x : Z) : Z := if x =? 0 then 0 else Z.log2 x + 1.

(** [while b != 0]; sixteen turns empty a [u16]. *)
Fixpoint gf_mul_u16_loop (n : nat) (a b result : Z) : Z :=
  match n with
  | O => result
  | S n =>
      if b =? 0 then result
      else
        let result := if negb (Z.land b 1 =? 0) then Z.lxor result a else result in
        gf_mul_u16_loop n (wrap 16 (Z.shiftl a 1)) (Z.shiftr b 1) result
  end.
Definition gf_mul_u16 (a b : Z) : Z := gf_mul_u16_loop 16 a b 0.

Fixpoint gf_div_u16_loop (n : nat) (b divisor_bits remainder quotient : Z) : Z :=
  match n with
  | O => quotient
  | S n =>
      if bit_len remainder <? divisor_bits then quotient
      else
        let shift := bit_len remainder - divisor_bits in
        gf_div_u16_loop n b divisor_bits (Z.lxor remainder (wrap 16 (Z.shiftl b shift)))
          (Z.lxor quotient (wrap 16 (Z.shiftl 1 shift)))
  end.
Definition gf_div_u16 (a b : Z) : Z :=
  if b =? 0 then 0
  else gf_div_u16_loop (Z.to_nat (16 - bit_len b + 1)) b (bit_len b) a 0.

(** [while newr != 0]; the final [t] and [newr]. *)
Fixpoint gf_inv_loop (n : nat) (t newt r newr : Z) : Z * Z :=
  match n with
  | O => (t, newr)
  | S n =>
      if newr =? 0 then (t, newr)
      else
        let quotient := gf_div_u16 r newr in
        gf_inv_loop n newt (Z.lxor t (gf_mul_u16 quotient newt))
          newr (Z.lxor r (gf_mul_u16 quotient newr))
  end.
Definition gf_inv_fuel : nat := 8.
Definition gf_inv (a : u8) : u8 :=
  if a =? 0 then 0 else Z.land (gf_inv_loop gf_inv_fuel 0 1 283 a).1 255.

(** [gf_div] panics on a zero divisor. *)
Definition gf_div {E} (a b : u8) : outcome u8 E :=
  if b =? 0 then Panic else Ret (gf_mul a (gf_inv b)).

(** ** Bytes *)

Definition all_bytes : list Z := Z.of_nat <$> seq 0 256.

Lemma is_u8_all_bytes z : is_u8 z = true → z ∈ all_bytes.
Proof.
  rewrite is_u8_range. intros Hz. apply list_elem_of_fmap. exists (Z.to_nat z).
  split; [lia|]. apply elem_of_seq. lia.
Qed.

Lemma bytes_check (f : Z → bool) :
  forallb f all_bytes = true → ∀ z, is_u8 z = true → f z = true.
Proof. rewrite forallb_elem_of. intros H z Hz. by apply H, is_u8_all_bytes. Qed.

Lemma is_u8_land z : is_u8 (Z.land z 255) = true.
Proof.
  apply is_u8_range. change 255 with (Z.ones 8). rewrite Z.land_ones by done.
  by apply Z.mod_pos_bound.
Qed.

Lemma is_u8_fix z : is_u8 z = true ↔ Z.land z 255 = z.
Proof.
  split; [|intros <-; apply is_u8_land]. rewrite is_u8_range. intros H.
  change 255 with (Z.ones 8). rewrite Z.land_ones by done. by apply Z.mod_small.
Qed.

Lemma land_lxor_distr_l a b c :
  Z.land (Z.lxor a b) c = Z.lxor (Z.land a c) (Z.land b c).
Proof.
  apply Z.bits_inj_iff'. intros n _. rewrite !Z.land_spec, !Z.lxor_spec, !Z.land_spec.
  by destruct (Z.testbit a n), (Z.testbit b n), (Z.testbit c n).
Qed.

Lemma is_u8_lxor a b : is_u8 a = true → is_u8 b = true → is_u8 (Z.lxor a b) = true.
Proof. rewrite !is_u8_fix. intros Ha Hb. by rewrite land_lxor_distr_l, Ha, Hb. Qed.

(** ** Multiplication is bilinear *)

Lemma lxor_4 a b c d :
  Z.lxor (Z.lxor a b) (Z.lxor c d) = Z.lxor (Z.lxor a c) (Z.lxor b d).
Proof.
  rewrite !Z.lxor_assoc. f_equal. rewrite <- !Z.lxor_assoc. f_equal. apply Z.lxor_comm.
Qed.

Lemma bit_lxor a b k :
  0 ≤ k → negb (Z.land (Z.lxor a b) (2 ^ k) =? 0) =
  xorb (negb (Z.land a (2 ^ k) =? 0)) (negb (Z.land b (2 ^ k) =? 0)).
Proof.
  intros Hk.
  assert (H : ∀ z, negb (Z.land z (2 ^ k) =? 0) = Z.testbit z k).
  { intros z. assert (Hz : Z.land z (2 ^ k) = if Z.testbit z k then 2 ^ k else 0).
    { apply Z.bits_inj_iff'. intros n Hn. rewrite Z.land_spec, Z.pow2_bits_eqb by done.
      destruct (Z.eqb_spec k n) as [->|Hne].
      - destruct (Z.testbit z n) eqn:E; simpl; [|by rewrite Z.bits_0].
        by rewrite Z.pow2_bits_true.
      - rewrite andb_false_r. destruct (Z.testbit z k); [|by rewrite Z.bits_0].
        by rewrite Z.pow2_bits_false. }
    rewrite Hz. destruct (Z.testbit z k); [|done].
    apply negb_true_iff, Z.eqb_neq. pose proof (Z.pow_pos_nonneg 2 k). lia. }
  by rewrite !H, Z.lxor_spec.
Qed.

Lemma gf_double_lxor a b : gf_double (Z.lxor a b) = Z.lxor (gf_double a) (gf_double b).
Proof.
  unfold gf_double. pose proof (bit_lxor a b 7 ltac:(done)) as H. change (2 ^ 7) with 128 in H.
  rewrite H, Z.shiftl_lxor, land_lxor_distr_l.
  set (x := Z.land (Z.shiftl a 1) 255). set (y := Z.land (Z.shiftl b 1) 255).
  destruct (negb (Z.land a 128 =? 0)), (negb (Z.land b 128 =? 0)); simpl.
  - by rewrite lxor_4, Z.lxor_nilpotent, Z.lxor_0_r.
  - by rewrite Z.lxor_assoc, (Z.lxor_comm y), <- Z.lxor_assoc.
  - by rewrite Z.lxor_assoc.
  - done.
Qed.

Lemma gf_mul_loop_lxor_l n a a' b r r' :
  gf_mul_loop n (Z.lxor a a') b (Z.lxor r r') = Z.lxor (gf_mul_loop n a b r) (gf_mul_loop n a' b r').
Proof.
  revert a a' b r r'. induction n as [|n IH]; intros; [done|].
  cbn [gf_mul_loop]. rewrite gf_double_lxor.
  destruct (negb _); [rewrite lxor_4|]; apply IH.
Qed.

Lemma gf_mul_loop_lxor_r n a b b' r r' :
  gf_mul_loop n a (Z.lxor b b') (Z.lxor r r') = Z.lxor (gf_mul_loop n a b r) (gf_mul_loop n a b' r').
Proof.
  revert a b b' r r'. induction n as [|n IH]; intros; [done|]. cbn [gf_mul_loop].
  pose proof (bit_lxor b b' 0 ltac:(done)) as H. change (2 ^ 0) with 1 in H.
  rewrite H, Z.shiftr_lxor, <- IH. f_equal.
  destruct (negb (Z.land b 1 =? 0)), (negb (Z.land b' 1 =? 0)); simpl.
  - by rewrite lxor_4, Z.lxor_nilpotent, Z.lxor_0_r.
  - by rewrite !Z.lxor_assoc, (Z.lxor_comm a).
  - by rewrite Z.lxor_assoc.
  - done.
Qed.

Lemma gf_mul_lxor_l a a' b : gf_mul (Z.lxor a a') b = Z.lxor (gf_mul a b) (gf_mul a' b).
Proof. unfold gf_mul. by rewrite <- gf_mul_loop_lxor_l. Qed.
Lemma gf_mul_lxor_r a b b' : gf_mul a (Z.lxor b b') = Z.lxor (gf_mul a b) (gf_mul a b').
Proof. unfold gf_mul. by rewrite <- gf_mul_loop_lxor_r. Qed.

Lemma gf_double_u8 a : is_u8 (gf_double a) = true.
Proof. unfold gf_double. destruct (negb _); [apply is_u8_lxor; [|done]|]; apply is_u8_land. Qed.

Lemma gf_mul_u8 a b : is_u8 a = true → is_u8 (gf_mul a b) = true.
Proof.
  unfold gf_mul. assert (is_u8 0 = true) as H by done. revert H. generalize 0 as r.
  generalize 8%nat as n. intros n. revert a b.
  induction n as [|n IH]; intros a b r Hr Ha; [done|]. cbn [gf_mul_loop].
  apply IH; [|apply gf_double_u8]. destruct (negb _); [by apply is_u8_lxor|done].
Qed.

(** ** Linear functions agree when they agree on the eight bits *)

Definition basis : list Z := [1; 2; 4; 8; 16; 32; 64; 128].
Definition linear (f : Z → Z) : Prop := f 0 = 0 ∧ ∀ a b, f (Z.lxor a b) = Z.lxor (f a) (f b).
Definition bits_of (a : Z) : Z := foldr (λ k r, Z.lxor (Z.land a k) r) 0 basis.

Lemma bits_of_id a : is_u8 a = true → bits_of a = a.
Proof.
  intros Ha. apply Z.eqb_eq. revert a Ha. apply bytes_check. by vm_compute.
Qed.

Lemma land_basis k a : k ∈ basis → Z.land a k = k ∨ Z.land a k = 0.
Proof.
  intros Hk. assert (Hp : ∃ n, 0 ≤ n ∧ k = 2 ^ n).
  { unfold basis in Hk. rewrite !elem_of_cons in Hk.
    destruct Hk as [->|[->|[->|[->|[->|[->|[->|[->|Hk]]]]]]]];
      [exists 0|exists 1|exists 2|exists 3|exists 4|exists 5|exists 6|exists 7|by inversion Hk]; done. }
  destruct Hp as (n & Hn & ->). destruct (Z.testbit a n) eqn:E; [left|right].
  - apply Z.bits_inj_iff'. intros m Hm. rewrite Z.land_spec, Z.pow2_bits_eqb by done.
    destruct (Z.eqb_spec n m) as [->|]; [by rewrite E|apply andb_false_r].
  - apply Z.bits_inj_iff'. intros m Hm. rewrite Z.land_spec, Z.pow2_bits_eqb, Z.bits_0 by done.
    destruct (Z.eqb_spec n m) as [->|]; [by rewrite E|apply andb_false_r].
Qed.

Lemma linear_ext f g :
  linear f → linear g → (∀ k, k ∈ basis → f k = g k) → ∀ a, is_u8 a = true → f a = g a.
Proof.
  intros [Hf0 Hf] [Hg0 Hg] Hb a Ha. rewrite <- (bits_of_id a Ha). unfold bits_of.
  assert (∀ l, (∀ k, k ∈ l → k ∈ basis) →
    f (foldr (λ k r, Z.lxor (Z.land a k) r) 0 l) = g (foldr (λ k r, Z.lxor (Z.land a k) r) 0 l)) as H.
  { induction l as [|k l IH]; intros Hl; simpl; [congruence|].
    rewrite Hf, Hg, IH by (intros; apply Hl; by apply list_elem_of_further). f_equal.
    assert (k ∈ basis) as Hk by (apply Hl, list_elem_of_here).
    destruct (land_basis k a Hk) as [->| ->]; [by apply Hb|congruence]. }
  by apply H.
Qed.

Lemma linear_mul_l b : linear (λ a, gf_mul a b).
Proof.
  split; [|intros; apply gf_mul_lxor_l].
  by rewrite <- (Z.lxor_nilpotent 0), gf_mul_lxor_l, Z.lxor_nilpotent.
Qed.
Lemma linear_mul_r a : linear (gf_mul a).
Proof.
  split; [|intros; apply gf_mul_lxor_r].
  by rewrite <- (Z.lxor_nilpotent 0), gf_mul_lxor_r, Z.lxor_nilpotent.
Qed.
Lemma linear_compose f g : linear f → linear g → linear (λ a, f (g a)).
Proof. intros [Hf0 Hf] [Hg0 Hg]. split; [by rewrite Hg0|]. intros. by rewrite Hg, Hf. Qed.
#[export] Hint Resolve linear_mul_l linear_mul_r linear_compose : pki.

(** A statement about basis elements, by evaluation. *)
Lemma basis_check (f : Z → bool) : forallb f basis = true → ∀ k, k ∈ basis → f k = true.
Proof. by rewrite forallb_elem_of. Qed.

Lemma gf_mul_comm a b : is_u8 a = true → is_u8 b = true → gf_mul a b = gf_mul b a.
Proof.
  intros Ha Hb. apply (linear_ext (λ a, gf_mul a b) (gf_mul b)); [auto with pki..| |done].
  intros k Hk. apply (linear_ext (gf_mul k) (λ b, gf_mul b k)); [auto with pki..| |done].
  intros j Hj. apply Z.eqb_eq. revert j Hj. apply basis_check.
  revert k Hk. apply basis_check. by vm_compute.
Qed.

Lemma gf_mul_assoc a b c :
  is_u8 a = true → is_u8 b = true → is_u8 c = true →
  gf_mul a (gf_mul b c) = gf_mul (gf_mul a b) c.
Proof.
  intros Ha Hb Hc.
  apply (linear_ext (λ a, gf_mul a (gf_mul b c)) (λ a, gf_mul (gf_mul a b) c)); [| | |done].
  { apply linear_mul_l. } { apply (linear_compose (λ x, gf_mul x c)); auto with pki. }
  intros i Hi.
  apply (linear_ext (λ b, gf_mul i (gf_mul b c)) (λ b, gf_mul (gf_mul i b) c)); [| | |done].
  { apply (linear_compose (gf_mul i) (λ b, gf_mul b c)); auto with pki. }
  { apply (linear_compose (λ x, gf_mul x c)); auto with pki. }
  intros j Hj.
  apply (linear_ext (λ c, gf_mul i (gf_mul j c)) (gf_mul (gf_mul i j))); [| | |done].
  { apply (linear_compose (gf_mul i)); auto with pki. } { apply linear_mul_r. }
  intros k Hk. apply Z.eqb_eq. revert k Hk. apply basis_check.
  revert j Hj. apply basis_check. revert i Hi. apply basis_check. by vm_compute.
Qed.

Lemma gf_mul_1_l a : is_u8 a = true → gf_mul 1 a = a.
Proof. intros Ha. apply Z.eqb_eq. revert a Ha. apply bytes_check. by vm_compute. Qed.

(** ** Inversion *)

Lemma gf_inv_u8 a : is_u8 (gf_inv a) = true.
Proof. unfold gf_inv. destruct (a =? 0); [done|]. apply is_u8_land. Qed.

Lemma gf_inv_spec a : is_u8 a = true → a ≠ 0 → gf_mul (gf_inv a) a = 1.
Proof.
  intros Ha Hne. assert (H : (a =? 0) || (gf_mul (gf_inv a) a =? 1) = true).
  { clear Hne. revert a Ha. apply bytes_check. by vm_compute. }
  apply orb_true_iff in H as [?%Z.eqb_eq|?%Z.eqb_eq]; done.
Qed.

(** The fuel of the two [while] loops is enough: they end by their condition. *)
Lemma gf_inv_fuel_enough a : is_u8 a = true → (gf_inv_loop gf_inv_fuel 0 1 283 a).2 = 0.
Proof. intros Ha. apply Z.eqb_eq. revert a Ha. apply bytes_check. by vm_compute. Qed.

Lemma gf_mul_u16_fuel_enough a b r n :
  0 ≤ b < 2 ^ 16 → (16 ≤ n)%nat → gf_mul_u16_loop n a b r = gf_mul_u16_loop 16 a b r.
Proof.
  change 16 with (Z.of_nat 16). generalize 16%nat as m. intros m. revert n a b r.
  induction m as [|m IH]; intros n a b r Hb Hn.
  - assert (b = 0) as -> by (simpl in Hb; lia). by destruct n.
  - destruct n as [|n]; [lia|]. cbn [gf_mul_u16_loop]. destruct (b =? 0); [done|].
    apply IH; [|lia]. rewrite Nat2Z.inj_succ, Z.pow_succ_r in Hb by lia.
    rewrite Z.shiftr_div_pow2 by done. change (2 ^ 1) with 2.
    split; [apply Z.div_pos; lia|apply Z.div_lt_upper_bound; lia].
Qed.

Lemma gf_inv_loop_more n m t newt r newr :
  (gf_inv_loop n t newt r newr).2 = 0 → (n ≤ m)%nat →
  gf_inv_loop m t newt r newr = gf_inv_loop n t newt r newr.
Proof.
  revert m t newt r newr. induction n as [|n IH]; intros m t newt r newr H Hm.
  - simpl in H. subst. by destruct m.
  - destruct m as [|m]; [lia|]. cbn [gf_inv_loop] in *. destruct (newr =? 0); [done|].
    apply IH; [done|lia].
Qed.

(** The operations form the field GF(256): they stay within [u8],
    multiplication is commutative, associative, has unit 1 and distributes
    over [gf_add], [gf_sub] undoes [gf_add], [gf_div] by a nonzero byte is
    the inverse of multiplying by it, and [gf_div] by zero panics. *)
Theorem gf256_field {E} a b c :
  is_u8 a = true → is_u8 b = true → is_u8 c = true →
  is_u8 (gf_add a b) = true ∧ is_u8 (gf_mul a b) = true ∧
  gf_sub (gf_add a b) b = a ∧
  gf_mul a b = gf_mul b a ∧ gf_mul a (gf_mul b c) = gf_mul (gf_mul a b) c ∧ gf_mul 1 a = a ∧
  gf_mul a (gf_add b c) = gf_add (gf_mul a b) (gf_mul a c) ∧
  (b ≠ 0 → ∃ q, gf_div (E := E) a b = Ret q ∧ is_u8 q = true ∧ gf_mul q b = a) ∧
  gf_div (E := E) a 0 = Panic.
Proof.
  intros Ha Hb Hc. split_and!.
  - by apply is_u8_lxor.
  - by apply gf_mul_u8.
  - unfold gf_sub, gf_add. by rewrite Z.lxor_assoc, Z.lxor_nilpotent, Z.lxor_0_r.
  - by apply gf_mul_comm.
  - by apply gf_mul_assoc.
  - by apply gf_mul_1_l.
  - apply gf_mul_lxor_r.
  - intros Hne. unfold gf_div. rewrite (proj2 (Z.eqb_neq b 0) Hne).
    eexists. split_and!; [done|by apply gf_mul_u8|].
    rewrite <- gf_mul_assoc by (try done; apply gf_inv_u8).
    rewrite gf_inv_spec, gf_mul_comm by done. by apply gf_mul_1_l.
  - done.
Qed.

(** The two [while] loops end: from any byte the extended Euclidean
    algorithm reaches [newr = 0] within eight turns, and from any [u16] the
    peasant multiplication reaches [b = 0] within sixteen; more fuel changes
    neither result. *)
Theorem gf_loops_terminate a b r n :
  is_u8 a = true → 0 ≤ b < 2 ^ 16 →
  (gf_inv_loop gf_inv_fuel 0 1 283 a).2 = 0 ∧
  ((gf_inv_fuel ≤ n)%nat → gf_inv_loop n 0 1 283 a = gf_inv_loop gf_inv_fuel 0 1 283 a) ∧
  ((16 ≤ n)%nat → gf_mul_u16_loop n a b r = gf_mul_u16_loop 16 a b r).
Proof.
  intros Ha Hb. pose proof (gf_inv_fuel_enough a Ha) as H. split_and!; [done| |].
  - by apply gf_inv_loop_more.
  - by apply gf_mul_u16_fuel_enough.
Qed.

(** The products of FIPS 197, section 4.2, and the inverse of 0x53. *)
Example gf_mul_fips : gf_mul 87 131 = 193 ∧ gf_mul 87 19 = 254 ∧ gf_inv 83 = 202.
Proof. by vm_compute. Qed.

Lemma gf256_field_witness :
  ∃ q, gf_div (E := unit) 87 83 = Ret q ∧ is_u8 q = true ∧ gf_mul q 83 = 87.
Proof.
  apply (gf256_field (E := unit) 87 83 202); [reflexivity..|discriminate].
Defined.

Lemma gf_loops_terminate_witness :
  gf_inv_loop 100 0 1 283 83 = gf_inv_loop gf_inv_fuel 0 1 283 83.
Proof.
  apply (gf_loops_terminate 83 5 0 100); [reflexivity|lia|]. unfold gf_inv_fuel. lia.
Defined.
