(* ===== verification/Shamir.v ===== *)
(** * Shamir's secret sharing (ostrich-kra/src/shamir.rs)

    [split] and [reconstruct] as the code writes them, over the arithmetic of
    Gf256.v.  The random bytes are an argument: [rng i] is the [i]-th byte
    that [fill_bytes] delivers.  The theorems: any [threshold] of the shares
    give the secret back; fewer say nothing about it; and every way in which
    [reconstruct] refuses or panics. *)
From stdpp Require Import base list pretty sets.
From Stdlib Require Import ZArith Lia Field Eqdep_dec.
From S2P Require Import Prelude Lagrange Gf256.
Open Scope Z_scope.

(** ** The code *)

(** ostrich-kra/src/error.rs.  The errors of other crates are kept as their text. *)
Inductive Error :=
| InvalidRequest (msg : string)
| KeyNotFound (msg : string)
| EscrowError (msg : string)
| RecoveryError (msg : string)
| InsufficientShares (required provided : nat)
| KeyWrap (msg : string)
| InvalidShare
| Unauthorized (msg : string)
| AgentNotFound (msg : string)
| Database (msg : string)
| Crypto (msg : string)
| Common (msg : string)
| Audit (msg : string).

Record Share := { index : u8; value : list u8 }.

Definition new_share (i : nat) : Share := {| index := wrap 8 (Z.of_nat i); value := [] |}.
Definition push_value (y : u8) (s : Share) : Share :=
  {| index := index s; value := value s ++ [y] |}.

Fixpoint evaluate_loop (coefficients : list u8) (x x_power result : u8) : u8 :=
  match coefficients with
  | [] => result
  | coef :: cs => evaluate_loop cs x (gf_mul x_power x) (gf_add result (gf_mul coef x_power))
  end.
Definition evaluate_polynomial (coefficients : list u8) (x : u8) : u8 :=
  evaluate_loop coefficients x 1 0.

(** One polynomial per byte of the secret, evaluated for every share. *)
Fixpoint split_bytes (secret : list u8) (threshold : nat) (rng : nat → u8)
    (shares : list Share) : list Share :=
  match secret with
  | [] => shares
  | b :: secret =>
      let coefficients := b :: (rng <$> seq 0 (threshold - 1)) in
      split_bytes secret threshold (λ i, rng (threshold - 1 + i)%nat)
        ((λ s, push_value (evaluate_polynomial coefficients (index s)) s) <$> shares)
  end.

Definition split (secret : list u8) (threshold num_shares : nat) (rng : nat → u8) :
    result (list Share) Error :=
  if (num_shares <? threshold)%nat then
    Err (InvalidRequest ("Threshold " +:+ pretty threshold +:+
      " cannot exceed number of shares " +:+ pretty num_shares))
  else if (threshold =? 0)%nat then Err (InvalidRequest "Threshold must be at least 1")
  else if (num_shares =? 0)%nat || (255 <? num_shares)%nat then
    Err (InvalidRequest ("Number of shares must be between 1 and 255, got " +:+ pretty num_shares))
  else Ok (split_bytes secret threshold rng (new_share <$> seq 1 num_shares)).

(** The inner loop: numerator and denominator over the points other than [i]. *)
Fixpoint lagrange_products (i j : nat) (points : list (u8 * u8)) (x xi num den : u8) : u8 * u8 :=
  match points with
  | [] => (num, den)
  | (xj, _) :: points =>
      if (i =? j)%nat then lagrange_products i (S j) points x xi num den
      else lagrange_products i (S j) points x xi
             (gf_mul num (gf_sub x xj)) (gf_mul den (gf_sub xi xj))
  end.

Fixpoint lagrange_loop (points : list (u8 * u8)) (x : u8) (i : nat) (rest : list (u8 * u8))
    (result : u8) : outcome u8 Error :=
  match rest with
  | [] => Ret result
  | (xi, yi) :: rest =>
      let '(numerator, denominator) := lagrange_products i 0 points x xi 1 1 in
      let! lagrange_basis := gf_div numerator denominator in
      let term := gf_mul yi lagrange_basis in
      lagrange_loop points x (S i) rest (gf_add result term)
  end.
Definition lagrange_interpolate (points : list (u8 * u8)) (x : u8) : outcome u8 Error :=
  lagrange_loop points x 0 points 0.

(** [share.value[byte_idx]]. *)
Definition byte_at (byte_idx : nat) (s : Share) : outcome (u8 * u8) Error :=
  match value s !! byte_idx with Some y => Ret (index s, y) | None => Panic end.

Fixpoint reconstruct_bytes (shares : list Share) (idxs : list nat) (secret : list u8) :
    outcome (list u8) Error :=
  match idxs with
  | [] => Ret secret
  | byte_idx :: idxs =>
      let! points := out_map (byte_at byte_idx) shares in
      let! b := lagrange_interpolate points 0 in
      reconstruct_bytes shares idxs (secret ++ [b])
  end.

Definition reconstruct (shares : list Share) (threshold : nat) : outcome (list u8) Error :=
  if (length shares <? threshold)%nat then Fail (InsufficientShares threshold (length shares))
  else
    let shares_to_use := take threshold shares in
    match shares_to_use with
    | [] => Panic  (* [shares_to_use[0]] *)
    | s0 :: _ =>
        let secret_len := length (value s0) in
        if forallb (λ s, length (value s) =? secret_len)%nat shares_to_use
        then reconstruct_bytes shares_to_use (seq 0 secret_len) []
        else Fail InvalidShare
    end.

(** ** GF(256) as a field *)

Definition byte : Type := { z : Z | is_u8 z = true }.
#[local] Abbreviation val := (@proj1_sig Z (λ z, is_u8 z = true)).

Lemma byte_eq (a b : byte) : val a = val b → a = b.
Proof.
  destruct a as [a Ha], b as [b Hb]. simpl. intros ->. f_equal. apply UIP_dec, bool_dec.
Qed.
Lemma val_u8 (a : byte) : is_u8 (val a) = true.
Proof. exact (proj2_sig a). Qed.
Lemma val_eq (a b : byte) : a = b → val a = val b.
Proof. by intros ->. Qed.
#[export] Instance byte_eq_dec : EqDecision byte.
Proof.
  intros a b. destruct (decide (val a = val b)) as [E|E]; [left; by apply byte_eq|right; congruence].
Defined.

Definition b0 : byte := 0 ↾ eq_refl.
Definition b1 : byte := 1 ↾ eq_refl.
Definition badd (a b : byte) : byte := gf_add (val a) (val b) ↾ is_u8_lxor _ _ (proj2_sig a) (proj2_sig b).
Definition bmul (a b : byte) : byte := gf_mul (val a) (val b) ↾ gf_mul_u8 _ _ (proj2_sig a).
Definition binv (a : byte) : byte := gf_inv (val a) ↾ gf_inv_u8 _.
Definition bopp (a : byte) : byte := a.
Definition bdiv (a b : byte) : byte := bmul a (binv b).

Lemma byte_field : field_theory b0 b1 badd bmul badd bopp bdiv binv (@eq byte).
Proof.
  assert (C : ∀ a b, bmul a b = bmul b a).
  { intros [a Ha] [b Hb]. apply byte_eq. by apply gf_mul_comm. }
  split; [split| | |].
  - intros [a Ha]. apply byte_eq. apply Z.lxor_0_l.
  - intros [a Ha] [b Hb]. apply byte_eq. apply Z.lxor_comm.
  - intros [a Ha] [b Hb] [c Hc]. apply byte_eq. symmetry. apply Z.lxor_assoc.
  - intros [a Ha]. apply byte_eq. by apply gf_mul_1_l.
  - intros [a Ha] [b Hb]. apply byte_eq. by apply gf_mul_comm.
  - intros [a Ha] [b Hb] [c Hc]. apply byte_eq. by apply gf_mul_assoc.
  - intros [a Ha] [b Hb] [c Hc]. apply byte_eq. apply gf_mul_lxor_l.
  - done.
  - intros [a Ha]. apply byte_eq. apply Z.lxor_nilpotent.
  - by intros [=].
  - done.
  - intros [a Ha] Hne. apply byte_eq. apply gf_inv_spec; [done|].
    intros E. by apply Hne, byte_eq.
Qed.

Add Field byte_Field : byte_field.

#[local] Abbreviation beval := (eval b0 badd bmul).
#[local] Abbreviation blag := (lag b0 b1 badd bmul badd bdiv).
#[local] Abbreviation bprod := (prod_sub b1 bmul badd).

(** A list of [u8] as bytes of the field. *)

Lemma u8_list_bytes l : u8_list l → ∃ bs : list byte, val <$> bs = l.
Proof.
  induction 1 as [|z l Hz _ (bs & <-)]; [by exists []|]. by exists ((z ↾ Hz) :: bs).
Qed.

(** ** The code computes in the field *)

Lemma evaluate_loop_eval (cs : list byte) (x xp r : byte) :
  evaluate_loop (val <$> cs) (val x) (val xp) (val r) = val (badd r (bmul xp (beval cs x))).
Proof.
  revert xp r. induction cs as [|c cs IH]; intros xp r.
  - change (val r = val (badd r (bmul xp b0))). apply val_eq. ring.
  - cbn [fmap list_fmap evaluate_loop].
    change (gf_mul (val xp) (val x)) with (val (bmul xp x)).
    change (gf_add (val r) (gf_mul (val c) (val xp))) with (val (badd r (bmul c xp))).
    rewrite IH. apply val_eq. cbn [eval]. ring.
Qed.

Lemma evaluate_polynomial_eval (cs : list byte) (x : byte) :
  evaluate_polynomial (val <$> cs) (val x) = val (beval cs x).
Proof.
  unfold evaluate_polynomial. change 1 with (val b1). change 0 with (val b0).
  rewrite evaluate_loop_eval. apply val_eq. ring.
Qed.

Lemma bmul_assoc a b c : bmul (bmul a b) c = bmul a (bmul b c).
Proof. ring. Qed.

Lemma bmul_1_l a : bmul b1 a = a.
Proof. ring. Qed.

Lemma val_pair (a b c d : byte) : a = c → b = d → (val a, val b) = (val c, val d).
Proof. by intros -> ->. Qed.

#[local] Abbreviation vpoint := (λ p : byte * byte, (val p.1, val p.2)).

Lemma lagrange_products_all i j (pts : list (byte * byte)) (x xi num den : byte) :
  (i < j)%nat →
  lagrange_products i j (vpoint <$> pts) (val x) (val xi) (val num) (val den) =
  (val (bmul num (bprod pts.*1 x)), val (bmul den (bprod pts.*1 xi))).
Proof.
  revert j num den. induction pts as [|[xj yj] pts IH]; intros j num den Hij.
  - change ((val num, val den) = (val (bmul num b1), val (bmul den b1))).
    apply val_pair; unfold prod_sub; cbn [foldr fmap list_fmap fst]; ring.
  - cbn -[gf_mul gf_sub val]. destruct (Nat.eqb_spec i j); [lia|].
    change (gf_mul (val num) (gf_sub (val x) (val xj))) with (val (bmul num (badd x xj))).
    change (gf_mul (val den) (gf_sub (val xi) (val xj))) with (val (bmul den (badd xi xj))).
    rewrite IH by lia. apply val_pair; unfold prod_sub; cbn [foldr fmap list_fmap fst]; ring.
Qed.

Lemma lagrange_products_spec i j (pts : list (byte * byte)) (x xi num den : byte) :
  (j ≤ i)%nat →
  lagrange_products i j (vpoint <$> pts) (val x) (val xi) (val num) (val den) =
  (val (bmul num (bprod (delete (i - j)%nat pts.*1) x)),
   val (bmul den (bprod (delete (i - j)%nat pts.*1) xi))).
Proof.
  revert j num den. induction pts as [|[xj yj] pts IH]; intros j num den Hij.
  - change ((val num, val den) = (val (bmul num b1), val (bmul den b1))).
    apply val_pair; unfold prod_sub; cbn [foldr fmap list_fmap fst]; ring.
  - cbn -[gf_mul gf_sub val delete]. destruct (Nat.eqb_spec i j) as [->|Hne].
    + rewrite Nat.sub_diag. cbn [fmap list_fmap fst delete list_delete]. by rewrite lagrange_products_all by lia.
    + replace (i - j)%nat with (S (i - S j)) by lia. cbn [fmap list_fmap fst delete list_delete].
      change (gf_mul (val num) (gf_sub (val x) (val xj))) with (val (bmul num (badd x xj))).
      change (gf_mul (val den) (gf_sub (val xi) (val xj))) with (val (bmul den (badd xi xj))).
      rewrite IH by lia. apply val_pair; apply bmul_assoc.
Qed.

Lemma val_badd a b : val (badd a b) = gf_add (val a) (val b).
Proof. done. Qed.
Lemma val_bmul a b : val (bmul a b) = gf_mul (val a) (val b).
Proof. done. Qed.

#[local] Opaque gf_add gf_mul gf_inv.

Lemma gf_div_Ret {E} (a b : byte) : b ≠ b0 → gf_div (E := E) (val a) (val b) = Ret (val (bdiv a b)).
Proof.
  intros Hb. unfold gf_div. destruct (Z.eqb_spec (val b) 0) as [H|]; [|done].
  by destruct Hb; apply byte_eq.
Qed.

#[local] Abbreviation bterm := (lag_term b1 bmul badd bdiv).
#[local] Abbreviation bsum := (sum b0 badd).

(** The outer loop from its [i]-th turn on. *)
Lemma lagrange_loop_spec (pts rest : list (byte * byte)) (x r : byte) i :
  NoDup pts.*1 → drop i pts = rest →
  lagrange_loop (vpoint <$> pts) (val x) i (vpoint <$> rest) (val r) =
  Ret (val (badd r (bsum (imap (λ k, bterm pts.*1 x (i + k)%nat) rest)))).
Proof.
  intros Hnd. revert i r. induction rest as [|[xi yi] rest IH]; intros i r Hr.
  - change (@Ret Z Error (val r) = Ret (val (badd r b0))). f_equal. apply val_eq. ring.
  - cbn -[lagrange_products gf_div gf_mul gf_add val imap]. change 1 with (val b1).
    rewrite lagrange_products_spec by lia.
    assert (Hi : pts !! i = Some (xi, yi)).
    { rewrite <- (Nat.add_0_r i). by rewrite <- lookup_drop, Hr. }
    rewrite gf_div_Ret.
    2:{ rewrite Nat.sub_0_r. intros H.
        apply (prod_sub_nonzero _ _ _ _ _ _ _ _ byte_field (delete i pts.*1) xi).
        - apply delete_notin; [done|]. by rewrite list_lookup_fmap, Hi.
        - rewrite <- H. ring. }
    cbn [out_bind].
    rewrite <- val_bmul, <- val_badd.
    rewrite IH by (replace (S i) with (i + 1)%nat by lia; by rewrite <- drop_drop, Hr). f_equal. apply val_eq.
    rewrite Nat.sub_0_r. cbn [imap].
    rewrite (imap_ext (λ k, bterm pts.*1 x (S i + k)%nat) ((λ k, bterm pts.*1 x (i + k)%nat) ∘ S)).
    2:{ intros k p Hk. cbn. by rewrite Nat.add_succ_r. }
    rewrite Nat.add_0_r. unfold sum. cbn [foldr]. unfold lag_term at 2. cbn [fst snd].
    rewrite !bmul_1_l. ring.
Qed.

Lemma lagrange_interpolate_lag (pts : list (byte * byte)) (x : byte) :
  NoDup pts.*1 → lagrange_interpolate (vpoint <$> pts) (val x) = Ret (val (blag pts x)).
Proof.
  intros Hnd. unfold lagrange_interpolate. change 0 with (val b0).
  rewrite (lagrange_loop_spec pts pts) by done. apply (f_equal Ret), val_eq.
  change (badd b0 (blag pts x) = blag pts x). ring.
Qed.

(** ** Splitting *)

(** The coefficients of the polynomial for byte [k] of the secret, after its
    constant term. *)
Definition coefs_at (threshold : nat) (rng : nat → u8) (k : nat) : list u8 :=
  (λ j, rng (k * (threshold - 1) + j)%nat) <$> seq 0 (threshold - 1).

Definition share_bytes (secret : list u8) (threshold : nat) (rng : nat → u8) (x : u8) : list u8 :=
  imap (λ k b, evaluate_polynomial (b :: coefs_at threshold rng k) x) secret.

Lemma split_bytes_spec secret threshold rng shares :
  split_bytes secret threshold rng shares =
  (λ s, {| index := index s; value := value s ++ share_bytes secret threshold rng (index s) |})
    <$> shares.
Proof.
  revert rng shares. induction secret as [|b secret IH]; intros rng shares; cbn [split_bytes].
  - rewrite <- (list_fmap_id shares) at 1. apply list_fmap_ext. intros i [x v] _. cbn.
    by rewrite app_nil_r.
  - rewrite IH, <- list_fmap_compose. apply list_fmap_ext. intros i [x v] _. cbn.
    rewrite <- app_assoc. do 2 f_equal. unfold share_bytes. cbn [app imap]. f_equal.
    apply imap_ext. intros k c _. apply (f_equal (λ l, evaluate_polynomial (c :: l) x)).
    apply list_fmap_ext. intros ? j _. f_equal. lia.
Qed.

Lemma split_Ok secret threshold num_shares rng shares :
  split secret threshold num_shares rng = Ok shares ↔
  (1 ≤ threshold ≤ num_shares)%nat ∧ (num_shares ≤ 255)%nat ∧
  shares = (λ i, {| index := Z.of_nat i; value := share_bytes secret threshold rng (Z.of_nat i) |})
             <$> seq 1 num_shares.
Proof.
  unfold split. destruct (Nat.ltb_spec num_shares threshold); [split; [done|lia]|].
  destruct (Nat.eqb_spec threshold 0); [split; [done|lia]|].
  destruct (Nat.eqb_spec num_shares 0); [lia|]. simpl.
  destruct (Nat.ltb_spec 255 num_shares); [split; [done|lia]|].
  assert (split_bytes secret threshold rng (new_share <$> seq 1 num_shares) =
    (λ i, {| index := Z.of_nat i; value := share_bytes secret threshold rng (Z.of_nat i) |})
      <$> seq 1 num_shares) as ->.
  { rewrite split_bytes_spec, <- list_fmap_compose. apply list_fmap_ext.
    intros k i [-> Hk]%lookup_seq. cbn -[wrap Z.of_nat]. unfold wrap.
    by rewrite Z.mod_small by lia. }
  split; [intros [= <-]; split_and!; [lia..|done]|by intros (_ & _ & ->)].
Qed.

(** What every share of a split holds. *)
Lemma split_share secret threshold num_shares rng shares s :
  split secret threshold num_shares rng = Ok shares → s ∈ shares →
  1 ≤ index s ≤ Z.of_nat num_shares ∧ is_u8 (index s) = true ∧
  value s = share_bytes secret threshold rng (index s).
Proof.
  rewrite split_Ok. intros (H1 & H2 & ->) (i & -> & Hi)%list_elem_of_fmap.
  apply elem_of_seq in Hi. simpl. rewrite is_u8_range. split_and!; [lia..|done].
Qed.

(** ** Reconstructing *)

Lemma reconstruct_bytes_Ret shares idxs acc (f : nat → u8) :
  (∀ k, k ∈ idxs → ∃ points, out_map (byte_at k) shares = Ret points ∧
     lagrange_interpolate points 0 = Ret (f k)) →
  reconstruct_bytes shares idxs acc = Ret (acc ++ (f <$> idxs)).
Proof.
  revert acc. induction idxs as [|k idxs IH]; intros acc H; [simpl; by rewrite app_nil_r|].
  cbn [reconstruct_bytes]. destruct (H k) as (pts & -> & Hl); [apply list_elem_of_here|].
  cbn [out_bind]. rewrite Hl. cbn [out_bind]. rewrite IH.
  - by rewrite <- app_assoc.
  - intros j Hj. by apply H, list_elem_of_further.
Qed.

(** The points of byte [k] of some shares, as points of the field. *)
Lemma byte_points shares k :
  Forall (λ s, is_u8 (index s) = true ∧ u8_list (value s) ∧ (k < length (value s))%nat) shares →
  ∃ pts, out_map (byte_at k) shares = Ret (vpoint <$> pts) ∧ val <$> pts.*1 = index <$> shares ∧
    ∀ i s p, shares !! i = Some s → pts !! i = Some p → value s !! k = Some (val p.2).
Proof.
  induction 1 as [|[x v] shares (Hx & Hv & Hk) _ (pts & H1 & H2 & H3)]; [by exists []|].
  simpl in *. destruct (lookup_lt_is_Some_2 v k Hk) as [y Hy].
  assert (Hyb : is_u8 y = true) by by apply (Forall_lookup_1 _ _ _ _ Hv Hy).
  exists ((x ↾ Hx, y ↾ Hyb) :: pts). unfold byte_at at 1. simpl. rewrite Hy. simpl. rewrite H1. simpl.
  split_and!; [done|by f_equal|]. intros [|i] s p Hs Hp; simplify_eq/=; [done|by eapply H3].
Qed.

Lemma NoDup_indices (pts : list (byte * byte)) shares :
  val <$> pts.*1 = index <$> shares → NoDup (index <$> shares) → NoDup pts.*1.
Proof. intros <-. apply NoDup_fmap_1. Qed.

(** Shares that are bytes. *)
Definition share_u8 (s : Share) : Prop := is_u8 (index s) = true ∧ u8_list (value s).

Definition same_length (n : nat) (shares : list Share) : Prop :=
  Forall (λ s, length (value s) = n) shares.

Lemma reconstruct_long s0 used shares threshold :
  (threshold ≤ length shares)%nat → take threshold shares = s0 :: used →
  reconstruct shares threshold =
  if decide (same_length (length (value s0)) (s0 :: used))
  then reconstruct_bytes (s0 :: used) (seq 0 (length (value s0))) []
  else Fail InvalidShare.
Proof.
  intros Hl Hu. unfold reconstruct. destruct (Nat.ltb_spec (length shares) threshold); [lia|].
  rewrite Hu. destruct (decide _) as [Hs|Hs].
  - replace (forallb _ _) with true; [done|]. symmetry. apply forallb_elem_of. intros s Hin.
    apply Nat.eqb_eq. unfold same_length in Hs. rewrite Forall_forall in Hs. by apply Hs.
  - replace (forallb _ _) with false; [done|]. symmetry. apply not_true_is_false.
    rewrite forallb_elem_of. intros H'. apply Hs. apply Forall_forall. intros s Hin.
    by apply Nat.eqb_eq, H'.
Qed.

(** The polynomial of byte [k], with coefficients in the field. *)
Lemma coefs_bytes threshold rng k :
  (∀ i, is_u8 (rng i) = true) →
  ∃ cs : list byte, val <$> cs = coefs_at threshold rng k ∧ length cs = (threshold - 1)%nat.
Proof.
  intros Hrng. destruct (u8_list_bytes (coefs_at threshold rng k)) as [cs Hcs].
  { apply Forall_fmap, Forall_forall. intros j _. apply Hrng. }
  exists cs. split; [done|]. apply (f_equal length) in Hcs.
  unfold coefs_at in Hcs. by rewrite !length_fmap, length_seq in Hcs.
Qed.

Lemma beval_cons_0 b cs : beval (b :: cs) b0 = b.
Proof. simpl. ring. Qed.

Lemma share_bytes_lookup secret threshold rng x k b :
  secret !! k = Some b →
  share_bytes secret threshold rng x !! k =
  Some (evaluate_polynomial (b :: coefs_at threshold rng k) x).
Proof. intros Hb. unfold share_bytes. by rewrite list_lookup_imap, Hb. Qed.

Lemma share_bytes_length secret threshold rng x :
  length (share_bytes secret threshold rng x) = length secret.
Proof. apply length_imap. Qed.

Lemma evaluate_polynomial_u8 (cs : list u8) x :
  u8_list cs → is_u8 x = true → is_u8 (evaluate_polynomial cs x) = true.
Proof.
  intros (bs & <-)%u8_list_bytes Hx. change x with (val (x ↾ Hx)).
  rewrite evaluate_polynomial_eval. apply val_u8.
Qed.

Lemma share_bytes_u8 secret threshold rng x :
  u8_list secret → (∀ i, is_u8 (rng i) = true) → is_u8 x = true →
  u8_list (share_bytes secret threshold rng x).
Proof.
  intros Hs Hrng Hx. apply Forall_lookup. intros k y. unfold share_bytes.
  rewrite list_lookup_imap. intros (b & Hb & ->)%fmap_Some_1.
  apply evaluate_polynomial_u8; [|done]. apply Forall_cons. split.
  - by apply (Forall_lookup_1 _ _ _ _ Hs Hb).
  - apply Forall_fmap, Forall_forall. intros j _. apply Hrng.
Qed.

(** Byte [k] comes back from the points of [threshold] distinct shares. *)
Lemma byte_reconstructed secret threshold rng shares k :
  u8_list secret → (∀ i, is_u8 (rng i) = true) → (1 ≤ threshold)%nat →
  length shares = threshold → NoDup (index <$> shares) → (k < length secret)%nat →
  Forall (λ s, is_u8 (index s) = true ∧ value s = share_bytes secret threshold rng (index s)) shares →
  ∃ points, out_map (byte_at k) shares = Ret points ∧
    lagrange_interpolate points 0 = Ret (nth k secret 0).
Proof.
  intros Hs Hrng Ht Hl Hnd Hk Hsh.
  destruct (lookup_lt_is_Some_2 secret k Hk) as [b Hb].
  destruct (byte_points shares k) as (pts & Hpts & Hidx & Hval).
  { eapply Forall_impl; [exact Hsh|]. intros s (Hi & Hv). rewrite Hv, share_bytes_length.
    split_and!; [done|by apply share_bytes_u8|done]. }
  eexists. split; [exact Hpts|]. change 0 with (val b0) at 1.
  rewrite lagrange_interpolate_lag by by eapply NoDup_indices.
  destruct (coefs_bytes threshold rng k Hrng) as (cs & Hcs & Hcl).
  assert (Hbb : is_u8 b = true) by by apply (Forall_lookup_1 _ _ _ _ Hs Hb).
  set (p := (b ↾ Hbb) :: cs).
  assert (Heq : pts = (λ x, (x, beval p x)) <$> pts.*1).
  { rewrite <- list_fmap_compose. rewrite <- (list_fmap_id pts) at 1.
    apply list_fmap_ext. intros i [x y] Hi. cbn. f_equal. apply byte_eq.
    assert (Hx : (index <$> shares) !! i = Some (val x)).
    { by rewrite <- Hidx, !list_lookup_fmap, Hi. }
    rewrite list_lookup_fmap in Hx. apply fmap_Some_1 in Hx as (s & Hsi & Hx).
    specialize (Hval i s _ Hsi Hi). cbn [snd] in Hval.
    destruct (Forall_lookup_1 _ _ _ _ Hsh Hsi) as [_ Hv].
    rewrite Hv, (share_bytes_lookup _ _ _ _ _ b Hb), <- Hcs, <- Hx in Hval.
    injection Hval as Hval. rewrite <- Hval. exact (evaluate_polynomial_eval p x). }
  rewrite Heq. rewrite (lag_correct _ _ _ _ _ _ _ _ byte_field threshold).
  - unfold p. rewrite beval_cons_0. by rewrite (nth_lookup_Some _ _ _ _ Hb).
  - replace threshold with (length p) by (change (S (length cs) = threshold); rewrite Hcl; lia). apply ispoly_eval.
  - by eapply NoDup_indices.
  - rewrite <- Hl, <- (length_fmap index shares), <- Hidx. by rewrite !length_fmap.
Qed.

(** ** Properties *)

(** C7. Threshold recovery: whatever random coefficients [split] drew, any
    list of its shares (in any order, chosen by the recovery agents) whose
    first [threshold] entries have different indices reconstructs to the
    secret. *)
Theorem split_reconstruct secret threshold num_shares rng shares used :
  u8_list secret → (∀ i, is_u8 (rng i) = true) →
  split secret threshold num_shares rng = Ok shares →
  used ⊆ shares → (threshold ≤ length used)%nat →
  NoDup (index <$> take threshold used) →
  reconstruct used threshold = Ret secret.
Proof.
  intros Hs Hrng Hsplit Hsub Hl Hnd.
  assert (1 ≤ threshold)%nat by (apply split_Ok in Hsplit; lia).
  assert (Hall : Forall (λ s, is_u8 (index s) = true ∧
      value s = share_bytes secret threshold rng (index s)) (take threshold used)).
  { apply Forall_forall. intros s Hin%(subseteq_take threshold used)%Hsub.
    by apply (split_share _ _ _ _ _ _ Hsplit). }
  destruct (take threshold used) as [|s0 us] eqn:Htake.
  { apply (f_equal length) in Htake. rewrite length_take in Htake. simpl in Htake. lia. }
  assert (Hlen : same_length (length secret) (s0 :: us)).
  { eapply Forall_impl; [exact Hall|]. intros s [_ ->]. apply share_bytes_length. }
  rewrite (reconstruct_long s0 us) by done.
  assert (length (value s0) = length secret) as -> by by inversion Hlen.
  rewrite decide_True by done.
  rewrite (reconstruct_bytes_Ret _ _ _ (λ k, nth k secret 0)).
  - by rewrite fmap_nth_seq.
  - intros k Hk%elem_of_seq. apply (byte_reconstructed secret threshold rng); try done; [|lia].
    rewrite <- Htake, length_take. lia.
Qed.

(** Two points with one abscissa: some denominator is zero. *)
Lemma lagrange_loop_Panic (pts rest : list (byte * byte)) (x r : byte) i :
  drop i pts = rest →
  (∃ k p, rest !! k = Some p ∧ p.1 ∈ delete (i + k)%nat pts.*1) →
  lagrange_loop (vpoint <$> pts) (val x) i (vpoint <$> rest) (val r) = Panic.
Proof.
  revert i r. induction rest as [|[xi yi] rest IH]; intros i r Hr (k & p & Hk & Hin); [done|].
  cbn -[lagrange_products gf_div gf_mul gf_add val imap]. change 1 with (val b1).
  rewrite lagrange_products_spec, Nat.sub_0_r by lia.
  destruct (decide (bmul b1 (bprod (delete i pts.*1) xi) = b0)) as [->|Hne]; [done|].
  rewrite gf_div_Ret by done. cbn [out_bind]. rewrite <- val_bmul, <- val_badd. apply IH.
  { replace (S i) with (i + 1)%nat by lia. by rewrite <- drop_drop, Hr. }
  destruct k as [|k].
  - injection Hk as <-. rewrite Nat.add_0_r in Hin. destruct Hne.
    rewrite (prod_sub_root _ _ _ _ _ _ _ _ byte_field _ xi Hin). ring.
  - exists k, p. split; [done|]. by rewrite Nat.add_succ_r in Hin.
Qed.

Lemma lagrange_interpolate_Panic (pts : list (byte * byte)) (x : byte) :
  ¬ NoDup pts.*1 → lagrange_interpolate (vpoint <$> pts) (val x) = Panic.
Proof.
  intros Hdup. change (lagrange_loop (vpoint <$> pts) (val x) 0 (vpoint <$> pts) (val b0) = Panic).
  apply lagrange_loop_Panic; [done|].
  assert (H : ∃ i j y, pts.*1 !! i = Some y ∧ pts.*1 !! j = Some y ∧ i ≠ j).
  { destruct (decide (Exists (λ i, Exists (λ j, i ≠ j ∧ pts.*1 !! i = pts.*1 !! j)
      (seq 0 (length pts.*1))) (seq 0 (length pts.*1)))) as [H|H].
    - apply Exists_exists in H as (i & Hi%elem_of_seq & H).
      apply Exists_exists in H as (j & Hj%elem_of_seq & Hij & H).
      destruct (lookup_lt_is_Some_2 pts.*1 i) as [y Hy]; [lia|].
      exists i, j, y. by rewrite <- H.
    - destruct Hdup. apply NoDup_alt. intros i j y Hi Hj.
      destruct (decide (i = j)) as [|Hij]; [done|]. destruct H.
      apply Exists_exists. exists i. split.
      { apply elem_of_seq. apply lookup_lt_Some in Hi. lia. }
      apply Exists_exists. exists j. split; [|by rewrite Hi, Hj].
      apply elem_of_seq. apply lookup_lt_Some in Hj. lia. }
  destruct H as (i & j & y & Hi & Hj & Hij).
  rewrite list_lookup_fmap in Hi. apply fmap_Some_1 in Hi as (p & Hp & ->).
  exists i, p. split; [done|]. by apply (delete_elem_of _ j).
Qed.

(** Byte by byte, [reconstruct] either interpolates or panics. *)
Lemma byte_interpolated shares k :
  Forall share_u8 shares → Forall (λ s, (k < length (value s))%nat) shares →
  ∃ points, out_map (byte_at k) shares = Ret points ∧
    if decide (NoDup (index <$> shares)) then ∃ y : byte, lagrange_interpolate points 0 = Ret (val y)
    else lagrange_interpolate points 0 = Panic.
Proof.
  intros Hu Hk. destruct (byte_points shares k) as (pts & Hpts & Hidx & _).
  { eapply Forall_impl; [exact (proj2 (Forall_and _ _) (conj Hu Hk))|]. by intros s [[? ?] ?]. }
  eexists. split; [exact Hpts|]. change 0 with (val b0). case_decide as Hnd.
  - eexists. apply lagrange_interpolate_lag. by eapply NoDup_indices.
  - apply lagrange_interpolate_Panic. intros H. apply Hnd. rewrite <- Hidx.
    by apply NoDup_fmap_2; [intros a b; apply byte_eq|].
Qed.

Lemma same_length_lt n shares k :
  same_length n shares → k ∈ seq 0 n → Forall (λ s, (k < length (value s))%nat) shares.
Proof. intros Hs Hk%elem_of_seq. eapply Forall_impl; [exact Hs|]. simpl. lia. Qed.

Lemma reconstruct_bytes_total shares n :
  Forall share_u8 shares → same_length n shares → n = 0%nat ∨ NoDup (index <$> shares) →
  ∃ secret, reconstruct_bytes shares (seq 0 n) [] = Ret secret ∧ length secret = n ∧ u8_list secret.
Proof.
  intros Hu Hs Hok.
  destruct (list_choice (λ k (y : byte), ∃ points,
    out_map (byte_at k) shares = Ret points ∧ lagrange_interpolate points 0 = Ret (val y)) n)
    as (ys & Hl & Hys).
  { intros k Hk. destruct Hok as [->|Hnd]; [lia|].
    destruct (byte_interpolated shares k Hu) as (pts & H1 & H2).
    { apply (same_length_lt n); [done|]. apply elem_of_seq. lia. }
    rewrite decide_True in H2 by done. destruct H2 as [y Hy]. eauto. }
  exists (val <$> ys). rewrite length_fmap. split_and!; [|done|].
  2:{ apply Forall_fmap, Forall_forall. intros y _. apply val_u8. }
  rewrite (reconstruct_bytes_Ret _ _ _ (λ k, nth k (val <$> ys) 0)).
  - rewrite <- (length_fmap val) in Hl. by rewrite <- Hl, fmap_nth_seq.
  - intros k Hk%elem_of_seq. destruct (lookup_lt_is_Some_2 ys k) as [y Hy]; [lia|].
    destruct (Hys k y Hy) as (pts & H1 & H2). exists pts. split; [done|].
    rewrite H2. f_equal. symmetry. apply nth_lookup_Some. rewrite list_lookup_fmap. exact (f_equal (fmap val) Hy).
Qed.

Lemma reconstruct_bytes_dup shares n :
  Forall share_u8 shares → same_length n shares → n ≠ 0%nat → ¬ NoDup (index <$> shares) →
  reconstruct_bytes shares (seq 0 n) [] = Panic.
Proof.
  intros Hu Hs Hn Hdup. destruct n as [|n]; [done|]. cbn [seq reconstruct_bytes].
  destruct (byte_interpolated shares 0 Hu) as (pts & H1 & H2).
  { apply (same_length_lt (S n)); [done|]. apply elem_of_seq. lia. }
  rewrite decide_False in H2 by done. rewrite H1. cbn [out_bind]. by rewrite H2.
Qed.

(** [reconstruct] on every input of bytes: too few shares and shares of
    unequal length are errors; a threshold of zero panics, and so do two equal
    indices among the first [threshold] shares, unless the shares are empty;
    everything else gives a secret of the length of the shares. *)
Theorem reconstruct_outcomes shares threshold :
  Forall share_u8 shares →
  let used := take threshold shares in
  let n := length (default [] (value <$> head used)) in
  if decide (length shares < threshold)%nat then
    reconstruct shares threshold = Fail (InsufficientShares threshold (length shares))
  else if decide (threshold = 0%nat) then reconstruct shares threshold = Panic
  else if decide (¬ same_length n used) then reconstruct shares threshold = Fail InvalidShare
  else if decide (n = 0%nat ∨ NoDup (index <$> used)) then
    ∃ secret, reconstruct shares threshold = Ret secret ∧ length secret = n ∧ u8_list secret
  else reconstruct shares threshold = Panic.
Proof.
  intros Hu used n. destruct (decide (length shares < threshold)%nat) as [Hlt|Hge].
  { unfold reconstruct. by rewrite (proj2 (Nat.ltb_lt _ _) Hlt). }
  destruct (decide (threshold = 0%nat)) as [->|Ht].
  { unfold reconstruct. by destruct (length shares <? 0)%nat eqn:E; [apply Nat.ltb_lt in E; lia|]. }
  assert (Huu : Forall share_u8 used) by by apply Forall_take.
  destruct used as [|s0 us] eqn:Hused.
  { apply (f_equal length) in Hused. unfold used in Hused.
    rewrite length_take in Hused. simpl in Hused. lia. }
  rewrite (reconstruct_long s0 us) by (try done; lia). simpl in n.
  change (length (value s0)) with n.
  destruct (decide (same_length n (s0 :: us))) as [Hs|Hs].
  2:{ by rewrite decide_True by done. }
  rewrite decide_False by (by intros []). destruct (decide (_ ∨ _)) as [Hok|Hdup].
  - by apply reconstruct_bytes_total.
  - apply reconstruct_bytes_dup; naive_solver.
Qed.

(** Past its two checks [reconstruct] does not fail: it returns or panics. *)
Lemma lagrange_loop_not_Fail points x i rest r e : lagrange_loop points x i rest r ≠ Fail e.
Proof.
  revert i r. induction rest as [|[xi yi] rest IH]; intros i r; [done|]. cbn [lagrange_loop].
  destruct (lagrange_products _ _ _ _ _ _ _) as [num den]. unfold gf_div.
  destruct (den =? 0); [done|]. apply IH.
Qed.

Lemma out_map_byte_at_not_Fail k shares e : out_map (byte_at k) shares ≠ Fail e.
Proof.
  induction shares as [|s shares IH]; [done|]. cbn [out_map]. unfold byte_at at 1.
  destruct (value s !! k); [|done]. cbn [out_bind].
  by destruct (out_map (byte_at k) shares) as [|e'|]; [|intros [= ->]|].
Qed.

Lemma reconstruct_bytes_not_Fail shares idxs acc e : reconstruct_bytes shares idxs acc ≠ Fail e.
Proof.
  revert acc. induction idxs as [|k idxs IH]; intros acc; [done|]. cbn [reconstruct_bytes].
  pose proof (out_map_byte_at_not_Fail k shares) as H.
  destruct (out_map (byte_at k) shares) as [pts|e'|]; [|by destruct (H e')|done]. cbn [out_bind].
  pose proof (lagrange_loop_not_Fail pts 0 0 pts 0) as H'. unfold lagrange_interpolate.
  destruct (lagrange_loop pts 0 0 pts 0) as [b|e'|]; [apply IH|by destruct (H' e')|done].
Qed.

Lemma reconstruct_Fail shares threshold e :
  reconstruct shares threshold = Fail e →
  e = InsufficientShares threshold (length shares) ∨ e = InvalidShare.
Proof.
  unfold reconstruct. destruct (_ <? _)%nat; [intros [= <-]; auto|].
  destruct (take threshold shares); [done|]. destruct (forallb _ _); [|intros [= <-]; auto].
  intros H. by destruct (reconstruct_bytes_not_Fail _ _ _ _ H).
Qed.

(** ** Secrecy *)

Lemma beval_padded p n x : beval (p ++ replicate n b0) x = beval p x.
Proof.
  induction n as [|n IH]; [simpl; by rewrite app_nil_r|].
  rewrite replicate_S_end, app_assoc, (eval_snoc_zero _ _ _ _ _ _ _ _ byte_field). exact IH.
Qed.

(** For fewer than [t] points other than zero, coefficients for any other
    secret byte take the same values there; for [t - 1] points, only one choice. *)
Lemma secrecy_byte (xs : list byte) (t : nat) (b b' : byte) (cs : list byte) :
  NoDup (b0 :: xs) → (length xs < t)%nat →
  ∃ cs' : list byte, length cs' = (t - 1)%nat ∧
    (∀ x, x ∈ xs → beval (b' :: cs') x = beval (b :: cs) x) ∧
    (S (length xs) = t → ∀ cs'', length cs'' = (t - 1)%nat →
       (∀ x, x ∈ xs → beval (b' :: cs'') x = beval (b :: cs) x) → cs'' = cs').
Proof.
  intros Hnd Hl. set (pts := (b0, b') :: ((λ x, (x, beval (b :: cs) x)) <$> xs)).
  assert (Hfst : pts.*1 = b0 :: xs).
  { unfold pts. rewrite fmap_cons, <- list_fmap_compose. f_equal. apply list_fmap_id. }
  destruct (interpolation_exists _ _ _ _ _ _ _ _ byte_field pts) as (p & Hp & He);
    [by rewrite Hfst|].
  destruct p as [|h q]; [done|]. cbn in Hp. rewrite length_fmap in Hp. injection Hp as Hp.
  assert (h = b') as ->.
  { rewrite <- (beval_cons_0 h q). apply He, list_elem_of_here. }
  exists (q ++ replicate (t - 1 - length xs) b0).
  assert (Hag : ∀ x, x ∈ xs → beval (b' :: q ++ replicate (t - 1 - length xs) b0) x = beval (b :: cs) x).
  { intros x Hx. rewrite app_comm_cons, beval_padded. apply He. apply list_elem_of_further.
    apply list_elem_of_fmap. by exists x. }
  split_and!; [rewrite length_app, length_replicate; lia|done|].
  intros Ht cs'' Hl'' Hag''.
  assert (b' :: cs'' = b' :: q ++ replicate (t - 1 - length xs) b0) as [= ->]; [|done].
  apply (interpolation_unique _ _ _ _ _ _ _ _ byte_field _ _ (b0 :: xs)); [done|..].
  - cbn. rewrite length_app, length_replicate. lia.
  - cbn. lia.
  - intros x [->|Hx]%elem_of_cons; [by rewrite !beval_cons_0|].
    rewrite Hag by done. by apply Hag''.
Qed.

(** Random bytes that give the coefficients [css], byte of the secret by byte. *)
Definition rng_of (threshold : nat) (css : list (list byte)) (i : nat) : u8 :=
  val (nth (i mod (threshold - 1)) (nth (i / (threshold - 1)) css []) b0).

Lemma rng_of_u8 threshold css i : is_u8 (rng_of threshold css i) = true.
Proof. apply val_u8. Qed.

Lemma coefs_at_rng_of threshold css k (cs : list byte) :
  css !! k = Some cs → length cs = (threshold - 1)%nat →
  coefs_at threshold (rng_of threshold css) k = val <$> cs.
Proof.
  intros Hk Hl. rewrite <- (fmap_nth_seq b0 cs). rewrite Hl, <- list_fmap_compose.
  apply list_fmap_ext. intros ? j [-> Hj]%lookup_seq. unfold rng_of, compose.
  rewrite Nat.div_add_l, Nat.div_small, Nat.add_0_r by lia.
  rewrite (Nat.add_comm (k * _)), Nat.Div0.mod_add, Nat.mod_small by lia.
  by rewrite (nth_lookup_Some _ _ _ _ Hk).
Qed.

Lemma share_bytes_eq secret secret' threshold rng rng' x :
  length secret' = length secret →
  share_bytes secret' threshold rng' x = share_bytes secret threshold rng x ↔
  ∀ k b b', secret !! k = Some b → secret' !! k = Some b' →
    evaluate_polynomial (b' :: coefs_at threshold rng' k) x =
    evaluate_polynomial (b :: coefs_at threshold rng k) x.
Proof.
  intros Hl. split.
  - intros E k b b' Hb Hb'. apply (f_equal (lookup k)) in E.
    rewrite (share_bytes_lookup _ _ _ _ _ _ Hb), (share_bytes_lookup _ _ _ _ _ _ Hb') in E.
    by injection E.
  - intros H. apply list_eq. intros k. unfold share_bytes. rewrite !list_lookup_imap.
    destruct (secret !! k) as [b|] eqn:Hb.
    + destruct (lookup_lt_is_Some_2 secret' k) as [b' Hb'].
      { rewrite Hl. by eapply lookup_lt_Some. }
      rewrite Hb'. simpl. f_equal. by apply H.
    + apply lookup_ge_None_1 in Hb. rewrite (lookup_ge_None_2 secret') by lia. done.
Qed.

Lemma split_lookup secret threshold num_shares rng shares i :
  split secret threshold num_shares rng = Ok shares → (i < num_shares)%nat →
  shares !! i = Some {| index := Z.of_nat (S i);
                        value := share_bytes secret threshold rng (Z.of_nat (S i)) |}.
Proof.
  intros (_ & _ & ->)%split_Ok Hi. rewrite list_lookup_fmap, lookup_seq_lt by done. done.
Qed.

(** The other secret's coefficients, for every byte at once. *)
Lemma secrecy_bytes secret secret' t rng (xs : list byte) :
  u8_list secret → u8_list secret' → length secret' = length secret →
  (∀ i, is_u8 (rng i) = true) → NoDup (b0 :: xs) → (length xs < t)%nat →
  ∃ css : list (list byte), length css = length secret ∧ ∀ k cs', css !! k = Some cs' →
    length cs' = (t - 1)%nat ∧ ∀ b b', secret !! k = Some b → secret' !! k = Some b' →
    (∀ x : byte, x ∈ xs → evaluate_polynomial (b' :: (val <$> cs')) (val x) =
       evaluate_polynomial (b :: coefs_at t rng k) (val x)) ∧
    (S (length xs) = t → ∀ rng'', (∀ i, is_u8 (rng'' i) = true) →
       (∀ x : byte, x ∈ xs → evaluate_polynomial (b' :: coefs_at t rng'' k) (val x) =
          evaluate_polynomial (b :: coefs_at t rng k) (val x)) →
       coefs_at t rng'' k = val <$> cs').
Proof.
  intros Hs Hs' Hl Hrng Hnd Hlt.
  apply (list_choice (λ k cs', length cs' = (t - 1)%nat ∧ ∀ b b', _ → _ → _)). intros k Hk.
  destruct (lookup_lt_is_Some_2 secret k Hk) as [b Hb].
  destruct (lookup_lt_is_Some_2 secret' k) as [b' Hb']; [lia|].
  pose proof (Forall_lookup_1 _ _ _ _ Hs Hb) as Ub. pose proof (Forall_lookup_1 _ _ _ _ Hs' Hb') as Ub'.
  destruct (coefs_bytes t rng k Hrng) as (cs & Hcs & _).
  destruct (secrecy_byte xs t (b ↾ Ub) (b' ↾ Ub') cs Hnd Hlt) as (cs' & Hl' & Hag & Huni).
  exists cs'. split; [done|]. intros ? ? E E'.
  rewrite Hb in E. rewrite Hb' in E'. injection E as <-. injection E' as <-.
  rewrite <- Hcs. split.
  - intros x Hx. etransitivity; [exact (evaluate_polynomial_eval ((b' ↾ Ub') :: cs') x)|].
    etransitivity; [|symmetry; exact (evaluate_polynomial_eval ((b ↾ Ub) :: cs) x)].
    by apply val_eq, Hag.
  - intros Ht rng'' Hrng'' Hag''. destruct (coefs_bytes t rng'' k Hrng'') as (cs'' & Hcs'' & Hl'').
    rewrite <- Hcs'' in *. f_equal. apply (Huni Ht); [done|]. intros x Hx. apply byte_eq.
    etransitivity; [symmetry; exact (evaluate_polynomial_eval ((b' ↾ Ub') :: cs'') x)|].
    etransitivity; [|exact (evaluate_polynomial_eval ((b ↾ Ub) :: cs) x)]. by apply Hag''.
Qed.

Lemma coefs_at_agree t rng rng' m :
  (∀ k, (k < m)%nat → coefs_at t rng k = coefs_at t rng' k) →
  ∀ d, (d < (t - 1) * m)%nat → rng d = rng' d.
Proof.
  intros H d Hd. unfold coefs_at in H. set (n := (t - 1)%nat) in *.
  assert (Hn : n ≠ 0%nat) by (intros E; rewrite E in Hd; simpl in Hd; lia).
  assert (Hk : (d / n < m)%nat) by (by apply Nat.Div0.div_lt_upper_bound).
  specialize (H _ Hk). apply (f_equal (lookup (d mod n)%nat)) in H.
  rewrite !list_lookup_fmap, !lookup_seq_lt in H by (by apply Nat.mod_upper_bound).
  simpl in H. injection H as H. by rewrite (Nat.mul_comm (d / n)), <- Nat.div_mod in H.
Qed.

(** The abscissae of the shares at the positions [held]. *)
Definition held_points (held : list nat) : list Z := (λ i, Z.of_nat (S i)) <$> held.

Lemma held_bytes held num_shares :
  (num_shares ≤ 255)%nat → NoDup held → (∀ i, i ∈ held → (i < num_shares)%nat) →
  ∃ xs : list byte, val <$> xs = held_points held ∧ NoDup (b0 :: xs).
Proof.
  intros Hn Hnd Hlt. destruct (u8_list_bytes (held_points held)) as [xs Hxs].
  { apply Forall_fmap, Forall_forall. intros i Hi. apply is_u8_range. specialize (Hlt i Hi). lia. }
  exists xs. split; [done|]. apply NoDup_cons. split.
  - intros Hin. assert (H : val b0 ∈ held_points held) by (rewrite <- Hxs; by apply list_elem_of_fmap_2).
    apply list_elem_of_fmap in H as (i & H & _). change (0 = Z.of_nat (S i)) in H. lia.
  - apply (NoDup_fmap_1 val). rewrite Hxs. apply NoDup_fmap_2; [|done]. intros i j. lia.
Qed.

Lemma held_point held (xs : list byte) i :
  val <$> xs = held_points held → i ∈ held → ∃ x : byte, x ∈ xs ∧ val x = Z.of_nat (S i).
Proof.
  intros Hxs Hi. assert (H : Z.of_nat (S i) ∈ val <$> xs).
  { rewrite Hxs. by apply (list_elem_of_fmap_2 (λ i, Z.of_nat (S i))). }
  apply list_elem_of_fmap in H as (x & -> & Hx). by exists x.
Qed.

Lemma held_index held (xs : list byte) x :
  val <$> xs = held_points held → x ∈ xs → ∃ i, i ∈ held ∧ val x = Z.of_nat (S i).
Proof.
  intros Hxs Hx. assert (H : val x ∈ held_points held) by (rewrite <- Hxs; by apply list_elem_of_fmap_2).
  apply list_elem_of_fmap in H as (i & Hi & Hin). by exists i.
Qed.

(** C8. Perfect secrecy: whoever holds fewer than [threshold] of the shares
    cannot exclude any secret of that length.  For any other secret some
    coefficients give exactly the shares held; and for a holder of
    [threshold - 1] shares there is one such choice of coefficients for every
    secret, so that uniformly drawn coefficients make all of them equally
    likely. *)
Theorem perfect_secrecy secret secret' threshold num_shares rng shares held :
  u8_list secret → u8_list secret' → length secret' = length secret →
  (∀ i, is_u8 (rng i) = true) →
  split secret threshold num_shares rng = Ok shares →
  NoDup held → (∀ i, i ∈ held → (i < num_shares)%nat) → (length held < threshold)%nat →
  ∃ rng' shares', (∀ i, is_u8 (rng' i) = true) ∧
    split secret' threshold num_shares rng' = Ok shares' ∧
    (∀ i, i ∈ held → shares' !! i = shares !! i) ∧
    (S (length held) = threshold → ∀ rng'' shares'', (∀ i, is_u8 (rng'' i) = true) →
       split secret' threshold num_shares rng'' = Ok shares'' →
       (∀ i, i ∈ held → shares'' !! i = shares !! i) →
       ∀ d, (d < (threshold - 1) * length secret)%nat → rng'' d = rng' d).
Proof.
  intros Hs Hs' Hl Hrng Hsp Hnd Hlt Hfew.
  pose proof Hsp as (Ht & Hn & _)%split_Ok.
  destruct (held_bytes held num_shares Hn Hnd Hlt) as (xs & Hxs & Hxnd).
  assert (Hxl : length xs = length held).
  { apply (f_equal length) in Hxs. unfold held_points in Hxs. by rewrite !length_fmap in Hxs. }
  destruct (secrecy_bytes secret secret' threshold rng xs) as (css & Hcl & Hcss); [done..|lia|].
  assert (Hcoef : ∀ k cs, css !! k = Some cs → coefs_at threshold (rng_of threshold css) k = val <$> cs).
  { intros k cs Hk. apply coefs_at_rng_of; [done|]. by apply (Hcss k cs Hk). }
  assert (Hlook : ∀ k, (k < length secret)%nat → ∃ cs, css !! k = Some cs).
  { intros k Hk. apply lookup_lt_is_Some_2. by rewrite Hcl. }
  exists (rng_of threshold css). eexists.
  split_and!; [intros; apply rng_of_u8|by apply split_Ok| |].
  - intros i Hi. rewrite (split_lookup secret' threshold num_shares (rng_of threshold css))
      by (by apply split_Ok || auto).
    rewrite (split_lookup _ _ _ _ _ _ Hsp) by auto. do 2 f_equal.
    destruct (held_point held xs i Hxs Hi) as (x & Hx & <-).
    apply share_bytes_eq; [done|]. intros k b b' Hb Hb'.
    destruct (Hlook k (lookup_lt_Some _ _ _ Hb)) as [cs Hcs]. rewrite (Hcoef k cs Hcs).
    by apply (Hcss k cs Hcs).
  - intros Heq rng'' shares'' Hrng'' Hsp'' Hag. apply coefs_at_agree. intros k Hk.
    destruct (lookup_lt_is_Some_2 secret k Hk) as [b Hb].
    destruct (lookup_lt_is_Some_2 secret' k) as [b' Hb']; [by rewrite Hl|].
    destruct (Hlook k Hk) as [cs Hcs]. rewrite (Hcoef k cs Hcs).
    apply (proj2 (Hcss k cs Hcs) b b' Hb Hb'); [lia|done|]. intros x Hx.
    destruct (held_index held xs x Hxs Hx) as (i & Hi & Hxi). specialize (Hag i Hi).
    rewrite (split_lookup _ _ _ _ _ _ Hsp''), (split_lookup _ _ _ _ _ _ Hsp) in Hag by auto.
    injection Hag as Hag. rewrite Hxi. by apply (proj1 (share_bytes_eq _ _ _ _ _ _ Hl) Hag).
Qed.

(** ** Concrete runs *)

#[local] Definition demo_secret : list u8 := [1; 2; 255].
#[local] Definition demo_rng : nat → u8 := λ _, 7.
#[local] Definition demo_shares : list Share :=
  match split demo_secret 2 3 demo_rng with Ok l => l | Err _ => [] end.

Lemma split_reconstruct_witness :
  reconstruct (reverse demo_shares) 2 = Ret demo_secret.
Proof.
  apply (split_reconstruct demo_secret 2 3 demo_rng demo_shares).
  - repeat constructor.
  - reflexivity.
  - reflexivity.
  - intros s. by rewrite elem_of_reverse.
  - vm_compute. lia.
  - apply (bool_decide_unpack _). by vm_compute.
Defined.

Lemma reconstruct_outcomes_witness :
  reconstruct [{| index := 1; value := [5] |}; {| index := 1; value := [5] |}] 2 = Panic.
Proof.
  exact (reconstruct_outcomes [{| index := 1; value := [5] |}; {| index := 1; value := [5] |}] 2
    ltac:(repeat constructor)).
Defined.

Lemma perfect_secrecy_witness :
  ∃ rng' shares', split [9; 9; 9] 2 3 rng' = Ok shares' ∧ shares' !! 1%nat = demo_shares !! 1%nat.
Proof.
  destruct (perfect_secrecy demo_secret [9; 9; 9] 2 3 demo_rng demo_shares [1%nat])
    as (rng' & shares' & _ & H1 & H2 & _).
  - repeat constructor.
  - repeat constructor.
  - reflexivity.
  - reflexivity.
  - reflexivity.
  - apply NoDup_singleton.
  - intros i ->%list_elem_of_singleton. lia.
  - simpl. lia.
  - exists rng', shares'. split; [exact H1|]. apply H2, list_elem_of_here.
Defined.
