(* ===== verification/Kra.v ===== *)
(** * Key escrow and recovery (ostrich-kra)

    Key wrapping (wrap.rs), the key recovery tables (ostrich-db
    repository/kra.rs) and the two services on top of them (escrow.rs,
    recovery.rs), over the secret sharing of Shamir.v. *)
From stdpp Require Import base list gmap strings pretty.
From Stdlib Require Import ZArith Lia.
From S2P Require Import Prelude Gf256 Shamir.
Open Scope Z_scope.

(** ** AES-256-GCM

    The [ring] crate's AEAD.  [seal] gives ciphertext and tag; it can refuse
    (an oversized plaintext).  Both laws are documented behaviour. *)
Definition KEK_LEN : nat := 32.
Definition NONCE_LEN : nat := 12.
Definition TAG_LEN : nat := 16.

Class Aead := {
  seal : list u8 → list u8 → list u8 → list u8 → option (list u8);  (* key nonce aad text *)
  open : list u8 → list u8 → list u8 → list u8 → option (list u8);
  seal_length key nonce aad text c :
    seal key nonce aad text = Some c → length c = (length text + TAG_LEN)%nat;
  open_seal key nonce aad text c :
    length key = KEK_LEN → length nonce = NONCE_LEN →
    seal key nonce aad text = Some c → open key nonce aad c = Some text
}.

(** What [SystemRandom::fill] leaves in a buffer of [n] bytes; [None] when it fails. *)
Abbreviation Fill := (option (list u8)).
Definition filled (n : nat) (o : Fill) : Prop :=
  match o with Some l => length l = n ∧ u8_list l | None => True end.

(** ** Rows (ostrich-db models/kra.rs) *)

Record EscrowedKeyRow := {
  ek_id : Uuid; ek_certificate_id : Uuid; ek_wrapped_key : list u8;
  ek_wrapping_key_id : option Uuid; ek_key_type : string; ek_algorithm : string;
  ek_escrow_time : DateTime; ek_created_at : DateTime
}.

Record RecoveryAgentRow := {
  ra_id : Uuid; ra_name : string; ra_email : string; ra_public_key_der : list u8;
  ra_active : bool; ra_created_at : DateTime; ra_updated_at : DateTime
}.

Record RecoveryRequestRow := {
  rr_id : Uuid; rr_escrowed_key_id : Uuid; rr_requestor : string; rr_justification : string;
  rr_status : string; rr_required_shares : Z; rr_total_agents : Z;
  rr_created_at : DateTime; rr_updated_at : DateTime
}.

Record RecoveryShareRow := {
  rs_id : Uuid; rs_recovery_request_id : Uuid; rs_agent_id : Uuid;
  rs_encrypted_share : list u8; rs_submitted_at : option DateTime
}.

(** The tables, and the primary keys of the certificates table. *)
Record KraDb := {
  certificates : gset Uuid;
  escrowed_keys : gmap Uuid EscrowedKeyRow;
  recovery_agents : gmap Uuid RecoveryAgentRow;
  recovery_requests : gmap Uuid RecoveryRequestRow;
  recovery_shares : gmap Uuid RecoveryShareRow
}.

Definition set_escrowed_keys (f : gmap Uuid EscrowedKeyRow → gmap Uuid EscrowedKeyRow) (d : KraDb) := {|
  certificates := certificates d; escrowed_keys := f (escrowed_keys d);
  recovery_agents := recovery_agents d; recovery_requests := recovery_requests d;
  recovery_shares := recovery_shares d |}.
Definition set_recovery_agents (f : gmap Uuid RecoveryAgentRow → gmap Uuid RecoveryAgentRow) (d : KraDb) := {|
  certificates := certificates d; escrowed_keys := escrowed_keys d;
  recovery_agents := f (recovery_agents d); recovery_requests := recovery_requests d;
  recovery_shares := recovery_shares d |}.
Definition set_recovery_requests (f : gmap Uuid RecoveryRequestRow → gmap Uuid RecoveryRequestRow) (d : KraDb) := {|
  certificates := certificates d; escrowed_keys := escrowed_keys d;
  recovery_agents := recovery_agents d; recovery_requests := f (recovery_requests d);
  recovery_shares := recovery_shares d |}.
Definition set_recovery_shares (f : gmap Uuid RecoveryShareRow → gmap Uuid RecoveryShareRow) (d : KraDb) := {|
  certificates := certificates d; escrowed_keys := escrowed_keys d;
  recovery_agents := recovery_agents d; recovery_requests := recovery_requests d;
  recovery_shares := f (recovery_shares d) |}.

(** ** Audit events *)

Inductive EventType := KeyEscrowEvent | KeyRecoveryEvent.
Inductive EventOutcome := Success | Failure.
Inductive Json := JStr (s : string) | JNum (z : Z) | JNull.

Record AuditEvent := {
  ev_type : EventType; ev_actor : string; ev_target : string; ev_action : string;
  ev_outcome : EventOutcome; ev_details : list (string * Json)
}.

Record KraWorld := { db : KraDb; audit_log : list AuditEvent }.

(** ** Requests and responses *)

Record KeyEscrowRequest := {
  private_key : list u8; certificate_id : Uuid; subject_dn : string; key_type : string;
  num_agents : nat; threshold : nat; requestor : string; justification : string
}.

Record EscrowedKey := {
  escrow_id : Uuid; e_certificate_id : Uuid; e_subject_dn : string; e_key_type : string;
  encrypted_key : list u8; num_shares : nat; e_threshold : nat; escrowed_at : DateTime;
  escrowed_by : string; e_justification : string
}.

Record RecoveryRequest := {
  q_escrow_id : Uuid; q_requestor : string; q_justification : string; q_approved_by : option string
}.

Inductive RecoveryStatus := RPending | CollectingShares | RCompleted | Denied | Cancelled.

Record RecoverySession := {
  s_id : Uuid; s_escrow_id : Uuid; s_status : RecoveryStatus; s_threshold : nat;
  shares_collected : nat; s_requestor : string; s_justification : string;
  s_approved_by : option string; s_created_at : DateTime; s_completed_at : option DateTime
}.

Record RecoveryAgent := {
  agent_id : Uuid; agent_name : string; agent_role : string; agent_contact : string;
  agent_active : bool
}.

Section kra.
Context `{!Aead}.
(** [Uuid::as_bytes] and [Display], and the text of an SQL error. *)
Context (uuid_as_bytes : Uuid → list u8) (uuid_to_string : Uuid → string) (sql_error : string).
(** [fits n s]: the text fits a [VARCHAR(n)] column. *)
Context (fits : nat → string → bool).

Abbreviation Kra A := (Exec KraWorld A Error).

(** *** wrap.rs *)

Definition generate_kek (fill : Fill) : outcome (list u8) Error :=
  match fill with Some kek => Ret kek | None => Fail (KeyWrap "Failed to generate KEK") end.

Definition gcm_key (kek : list u8) : outcome (list u8) Error :=
  if (length kek =? KEK_LEN)%nat then Ret kek
  else Fail (KeyWrap ("KEK must be " +:+ pretty KEK_LEN +:+ " bytes, got " +:+ pretty (length kek))).

Definition wrap_key (kek plaintext aad : list u8) (nonce_fill : Fill) : outcome (list u8) Error :=
  let! key := gcm_key kek in
  match nonce_fill with
  | None => Fail (KeyWrap "Failed to generate nonce")
  | Some nonce =>
      match seal key nonce aad plaintext with
      | None => Fail (KeyWrap "Key wrapping failed")
      | Some in_out => Ret (nonce ++ in_out)
      end
  end.

Definition unwrap_key (kek wrapped aad : list u8) : outcome (list u8) Error :=
  if (length wrapped <? NONCE_LEN + TAG_LEN)%nat then Fail (KeyWrap "Wrapped key too short")
  else
    let! key := gcm_key kek in
    match open key (take NONCE_LEN wrapped) aad (drop NONCE_LEN wrapped) with
    | Some plaintext => Ret plaintext
    | None => Fail (KeyWrap "Key unwrapping failed")
    end.

(** *** ostrich-db repository/kra.rs

    An INSERT fails when a constraint of migrations/00001 and 00006 does not
    hold; an UPDATE ... RETURNING of no row fails at [fetch_one]. *)

Definition sql_guard (ok : bool) : Kra unit :=
  if ok then exec_ret tt else exec_fail (Database sql_error).

Definition on_db (f : KraDb → KraDb) : Kra unit :=
  exec_modify (λ w, {| db := f (db w); audit_log := audit_log w |}).

Definition create_escrowed_key (id : Uuid) (now : DateTime) (cert : Uuid) (wrapped : list u8)
    (wrapping_key_id : option Uuid) (kt alg : string) : Kra EscrowedKeyRow :=
  let row := {| ek_id := id; ek_certificate_id := cert; ek_wrapped_key := wrapped;
                ek_wrapping_key_id := wrapping_key_id; ek_key_type := kt; ek_algorithm := alg;
                ek_escrow_time := now; ek_created_at := now |} in
  let* w := exec_get in
  let* _ := sql_guard (bool_decide (cert ∈ certificates (db w)) && fits 50 kt && fits 50 alg &&
                       bool_decide (escrowed_keys (db w) !! id = None)) in
  let* _ := on_db (set_escrowed_keys <[id := row]>) in
  exec_ret row.

Definition find_escrowed_key (id : Uuid) : Kra (option EscrowedKeyRow) :=
  λ w, (Ret (escrowed_keys (db w) !! id), w).

Definition create_recovery_agent (id : Uuid) (now : DateTime) (name email : string)
    (public_key_der : list u8) (active : bool) : Kra RecoveryAgentRow :=
  let row := {| ra_id := id; ra_name := name; ra_email := email;
                ra_public_key_der := public_key_der; ra_active := active;
                ra_created_at := now; ra_updated_at := now |} in
  let* w := exec_get in
  let* _ := sql_guard (fits 255 name && fits 255 email &&
                       bool_decide (map_Forall (λ _ a, ra_email a ≠ email) (recovery_agents (db w))) &&
                       bool_decide (recovery_agents (db w) !! id = None)) in
  let* _ := on_db (set_recovery_agents <[id := row]>) in
  exec_ret row.

Definition update_agent_status (id : Uuid) (now : DateTime) (active : bool) : Kra RecoveryAgentRow :=
  let* w := exec_get in
  match recovery_agents (db w) !! id with
  | None => exec_fail (Database sql_error)
  | Some a =>
      let row := {| ra_id := ra_id a; ra_name := ra_name a; ra_email := ra_email a;
                    ra_public_key_der := ra_public_key_der a; ra_active := active;
                    ra_created_at := ra_created_at a; ra_updated_at := now |} in
      let* _ := on_db (set_recovery_agents <[id := row]>) in
      exec_ret row
  end.

Definition create_recovery_request (id : Uuid) (now : DateTime) (escrowed_key_id : Uuid)
    (requestor justification : string) (required_shares total_agents : Z) : Kra RecoveryRequestRow :=
  let row := {| rr_id := id; rr_escrowed_key_id := escrowed_key_id; rr_requestor := requestor;
                rr_justification := justification; rr_status := "pending";
                rr_required_shares := required_shares; rr_total_agents := total_agents;
                rr_created_at := now; rr_updated_at := now |} in
  let* w := exec_get in
  let* _ := sql_guard (bool_decide (is_Some (escrowed_keys (db w) !! escrowed_key_id)) &&
                       fits 255 requestor &&
                       bool_decide (recovery_requests (db w) !! id = None)) in
  let* _ := on_db (set_recovery_requests <[id := row]>) in
  exec_ret row.

Definition find_recovery_request (id : Uuid) : Kra (option RecoveryRequestRow) :=
  λ w, (Ret (recovery_requests (db w) !! id), w).

Definition update_recovery_request_status (id : Uuid) (now : DateTime) (status : string) :
    Kra RecoveryRequestRow :=
  let* w := exec_get in
  match recovery_requests (db w) !! id with
  | None => exec_fail (Database sql_error)
  | Some r =>
      let row := {| rr_id := rr_id r; rr_escrowed_key_id := rr_escrowed_key_id r;
                    rr_requestor := rr_requestor r; rr_justification := rr_justification r;
                    rr_status := status; rr_required_shares := rr_required_shares r;
                    rr_total_agents := rr_total_agents r;
                    rr_created_at := rr_created_at r; rr_updated_at := now |} in
      let* _ := sql_guard (fits 50 status) in
      let* _ := on_db (set_recovery_requests <[id := row]>) in
      exec_ret row
  end.

(** One share of an agent per request: [unique_agent_per_request]. *)
Definition same_agent (request agent : Uuid) (r : RecoveryShareRow) : Prop :=
  rs_recovery_request_id r = request ∧ rs_agent_id r = agent.
#[local] Instance same_agent_dec request agent r : Decision (same_agent request agent r).
Proof. unfold same_agent. apply _. Defined.

Definition create_recovery_share (id request agent : Uuid) (encrypted_share : list u8) :
    Kra RecoveryShareRow :=
  let row := {| rs_id := id; rs_recovery_request_id := request; rs_agent_id := agent;
                rs_encrypted_share := encrypted_share; rs_submitted_at := None |} in
  let* w := exec_get in
  let* _ := sql_guard (bool_decide (is_Some (recovery_requests (db w) !! request)) &&
                       bool_decide (is_Some (recovery_agents (db w) !! agent)) &&
                       bool_decide (map_Forall (λ _ r, ¬ same_agent request agent r)
                                      (recovery_shares (db w))) &&
                       bool_decide (recovery_shares (db w) !! id = None)) in
  let* _ := on_db (set_recovery_shares <[id := row]>) in
  exec_ret row.

Definition submit_recovery_share (id : Uuid) (now : DateTime) : Kra RecoveryShareRow :=
  let* w := exec_get in
  match recovery_shares (db w) !! id with
  | None => exec_fail (Database sql_error)
  | Some r =>
      let row := {| rs_id := rs_id r; rs_recovery_request_id := rs_recovery_request_id r;
                    rs_agent_id := rs_agent_id r; rs_encrypted_share := rs_encrypted_share r;
                    rs_submitted_at := Some now |} in
      let* _ := on_db (set_recovery_shares <[id := row]>) in
      exec_ret row
  end.

Definition submitted_for (request : Uuid) (r : RecoveryShareRow) : Prop :=
  rs_recovery_request_id r = request ∧ is_Some (rs_submitted_at r).
#[local] Instance submitted_for_dec request r : Decision (submitted_for request r).
Proof. unfold submitted_for. apply _. Defined.

Definition count_submitted_shares (request : Uuid) : Kra Z :=
  λ w, (Ret (Z.of_nat (size (filter (λ '(_, r), submitted_for request r)
                               (recovery_shares (db w))))), w).

(** *** The services

    [self.audit.record(&mut event).await.ok()]: the event reaches the sink,
    and a failure of the sink is ignored. *)
Definition record (e : AuditEvent) : Kra unit :=
  exec_modify (λ w, {| db := db w; audit_log := audit_log w ++ [e] |}).

Definition found {A} (o : option A) (e : Error) : Kra A :=
  match o with Some x => exec_ret x | None => exec_fail e end.

(** The random values an escrow draws. *)
Record EscrowRandom := {
  rnd_kek : Fill; rnd_nonce : Fill; rnd_coefs : nat → u8; rnd_id : Uuid
}.

Fixpoint audit_shares (who : string) (escrow : Uuid) (idxs : list nat) : Kra unit :=
  match idxs with
  | [] => exec_ret tt
  | idx :: idxs =>
      let* _ := record {| ev_type := KeyEscrowEvent; ev_actor := who;
                          ev_target := "agent-" +:+ pretty (idx + 1)%nat;
                          ev_action := "distribute_share"; ev_outcome := Success;
                          ev_details := [("escrow_id", JStr (uuid_to_string escrow));
                                         ("share_index", JNum (Z.of_nat (idx + 1)%nat))] |} in
      audit_shares who escrow idxs
  end.

Definition escrow_key (rnd : EscrowRandom) (now : DateTime) (request : KeyEscrowRequest) :
    Kra (EscrowedKey * list Share) :=
  if (num_agents request <? threshold request)%nat then
    exec_fail (InvalidRequest ("Threshold " +:+ pretty (threshold request) +:+
      " cannot exceed number of agents " +:+ pretty (num_agents request)))
  else if (threshold request =? 0)%nat then
    exec_fail (InvalidRequest "Threshold must be at least 1")
  else
    let event := {| ev_type := KeyEscrowEvent; ev_actor := requestor request;
                    ev_target := subject_dn request; ev_action := "escrow_key";
                    ev_outcome := Success;
                    ev_details := [("certificate_id", JStr (uuid_to_string (certificate_id request)));
                      ("key_type", JStr (key_type request));
                      ("threshold", JStr (pretty (threshold request) +:+ "/" +:+ pretty (num_agents request)));
                      ("justification", JStr (justification request))] |} in
    let* kek := exec_pure (generate_kek (rnd_kek rnd)) in
    let aad := uuid_as_bytes (certificate_id request) in
    let* encrypted := exec_pure (wrap_key kek (private_key request) aad (rnd_nonce rnd)) in
    let* shares := exec_pure (res_outcome
      (split kek (threshold request) (num_agents request) (rnd_coefs rnd))) in
    let* row := create_escrowed_key (rnd_id rnd) now (certificate_id request) encrypted None
                  (key_type request) (key_type request) in
    let escrowed := {| escrow_id := ek_id row; e_certificate_id := certificate_id request;
                       e_subject_dn := subject_dn request; e_key_type := key_type request;
                       encrypted_key := encrypted; num_shares := num_agents request;
                       e_threshold := threshold request; escrowed_at := ek_created_at row;
                       escrowed_by := requestor request;
                       e_justification := justification request |} in
    let* _ := record event in
    let* _ := audit_shares (requestor request) (escrow_id escrowed) (seq 0 (length shares)) in
    exec_ret (escrowed, shares).

Definition opt_json (o : option string) : Json :=
  match o with Some s => JStr s | None => JNull end.

Definition initiate_recovery (new_id : Uuid) (now : DateTime) (request : RecoveryRequest) :
    Kra RecoverySession :=
  let escrow := uuid_to_string (q_escrow_id request) in
  let* _ := record {| ev_type := KeyRecoveryEvent; ev_actor := q_requestor request;
                      ev_target := escrow; ev_action := "initiate_recovery"; ev_outcome := Success;
                      ev_details := [("escrow_id", JStr escrow);
                                     ("justification", JStr (q_justification request));
                                     ("approved_by", opt_json (q_approved_by request))] |} in
  let* o := find_escrowed_key (q_escrow_id request) in
  let* _ := found o (KeyNotFound ("Escrow ID: " +:+ escrow)) in
  let threshold := 3 in
  let total_agents := 5 in
  let* row := create_recovery_request new_id now (q_escrow_id request) (q_requestor request)
                (q_justification request) threshold total_agents in
  exec_ret {| s_id := rr_id row; s_escrow_id := q_escrow_id request; s_status := RPending;
              s_threshold := Z.to_nat threshold; shares_collected := 0;
              s_requestor := q_requestor request; s_justification := q_justification request;
              s_approved_by := q_approved_by request; s_created_at := rr_created_at row;
              s_completed_at := None |}.

(** [x as usize] of an [i32] or [i64]. *)
Definition as_usize (z : Z) : nat := Z.to_nat (wrap 64 z).

Definition submit_share (new_id session_id agent : Uuid) (share : Share) : Kra RecoverySession :=
  let* _ := record {| ev_type := KeyRecoveryEvent; ev_actor := uuid_to_string agent;
                      ev_target := uuid_to_string session_id; ev_action := "submit_share";
                      ev_outcome := Success;
                      ev_details := [("session_id", JStr (uuid_to_string session_id));
                                     ("agent_id", JStr (uuid_to_string agent));
                                     ("share_index", JNum (index share))] |} in
  let* o := find_recovery_request session_id in
  let* r := found o (RecoveryError ("Recovery session not found: " +:+ uuid_to_string session_id)) in
  let* _ := create_recovery_share new_id session_id agent (value share) in
  let* n := count_submitted_shares session_id in
  let status := if rr_required_shares r <=? n then CollectingShares else CollectingShares in
  exec_ret {| s_id := session_id; s_escrow_id := rr_escrowed_key_id r; s_status := status;
              s_threshold := as_usize (rr_required_shares r); shares_collected := as_usize n;
              s_requestor := rr_requestor r; s_justification := rr_justification r;
              s_approved_by := None; s_created_at := rr_created_at r; s_completed_at := None |}.

Definition recovery_event (session_id escrow : Uuid) (used : nat) (o : EventOutcome)
    (more : list (string * Json)) : AuditEvent :=
  {| ev_type := KeyRecoveryEvent; ev_actor := "system"; ev_target := uuid_to_string session_id;
     ev_action := "complete_recovery"; ev_outcome := o;
     ev_details := [("session_id", JStr (uuid_to_string session_id));
                    ("escrow_id", JStr (uuid_to_string escrow));
                    ("shares_used", JNum (Z.of_nat used))] ++ more |}.

Definition complete_recovery (session_id : Uuid) (shares : list Share) (threshold : nat) :
    Kra (list u8) :=
  if (length shares <? threshold)%nat then exec_fail (InsufficientShares threshold (length shares))
  else
    let* o := find_recovery_request session_id in
    let* r := found o (RecoveryError ("Recovery session not found: " +:+ uuid_to_string session_id)) in
    let* o := find_escrowed_key (rr_escrowed_key_id r) in
    let* ek := found o (KeyNotFound ("Escrow ID: " +:+ uuid_to_string (rr_escrowed_key_id r))) in
    let* kek := exec_pure (reconstruct shares threshold) in
    let aad := uuid_as_bytes (ek_certificate_id ek) in
    match unwrap_key kek (ek_wrapped_key ek) aad with
    | Ret key =>
        let* _ := record (recovery_event session_id (ek_id ek) (length shares) Success []) in
        exec_ret key
    | Fail e =>
        let* _ := record (recovery_event session_id (ek_id ek) (length shares) Failure
                            [("reason", JStr "key unwrap failed")]) in
        exec_fail e
    | Panic => λ w, (Panic, w)
    end.

(** [ORDER BY name] sorts by the collation of the database; the order of
    [hash_values] stands for any. *)
Definition list_agents `{!HashIter Uuid RecoveryAgentRow} : Kra (list RecoveryAgent) :=
  λ w, (Ret ((λ a, {| agent_id := ra_id a; agent_name := ra_name a; agent_role := "Recovery Agent";
                      agent_contact := ra_email a; agent_active := ra_active a |})
               <$> hash_values (filter (λ '(_, a), ra_active a = true) (recovery_agents (db w)))), w).

(** ** Calls *)

Inductive KraCall :=
| CEscrow (rnd : EscrowRandom) (now : DateTime) (request : KeyEscrowRequest)
| CInitiate (new_id : Uuid) (now : DateTime) (request : RecoveryRequest)
| CSubmit (new_id session_id agent : Uuid) (share : Share)
| CComplete (session_id : Uuid) (shares : list Share) (threshold : nat)
| CCreateAgent (id : Uuid) (now : DateTime) (name email : string) (der : list u8) (active : bool)
| CAgentStatus (id : Uuid) (now : DateTime) (active : bool)
| CRequestStatus (id : Uuid) (now : DateTime) (status : string)
| CMarkSubmitted (id : Uuid) (now : DateTime).

Definition kra_call (c : KraCall) (w : KraWorld) : KraWorld :=
  match c with
  | CEscrow rnd now request => (escrow_key rnd now request w).2
  | CInitiate new_id now request => (initiate_recovery new_id now request w).2
  | CSubmit new_id session_id agent share => (submit_share new_id session_id agent share w).2
  | CComplete session_id shares threshold => (complete_recovery session_id shares threshold w).2
  | CCreateAgent id now name email der active =>
      (create_recovery_agent id now name email der active w).2
  | CAgentStatus id now active => (update_agent_status id now active w).2
  | CRequestStatus id now status => (update_recovery_request_status id now status w).2
  | CMarkSubmitted id now => (submit_recovery_share id now w).2
  end.

Definition kra_calls (cs : list KraCall) (w : KraWorld) : KraWorld := foldl (λ w c, kra_call c w) w cs.

(** ** Relations between the states before and after

    A relation that the table operations respect is respected by the
    services built from them.  [submit_recovery_share], which no service
    calls, is left out. *)
Class ServiceRel (R : KraWorld → KraWorld → Prop) := {
  sr_preorder :: PreOrder R;
  sr_same_db w w' : db w' = db w → R w w';
  sr_key id now cert wrapped wk kt alg :
    exec_respects R (create_escrowed_key id now cert wrapped wk kt alg);
  sr_request id now ek who why m n :
    exec_respects R (create_recovery_request id now ek who why m n);
  sr_share id request agent v : exec_respects R (create_recovery_share id request agent v);
  sr_agent id now name email der active :
    exec_respects R (create_recovery_agent id now name email der active);
  sr_agent_status id now active : exec_respects R (update_agent_status id now active);
  sr_request_status id now status : exec_respects R (update_recovery_request_status id now status)
}.

Definition is_mark (c : KraCall) : bool := match c with CMarkSubmitted _ _ => true | _ => false end.

Section service_rel.
Context (R : KraWorld → KraWorld → Prop) `{!ServiceRel R}.

Lemma sr_record e : exec_respects R (record e).
Proof. intros w. by apply sr_same_db. Qed.
Lemma sr_find_key id : exec_respects R (find_escrowed_key id).
Proof. intros w. by apply sr_same_db. Qed.
Lemma sr_find_request id : exec_respects R (find_recovery_request id).
Proof. intros w. by apply sr_same_db. Qed.
Lemma sr_count id : exec_respects R (count_submitted_shares id).
Proof. intros w. by apply sr_same_db. Qed.
Lemma sr_found {A} (o : option A) e : exec_respects R (found o e).
Proof. intros w. apply sr_same_db. by destruct o. Qed.

#[local] Hint Resolve sr_key sr_request sr_share sr_agent sr_agent_status sr_request_status
  sr_record sr_find_key sr_find_request sr_count sr_found : pki.

(** Runs through the sequence of an operation. *)
Ltac respects := repeat (apply (respects_bind R); [auto with pki|intros ?]); auto with pki.

Lemma audit_shares_respects who escrow idxs : exec_respects R (audit_shares who escrow idxs).
Proof. induction idxs as [|idx idxs IH]; cbn [audit_shares]; respects. Qed.
#[local] Hint Resolve audit_shares_respects : pki.

Lemma escrow_key_respects rnd now request : exec_respects R (escrow_key rnd now request).
Proof.
  unfold escrow_key. destruct (_ <? _)%nat; [auto with pki|].
  destruct (_ =? _)%nat; [auto with pki|]. respects.
Qed.
Lemma initiate_recovery_respects new_id now request :
  exec_respects R (initiate_recovery new_id now request).
Proof. unfold initiate_recovery. respects. Qed.
Lemma submit_share_respects new_id session agent share :
  exec_respects R (submit_share new_id session agent share).
Proof. unfold submit_share. respects. Qed.
Lemma complete_recovery_respects session shares t :
  exec_respects R (complete_recovery session shares t).
Proof.
  unfold complete_recovery. destruct (_ <? _)%nat; [auto with pki|]. respects.
  destruct (unwrap_key _ _ _); [respects..|]. intros w. by apply sr_same_db.
Qed.
#[local] Hint Resolve escrow_key_respects initiate_recovery_respects submit_share_respects
  complete_recovery_respects : pki.

Lemma kra_call_respects c w : is_mark c = false → R w (kra_call c w).
Proof.
  assert (Hm : ∀ A (m : Kra A), exec_respects R m → R w (m w).2) by auto.
  destruct c; intros Hc; [apply Hm; auto with pki..|done].
Qed.
End service_rel.

(** An operation that inserts or updates a row behind a guard. *)
Lemma guarded_respects (R : KraWorld → KraWorld → Prop) `{!PreOrder R} {A} (ok : bool)
    (f : KraDb → KraDb) (x : A) w :
  (ok = true → R w {| db := f (db w); audit_log := audit_log w |}) →
  R w ((let* _ := sql_guard ok in let* _ := on_db f in exec_ret x) w).2.
Proof. intros Hg. destruct ok; simpl; [by apply Hg|reflexivity]. Qed.

(** *** No escrowed key is lost or changed, and a recovery request keeps the
    key it is for. *)
Definition grows (w w' : KraWorld) : Prop :=
  escrowed_keys (db w) ⊆ escrowed_keys (db w') ∧
  ∀ i r, recovery_requests (db w) !! i = Some r →
    ∃ r', recovery_requests (db w') !! i = Some r' ∧ rr_escrowed_key_id r' = rr_escrowed_key_id r.

#[local] Instance grows_preorder : PreOrder grows.
Proof.
  split; [intros w; split; [done|eauto]|].
  intros w1 w2 w3 [H1 R1] [H2 R2]. split; [by trans (escrowed_keys (db w2))|].
  intros i r (r' & Hr' & <-)%R1. by apply R2.
Qed.

Lemma grows_same w w' :
  escrowed_keys (db w') = escrowed_keys (db w) →
  recovery_requests (db w') = recovery_requests (db w) → grows w w'.
Proof. intros H1 H2. split; [by rewrite H1|]. rewrite H2. eauto. Qed.

#[local] Instance grows_service : ServiceRel grows.
Proof.
  split; [apply _|..].
  - intros w w' E. apply grows_same; by rewrite E.
  - intros id now cert wrapped wk kt alg w. apply (guarded_respects grows).
    rewrite andb_true_iff. intros [_ Hid%bool_decide_eq_true].
    split; [|eauto]. by apply insert_subseteq.
  - intros id now ek who why m n w. apply (guarded_respects grows).
    rewrite andb_true_iff. intros [_ Hid%bool_decide_eq_true].
    split; [done|]. simpl. intros i r Hr. exists r. split; [|done].
    rewrite lookup_insert_ne; [done|congruence].
  - intros id request agent v w. apply (guarded_respects grows). intros _. by apply grows_same.
  - intros id now name email der active w. apply (guarded_respects grows).
    intros _. by apply grows_same.
  - intros id now active w. unfold update_agent_status. simpl.
    destruct (recovery_agents (db w) !! id); simpl; [by apply grows_same|reflexivity].
  - intros id now status w. unfold update_recovery_request_status. simpl.
    destruct (recovery_requests (db w) !! id) as [r|] eqn:Hr; [|reflexivity].
    apply (guarded_respects grows). intros _. split; [done|]. simpl. intros i r' Hr'.
    destruct (decide (i = id)) as [->|Hne]; [|rewrite lookup_insert_ne by done; eauto].
    rewrite lookup_insert_eq. eexists. split; [done|]. simpl. congruence.
Qed.

Lemma kra_calls_grow cs w : grows w (kra_calls cs w).
Proof.
  revert w. induction cs as [|c cs IH]; intros w; [reflexivity|].
  transitivity (kra_call c w); [|apply IH].
  destruct (is_mark c) eqn:Hc; [|by apply kra_call_respects; [apply _|]].
  destruct c; try done. simpl. unfold submit_recovery_share. simpl.
  destruct (recovery_shares (db w) !! id); simpl; [by apply grows_same|reflexivity].
Qed.

(** *** No share row is marked as submitted *)
Definition unsubmitted (w : KraWorld) : Prop :=
  map_Forall (λ _ r, rs_submitted_at r = None) (recovery_shares (db w)).
Definition keeps_unsubmitted (w w' : KraWorld) : Prop := unsubmitted w → unsubmitted w'.

#[local] Instance keeps_unsubmitted_preorder : PreOrder keeps_unsubmitted.
Proof. split; [intros w Hw; exact Hw|intros w1 w2 w3 H12 H23 Hw; auto]. Qed.

#[local] Instance keeps_unsubmitted_service : ServiceRel keeps_unsubmitted.
Proof.
  assert (Hsame : ∀ w w', recovery_shares (db w') = recovery_shares (db w) → keeps_unsubmitted w w').
  { intros w w' E. unfold keeps_unsubmitted, unsubmitted. by rewrite E. }
  split; [apply _|..].
  - intros w w' E. apply Hsame. by rewrite E.
  - intros id now cert wrapped wk kt alg w. apply (guarded_respects keeps_unsubmitted). auto.
  - intros id now ek who why m n w. apply (guarded_respects keeps_unsubmitted). auto.
  - intros id request agent v w. apply (guarded_respects keeps_unsubmitted).
    intros _ Hw. unfold unsubmitted. simpl. by apply map_Forall_insert_2.
  - intros id now name email der active w. apply (guarded_respects keeps_unsubmitted). auto.
  - intros id now active w. unfold update_agent_status. simpl.
    destruct (recovery_agents (db w) !! id); simpl; [by apply Hsame|reflexivity].
  - intros id now status w. unfold update_recovery_request_status. simpl.
    destruct (recovery_requests (db w) !! id); [|reflexivity].
    apply (guarded_respects keeps_unsubmitted). auto.
Qed.

(** ** Wrapping *)

(** A key wrapped under a KEK comes back from [unwrap_key] under the same
    KEK and associated data, whatever nonce was drawn; wrapping only succeeds
    under a KEK of 32 bytes and adds nonce and tag, 28 bytes. *)
Theorem wrap_unwrap kek plaintext aad nonce_fill wrapped :
  filled NONCE_LEN nonce_fill →
  wrap_key kek plaintext aad nonce_fill = Ret wrapped →
  length kek = KEK_LEN ∧ length wrapped = (length plaintext + 28)%nat ∧
  unwrap_key kek wrapped aad = Ret plaintext.
Proof.
  unfold wrap_key, unwrap_key, gcm_key.
  destruct (Nat.eqb_spec (length kek) KEK_LEN) as [Hk|]; [|done].
  destruct nonce_fill as [nonce|]; [|done]. simpl. intros [Hn _].
  destruct (seal kek nonce aad plaintext) as [c|] eqn:Hc; [|done]. intros [= <-].
  pose proof (seal_length _ _ _ _ _ Hc) as Hl.
  rewrite length_app, Hn, Hl. split_and!; [done|unfold NONCE_LEN, TAG_LEN; lia|].
  rewrite (proj2 (Nat.ltb_ge _ _)) by (unfold NONCE_LEN, TAG_LEN; lia).
  rewrite <- Hn, take_app_length, drop_app_length. cbn [out_bind].
  by rewrite (open_seal _ _ _ _ _ Hk Hn Hc).
Qed.

(** ** What an escrow leaves behind *)

Definition share_event (who : string) (escrow : Uuid) (idx : nat) : AuditEvent :=
  {| ev_type := KeyEscrowEvent; ev_actor := who; ev_target := "agent-" +:+ pretty (idx + 1)%nat;
     ev_action := "distribute_share"; ev_outcome := Success;
     ev_details := [("escrow_id", JStr (uuid_to_string escrow));
                    ("share_index", JNum (Z.of_nat (idx + 1)%nat))] |}.

Lemma audit_shares_run who escrow idxs w :
  audit_shares who escrow idxs w =
  (Ret tt, {| db := db w; audit_log := audit_log w ++ (share_event who escrow <$> idxs) |}).
Proof.
  revert w. induction idxs as [|idx idxs IH]; intros [d l]; cbn [audit_shares fmap list_fmap].
  - by rewrite app_nil_r.
  - unfold exec_bind, record, exec_modify. rewrite IH. simpl. by rewrite <- app_assoc.
Qed.

Definition escrow_row (rnd : EscrowRandom) (now : DateTime) (request : KeyEscrowRequest)
    (wrapped : list u8) : EscrowedKeyRow :=
  {| ek_id := rnd_id rnd; ek_certificate_id := certificate_id request; ek_wrapped_key := wrapped;
     ek_wrapping_key_id := None; ek_key_type := key_type request; ek_algorithm := key_type request;
     ek_escrow_time := now; ek_created_at := now |}.

(** An escrow that succeeds stores one new row, under an unused id, with
    the private key wrapped under the fresh KEK; it returns the shares of
    that KEK, which goes into no table; and it logs one event for the escrow
    and one per share.  An escrow that fails, for whatever reason, changes
    no table and logs nothing. *)
Theorem escrow_key_effects rnd now request w :
  match escrow_key rnd now request w with
  | (Ret (escrowed, shares), w') =>
      ∃ kek wrapped, rnd_kek rnd = Some kek ∧
        wrap_key kek (private_key request) (uuid_as_bytes (certificate_id request)) (rnd_nonce rnd)
          = Ret wrapped ∧
        split kek (threshold request) (num_agents request) (rnd_coefs rnd) = Ok shares ∧
        escrow_id escrowed = rnd_id rnd ∧ encrypted_key escrowed = wrapped ∧
        escrowed_keys (db w) !! rnd_id rnd = None ∧
        db w' = set_escrowed_keys <[rnd_id rnd := escrow_row rnd now request wrapped]> (db w) ∧
        ∃ e, audit_log w' = audit_log w ++ e ::
               (share_event (requestor request) (rnd_id rnd) <$> seq 0 (length shares)) ∧
             ev_action e = "escrow_key" ∧ ev_actor e = requestor request
  | (Fail _, w') => w' = w
  | (Panic, _) => False
  end.
Proof.
  unfold escrow_key. destruct (num_agents request <? threshold request)%nat; [done|].
  destruct (threshold request =? 0)%nat; [done|].
  destruct (rnd_kek rnd) as [kek|]; [|done]. cbn [generate_kek exec_bind exec_pure].
  assert (Hw : ∀ p a n, wrap_key kek p a n ≠ Panic).
  { intros p a n. unfold wrap_key, gcm_key. destruct (_ =? _)%nat; [|done]. simpl.
    destruct n; [|done]. by destruct (seal _ _ _ _). }
  destruct (wrap_key kek _ _ _) as [wrapped| |] eqn:Hwrap; [|done|by destruct (Hw _ _ _ Hwrap)].
  destruct (split kek _ _ _) as [shares|] eqn:Hsplit; [|done]. cbn [res_outcome].
  unfold create_escrowed_key. cbn [exec_bind exec_get]. unfold sql_guard.
  destruct (_ && _) eqn:Hg; [|done]. apply andb_true_iff in Hg as [_ Hid%bool_decide_eq_true].
  cbn [exec_bind exec_ret on_db exec_modify record]. rewrite audit_shares_run. cbn.
  exists kek, wrapped. split_and!; [done..|]. eexists. rewrite <- app_assoc. by split_and!.
Qed.

Lemma initiate_recovery_row id now q w session w' :
  initiate_recovery id now q w = (Ret session, w') →
  ∃ r, recovery_requests (db w') !! s_id session = Some r ∧ rr_escrowed_key_id r = q_escrow_id q.
Proof.
  unfold initiate_recovery, find_escrowed_key, record. cbn.
  destruct (escrowed_keys (db w) !! q_escrow_id q); [|done]. cbn.
  destruct (_ && _); [|done]. cbn. intros [= <- <-]. cbn. rewrite lookup_insert_eq. eauto.
Qed.

Lemma initiate_recovery_run id now q w r w' :
  initiate_recovery id now q w = (r, w') → grows w w'.
Proof. intros E. pose proof (initiate_recovery_respects grows id now q w) as G. by rewrite E in G. Qed.

(** C9. Escrow and recovery, end to end.  A key escrowed for [threshold] of
    its agents, a recovery of it initiated after any calls to the service,
    and completed after any more of them with [threshold] of the shares
    under different indices: the original private key comes back, no table
    changes, and the recovery is logged. *)
Theorem escrow_then_recover rnd now request w0 escrowed shares w1 before id now' q w2 session
    after used :
  filled KEK_LEN (rnd_kek rnd) → filled NONCE_LEN (rnd_nonce rnd) →
  (∀ i, is_u8 (rnd_coefs rnd i) = true) →
  escrow_key rnd now request w0 = (Ret (escrowed, shares), w1) →
  initiate_recovery id now' q (kra_calls before w1) = (Ret session, w2) →
  q_escrow_id q = escrow_id escrowed →
  used ⊆ shares → (threshold request ≤ length used)%nat →
  NoDup (index <$> take (threshold request) used) →
  let w3 := kra_calls after w2 in
  complete_recovery (s_id session) used (threshold request) w3 =
    (Ret (private_key request),
     {| db := db w3;
        audit_log := audit_log w3 ++
          [recovery_event (s_id session) (escrow_id escrowed) (length used) Success []] |}).
Proof.
  intros Hkek Hnonce Hcoefs Hesc Hinit Hq Hsub Hlen Hnd w3.
  pose proof (escrow_key_effects rnd now request w0) as Heff. rewrite Hesc in Heff.
  destruct Heff as (kek & wrapped & Hk & Hwrap & Hsplit & Hid & _ & _ & Hdb & _).
  rewrite Hk in Hkek. destruct Hkek as [Hkl Hku].
  destruct (wrap_unwrap _ _ _ _ _ Hnonce Hwrap) as (_ & _ & Hun).
  assert (Hreq : ∃ r, recovery_requests (db w2) !! s_id session = Some r ∧
      rr_escrowed_key_id r = rnd_id rnd).
  { by rewrite <- Hid, <- Hq; eapply initiate_recovery_row. }
  destruct Hreq as (r & Hr & Hrk).
  pose proof (kra_calls_grow after w2) as [Hsub2 Hreqs].
  destruct (Hreqs _ _ Hr) as (r' & Hr' & Hrk'). fold w3 in Hsub2, Hr'.
  assert (Hek : escrowed_keys (db w3) !! rnd_id rnd = Some (escrow_row rnd now request wrapped)).
  { eapply lookup_weaken; [|exact Hsub2].
    eapply lookup_weaken; [|exact (proj1 (initiate_recovery_run _ _ _ _ _ _ Hinit))].
    eapply lookup_weaken; [|exact (proj1 (kra_calls_grow before w1))].
    rewrite Hdb. apply lookup_insert_eq. }
  unfold complete_recovery. destruct (Nat.ltb_spec (length used) (threshold request)); [lia|].
  unfold find_recovery_request, find_escrowed_key, exec_bind. rewrite Hr'. cbn [found exec_ret].
  rewrite Hrk', Hrk, Hek. cbn [found exec_ret exec_pure].
  rewrite (split_reconstruct kek _ _ _ _ used Hku Hcoefs Hsplit Hsub Hlen Hnd).
  cbn [exec_ret]. unfold escrow_row. cbn [ek_certificate_id ek_wrapped_key ek_id].
  rewrite Hun. by rewrite Hid.
Qed.

(** The count of submitted shares never moves: from a database in which
    no share is marked submitted, after any sequence of escrows, recoveries,
    submissions and administration, a successful [submit_share] reports no
    share collected, and this after storing the share. *)
Theorem submit_share_never_counts cs w new_id session agent share s w' :
  unsubmitted w → Forall (λ c, is_mark c = false) cs →
  submit_share new_id session agent share (kra_calls cs w) = (Ret s, w') →
  shares_collected s = 0%nat ∧
  ∃ r, recovery_shares (db w') !! new_id = Some r ∧ rs_encrypted_share r = value share.
Proof.
  intros Hw Hcs.
  assert (Hu : unsubmitted (kra_calls cs w)).
  { revert w Hw. induction Hcs as [|c cs Hc _ IH]; intros w Hw; [done|].
    apply IH. by apply (kra_call_respects keeps_unsubmitted c w Hc). }
  revert Hu. generalize (kra_calls cs w) as w0. clear. intros w0 Hu.
  unfold submit_share, find_recovery_request, create_recovery_share. cbn.
  destruct (recovery_requests (db w0) !! session) as [r|]; [|done]. cbn. unfold sql_guard.
  destruct (_ && _) eqn:Hg; [|done]. cbn. intros [= <- <-]. cbn. split.
  - rewrite (proj2 (map_empty_filter _ _)); [by rewrite map_size_empty|].
    apply map_Forall_insert_2; [by intros [_ []]|].
    eapply map_Forall_impl; [exact Hu|]. intros i x Hx [_ Hs]. rewrite Hx in Hs. by destruct Hs.
  - rewrite lookup_insert_eq. eauto.
Qed.

(** A failed initiation is on the record as a success: for an escrow id
    that does not exist [initiate_recovery] returns [KeyNotFound], changes
    no table, and has logged an [initiate_recovery] event with outcome
    [Success]. *)
Theorem initiate_recovery_unknown_key new_id now q w :
  escrowed_keys (db w) !! q_escrow_id q = None →
  ∃ e w', initiate_recovery new_id now q w =
      (Fail (KeyNotFound ("Escrow ID: " +:+ uuid_to_string (q_escrow_id q))), w') ∧
    db w' = db w ∧ audit_log w' = audit_log w ++ [e] ∧
    ev_action e = "initiate_recovery" ∧ ev_outcome e = Success.
Proof.
  intros Hk. eexists _, _. unfold initiate_recovery, find_escrowed_key, record. cbn.
  rewrite Hk. cbn. by split_and!.
Qed.

Lemma unwrap_key_Fail kek wrapped aad e : unwrap_key kek wrapped aad = Fail e → ∃ msg, e = KeyWrap msg.
Proof.
  unfold unwrap_key, gcm_key. destruct (_ <? _)%nat; [intros [= <-]; eauto|].
  destruct (_ =? _)%nat; [|intros [= <-]; eauto]. simpl.
  destruct (open _ _ _ _); [done|]. intros [= <-]. eauto.
Qed.

(** What a completion may do: it changes no table, it logs at most one
    event, one that says [Success] exactly when the key is returned; and
    when shares are missing or malformed, or the session is unknown, nothing
    is logged at all. *)
Theorem complete_recovery_log session shares t w :
  let '(r, w') := complete_recovery session shares t w in
  db w' = db w ∧
  match r with
  | Ret _ => ∃ e, audit_log w' = audit_log w ++ [e] ∧ ev_outcome e = Success
  | Fail (KeyWrap _) => ∃ e, audit_log w' = audit_log w ++ [e] ∧ ev_outcome e = Failure
  | _ => w' = w
  end.
Proof.
  unfold complete_recovery. destruct (_ <? _)%nat; [done|].
  unfold find_recovery_request, find_escrowed_key, exec_bind.
  destruct (recovery_requests (db w) !! session) as [r|]; [|done]. cbn [found exec_ret].
  destruct (escrowed_keys (db w) !! rr_escrowed_key_id r) as [ek|]; [|done]. cbn [found exec_ret exec_pure].
  destruct (reconstruct shares t) as [kek|e|] eqn:Hr; [|by destruct (reconstruct_Fail _ _ _ Hr); subst|done].
  destruct (unwrap_key kek (ek_wrapped_key ek) _) as [key|e|] eqn:Hu; cbn; [eauto| |done].
  destruct (unwrap_key_Fail _ _ _ _ Hu) as [msg ->]. eauto.
Qed.
End kra.

(** ** A concrete run

    A toy AEAD (the text with a fixed tag) stands in for AES-256-GCM. *)

Program Definition toy_aead : Aead := {|
  seal _ _ _ text := Some (text ++ replicate TAG_LEN 0);
  open _ _ _ c := Some (take (length c - TAG_LEN) c)
|}.
Next Obligation. intros _ _ _ text c [= <-]. by rewrite length_app. Qed.
Next Obligation.
  intros _ _ _ text c _ _ [= <-]. f_equal. rewrite length_app.
  change (length _) with TAG_LEN at 2. rewrite Nat.add_sub. apply take_app_length.
Qed.

#[local] Definition demo_rnd : EscrowRandom := {|
  rnd_kek := Some (replicate KEK_LEN 7); rnd_nonce := Some (replicate NONCE_LEN 9);
  rnd_coefs := λ _, 3; rnd_id := 40%N |}.
#[local] Definition demo_escrow : KeyEscrowRequest := {|
  private_key := [1; 2; 3]; certificate_id := 1%N; subject_dn := "CN=a"; key_type := "RSA";
  num_agents := 3; threshold := 2; requestor := "kra"; justification := "backup" |}.
#[local] Definition demo_request : RecoveryRequest := {|
  q_escrow_id := 40%N; q_requestor := "ops"; q_justification := "lost"; q_approved_by := None |}.
#[local] Definition demo_w0 : KraWorld := {|
  db := {| certificates := {[1%N]}; escrowed_keys := ∅; recovery_agents := ∅;
           recovery_requests := ∅; recovery_shares := ∅ |};
  audit_log := [] |}.
#[local] Abbreviation demo_escrow_run :=
  (@escrow_key toy_aead (λ _, []) (λ _, "u") "sql" (λ _ _, true) demo_rnd 0 demo_escrow demo_w0).
#[local] Abbreviation demo_initiate w :=
  (initiate_recovery (λ _, "u") "sql" (λ _ _, true) 50%N 0 demo_request w).

Lemma wrap_unwrap_witness :
  @unwrap_key toy_aead (replicate KEK_LEN 7) (replicate NONCE_LEN 9 ++ [1; 2; 3] ++ replicate TAG_LEN 0) []
  = Ret [1; 2; 3].
Proof.
  apply (@wrap_unwrap toy_aead (replicate KEK_LEN 7) [1; 2; 3] [] (Some (replicate NONCE_LEN 9))).
  - split; [reflexivity|]. repeat constructor.
  - reflexivity.
Defined.

(** The database asks for 3 of 5 shares; the 2 of 3 that the escrow chose are enough. *)
Lemma escrow_then_recover_witness :
  ∃ w, @complete_recovery toy_aead (λ _, []) (λ _, "u") 50%N
         (match demo_escrow_run with (Ret (_, shares), _) => drop 1 shares | _ => [] end) 2
         (demo_initiate demo_escrow_run.2).2 = (Ret [1; 2; 3], w).
Proof.
  destruct demo_escrow_run as [[[escrowed shares]| |] w1] eqn:E; [|by vm_compute in E..].
  cbn [snd]. destruct (demo_initiate w1) as [[session| |] w2] eqn:E2.
  2,3: vm_compute in E; injection E as <- <- <-; by vm_compute in E2.
  cbn [snd]. eexists.
  assert (Hsh : escrow_id escrowed = 40%N ∧ length shares = 3%nat ∧ index <$> drop 1 shares = [2; 3])
    by (vm_compute in E; injection E as <- <- <-; vm_compute; auto).
  assert (s_id session = 50%N) as <-.
  { vm_compute in E. injection E as <- <- <-. vm_compute in E2. by injection E2 as <- <-. }
  destruct Hsh as (Hid & Hlen & Hidx).
  apply (@escrow_then_recover toy_aead (λ _, []) (λ _, "u") "sql" (λ _ _, true) demo_rnd 0 demo_escrow
           demo_w0 escrowed shares w1 [] 50%N 0 demo_request w2 session []).
  - split; [reflexivity|]. repeat constructor.
  - split; [reflexivity|]. repeat constructor.
  - reflexivity.
  - exact E.
  - exact E2.
  - by rewrite Hid.
  - apply subseteq_drop.
  - rewrite length_drop, Hlen. simpl. lia.
  - rewrite take_ge by (rewrite length_drop, Hlen; simpl; lia). rewrite Hidx.
    apply (bool_decide_unpack _). by vm_compute.
Defined.

Lemma submit_share_never_counts_witness :
  ∃ s w', @submit_share (λ _, "u") "sql" 60%N 50%N 70%N {| index := 1; value := [5] |}
      (@kra_calls toy_aead (λ _, []) (λ _, "u") "sql" (λ _ _, true)
         [CEscrow demo_rnd 0 demo_escrow; CInitiate 50%N 0 demo_request;
          CCreateAgent 70%N 0 "agent" "a@x" [] true] demo_w0) = (Ret s, w') ∧ shares_collected s = 0%nat.
Proof.
  destruct (@submit_share (λ _, "u") "sql" 60%N 50%N 70%N {| index := 1; value := [5] |}
      (@kra_calls toy_aead (λ _, []) (λ _, "u") "sql" (λ _ _, true)
         [CEscrow demo_rnd 0 demo_escrow; CInitiate 50%N 0 demo_request;
          CCreateAgent 70%N 0 "agent" "a@x" [] true] demo_w0)) as [[s| |] w'] eqn:E;
    [|by vm_compute in E..].
  exists s, w'. split; [done|].
  eapply (@submit_share_never_counts toy_aead) with (w := demo_w0); [| |exact E].
  - apply map_Forall_empty.
  - repeat constructor.
Defined.

Lemma initiate_recovery_unknown_key_witness :
  ∃ e w', @initiate_recovery (λ _, "u") "sql" (λ _ _, true) 50%N 0 demo_request demo_w0 =
    (Fail (KeyNotFound "Escrow ID: u"), w') ∧ ev_outcome e = Success ∧ audit_log w' = [e].
Proof.
  destruct (initiate_recovery_unknown_key (λ _, "u") "sql" (λ _ _, true) 50%N 0 demo_request demo_w0)
    as (e & w' & H1 & _ & H2 & _ & H3); [reflexivity|].
  exists e, w'. by split_and!.
Defined.
