(* ===== verification/Der.v ===== *)
(** * DER tag-length-value encoding (ostrich-ocsp/src/der_util.rs)

    The hand-written encoders of the OCSP responder and the TLV reader of its
    request parser, on lists of bytes.  [usize] has 64 bits. *)
From stdpp Require Import base list.
From Stdlib Require Import ZArith Lia.
From S2P Require Import Prelude Gf256.
Open Scope Z_scope.

(** ** The code *)

Definition TAG_INTEGER : u8 := 2.
Definition TAG_BIT_STRING : u8 := 3.
Definition TAG_OCTET_STRING : u8 := 4.
Definition TAG_NULL : u8 := 5.
Definition TAG_OID : u8 := 6.
Definition TAG_ENUMERATED : u8 := 10.
Definition TAG_GENERALIZED_TIME : u8 := 24.
Definition TAG_SEQUENCE : u8 := 48.

(** The [n] big-endian bytes of [x]; [usize::to_be_bytes] has [n = 8]. *)
Fixpoint to_be_bytes (n : nat) (x : Z) : list u8 :=
  match n with
  | O => []
  | S n => Z.land (Z.shiftr x (8 * Z.of_nat n)) 255 :: to_be_bytes n x
  end.

Fixpoint position {A} (f : A → bool) (l : list A) : option nat :=
  match l with
  | [] => None
  | x :: l => if f x then Some O else S <$> position f l
  end.

Definition nonzero (b : u8) : bool := negb (b =? 0).

Definition der_length (len : Z) : list u8 :=
  if len <? 128 then [len]
  else
    let bytes := to_be_bytes 8 len in
    let first := default (length bytes - 1)%nat (position nonzero bytes) in
    Z.lor 128 (Z.of_nat (length bytes - first)) :: drop first bytes.

Definition tlv (tag : u8) (content : list u8) : list u8 :=
  tag :: der_length (Z.of_nat (length content)) ++ content.

Definition seq (content : list u8) : list u8 := tlv TAG_SEQUENCE content.
Definition octet_string (bytes : list u8) : list u8 := tlv TAG_OCTET_STRING bytes.
Definition null : list u8 := [TAG_NULL; 0].
Definition enumerated (v : u8) : list u8 := tlv TAG_ENUMERATED [v].

(** [const_oid]'s encoding of a dotted OID; [None] when it is not one. *)
Definition oid {E} (oid_bytes : option (list u8)) (bad : E) : result (list u8) E :=
  let? bytes := ok_or oid_bytes bad in Ok (tlv TAG_OID bytes).

Definition integer_content (magnitude : list u8) : list u8 :=
  match position nonzero magnitude with
  | None => [0]
  | Some i =>
      let stripped := drop i magnitude in
      match stripped with
      | b :: _ => if negb (Z.land b 128 =? 0) then 0 :: stripped else stripped
      | [] => stripped
      end
  end.
Definition unsigned_integer (magnitude : list u8) : list u8 :=
  tlv TAG_INTEGER (integer_content magnitude).

Definition bit_string (bytes : list u8) : list u8 := tlv TAG_BIT_STRING (0 :: bytes).

(** A decimal number, as its ASCII digits, padded to [width] with zeros. *)
Fixpoint digits (fuel : nat) (z : Z) (acc : list u8) : list u8 :=
  match fuel with
  | O => acc
  | S fuel =>
      let acc := (48 + z mod 10) :: acc in
      if z / 10 =? 0 then acc else digits fuel (z / 10) acc
  end.
Definition decimal (z : Z) : list u8 := digits (S (Z.to_nat (Z.log2 z))) z [].
Definition pad (width : nat) (z : Z) : list u8 :=
  let d := decimal z in replicate (width - length d) 48 ++ d.

(** chrono's calendar fields of an instant. *)
Record Civil := { year : Z; month : Z; day : Z; hour : Z; minute : Z; second : Z }.

(** [format!("{:04}{:02}{:02}{:02}{:02}{:02}Z", ...)]; the year is not negative. *)
Definition civil_text (dt : Civil) : list u8 :=
  pad 4 (year dt) ++ pad 2 (month dt) ++ pad 2 (day dt) ++
  pad 2 (hour dt) ++ pad 2 (minute dt) ++ pad 2 (second dt) ++ [90].

Definition generalized_time (dt : Civil) : list u8 := tlv TAG_GENERALIZED_TIME (civil_text dt).

Fixpoint be_value (l : list u8) (acc : Z) : Z :=
  match l with
  | [] => acc
  | b :: l => be_value l (Z.lor (wrap 64 (Z.shiftl acc 8)) b)
  end.

Definition read_tlv (input : list u8) : option (u8 * list u8 * list u8) :=
  match input with
  | tag :: first_len :: _ =>
      let header_of :=
        if first_len <? 128 then Some (first_len, 2%nat)
        else
          let num_octets := Z.to_nat (Z.land first_len 127) in
          if (num_octets =? 0)%nat || (4 <? num_octets)%nat || (length input <? 2 + num_octets)%nat
          then None
          else Some (be_value (take num_octets (drop 2 input)) 0, (2 + num_octets)%nat) in
      match header_of with
      | None => None
      | Some (len, header) =>
          let len := Z.to_nat len in
          if (length input <? header + len)%nat then None
          else Some (tag, take len (drop header input), drop (header + len) input)
      end
  | _ => None
  end.

Example tlv_300 : take 4 (tlv 4 (replicate 300 7)) = [4; 130; 1; 44].
Proof. by vm_compute. Qed.
Example generalized_time_example :
  drop 2 (generalized_time {| year := 2026; month := 1; day := 5; hour := 9; minute := 30; second := 0 |})
  = [50; 48; 50; 54; 48; 49; 48; 53; 48; 57; 51; 48; 48; 48; 90].
Proof. by vm_compute. Qed.

(** ** Bytes as a number *)

Definition be_val (l : list u8) : Z := foldl (λ a b, a * 256 + b) 0 l.

Lemma fold_val l acc :
  foldl (λ a b, a * 256 + b) acc l = acc * 256 ^ Z.of_nat (length l) + be_val l.
Proof.
  unfold be_val. revert acc. induction l as [|b l IH]; intros acc; [simpl; lia|].
  cbn [foldl length]. rewrite IH, (IH (0 * 256 + b)), Nat2Z.inj_succ, Z.pow_succ_r by lia. ring.
Qed.

Lemma be_val_cons b l : be_val (b :: l) = b * 256 ^ Z.of_nat (length l) + be_val l.
Proof. unfold be_val. cbn [foldl]. rewrite fold_val. by rewrite Z.mul_0_l, Z.add_0_l. Qed.

Lemma be_val_app l1 l2 : be_val (l1 ++ l2) = be_val l1 * 256 ^ Z.of_nat (length l2) + be_val l2.
Proof. unfold be_val. rewrite foldl_app. apply fold_val. Qed.

Lemma be_val_range l : u8_list l → 0 ≤ be_val l < 256 ^ Z.of_nat (length l).
Proof.
  induction 1 as [|b l Hb Hl IH]; [by vm_compute|]. apply is_u8_range in Hb.
  rewrite be_val_cons. cbn [length]. rewrite Nat2Z.inj_succ, Z.pow_succ_r by lia. nia.
Qed.

Lemma be_val_zeros l : Forall (λ b, b = 0) l → be_val l = 0.
Proof. induction 1 as [|b l -> _ IH]; [done|]. by rewrite be_val_cons, IH. Qed.

Lemma lor_low a b : 0 ≤ b < 256 → Z.lor (Z.shiftl a 8) b = a * 256 + b.
Proof.
  intros Hb. rewrite <- (Z.add_0_r (Z.lor _ _)).
  replace 0 with (Z.land (Z.shiftl a 8) b).
  - rewrite Z.add_lor_land, Z.shiftl_mul_pow2 by done. done.
  - apply Z.bits_inj_iff'. intros n Hn. rewrite Z.land_spec, Z.bits_0.
    destruct (Z.lt_ge_cases n 8).
    + by rewrite Z.shiftl_spec_low.
    + replace b with (b mod 2 ^ 8) by (apply Z.mod_small; done).
      rewrite Z.mod_pow2_bits_high by lia. apply andb_false_r.
Qed.

(** [(len << 8) | b] does not overflow over at most eight bytes. *)
Lemma be_value_val l acc :
  u8_list l → 0 ≤ acc → (acc + 1) * 256 ^ Z.of_nat (length l) ≤ 2 ^ 64 →
  be_value l acc = acc * 256 ^ Z.of_nat (length l) + be_val l.
Proof.
  intros Hl. revert acc. induction Hl as [|b l Hb Hl IH]; intros acc Ha Hb64; [cbn; lia|].
  apply is_u8_range in Hb. cbn [length be_value] in *.
  rewrite Nat2Z.inj_succ, Z.pow_succ_r in * by lia.
  pose proof (Z.pow_pos_nonneg 256 (Z.of_nat (length l))).
  assert (wrap 64 (Z.shiftl acc 8) = Z.shiftl acc 8) as ->.
  { unfold wrap. apply Z.mod_small. rewrite Z.shiftl_mul_pow2 by done. nia. }
  rewrite lor_low, IH, be_val_cons by nia. ring.
Qed.

Lemma land_255 z : Z.land z 255 = z mod 256.
Proof. change 255 with (Z.ones 8). by rewrite Z.land_ones. Qed.

Lemma to_be_bytes_length n x : length (to_be_bytes n x) = n.
Proof. induction n as [|n IH]; simpl; [done|by rewrite IH]. Qed.

Lemma to_be_bytes_u8 n x : u8_list (to_be_bytes n x).
Proof. induction n as [|n IH]; [constructor|]. constructor; [apply is_u8_land|done]. Qed.

Lemma to_be_bytes_val n x : 0 ≤ x → be_val (to_be_bytes n x) = x mod 256 ^ Z.of_nat n.
Proof.
  intros Hx. induction n as [|n IH]; [cbn; by rewrite Z.mod_1_r|].
  cbn [to_be_bytes]. rewrite be_val_cons, IH, to_be_bytes_length, land_255.
  rewrite Z.shiftr_div_pow2 by lia. replace (2 ^ (8 * Z.of_nat n)) with (256 ^ Z.of_nat n)
    by (rewrite Z.pow_mul_r by lia; done).
  rewrite Nat2Z.inj_succ, Z.pow_succ_r, (Z.mul_comm 256) by lia.
  rewrite Z.rem_mul_r by (try apply Z.pow_nonzero; lia). lia.
Qed.

(** The bytes before the last [m] are zero when the number fits [m] bytes. *)
Lemma to_be_bytes_high n m x :
  0 ≤ x < 256 ^ Z.of_nat m → (m ≤ n)%nat → take (n - m) (to_be_bytes n x) = replicate (n - m) 0.
Proof.
  intros Hx. induction n as [|n IH]; intros Hm; [done|].
  destruct (decide (m = S n)) as [->|Hne]; [by rewrite Nat.sub_diag|].
  replace (S n - m)%nat with (S (n - m)) by lia. cbn [to_be_bytes take replicate].
  f_equal; [|apply IH; lia]. rewrite land_255, Z.shiftr_div_pow2 by lia.
  rewrite Z.div_small; [done|]. split; [lia|].
  rewrite Z.pow_mul_r by lia. change (2 ^ 8) with 256.
  eapply Z.lt_le_trans; [apply Hx|]. apply Z.pow_le_mono_r; lia.
Qed.

Lemma position_Some {A} (f : A → bool) l i :
  position f l = Some i → ∃ x, l !! i = Some x ∧ f x = true ∧ Forall (λ y, f y = false) (take i l).
Proof.
  revert i. induction l as [|x l IH]; intros i; [done|]. cbn [position]. destruct (f x) eqn:Hf.
  - intros [= <-]. exists x. by repeat constructor.
  - intros (j & Hj & ->)%fmap_Some_1. destruct (IH j Hj) as (y & H1 & H2 & H3).
    exists y. split_and!; [done..|]. by constructor.
Qed.

Lemma position_None {A} (f : A → bool) l : position f l = None → Forall (λ y, f y = false) l.
Proof.
  induction l as [|x l IH]; [constructor|]. cbn [position]. destruct (f x) eqn:Hf; [done|].
  intros H%fmap_None. constructor; auto.
Qed.

Lemma nonzero_false l : Forall (λ y, nonzero y = false) l → Forall (λ y, y = 0) l.
Proof. intros H. eapply Forall_impl; [exact H|]. intros y Hy. by apply negb_false_iff, Z.eqb_eq in Hy. Qed.

Lemma be_val_strip l i :
  position nonzero l = Some i → be_val (drop i l) = be_val l.
Proof.
  intros (x & Hx & _ & Hz)%position_Some. rewrite <- (take_drop i l) at 2.
  rewrite be_val_app, (be_val_zeros (take i l)) by by apply nonzero_false. lia.
Qed.

(** ** Reading back *)

(** A length of at most four bytes in long form: the number of length bytes
    and the bytes. *)
Lemma der_length_long n :
  128 ≤ n < 2 ^ 32 →
  ∃ k bytes, der_length n = Z.lor 128 (Z.of_nat k) :: bytes ∧ length bytes = k ∧
    (1 ≤ k ≤ 4)%nat ∧ u8_list bytes ∧ be_val bytes = n.
Proof.
  intros Hn. unfold der_length. rewrite (proj2 (Z.ltb_ge _ _)) by lia.
  set (bytes := to_be_bytes 8 n).
  assert (Hbl : length bytes = 8%nat) by apply to_be_bytes_length. rewrite Hbl.
  assert (Hv : be_val bytes = n).
  { unfold bytes. rewrite to_be_bytes_val by lia. apply Z.mod_small.
    change (256 ^ Z.of_nat 8) with (2 ^ 64). lia. }
  destruct (position nonzero bytes) as [i|] eqn:Hi; cbn [default].
  2:{ apply position_None, nonzero_false, be_val_zeros in Hi. lia. }
  pose proof (be_val_strip _ _ Hi) as Hs.
  apply position_Some in Hi as (x & Hx & Hnz & _).
  assert (Hi8 : (i < 8)%nat) by (apply lookup_lt_Some in Hx; lia).
  assert (Hi4 : (4 ≤ i)%nat).
  { destruct (decide (i < 4)%nat) as [Hlt|]; [|lia].
    assert (Hh : take 4 bytes = replicate 4 0) by (apply (to_be_bytes_high 8 4); [change (256 ^ Z.of_nat 4) with (2 ^ 32); lia|lia]).
    apply (f_equal (lookup i)) in Hh. rewrite lookup_take_lt, Hx, lookup_replicate_2 in Hh by done.
    injection Hh as ->. done. }
  exists (8 - i)%nat, (drop i bytes). split_and!; [done| |lia|lia| |congruence].
  - by rewrite length_drop, Hbl.
  - apply Forall_drop, to_be_bytes_u8.
Qed.

Lemma read_body (tag : u8) (header_bytes content rest : list u8) n :
  length content = n →
  (if (length (tag :: header_bytes ++ content ++ rest) <? S (length header_bytes) + n)%nat then None
   else Some (tag, take n (drop (S (length header_bytes)) (tag :: header_bytes ++ content ++ rest)),
                   drop (S (length header_bytes) + n) (tag :: header_bytes ++ content ++ rest)))
  = Some (tag, content, rest).
Proof.
  intros <-. cbn [length]. rewrite !length_app.
  rewrite (proj2 (Nat.ltb_ge _ _)) by lia. cbn [drop Nat.add].
  rewrite <- drop_drop, !drop_app_length, take_app_length. done.
Qed.

(** The reader inverts the encoder: from the TLV of any content shorter
    than 2^32 bytes, followed by any bytes, it reads back the tag, the content
    and the rest. *)
Lemma read_tlv_tlv tag content rest :
  Z.of_nat (length content) < 2 ^ 32 →
  read_tlv (tlv tag content ++ rest) = Some (tag, content, rest).
Proof.
  intros Hl. unfold tlv. set (n := Z.of_nat (length content)) in *.
  destruct (Z.lt_ge_cases n 128) as [Hs|Hs].
  - unfold der_length. rewrite (proj2 (Z.ltb_lt _ _)) by done.
    cbn -[Z.ltb Nat.ltb take drop length]. rewrite (proj2 (Z.ltb_lt n 128)) by done.
    unfold n. rewrite Nat2Z.id. exact (read_body tag [n] content rest _ eq_refl).
  - destruct (der_length_long n) as (k & bytes & -> & <- & Hk4 & Hu & Hv); [lia|].
    rewrite <- app_comm_cons, <- app_assoc. set (first := Z.lor 128 (Z.of_nat (length bytes))).
    change ((first :: bytes) ++ content ++ rest) with (first :: (bytes ++ content ++ rest)).
    unfold read_tlv.
    assert (Hf : (first <? 128) = false ∧ Z.to_nat (Z.land first 127) = length bytes).
    { unfold first. generalize dependent (length bytes). intros k Hk4. destruct k as [|[|[|[|[|k]]]]]; [lia|by vm_compute..|lia]. }
    destruct Hf as [-> ->].
    replace (_ || _ || _) with false.
    2:{ symmetry. apply orb_false_iff. split; [apply orb_false_iff; split|].
        - apply Nat.eqb_neq. lia.
        - apply Nat.ltb_ge. lia.
        - apply Nat.ltb_ge. cbn [length]. rewrite !length_app. lia. }
    cbn [drop]. rewrite !drop_0, !take_app_length.
    rewrite be_value_val; [|done|done|].
    2:{ transitivity (256 ^ 4); [|done]. rewrite Z.add_0_l, Z.mul_1_l.
        apply Z.pow_le_mono_r; lia. }
    rewrite Z.mul_0_l, Z.add_0_l, Hv. unfold n. rewrite Nat2Z.id.
    replace (2 + length bytes)%nat with (S (length (first :: bytes))) by (cbn; lia).
    exact (read_body tag (first :: bytes) content rest _ eq_refl).
Qed.

(** What the reader accepts, it found: the tag is the first byte, and the
    input is tag, a header of one to five length bytes, the content and the
    rest, in that order. *)
Lemma read_tlv_sound input tag content rest :
  read_tlv input = Some (tag, content, rest) →
  ∃ header, input = tag :: header ++ content ++ rest ∧ (1 ≤ length header ≤ 5)%nat.
Proof.
  assert (Hcut : ∀ (t : u8) (l : list u8) h n, (1 ≤ h)%nat →
    (if (length (t :: l) <? h + n)%nat then None
     else Some (t, take n (drop h (t :: l)), drop (h + n) (t :: l))) = Some (tag, content, rest) →
    ∃ header, t :: l = tag :: header ++ content ++ rest ∧ S (length header) = h).
  { intros t l h n Hh. destruct (Nat.ltb_spec (length (t :: l)) (h + n)); [done|].
    intros [= <- <- <-]. destruct h as [|h]; [lia|]. exists (take h l). cbn [drop Nat.add]. split.
    - by rewrite <- drop_drop, take_drop, take_drop.
    - rewrite length_take. cbn [length] in *. lia. }
  destruct input as [|t [|f l]]; [done..|]. unfold read_tlv.
  destruct (f <? 128).
  - intros (header & -> & Hh)%Hcut; [|lia]. exists header. split; [done|lia].
  - destruct (_ || _ || _) eqn:E; [done|]. apply orb_false_iff in E as [E _].
    apply orb_false_iff in E as [_ E%Nat.ltb_ge].
    intros (header & -> & Hh)%Hcut; [|lia]. exists header. split; [done|lia].
Qed.

(** The reader does not insist on minimal lengths: the long form with
    one length byte is read for contents that DER gives a short-form length,
    so that one value has several accepted encodings. *)
Theorem read_tlv_accepts_overlong tag content rest :
  (length content < 128)%nat →
  read_tlv (tag :: 129 :: Z.of_nat (length content) :: content ++ rest) = Some (tag, content, rest) ∧
  read_tlv (tlv tag content ++ rest) = Some (tag, content, rest) ∧
  tag :: 129 :: Z.of_nat (length content) :: content ++ rest ≠ tlv tag content ++ rest.
Proof.
  intros Hl. split_and!.
  - unfold read_tlv. change (129 <? 128) with false.
    change (Z.to_nat (Z.land 129 127)) with 1%nat.
    change (_ || _ || _) with false. cbv iota zeta.
    change (be_value (take 1 (drop 2 _)) 0) with (Z.lor 0 (Z.of_nat (length content))).
    cbv iota. rewrite Z.lor_0_l, Nat2Z.id.
    exact (read_body tag [129; Z.of_nat (length content)] content rest _ eq_refl).
  - apply read_tlv_tlv. lia.
  - unfold tlv, der_length. rewrite (proj2 (Z.ltb_lt _ _)) by lia. cbn. intros [= H _]. lia.
Qed.

(** ** Integers *)

(** Minimal two's complement of a number that is not negative: one byte, or a
    first byte that is needed. *)
Definition minimal (l : list u8) : Prop :=
  match l with
  | [] => False
  | [b] => b < 128
  | b :: b' :: _ => b < 128 ∧ (b = 0 → 128 ≤ b')
  end.

Lemma high_bit_clear b : is_u8 b = true → negb (Z.land b 128 =? 0) = (128 <=? b).
Proof. intros Hb. apply eqb_prop. revert b Hb. apply bytes_check. by vm_compute. Qed.

Lemma integer_content_u8 m : u8_list m → u8_list (integer_content m).
Proof.
  intros Hm. unfold integer_content. destruct (position nonzero m) as [i|]; [|by repeat constructor].
  pose proof (Forall_drop (λ z, is_u8 z = true) i m Hm) as Hd.
  destruct (drop i m) as [|b l]; [done|]. destruct (negb _); [by constructor|done].
Qed.

Lemma integer_content_spec m :
  u8_list m → minimal (integer_content m) ∧ be_val (integer_content m) = be_val m.
Proof.
  intros Hm. unfold integer_content. destruct (position nonzero m) as [i|] eqn:Hi.
  2:{ apply position_None, nonzero_false, be_val_zeros in Hi as ->. by vm_compute. }
  pose proof (be_val_strip _ _ Hi) as Hv.
  apply position_Some in Hi as (x & Hx & Hnz & _).
  rewrite <- Hv. rewrite (drop_S _ _ _ Hx).
  assert (Hb : is_u8 x = true) by by apply (Forall_lookup_1 _ _ _ _ Hm Hx).
  rewrite high_bit_clear by done. apply is_u8_range in Hb.
  assert (x ≠ 0) by (intros ->; done).
  destruct (Z.leb_spec 128 x).
  - split; [cbn; lia|]. rewrite be_val_cons. lia.
  - split; [|done]. destruct (drop (S i) m); cbn; lia.
Qed.

(** Equal numbers have equal minimal encodings. *)
Lemma minimal_bound l :
  u8_list l → minimal l → (1 < length l)%nat → 128 * 256 ^ Z.of_nat (length l - 2) ≤ be_val l.
Proof.
  intros Hl Hm Hlen. destruct l as [|b [|b' l]]; [done|simpl in Hlen; lia|].
  cbn [length]. replace (S (S (length l)) - 2)%nat with (length l) by lia.
  apply Forall_cons in Hl as [Hb Hl]. apply Forall_cons in Hl as [Hb' Hl].
  apply is_u8_range in Hb. apply is_u8_range in Hb'. pose proof (be_val_range l Hl).
  rewrite !be_val_cons. cbn [length]. rewrite Nat2Z.inj_succ, Z.pow_succ_r by lia.
  destruct Hm as [_ Hm]. pose proof (Z.pow_pos_nonneg 256 (Z.of_nat (length l))).
  destruct (decide (b = 0)) as [->|]; [specialize (Hm eq_refl)|]; nia.
Qed.

Lemma minimal_top l :
  u8_list l → minimal l → be_val l < 128 * 256 ^ Z.of_nat (length l - 1).
Proof.
  intros Hl Hm. destruct l as [|b l]; [done|]. apply Forall_cons in Hl as [Hb Hl].
  pose proof (be_val_range l Hl). apply is_u8_range in Hb. rewrite be_val_cons. cbn [length].
  rewrite Nat.sub_succ, Nat.sub_0_r. assert (b < 128) by (destruct l; cbn in Hm; lia).
  pose proof (Z.pow_pos_nonneg 256 (Z.of_nat (length l))). nia.
Qed.

Lemma minimal_length_le l1 l2 :
  u8_list l1 → u8_list l2 → minimal l1 → minimal l2 → be_val l1 = be_val l2 →
  (length l1 ≤ length l2)%nat.
Proof.
  intros U1 U2 M1 M2 E. destruct (decide (length l1 ≤ length l2)%nat) as [|Hgt]; [done|].
  assert (H2 : (1 ≤ length l2)%nat) by (destruct l2; [done|cbn; lia]).
  assert (H1 : (1 < length l1)%nat) by lia.
  pose proof (minimal_bound l1 U1 M1 H1). pose proof (minimal_top l2 U2 M2).
  assert (256 ^ Z.of_nat (length l2 - 1) ≤ 256 ^ Z.of_nat (length l1 - 2))
    by (apply Z.pow_le_mono_r; lia). lia.
Qed.

Lemma be_val_inj l1 l2 :
  u8_list l1 → u8_list l2 → length l1 = length l2 → be_val l1 = be_val l2 → l1 = l2.
Proof.
  intros U1. revert l2. induction U1 as [|b l1 Hb U1 IH]; intros [|b' l2] U2 Hl E; try done.
  apply Forall_cons in U2 as [Hb' U2]. injection Hl as Hl. rewrite !be_val_cons, Hl in E.
  pose proof (be_val_range l1 U1) as R1. pose proof (be_val_range l2 U2) as R2. rewrite Hl in R1.
  apply is_u8_range in Hb. apply is_u8_range in Hb'.
  set (p := 256 ^ Z.of_nat (length l2)) in *.
  assert (b = b') as ->.
  { destruct (Z.lt_trichotomy b b') as [H|[H|H]]; [|done|].
    - assert ((b + 1) * p ≤ b' * p) by (apply Z.mul_le_mono_nonneg_r; lia). lia.
    - assert ((b' + 1) * p ≤ b * p) by (apply Z.mul_le_mono_nonneg_r; lia). lia. }
  f_equal. apply IH; [done..|lia].
Qed.

Lemma tlv_inj tag c1 c2 :
  Z.of_nat (length c1) < 2 ^ 32 → Z.of_nat (length c2) < 2 ^ 32 →
  tlv tag c1 = tlv tag c2 → c1 = c2.
Proof.
  intros H1 H2 E. pose proof (read_tlv_tlv tag c1 [] H1) as R. rewrite E in R.
  rewrite read_tlv_tlv in R by done. by injection R.
Qed.

Lemma integer_content_length m : (length (integer_content m) ≤ S (length m))%nat.
Proof.
  unfold integer_content. destruct (position nonzero m) as [i|]; [|cbn; lia].
  pose proof (length_drop m i) as Hl. destruct (drop i m) as [|b l]; [cbn; lia|].
  destruct (negb _); cbn [length] in *; lia.
Qed.

(** INTEGER encodings are canonical: the content is the minimal encoding
    of the unsigned number the bytes stand for, and is never negative; two
    magnitudes, with or without leading zeros, have the same encoding exactly
    when they are the same number. *)
Theorem unsigned_integer_canonical m1 m2 :
  u8_list m1 → u8_list m2 →
  Z.of_nat (length m1) < 2 ^ 31 → Z.of_nat (length m2) < 2 ^ 31 →
  minimal (integer_content m1) ∧ be_val (integer_content m1) = be_val m1 ∧
  (unsigned_integer m1 = unsigned_integer m2 ↔ be_val m1 = be_val m2).
Proof.
  intros U1 U2 L1 L2. destruct (integer_content_spec m1 U1) as [M1 V1].
  destruct (integer_content_spec m2 U2) as [M2 V2]. split_and!; [done..|].
  pose proof (integer_content_u8 m1 U1). pose proof (integer_content_u8 m2 U2).
  unfold unsigned_integer. split.
  - intros E. rewrite <- V1, <- V2. f_equal.
    pose proof (integer_content_length m1). pose proof (integer_content_length m2).
    by apply (tlv_inj TAG_INTEGER); [lia..|].
  - intros E. f_equal. rewrite <- V1, <- V2 in E. apply be_val_inj; [done..| |done].
    apply Nat.le_antisymm; by apply minimal_length_le.
Qed.

(** ** Times *)

Definition dec_val (l : list u8) : Z := foldl (λ a b, a * 10 + (b - 48)) 0 l.

Lemma dec_val_fold l acc :
  foldl (λ a b, a * 10 + (b - 48)) acc l = acc * 10 ^ Z.of_nat (length l) + dec_val l.
Proof.
  unfold dec_val. revert acc. induction l as [|b l IH]; intros acc; [simpl; lia|].
  cbn [foldl length]. rewrite IH, (IH (0 * 10 + (b - 48))), Nat2Z.inj_succ, Z.pow_succ_r by lia. ring.
Qed.

Lemma dec_val_app l1 l2 : dec_val (l1 ++ l2) = dec_val l1 * 10 ^ Z.of_nat (length l2) + dec_val l2.
Proof. unfold dec_val. rewrite foldl_app. apply dec_val_fold. Qed.

(** The digits of [z], in front of [acc]: they stand for [z] and there are no
    more of them than [z] needs. *)
Lemma digits_spec fuel z acc :
  0 ≤ z < 2 ^ Z.of_nat fuel → (1 ≤ fuel)%nat →
  ∃ d, digits fuel z acc = d ++ acc ∧ dec_val d = z ∧
    ∀ w : nat, (1 ≤ w)%nat → z < 10 ^ Z.of_nat w → (length d ≤ w)%nat.
Proof.
  revert z acc. induction fuel as [|fuel IH]; intros z acc Hz Hf; [lia|].
  pose proof (Z.mod_pos_bound z 10) as Hm. pose proof (Z.div_mod z 10) as Hdm. cbn [digits].
  destruct (Z.eqb_spec (z / 10) 0) as [H0|H0].
  - exists [48 + z mod 10]. split_and!; [done|unfold dec_val; simpl; lia|]. intros w Hw _. simpl. lia.
  - assert (Hq : 0 ≤ z / 10) by (apply Z.div_pos; lia).
    rewrite Nat2Z.inj_succ, Z.pow_succ_r in Hz by lia.
    destruct (IH (z / 10) ((48 + z mod 10) :: acc)) as (d & -> & Hd & Hl).
    { split; [done|]. apply Z.div_lt_upper_bound; lia. }
    { destruct fuel; [|lia]. cbn in Hz. assert (z / 10 = 0) by (apply Z.div_small; lia). lia. }
    exists (d ++ [48 + z mod 10]). rewrite <- app_assoc. split_and!; [done| |].
    + rewrite dec_val_app, Hd. unfold dec_val. simpl. lia.
    + intros w Hw Hzw. rewrite length_app. simpl. destruct w as [|w]; [lia|].
      rewrite Nat2Z.inj_succ, Z.pow_succ_r in Hzw by lia.
      destruct (decide (w = 0)%nat) as [->|]; [cbn in Hzw; assert (z / 10 = 0) by (apply Z.div_small; lia); lia|].
      assert (length d ≤ w)%nat; [|lia]. apply Hl; [lia|]. apply Z.div_lt_upper_bound; lia.
Qed.

Lemma pad_spec w z :
  (1 ≤ w)%nat → 0 ≤ z < 10 ^ Z.of_nat w → length (pad w z) = w ∧ dec_val (pad w z) = z.
Proof.
  intros Hw Hz. unfold pad, decimal.
  destruct (digits_spec (S (Z.to_nat (Z.log2 z))) z []) as (d & -> & Hd & Hl); [|lia|].
  { split; [lia|]. destruct (decide (z = 0)) as [->|]; [by vm_compute|].
    rewrite Nat2Z.inj_succ, Z2Nat.id by apply Z.log2_nonneg. apply Z.log2_spec. lia. }
  rewrite app_nil_r. specialize (Hl w Hw (proj2 Hz)).
  rewrite length_app, length_replicate. split; [lia|]. rewrite dec_val_app, Hd.
  replace (dec_val (replicate (w - length d) 48)) with 0; [lia|].
  generalize (w - length d)%nat as n. intros n. induction n as [|n IH]; [done|].
  rewrite replicate_S_end, dec_val_app, <- IH. done.
Qed.

Definition civil_ok (dt : Civil) : Prop :=
  0 ≤ year dt < 10000 ∧ 0 ≤ month dt < 100 ∧ 0 ≤ day dt < 100 ∧
  0 ≤ hour dt < 100 ∧ 0 ≤ minute dt < 100 ∧ 0 ≤ second dt < 100.

Lemma pad_app_inj w z z' l l' :
  (1 ≤ w)%nat → 0 ≤ z < 10 ^ Z.of_nat w → 0 ≤ z' < 10 ^ Z.of_nat w →
  pad w z ++ l = pad w z' ++ l' → z = z' ∧ l = l'.
Proof.
  intros Hw Hz Hz' E. destruct (pad_spec w z Hw Hz) as [L V], (pad_spec w z' Hw Hz') as [L' V'].
  apply app_inj_1 in E as [E ->]; [|congruence]. split; [|done]. congruence.
Qed.

Lemma civil_text_length dt :
  civil_ok dt → length (civil_text dt) = 15%nat ∧ last (civil_text dt) = Some 90.
Proof.
  intros (Y & Mo & D & H & Mi & S). unfold civil_text. split.
  - rewrite !length_app. destruct (pad_spec 4 (year dt)) as [-> _]; [lia|done|].
    destruct (pad_spec 2 (month dt)) as [-> _]; [lia|done|].
    destruct (pad_spec 2 (day dt)) as [-> _]; [lia|done|].
    destruct (pad_spec 2 (hour dt)) as [-> _]; [lia|done|].
    destruct (pad_spec 2 (minute dt)) as [-> _]; [lia|done|].
    by destruct (pad_spec 2 (second dt)) as [-> _]; [lia|done|].
  - rewrite !app_assoc. apply last_snoc.
Qed.

Lemma civil_text_inj dt dt' : civil_ok dt → civil_ok dt' → civil_text dt = civil_text dt' → dt = dt'.
Proof.
  intros (Y & Mo & D & H & Mi & S) (Y' & Mo' & D' & H' & Mi' & S') E. unfold civil_text in E.
  destruct dt, dt'. cbn [year month day hour minute second] in *.
  apply pad_app_inj in E as [-> E]; [|lia|done..].
  apply pad_app_inj in E as [-> E]; [|lia|done..].
  apply pad_app_inj in E as [-> E]; [|lia|done..].
  apply pad_app_inj in E as [-> E]; [|lia|done..].
  apply pad_app_inj in E as [-> E]; [|lia|done..].
  by apply pad_app_inj in E as [-> _]; [|lia|done..].
Qed.

(** GeneralizedTime: for years 0 to 9999 the encoding is the 17 bytes
    that X.690 asks for, tag, length 15, fourteen digits and [Z], and it
    determines the instant down to the second. *)
Theorem generalized_time_injective dt dt' :
  civil_ok dt → civil_ok dt' →
  (∃ content, generalized_time dt = TAG_GENERALIZED_TIME :: 15 :: content ∧
     length content = 15%nat ∧ last content = Some 90) ∧
  (generalized_time dt = generalized_time dt' → dt = dt').
Proof.
  intros Hd Hd'. destruct (civil_text_length dt Hd) as [L Z], (civil_text_length dt' Hd') as [L' _].
  unfold generalized_time. split.
  - exists (civil_text dt). unfold tlv. by rewrite L.
  - intros E%tlv_inj; [by apply civil_text_inj|rewrite ?L, ?L'; done..].
Qed.

(** ** Concrete runs *)

Lemma read_tlv_tlv_witness :
  read_tlv (tlv 4 (replicate 300 7) ++ [1; 2]) = Some (4, replicate 300 7, [1; 2]).
Proof. apply (read_tlv_tlv 4 (replicate 300 7) [1; 2]). vm_compute. reflexivity. Defined.

Lemma read_tlv_sound_witness :
  ∃ header, [4; 129; 1; 9; 5] = 4 :: header ++ [9] ++ [5] ∧ (1 ≤ length header ≤ 5)%nat.
Proof. apply (read_tlv_sound [4; 129; 1; 9; 5] 4 [9] [5]). reflexivity. Defined.

Lemma read_tlv_accepts_overlong_witness : read_tlv [4; 129; 1; 9; 5] = Some (4, [9], [5]).
Proof. apply (read_tlv_accepts_overlong 4 [9] [5]). simpl. lia. Defined.

Lemma unsigned_integer_canonical_witness :
  unsigned_integer [0; 0; 200] = unsigned_integer [200].
Proof.
  apply (unsigned_integer_canonical [0; 0; 200] [200]); try (repeat constructor); try (simpl; lia).
Defined.

Lemma generalized_time_injective_witness :
  ∃ content, generalized_time {| year := 2026; month := 1; day := 5; hour := 9; minute := 30; second := 0 |}
    = TAG_GENERALIZED_TIME :: 15 :: content ∧ length content = 15%nat ∧ last content = Some 90.
Proof.
  set (dt := {| year := 2026; month := 1; day := 5; hour := 9; minute := 30; second := 0 |}).
  assert (civil_ok dt) as H by (unfold civil_ok; simpl; lia).
  exact (proj1 (generalized_time_injective dt dt H H)).
Defined.
