(* ===== verification/ProxyPath.v ===== *)
(** * Raw-path validation of the reverse proxies (ostrich-common/src/util/proxy_path.rs)

    A request path is the list of its bytes, as [str::bytes] gives them; the
    prefixes and the separator are ASCII, so that splitting the [&str] and
    splitting its bytes agree. *)
From stdpp Require Import base list strings sets.
From Stdlib Require Import ZArith Lia.
From S2P Require Import Prelude.
Open Scope Z_scope.

(** ** The code *)

Inductive PathRejection :=
| MissingServicePrefix | EmptySegment | DotSegment | MalformedPercentEncoding
| EncodedDelimiter | ControlCharacter.
#[export] Instance PathRejection_eq_dec : EqDecision PathRejection.
Proof. solve_decision. Defined.

Definition reason (r : PathRejection) : string :=
  match r with
  | MissingServicePrefix => "missing_service_prefix"
  | EmptySegment => "empty_segment"
  | DotSegment => "dot_segment"
  | MalformedPercentEncoding => "malformed_percent_encoding"
  | EncodedDelimiter => "encoded_delimiter"
  | ControlCharacter => "control_character"
  end.

Definition SLASH : u8 := 47.
Definition PERCENT : u8 := 37.
Definition DOT : u8 := 46.
Definition API : list u8 := [47; 97; 112; 105].

Definition hex (b : u8) : option u8 :=
  if (48 <=? b) && (b <=? 57) then Some (b - 48)
  else if (97 <=? b) && (b <=? 102) then Some (b - 97 + 10)
  else if (65 <=? b) && (b <=? 70) then Some (b - 65 + 10)
  else None.

Fixpoint decode_loop (bytes out : list u8) : result (list u8) PathRejection :=
  match bytes with
  | [] => Ok out
  | b :: bytes =>
      if b =? PERCENT then
        match bytes with
        | hi :: lo :: bytes =>
            match hex hi, hex lo with
            | Some hi, Some lo => decode_loop bytes (out ++ [Z.lor (wrap 8 (Z.shiftl hi 4)) lo])
            | _, _ => Err MalformedPercentEncoding
            end
        | _ => Err MalformedPercentEncoding
        end
      else decode_loop bytes (out ++ [b])
  end.
Definition percent_decode_segment (segment : list u8) : result (list u8) PathRejection :=
  decode_loop segment [].

(** [str::strip_prefix]. *)
Fixpoint strip_prefix (p s : list u8) : option (list u8) :=
  match p, s with
  | [], _ => Some s
  | x :: p, y :: s => if x =? y then strip_prefix p s else None
  | _, [] => None
  end.

(** [str::split] at one character: always at least one segment. *)
Fixpoint split_on (c : u8) (s : list u8) : list (list u8) :=
  match s with
  | [] => [[]]
  | b :: s =>
      if b =? c then [] :: split_on c s
      else match split_on c s with seg :: segs => (b :: seg) :: segs | [] => [[b]] end
  end.

Fixpoint check_bytes (decoded : list u8) : result unit PathRejection :=
  match decoded with
  | [] => Ok tt
  | b :: decoded =>
      if (b =? 47) || (b =? 63) || (b =? 35) || (b =? 92) then Err EncodedDelimiter
      else if ((0 <=? b) && (b <=? 31)) || (b =? 127) then Err ControlCharacter
      else check_bytes decoded
  end.

(** The body of the loop over the segments. *)
Definition check_segment (segment : list u8) : result unit PathRejection :=
  match segment with
  | [] => Err EmptySegment
  | _ =>
      let? decoded := percent_decode_segment segment in
      if bool_decide (decoded = [DOT]) || bool_decide (decoded = [DOT; DOT]) then Err DotSegment
      else check_bytes decoded
  end.

Fixpoint check_segments (segments : list (list u8)) : result unit PathRejection :=
  match segments with
  | [] => Ok tt
  | s :: segments => let? _ := check_segment s in check_segments segments
  end.

(** The path below [/api], when that is followed by a slash. *)
Definition below_api (raw_path : list u8) : list u8 :=
  match strip_prefix API raw_path with
  | Some ((b :: _) as r) => if b =? SLASH then r else raw_path
  | _ => raw_path
  end.

Definition service_path (raw_path svc : list u8) : option (list u8) :=
  r ← strip_prefix [SLASH] (below_api raw_path);
  r ← strip_prefix svc r;
  strip_prefix [SLASH] r.

Definition validate_backend_path (raw_path svc : list u8) : result (list u8) PathRejection :=
  let? rest := ok_or (service_path raw_path svc) MissingServicePrefix in
  let? _ := check_segments (split_on SLASH rest) in
  Ok rest.

Definition bytes_of (s : string) : list u8 :=
  (λ a, Z.of_nat (Ascii.nat_of_ascii a)) <$> String.list_ascii_of_string s.
Example validate_ok :
  validate_backend_path (bytes_of "/api/ca/certs/a%20b") (bytes_of "ca") = Ok (bytes_of "certs/a%20b").
Proof. by vm_compute. Qed.
Example validate_dots :
  validate_backend_path (bytes_of "/ca/certs/%2e%2E/x") (bytes_of "ca") = Err DotSegment.
Proof. by vm_compute. Qed.

(** ** Percent-decoding *)

(** RFC 3986 §2.1: an octet stands for itself, or is written as [%] and two
    hexadecimal digits. *)
Inductive decodes : list u8 → list u8 → Prop :=
| decodes_nil : decodes [] []
| decodes_octet b s d : b ≠ PERCENT → decodes s d → decodes (b :: s) (b :: d)
| decodes_escape h l vh vl s d :
    hex h = Some vh → hex l = Some vl → decodes s d →
    decodes (PERCENT :: h :: l :: s) (vh * 16 + vl :: d).

Lemma hex_range b v : hex b = Some v → 0 ≤ v < 16.
Proof.
  unfold hex. repeat case_match; intros; simplify_eq;
    repeat match goal with H : _ && _ = true |- _ => apply andb_true_iff in H as [?%Z.leb_le ?%Z.leb_le] end; lia.
Qed.

Lemma nibbles h l : 0 ≤ h < 16 → 0 ≤ l < 16 → Z.lor (wrap 8 (Z.shiftl h 4)) l = h * 16 + l.
Proof.
  intros Hh Hl.
  assert (Hc : forallb (λ h, forallb (λ l, Z.lor (wrap 8 (Z.shiftl h 4)) l =? h * 16 + l)
    (Z.of_nat <$> seq 0 16)) (Z.of_nat <$> seq 0 16) = true) by by vm_compute.
  rewrite forallb_elem_of in Hc. assert (∀ z, 0 ≤ z < 16 → z ∈ Z.of_nat <$> seq 0 16) as Hin.
  { intros z Hz. apply list_elem_of_fmap. exists (Z.to_nat z). split; [lia|]. apply elem_of_seq. lia. }
  specialize (Hc h (Hin h Hh)). rewrite forallb_elem_of in Hc. apply Z.eqb_eq, Hc, Hin, Hl.
Qed.

Lemma decode_loop_sound n s out d :
  (length s ≤ n)%nat → decode_loop s out = Ok d → ∃ d', d = out ++ d' ∧ decodes s d'.
Proof.
  revert s out. induction n as [|n IH]; intros s out Hn.
  - destruct s; [|simpl in Hn; lia]. intros [= <-]. exists []. rewrite app_nil_r. by repeat constructor.
  - destruct s as [|b s]; [intros [= <-]; exists []; rewrite app_nil_r; by repeat constructor|].
    cbn [decode_loop]. simpl in Hn. destruct (Z.eqb_spec b PERCENT) as [->|Hb].
    + destruct s as [|h [|l s]]; [done..|]. destruct (hex h) eqn:Eh; [|done].
      destruct (hex l) eqn:El; [|done]. simpl in Hn. intros H. apply IH in H as (d' & -> & Hd); [|lia].
      eexists. rewrite <- app_assoc. split; [done|]. rewrite nibbles by by eapply hex_range.
      by constructor.
    + intros H. apply IH in H as (d' & -> & Hd); [|lia].
      eexists. rewrite <- app_assoc. split; [done|]. by constructor.
Qed.

Lemma decode_loop_complete s d out : decodes s d → decode_loop s out = Ok (out ++ d).
Proof.
  intros Hd. revert out. induction Hd as [|b s d Hb _ IH|h l vh vl s d Hh Hl _ IH]; intros out.
  - by rewrite app_nil_r.
  - cbn [decode_loop]. rewrite (proj2 (Z.eqb_neq _ _) Hb), IH. by rewrite <- app_assoc.
  - cbn [decode_loop]. rewrite Z.eqb_refl, Hh, Hl, IH, nibbles by by eapply hex_range.
    by rewrite <- app_assoc.
Qed.

Lemma decode_loop_Err n s out e : (length s ≤ n)%nat → decode_loop s out = Err e → e = MalformedPercentEncoding.
Proof.
  revert s out. induction n as [|n IH]; intros s out Hn.
  - by destruct s; [|simpl in Hn; lia].
  - destruct s as [|b s]; [done|]. cbn [decode_loop]. simpl in Hn.
    destruct (b =? PERCENT); [|apply IH; lia].
    destruct s as [|h [|l s]]; [by intros [= <-]..|]. simpl in Hn.
    destruct (hex h); [|by intros [= <-]]. destruct (hex l); [|by intros [= <-]]. apply IH. lia.
Qed.

(** Decoding is strict: [percent_decode_segment] returns the octets that
    the text stands for by RFC 3986 when every [%] begins a well-formed
    escape, and the malformed-escape error in every other case; the octets are
    unique. *)
Theorem percent_decode_spec s :
  (∀ d, percent_decode_segment s = Ok d ↔ decodes s d) ∧
  (∀ e, percent_decode_segment s = Err e ↔ e = MalformedPercentEncoding ∧ ¬ ∃ d, decodes s d).
Proof.
  assert (H : ∀ d, percent_decode_segment s = Ok d ↔ decodes s d).
  { intros d. split.
    - intros (d' & -> & Hd)%(decode_loop_sound (length s)); [done|lia].
    - apply (decode_loop_complete s d []). }
  split; [exact H|]. intros e. split.
  - intros He. split; [by eapply (decode_loop_Err (length s))|].
    intros (d & Hd%H). by rewrite Hd in He.
  - intros [-> Hno]. destruct (percent_decode_segment s) as [d|e] eqn:E.
    + destruct Hno. exists d. by apply H.
    + f_equal. by eapply (decode_loop_Err (length s)).
Qed.

(** ** Segments *)

Definition delimiter (b : u8) : Prop := b = 47 ∨ b = 63 ∨ b = 35 ∨ b = 92.
Definition control (b : u8) : Prop := 0 ≤ b ≤ 31 ∨ b = 127.
#[local] Instance delimiter_dec b : Decision (delimiter b).
Proof. unfold delimiter. apply _. Defined.
#[local] Instance control_dec b : Decision (control b).
Proof. unfold control. apply _. Defined.

Lemma check_bytes_spec d :
  check_bytes d =
  match find_map (λ b, if decide (delimiter b) then Some EncodedDelimiter
                       else if decide (control b) then Some ControlCharacter else None) d with
  | Some e => Err e
  | None => Ok tt
  end.
Proof.
  induction d as [|b d IH]; [done|]. cbn [check_bytes find_map].
  assert (((b =? 47) || (b =? 63) || (b =? 35) || (b =? 92)) = bool_decide (delimiter b)) as ->.
  { apply eq_true_iff_eq. rewrite !orb_true_iff, !Z.eqb_eq, bool_decide_eq_true. unfold delimiter. tauto. }
  assert ((((0 <=? b) && (b <=? 31)) || (b =? 127)) = bool_decide (control b)) as ->.
  { apply eq_true_iff_eq. rewrite orb_true_iff, andb_true_iff, !Z.leb_le, Z.eqb_eq, bool_decide_eq_true.
    unfold control. tauto. }
  destruct (decide (delimiter b)); [by rewrite bool_decide_eq_true_2|].
  rewrite bool_decide_eq_false_2 by done.
  destruct (decide (control b)); [by rewrite bool_decide_eq_true_2|].
  by rewrite bool_decide_eq_false_2.
Qed.

(** A segment that names one path component, [d]: not empty, not a dot
    segment, no delimiter and no control character. *)
Definition component (s d : list u8) : Prop :=
  s ≠ [] ∧ decodes s d ∧ d ≠ [DOT] ∧ d ≠ [DOT; DOT] ∧
  ∀ b, b ∈ d → ¬ delimiter b ∧ ¬ control b.

Lemma check_segment_Ok s u : check_segment s = Ok u ↔ ∃ d, component s d.
Proof.
  destruct u. destruct (percent_decode_spec s) as [Hok Herr]. unfold check_segment, component.
  destruct s as [|b s]; [split; [done|by intros (d & [] & _)]|].
  destruct (percent_decode_segment (b :: s)) as [d|e] eqn:E; cbn [res_bind].
  2:{ split; [done|]. intros (d & _ & Hd%Hok & _). done. }
  assert (Hd : decodes (b :: s) d) by by apply Hok.
  assert (Huniq : ∀ d', decodes (b :: s) d' → d' = d).
  { intros d' H%Hok. by injection H. }
  destruct (decide (d = [DOT])) as [->|H1].
  { split; [done|]. intros (d' & _ & ->%Huniq & Hn & _). by destruct Hn. }
  destruct (decide (d = [DOT; DOT])) as [->|H2].
  { split; [done|]. intros (d' & _ & ->%Huniq & _ & Hn & _). by destruct Hn. }
  rewrite !bool_decide_eq_false_2 by done. cbn [orb]. rewrite check_bytes_spec.
  destruct (find_map _ d) eqn:Hf.
  - split; [done|]. intros (d' & _ & ->%Huniq & _ & _ & Hall).
    apply find_map_Some in Hf as (x & Hx & Hfx). destruct (Hall x Hx).
    by rewrite !decide_False in Hfx by done.
  - rewrite find_map_None in Hf. split; [|done]. intros _. exists d. split_and!; [done..|].
    intros x Hx. specialize (Hf x Hx). destruct (decide (delimiter x)); [done|].
    by destruct (decide (control x)).
Qed.

Lemma check_segments_Ok segs u : check_segments segs = Ok u ↔ ∃ ds, Forall2 component segs ds.
Proof.
  induction segs as [|s segs IH]; cbn [check_segments].
  - destruct u. split; [by exists []|done].
  - rewrite res_bind_Ok. setoid_rewrite IH. split.
    + intros (v & (d & Hd)%check_segment_Ok & ds & Hds). exists (d :: ds). by constructor.
    + intros (ds & H). inversion H as [|? d ? ds' Hd Hds]; subst. exists tt. split; [|by eexists].
      apply check_segment_Ok. by exists d.
Qed.

Lemma check_segments_Err segs e :
  check_segments segs = Err e ↔
  ∃ pre s post, segs = pre ++ s :: post ∧ check_segment s = Err e ∧
    Forall (λ s, ∃ d, component s d) pre.
Proof.
  induction segs as [|s segs IH]; cbn [check_segments].
  - split; [done|]. intros (pre & s & post & E & _). by destruct pre.
  - destruct (check_segment s) as [u|e'] eqn:Hs; cbn [res_bind].
    + rewrite IH. split.
      * intros (pre & s' & post & -> & He & Hpre). exists (s :: pre), s', post. split_and!; [done..|].
        constructor; [by eapply check_segment_Ok|done].
      * intros ([|s0 pre] & s' & post & [= -> ->] & He & Hpre); [by rewrite Hs in He|].
        exists pre, s', post. split_and!; [done..|]. by inversion Hpre.
    + split.
      * intros [= ->]. exists [], s, segs. by split_and!.
      * intros ([|s0 pre] & s' & post & [= -> ->] & He & Hpre); [congruence|].
        apply Forall_cons in Hpre as [Hpre _]. eapply (check_segment_Ok _ tt) in Hpre. congruence.
Qed.

(** ** Splitting and joining *)

Fixpoint join (c : u8) (segs : list (list u8)) : list u8 :=
  match segs with
  | [] => []
  | [s] => s
  | s :: segs => s ++ c :: join c segs
  end.

Lemma split_on_nonempty c s : ∃ seg segs, split_on c s = seg :: segs.
Proof.
  induction s as [|b s (seg & segs & IH)]; [by eexists _, _|]. simpl. rewrite IH.
  destruct (b =? c); by eexists _, _.
Qed.

Lemma join_split c s : join c (split_on c s) = s.
Proof.
  induction s as [|b s IH]; [done|]. cbn [split_on].
  destruct (split_on_nonempty c s) as (seg & segs & E). rewrite E in *.
  destruct (Z.eqb_spec b c) as [->|_]; [by cbn in *; rewrite IH|].
  destruct segs; cbn in *; by rewrite <- IH.
Qed.

Lemma split_on_app_sep c l s : c ∉ l → split_on c (l ++ c :: s) = l :: split_on c s.
Proof.
  intros Hl. induction l as [|b l IH]; [simpl; by rewrite Z.eqb_refl|].
  apply not_elem_of_cons in Hl as [Hb Hl]. cbn [split_on app].
  rewrite (proj2 (Z.eqb_neq b c)) by congruence. by rewrite IH.
Qed.

Lemma split_on_none c l : c ∉ l → split_on c l = [l].
Proof.
  intros Hl. induction l as [|b l IH]; [done|]. apply not_elem_of_cons in Hl as [Hb Hl].
  cbn [split_on]. rewrite (proj2 (Z.eqb_neq b c)) by congruence. by rewrite IH.
Qed.

Lemma split_join c segs : segs ≠ [] → Forall (λ s, c ∉ s) segs → split_on c (join c segs) = segs.
Proof.
  induction segs as [|s segs IH]; [done|]. intros _ [Hs Hsegs]%Forall_cons.
  destruct segs as [|s' segs]; [by apply split_on_none|].
  change (join c (s :: s' :: segs)) with (s ++ c :: join c (s' :: segs)).
  by rewrite split_on_app_sep, IH.
Qed.

Lemma decodes_app s1 d1 s2 d2 : decodes s1 d1 → decodes s2 d2 → decodes (s1 ++ s2) (d1 ++ d2).
Proof. induction 1; intros; simpl; try done; by constructor; auto. Qed.

Lemma decodes_join segs ds :
  Forall2 decodes segs ds → decodes (join SLASH segs) (join SLASH ds).
Proof.
  induction 1 as [|s d segs ds Hs Hsegs IH]; [constructor|].
  inversion Hsegs; subst; [done|]. change (decodes (s ++ SLASH :: join SLASH (x :: l))
    (d ++ SLASH :: join SLASH (y :: l'))).
  apply decodes_app; [done|]. by constructor.
Qed.

(** ** Properties *)

(** RFC 3986 §5.2.4 on a list of segments: [.] is dropped, [..] also drops
    the segment before it. *)
Definition remove_dot_segments (segs : list (list u8)) : list (list u8) :=
  foldl (λ out s, if bool_decide (s = [DOT]) then out
                  else if bool_decide (s = [DOT; DOT]) then removelast out
                  else out ++ [s]) [] segs.

Lemma remove_dot_segments_id segs :
  Forall (λ s, s ≠ [DOT] ∧ s ≠ [DOT; DOT]) segs → remove_dot_segments segs = segs.
Proof.
  intros H. assert (Hout : ∀ out, foldl (λ out s, if bool_decide (s = [DOT]) then out
    else if bool_decide (s = [DOT; DOT]) then removelast out else out ++ [s]) out segs = out ++ segs).
  { induction H as [|s segs [H1 H2] _ IH]; intros out; [by rewrite app_nil_r|]. cbn [foldl].
    rewrite !bool_decide_eq_false_2 by done. rewrite IH. by rewrite <- app_assoc. }
  apply Hout.
Qed.

(** What is accepted: the path is [/svc/rest] or [/api/svc/rest] and every
    segment of [rest] names a path component; [rest] is handed on unchanged. *)
Theorem validate_backend_path_Ok raw svc rest :
  validate_backend_path raw svc = Ok rest ↔
  service_path raw svc = Some rest ∧ Forall (λ s, ∃ d, component s d) (split_on SLASH rest).
Proof.
  unfold validate_backend_path. destruct (service_path raw svc) as [r|]; cbn [ok_or res_bind]; [|naive_solver].
  rewrite res_bind_Ok. split.
  - intros (u & (ds & Hds)%check_segments_Ok & [= ->]). split; [done|].
    induction Hds; constructor; eauto.
  - intros ([= ->] & H). exists tt. split; [|done]. apply check_segments_Ok.
    induction H as [|s segs (d & Hd) _ (ds & IH)]; [by exists []|]. exists (d :: ds). by constructor.
Qed.

(** C25. The backend cannot be steered: an accepted remainder means one list
    of path components, whichever way it is read.  Decoding the whole and then
    splitting at the slashes gives the same components as splitting first and
    decoding each; none is empty; and removing dot segments changes nothing. *)
Theorem accepted_path_is_canonical raw svc rest :
  validate_backend_path raw svc = Ok rest →
  ∃ whole components, percent_decode_segment rest = Ok whole ∧
    Forall2 (λ s d, percent_decode_segment s = Ok d) (split_on SLASH rest) components ∧
    split_on SLASH whole = components ∧ remove_dot_segments components = components ∧
    [] ∉ components.
Proof.
  intros (_ & H)%validate_backend_path_Ok.
  assert (Hds : ∃ ds, Forall2 component (split_on SLASH rest) ds).
  { induction H as [|s segs (d & Hd) _ (ds & IH)]; [by exists []|]. exists (d :: ds). by constructor. }
  clear H. destruct Hds as (ds & Hds).
  assert (Hdec : Forall2 decodes (split_on SLASH rest) ds).
  { eapply Forall2_impl; [exact Hds|]. by intros s d (_ & ? & _). }
  exists (join SLASH ds), ds. split_and!.
  - apply percent_decode_spec. rewrite <- (join_split SLASH rest) at 1. by apply decodes_join.
  - eapply Forall2_impl; [exact Hdec|]. intros s d Hd. by apply percent_decode_spec.
  - apply split_join.
    + destruct (split_on_nonempty SLASH rest) as (seg & segs & E). rewrite E in Hds. by inversion Hds.
    + eapply Forall2_Forall_r; [exact Hds|]. apply Forall_true. intros s d (_ & _ & _ & _ & Hb) Hin.
      destruct (Hb _ Hin) as [Hn _]. apply Hn. by left.
  - apply remove_dot_segments_id. eapply Forall2_Forall_r; [exact Hds|].
    apply Forall_true. by intros s d (_ & _ & ? & ? & _).
  - intros Hin. apply list_elem_of_lookup in Hin as (i & Hi).
    eapply Forall2_lookup_r in Hds as (s & _ & Hs & Hd & _); [|exact Hi].
    by inversion Hd; subst.
Qed.

(** The reasons for which a segment is refused. *)
Inductive refused : list u8 → PathRejection → Prop :=
| refused_empty : refused [] EmptySegment
| refused_escape s : s ≠ [] → (¬ ∃ d, decodes s d) → refused s MalformedPercentEncoding
| refused_dot s d : decodes s d → d = [DOT] ∨ d = [DOT; DOT] → refused s DotSegment
| refused_delimiter s good b bad :
    decodes s (good ++ b :: bad) → Forall (λ b, ¬ delimiter b ∧ ¬ control b) good →
    delimiter b → refused s EncodedDelimiter
| refused_control s good b bad :
    decodes s (good ++ b :: bad) → Forall (λ b, ¬ delimiter b ∧ ¬ control b) good →
    ¬ delimiter b → control b → refused s ControlCharacter.

Lemma check_bytes_Err d e :
  check_bytes d = Err e ↔ ∃ good b bad, d = good ++ b :: bad ∧
    Forall (λ b, ¬ delimiter b ∧ ¬ control b) good ∧
    ((delimiter b ∧ e = EncodedDelimiter) ∨ (¬ delimiter b ∧ control b ∧ e = ControlCharacter)).
Proof.
  rewrite check_bytes_spec. induction d as [|b d IH]; cbn [find_map].
  { split; [done|]. intros (good & b & bad & E & _). by destruct good. }
  destruct (decide (delimiter b)) as [Hd|Hd]; [|destruct (decide (control b)) as [Hc|Hc]].
  - split; [intros [= <-]; exists [], b, d; by split_and!; [..|left]|].
    intros ([|g good] & b' & bad & [= -> ->] & Hg & H); [naive_solver|].
    by apply Forall_cons in Hg as [[? _] _].
  - split; [intros [= <-]; exists [], b, d; by split_and!; [..|right]|].
    intros ([|g good] & b' & bad & [= -> ->] & Hg & H); [naive_solver|].
    by apply Forall_cons in Hg as [[_ ?] _].
  - rewrite IH. split.
    + intros (good & b' & bad & -> & Hg & H). exists (b :: good), b', bad.
      split_and!; [done| |done]. by constructor.
    + intros ([|g good] & b' & bad & [= -> ->] & Hg & H); [naive_solver|].
      apply Forall_cons in Hg as [_ Hg]. by exists good, b', bad.
Qed.

Lemma not_refused_dot (good bad : list u8) b :
  delimiter b ∨ control b → good ++ b :: bad ≠ [DOT] ∧ good ++ b :: bad ≠ [DOT; DOT].
Proof.
  intros Hb. assert (b ≠ DOT) by (intros ->; unfold delimiter, control, DOT in Hb; lia).
  split; intros E.
  - assert (b ∈ [DOT]) by (rewrite <- E; apply elem_of_app; right; apply list_elem_of_here). set_solver.
  - assert (b ∈ [DOT; DOT]) by (rewrite <- E; apply elem_of_app; right; apply list_elem_of_here). set_solver.
Qed.

Lemma check_segment_Err s e : check_segment s = Err e ↔ refused s e.
Proof.
  destruct (percent_decode_spec s) as [Hok Herr]. unfold check_segment. destruct s as [|b s].
  { split; [intros [= <-]; constructor|]. intros H. inversion H; subst; try done.
    - inversion H0; subst. by destruct H1.
    - inversion H0. by destruct good.
    - inversion H0. by destruct good. }
  destruct (percent_decode_segment (b :: s)) as [d|e'] eqn:E; cbn [res_bind].
  2:{ destruct (proj1 (Herr e') eq_refl) as [-> Hno]. split; [intros [= <-]; by constructor|].
      intros H. inversion H; subst; try done; by destruct Hno; eexists. }
  assert (Hd : decodes (b :: s) d) by by apply Hok.
  assert (Hu : ∀ d', decodes (b :: s) d' → d' = d) by (intros d' H%Hok; by injection H).
  destruct (decide (d = [DOT] ∨ d = [DOT; DOT])) as [Hdot|Hdot].
  - assert (bool_decide (d = [DOT]) || bool_decide (d = [DOT; DOT]) = true) as ->.
    { apply orb_true_iff. rewrite !bool_decide_eq_true. done. }
    split; [intros [= <-]; by econstructor|]. intros H. inversion H; subst; try done.
    + destruct H1. by exists d.
    + apply Hu in H0. subst. destruct (not_refused_dot good bad b0); naive_solver.
    + apply Hu in H0. subst. destruct (not_refused_dot good bad b0); naive_solver.
  - rewrite !bool_decide_eq_false_2 by tauto. cbn [orb]. rewrite check_bytes_Err. split.
    + intros (good & c & bad & -> & Hg & [[Hc ->]|(Hn & Hc & ->)]); by econstructor.
    + intros H. inversion H; subst; try done.
      * destruct H1. by exists d.
      * apply Hu in H0 as ->. tauto.
      * apply Hu in H0 as <-. eexists _, _, _. eauto.
      * apply Hu in H0 as <-. eexists _, _, _. eauto 6.
Qed.

(** What is refused, and why: a path outside the service's prefix, or the
    first segment that does not name a component, with that segment's own
    reason. *)
Theorem validate_backend_path_Err raw svc e :
  validate_backend_path raw svc = Err e ↔
  (service_path raw svc = None ∧ e = MissingServicePrefix) ∨
  ∃ rest pre s post, service_path raw svc = Some rest ∧ split_on SLASH rest = pre ++ s :: post ∧
    Forall (λ s, ∃ d, component s d) pre ∧ refused s e.
Proof.
  unfold validate_backend_path. destruct (service_path raw svc) as [r|]; cbn [ok_or res_bind].
  - setoid_rewrite <- check_segment_Err.
    destruct (check_segments (split_on SLASH r)) as [u|e'] eqn:Hc; cbn [res_bind].
    + split; [done|]. intros [[? _]|(? & pre & s & post & [= <-] & E & Hp & He)]; [done|].
      assert (check_segments (split_on SLASH r) = Err e); [|congruence].
      apply check_segments_Err. eauto 6.
    + split.
      * intros [= <-]. right. apply check_segments_Err in Hc as (pre & s & post & ? & ? & ?). eauto 8.
      * intros [[? _]|(? & pre & s & post & [= <-] & E & Hp & He)]; [done|].
        assert (check_segments (split_on SLASH r) = Err e) as H
          by (apply check_segments_Err; eauto 6).
        rewrite Hc in H. by injection H as ->.
  - split; [intros [= <-]; by left|]. intros [[_ ->]|(? & ? & ? & ? & ? & _)]; done.
Qed.

Lemma accepted_path_is_canonical_witness :
  ∃ whole, percent_decode_segment (bytes_of "certs/a%20b") = Ok whole ∧
    split_on SLASH whole = [bytes_of "certs"; bytes_of "a b"].
Proof.
  destruct (accepted_path_is_canonical (bytes_of "/api/ca/certs/a%20b") (bytes_of "ca") (bytes_of "certs/a%20b"))
    as (whole & components & H1 & _ & H2 & _); [reflexivity|].
  exists whole. split; [exact H1|]. vm_compute in H1. injection H1 as <-. reflexivity.
Defined.
