(* ===== verification/Algorithm.v ===== *)
(** * Key types and algorithms

    [crates/ostrich-crypto/src/algorithm.rs], the algorithms the audit
    sink refuses to sign with ([ensure_audit_signing_algorithm] of
    [crates/ostrich-audit/src/sink.rs]), and the verification of signatures with
    [verify_with_spki] of [verify.rs]. *)
From stdpp Require Import base list strings gmap.
From S2P Require Import Prelude.


Inductive KeyType :=
| Rsa2048 | Rsa3072 | Rsa4096
| EcP256 | EcP384 | EcP521
| KEd25519 | KEd448
| MlKem512 | MlKem768 | MlKem1024
| KMlDsa44 | KMlDsa65 | KMlDsa87
| KSlhDsaSha2_128s | KSlhDsaSha2_128f | KSlhDsaSha2_192s | KSlhDsaSha2_192f
| KSlhDsaSha2_256s | KSlhDsaSha2_256f.

#[export] Instance KeyType_eq_dec : EqDecision KeyType.
Proof. solve_decision. Defined.

Definition key_size_bits (k : KeyType) : nat :=
  match k with
  | Rsa2048 => 2048
  | Rsa3072 => 3072
  | Rsa4096 => 4096
  | EcP256 => 256
  | EcP384 => 384
  | EcP521 => 521
  | KEd25519 => 256
  | KEd448 => 448
  | MlKem512 => 512
  | MlKem768 => 768
  | MlKem1024 => 1024
  | KMlDsa44 => 128
  | KMlDsa65 => 192
  | KMlDsa87 => 256
  | KSlhDsaSha2_128s | KSlhDsaSha2_128f => 128
  | KSlhDsaSha2_192s | KSlhDsaSha2_192f => 192
  | KSlhDsaSha2_256s | KSlhDsaSha2_256f => 256
  end.

Definition key_is_post_quantum (k : KeyType) : bool :=
  match k with
  | MlKem512 | MlKem768 | MlKem1024 | KMlDsa44 | KMlDsa65 | KMlDsa87
  | KSlhDsaSha2_128s | KSlhDsaSha2_128f | KSlhDsaSha2_192s | KSlhDsaSha2_192f
  | KSlhDsaSha2_256s | KSlhDsaSha2_256f => true
  | _ => false
  end.

Definition is_signature_algorithm (k : KeyType) : bool :=
  match k with
  | MlKem512 | MlKem768 | MlKem1024 => false
  | _ => true
  end.

Inductive Algorithm :=
| RsaPkcs1Sha256 | RsaPkcs1Sha384 | RsaPkcs1Sha512
| RsaPssSha256 | RsaPssSha384 | RsaPssSha512
| EcdsaP256Sha256 | EcdsaP384Sha384 | EcdsaP521Sha512
| Ed25519 | Ed448
| MlDsa44 | MlDsa65 | MlDsa87
| SlhDsaSha2_128s | SlhDsaSha2_128f | SlhDsaSha2_192s | SlhDsaSha2_192f
| SlhDsaSha2_256s | SlhDsaSha2_256f
| EcdsaP256MlDsa44 | EcdsaP384MlDsa65 | Ed25519MlDsa44.

#[export] Instance Algorithm_eq_dec : EqDecision Algorithm.
Proof. solve_decision. Defined.

Definition compatible_key_types (a : Algorithm) : list KeyType :=
  match a with
  | RsaPkcs1Sha256 | RsaPkcs1Sha384 | RsaPkcs1Sha512
  | RsaPssSha256 | RsaPssSha384 | RsaPssSha512 => [Rsa2048; Rsa3072; Rsa4096]
  | EcdsaP256Sha256 => [EcP256]
  | EcdsaP384Sha384 => [EcP384]
  | EcdsaP521Sha512 => [EcP521]
  | Ed25519 => [KEd25519]
  | Ed448 => [KEd448]
  | MlDsa44 => [KMlDsa44]
  | MlDsa65 => [KMlDsa65]
  | MlDsa87 => [KMlDsa87]
  | SlhDsaSha2_128s => [KSlhDsaSha2_128s]
  | SlhDsaSha2_128f => [KSlhDsaSha2_128f]
  | SlhDsaSha2_192s => [KSlhDsaSha2_192s]
  | SlhDsaSha2_192f => [KSlhDsaSha2_192f]
  | SlhDsaSha2_256s => [KSlhDsaSha2_256s]
  | SlhDsaSha2_256f => [KSlhDsaSha2_256f]
  | EcdsaP256MlDsa44 => [EcP256; KMlDsa44]
  | EcdsaP384MlDsa65 => [EcP384; KMlDsa65]
  | Ed25519MlDsa44 => [KEd25519; KMlDsa44]
  end.

Definition is_post_quantum (a : Algorithm) : bool :=
  match a with
  | MlDsa44 | MlDsa65 | MlDsa87 | SlhDsaSha2_128s | SlhDsaSha2_128f | SlhDsaSha2_192s
  | SlhDsaSha2_192f | SlhDsaSha2_256s | SlhDsaSha2_256f => true
  | _ => false
  end.

Definition is_hybrid (a : Algorithm) : bool :=
  match a with
  | EcdsaP256MlDsa44 | EcdsaP384MlDsa65 | Ed25519MlDsa44 => true
  | _ => false
  end.

Definition algorithm_display (a : Algorithm) : string :=
  match a with
  | RsaPkcs1Sha256 => "RSA-PKCS1-SHA256"
  | RsaPkcs1Sha384 => "RSA-PKCS1-SHA384"
  | RsaPkcs1Sha512 => "RSA-PKCS1-SHA512"
  | RsaPssSha256 => "RSA-PSS-SHA256"
  | RsaPssSha384 => "RSA-PSS-SHA384"
  | RsaPssSha512 => "RSA-PSS-SHA512"
  | EcdsaP256Sha256 => "ECDSA-P256-SHA256"
  | EcdsaP384Sha384 => "ECDSA-P384-SHA384"
  | EcdsaP521Sha512 => "ECDSA-P521-SHA512"
  | Ed25519 => "Ed25519"
  | Ed448 => "Ed448"
  | MlDsa44 => "ML-DSA-44"
  | MlDsa65 => "ML-DSA-65"
  | MlDsa87 => "ML-DSA-87"
  | SlhDsaSha2_128s => "SLH-DSA-SHA2-128s"
  | SlhDsaSha2_128f => "SLH-DSA-SHA2-128f"
  | SlhDsaSha2_192s => "SLH-DSA-SHA2-192s"
  | SlhDsaSha2_192f => "SLH-DSA-SHA2-192f"
  | SlhDsaSha2_256s => "SLH-DSA-SHA2-256s"
  | SlhDsaSha2_256f => "SLH-DSA-SHA2-256f"
  | EcdsaP256MlDsa44 => "ECDSA-P256+ML-DSA-44"
  | EcdsaP384MlDsa65 => "ECDSA-P384+ML-DSA-65"
  | Ed25519MlDsa44 => "Ed25519+ML-DSA-44"
  end.

(** The sink's error: the message of [Error::Signing]. *)
Definition ensure_audit_signing_algorithm (a : Algorithm) : result unit string :=
  match a with
  | SlhDsaSha2_128s | SlhDsaSha2_128f | SlhDsaSha2_192s | SlhDsaSha2_192f
  | SlhDsaSha2_256s | SlhDsaSha2_256f =>
      Err (algorithm_display a +:+ " is not supported for audit record signing (signing runs under the audit chain lock); use ECDSA, Ed25519 or ML-DSA")
  | _ => Ok tt
  end.

(** The algorithms do not mix families by accident: every key an algorithm
    takes can sign; an algorithm is post-quantum exactly when all its keys
    are and hybrid exactly when some but not all are; two algorithms with one
    name are equal; and the audit sink refuses precisely the hash-based
    (SLH-DSA) ones, those with a key that is post-quantum but no ML-DSA key. *)
Theorem algorithm_families a :
  forallb is_signature_algorithm (compatible_key_types a) = true ∧
  is_post_quantum a = forallb key_is_post_quantum (compatible_key_types a) ∧
  is_hybrid a = existsb key_is_post_quantum (compatible_key_types a) &&
                negb (forallb key_is_post_quantum (compatible_key_types a)) ∧
  (∀ b, algorithm_display a = algorithm_display b → a = b) ∧
  (is_ok (ensure_audit_signing_algorithm a) = false ↔
   is_post_quantum a = true ∧
   Forall (λ k, k ∉ [KMlDsa44; KMlDsa65; KMlDsa87]) (compatible_key_types a)).
Proof.
  split_and!; [by destruct a..|by intros b; destruct a, b|].
  split; [destruct a; simpl; intros [=]; (split; [done|repeat constructor; set_solver])|].
  intros [Hp Hm]. destruct a; try done; exfalso; inversion Hm; set_solver.
Qed.

(** * Signature verification with a public key

    [verify_with_spki] of [crates/ostrich-crypto/src/verify.rs].  Reading the
    SubjectPublicKeyInfo is the [spki] crate's, the verification [ring]'s. *)

(** [ring]'s verification algorithms. *)
Inductive RingAlgorithm :=
| RSA_PKCS1_2048_8192_SHA256 | RSA_PKCS1_2048_8192_SHA384 | RSA_PKCS1_2048_8192_SHA512
| RSA_PSS_2048_8192_SHA256 | RSA_PSS_2048_8192_SHA384 | RSA_PSS_2048_8192_SHA512
| ECDSA_P256_SHA256_FIXED | ECDSA_P256_SHA256_ASN1
| ECDSA_P384_SHA384_FIXED | ECDSA_P384_SHA384_ASN1
| RING_ED25519.

Class VerifyLib := {
  (** The [subject_public_key], [None] when it is not a number of octets. *)
  spki_key_bytes : list u8 → result (option (list u8)) string;
  ring_verify : RingAlgorithm → list u8 → list u8 → list u8 → bool
}.

Inductive CryptoError := InvalidInput (msg : string) | UnsupportedVerification (a : Algorithm).

Definition ring_algorithm (a : Algorithm) (ecdsa_fixed : bool) : option RingAlgorithm :=
  match a, ecdsa_fixed with
  | RsaPkcs1Sha256, _ => Some RSA_PKCS1_2048_8192_SHA256
  | RsaPkcs1Sha384, _ => Some RSA_PKCS1_2048_8192_SHA384
  | RsaPkcs1Sha512, _ => Some RSA_PKCS1_2048_8192_SHA512
  | RsaPssSha256, _ => Some RSA_PSS_2048_8192_SHA256
  | RsaPssSha384, _ => Some RSA_PSS_2048_8192_SHA384
  | RsaPssSha512, _ => Some RSA_PSS_2048_8192_SHA512
  | EcdsaP256Sha256, true => Some ECDSA_P256_SHA256_FIXED
  | EcdsaP256Sha256, false => Some ECDSA_P256_SHA256_ASN1
  | EcdsaP384Sha384, true => Some ECDSA_P384_SHA384_FIXED
  | EcdsaP384Sha384, false => Some ECDSA_P384_SHA384_ASN1
  | Ed25519, _ => Some RING_ED25519
  | _, _ => None
  end.

Definition verify_with_spki `{!VerifyLib} (spki_der : list u8) (a : Algorithm)
    (data signature : list u8) (ecdsa_fixed : bool) : result bool CryptoError :=
  match spki_key_bytes spki_der with
  | Err e => Err (InvalidInput ("Invalid SubjectPublicKeyInfo: " +:+ e))
  | Ok None => Err (InvalidInput "Unaligned public key BIT STRING")
  | Ok (Some key_bytes) =>
      match ring_algorithm a ecdsa_fixed with
      | None => Err (UnsupportedVerification a)
      | Some alg => Ok (ring_verify alg key_bytes data signature)
      end
  end.
