(* ===== verification/AuditLog.v ===== *)
(** * The audit log

    [crates/ostrich-audit/src/event.rs] (events and their hash),
    [crates/ostrich-audit/src/sink.rs] ([DatabaseAuditSink]: link, hash, sign
    and store one record) and [crates/ostrich-db/src/repository/audit.rs] (the
    table, the chain lock, chain verification).

    The table is a list of rows; what SQL promises of [ORDER BY] is the class
    [SqlOrder] and what a column gives back of a value is [PgColumns]: the
    details column is JSONB, which keeps a value but not its text (a float
    written 1e16 comes back as 10000000000000000), so the details of a row
    are [pg_jsonb] of what was recorded, and nothing is assumed of it.
    SHA-256, chrono's text of an instant and serde_json's values are the
    class [AuditLib].  Every await of a database or signing step is an
    argument, the outcome the environment chose for it. *)
From S2P Require Import Prelude.
From Stdlib Require Import Ascii.
From stdpp Require Import base gmap strings sorting countable list.
#[local] Open Scope Z_scope.

(** ** Parameters *)

(** [to_rfc3339] has one form of one length from the year 0 to the year 9999:
    there no text is a proper suffix of another. *)
Definition rfc3339_range (t : DateTime) : Prop :=
  - 62167219200 * NANOS ≤ t < 253402300800 * NANOS.

Class AuditLib := {
  sha256 : list u8 → list u8;
  sha256_length b : length (sha256 b) = 32%nat;
  to_rfc3339 : DateTime → list u8;
  to_rfc3339_suffix t u x y : rfc3339_range t → rfc3339_range u →
    x ++ to_rfc3339 t = y ++ to_rfc3339 u → t = u;
  to_rfc3339_micros : DateTime → string;
  JsonValue : Type;
  JsonValue_eq_dec :: EqDecision JsonValue;
  JString : string → JsonValue;
  JObject : gmap string JsonValue → JsonValue;
  as_object : JsonValue → option (gmap string JsonValue);
  as_object_JObject m : as_object (JObject m) = Some m;
  json_to_string : JsonValue → option string
}.

Definition str_bytes (s : string) : list u8 :=
  (λ c, Z.of_N (N_of_ascii c)) <$> String.list_ascii_of_string s.

(** [Uuid::as_bytes]: 16 bytes, most significant first. *)
Definition uuid_bytes (id : Uuid) : list u8 :=
  (λ i, Z.shiftr (Z.of_N id) (8 * (15 - Z.of_nat i)) mod 256) <$> seq 0 16.

(** ** Events *)

Inductive EventType :=
| Authentication | Authorization | CertificateIssuance | CertificateRevocation | CrlGeneration
| KeyGeneration | KeyEscrow | KeyRecovery | KeyDestruction | ConfigurationChange
| AccessViolation | TokenLifecycle | AcmeProtocol | EstProtocol | OcspProtocol
| TampProtocol | System | Database | Other.

Definition is_security_relevant (t : EventType) : bool :=
  match t with
  | Authentication | Authorization | AccessViolation | KeyGeneration | KeyEscrow
  | KeyRecovery | KeyDestruction | CertificateRevocation => true
  | _ => false
  end.

Definition event_type_str (t : EventType) : string :=
  match t with
  | Authentication => "authentication"
  | Authorization => "authorization"
  | CertificateIssuance => "certificate_issuance"
  | CertificateRevocation => "certificate_revocation"
  | CrlGeneration => "crl_generation"
  | KeyGeneration => "key_generation"
  | KeyEscrow => "key_escrow"
  | KeyRecovery => "key_recovery"
  | KeyDestruction => "key_destruction"
  | ConfigurationChange => "configuration_change"
  | AccessViolation => "access_violation"
  | TokenLifecycle => "token_lifecycle"
  | AcmeProtocol => "acme_protocol"
  | EstProtocol => "est_protocol"
  | OcspProtocol => "ocsp_protocol"
  | TampProtocol => "tamp_protocol"
  | System => "system"
  | Database => "database"
  | Other => "other"
  end.

Inductive EventOutcome := Success | Failure | EError.

#[export] Instance EventType_eq_dec : EqDecision EventType.
Proof. solve_decision. Defined.
#[export] Instance EventOutcome_eq_dec : EqDecision EventOutcome.
Proof. solve_decision. Defined.

Definition outcome_str (o : EventOutcome) : string :=
  match o with
  | Success => "success"
  | Failure => "failure"
  | EError => "error"
  end.

Section Audit.
Context `{!AuditLib}.

(** [ostrich_audit::AuditEvent]. *)
Record AuditEvent := {
  id : Uuid;
  event_type : EventType;
  actor : string;
  target : string;
  action : string;
  outcome : EventOutcome;
  details : option JsonValue;
  ip_address : option string;
  user_agent : option string;
  session_id : option string;
  previous_hash : option (list u8);
  event_hash : list u8;
  timestamp : DateTime;
  signature : option (list u8);
  signing_key_id : option string
}.

(** [ostrich_db::models::AuditEvent], a row of [audit_events]. *)
Record AuditRow := {
  r_id : Uuid;
  r_event_type : string;
  r_actor : string;
  r_target : string;
  r_action : string;
  r_outcome : string;
  r_details : option JsonValue;
  r_ip_address : option string;
  r_user_agent : option string;
  r_session_id : option string;
  r_previous_hash : option (list u8);
  r_event_hash : list u8;
  r_timestamp : DateTime;
  r_signature : option (list u8);
  r_signing_key_id : option string
}.

#[export] Instance AuditEvent_eq_dec : EqDecision AuditEvent.
Proof. solve_decision. Defined.
#[export] Instance AuditRow_eq_dec : EqDecision AuditRow.
Proof. solve_decision. Defined.

Definition set_chain (e : AuditEvent) (prev : option (list u8)) (hash : list u8)
    (ts : DateTime) (d : option JsonValue) : AuditEvent :=
  {| id := id e; event_type := event_type e; actor := actor e; target := target e;
     action := action e; outcome := outcome e; details := d; ip_address := ip_address e;
     user_agent := user_agent e; session_id := session_id e; previous_hash := prev;
     event_hash := hash; timestamp := ts; signature := signature e;
     signing_key_id := signing_key_id e |}.
Definition with_timestamp e ts :=
  set_chain e (previous_hash e) (event_hash e) ts (details e).
Definition with_previous_hash e p := set_chain e p (event_hash e) (timestamp e) (details e).
Definition with_event_hash e h := set_chain e (previous_hash e) h (timestamp e) (details e).
Definition with_details e d :=
  set_chain e (previous_hash e) (event_hash e) (timestamp e) d.
Definition with_signature (e : AuditEvent) (sig : list u8) (label : string) : AuditEvent :=
  {| id := id e; event_type := event_type e; actor := actor e; target := target e;
     action := action e; outcome := outcome e; details := details e;
     ip_address := ip_address e; user_agent := user_agent e; session_id := session_id e;
     previous_hash := previous_hash e; event_hash := event_hash e; timestamp := timestamp e;
     signature := Some sig; signing_key_id := Some label |}.

(** *** The hash of a record

    [hasher.update] of an absent option, and of details that do not
    serialise, adds nothing. *)
Definition opt_bytes (o : option string) : list u8 := from_option str_bytes [] o.
Definition json_bytes (o : option JsonValue) : list u8 := opt_bytes (o ≫= json_to_string).

Definition compute_hash (e : AuditEvent) : list u8 :=
  sha256 (uuid_bytes (id e) ++ str_bytes (event_type_str (event_type e)) ++
          str_bytes (actor e) ++ str_bytes (target e) ++ str_bytes (action e) ++
          str_bytes (outcome_str (outcome e)) ++ json_bytes (details e) ++
          opt_bytes (ip_address e) ++ opt_bytes (user_agent e) ++ opt_bytes (session_id e) ++
          default [] (previous_hash e) ++ to_rfc3339 (timestamp e)).

(** What the hash of a row covers before its link and its time. *)
Definition row_body (r : AuditRow) : list u8 :=
  uuid_bytes (r_id r) ++ str_bytes (r_event_type r) ++
  str_bytes (r_actor r) ++ str_bytes (r_target r) ++ str_bytes (r_action r) ++
  str_bytes (r_outcome r) ++ json_bytes (r_details r) ++
  opt_bytes (r_ip_address r) ++ opt_bytes (r_user_agent r) ++ opt_bytes (r_session_id r).
Definition row_preimage (r : AuditRow) : list u8 :=
  row_body r ++ default [] (r_previous_hash r) ++ to_rfc3339 (r_timestamp r).
Definition compute_event_hash (r : AuditRow) : list u8 := sha256 (row_preimage r).

Definition to_db_model (e : AuditEvent) : AuditRow :=
  {| r_id := id e; r_event_type := event_type_str (event_type e); r_actor := actor e;
     r_target := target e; r_action := action e; r_outcome := outcome_str (outcome e);
     r_details := details e; r_ip_address := ip_address e; r_user_agent := user_agent e;
     r_session_id := session_id e; r_previous_hash := previous_hash e;
     r_event_hash := event_hash e; r_timestamp := timestamp e;
     r_signature := signature e; r_signing_key_id := signing_key_id e |}.

Definition event_type_table : list (string * EventType) :=
  [("authentication", Authentication); ("authorization", Authorization);
   ("certificate_issuance", CertificateIssuance);
   ("certificate_revocation", CertificateRevocation); ("crl_generation", CrlGeneration);
   ("key_generation", KeyGeneration); ("key_escrow", KeyEscrow);
   ("key_recovery", KeyRecovery); ("key_destruction", KeyDestruction);
   ("configuration_change", ConfigurationChange); ("access_violation", AccessViolation);
   ("token_lifecycle", TokenLifecycle); ("acme_protocol", AcmeProtocol);
   ("est_protocol", EstProtocol); ("ocsp_protocol", OcspProtocol);
   ("tamp_protocol", TampProtocol); ("system", System); ("database", Database)].

Definition from_db_model (r : AuditRow) : AuditEvent :=
  {| id := r_id r;
     event_type := default Other (table_lookup (r_event_type r) event_type_table);
     actor := r_actor r; target := r_target r; action := r_action r;
     outcome := default EError
       (table_lookup (r_outcome r) [("success", Success); ("failure", Failure)]);
     details := r_details r; ip_address := r_ip_address r; user_agent := r_user_agent r;
     session_id := r_session_id r; previous_hash := r_previous_hash r;
     event_hash := r_event_hash r; timestamp := r_timestamp r;
     signature := r_signature r; signing_key_id := r_signing_key_id r |}.

(** ** The time of a record *)

(** [trunc_subsecs(6)]. *)
Definition trunc_micros (t : DateTime) : DateTime := t - t mod 1000.

Definition chain_timestamp (timestamp : DateTime) (head : option DateTime) : DateTime :=
  match head with
  | Some head => if timestamp <=? head then head + 1000 else timestamp
  | None => timestamp
  end.

Definition OCCURRED_AT_DETAIL : string := "occurred_at".
Definition CALLER_OCCURRED_AT_DETAIL : string := "caller_occurred_at".

(** The caller's [occurred_at], when it is not the sink's, moves aside. *)
Definition reserve_occurred_at (occurred_at : option JsonValue)
    (d : option JsonValue) : option JsonValue :=
  match d with
  | Some v =>
      match as_object v with
      | Some map =>
          match map !! OCCURRED_AT_DETAIL with
          | Some caller =>
              let map := delete OCCURRED_AT_DETAIL map in
              Some (JObject (if decide (Some caller = occurred_at) then map
                             else <[CALLER_OCCURRED_AT_DETAIL := caller]> map))
          | None => d
          end
      | None => d
      end
  | None => d
  end.

Definition insert_occurred_at (occurred_at : JsonValue) (d : option JsonValue) : JsonValue :=
  match d with
  | Some v =>
      match as_object v with
      | Some map => JObject (<[OCCURRED_AT_DETAIL := occurred_at]> map)
      | None => JObject {[OCCURRED_AT_DETAIL := occurred_at; "details" := v]}
      end
  | None => JObject {[OCCURRED_AT_DETAIL := occurred_at]}
  end.

Definition apply_chain_timestamp (event : AuditEvent) (head : option DateTime) : AuditEvent :=
  let original := timestamp event in
  let event := with_timestamp event (chain_timestamp original head) in
  let occurred_at :=
    if timestamp event =? original then None
    else Some (JString (to_rfc3339_micros original)) in
  let event := with_details event (reserve_occurred_at occurred_at (details event)) in
  match occurred_at with
  | None => event
  | Some at_ => with_details event (Some (insert_occurred_at at_ (details event)))
  end.

(** ** The table and its chain lock *)

(** What a column gives back of the value bound to it, and the message of a
    primary key violation. *)
Class PgColumns := {
  pg_timestamptz : DateTime → DateTime;
  pg_timestamptz_micros t : t mod 1000 = 0 → pg_timestamptz t = t;
  pg_jsonb : JsonValue → JsonValue;
  duplicate_key : Uuid → string
}.

Definition ts_le (a b : AuditRow) : Prop := r_timestamp a ≤ r_timestamp b.
Definition ts_lt (a b : AuditRow) : Prop := r_timestamp a < r_timestamp b.

(** [ORDER BY timestamp ASC], and [ORDER BY timestamp DESC LIMIT 1]; the
    order among equal times is the server's. *)
Class SqlOrder := {
  order_by_timestamp : list AuditRow → list AuditRow;
  order_by_timestamp_perm l : order_by_timestamp l ≡ₚ l;
  order_by_timestamp_sorted l : StronglySorted ts_le (order_by_timestamp l);
  latest : list AuditRow → option AuditRow;
  latest_None l : latest l = None ↔ l = [];
  latest_Some l r : latest l = Some r → r ∈ l ∧ ∀ r', r' ∈ l → ts_le r' r
}.

Context `{!PgColumns, !SqlOrder}.

Inductive DbError := Query (msg : string) | ConstraintViolation (msg : string).

Inductive Error :=
| DatabaseError (e : DbError)
| Signing (msg : string)
| Timeout (what : string).

Record AuditAppendTx := {
  tx_previous_hash : option (list u8);
  tx_previous_timestamp : option DateTime
}.

(** The head read of [begin_append]. *)
Definition begin_append (rows : list AuditRow) : AuditAppendTx :=
  {| tx_previous_hash := r_event_hash <$> latest rows;
     tx_previous_timestamp := r_timestamp <$> latest rows |}.

Definition stored (r : AuditRow) : AuditRow :=
  {| r_id := r_id r; r_event_type := r_event_type r; r_actor := r_actor r;
     r_target := r_target r; r_action := r_action r; r_outcome := r_outcome r;
     r_details := pg_jsonb <$> r_details r; r_ip_address := r_ip_address r;
     r_user_agent := r_user_agent r; r_session_id := r_session_id r;
     r_previous_hash := r_previous_hash r; r_event_hash := r_event_hash r;
     r_timestamp := pg_timestamptz (r_timestamp r); r_signature := r_signature r;
     r_signing_key_id := r_signing_key_id r |}.

(** How the server answers the insert and the commit.  A commit that fails
    for the client may have been applied by the server. *)
Inductive CommitRun :=
| Committed
| InsertFailed (msg : string)
| CommitFailed (msg : string) (applied : bool).

Definition insert (r : AuditRow) (run : CommitRun) (rows : list AuditRow)
    : result AuditRow DbError :=
  match run with
  | InsertFailed msg => Err (Query msg)
  | _ => if contains (r_id r) (r_id <$> rows) then Err (Query (duplicate_key (r_id r)))
         else Ok (stored r)
  end.

(** [AuditAppendTx::commit], with the table it leaves. *)
Definition commit (tx : AuditAppendTx) (event : AuditRow) (run : CommitRun)
    (rows : list AuditRow) : result AuditRow DbError * list AuditRow :=
  if negb (bool_decide (r_previous_hash event = tx_previous_hash tx)) then
    (Err (ConstraintViolation "audit record does not link to the current chain head"), rows)
  else if match tx_previous_timestamp tx with
          | Some head => r_timestamp event <=? head
          | None => false
          end then
    (Err (ConstraintViolation
            "audit record timestamp is not after the current chain head"), rows)
  else
    match insert event run rows with
    | Err e => (Err e, rows)
    | Ok created =>
        match run with
        | CommitFailed msg applied =>
            (Err (Query msg), if applied then rows ++ [created] else rows)
        | _ => (Ok created, rows ++ [created])
        end
    end.

(** ** Recording one event *)

(** [tokio::time::timeout]. *)
Inductive Timed (A : Type) := InTime (x : A) | TimedOut.
Arguments InTime {A} x.
Arguments TimedOut {A}.

Inductive SignRun := Returned (r : result (list u8) string) | JoinFailed.

(** How each bounded wait of one [record] ends: the lock (with the error of
    the connection or lock, if any), the signature of a hash, the commit
    (which may be applied although the client stopped waiting). *)
Record RecordEnv := {
  env_begin : Timed (option string);
  env_sign : list u8 → Timed SignRun;
  env_commit : CommitRun;
  env_commit_timeout : bool
}.

(** [alert_audit_write_failure] and [alert_audit_commit_outcome_unknown]. *)
Record Alert := { a_stage : string; a_unknown : bool }.

Record World := { w_rows : list AuditRow; w_alerts : list Alert; w_event : AuditEvent }.
Definition modify_event (f : AuditEvent → AuditEvent) : Exec World unit Error :=
  exec_modify (λ w, {| w_rows := w_rows w; w_alerts := w_alerts w; w_event := f (w_event w) |}).
Definition set_rows (rows : list AuditRow) : Exec World unit Error :=
  exec_modify (λ w, {| w_rows := rows; w_alerts := w_alerts w; w_event := w_event w |}).

(** Raise the alert and return the error. *)
Definition alert_fail {A} (stage : string) (unknown : bool) (e : Error) : Exec World A Error :=
  let* _ := exec_modify (λ w, {| w_rows := w_rows w;
    w_alerts := w_alerts w ++ [{| a_stage := stage; a_unknown := unknown |}];
    w_event := w_event w |}) in
  exec_fail e.

Definition begin_bounded (run : Timed (option string)) : Exec World AuditAppendTx Error :=
  match run with
  | InTime None => let* w := exec_get in exec_ret (begin_append (w_rows w))
  | InTime (Some msg) => alert_fail "begin_append" false (DatabaseError (Query msg))
  | TimedOut => alert_fail "begin_append" false (Timeout "waiting for the audit chain lock")
  end.

Definition sign_bounded (run : list u8 → Timed SignRun) (hash : list u8)
    : result (list u8) Error :=
  match run hash with
  | InTime (Returned (Ok signature)) => Ok signature
  | InTime (Returned (Err e)) => Err (Signing ("Failed to sign audit record: " +:+ e))
  | InTime JoinFailed => Err (Signing "audit signing task failed (panicked or cancelled)")
  | TimedOut => Err (Timeout "signing the audit record")
  end.

Definition link_event (tx : AuditAppendTx) (event : AuditEvent) : AuditEvent :=
  let event := with_previous_hash event (tx_previous_hash tx) in
  let event := apply_chain_timestamp event (tx_previous_timestamp tx) in
  with_event_hash event (compute_hash event).

(** [signer] is the label of the configured signing key, if there is one. *)
Definition sign_event (signer : option string) (run : list u8 → Timed SignRun)
    : Exec World unit Error :=
  match signer with
  | None => exec_ret tt
  | Some key_label =>
      let* w := exec_get in
      match sign_bounded run (event_hash (w_event w)) with
      | Err e => alert_fail "sign" false e
      | Ok signature => modify_event (λ e, with_signature e signature key_label)
      end
  end.

Definition commit_bounded (run : CommitRun) (timeout : bool) (tx : AuditAppendTx)
    : Exec World unit Error :=
  let* w := exec_get in
  let (r, rows) := commit tx (to_db_model (w_event w)) run (w_rows w) in
  let* _ := set_rows rows in
  if timeout then alert_fail "commit" true (Timeout "committing the audit record")
  else match r with
       | Ok _ => exec_ret tt
       | Err e => alert_fail "commit" false (DatabaseError e)
       end.

(** [DatabaseAuditSink::record]. *)
Definition record (signer : option string) (env : RecordEnv) : Exec World unit Error :=
  let* _ := modify_event (λ e, with_timestamp e (trunc_micros (timestamp e))) in
  let* tx := begin_bounded (env_begin env) in
  let* _ := modify_event (link_event tx) in
  let* _ := sign_event signer (env_sign env) in
  commit_bounded (env_commit env) (env_commit_timeout env) tx.

(** ** Verification *)

Fixpoint check_chain (prev_hash : option (list u8)) (events : list AuditRow) : bool :=
  match events with
  | [] => true
  | event :: events =>
      if negb (bool_decide (r_previous_hash event = prev_hash)) then false
      else if negb (bool_decide (compute_event_hash event = r_event_hash event)) then false
      else check_chain (Some (r_event_hash event)) events
  end.

(** The fetch of all rows, or the error of the database. *)
Definition all_events_ordered (fetch : option string) (rows : list AuditRow)
    : result (list AuditRow) DbError :=
  match fetch with
  | Some msg => Err (Query msg)
  | None => Ok (order_by_timestamp rows)
  end.

Definition verify_chain (fetch : option string) (rows : list AuditRow) : result bool DbError :=
  let? events := all_events_ordered fetch rows in
  Ok (check_chain None events).

Definition map_err {A} (r : result A DbError) : result A Error :=
  match r with Ok x => Ok x | Err e => Err (DatabaseError e) end.

Definition verify_integrity (fetch : option string) (rows : list AuditRow)
    : result bool Error := map_err (verify_chain fetch rows).

(** [ostrich_crypto::verify_with_spki] for the key and algorithm at hand:
    the hash, the signature. *)
Section signed.
Context (verify_with_spki : list u8 → list u8 → result bool string).

Fixpoint check_signatures (events : list AuditRow) : result bool Error :=
  match events with
  | [] => Ok true
  | event :: events =>
      match r_signature event with
      | None => check_signatures events
      | Some sig =>
          match verify_with_spki (r_event_hash event) sig with
          | Err e => Err (Signing ("Audit signature verify error: " +:+ e))
          | Ok false => Ok false
          | Ok true => check_signatures events
          end
      end
  end.

Definition verify_signed_chain (fetch1 fetch2 : option string) (rows : list AuditRow)
    : result bool Error :=
  let? intact := map_err (verify_chain fetch1 rows) in
  if negb intact then Ok false
  else
    let? events := map_err (all_events_ordered fetch2 rows) in
    check_signatures events.
End signed.

(** ** Many writers

    The rows and the holder of the advisory lock, with the head it read. *)
Record Chain := { c_rows : list AuditRow; c_lock : option (nat * AuditAppendTx) }.

(** The details a column gives back unchanged, and the weaker thing the
    verifier needs: the hash over what the column gives back is the hash
    that was taken before the insert. *)
Definition jsonb_exact (e : AuditEvent) : Prop := pg_jsonb <$> details e = details e.
#[export] Instance jsonb_exact_dec e : Decision (jsonb_exact e).
Proof. unfold jsonb_exact. apply _. Defined.
Definition hash_survives (e : AuditEvent) : bool :=
  bool_decide (compute_hash (with_details e (pg_jsonb <$> details e)) = event_hash e).

Definition signed_by (signer : option string) (run : list u8 → Timed SignRun)
    (e : AuditEvent) : option AuditEvent :=
  match signer with
  | None => Some e
  | Some key_label =>
      match sign_bounded run (event_hash e) with
      | Ok sig => Some (with_signature e sig key_label)
      | Err _ => None
      end
  end.

(** One step of some writer: take the free lock and read the head, commit
    a linked and signed event, or let go of the lock (an error, a timeout,
    a killed session). *)
Inductive chain_step (signer : option string) : Chain → Chain → Prop :=
| step_begin writer rows :
    chain_step signer {| c_rows := rows; c_lock := None |}
      {| c_rows := rows; c_lock := Some (writer, begin_append rows) |}
| step_commit writer tx rows event sign_run sealed run :
    timestamp event mod 1000 = 0 →
    signed_by signer sign_run (link_event tx event) = Some sealed →
    chain_step signer {| c_rows := rows; c_lock := Some (writer, tx) |}
      {| c_rows := (commit tx (to_db_model sealed) run rows).2; c_lock := None |}
| step_drop writer tx rows :
    chain_step signer {| c_rows := rows; c_lock := Some (writer, tx) |}
      {| c_rows := rows; c_lock := None |}.

(** ** Lemmas *)

Lemma from_to_db_model e : from_db_model (to_db_model e) = e.
Proof. destruct e as [? ty ? ? ? oc]. by destruct ty, oc. Qed.

Lemma compute_event_hash_to_db e : compute_event_hash (to_db_model e) = compute_hash e.
Proof. unfold compute_event_hash, row_preimage, row_body, compute_hash. simpl.
  by rewrite <- !app_assoc. Qed.

Lemma trunc_micros_mod t : trunc_micros t mod 1000 = 0.
Proof. unfold trunc_micros. rewrite Zminus_mod_idemp_r, Z.sub_diag. done. Qed.

Lemma chain_timestamp_mod t head :
  t mod 1000 = 0 → from_option (λ h, h mod 1000 = 0) True head →
  chain_timestamp t head mod 1000 = 0.
Proof.
  destruct head as [h|]; simpl; [|done]. intros Ht Hh. destruct (t <=? h); [|done].
  rewrite Z.add_mod, Hh by done. done.
Qed.

Lemma chain_timestamp_later t head : from_option (λ h, h < chain_timestamp t head) True head.
Proof. destruct head as [h|]; simpl; [|done]. destruct (Z.leb_spec t h); lia. Qed.

(** What linking leaves of the event. *)
Lemma link_event_fields tx e :
  let e' := link_event tx e in
  id e' = id e ∧ previous_hash e' = tx_previous_hash tx ∧
  timestamp e' = chain_timestamp (timestamp e) (tx_previous_timestamp tx) ∧
  event_hash e' = compute_hash e'.
Proof.
  unfold link_event, apply_chain_timestamp. cbv zeta.
  destruct (_ =? _); simpl; split_and!; reflexivity.
Qed.

Lemma signed_by_fields signer run e e' :
  signed_by signer run e = Some e' →
  id e' = id e ∧ previous_hash e' = previous_hash e ∧ timestamp e' = timestamp e ∧
  event_hash e' = event_hash e ∧ compute_hash e' = compute_hash e ∧ details e' = details e.
Proof. unfold signed_by. intros Hs. split_matches; naive_solver. Qed.

(** The row an event leaves in the table. *)
Definition appended (e : AuditEvent) : AuditRow := stored (to_db_model e).

Lemma appended_hash e :
  timestamp e mod 1000 = 0 →
  compute_event_hash (appended e) = compute_hash (with_details e (pg_jsonb <$> details e)).
Proof.
  intros Ht. rewrite <- compute_event_hash_to_db. unfold appended, stored. simpl.
  rewrite pg_timestamptz_micros by done. done.
Qed.

Lemma jsonb_exact_survives e :
  jsonb_exact e → event_hash e = compute_hash e → hash_survives e = true.
Proof.
  unfold jsonb_exact, hash_survives. intros -> Hh. apply bool_decide_eq_true.
  rewrite Hh. by destruct e.
Qed.

(** *** Order *)

Lemma ts_sorted_inj l x y :
  StronglySorted ts_lt l → x ∈ l → y ∈ l → r_timestamp x = r_timestamp y → x = y.
Proof.
  intros Hs (l1 & l2 & ->)%list_elem_of_split Hy He.
  apply elem_of_app in Hy as [Hy|[->|Hy]%elem_of_cons]; [|done|]; exfalso.
  - assert (ts_lt y x) as H'; [|unfold ts_lt in H'; lia].
    apply (StronglySorted_app_1_elem_of ts_lt l1 (x :: l2)); [done|done|set_solver].
  - rewrite cons_middle, app_assoc in Hs.
    assert (ts_lt x y) as H'; [|unfold ts_lt in H'; lia].
    apply (StronglySorted_app_1_elem_of ts_lt (l1 ++ [x]) l2); [done|set_solver|done].
Qed.

Lemma ts_sorted_last l x y :
  StronglySorted ts_lt l → last l = Some y → x ∈ l → x = y ∨ ts_lt x y.
Proof.
  intros Hs [l' ->]%last_Some [Hx|Hx%list_elem_of_singleton]%elem_of_app; [right|by left].
  apply (StronglySorted_app_1_elem_of ts_lt l' [y]); [done|done|set_solver].
Qed.

Lemma order_sorted_rows rows : StronglySorted ts_lt rows → order_by_timestamp rows = rows.
Proof.
  intros Hs. apply StronglySorted_unique_strong with ts_le.
  - intros x y Hx Hy Hxy Hyx. rewrite order_by_timestamp_perm in Hx.
    apply (ts_sorted_inj rows); [done..|]. unfold ts_le in *. lia.
  - apply order_by_timestamp_sorted.
  - clear -Hs. induction Hs as [|x l Hs IH Hx]; constructor; [done|].
    eapply Forall_impl; [exact Hx|]. unfold ts_le, ts_lt. lia.
  - apply order_by_timestamp_perm.
Qed.

Lemma latest_sorted_rows rows : StronglySorted ts_lt rows → latest rows = last rows.
Proof.
  intros Hs. destruct (latest rows) as [r|] eqn:Hr.
  - apply latest_Some in Hr as [Hin Hmax]. destruct (last rows) as [x|] eqn:Hx.
    + destruct (ts_sorted_last _ _ _ Hs Hx Hin) as [->|Hlt]; [done|]. exfalso.
      specialize (Hmax x (last_Some_elem_of _ _ Hx)). unfold ts_le, ts_lt in *. lia.
    + apply last_None in Hx as ->. set_solver.
  - apply latest_None in Hr as ->. done.
Qed.

Lemma ts_sorted_snoc rows r :
  StronglySorted ts_lt rows → from_option (λ x, ts_lt x r) True (last rows) →
  StronglySorted ts_lt (rows ++ [r]).
Proof.
  intros Hs Hl. apply StronglySorted_app_2; [|done|repeat constructor].
  intros x y Hx ->%list_elem_of_singleton. destruct (last rows) as [z|] eqn:Hz.
  - simpl in Hl. destruct (ts_sorted_last _ _ _ Hs Hz Hx) as [->|]; [done|].
    unfold ts_lt in *. lia.
  - apply last_None in Hz as ->. set_solver.
Qed.

(** *** The chain *)

Lemma check_chain_app prev l1 l2 :
  check_chain prev (l1 ++ l2) =
  check_chain prev l1 && check_chain (from_option (λ r, Some (r_event_hash r)) prev (last l1)) l2.
Proof.
  revert prev. induction l1 as [|x l1 IH]; intros prev; [done|]. simpl.
  destruct (bool_decide _); [|done]. destruct (bool_decide _); [|done]. simpl. rewrite IH.
  by destruct l1 as [|y l1 _] using rev_ind; [|rewrite app_comm_cons, !last_snoc].
Qed.

Lemma check_chain_cons prev r l :
  check_chain prev (r :: l) = true ↔
  r_previous_hash r = prev ∧ compute_event_hash r = r_event_hash r ∧
  check_chain (Some (r_event_hash r)) l = true.
Proof. simpl. repeat case_bool_decide; naive_solver. Qed.

(** A chain of events, each with the hash of the one before and its own. *)
Fixpoint linked (prev : option (list u8)) (events : list AuditEvent) : Prop :=
  match events with
  | [] => True
  | e :: events => previous_hash e = prev ∧ event_hash e = compute_hash e ∧
                   linked (Some (event_hash e)) events
  end.

Lemma linked_snoc prev l e :
  linked prev (l ++ [e]) ↔ linked prev l ∧
    previous_hash e = from_option (λ x, Some (event_hash x)) prev (last l) ∧
    event_hash e = compute_hash e.
Proof.
  revert prev. induction l as [|x l IH]; intros prev; simpl; [tauto|].
  rewrite IH. destruct l as [|y l _] using rev_ind; [simpl; tauto|].
  rewrite app_comm_cons, !last_snoc. simpl. tauto.
Qed.

(** The verifier accepts a linked log exactly when no hash changed in the
    columns. *)
Lemma check_chain_linked prev events :
  linked prev events → Forall (λ e, timestamp e mod 1000 = 0) events →
  check_chain prev (appended <$> events) = forallb hash_survives events.
Proof.
  revert prev. induction events as [|e events IH]; intros prev; [done|].
  intros (Hp & Hh & Hl) [Ht Hts]%Forall_cons. cbn [fmap list_fmap check_chain forallb].
  rewrite appended_hash by done. unfold hash_survives at 1. cbn [appended stored to_db_model
    r_previous_hash r_event_hash]. rewrite bool_decide_eq_true_2 by done. simpl.
  case_bool_decide; [|done]. simpl. by apply IH.
Qed.

Lemma linked_survives prev events :
  linked prev events → Forall jsonb_exact events → forallb hash_survives events.
Proof.
  revert prev. induction events as [|e events IH]; intros prev; [done|].
  intros (_ & Hh & Hl) [Hj Hjs]%Forall_cons. simpl.
  rewrite jsonb_exact_survives by done. by eapply IH.
Qed.

(** An event that some writer linked to a head and signed. *)
Definition sealed_event (signer : option string) (e : AuditEvent) : Prop :=
  ∃ tx event sign_run, timestamp event mod 1000 = 0 ∧
    signed_by signer sign_run (link_event tx event) = Some e.

(** The table in the order of its appends: rows of linked events, each of
    some writer, at strictly later times in microseconds. *)
Definition chain_inv (signer : option string) (rows : list AuditRow) : Prop :=
  ∃ events, rows = appended <$> events ∧ StronglySorted ts_lt rows ∧
    Forall (λ e, timestamp e mod 1000 = 0) events ∧ linked None events ∧
    Forall (sealed_event signer) events.

Lemma chain_inv_nil signer : chain_inv signer [].
Proof. exists []. repeat constructor. Qed.

Lemma appended_timestamp e : timestamp e mod 1000 = 0 → r_timestamp (appended e) = timestamp e.
Proof. intros Ht. simpl. by apply pg_timestamptz_micros. Qed.

Lemma chain_inv_snoc signer rows e :
  chain_inv signer rows → previous_hash e = r_event_hash <$> last rows →
  event_hash e = compute_hash e → timestamp e mod 1000 = 0 → sealed_event signer e →
  from_option (λ x, r_timestamp x < timestamp e) True (last rows) →
  chain_inv signer (rows ++ [appended e]).
Proof.
  intros (events & -> & Hs & Hm & Hc & Hw) Hp Hh Ht Hse Hlt. exists (events ++ [e]). split_and!.
  - by rewrite fmap_app.
  - apply ts_sorted_snoc; [done|]. unfold ts_lt. by rewrite appended_timestamp.
  - apply Forall_app_2; [done|]. by constructor.
  - apply linked_snoc. split_and!; [done| |done]. rewrite Hp, fmap_last. by destruct (last events).
  - apply Forall_app_2; [done|]. by constructor.
Qed.

Lemma begin_append_inv signer rows : chain_inv signer rows →
  begin_append rows = {| tx_previous_hash := r_event_hash <$> last rows;
                         tx_previous_timestamp := r_timestamp <$> last rows |}.
Proof. intros (events & _ & Hs & _). unfold begin_append. by rewrite latest_sorted_rows. Qed.

Lemma chain_inv_last signer rows : chain_inv signer rows →
  from_option (λ h, h mod 1000 = 0) True (r_timestamp <$> last rows).
Proof.
  intros (events & -> & _ & Hm & _). rewrite fmap_last.
  destruct (last events) as [e|] eqn:He; [|done]. cbn [fmap option_fmap option_map from_option].
  apply last_Some_elem_of in He. rewrite Forall_forall in Hm.
  rewrite appended_timestamp; by apply Hm.
Qed.

(** The sealed record of a writer: what it is relative to the head. *)
Definition sealed_for (tx : AuditAppendTx) (e : AuditEvent) : Prop :=
  previous_hash e = tx_previous_hash tx ∧
  from_option (λ h, h < timestamp e) True (tx_previous_timestamp tx) ∧
  event_hash e = compute_hash e.

Lemma link_event_sealed tx e : sealed_for tx (link_event tx e).
Proof.
  destruct (link_event_fields tx e) as (_ & Hp & Ht & Hh). split_and!; [done| |done].
  rewrite Ht. apply chain_timestamp_later.
Qed.

Lemma signed_sealed tx signer run e e' :
  signed_by signer run e = Some e' → sealed_for tx e → sealed_for tx e'.
Proof.
  intros (_ & Hp & Ht & Hh & Hc & _)%signed_by_fields (Hp' & Ht' & Hh').
  unfold sealed_for. by rewrite Hp, Ht, Hh, Hc.
Qed.

(** The commit of a sealed event passes the checks of the repository; what
    can fail is the insert, or the commit itself. *)
Lemma commit_sealed tx e run rows :
  sealed_for tx e →
  (∃ err, commit tx (to_db_model e) run rows = (Err (Query err), rows)) ∨
  (∃ err, run = CommitFailed err true ∧
    commit tx (to_db_model e) run rows = (Err (Query err), rows ++ [stored (to_db_model e)])) ∨
  (run = Committed ∧ id e ∉ r_id <$> rows ∧
    commit tx (to_db_model e) run rows =
      (Ok (stored (to_db_model e)), rows ++ [stored (to_db_model e)])).
Proof.
  intros (Hp & Ht & _). unfold commit. simpl. rewrite Hp, bool_decide_eq_true_2 by done. simpl.
  replace (match tx_previous_timestamp tx with Some head => _ | None => false end) with false
    by (destruct (tx_previous_timestamp tx); simpl in Ht; [symmetry; apply Z.leb_gt; lia|done]).
  unfold insert. simpl.
  destruct run as [|msg|msg [|]]; [| |destruct (contains _ _)..]; eauto 10.
  destruct (contains _ _) eqn:Hc; [eauto 10|]. right; right. split_and!; [done| |done].
  intros Hin. apply contains_true in Hin. congruence.
Qed.

Lemma commit_inv signer rows e run :
  chain_inv signer rows → sealed_for (begin_append rows) e → timestamp e mod 1000 = 0 →
  sealed_event signer e →
  chain_inv signer (commit (begin_append rows) (to_db_model e) run rows).2.
Proof.
  intros Hi Hs Ht Hw.
  assert (chain_inv signer (rows ++ [appended e])) as Hsnoc.
  { pose proof Hs as (Hp & Hl & Hh). rewrite (begin_append_inv signer) in Hp, Hl by done.
    simpl in *. apply chain_inv_snoc; try done. by destruct (last rows). }
  destruct (commit_sealed _ _ run rows Hs) as [(? & ->)|[(? & ? & ->)|(? & ? & ->)]]; done.
Qed.

(** The head a holder of the lock read is still the head. *)
Definition Chain_inv (signer : option string) (c : Chain) : Prop :=
  chain_inv signer (c_rows c) ∧
  from_option (λ h, h.2 = begin_append (c_rows c)) True (c_lock c).

Lemma link_event_mod signer rows e :
  chain_inv signer rows → timestamp e mod 1000 = 0 →
  timestamp (link_event (begin_append rows) e) mod 1000 = 0.
Proof.
  intros Hi Ht. destruct (link_event_fields (begin_append rows) e) as (_ & _ & -> & _).
  apply chain_timestamp_mod; [done|]. rewrite (begin_append_inv signer) by done.
  by apply (chain_inv_last signer).
Qed.

Lemma chain_step_inv signer c c' :
  chain_step signer c c' → Chain_inv signer c → Chain_inv signer c'.
Proof.
  intros Hstep [Hi Hl]. destruct Hstep as [writer rows|writer tx rows event srun sealed run Ht Hs|];
    simpl in *; try by split. subst tx.
  split; [|done]. simpl. pose proof (signed_by_fields _ _ _ _ Hs) as (_ & _ & Ht' & _).
  apply commit_inv; [done| |rewrite Ht'; by eapply link_event_mod|by repeat eexists].
  eapply signed_sealed; [exact Hs|]. apply link_event_sealed.
Qed.

Definition empty_chain : Chain := {| c_rows := []; c_lock := None |}.

Lemma log_reachable_inv signer c : rtc (chain_step signer) empty_chain c → Chain_inv signer c.
Proof.
  intros Hr. cut (Chain_inv signer empty_chain); [|by split; [apply chain_inv_nil|]].
  induction Hr as [|x y z Hxy _ IH]; [done|]. intros Hx. apply IH. by eapply chain_step_inv.
Qed.

(** *** Recording *)

Definition alert_of (stage : string) : Alert := {| a_stage := stage; a_unknown := false |}.
Definition truncated (e : AuditEvent) : AuditEvent := with_timestamp e (trunc_micros (timestamp e)).

(** [record] stops before the commit with an alert and an untouched table,
    or commits a sealed event. *)
Lemma record_cases signer env w :
  (∃ stage err e', record signer env w =
     (Fail err, {| w_rows := w_rows w; w_alerts := w_alerts w ++ [alert_of stage];
                   w_event := e' |})) ∨
  (∃ sealed,
     signed_by signer (env_sign env)
       (link_event (begin_append (w_rows w)) (truncated (w_event w))) = Some sealed ∧
     record signer env w =
       commit_bounded (env_commit env) (env_commit_timeout env) (begin_append (w_rows w))
         {| w_rows := w_rows w; w_alerts := w_alerts w; w_event := sealed |}).
Proof.
  unfold record, begin_bounded. simpl.
  destruct (env_begin env) as [[msg|]|]; simpl; [by eauto 10| |by eauto 10].
  unfold sign_event, signed_by. destruct signer as [label|]; simpl; [|by eauto].
  destruct (sign_bounded _ _) as [sig|err]; simpl; [right|left]; by eauto 10.
Qed.

Lemma sealed_record signer env rows e sealed :
  signed_by signer (env_sign env) (link_event (begin_append rows) (truncated e)) = Some sealed →
  sealed_for (begin_append rows) sealed.
Proof. intros Hs. eapply signed_sealed; [exact Hs|]. apply link_event_sealed. Qed.

Lemma signed_by_signature signer run e e' :
  signed_by signer run e = Some e' →
  match signer with
  | None => e' = e
  | Some label => signing_key_id e' = Some label ∧
      ∃ sig, signature e' = Some sig ∧ run (event_hash e') = InTime (Returned (Ok sig))
  end.
Proof.
  unfold signed_by, sign_bounded. destruct signer as [label|]; [|congruence].
  intros Hs. split_matches; simpl; eauto.
Qed.

(** A commit, bounded or not, is one step of a writer that holds the lock. *)
Lemma commit_bounded_run signer rows e run alerts timeout sealed crun :
  signed_by signer run (link_event (begin_append rows) (truncated e)) = Some sealed →
  rtc (chain_step signer) {| c_rows := rows; c_lock := None |}
    {| c_rows := w_rows (commit_bounded crun timeout (begin_append rows)
         {| w_rows := rows; w_alerts := alerts; w_event := sealed |}).2; c_lock := None |}.
Proof.
  intros Hs. eapply rtc_l; [apply (step_begin _ 0%nat)|]. apply rtc_once.
  unfold commit_bounded. simpl.
  assert (w_rows _ = (commit (begin_append rows) (to_db_model sealed) crun rows).2) as ->.
  2: { apply (step_commit _ _ _ _ (truncated e) run); [apply trunc_micros_mod|exact Hs]. }
  by destruct (commit _ _ _ _) as [[] ?], timeout.
Qed.

(** *** Tampering *)

Lemma check_chain_snoc l x :
  check_chain None (l ++ [x]) = true ↔
  check_chain None l = true ∧ r_previous_hash x = r_event_hash <$> last l ∧
  compute_event_hash x = r_event_hash x.
Proof.
  rewrite check_chain_app, andb_true_iff, check_chain_cons. simpl.
  destruct (last l); simpl; naive_solver.
Qed.

Lemma previous_hash_length l x h :
  check_chain None (l ++ [x]) = true → r_previous_hash x = Some h → length h = 32%nat.
Proof.
  intros (Hc & -> & _)%check_chain_snoc. destruct l as [|y l _] using rev_ind; [done|].
  rewrite last_snoc. simpl. intros [= <-].
  apply check_chain_snoc in Hc as (_ & _ & <-). apply sha256_length.
Qed.

(** Two rows with the same hashed contents. *)
Definition same_record (x y : AuditRow) : Prop :=
  row_body x = row_body y ∧ r_previous_hash x = r_previous_hash y ∧
  r_timestamp x = r_timestamp y ∧ r_event_hash x = r_event_hash y.

(** Two different inputs of SHA-256, both among the records, with one hash. *)
Definition collision (l1 l2 : list AuditRow) : Prop :=
  ∃ x y, x ∈ l1 ∧ y ∈ l2 ∧ row_preimage x ≠ row_preimage y ∧
    sha256 (row_preimage x) = sha256 (row_preimage y).

(** The one way to cut the beginning off a log: the text of the first row
    that is left ends in the 32 bytes of the hash that linked it to the rows
    taken away. *)
Definition grafted (short long : list AuditRow) : Prop :=
  ∃ x y h, head short = Some x ∧ y ∈ long ∧ head long ≠ Some y ∧
    r_previous_hash x = None ∧ r_previous_hash y = Some h ∧ length h = 32%nat ∧
    row_body x = row_body y ++ h ∧ r_timestamp x = r_timestamp y.

Lemma head_app_Some {A} (l k : list A) x : head l = Some x → head (l ++ k) = Some x.
Proof. by destruct l. Qed.

Lemma first_previous_hash l x :
  check_chain None (l ++ [x]) = true → l = [] → r_previous_hash x = None.
Proof. intros (_ & -> & _)%check_chain_snoc ->. done. Qed.

Lemma later_previous_hash l x :
  check_chain None (l ++ [x]) = true → l ≠ [] →
  ∃ h, r_previous_hash x = Some h ∧ length h = 32%nat.
Proof.
  intros Hc Hl. pose proof Hc as (_ & Hp & _)%check_chain_snoc.
  destruct l as [|y l _] using rev_ind; [done|]. rewrite last_snoc in Hp. simpl in Hp.
  exists (r_event_hash y). split; [done|]. by eapply previous_hash_length.
Qed.

(** Equal inputs of the hash: equal records, when both rows are the first of
    their log or neither is; otherwise the text of the first row ends in a
    hash. *)
Lemma preimage_inj x y :
  rfc3339_range (r_timestamp x) → rfc3339_range (r_timestamp y) →
  row_preimage x = row_preimage y →
  r_timestamp x = r_timestamp y ∧
  row_body x ++ default [] (r_previous_hash x) = row_body y ++ default [] (r_previous_hash y).
Proof.
  intros Hrx Hry. unfold row_preimage. rewrite !app_assoc. intros Hp.
  pose proof (to_rfc3339_suffix _ _ _ _ Hrx Hry Hp) as Ht. rewrite Ht in Hp.
  by apply app_inv_tail in Hp.
Qed.

(** The last rows of two logs with the same hash: the same record with both
    or neither first, or a graft of one log in the other. *)
Lemma last_rows_agree k1 k2 x y :
  check_chain None (k1 ++ [x]) = true → check_chain None (k2 ++ [y]) = true →
  rfc3339_range (r_timestamp x) → rfc3339_range (r_timestamp y) →
  r_event_hash x = r_event_hash y → row_preimage x = row_preimage y →
  (same_record x y ∧ (k1 = [] ↔ k2 = [])) ∨
  grafted (k1 ++ [x]) (k2 ++ [y]) ∨ grafted (k2 ++ [y]) (k1 ++ [x]).
Proof.
  intros Hx Hy Hrx Hry He Hpre. destruct (preimage_inj x y Hrx Hry Hpre) as [Ht Hb].
  unfold same_record.
  destruct (decide (k1 = [])) as [->|Hk1], (decide (k2 = [])) as [->|Hk2].
  - left. rewrite (first_previous_hash [] x), (first_previous_hash [] y), !app_nil_r in * by done.
    done.
  - right. left. destruct (later_previous_hash _ _ Hy Hk2) as (h & Hh & Hlen).
    rewrite (first_previous_hash [] x), Hh in Hb by done. rewrite app_nil_r in Hb.
    exists x, y, h. split_and!; try done; [set_solver| |by apply (first_previous_hash [])].
    apply check_chain_snoc in Hy as (Hc & _). intros Hhd. destruct k2 as [|z k2]; [done|].
    simpl in Hhd. injection Hhd as ->. apply check_chain_cons in Hc as (Hc & _). congruence.
  - right. right. destruct (later_previous_hash _ _ Hx Hk1) as (h & Hh & Hlen).
    rewrite (first_previous_hash [] y), Hh in Hb by done. rewrite app_nil_r in Hb.
    exists y, x, h. split_and!; try done; [set_solver| |by apply (first_previous_hash [])].
    apply check_chain_snoc in Hx as (Hc & _). intros Hhd. destruct k1 as [|z k1]; [done|].
    simpl in Hhd. injection Hhd as ->. apply check_chain_cons in Hc as (Hc & _). congruence.
  - left. destruct (later_previous_hash _ _ Hx Hk1) as (h1 & Hh1 & Hl1).
    destruct (later_previous_hash _ _ Hy Hk2) as (h2 & Hh2 & Hl2).
    rewrite Hh1, Hh2 in Hb. cbn [from_option Datatypes.id] in Hb. apply app_inj_2 in Hb as [Hb ->]; [|congruence].
    rewrite Hh1, Hh2. done.
Qed.

Lemma grafted_app k1 k2 x y :
  grafted k1 k2 → grafted (k1 ++ [x]) (k2 ++ [y]).
Proof.
  intros (a & b & h & Ha & Hb & Hn & Hr). exists a, b, h.
  split_and!; [by apply head_app_Some|set_solver| |naive_solver..].
  destruct k2; [set_solver|done].
Qed.

(** Induction from the last row of both logs. *)
Lemma chains_agree l1 l2 :
  check_chain None l1 = true → check_chain None l2 = true →
  (∀ r, r ∈ l1 ++ l2 → rfc3339_range (r_timestamp r)) →
  r_event_hash <$> last l1 = r_event_hash <$> last l2 →
  Forall2 same_record l1 l2 ∨ collision l1 l2 ∨ grafted l1 l2 ∨ grafted l2 l1.
Proof.
  revert l2. induction l1 as [|x k1 IH] using rev_ind; intros l2 Hv1 Hv2 Hr Hh.
  { left. destruct l2 as [|y k2 _] using rev_ind; [constructor|]. by rewrite last_snoc in Hh. }
  destruct l2 as [|y k2 _] using rev_ind.
  { by rewrite last_snoc in Hh. }
  rewrite !last_snoc in Hh. simpl in Hh. injection Hh as Hh.
  pose proof (proj1 (check_chain_snoc _ _) Hv1) as (Hc1 & Hp1 & He1).
  pose proof (proj1 (check_chain_snoc _ _) Hv2) as (Hc2 & Hp2 & He2).
  destruct (decide (row_preimage x = row_preimage y)) as [Heq|Hne].
  2: { right. left. exists x, y. unfold compute_event_hash in *.
       split_and!; [set_solver|set_solver|done|congruence]. }
  destruct (last_rows_agree k1 k2 x y) as [[Hxy Hks]|Hg];
    [done|done|apply Hr; set_solver|apply Hr; set_solver|done|done| |tauto].
  destruct (IH k2) as [Hk|[(a & b & Ha & Hb & Hc)|[Hg|Hg]]]; [done|done|set_solver| |..].
  - destruct Hxy as (_ & Hp & _). congruence.
  - left. apply Forall2_app; [done|]. constructor; [done|constructor].
  - right. left. exists a, b. set_solver.
  - right. right. left. by apply grafted_app.
  - right. right. right. by apply grafted_app.
Qed.

Lemma check_signatures_spec V l :
  check_signatures V l = Ok true ↔
  ∀ r sig, r ∈ l → r_signature r = Some sig → V (r_event_hash r) sig = Ok true.
Proof.
  induction l as [|r l IH]; simpl; [set_solver|]. destruct (r_signature r) as [sig|] eqn:Hs.
  - split.
    + destruct (V _ sig) as [[]|] eqn:Hv; [|done|done]. rewrite IH. intros Hall r' s'.
      intros [->|Hin]%elem_of_cons Hr'; [by simplify_eq|by eapply Hall].
    + intros Hall. rewrite (Hall r sig) by set_solver. apply IH. set_solver.
  - rewrite IH. set_solver.
Qed.

(** What someone who can write the table, but not sign, can store: links
    and hashes computed again, the signatures dropped. *)
Definition relink (r : AuditRow) (prev : option (list u8)) (hash : list u8) : AuditRow :=
  {| r_id := r_id r; r_event_type := r_event_type r; r_actor := r_actor r;
     r_target := r_target r; r_action := r_action r; r_outcome := r_outcome r;
     r_details := r_details r; r_ip_address := r_ip_address r;
     r_user_agent := r_user_agent r; r_session_id := r_session_id r;
     r_previous_hash := prev; r_event_hash := hash; r_timestamp := r_timestamp r;
     r_signature := None; r_signing_key_id := None |}.

Fixpoint rebuild (prev : option (list u8)) (rows : list AuditRow) : list AuditRow :=
  match rows with
  | [] => []
  | r :: rows =>
      let hash := compute_event_hash (relink r prev []) in
      relink r prev hash :: rebuild (Some hash) rows
  end.

Lemma rebuild_spec prev rows :
  check_chain prev (rebuild prev rows) = true ∧
  r_timestamp <$> rebuild prev rows = r_timestamp <$> rows ∧
  row_body <$> rebuild prev rows = row_body <$> rows ∧
  Forall (λ r, r_signature r = None) (rebuild prev rows).
Proof.
  revert prev. induction rows as [|r rows IH]; intros prev; [by repeat constructor|].
  cbn [rebuild]. destruct (IH (Some (compute_event_hash (relink r prev [])))) as (Hc & Ht & Hb & Hs).
  split_and!.
  - apply check_chain_cons. split_and!; [done|done|exact Hc].
  - cbn [fmap list_fmap]. f_equal. exact Ht.
  - cbn [fmap list_fmap]. f_equal. exact Hb.
  - by constructor.
Qed.

Lemma ts_sorted_fmap l : StronglySorted ts_lt l ↔ StronglySorted Z.lt (r_timestamp <$> l).
Proof.
  induction l as [|x l IH]; [split; constructor|].
  rewrite fmap_cons, !StronglySorted_cons, IH, Forall_fmap. done.
Qed.

(** The actor and the target of a row written anew. *)
Definition reassign (split : AuditRow → string * string) (r : AuditRow) : AuditRow :=
  {| r_id := r_id r; r_event_type := r_event_type r; r_actor := (split r).1;
     r_target := (split r).2; r_action := r_action r; r_outcome := r_outcome r;
     r_details := r_details r; r_ip_address := r_ip_address r;
     r_user_agent := r_user_agent r; r_session_id := r_session_id r;
     r_previous_hash := r_previous_hash r; r_event_hash := r_event_hash r;
     r_timestamp := r_timestamp r; r_signature := r_signature r;
     r_signing_key_id := r_signing_key_id r |}.

Lemma str_bytes_app s t : str_bytes (s +:+ t) = str_bytes s ++ str_bytes t.
Proof.
  unfold str_bytes. rewrite <- fmap_app. f_equal. induction s as [|c s IH]; [done|].
  simpl. by rewrite IH.
Qed.

Lemma reassign_hash split r :
  (split r).1 +:+ (split r).2 = r_actor r +:+ r_target r →
  compute_event_hash (reassign split r) = compute_event_hash r.
Proof.
  intros He. assert (str_bytes (split r).1 ++ str_bytes (split r).2 =
                     str_bytes (r_actor r) ++ str_bytes (r_target r)) as Hb
    by (by rewrite <- !str_bytes_app, He).
  unfold compute_event_hash, row_preimage, row_body.
  cbn [reassign r_id r_event_type r_actor r_target r_action r_outcome r_details r_ip_address
       r_user_agent r_session_id r_previous_hash r_timestamp].
  f_equal. f_equal. f_equal. f_equal. rewrite !app_assoc, Hb. done.
Qed.

Lemma reassign_check split prev l :
  (∀ r, r ∈ l → (split r).1 +:+ (split r).2 = r_actor r +:+ r_target r) →
  check_chain prev (reassign split <$> l) = check_chain prev l.
Proof.
  revert prev. induction l as [|r l IH]; intros prev Hs; [done|].
  cbn [fmap list_fmap check_chain]. rewrite reassign_hash by (apply Hs; set_solver). cbn [reassign r_previous_hash r_event_hash].
  change (list_fmap _ _ (reassign split) l) with (reassign split <$> l).
  rewrite IH by (intros; apply Hs; set_solver). done.
Qed.

Lemma reassign_signatures split V l :
  check_signatures V (reassign split <$> l) = check_signatures V l.
Proof.
  induction l as [|r l IH]; [done|]. simpl. destruct (r_signature r); [|done].
  by destruct (V _ _) as [[]|].
Qed.

Lemma verify_signed_sorted V l : StronglySorted ts_lt l →
  verify_signed_chain V None None l =
  if check_chain None l then check_signatures V l else Ok false.
Proof.
  intros Hs. unfold verify_signed_chain, verify_chain. simpl. rewrite order_sorted_rows by done.
  by destruct (check_chain None l).
Qed.

(** ** Properties *)

(** C11. In every state that any number of writers reach from the empty
    table, in any interleaving of taking the lock, committing and giving up,
    the table is the list of rows of one chain of events: each was linked
    and signed by some writer, holds the hash of the one before, and times
    strictly increase in append order.  A new append would link to the last
    record.  The verifier accepts this log exactly when no event changed its
    hash in the columns, so it does whenever the details column gives the
    recorded details back unchanged. *)
Theorem reachable_log_verifies signer c :
  rtc (chain_step signer) empty_chain c →
  StronglySorted Z.lt (r_timestamp <$> c_rows c) ∧
  tx_previous_hash (begin_append (c_rows c)) = r_event_hash <$> last (c_rows c) ∧
  ∃ events, c_rows c = appended <$> events ∧ linked None events ∧
    Forall (sealed_event signer) events ∧
    verify_chain None (c_rows c) = Ok (forallb hash_survives events) ∧
    (Forall jsonb_exact events → verify_chain None (c_rows c) = Ok true).
Proof.
  intros [Hi _]%log_reachable_inv. pose proof Hi as (events & Heq & Hs & Hm & Hl & Hw).
  rewrite Heq in *.
  assert (verify_chain None (appended <$> events) = Ok (forallb hash_survives events)) as Hv.
  { unfold verify_chain. simpl. by rewrite order_sorted_rows, check_chain_linked. }
  split; [by apply ts_sorted_fmap|]. split; [by rewrite (begin_append_inv signer)|].
  exists events. rewrite Hv. split_and!; [done..|]. intros Hj. f_equal.
  apply Is_true_eq_true. by eapply linked_survives.
Qed.

(** [record] fails closed.  When it returns [Ok], exactly one row was
    added, the event as linked to the head, hashed and, with a signing key,
    signed, and nothing was alerted.  When it returns an error, exactly one
    alert was raised and the table is as before, except that a commit whose
    answer was lost may have added that one row.  It never panics. *)
Theorem record_fails_closed signer env w :
  let (r, w') := record signer env w in
  let row := stored (to_db_model (w_event w')) in
  match r with
  | Ret _ =>
      w_rows w' = w_rows w ++ [row] ∧ w_alerts w' = w_alerts w ∧
      sealed_for (begin_append (w_rows w)) (w_event w') ∧
      id (w_event w') ∉ r_id <$> w_rows w ∧
      (∀ label, signer = Some label → r_signing_key_id row = Some label ∧
        ∃ sig, r_signature row = Some sig ∧
          env_sign env (event_hash (w_event w')) = InTime (Returned (Ok sig)))
  | Fail e =>
      ∃ alert, w_alerts w' = w_alerts w ++ [alert] ∧
      (w_rows w' = w_rows w ∨
       w_rows w' = w_rows w ++ [row] ∧ a_stage alert = "commit" ∧
       (a_unknown alert = true ∨ ∃ msg, env_commit env = CommitFailed msg true))
  | Panic => False
  end.
Proof.
  destruct (record_cases signer env w) as [(stage & err & e' & ->)|(sealed & Hs & ->)]; [by eauto|].
  pose proof (sealed_record _ _ _ _ _ Hs) as Hsealed.
  pose proof (signed_by_signature _ _ _ _ Hs) as Hsig.
  unfold commit_bounded. simpl.
  destruct (commit_sealed _ _ (env_commit env) (w_rows w) Hsealed)
    as [(err & ->)|[(err & Hrun & ->)|(Hrun & Hnew & ->)]];
    destruct (env_commit_timeout env); simpl; eauto 10.
  split_and!; [done..|]. intros label ->. by destruct Hsig.
Qed.

(** What a record keeps of the event it is given. *)
Definition same_event (e e' : AuditEvent) : Prop :=
  id e' = id e ∧ event_type e' = event_type e ∧ actor e' = actor e ∧ target e' = target e ∧
  action e' = action e ∧ outcome e' = outcome e ∧ ip_address e' = ip_address e ∧
  user_agent e' = user_agent e ∧ session_id e' = session_id e.

(** Its time and details: its own time in microseconds, when that is after
    every row; else one microsecond after the latest row, the own time kept
    in the details. *)
Definition placed_after (rows : list AuditRow) (e e' : AuditEvent) : Prop :=
  (∀ r, r ∈ rows → r_timestamp r < timestamp e') ∧
  let t := trunc_micros (timestamp e) in
  (timestamp e' = t ∧ details e' = reserve_occurred_at None (details e)) ∨
  (∃ head, latest rows = Some head ∧ t ≤ r_timestamp head ∧
    timestamp e' = r_timestamp head + 1000 ∧
    let at_ := JString (to_rfc3339_micros t) in
    details e' = Some (insert_occurred_at at_ (reserve_occurred_at (Some at_) (details e)))).

Lemma link_event_same tx e : same_event e (link_event tx (truncated e)).
Proof.
  unfold link_event, apply_chain_timestamp. cbv zeta.
  destruct (_ =? _); simpl; unfold same_event; split_and!; reflexivity.
Qed.

Lemma link_event_placed rows e :
  placed_after rows e (link_event (begin_append rows) (truncated e)).
Proof.
  unfold placed_after. cbv zeta. split.
  - intros r Hr. destruct (link_event_fields (begin_append rows) (truncated e)) as (_ & _ & -> & _).
    simpl. pose proof (chain_timestamp_later (trunc_micros (timestamp e))
      (r_timestamp <$> latest rows)) as Hl.
    destruct (latest rows) as [h|] eqn:Hh; simpl in *.
    + apply latest_Some in Hh as [_ Hh]. specialize (Hh r Hr). unfold ts_le in Hh. lia.
    + apply latest_None in Hh as ->. set_solver.
  - unfold link_event, apply_chain_timestamp. cbv zeta. simpl.
    destruct (latest rows) as [h|] eqn:Hh; simpl.
    + destruct (Z.leb_spec (trunc_micros (timestamp e)) (r_timestamp h)).
      * rewrite (proj2 (Z.eqb_neq _ _)) by lia. simpl. right. by exists h.
      * rewrite Z.eqb_refl. simpl. by left.
    + rewrite Z.eqb_refl. simpl. by left.
Qed.

Lemma signed_by_same signer run e e' :
  signed_by signer run e = Some e' →
  ∀ e0 rows, same_event e0 e → placed_after rows e0 e →
    same_event e0 e' ∧ placed_after rows e0 e'.
Proof.
  unfold signed_by. intros Hs e0 rows He Hp. split_matches; simplify_eq; done.
Qed.

(** C12. One [record] is a run of the writers' steps (it takes the lock,
    links to the head it then reads, and commits or gives up, so
    [reachable_log_verifies] covers every mix of [record] calls).  When it
    returns [Ok] the table has exactly one row more, the given event, at a
    time after all others, linked to the head, hashed and, with a signing
    key, signed over that hash.  When it returns an error it has raised one
    alert, and the table is as it was, unless the answer of the commit was
    lost.  It never panics. *)
Theorem record_refines signer env w :
  let (r, w') := record signer env w in
  let e := w_event w' in
  rtc (chain_step signer) {| c_rows := w_rows w; c_lock := None |}
    {| c_rows := w_rows w'; c_lock := None |} ∧
  match r with
  | Ret _ =>
      w_rows w' = w_rows w ++ [appended e] ∧ w_alerts w' = w_alerts w ∧
      id e ∉ r_id <$> w_rows w ∧ same_event (w_event w) e ∧
      placed_after (w_rows w) (w_event w) e ∧
      previous_hash e = r_event_hash <$> latest (w_rows w) ∧ event_hash e = compute_hash e ∧
      (∀ label, signer = Some label → signing_key_id e = Some label ∧
        ∃ sig, signature e = Some sig ∧
          env_sign env (event_hash e) = InTime (Returned (Ok sig)))
  | Fail _ =>
      (∃ alert, w_alerts w' = w_alerts w ++ [alert]) ∧
      (w_rows w' = w_rows w ∨
       w_rows w' = w_rows w ++ [appended e] ∧
       (env_commit_timeout env = true ∨ ∃ msg, env_commit env = CommitFailed msg true))
  | Panic => False
  end.
Proof.
  destruct (record_cases signer env w) as [(stage & err & e' & ->)|(sealed & Hs & ->)].
  { split; [|by eauto]. eapply rtc_l; [apply (step_begin _ 0%nat)|]. apply rtc_once, step_drop. }
  pose proof (commit_bounded_run signer _ _ _ (w_alerts w) (env_commit_timeout env) _ (env_commit env) Hs) as Hrun.
  pose proof (sealed_record _ _ _ _ _ Hs) as Hsealed.
  pose proof (signed_by_signature _ _ _ _ Hs) as Hsig.
  destruct (signed_by_same _ _ _ _ Hs _ (w_rows w) (link_event_same _ _) (link_event_placed _ _))
    as [Hsame Hplaced].
  destruct (commit_bounded _ _ _ _) as [r w'] eqn:Hc.
  split; [apply Hrun|]. revert Hc. unfold commit_bounded. simpl.
  destruct (commit_sealed _ _ (env_commit env) (w_rows w) Hsealed)
    as [(err & ->)|[(err & Hcr & ->)|(Hcr & Hnew & ->)]];
    destruct (env_commit_timeout env); simpl; intros [= <- <-]; simpl; eauto 10.
  destruct Hsealed as (Hp & _ & Hh). split_and!; try done. intros label ->. by destruct Hsig.
Qed.

(** C10. Tamper evidence: take two tables that both verify and end in the
    same hash, of whatever lengths, with the years of
    their times from 0 to 9999.  Then they have as many rows, and row by row
    the hashed bytes, the links, the times and the hashes agree; or the
    tables exhibit a SHA-256 collision; or one of them is the other with its
    beginning cut off and the hash that linked it written into the text of
    its first row.  In particular no row was inserted, deleted, replaced or
    moved but in these ways. *)
Theorem tamper_evident rows1 rows2 :
  verify_chain None rows1 = Ok true → verify_chain None rows2 = Ok true →
  (∀ r, r ∈ rows1 ++ rows2 → rfc3339_range (r_timestamp r)) →
  r_event_hash <$> last (order_by_timestamp rows1) =
    r_event_hash <$> last (order_by_timestamp rows2) →
  Forall2 same_record (order_by_timestamp rows1) (order_by_timestamp rows2) ∨
  collision rows1 rows2 ∨
  grafted (order_by_timestamp rows1) (order_by_timestamp rows2) ∨
  grafted (order_by_timestamp rows2) (order_by_timestamp rows1).
Proof.
  unfold verify_chain. simpl. intros [= Hv1] [= Hv2] Hr Hh.
  destruct (chains_agree (order_by_timestamp rows1) (order_by_timestamp rows2))
    as [Ha|[(x & y & Hx & Hy & Hc)|Hg]]; try done.
  - intros r [Hin|Hin]%elem_of_app; rewrite order_by_timestamp_perm in Hin;
      apply Hr; set_solver.
  - by left.
  - right. left. exists x, y. rewrite order_by_timestamp_perm in Hx, Hy. done.
  - tauto.
Qed.

(** [verify_signed_chain] is true exactly for a chain that verifies and
    whose present signatures all do. *)
Theorem verify_signed_chain_spec V rows :
  verify_signed_chain V None None rows = Ok true ↔
  verify_chain None rows = Ok true ∧
  ∀ r sig, r ∈ rows → r_signature r = Some sig → V (r_event_hash r) sig = Ok true.
Proof.
  unfold verify_signed_chain, verify_chain. simpl.
  destruct (check_chain None _); simpl; [|naive_solver].
  rewrite check_signatures_spec. setoid_rewrite order_by_timestamp_perm. naive_solver.
Qed.

(** Signatures do not stop a rewrite: whatever contents one wants in the
    log, with increasing times, there is a table with those contents and
    times that [verify_signed_chain] accepts for every key, because records
    without a signature are passed over. *)
Theorem rewritten_log_accepted V rows :
  StronglySorted Z.lt (r_timestamp <$> rows) →
  let forged := rebuild None rows in
  verify_signed_chain V None None forged = Ok true ∧
  row_body <$> forged = row_body <$> rows ∧ r_timestamp <$> forged = r_timestamp <$> rows.
Proof.
  intros Ht forged. destruct (rebuild_spec None rows) as (Hc & Hts & Hb & Hs).
  fold forged in Hc, Hts, Hb, Hs. split_and!; try done.
  rewrite verify_signed_sorted, Hc by (by apply ts_sorted_fmap; rewrite Hts).
  apply check_signatures_spec. intros r sig Hin Hsig. rewrite Forall_forall in Hs.
  rewrite Hs in Hsig; done.
Qed.

(** The fields of a record are hashed without separators: moving text
    between the actor and the target of any rows of a log changes neither
    verdict, signatures included. *)
Theorem field_boundaries_unprotected V split rows :
  StronglySorted Z.lt (r_timestamp <$> rows) →
  (∀ r, r ∈ rows → (split r).1 +:+ (split r).2 = r_actor r +:+ r_target r) →
  verify_signed_chain V None None (reassign split <$> rows) =
  verify_signed_chain V None None rows.
Proof.
  intros Ht Hs. rewrite !verify_signed_sorted.
  - by rewrite reassign_check, reassign_signatures.
  - by apply ts_sorted_fmap.
  - apply ts_sorted_fmap. by rewrite <- list_fmap_compose.
Qed.

(** Deleting the newest records goes unnoticed: every prefix of a log
    that verifies does. *)
Theorem truncated_log_accepted V rows n :
  StronglySorted Z.lt (r_timestamp <$> rows) →
  verify_signed_chain V None None rows = Ok true →
  verify_signed_chain V None None (take n rows) = Ok true.
Proof.
  intros Ht%ts_sorted_fmap. rewrite <- (take_drop n rows) in Ht at 1.
  rewrite !verify_signed_chain_spec. intros [Hv Hs]. split.
  - unfold verify_chain in *. simpl in *.
    rewrite order_sorted_rows in Hv by (by rewrite <- (take_drop n rows)).
    rewrite order_sorted_rows by (by eapply StronglySorted_app_1_l).
    rewrite <- (take_drop n rows), check_chain_app in Hv. injection Hv as Hv.
    by apply andb_true_iff in Hv as [-> _].
  - intros r sig Hin. apply Hs. rewrite <- (take_drop n rows). set_solver.
Qed.

(** A stored event reads back as itself and the verifier's hash of the
    row is the hash of the event. *)
Theorem db_model_roundtrip e :
  from_db_model (to_db_model e) = e ∧ compute_event_hash (to_db_model e) = compute_hash e.
Proof. split; [apply from_to_db_model|apply compute_event_hash_to_db]. Qed.
End Audit.

(** ** Instances

    A library and a server of the kind the classes describe. *)

Definition toy_time (t : DateTime) : list u8 :=
  (λ i, if Z.testbit (t + 62167219200 * NANOS) (Z.of_nat i) then 49 else 48) <$> seq 0 69.

Lemma toy_time_suffix t u x y :
  rfc3339_range t → rfc3339_range u → x ++ toy_time t = y ++ toy_time u → t = u.
Proof.
  unfold rfc3339_range, NANOS. intros Ht Hu He. apply app_inj_2 in He as [_ He].
  2: unfold toy_time; by rewrite !length_fmap.
  enough (t + 62167219200 * NANOS = u + 62167219200 * NANOS) by lia.
  apply Z.bits_inj'. intros i Hi. destruct (Z.ltb_spec i 69) as [Hlt|Hge].
  - apply (f_equal (λ l, l !! Z.to_nat i)) in He. unfold toy_time in He.
    rewrite !list_lookup_fmap, !lookup_seq_lt in He by lia. simpl in He.
    rewrite Z2Nat.id in He by lia. injection He as He.
    by destruct (Z.testbit (t + _) i), (Z.testbit (u + _) i).
  - assert (∀ a, 0 ≤ a < 2 ^ 69 → Z.testbit a i = false) as Hz.
    { intros a Ha. rewrite <- (Z.mod_small a (2 ^ 69)) by done. apply Z.mod_pow2_bits_high. lia. }
    rewrite !Hz by (unfold NANOS; lia). done.
Qed.

Definition toy_pairs (l : list (gen_tree string)) : list (string * gen_tree string) :=
  omap (λ t, match t with GenNode 1 [GenLeaf k; v] => Some (k, v) | _ => None end) l.

Lemma toy_pairs_map (l : list (string * gen_tree string)) :
  toy_pairs ((λ kv, GenNode 1 [GenLeaf kv.1; kv.2]) <$> l) = l.
Proof. induction l as [|[k v] l IH]; [done|]. cbn. f_equal. exact IH. Qed.

Definition toy_hash (b : list u8) : list u8 :=
  let n := foldl (λ acc x, (acc * 257 + x) mod (2 ^ 255 - 19)) 1 b in
  (λ i, Z.shiftr n (8 * Z.of_nat i) mod 256) <$> seq 0 32.
Lemma toy_hash_length b : length (toy_hash b) = 32%nat.
Proof. unfold toy_hash. by rewrite length_fmap, length_seq. Qed.

Definition toy_object (m : gmap string (gen_tree string)) : gen_tree string :=
  GenNode 0 ((λ kv, GenNode 1 [GenLeaf kv.1; kv.2]) <$> map_to_list m).
Definition toy_as_object (v : gen_tree string) : option (gmap string (gen_tree string)) :=
  match v with GenNode 0 l => Some (list_to_map (toy_pairs l)) | _ => None end.
Lemma toy_as_object_object m : toy_as_object (toy_object m) = Some m.
Proof. unfold toy_as_object, toy_object. by rewrite toy_pairs_map, list_to_map_to_list. Qed.

Definition toy_lib : AuditLib := {|
  sha256 := toy_hash;
  sha256_length := toy_hash_length;
  to_rfc3339 := toy_time;
  to_rfc3339_suffix := toy_time_suffix;
  to_rfc3339_micros t := "then";
  JsonValue := gen_tree string;
  JString := GenLeaf;
  JObject := toy_object;
  as_object := toy_as_object;
  as_object_JObject := toy_as_object_object;
  json_to_string v := match v with GenLeaf s => Some s | _ => None end
|}.

Lemma micros_exact t : t mod 1000 = 0 → t - t mod 1000 = t.
Proof. lia. Qed.

Definition toy_columns : @PgColumns toy_lib := {|
  pg_timestamptz t := t - t mod 1000;
  pg_timestamptz_micros := micros_exact;
  pg_jsonb v := v;
  duplicate_key _ := "duplicate key value violates unique constraint"
|}.

#[export] Instance ts_le_dec {L : AuditLib} : RelDecision (@ts_le L).
Proof. intros a b. apply Z.le_dec. Defined.
#[export] Instance ts_le_total {L : AuditLib} : Total (@ts_le L).
Proof. intros a b. unfold ts_le. lia. Qed.
#[export] Instance ts_le_trans {L : AuditLib} : Transitive (@ts_le L).
Proof. intros a b c. unfold ts_le. lia. Qed.

Section sorting_order.
Context {L : AuditLib}.
Implicit Type l : list AuditRow.

Lemma sort_None l : last (merge_sort ts_le l) = None ↔ l = [].
Proof.
  rewrite last_None. split; [|by intros ->]. intros Hn.
  apply Permutation_nil. by rewrite <- Hn, merge_sort_Permutation.
Qed.

Lemma sort_Some l r :
  last (merge_sort ts_le l) = Some r → r ∈ l ∧ ∀ r', r' ∈ l → ts_le r' r.
Proof.
  intros [l' Hl]%last_Some. pose proof (merge_sort_Permutation ts_le l) as Hp.
  split; [rewrite <- Hp, Hl; set_solver|]. intros r' Hr'. rewrite <- Hp, Hl in Hr'.
  apply elem_of_app in Hr' as [Hr'| ->%list_elem_of_singleton]; [|unfold ts_le; lia].
  pose proof (StronglySorted_merge_sort ts_le l) as Hs. rewrite Hl in Hs.
  apply (StronglySorted_app_1_elem_of ts_le l' [r]); set_solver.
Qed.

Definition sorting_order : SqlOrder := {|
  order_by_timestamp := merge_sort ts_le;
  order_by_timestamp_perm := merge_sort_Permutation ts_le;
  order_by_timestamp_sorted := StronglySorted_merge_sort ts_le;
  latest l := last (merge_sort ts_le l);
  latest_None := sort_None;
  latest_Some := sort_Some
|}.
End sorting_order.

(** ** Witnesses

    Two records of a signing sink; the second event carries an earlier time
    than the head, and is moved just after it. *)
Section toy.
#[local] Existing Instances toy_lib toy_columns sorting_order.

Definition toy_event (n : Uuid) (t : DateTime) (who what : string) : AuditEvent :=
  {| id := n; event_type := KeyRecovery; actor := who; target := what; action := "recover";
     outcome := Success; details := None; ip_address := None; user_agent := None;
     session_id := None; previous_hash := None; event_hash := []; timestamp := t;
     signature := None; signing_key_id := None |}.
Definition toy_sign : list u8 → Timed SignRun := λ h, InTime _ (Returned (Ok h)).
Definition toy_env : RecordEnv :=
  {| env_begin := InTime _ None; env_sign := toy_sign; env_commit := Committed;
     env_commit_timeout := false |}.
Definition toy_verify (hash sig : list u8) : result bool string := Ok (bool_decide (hash = sig)).

Definition toy_world (rows : list AuditRow) (e : AuditEvent) : World :=
  {| w_rows := rows; w_alerts := []; w_event := e |}.
Definition toy_record (rows : list AuditRow) (e : AuditEvent) : World :=
  (record (Some "k") toy_env (toy_world rows e)).2.
Definition toy_rows1 : list AuditRow := w_rows (toy_record [] (toy_event 1 5000999 "alice" "key")).
Definition toy_rows2 : list AuditRow :=
  w_rows (toy_record toy_rows1 (toy_event 2 4000000 "bob" "key")).

Example toy_times : r_timestamp <$> toy_rows2 = [5000000; 5001000].
Proof. vm_compute. reflexivity. Qed.

Lemma toy_times_sorted : StronglySorted Z.lt (r_timestamp <$> toy_rows2).
Proof. rewrite toy_times. repeat constructor; lia. Qed.

(** The step of a successful record, its side conditions evaluated. *)
Lemma toy_step writer rows e :
  let sealed := w_event (toy_record rows e) in
  bool_decide
    (signed_by (Some "k") toy_sign (link_event (begin_append rows) (truncated e)) = Some sealed)
  && bool_decide (w_rows (toy_record rows e) =
       (commit (begin_append rows) (to_db_model sealed) Committed rows).2) = true →
  chain_step (Some "k") {| c_rows := rows; c_lock := Some (writer, begin_append rows) |}
    {| c_rows := w_rows (toy_record rows e); c_lock := None |}.
Proof.
  intros sealed [Hs%bool_decide_eq_true ->%bool_decide_eq_true]%andb_true_iff.
  apply (step_commit _ _ _ _ (truncated e) toy_sign); [|done..]. apply trunc_micros_mod.
Qed.

Lemma toy_step1 writer :
  chain_step (Some "k") {| c_rows := []; c_lock := Some (writer, begin_append []) |}
    {| c_rows := toy_rows1; c_lock := None |}.
Proof.
  refine (toy_step writer [] (toy_event 1 5000999 "alice" "key") _). vm_compute. reflexivity.
Qed.

Lemma toy_step2 writer :
  chain_step (Some "k") {| c_rows := toy_rows1; c_lock := Some (writer, begin_append toy_rows1) |}
    {| c_rows := toy_rows2; c_lock := None |}.
Proof.
  refine (toy_step writer toy_rows1 (toy_event 2 4000000 "bob" "key") _).
  vm_compute. reflexivity.
Qed.

Definition toy_final : Chain := {| c_rows := toy_rows2; c_lock := None |}.

Lemma toy_reachable : rtc (chain_step (Some "k")) empty_chain toy_final.
Proof.
  eapply rtc_l; [apply (step_begin _ 0%nat)|]. eapply rtc_l; [apply toy_step1|].
  eapply rtc_l; [apply (step_begin _ 7%nat)|]. apply rtc_once, toy_step2.
Qed.

Lemma reachable_log_verifies_witness :
  length (c_rows toy_final) = 2%nat ∧ verify_chain None (c_rows toy_final) = Ok true.
Proof.
  split; [vm_compute; reflexivity|].
  destruct (reachable_log_verifies (Some "k") toy_final toy_reachable)
    as (_ & _ & events & _ & _ & _ & _ & Hexact).
  apply Hexact, Forall_forall. intros e _. by destruct (details e) eqn:He; unfold jsonb_exact; rewrite He.
Defined.

(** The log and a copy of it whose second row says "bo" acted on "bkey". *)
Definition toy_split (r : AuditRow) : string * string :=
  if bool_decide (r_actor r = "bob") then ("bo", "bkey") else (r_actor r, r_target r).

Definition toy_copy : list AuditRow := reassign toy_split <$> toy_rows2.

Lemma toy_split_same r : r ∈ toy_rows2 →
  (toy_split r).1 +:+ (toy_split r).2 = r_actor r +:+ r_target r.
Proof.
  intros Hr. apply (bool_decide_eq_true_1 (_ = _)). revert r Hr. apply forallb_elem_of.
  vm_compute. reflexivity.
Qed.

Lemma toy_no_collision : ¬ collision toy_rows2 toy_copy.
Proof.
  intros (x & y & Hx & Hy & Hne & Heq).
  assert (forallb (λ x, forallb (λ y, bool_decide (row_preimage x = row_preimage y) ||
            negb (bool_decide (sha256 (row_preimage x) = sha256 (row_preimage y)))) toy_copy)
            toy_rows2 = true) as Hall by (vm_compute; reflexivity).
  rewrite forallb_elem_of in Hall. specialize (Hall x Hx). rewrite forallb_elem_of in Hall.
  specialize (Hall y Hy). rewrite bool_decide_eq_false_2, bool_decide_eq_true_2 in Hall by done.
  done.
Qed.

Lemma toy_range r : r ∈ toy_rows2 ++ toy_copy → rfc3339_range (r_timestamp r).
Proof.
  assert (forallb (λ r, (0 <=? r_timestamp r) && (r_timestamp r <? 1000000000))
            (toy_rows2 ++ toy_copy) = true) as Hall by (vm_compute; reflexivity).
  rewrite forallb_elem_of in Hall. intros Hr. specialize (Hall r Hr).
  unfold rfc3339_range, NANOS. lia.
Qed.

Definition graft_free (short long : list AuditRow) : bool :=
  match head short with
  | None => true
  | Some x => forallb (λ y, match r_previous_hash y with
                            | Some h => negb (bool_decide (row_body x = row_body y ++ h))
                            | None => true
                            end) long
  end.

Lemma not_grafted short long : graft_free short long = true → ¬ grafted short long.
Proof.
  intros Hf (x & y & h & Hx & Hy & _ & _ & Hh & _ & Hb & _). unfold graft_free in Hf.
  rewrite Hx, forallb_elem_of in Hf. specialize (Hf y Hy). rewrite Hh, Hb in Hf.
  by rewrite bool_decide_eq_true_2 in Hf.
Qed.

Lemma tamper_evident_witness :
  Forall2 same_record (order_by_timestamp toy_rows2) (order_by_timestamp toy_copy).
Proof.
  destruct (tamper_evident toy_rows2 toy_copy) as [Ha|[Hc|[Hg|Hg]]].
  - vm_compute. reflexivity.
  - vm_compute. reflexivity.
  - exact toy_range.
  - vm_compute. reflexivity.
  - exact Ha.
  - destruct (toy_no_collision Hc).
  - refine (match not_grafted _ _ _ Hg with end). vm_compute. reflexivity.
  - refine (match not_grafted _ _ _ Hg with end). vm_compute. reflexivity.
Defined.

Definition toy_wish : list AuditRow := reassign (λ _, ("mallory", "nothing")) <$> toy_rows2.

Lemma toy_wish_sorted : StronglySorted Z.lt (r_timestamp <$> toy_wish).
Proof.
  replace (r_timestamp <$> toy_wish) with [5000000; 5001000] by (vm_compute; reflexivity).
  repeat constructor; lia.
Qed.

Lemma rewritten_log_accepted_witness :
  verify_signed_chain toy_verify None None (rebuild None toy_wish) = Ok true.
Proof. exact (proj1 (rewritten_log_accepted toy_verify toy_wish toy_wish_sorted)). Defined.

Lemma field_boundaries_unprotected_witness :
  r_target <$> toy_copy = ["key"; "bkey"] ∧
  verify_signed_chain toy_verify None None toy_copy =
  verify_signed_chain toy_verify None None toy_rows2.
Proof.
  split; [vm_compute; reflexivity|].
  exact (field_boundaries_unprotected toy_verify toy_split toy_rows2
           toy_times_sorted toy_split_same).
Defined.

Lemma truncated_log_accepted_witness :
  verify_signed_chain toy_verify None None (take 1 toy_rows2) = Ok true.
Proof.
  apply (truncated_log_accepted toy_verify toy_rows2 1 toy_times_sorted).
  vm_compute. reflexivity.
Defined.
End toy.

(** A details column that writes a number in another form.  The log of one
    record with such a number, untouched, does not verify. *)
Section normalised.
#[local] Existing Instances toy_lib sorting_order.

Definition normal_columns : @PgColumns toy_lib := {|
  pg_timestamptz t := t - t mod 1000;
  pg_timestamptz_micros := micros_exact;
  pg_jsonb v := if bool_decide (v = GenLeaf "1e16") then GenLeaf "10000000000000000" else v;
  duplicate_key _ := "duplicate key value violates unique constraint"
|}.

Definition float_event : AuditEvent :=
  with_details (toy_event 1 5000999 "alice" "key") (Some (GenLeaf "1e16" : @JsonValue toy_lib)).

Example normalised_details_break_the_log :
  verify_chain None (w_rows (@record toy_lib normal_columns sorting_order (Some "k") toy_env
    (toy_world [] float_event)).2) = Ok false ∧
  verify_chain None (w_rows (@record toy_lib toy_columns sorting_order (Some "k") toy_env
    (toy_world [] float_event)).2) = Ok true.
Proof. split; vm_compute; reflexivity. Qed.
End normalised.
