(* ===== verification/Pathval.v ===== *)
(** * Certification path validation

    [crates/ostrich-x509/src/validation/]: the trust anchor store, the path
    builder and the path validator, on the [ParsedCertificate] of
    [crates/ostrich-x509/src/parser.rs].  The text chrono gives of an instant
    is the parameter [show_time]; a [CryptoProvider] is the function
    [provider_verify] of a key handle, an algorithm, a message and a
    signature. *)
From S2P Require Import Prelude Algorithm.
From stdpp Require Import base gmap strings list.
#[local] Open Scope Z_scope.

(** ** Data *)

Record ParsedCertificate := {
  serial_number : list u8;
  subject_dn : string;
  issuer_dn : string;
  not_before : DateTime;
  not_after : DateTime;
  public_key : list u8;
  signature : list u8;
  signature_algorithm : string;
  tbs_certificate : list u8;
  der_encoded : list u8;
  basic_constraints : option (bool * option Z);
  key_usage : option (list string);
  subject_alt_names : list string
}.

Inductive ValidationError :=
| ValidityPeriod (msg : string) | SignatureVerification (msg : string) | PathBuildingFailed
| UnknownCriticalExtension (msg : string) | NameConstraints (msg : string)
| BasicConstraintsError (msg : string) | KeyUsageError (msg : string)
| ExtendedKeyUsage (msg : string) | Revoked (msg : string) | PolicyProcessing (msg : string)
| PathLengthExceeded | IssuerNameMismatch (msg : string) | ParseError (msg : string)
| TrustAnchorNotFound | DatabaseError (msg : string) | CryptoError (msg : string)
| RevocationStatusUnknown (msg : string) | InvalidChain (msg : string)
| ConfigError (msg : string).

Record TrustAnchor := {
  ta_id : Uuid;
  ta_subject_dn : string;
  ta_subject_public_key : list u8;
  ta_subject_key_identifier : option (list u8);
  ta_certificate_der : option (list u8);
  ta_name_constraints : option string;
  ta_trust_policies : list string;
  ta_created_at : DateTime;
  ta_description : option string
}.

Definition new_anchor (fresh : Uuid) (now : DateTime) (subject : string) (key : list u8)
    (der : option (list u8)) : TrustAnchor :=
  {| ta_id := fresh; ta_subject_dn := subject; ta_subject_public_key := key;
     ta_subject_key_identifier := None; ta_certificate_der := der;
     ta_name_constraints := None; ta_trust_policies := []; ta_created_at := now;
     ta_description := None |}.

(** ** The trust anchor store: a vector *)

Abbreviation TrustAnchorStore := (list TrustAnchor).

Definition add_anchor (store : TrustAnchorStore) (anchor : TrustAnchor)
    : result Uuid ValidationError * TrustAnchorStore :=
  (Ok (ta_id anchor), store ++ [anchor]).

Definition remove_anchor (store : TrustAnchorStore) (i : Uuid)
    : result unit ValidationError * TrustAnchorStore :=
  let kept := filter (λ a, ta_id a ≠ i) store in
  (if (length kept =? length store)%nat then Err TrustAnchorNotFound else Ok tt, kept).

Definition find_by_issuer (store : TrustAnchorStore) (dn : string) : list TrustAnchor :=
  filter (λ a, ta_subject_dn a = dn) store.

Definition find_by_subject_key_identifier (store : TrustAnchorStore) (ski : list u8)
    : option TrustAnchor :=
  head (filter (λ a, ta_subject_key_identifier a = Some ski) store).

Definition get_anchor (store : TrustAnchorStore) (i : Uuid) : option TrustAnchor :=
  head (filter (λ a, ta_id a = i) store).

(** ** Building the path *)

Record PathBuilder := {
  pb_trust_anchors : TrustAnchorStore;
  pb_max_depth : nat;
  pb_enable_aia_fetching : bool
}.

Definition build_path (b : PathBuilder) (end_entity : ParsedCertificate)
    : result (list ParsedCertificate) ValidationError :=
  let chain := [end_entity] in
  let trust_anchors := find_by_issuer (pb_trust_anchors b) (issuer_dn end_entity) in
  if bool_decide (trust_anchors ≠ []) then Ok chain
  else if String.eqb (issuer_dn end_entity) (subject_dn end_entity) then Err TrustAnchorNotFound
  else Err PathBuildingFailed.

(** ** Extensions *)

Record BasicConstraints := { ca : bool; path_len_constraint : option Z }.

Record KeyUsage := {
  digital_signature : bool; non_repudiation : bool; key_encipherment : bool;
  data_encipherment : bool; key_agreement : bool; key_cert_sign : bool; crl_sign : bool;
  encipher_only : bool; decipher_only : bool
}.

(** Accepts every certificate. *)
Definition check_unknown_critical_extensions (cert : ParsedCertificate)
    : result unit ValidationError := Ok tt.

Definition get_basic_constraints (cert : ParsedCertificate)
    : result (option BasicConstraints) ValidationError :=
  Ok ((λ bc, {| ca := bc.1; path_len_constraint := bc.2 |}) <$> basic_constraints cert).

Definition get_key_usage (cert : ParsedCertificate) : result (option KeyUsage) ValidationError :=
  Ok ((λ usages,
    {| digital_signature := contains "digitalSignature" usages;
       non_repudiation := contains "nonRepudiation" usages;
       key_encipherment := contains "keyEncipherment" usages;
       data_encipherment := contains "dataEncipherment" usages;
       key_agreement := contains "keyAgreement" usages;
       key_cert_sign := contains "keyCertSign" usages;
       crl_sign := contains "cRLSign" usages;
       encipher_only := contains "encipherOnly" usages;
       decipher_only := contains "decipherOnly" usages |}) <$> key_usage cert).

(** ** Validating the path *)

Record ValidationContext := {
  certificate : ParsedCertificate;
  trust_anchors : TrustAnchorStore;
  validation_time : DateTime;
  max_path_length : nat;
  check_revocation : bool;
  enable_aia_fetching : bool
}.

Definition new_context (now : DateTime) (cert : ParsedCertificate) (anchors : TrustAnchorStore)
    : ValidationContext :=
  {| certificate := cert; trust_anchors := anchors; validation_time := now;
     max_path_length := 10; check_revocation := false; enable_aia_fetching := false |}.

Record ValidationState := {
  working_issuer_name : string;
  working_public_key : list u8;
  remaining_path_length : option Z
}.

Definition new_state (anchor : TrustAnchor) (max_path : nat) : ValidationState :=
  {| working_issuer_name := ta_subject_dn anchor;
     working_public_key := ta_subject_public_key anchor;
     remaining_path_length := Some (Z.of_nat max_path) |}.

Record ValidationResult := {
  valid : bool;
  chain : list ParsedCertificate;
  trust_anchor_id : Uuid;
  errors : list ValidationError;
  validated_at : DateTime
}.

Section validate.
Context (show_time : DateTime → string).

Definition check_validity_period (cert : ParsedCertificate) (now : DateTime)
    : result unit ValidationError :=
  if now <? not_before cert then
    Err (ValidityPeriod ("Certificate not yet valid. Valid from: " +:+
      show_time (not_before cert) +:+ ", Current time: " +:+ show_time now))
  else if not_after cert <? now then
    Err (ValidityPeriod ("Certificate expired. Valid until: " +:+
      show_time (not_after cert) +:+ ", Current time: " +:+ show_time now))
  else Ok tt.

Definition verify_issuer_name (cert : ParsedCertificate) (state : ValidationState)
    : result unit ValidationError :=
  if negb (String.eqb (issuer_dn cert) (working_issuer_name state)) then
    Err (IssuerNameMismatch ("Expected: " +:+ working_issuer_name state +:+
                             ", Found: " +:+ issuer_dn cert))
  else Ok tt.

Definition process_basic_constraints (cert : ParsedCertificate) (state : ValidationState)
    : result ValidationState ValidationError :=
  let? bc := get_basic_constraints cert in
  match bc with
  | Some {| ca := true; path_len_constraint := Some path_len |} =>
      match remaining_path_length state with
      | Some current_max =>
          Ok {| working_issuer_name := working_issuer_name state;
                working_public_key := working_public_key state;
                remaining_path_length := Some (Z.min current_max path_len) |}
      | None => Ok state
      end
  | _ => Ok state
  end.

Definition verify_ca_key_usage (cert : ParsedCertificate) : result unit ValidationError :=
  let? ku := get_key_usage cert in
  match ku with
  | Some ku => if negb (key_cert_sign ku)
               then Err (KeyUsageError "CA certificate must have keyCertSign usage")
               else Ok tt
  | None => Ok tt
  end.

(** The state is left by the steps before the one that fails; basic
    constraints are the only step that changes it before the end. *)
Definition process_certificate (cert : ParsedCertificate) (index : nat)
    (state : ValidationState) (ctx : ValidationContext) (chain_len : nat)
    : result unit ValidationError * ValidationState :=
  let before :=
    let? _ := check_validity_period cert (validation_time ctx) in
    let? _ := verify_issuer_name cert state in
    let? _ := check_unknown_critical_extensions cert in
    process_basic_constraints cert state in
  match before with
  | Err e => (Err e, state)
  | Ok state =>
      let usage := if (index <? chain_len - 1)%nat then verify_ca_key_usage cert else Ok tt in
      match usage with
      | Err e => (Err e, state)
      | Ok _ =>
          (Ok tt, {| working_issuer_name := subject_dn cert;
                     working_public_key := working_public_key state;
                     remaining_path_length := remaining_path_length state |})
      end
  end.

(** The loop over the chain, collecting errors. *)
Fixpoint process_chain (certs : list ParsedCertificate) (index : nat)
    (state : ValidationState) (ctx : ValidationContext) (chain_len : nat)
    : list ValidationError :=
  match certs with
  | [] => []
  | cert :: certs =>
      let (r, state) := process_certificate cert index state ctx chain_len in
      let rest := process_chain certs (S index) state ctx chain_len in
      match r with Err e => e :: rest | Ok _ => rest end
  end.

Definition find_trust_anchor (chain : list ParsedCertificate) (anchors : TrustAnchorStore)
    : result TrustAnchor ValidationError :=
  let? last_cert := ok_or (last chain) (InvalidChain "Empty chain") in
  ok_or (head (find_by_issuer anchors (issuer_dn last_cert))) TrustAnchorNotFound.

Definition validate (ctx : ValidationContext) : result ValidationResult ValidationError :=
  let builder := {| pb_trust_anchors := trust_anchors ctx; pb_max_depth := max_path_length ctx;
                    pb_enable_aia_fetching := enable_aia_fetching ctx |} in
  let? chain := build_path builder (certificate ctx) in
  let? trust_anchor := find_trust_anchor chain (trust_anchors ctx) in
  let errors := process_chain chain 0 (new_state trust_anchor (max_path_length ctx)) ctx
                  (length chain) in
  Ok {| valid := bool_decide (errors = []); chain := chain;
        trust_anchor_id := ta_id trust_anchor; errors := errors;
        validated_at := validation_time ctx |}.

(** ** Signatures

    [verify_signature] is written, and not called by [process_certificate]. *)

Inductive ProviderId := Pkcs11 (slot_id : N) | Software.

Record KeyHandle := {
  provider_id : ProviderId;
  key_id : list u8;
  key_type : KeyType;
  algorithm : Algorithm;
  label : string
}.

Context (algorithm_debug : Algorithm → string).

(** [fresh]: the bytes of the identifier drawn. *)
Definition import_public_key_for_verification (fresh spki_der : list u8) (a : Algorithm)
    : result KeyHandle ValidationError :=
  let? key_type :=
    match a with
    | RsaPkcs1Sha256 | RsaPkcs1Sha384 | RsaPkcs1Sha512
    | RsaPssSha256 | RsaPssSha384 | RsaPssSha512 => Ok Rsa2048
    | EcdsaP256Sha256 => Ok EcP256
    | EcdsaP384Sha384 => Ok EcP384
    | EcdsaP521Sha512 => Ok EcP521
    | Ed25519 => Ok KEd25519
    | _ => Err (SignatureVerification ("Unsupported signature algorithm: " +:+ algorithm_debug a))
    end in
  Ok {| provider_id := Software; key_id := fresh; key_type := key_type; algorithm := a;
        label := "temp-verification-key" |}.

Definition map_signature_algorithm_oid (oid : string) : result Algorithm ValidationError :=
  ok_or (table_lookup oid
    [("1.2.840.113549.1.1.11", RsaPkcs1Sha256); ("1.2.840.113549.1.1.12", RsaPkcs1Sha384);
     ("1.2.840.113549.1.1.13", RsaPkcs1Sha512); ("1.2.840.113549.1.1.10", RsaPssSha256);
     ("1.2.840.10045.4.3.2", EcdsaP256Sha256); ("1.2.840.10045.4.3.3", EcdsaP384Sha384);
     ("1.2.840.10045.4.3.4", EcdsaP521Sha512); ("1.3.101.112", Ed25519)])
    (SignatureVerification ("Unsupported signature algorithm OID: " +:+ oid)).

(** [CryptoProvider::verify], its error as text. *)
Context (provider_verify :
  KeyHandle → Algorithm → list u8 → list u8 → result bool string).

Definition verify_signature (fresh : list u8) (cert : ParsedCertificate)
    (issuer_public_key : list u8) : result unit ValidationError :=
  let? a := map_signature_algorithm_oid (signature_algorithm cert) in
  let? key_handle := import_public_key_for_verification fresh issuer_public_key a in
  match provider_verify key_handle a (tbs_certificate cert) (signature cert) with
  | Err e => Err (SignatureVerification ("Crypto error: " +:+ e))
  | Ok false => Err (SignatureVerification "Invalid signature")
  | Ok true => Ok tt
  end.

(** ** Lemmas *)

Lemma filter_nonempty_fmap (store : TrustAnchorStore) dn :
  filter (λ a, ta_subject_dn a = dn) store ≠ [] ↔ dn ∈ ta_subject_dn <$> store.
Proof.
  induction store as [|a store IH]; [set_solver|]. rewrite fmap_cons, elem_of_cons, <- IH.
  destruct (decide (ta_subject_dn a = dn)) as [Hd|Hd].
  - rewrite filter_cons_True by done. split; [intros _; by left|done].
  - rewrite filter_cons_False by done. split; [by right|]. intros [->|]; done.
Qed.

Lemma find_by_issuer_head store dn :
  match head (find_by_issuer store dn) with
  | Some a => a ∈ store ∧ ta_subject_dn a = dn ∧ find_by_issuer store dn ≠ []
  | None => find_by_issuer store dn = [] ∧ ∀ a, a ∈ store → ta_subject_dn a ≠ dn
  end.
Proof.
  destruct (find_by_issuer store dn) as [|a l] eqn:He; simpl.
  - split; [done|]. intros a Ha Hd.
    assert (a ∈ find_by_issuer store dn) as Hin by by apply list_elem_of_filter.
    rewrite He in Hin. set_solver.
  - assert (a ∈ find_by_issuer store dn) as Hin by (rewrite He; set_solver).
    apply list_elem_of_filter in Hin as [Hd Hin]. done.
Qed.

(** The times a certificate is valid at. *)
Definition in_validity (cert : ParsedCertificate) (now : DateTime) : Prop :=
  not_before cert ≤ now ≤ not_after cert.
#[export] Instance in_validity_dec cert now : Decision (in_validity cert now).
Proof. unfold in_validity. apply _. Defined.

Lemma check_validity_period_Ok cert now u :
  check_validity_period cert now = Ok u ↔ in_validity cert now.
Proof.
  unfold check_validity_period, in_validity. destruct u.
  destruct (Z.ltb_spec now (not_before cert)); [naive_solver lia|].
  destruct (Z.ltb_spec (not_after cert) now); naive_solver lia.
Qed.

Lemma verify_issuer_name_Ok cert state u :
  verify_issuer_name cert state = Ok u ↔ issuer_dn cert = working_issuer_name state.
Proof.
  unfold verify_issuer_name. destruct u.
  destruct (String.eqb_spec (issuer_dn cert) (working_issuer_name state)); naive_solver.
Qed.

Lemma process_basic_constraints_Ok cert state :
  ∃ state', process_basic_constraints cert state = Ok state' ∧
    working_issuer_name state' = working_issuer_name state.
Proof.
  unfold process_basic_constraints. simpl. destruct (basic_constraints cert) as [[[] [n|]]|]; eauto.
  simpl. destruct (remaining_path_length state); eauto.
Qed.

(** The key usage a certificate that is not the last of the chain needs. *)
Definition may_sign (cert : ParsedCertificate) : bool :=
  match key_usage cert with Some l => contains "keyCertSign" l | None => true end.

Lemma verify_ca_key_usage_Ok cert u : verify_ca_key_usage cert = Ok u ↔ may_sign cert = true.
Proof.
  unfold verify_ca_key_usage, may_sign. simpl. destruct u.
  destruct (key_usage cert) as [l|]; [|done]. simpl. by destruct (contains _ l).
Qed.

(** One certificate is accepted when it is valid now, was issued by the
    working issuer and, before the last position, may sign. *)
Definition cert_accepted (cert : ParsedCertificate) (index : nat) (issuer : string)
    (now : DateTime) (n : nat) : Prop :=
  in_validity cert now ∧ issuer_dn cert = issuer ∧
  (index < n - 1 → may_sign cert = true)%nat.

Lemma process_certificate_spec cert index state ctx n :
  let (r, state') := process_certificate cert index state ctx n in
  match r with
  | Ok _ => cert_accepted cert index (working_issuer_name state) (validation_time ctx) n ∧
            working_issuer_name state' = subject_dn cert
  | Err _ => ¬ cert_accepted cert index (working_issuer_name state) (validation_time ctx) n
  end.
Proof.
  unfold process_certificate, cert_accepted.
  pose proof (check_validity_period_Ok cert (validation_time ctx) tt) as Hv.
  pose proof (verify_issuer_name_Ok cert state tt) as Hi.
  destruct (process_basic_constraints_Ok cert state) as (state1 & Hb & _).
  destruct (check_validity_period _ _) as [[]|e]; simpl; [|naive_solver].
  destruct (verify_issuer_name _ _) as [[]|e]; simpl; [|naive_solver].
  rewrite Hb. simpl. pose proof (verify_ca_key_usage_Ok cert tt) as Hk.
  destruct (Nat.ltb_spec index (n - 1)); [|naive_solver lia].
  destruct (verify_ca_key_usage cert) as [[]|]; naive_solver.
Qed.

(** The names of a chain, each certificate issued by the one before it. *)
Fixpoint names_chain (issuer : string) (certs : list ParsedCertificate) : Prop :=
  match certs with
  | [] => True
  | c :: certs => issuer_dn c = issuer ∧ names_chain (subject_dn c) certs
  end.

Lemma process_chain_nil certs index state ctx n :
  process_chain certs index state ctx n = [] ↔
  names_chain (working_issuer_name state) certs ∧
  Forall (λ c, in_validity c (validation_time ctx)) certs ∧
  ∀ i c, certs !! i = Some c → (index + i < n - 1)%nat → may_sign c = true.
Proof.
  revert index state. induction certs as [|c certs IH]; intros index state; simpl.
  { split; [intros _; split_and!; [done|constructor|done]|done]. }
  pose proof (process_certificate_spec c index state ctx n) as Hs.
  destruct (process_certificate c index state ctx n) as [[[]|e] state'].
  - destruct Hs as [(Hv & Hi & Hk) Hw]. rewrite IH, Hw, Forall_cons. split.
    + intros (Hn & Hf & Hm). split_and!; [done..|]. intros [|i] x; simpl.
      * intros [= <-] Hlt. apply Hk. lia.
      * intros Hx Hlt. apply (Hm i x Hx). lia.
    + intros ([_ Hn] & [_ Hf] & Hm). split_and!; [done..|].
      intros i x Hx Hlt. apply (Hm (S i) x Hx). lia.
  - split; [done|]. intros ([Hi _] & Hf & Hm). exfalso. apply Hs. split_and!; [|done|].
    + by inversion Hf.
    + intros Hlt. apply (Hm 0%nat c eq_refl). lia.
Qed.

(** What is wrong with one certificate: the dates, then the issuer's name,
    then, when others follow it in the chain, the key usage. *)
Definition fault (now : DateTime) (issuer : string) (followed : bool) (c : ParsedCertificate)
    : option ValidationError :=
  if now <? not_before c then
    Some (ValidityPeriod ("Certificate not yet valid. Valid from: " +:+
      show_time (not_before c) +:+ ", Current time: " +:+ show_time now))
  else if not_after c <? now then
    Some (ValidityPeriod ("Certificate expired. Valid until: " +:+
      show_time (not_after c) +:+ ", Current time: " +:+ show_time now))
  else if bool_decide (issuer_dn c ≠ issuer) then
    Some (IssuerNameMismatch ("Expected: " +:+ issuer +:+ ", Found: " +:+ issuer_dn c))
  else if followed && negb (may_sign c) then
    Some (KeyUsageError "CA certificate must have keyCertSign usage")
  else None.

(** The faults of a chain: the issuer of a certificate is the last one before
    it without a fault, or the anchor. *)
Fixpoint faults (now : DateTime) (issuer : string) (certs : list ParsedCertificate)
    : list ValidationError :=
  match certs with
  | [] => []
  | c :: certs =>
      match fault now issuer (bool_decide (certs ≠ [])) c with
      | Some e => e :: faults now issuer certs
      | None => faults now (subject_dn c) certs
      end
  end.

Lemma process_certificate_fault cert index state ctx n :
  let (r, state') := process_certificate cert index state ctx n in
  match fault (validation_time ctx) (working_issuer_name state)
          (bool_decide (index < n - 1)%nat) cert with
  | Some e => r = Err e ∧ working_issuer_name state' = working_issuer_name state
  | None => r = Ok tt ∧ working_issuer_name state' = subject_dn cert
  end.
Proof.
  unfold process_certificate, fault, check_validity_period, verify_issuer_name.
  destruct (process_basic_constraints_Ok cert state) as (state1 & Hb & Hn).
  destruct (_ <? _); [done|]. destruct (_ <? _); [done|].
  destruct (String.eqb_spec (issuer_dn cert) (working_issuer_name state)) as [He|He]; simpl.
  2: { by rewrite bool_decide_eq_true_2. }
  rewrite bool_decide_eq_false_2 by (intros Hx; done). rewrite Hb. simpl.
  unfold verify_ca_key_usage, may_sign, get_key_usage.
  destruct (Nat.ltb_spec index (n - 1)).
  - rewrite bool_decide_eq_true_2 by done. simpl.
    destruct (key_usage cert) as [l|]; simpl; [|done]. by destruct (contains _ l).
  - rewrite bool_decide_eq_false_2 by lia. done.
Qed.

Lemma process_chain_faults certs index state ctx :
  process_chain certs index state ctx (index + length certs) =
  faults (validation_time ctx) (working_issuer_name state) certs.
Proof.
  revert index state. induction certs as [|c certs IH]; intros index state; [done|].
  cbn [process_chain faults]. rewrite Nat.add_comm. cbn [length]. rewrite Nat.add_comm.
  pose proof (process_certificate_fault c index state ctx (index + S (length certs))) as Hf.
  rewrite <- Nat.add_succ_comm in Hf |- *.
  destruct (process_certificate _ _ _ _ _) as [r state'].
  rewrite (bool_decide_ext (index < S index + length certs - 1)%nat (certs ≠ [])) in Hf
    by (destruct certs; simpl; split; intros; try lia; done).
  rewrite IH. destruct (fault _ _ _ c) as [e|]; destruct Hf as [-> ->]; done.
Qed.

(** The answer, in terms of the certificate, its dates and the anchors. *)
Definition validate_answer (ctx : ValidationContext) : result ValidationResult ValidationError :=
  let cert := certificate ctx in
  let now := validation_time ctx in
  match head (find_by_issuer (trust_anchors ctx) (issuer_dn cert)) with
  | None => Err (if String.eqb (issuer_dn cert) (subject_dn cert) then TrustAnchorNotFound
                 else PathBuildingFailed)
  | Some anchor =>
      Ok {| valid := bool_decide (in_validity cert now); chain := [cert];
            trust_anchor_id := ta_id anchor;
            errors := option_list (fault now (issuer_dn cert) false cert);
            validated_at := now |}
  end.

Lemma validate_eq ctx : validate ctx = validate_answer ctx.
Proof.
  unfold validate_answer. set (cert := certificate ctx). set (now := validation_time ctx).
  unfold validate, build_path, find_trust_anchor. cbn [pb_trust_anchors last length].
  fold cert.
  pose proof (find_by_issuer_head (trust_anchors ctx) (issuer_dn cert)) as Hf.
  destruct (head (find_by_issuer (trust_anchors ctx) (issuer_dn cert))) as [anchor|] eqn:Ha.
  - destruct Hf as (_ & Hd & Hne). rewrite bool_decide_eq_true_2 by done.
    cbn [res_bind last ok_or]. rewrite Ha. cbn [res_bind ok_or].
    rewrite (process_chain_faults [cert] 0). cbn [faults new_state working_issuer_name].
    rewrite Hd. fold now.
    rewrite (bool_decide_eq_false_2 (([] : list ParsedCertificate) ≠ [])) by (by intros []).
    f_equal. f_equal.
    apply bool_decide_ext. rewrite <- (check_validity_period_Ok _ _ tt).
    unfold check_validity_period, fault.
    destruct (_ <? _); [done|]. destruct (_ <? _); [done|].
    rewrite (bool_decide_eq_false_2 (issuer_dn cert ≠ issuer_dn cert)) by (by intros []).
    done.
  - destruct Hf as [-> _]. rewrite bool_decide_eq_false_2 by (by intros []).
    by destruct (String.eqb _ _).
Qed.

(** ** Properties *)

(** C37. What [validate] answers, on every input: without an anchor named as
    the certificate's issuer it fails, telling self-issued certificates apart;
    otherwise the chain is the certificate alone, the anchor the first of
    that name, the errors are the certificate's one date fault if it has one,
    and it is valid exactly within its dates.  And what its loop does with a
    chain of any length: it reports, in order, the first fault of each faulty
    certificate (not yet valid, expired, not issued by the last sound
    certificate before it or the anchor, or unable to sign while others
    follow), and nothing exactly when the names link from the anchor on,
    every certificate is within its dates and all but the last may sign. *)
Theorem validate_spec ctx :
  let cert := certificate ctx in
  let now := validation_time ctx in
  (validate ctx =
   match head (find_by_issuer (trust_anchors ctx) (issuer_dn cert)) with
   | None => Err (if String.eqb (issuer_dn cert) (subject_dn cert) then TrustAnchorNotFound
                  else PathBuildingFailed)
   | Some anchor =>
       Ok {| valid := bool_decide (in_validity cert now); chain := [cert];
             trust_anchor_id := ta_id anchor;
             errors := option_list (fault now (issuer_dn cert) false cert);
             validated_at := now |}
   end) ∧
  (∀ certs anchor max,
   let found := process_chain certs 0 (new_state anchor max) ctx (length certs) in
   found = faults now (ta_subject_dn anchor) certs ∧
   (found = [] ↔ names_chain (ta_subject_dn anchor) certs ∧
      Forall (λ c, in_validity c now) certs ∧
      ∀ i c, certs !! i = Some c → (i < length certs - 1)%nat → may_sign c = true)).
Proof.
  intros cert now. split; [|intros certs anchor max; split; [apply (process_chain_faults _ 0)|apply process_chain_nil]].
  apply validate_eq.
Qed.

(** The verdict depends on names and dates alone: two contexts that agree on
    the subject, issuer and dates of the certificate, on the time and on the
    names of the anchors agree on failing and on validity, whatever the
    signatures, signed bytes, keys (of the certificate and of the anchors),
    key usages, basic constraints and name constraints. *)
Theorem validate_ignores_signatures ctx ctx' :
  let c := certificate ctx in let c' := certificate ctx' in
  subject_dn c = subject_dn c' → issuer_dn c = issuer_dn c' →
  not_before c = not_before c' → not_after c = not_after c' →
  validation_time ctx = validation_time ctx' →
  ta_subject_dn <$> trust_anchors ctx = ta_subject_dn <$> trust_anchors ctx' →
  valid <$> (match validate ctx with Ok r => Some r | Err _ => None end) =
  valid <$> (match validate ctx' with Ok r => Some r | Err _ => None end).
Proof.
  intros c c' Hs Hi Hb Ha Ht Hn. rewrite !validate_eq. unfold validate_answer.
  fold c c'. rewrite <- Hi, <- Hs, <- Ht.
  assert (is_Some (head (find_by_issuer (trust_anchors ctx) (issuer_dn c))) ↔
          is_Some (head (find_by_issuer (trust_anchors ctx') (issuer_dn c)))) as Hh.
  { rewrite !head_is_Some. unfold find_by_issuer.
    rewrite !filter_nonempty_fmap. by rewrite Hn. }
  assert (bool_decide (in_validity c (validation_time ctx)) =
          bool_decide (in_validity c' (validation_time ctx))) as Hv.
  { apply bool_decide_ext. unfold in_validity. by rewrite Hb, Ha. }
  destruct (head (find_by_issuer (trust_anchors ctx) _)), (head (find_by_issuer (trust_anchors ctx') _));
    simpl; [by rewrite Hv|..|done]; destruct Hh as [H1 H2]; [destruct H1 as [? [=]]|destruct H2 as [? [=]]]; done.
Qed.

(** Each certificate issued by the next one, the last by the anchor: the
    order [build_path] documents. *)
Fixpoint leaf_first (certs : list ParsedCertificate) (anchor_dn : string) : Prop :=
  match certs with
  | [] => True
  | c :: certs =>
      issuer_dn c = match certs with d :: _ => subject_dn d | [] => anchor_dn end ∧
      leaf_first certs anchor_dn
  end.

(** The loop of [validate] walks the chain from the anchor's end: it accepts
    chains that start at the certificate the anchor issued.  A chain in the
    documented order, leaf first, with an intermediate certificate that does
    not bear the anchor's own name is never accepted. *)
Theorem leaf_first_chain_rejected leaf ca rest anchor max ctx n :
  leaf_first (leaf :: ca :: rest) (ta_subject_dn anchor) →
  subject_dn ca ≠ ta_subject_dn anchor →
  process_chain (leaf :: ca :: rest) 0 (new_state anchor max) ctx n ≠ [].
Proof. intros [Hl _] Hne ((Hi & _) & _)%process_chain_nil. simpl in *. congruence. Qed.
End validate.

Lemma filter_all {A} (P : A → Prop) `{!∀ x, Decision (P x)} (l : list A) :
  (∀ x, x ∈ l → P x) → filter P l = l.
Proof.
  induction l as [|x l IH]; intros Hall; [done|].
  rewrite filter_cons_True by (apply Hall; set_solver). f_equal. apply IH. set_solver.
Qed.

(** The store is a set of anchors by identifier: removing takes every anchor
    of the identifier and no other, and fails exactly when there is none;
    added anchors are found by name and, unless the identifier was there
    already, by identifier. *)
Theorem trust_anchor_store_spec (store : TrustAnchorStore) (anchor : TrustAnchor) (i : Uuid) :
  let (r, removed) := remove_anchor store i in
  let (r', added) := add_anchor store anchor in
  (is_ok r = true ↔ ∃ a, a ∈ store ∧ ta_id a = i) ∧
  (∀ a, a ∈ removed ↔ a ∈ store ∧ ta_id a ≠ i) ∧ get_anchor removed i = None ∧
  r' = Ok (ta_id anchor) ∧
  (∀ dn, find_by_issuer added dn =
    find_by_issuer store dn ++ if decide (ta_subject_dn anchor = dn) then [anchor] else []) ∧
  (get_anchor store (ta_id anchor) = None → get_anchor added (ta_id anchor) = Some anchor).
Proof.
  unfold remove_anchor, add_anchor, get_anchor, find_by_issuer.
  assert (∀ a, a ∈ filter (λ a, ta_id a ≠ i) store ↔ a ∈ store ∧ ta_id a ≠ i) as Hf.
  { intros a. rewrite list_elem_of_filter. naive_solver. }
  split_and!; [|exact Hf| |done| |].
  - destruct (Nat.eqb_spec (length (filter (λ a, ta_id a ≠ i) store)) (length store)) as [He|Hne].
    + split; [done|]. intros (a & Ha & Hi). exfalso.
      pose proof (length_filter_lt (λ a, ta_id a ≠ i) store a Ha). naive_solver lia.
    + split; [intros _|done]. destruct (decide (Exists (λ a, ta_id a = i) store)) as [Hx|Hx].
      * by apply Exists_exists in Hx.
      * destruct Hne. rewrite filter_all; [done|]. intros a Ha Hi. apply Hx, Exists_exists. eauto.
  - destruct (head (filter _ (filter _ store))) as [a|] eqn:He; [|done].
    apply head_Some_elem_of, list_elem_of_filter in He as [Hi He]. apply Hf in He. naive_solver.
  - intros dn. rewrite filter_app. by rewrite filter_singleton.
  - rewrite filter_app, head_app. intros ->. by rewrite filter_singleton_True by done.
Qed.

(** ** Witnesses *)

Definition toy_cert (subject issuer : string) (sig : list u8) : ParsedCertificate :=
  {| serial_number := [1]; subject_dn := subject; issuer_dn := issuer; not_before := 10;
     not_after := 20; public_key := []; signature := sig; signature_algorithm := "1.3.101.112";
     tbs_certificate := []; der_encoded := []; basic_constraints := None; key_usage := None;
     subject_alt_names := [] |}.
Definition toy_anchor (key : list u8) : TrustAnchor := new_anchor 5 0 "CN=Root" key None.

(** A certificate "signed" by nobody is as valid as any other. *)
Lemma validate_ignores_signatures_witness :
  valid <$> (match validate (λ _, "") (new_context 15 (toy_cert "CN=Evil" "CN=Root" [6; 6; 6])
                                         [toy_anchor [1]]) with Ok r => Some r | Err _ => None end)
  = Some true.
Proof.
  rewrite (validate_ignores_signatures (λ _, "")
             (new_context 15 (toy_cert "CN=Evil" "CN=Root" [6; 6; 6]) [toy_anchor [1]])
             (new_context 15 (toy_cert "CN=Evil" "CN=Root" [7]) [toy_anchor [2]]));
    reflexivity.
Defined.

(** A leaf, the intermediate that issued it, and a chain of the two in the
    order of the documentation. *)
Lemma leaf_first_chain_rejected_witness :
  process_chain (λ _, "") [toy_cert "CN=Leaf" "CN=Sub" []; toy_cert "CN=Sub" "CN=Root" []] 0
    (new_state (toy_anchor []) 10)
    (new_context 15 (toy_cert "CN=Leaf" "CN=Sub" []) [toy_anchor []]) 2 ≠ [].
Proof.
  apply (leaf_first_chain_rejected (λ _, "") (toy_cert "CN=Leaf" "CN=Sub" [])
           (toy_cert "CN=Sub" "CN=Root" []) []).
  - repeat split.
  - discriminate.
Defined.
