(* ===== verification/OcspRequest.v ===== *)
(** * OCSP requests

    [crates/ostrich-ocsp/src/request.rs], on the TLV reader of Der.v, and the
    errors of [crates/ostrich-ocsp/src/error.rs].  An object identifier is the
    [der] crate's; [OidLib] is what the code uses of it. *)
From stdpp Require Import base strings list.
From S2P Require Import Prelude Der.
#[local] Open Scope Z_scope.

(** [ObjectIdentifier::new(dotted)] then [as_bytes], and [from_bytes] then
    [to_string]. *)
Class OidLib := {
  oid_bytes : string → option (list u8);
  oid_of_bytes : list u8 → option string;
  oid_of_oid_bytes dotted b : oid_bytes dotted = Some b → oid_of_bytes b = Some dotted
}.

Inductive Error :=
| InvalidRequest (msg : string)
| MalformedRequest
| InternalError (msg : string)
| Unauthorized
| CertificateNotFound
| SigningError (msg : string)
| DatabaseError (msg : string)
| CryptoError (msg : string)
| CommonError (msg : string)
| DerError (msg : string).

Inductive HashAlgorithm := Sha1 | Sha256 | Sha384 | Sha512.
#[export] Instance HashAlgorithm_eq_dec : EqDecision HashAlgorithm.
Proof. solve_decision. Defined.

Definition hash_oid (h : HashAlgorithm) : string :=
  match h with
  | Sha1 => "1.3.14.3.2.26"
  | Sha256 => "2.16.840.1.101.3.4.2.1"
  | Sha384 => "2.16.840.1.101.3.4.2.2"
  | Sha512 => "2.16.840.1.101.3.4.2.3"
  end.

Definition oid_to_hash_algorithm (dotted : string) : result HashAlgorithm Error :=
  ok_or (table_lookup dotted
           [("1.3.14.3.2.26", Sha1); ("2.16.840.1.101.3.4.2.1", Sha256);
            ("2.16.840.1.101.3.4.2.2", Sha384); ("2.16.840.1.101.3.4.2.3", Sha512)])
        (InvalidRequest ("Unsupported hash algorithm OID: " +:+ dotted)).

Record OcspRequest := {
  serial_number : list u8;
  issuer_name_hash : list u8;
  issuer_key_hash : list u8;
  hash_algorithm : HashAlgorithm;
  nonce : option (list u8)
}.

(** [read_tlv(..).ok_or(MalformedRequest)?] and the check of its tag: the
    content and the rest. *)
Definition expect_tlv (tag : u8) (input : list u8) : result (list u8 * list u8) Error :=
  match read_tlv input with
  | Some (t, content, rest) => if t =? tag then Ok (content, rest) else Err MalformedRequest
  | None => Err MalformedRequest
  end.

(** An optional element: what follows it when it is there. *)
Definition skip_tlv (tag : u8) (cursor : list u8) : list u8 :=
  match read_tlv cursor with
  | Some (t, _, rest) => if t =? tag then rest else cursor
  | None => cursor
  end.

Definition NONCE_OID : list u8 := [43; 6; 1; 5; 5; 7; 48; 1; 2].

(** The [while] loop over the extensions; [None] when the fuel is used up. *)
Fixpoint nonce_loop (fuel : nat) (cursor : list u8) : option (result (option (list u8)) Error) :=
  match cursor with
  | [] => Some (Ok None)
  | _ =>
      match fuel with
      | O => None
      | S fuel =>
          match expect_tlv TAG_SEQUENCE cursor with
          | Err e => Some (Err e)
          | Ok (ext_content, rest) =>
              match expect_tlv TAG_OID ext_content with
              | Err e => Some (Err e)
              | Ok (ext_oid, after_oid) =>
                  match expect_tlv TAG_OCTET_STRING (skip_tlv 1 after_oid) with
                  | Err e => Some (Err e)
                  | Ok (extn_value, _) =>
                      if bool_decide (ext_oid = NONCE_OID) then
                        if (length extn_value =? 0)%nat || (32 <? length extn_value)%nat
                        then Some (Err MalformedRequest)
                        else Some (Ok (Some extn_value))
                      else nonce_loop fuel rest
                  end
              end
          end
      end
  end.

Definition find_nonce_extension (extensions_tlv : list u8)
    : option (result (option (list u8)) Error) :=
  match expect_tlv TAG_SEQUENCE extensions_tlv with
  | Err e => Some (Err e)
  | Ok (cursor, _) => nonce_loop (length cursor) cursor
  end.

Section parse.
Context `{!OidLib}.

(** The certificate a request names: [CertID]. *)
Definition parse_cert_id (cert_id : list u8)
    : result (HashAlgorithm * list u8 * list u8 * list u8) Error :=
  let? alg := expect_tlv TAG_SEQUENCE cert_id in
  let? alg_oid := expect_tlv TAG_OID alg.1 in
  let? dotted := ok_or (oid_of_bytes alg_oid.1) MalformedRequest in
  let? hash_algorithm := oid_to_hash_algorithm dotted in
  let? name := expect_tlv TAG_OCTET_STRING alg.2 in
  let? key := expect_tlv TAG_OCTET_STRING name.2 in
  let? serial := expect_tlv TAG_INTEGER key.2 in
  if (length serial.1 =? 0)%nat then Err MalformedRequest
  else Ok (hash_algorithm, name.1, key.1, serial.1).

(** [OcspRequest::from_der]; [None] when a loop ran out of fuel. *)
Definition from_der (input : list u8) : option (result OcspRequest Error) :=
  let parsed :=
    let? ocsp := expect_tlv TAG_SEQUENCE input in
    let? tbs := expect_tlv TAG_SEQUENCE ocsp.1 in
    let cursor := skip_tlv 161 (skip_tlv 160 tbs.1) in
    let? request_list := expect_tlv TAG_SEQUENCE cursor in
    let? request := expect_tlv TAG_SEQUENCE request_list.1 in
    let? cert_id := expect_tlv TAG_SEQUENCE request.1 in
    let? fields := parse_cert_id cert_id.1 in
    Ok (fields, request_list.2) in
  match parsed with
  | Err e => Some (Err e)
  | Ok (hash, name, key, serial, after_list) =>
      let found := match read_tlv after_list with
                   | Some (t, ext_explicit, _) =>
                       if t =? 162 then find_nonce_extension ext_explicit else Some (Ok None)
                   | None => Some (Ok None)
                   end in
      match found with
      | None => None
      | Some (Err e) => Some (Err e)
      | Some (Ok nonce) =>
          Some (Ok {| serial_number := serial; issuer_name_hash := name;
                      issuer_key_hash := key; hash_algorithm := hash; nonce := nonce |})
      end
  end.

(** ** Requests as clients write them

    RFC 6960 §4.1.1, with any algorithm parameters, version, requestor name,
    further requests, request extensions around the nonce and signature. *)
Record Shape := {
  sh_params : list u8;            (* after the OID of the AlgorithmIdentifier *)
  sh_version : option (list u8);  (* content of [0] *)
  sh_requestor : option (list u8);  (* content of [1] *)
  sh_single : list u8;            (* singleRequestExtensions *)
  sh_more : list u8;              (* further requests of the list *)
  sh_before : list (list u8 * option (list u8) * list u8);
                                  (* extensions before the nonce: OID, critical, value *)
  sh_after : list u8;             (* further extensions *)
  sh_signature : list u8;         (* optionalSignature *)
  sh_trailing : list u8
}.

Definition opt_tlv (tag : u8) (o : option (list u8)) : list u8 :=
  match o with Some c => tlv tag c | None => [] end.

Definition extension (e : list u8 * option (list u8) * list u8) : list u8 :=
  seq (tlv TAG_OID e.1.1 ++ opt_tlv 1 e.1.2 ++ octet_string e.2).

Definition cert_id_content (b : list u8) (sh : Shape) (r : OcspRequest) : list u8 :=
  seq (tlv TAG_OID b ++ sh_params sh) ++ octet_string (issuer_name_hash r) ++
  octet_string (issuer_key_hash r) ++ tlv TAG_INTEGER (serial_number r).

Definition extensions_part (sh : Shape) (r : OcspRequest) : list u8 :=
  match nonce r with
  | None => []
  | Some n => tlv 162 (seq (mjoin (extension <$> sh_before sh) ++
                            extension (NONCE_OID, None, n) ++ sh_after sh))
  end.

Definition tbs_content (b : list u8) (sh : Shape) (r : OcspRequest) : list u8 :=
  opt_tlv 160 (sh_version sh) ++ opt_tlv 161 (sh_requestor sh) ++
  seq (seq (seq (cert_id_content b sh r) ++ sh_single sh) ++ sh_more sh) ++
  extensions_part sh r.

Definition encode_request (b : list u8) (sh : Shape) (r : OcspRequest) : list u8 :=
  seq (seq (tbs_content b sh r) ++ sh_signature sh) ++ sh_trailing sh.
End parse.

(** ** Lemmas *)

Lemma table_lookup_elem {A} s (t : list (string * A)) v : table_lookup s t = Some v → (s, v) ∈ t.
Proof.
  induction t as [|[k x] t IH]; simpl; [done|]. destruct (String.eqb_spec s k) as [->|].
  - intros [= ->]. apply list_elem_of_here.
  - intros Hl. by apply list_elem_of_further, IH.
Qed.

Definition small (l : list u8) : Prop := Z.of_nat (length l) < 2 ^ 32.

Lemma small_app l1 l2 : small (l1 ++ l2) → small l1 ∧ small l2.
Proof. unfold small. rewrite length_app. lia. Qed.

Lemma length_tlv tag c : (2 + length c ≤ length (tlv tag c))%nat.
Proof.
  unfold tlv. cbn [length]. rewrite length_app. unfold der_length.
  destruct (_ <? 128); cbn [length]; lia.
Qed.

Lemma small_tlv tag c : small (tlv tag c) → small c.
Proof. unfold small. pose proof (length_tlv tag c). lia. Qed.

Lemma expect_tlv_tlv tag c rest : small c → expect_tlv tag (tlv tag c ++ rest) = Ok (c, rest).
Proof. intros Hc. unfold expect_tlv. rewrite read_tlv_tlv by done. by rewrite Z.eqb_refl. Qed.

Lemma expect_tlv_Ok tag input c rest :
  expect_tlv tag input = Ok (c, rest) →
  read_tlv input = Some (tag, c, rest) ∧
  ∃ header, input = tag :: header ++ c ++ rest ∧ (1 ≤ length header)%nat.
Proof.
  unfold expect_tlv. destruct (read_tlv input) as [[[t c'] rest']|] eqn:Hr; [|done].
  destruct (Z.eqb_spec t tag) as [->|]; [|done]. intros [= -> ->]. split; [done|].
  apply read_tlv_sound in Hr as (header & -> & Hh). exists header. split; [done|lia].
Qed.

Lemma expect_tlv_Err tag input e : expect_tlv tag input = Err e → e = MalformedRequest.
Proof. unfold expect_tlv. intros He. split_matches. Qed.

Lemma skip_tlv_there tag c rest : small c → skip_tlv tag (tlv tag c ++ rest) = rest.
Proof. intros Hc. unfold skip_tlv. rewrite read_tlv_tlv by done. by rewrite Z.eqb_refl. Qed.

Lemma skip_tlv_other tag tag' c rest :
  tag ≠ tag' → small c → skip_tlv tag (tlv tag' c ++ rest) = tlv tag' c ++ rest.
Proof.
  intros Ht Hc. unfold skip_tlv. rewrite read_tlv_tlv by done.
  by destruct (Z.eqb_spec tag' tag).
Qed.

Lemma skip_opt_tlv tag tag' o c rest :
  tag ≠ tag' → small (opt_tlv tag o) → small c →
  skip_tlv tag (opt_tlv tag o ++ tlv tag' c ++ rest) = tlv tag' c ++ rest.
Proof.
  intros Ht Ho Hc. destruct o as [x|]; simpl in *.
  - by apply skip_tlv_there, (small_tlv tag).
  - by apply skip_tlv_other.
Qed.

(** *** The loop over the extensions *)

Lemma nonce_loop_total fuel cursor :
  (length cursor ≤ fuel)%nat → ∃ r, nonce_loop fuel cursor = Some r.
Proof.
  revert cursor. induction fuel as [|fuel IH]; intros cursor Hl;
    (destruct cursor as [|b cursor]; simpl; [by eexists|]); [simpl in Hl; lia|].
  destruct (expect_tlv TAG_SEQUENCE (b :: cursor)) as [[content rest]|e] eqn:He; [|by eexists].
  apply expect_tlv_Ok in He as (_ & header & Hi & Hh).
  destruct (expect_tlv TAG_OID content) as [[o a]|e]; [|by eexists].
  destruct (expect_tlv _ (skip_tlv 1 a)) as [[v x]|e]; [|by eexists].
  destruct (bool_decide _); [destruct (_ || _); by eexists|]. apply IH.
  apply (f_equal length) in Hi. simpl in *. rewrite !length_app in Hi. lia.
Qed.

(** A nonce the loop finds has 1 to 32 bytes. *)
Definition nonce_ok (n : option (list u8)) : Prop :=
  match n with Some n => (1 ≤ length n ≤ 32)%nat | None => True end.

(** [part] is a contiguous part of [whole]. *)
Definition within (part whole : list u8) : Prop := ∃ before after, whole = before ++ part ++ after.

Lemma within_refl l : within l l.
Proof. exists [], []. by rewrite app_nil_r. Qed.

Lemma within_trans a b c : within a b → within b c → within a c.
Proof.
  intros (p & q & ->) (p' & q' & ->). exists (p' ++ p), (q ++ q'). by rewrite <- !app_assoc.
Qed.

Lemma expect_tlv_within tag input c rest :
  expect_tlv tag input = Ok (c, rest) → within c input ∧ within rest input.
Proof.
  intros (_ & header & -> & _)%expect_tlv_Ok. split.
  - exists (tag :: header), rest. by rewrite <- app_comm_cons.
  - exists (tag :: header ++ c), []. by rewrite app_nil_r, <- app_comm_cons, <- app_assoc.
Qed.

Lemma skip_tlv_within tag l : within (skip_tlv tag l) l.
Proof.
  unfold skip_tlv. destruct (read_tlv l) as [[[t c] rest]|] eqn:Hr; [|apply within_refl].
  destruct (t =? tag); [|apply within_refl]. apply read_tlv_sound in Hr as (hd & -> & _).
  exists (t :: hd ++ c), []. by rewrite app_nil_r, <- app_comm_cons, <- app_assoc.
Qed.

(** The nonce read from an extension that lies in [l]: its identifier, the
    critical flag if there is one, its value. *)
Definition nonce_from (l : list u8) (n : option (list u8)) : Prop :=
  match n with
  | None => True
  | Some n => ∃ ext after_oid rest, within ext l ∧
      read_tlv ext = Some (TAG_OID, NONCE_OID, after_oid) ∧
      read_tlv (skip_tlv 1 after_oid) = Some (TAG_OCTET_STRING, n, rest)
  end.

Lemma nonce_from_within l l' n : within l l' → nonce_from l n → nonce_from l' n.
Proof.
  destruct n as [n|]; [|done]. intros Hl (e & a & r & He & Hr). exists e, a, r.
  split; [by eapply within_trans|done].
Qed.

Lemma nonce_loop_ok fuel cursor r :
  nonce_loop fuel cursor = Some r →
  match r with Ok n => nonce_ok n ∧ nonce_from cursor n | Err e => e = MalformedRequest end.
Proof.
  revert cursor. induction fuel as [|fuel IH]; intros [|b cursor]; simpl; try (by intros [= <-]).
  destruct (expect_tlv TAG_SEQUENCE _) as [[content rest]|e] eqn:E1;
    [|intros [= <-]; by eapply expect_tlv_Err].
  destruct (expect_tlv TAG_OID content) as [[o a]|e] eqn:E2;
    [|intros [= <-]; by eapply expect_tlv_Err].
  destruct (expect_tlv _ (skip_tlv 1 a)) as [[v x]|e] eqn:E3;
    [|intros [= <-]; by eapply expect_tlv_Err].
  pose proof (expect_tlv_within _ _ _ _ E1) as [Hc Hr].
  destruct (bool_decide _) eqn:Ho.
  2: { intros Hl%IH. destruct r; [|done]. destruct Hl as [? Hl]. split; [done|].
       by eapply nonce_from_within. }
  apply bool_decide_eq_true in Ho as ->.
  destruct (_ || _) eqn:Hv; intros [= <-]; [done|].
  apply orb_false_iff in Hv as [Hv%Nat.eqb_neq Hv'%Nat.ltb_ge]. split; [simpl; lia|].
  exists content, a, x. split_and!; [done|..].
  - by apply expect_tlv_Ok in E2 as [-> _].
  - by apply expect_tlv_Ok in E3 as [-> _].
Qed.

Lemma find_nonce_total l : ∃ r, find_nonce_extension l = Some r ∧
  match r with Ok n => nonce_ok n ∧ nonce_from l n | Err e => e = MalformedRequest end.
Proof.
  unfold find_nonce_extension. destruct (expect_tlv _ l) as [[c x]|e] eqn:E.
  - destruct (nonce_loop_total (length c) c (Nat.le_refl _)) as [r Hr].
    exists r. split; [done|]. apply nonce_loop_ok in Hr. destruct r; [|done].
    destruct Hr as [? Hn]. split; [done|]. eapply nonce_from_within; [|done].
    exact (proj1 (expect_tlv_within _ _ _ _ E)).
  - exists (Err e). split; [done|]. by eapply expect_tlv_Err.
Qed.

(** One extension that is not the nonce is passed over. *)
Definition skipped (e : list u8 * option (list u8) * list u8) : Prop := e.1.1 ≠ NONCE_OID.

Lemma small_extension e : small (extension e) →
  small (tlv TAG_OID e.1.1 ++ opt_tlv 1 e.1.2 ++ octet_string e.2) ∧
  small (tlv TAG_OID e.1.1) ∧ small (opt_tlv 1 e.1.2) ∧ small (octet_string e.2).
Proof.
  intros Hs%small_tlv. split; [done|]. apply small_app in Hs as [? Hs].
  by apply small_app in Hs as [? ?].
Qed.

Lemma nonce_loop_extension fuel e rest :
  small (extension e) →
  nonce_loop (S fuel) (extension e ++ rest) =
  if bool_decide (e.1.1 = NONCE_OID) then
    if (length e.2 =? 0)%nat || (32 <? length e.2)%nat
    then Some (Err MalformedRequest) else Some (Ok (Some e.2))
  else nonce_loop fuel rest.
Proof.
  intros (Hall & Ho & Hc & Hv)%small_extension. destruct e as [[o c] v]. cbn [fst snd] in *.
  assert (∀ cursor, cursor ≠ [] → nonce_loop (S fuel) cursor =
    match expect_tlv TAG_SEQUENCE cursor with
    | Err e => Some (Err e)
    | Ok (ext_content, rest) =>
        match expect_tlv TAG_OID ext_content with
        | Err e => Some (Err e)
        | Ok (ext_oid, after_oid) =>
            match expect_tlv TAG_OCTET_STRING (skip_tlv 1 after_oid) with
            | Err e => Some (Err e)
            | Ok (extn_value, _) =>
                if bool_decide (ext_oid = NONCE_OID) then
                  if (length extn_value =? 0)%nat || (32 <? length extn_value)%nat
                  then Some (Err MalformedRequest)
                  else Some (Ok (Some extn_value))
                else nonce_loop fuel rest
            end
        end
    end) as -> by (by intros []); [|done].
  unfold extension at 1, seq at 1. cbn [fst snd]. rewrite expect_tlv_tlv by done.
  rewrite expect_tlv_tlv by (by eapply small_tlv).
  replace (skip_tlv 1 (opt_tlv 1 c ++ octet_string v)) with (octet_string v).
  2: { rewrite <- (app_nil_r (octet_string v)). unfold octet_string.
       symmetry. apply skip_opt_tlv; [done|done|by eapply small_tlv]. }
  rewrite <- (app_nil_r (octet_string v)). unfold octet_string.
  by rewrite expect_tlv_tlv by (by eapply small_tlv).
Qed.

Lemma nonce_loop_before fuel before n after :
  Forall skipped before → (1 ≤ length n ≤ 32)%nat →
  (length (mjoin (extension <$> before) ++ extension (NONCE_OID, None, n) ++ after) ≤ fuel)%nat →
  small (mjoin (extension <$> before) ++ extension (NONCE_OID, None, n) ++ after) →
  nonce_loop fuel (mjoin (extension <$> before) ++ extension (NONCE_OID, None, n) ++ after)
  = Some (Ok (Some n)).
Proof.
  intros Hb Hn. revert fuel. induction Hb as [|e before He Hb IH]; intros fuel Hf Hs.
  - change (mjoin (extension <$> [])) with (@nil u8) in *. rewrite app_nil_l in *.
    apply small_app in Hs as [Hs _]. rewrite length_app in Hf.
    pose proof (length_tlv TAG_SEQUENCE (tlv TAG_OID NONCE_OID ++ [] ++ octet_string n)) as Hlen.
    change (tlv TAG_SEQUENCE _) with (extension (NONCE_OID, None, n)) in Hlen.
    destruct fuel as [|fuel]; [lia|]. rewrite nonce_loop_extension by done. cbn [fst snd].
    rewrite bool_decide_eq_true_2 by done.
    rewrite (proj2 (Nat.eqb_neq _ _)), (proj2 (Nat.ltb_ge _ _)) by lia. done.
  - change (mjoin (extension <$> e :: before))
      with (extension e ++ mjoin (extension <$> before)) in *.
    rewrite <- app_assoc in *. rewrite length_app in Hf. apply small_app in Hs as [Hse Hs].
    pose proof (length_tlv TAG_SEQUENCE (tlv TAG_OID e.1.1 ++ opt_tlv 1 e.1.2 ++ octet_string e.2)) as Hlen.
    change (tlv TAG_SEQUENCE _) with (extension e) in Hlen.
    destruct fuel as [|fuel]; [lia|].
    rewrite nonce_loop_extension by done. rewrite bool_decide_eq_false_2 by done.
    apply IH; [lia|done].
Qed.

Lemma skip_version v q c rest :
  small (opt_tlv 160 v) → small (opt_tlv 161 q) → small c →
  skip_tlv 161 (skip_tlv 160 (opt_tlv 160 v ++ opt_tlv 161 q ++ seq c ++ rest)) = seq c ++ rest.
Proof.
  intros Hv Hq Hc. unfold seq.
  assert (skip_tlv 160 (opt_tlv 160 v ++ opt_tlv 161 q ++ tlv TAG_SEQUENCE c ++ rest) =
          opt_tlv 161 q ++ tlv TAG_SEQUENCE c ++ rest) as ->.
  { destruct q as [q|]; simpl opt_tlv.
    - apply skip_opt_tlv; [done|done|by eapply small_tlv].
    - by apply skip_opt_tlv. }
  by apply skip_opt_tlv.
Qed.

Section properties.
Context `{!OidLib}.

Lemma parse_cert_id_content b sh r :
  oid_bytes (hash_oid (hash_algorithm r)) = Some b → serial_number r ≠ [] →
  small (cert_id_content b sh r) →
  parse_cert_id (cert_id_content b sh r) =
  Ok (hash_algorithm r, issuer_name_hash r, issuer_key_hash r, serial_number r).
Proof.
  intros Hb Hs. unfold cert_id_content.
  intros [Halg%small_tlv [Hname%small_tlv [Hkey%small_tlv Hser%small_tlv]%small_app]%small_app]%small_app.
  unfold parse_cert_id, seq, octet_string. rewrite expect_tlv_tlv by done. cbn [res_bind fst snd].
  apply small_app in Halg as [Ho%small_tlv _]. rewrite expect_tlv_tlv by done.
  cbn [res_bind fst snd]. rewrite (oid_of_oid_bytes _ _ Hb). cbn [res_bind ok_or].
  assert (oid_to_hash_algorithm (hash_oid (hash_algorithm r)) = Ok (hash_algorithm r)) as ->
    by by destruct (hash_algorithm r).
  cbn [res_bind]. rewrite !expect_tlv_tlv by done. cbn [res_bind fst snd].
  rewrite expect_tlv_tlv by done. cbn [res_bind fst snd].
  rewrite <- (app_nil_r (tlv TAG_INTEGER _)), expect_tlv_tlv by done. cbn [res_bind fst snd].
  by destruct (serial_number r).
Qed.

(** The contents of a CertID: an algorithm whose identifier is the hash
    algorithm's, two octet strings and an integer, one after another. *)
Definition cert_id_of (c : list u8) (h : HashAlgorithm) (name key serial : list u8) : Prop :=
  ∃ alg oid params t1 t2 t3 t4,
    read_tlv c = Some (TAG_SEQUENCE, alg, t1) ∧ read_tlv alg = Some (TAG_OID, oid, params) ∧
    oid_of_bytes oid = Some (hash_oid h) ∧
    read_tlv t1 = Some (TAG_OCTET_STRING, name, t2) ∧
    read_tlv t2 = Some (TAG_OCTET_STRING, key, t3) ∧
    read_tlv t3 = Some (TAG_INTEGER, serial, t4) ∧ serial ≠ [].

Lemma oid_to_hash_algorithm_Ok dotted h :
  oid_to_hash_algorithm dotted = Ok h → dotted = hash_oid h.
Proof.
  unfold oid_to_hash_algorithm. destruct (table_lookup dotted _) as [h'|] eqn:Ht; [|done].
  intros [= ->]. apply table_lookup_elem in Ht.
  repeat (apply elem_of_cons in Ht as [[= -> ->]|Ht]; [done|]). by apply elem_of_nil in Ht.
Qed.

Lemma parse_cert_id_spec c :
  match parse_cert_id c with
  | Ok (h, name, key, serial) => cert_id_of c h name key serial
  | Err e => e = MalformedRequest ∨ ∃ msg, e = InvalidRequest msg
  end.
Proof.
  unfold parse_cert_id.
  destruct (expect_tlv TAG_SEQUENCE c) as [[alg aalg]|e] eqn:E1; simpl;
    [|left; by eapply expect_tlv_Err].
  destruct (expect_tlv TAG_OID alg) as [[o ao]|e] eqn:E2; simpl; [|left; by eapply expect_tlv_Err].
  destruct (oid_of_bytes o) as [dotted|] eqn:Hd; simpl; [|by left].
  destruct (oid_to_hash_algorithm dotted) as [h|e] eqn:Hh; simpl.
  2: { right. revert Hh. unfold oid_to_hash_algorithm.
       destruct (table_lookup dotted _); simpl; [done|]. intros [= <-]. eauto. }
  apply oid_to_hash_algorithm_Ok in Hh as ->.
  destruct (expect_tlv _ aalg) as [[name an]|e] eqn:E3; simpl; [|left; by eapply expect_tlv_Err].
  destruct (expect_tlv _ an) as [[key ak]|e] eqn:E4; simpl; [|left; by eapply expect_tlv_Err].
  destruct (expect_tlv _ ak) as [[serial rest]|e] eqn:E5; simpl; [|left; by eapply expect_tlv_Err].
  destruct (Nat.eqb_spec (length serial) 0) as [Hz|Hz]; [by left|].
  apply expect_tlv_Ok in E1 as [? _], E2 as [? _], E3 as [? _], E4 as [? _], E5 as [? _].
  exists alg, o, ao, aalg, an, ak, rest. split_and!; try done. by intros ->.
Qed.

(** Where a request's fields lie in the input: in the contents of one CertID
    in the first element of the request list, and the nonce in an extension
    after that list. *)
Definition located (input : list u8) (r : OcspRequest) : Prop :=
  ∃ list_content after_list request cert_id t1 t2 before after,
    input = before ++ list_content ++ after_list ++ after ∧
    read_tlv list_content = Some (TAG_SEQUENCE, request, t1) ∧
    read_tlv request = Some (TAG_SEQUENCE, cert_id, t2) ∧
    cert_id_of cert_id (hash_algorithm r) (issuer_name_hash r) (issuer_key_hash r)
      (serial_number r) ∧
    nonce_from after_list (nonce r).

Lemma within_list input c list_content after_list :
  within c input → expect_tlv TAG_SEQUENCE c = Ok (list_content, after_list) →
  ∃ before after, input = before ++ list_content ++ after_list ++ after.
Proof.
  intros (p & q & ->) (_ & hd & -> & _)%expect_tlv_Ok.
  exists (p ++ TAG_SEQUENCE :: hd), q. by rewrite <- !app_assoc, <- app_comm_cons, <- !app_assoc.
Qed.

Lemma from_der_outcome input :
  ∃ res, from_der input = Some res ∧
  match res with
  | Ok r => located input r ∧ nonce_ok (nonce r)
  | Err e => e = MalformedRequest ∨ ∃ msg, e = InvalidRequest msg
  end.
Proof.
  unfold from_der.
  destruct (expect_tlv TAG_SEQUENCE input) as [[ocsp x1]|e] eqn:E1; simpl;
    [|eexists; split; [done|left; by eapply expect_tlv_Err]].
  destruct (expect_tlv TAG_SEQUENCE ocsp) as [[tbs x2]|e] eqn:E2; simpl;
    [|eexists; split; [done|left; by eapply expect_tlv_Err]].
  set (cursor := skip_tlv 161 (skip_tlv 160 tbs)).
  destruct (expect_tlv TAG_SEQUENCE cursor) as [[rl after_list]|e] eqn:E3; simpl;
    [|eexists; split; [done|left; by eapply expect_tlv_Err]].
  destruct (expect_tlv TAG_SEQUENCE rl) as [[rq x4]|e] eqn:E4; simpl;
    [|eexists; split; [done|left; by eapply expect_tlv_Err]].
  destruct (expect_tlv TAG_SEQUENCE rq) as [[ci x5]|e] eqn:E5; simpl;
    [|eexists; split; [done|left; by eapply expect_tlv_Err]].
  pose proof (parse_cert_id_spec ci) as Hci.
  destruct (parse_cert_id ci) as [[[[h name] key] serial]|e]; simpl; [|by eexists].
  set (found := match read_tlv after_list with Some _ => _ | None => _ end).
  assert (∃ r, found = Some r ∧ match r with
            | Ok n => nonce_ok n ∧ nonce_from after_list n
            | Err e => e = MalformedRequest end)
    as ([n|e] & -> & Hn).
  { unfold found. destruct (read_tlv after_list) as [[[t c] x]|] eqn:Hr; [|by exists (Ok None)].
    destruct (t =? 162) eqn:Ht; [|by exists (Ok None)].
    destruct (find_nonce_total c) as (r & Hf & Hok). exists r. split; [done|].
    destruct r; [|done]. destruct Hok. split; [done|]. eapply nonce_from_within; [|done].
    apply (expect_tlv_within t _ c x). unfold expect_tlv. by rewrite Hr, Z.eqb_refl. }
  2: { eexists. split; [done|]. by left. }
  eexists. split; [done|]. destruct Hn as [Hok Hfrom]. split; [|exact Hok].
  assert (within cursor input) as Hcur.
  { eapply within_trans; [apply skip_tlv_within|]. eapply within_trans; [apply skip_tlv_within|].
    eapply within_trans; [exact (proj1 (expect_tlv_within _ _ _ _ E2))|].
    exact (proj1 (expect_tlv_within _ _ _ _ E1)). }
  destruct (within_list _ _ _ _ Hcur E3) as (before & after & Hin).
  apply expect_tlv_Ok in E4 as [? _], E5 as [? _].
  exists rl, after_list, rq, ci, x4, x5, before, after. done.
Qed.

(** C38. The parser answers every input, without using up its fuel.  An error
    is one of the two the handler answers with 400.  An accepted request is
    read from the input: the first request of the list has a CertID whose
    contents are, in this order, the algorithm whose identifier names the
    hash algorithm, the octet string that is the issuer's name hash, the
    octet string that is the issuer's key hash and the integer that is the
    serial number, which is not empty; and a nonce is the value of an
    extension after the list that carries the nonce's identifier, of 1 to 32
    bytes. *)
Theorem from_der_total input :
  ∃ res, from_der input = Some res ∧
  match res with
  | Ok r => located input r ∧ nonce_ok (nonce r)
  | Err e => e = MalformedRequest ∨ ∃ msg, e = InvalidRequest msg
  end.
Proof. apply from_der_outcome. Qed.

(** What clients send is read back: a request written as RFC 6960 has it is
    parsed to its fields, whatever algorithm parameters, version, requestor
    name, per-request extensions, further requests, further extensions
    around the nonce (critical or not), signature and trailing bytes come
    with it. *)
Theorem request_roundtrip b sh r :
  oid_bytes (hash_oid (hash_algorithm r)) = Some b →
  serial_number r ≠ [] → nonce_ok (nonce r) → Forall skipped (sh_before sh) →
  small (encode_request b sh r) →
  from_der (encode_request b sh r) = Some (Ok r).
Proof.
  intros Hb Hser Hn Hbef [H1%small_tlv _]%small_app.
  apply small_app in H1 as Hx. destruct Hx as [H2%small_tlv _].
  apply small_app in H2 as Hx. destruct Hx as [Hv [Hq [H3%small_tlv Hext]%small_app]%small_app].
  apply small_app in H3 as Hx. destruct Hx as [H4%small_tlv _].
  apply small_app in H4 as Hx. destruct Hx as [H5%small_tlv _].
  unfold from_der, encode_request. unfold seq at 1. rewrite expect_tlv_tlv by done.
  cbn [res_bind fst snd]. unfold seq at 1. rewrite expect_tlv_tlv by done. cbn [res_bind fst snd].
  unfold tbs_content. rewrite skip_version by done. unfold seq at 1. rewrite expect_tlv_tlv by done.
  cbn [res_bind fst snd]. unfold seq at 1. rewrite expect_tlv_tlv by done. cbn [res_bind fst snd].
  unfold seq at 1. rewrite expect_tlv_tlv by done. cbn [res_bind fst snd].
  rewrite parse_cert_id_content by done. cbn [res_bind fst snd].
  destruct r as [serial name key h n]. unfold extensions_part in *. simpl nonce in *.
  destruct n as [n|]; [|done].
  rewrite <- (app_nil_r (tlv 162 _)), read_tlv_tlv by (by eapply small_tlv).
  change (162 =? 162) with true. cbv iota.
  apply small_tlv, small_tlv in Hext. unfold find_nonce_extension.
  rewrite <- (app_nil_r (seq _)). unfold seq at 1. rewrite expect_tlv_tlv by done.
  by rewrite nonce_loop_before.
Qed.
End properties.

(** ** Witness *)

Definition rfc_oids : list (string * list u8) :=
  [("1.3.14.3.2.26", [43; 14; 3; 2; 26]);
   ("2.16.840.1.101.3.4.2.1", [96; 134; 72; 1; 101; 3; 4; 2; 1]);
   ("2.16.840.1.101.3.4.2.2", [96; 134; 72; 1; 101; 3; 4; 2; 2]);
   ("2.16.840.1.101.3.4.2.3", [96; 134; 72; 1; 101; 3; 4; 2; 3]);
   ("1.3.6.1.5.5.7.48.1.1", [43; 6; 1; 5; 5; 7; 48; 1; 1]);
   ("1.3.6.1.5.5.7.48.1.2", NONCE_OID);
   ("1.3.101.112", [43; 101; 112])].
Definition rfc_oid_of_bytes (b : list u8) : option string :=
  find_map (λ p, if decide (p.2 = b) then Some p.1 else None) rfc_oids.

Lemma rfc_oid_inverse dotted b :
  table_lookup dotted rfc_oids = Some b → rfc_oid_of_bytes b = Some dotted.
Proof.
  intros Ht%table_lookup_elem. unfold rfc_oids in Ht.
  repeat (apply elem_of_cons in Ht as [[= -> ->]|Ht]; [reflexivity|]). by apply elem_of_nil in Ht.
Qed.

Definition rfc_lib : OidLib :=
  {| oid_bytes s := table_lookup s rfc_oids; oid_of_bytes := rfc_oid_of_bytes;
     oid_of_oid_bytes := rfc_oid_inverse |}.

(** A request with a critical extension before its nonce. *)
Lemma request_roundtrip_witness :
  @from_der rfc_lib
    (encode_request [43; 14; 3; 2; 26]
       {| sh_params := null; sh_version := Some [2; 1; 0]; sh_requestor := None; sh_single := [];
          sh_more := []; sh_before := [([43; 1], Some [255], [9])]; sh_after := [];
          sh_signature := []; sh_trailing := [] |}
       {| serial_number := [1; 2]; issuer_name_hash := [3]; issuer_key_hash := [4];
          hash_algorithm := Sha1; nonce := Some [7; 7] |})
  = Some (Ok {| serial_number := [1; 2]; issuer_name_hash := [3]; issuer_key_hash := [4];
                hash_algorithm := Sha1; nonce := Some [7; 7] |}).
Proof.
  apply (@request_roundtrip rfc_lib).
  - reflexivity.
  - discriminate.
  - simpl. lia.
  - repeat constructor. discriminate.
  - vm_compute. reflexivity.
Defined.
