(* ===== verification/Signing.v ===== *)
(** * Signature algorithms of the CA's signing paths

    [crates/ostrich-x509/src/signing.rs]: the algorithm for a key, its
    AlgorithmIdentifier and the X.509 form of a signature.  The [der] crate
    encodes an AlgorithmIdentifier and an [Ecdsa-Sig-Value] as DER has them,
    which is what Der.v writes; the derived [Debug] texts are parameters. *)
From stdpp Require Import base strings list gmap.
From S2P Require Import Prelude Algorithm Der OcspRequest.
#[local] Open Scope Z_scope.

Inductive CryptoErr := UnsupportedAlgorithm (msg : string) | Encoding (msg : string).

Section signing.
Context `{!OidLib} (debug_key : KeyType → string) (debug_algorithm : Algorithm → string)
  (debug_length : nat → string).

Definition recommended_signature_algorithm (k : KeyType) : result Algorithm CryptoErr :=
  match k with
  | Rsa2048 | Rsa3072 | Rsa4096 => Ok RsaPkcs1Sha256
  | EcP256 => Ok EcdsaP256Sha256
  | EcP384 => Ok EcdsaP384Sha384
  | KEd25519 => Ok Ed25519
  | EcP521 => Err (UnsupportedAlgorithm "ECDSA P-521 is not supported for CA signing (software provider does not implement P-521 signing)")
  | KMlDsa44 => Ok MlDsa44
  | KMlDsa65 => Ok MlDsa65
  | KMlDsa87 => Ok MlDsa87
  | other => Err (UnsupportedAlgorithm ("key type " +:+ debug_key other +:+ " is not a supported signing algorithm (KEM/SLH-DSA/Ed448 signing is not supported here)"))
  end.

(** The OID and whether the parameters are NULL (or absent). *)
Definition algorithm_identifier (a : Algorithm) : result (string * bool) CryptoErr :=
  match a with
  | RsaPkcs1Sha256 => Ok ("1.2.840.113549.1.1.11", true)
  | RsaPkcs1Sha384 => Ok ("1.2.840.113549.1.1.12", true)
  | RsaPkcs1Sha512 => Ok ("1.2.840.113549.1.1.13", true)
  | EcdsaP256Sha256 => Ok ("1.2.840.10045.4.3.2", false)
  | EcdsaP384Sha384 => Ok ("1.2.840.10045.4.3.3", false)
  | Ed25519 => Ok ("1.3.101.112", false)
  | MlDsa44 => Ok ("2.16.840.1.101.3.4.3.17", false)
  | MlDsa65 => Ok ("2.16.840.1.101.3.4.3.18", false)
  | MlDsa87 => Ok ("2.16.840.1.101.3.4.3.19", false)
  | other => Err (UnsupportedAlgorithm ("no X.509 AlgorithmIdentifier mapping for " +:+ debug_algorithm other +:+ " (classical agility supports RSA-PKCS1, ECDSA P-256/P-384, Ed25519)"))
  end.

Definition algorithm_identifier_der (a : Algorithm) : result (list u8) CryptoErr :=
  let? id := algorithm_identifier a in
  let? b := ok_or (oid_bytes id.1) (Encoding "failed to encode AlgorithmIdentifier") in
  Ok (seq (tlv TAG_OID b ++ if id.2 then null else [])).

Definition ecdsa_fixed_to_der (fixed : list u8) : result (list u8) CryptoErr :=
  let n := length fixed in
  if (n =? 0)%nat || negb (Nat.even n) then
    Err (Encoding ("invalid fixed ECDSA signature length " +:+ debug_length n +:+ " (expected non-zero even r||s)"))
  else Ok (seq (unsigned_integer (take (n / 2) fixed) ++ unsigned_integer (drop (n / 2) fixed))).

Definition encode_x509_signature (a : Algorithm) (raw : list u8) : result (list u8) CryptoErr :=
  match a with
  | EcdsaP256Sha256 | EcdsaP384Sha384 => ecdsa_fixed_to_der raw
  | _ => Ok raw
  end.

(** ** Lemmas *)

Lemma unsigned_integer_read m rest :
  Z.of_nat (length m) < 2 ^ 31 →
  read_tlv (unsigned_integer m ++ rest) = Some (TAG_INTEGER, integer_content m, rest).
Proof.
  intros Hm. unfold unsigned_integer. apply read_tlv_tlv.
  pose proof (integer_content_length m). lia.
Qed.

(** ** Properties *)

(** The algorithm chosen for a key is one the key can be used with, it has
    an AlgorithmIdentifier, and different algorithms have different OIDs, so
    the declared algorithm determines the one that signed.  (The choice has
    an answer for RSA, P-256, P-384, Ed25519 and ML-DSA keys only.) *)
Theorem recommended_algorithm_consistent k a :
  recommended_signature_algorithm k = Ok a →
  k ∈ compatible_key_types a ∧ is_hybrid a = false ∧
  (∃ id, algorithm_identifier a = Ok id) ∧
  (∀ a' id id', algorithm_identifier a = Ok id → algorithm_identifier a' = Ok id' →
     id.1 = id'.1 → a = a').
Proof.
  intros Hk. split_and!.
  - destruct k; simplify_eq/=; set_solver.
  - by destruct k; simplify_eq/=.
  - destruct k; simplify_eq/=; by eexists.
  - intros a' id id' Ha Ha' Hid. clear Hk.
    destruct a; try discriminate Ha; injection Ha as <-;
      (destruct a'; try discriminate Ha'; injection Ha' as <-; first [done|discriminate Hid]).
Qed.

(** Re-encoding an ECDSA signature loses nothing: from the DER value a
    reader gets two INTEGERs, minimal and not negative, whose numbers are
    the two halves of the fixed form; an odd or empty signature is refused. *)
Theorem ecdsa_signature_roundtrip fixed :
  u8_list fixed → Z.of_nat (length fixed) < 2 ^ 30 →
  match ecdsa_fixed_to_der fixed with
  | Err _ => length fixed = 0%nat ∨ Nat.odd (length fixed) = true
  | Ok der => ∃ r s r_content s_content,
      fixed = r ++ s ∧ length r = length s ∧ r ≠ [] ∧
      read_tlv der = Some (TAG_SEQUENCE, unsigned_integer r ++ unsigned_integer s, []) ∧
      read_tlv (unsigned_integer r ++ unsigned_integer s) =
        Some (TAG_INTEGER, r_content, unsigned_integer s) ∧
      read_tlv (unsigned_integer s) = Some (TAG_INTEGER, s_content, []) ∧
      minimal r_content ∧ be_val r_content = be_val r ∧
      minimal s_content ∧ be_val s_content = be_val s
  end.
Proof.
  intros Hu Hl. unfold ecdsa_fixed_to_der.
  destruct (Nat.eqb_spec (length fixed) 0) as [|Hz]; [by left|]. cbn [orb].
  destruct (Nat.even (length fixed)) eqn:He; cbn [negb];
    [|right; by rewrite <- Nat.negb_even, He].
  apply Nat.even_spec in He as [h Hh]. replace (length fixed / 2)%nat with h
    by (rewrite Hh, Nat.mul_comm, Nat.div_mul; done).
  assert (length (take h fixed) = h) as H1 by (rewrite length_take; lia).
  assert (length (drop h fixed) = h) as H2 by (rewrite length_drop; lia).
  destruct (integer_content_spec (take h fixed)) as [M1 V1]; [by apply Forall_take|].
  destruct (integer_content_spec (drop h fixed)) as [M2 V2]; [by apply Forall_drop|].
  exists (take h fixed), (drop h fixed), (integer_content (take h fixed)),
    (integer_content (drop h fixed)).
  split_and!; [by rewrite take_drop|congruence| | | | |done..].
  - intros Hn. rewrite Hn in H1. simpl in H1. lia.
  - unfold seq. rewrite <- (app_nil_r (tlv TAG_SEQUENCE _)). apply read_tlv_tlv.
    unfold unsigned_integer, tlv. cbn [length]. rewrite !length_app. cbn [length].
    rewrite !length_app.
    pose proof (integer_content_length (take h fixed)) as L1.
    pose proof (integer_content_length (drop h fixed)) as L2.
    assert (∀ n, 0 ≤ n < 2 ^ 31 → (length (der_length n) ≤ 5)%nat) as Hd.
    { intros n Hn. destruct (Z.lt_ge_cases n 128) as [Hs|Hs].
      - unfold der_length. rewrite (proj2 (Z.ltb_lt _ _)) by done. simpl. lia.
      - destruct (der_length_long n) as (k & bs & -> & Hk & Hk4 & _); [lia|]. cbn [length]. lia. }
    pose proof (Hd (Z.of_nat (length (integer_content (take h fixed)))) ltac:(lia)).
    pose proof (Hd (Z.of_nat (length (integer_content (drop h fixed)))) ltac:(lia)). lia.
  - apply unsigned_integer_read. lia.
  - rewrite <- (app_nil_r (unsigned_integer (drop h fixed))) at 1. apply unsigned_integer_read. lia.
Qed.
End signing.

Lemma recommended_algorithm_consistent_witness :
  EcP256 ∈ compatible_key_types EcdsaP256Sha256.
Proof.
  apply (recommended_algorithm_consistent (λ _, "") (λ _, "") EcP256 EcdsaP256Sha256). reflexivity.
Defined.

Lemma ecdsa_signature_roundtrip_witness :
  ∃ r s, [0; 1; 200; 3] = r ++ s ∧ length r = length s.
Proof.
  assert (u8_list [0; 1; 200; 3]) as Hu by (repeat constructor).
  assert (Z.of_nat (length [0; 1; 200; 3]) < 2 ^ 30) as Hl by reflexivity.
  destruct (ecdsa_signature_roundtrip (λ _, "") [0; 1; 200; 3] Hu Hl)
    as (r & s & _ & _ & Hf & Hrs & _).
  exists r, s. split; [exact Hf|exact Hrs].
Defined.
