(* ===== verification/OcspResponse.v ===== *)
(** * OCSP responses

    [crates/ostrich-ocsp/src/response.rs]: the to-be-signed ResponseData and
    the DER form of a response, on the encoders of Der.v.  chrono's calendar
    fields of an instant are the parameter [civil]. *)
From stdpp Require Import base strings list.
From S2P Require Import Prelude Der OcspRequest.
#[local] Open Scope Z_scope.
#[local] Arguments tlv : simpl never.
#[local] Arguments seq : simpl never.

Definition ID_PKIX_OCSP_BASIC : string := "1.3.6.1.5.5.7.48.1.1".
Definition ID_PKIX_OCSP_NONCE : string := "1.3.6.1.5.5.7.48.1.2".

Inductive ResponseStatus :=
| Successful | SMalformedRequest | SInternalError | TryLater | SigRequired | SUnauthorized.
#[export] Instance ResponseStatus_eq_dec : EqDecision ResponseStatus.
Proof. solve_decision. Defined.

Definition status_as_u8 (s : ResponseStatus) : u8 :=
  match s with
  | Successful => 0
  | SMalformedRequest => 1
  | SInternalError => 2
  | TryLater => 3
  | SigRequired => 5
  | SUnauthorized => 6
  end.

Inductive CertStatus :=
| Good
| Revoked (revocation_time : DateTime) (revocation_reason : option u8)
| Unknown.

Record SingleResponse := {
  sr_serial_number : list u8;
  sr_issuer_name_hash : list u8;
  sr_issuer_key_hash : list u8;
  sr_hash_algorithm : string;
  cert_status : CertStatus;
  this_update : DateTime;
  next_update : option DateTime
}.

Record OcspResponse := {
  response_status : ResponseStatus;
  responses : list SingleResponse;
  tbs_response_data : list u8;
  signature : list u8;
  signature_algorithm : list u8;
  signing_cert : list u8;
  produced_at : DateTime;
  resp_nonce : option (list u8)
}.

(** [OcspResponse::error]. *)
Definition error_response (now : DateTime) (s : ResponseStatus) : OcspResponse :=
  {| response_status := s; responses := []; tbs_response_data := []; signature := [];
     signature_algorithm := []; signing_cert := []; produced_at := now; resp_nonce := None |}.

Definition successful (now : DateTime) (rs : list SingleResponse) (tbs sig alg cert : list u8)
    (nonce : option (list u8)) : OcspResponse :=
  {| response_status := Successful; responses := rs; tbs_response_data := tbs; signature := sig;
     signature_algorithm := alg; signing_cert := cert; produced_at := now; resp_nonce := nonce |}.

Section response.
Context `{!OidLib} (civil : DateTime → Civil) (oid_error : string → string).

(** [der_util::oid]. *)
Definition der_oid (dotted : string) : result (list u8) Error :=
  oid (oid_bytes dotted) (InternalError ("Invalid OID '" +:+ dotted +:+ "': " +:+ oid_error dotted)).

Definition encode_cert_id (r : SingleResponse) : result (list u8) Error :=
  let? o := der_oid (sr_hash_algorithm r) in
  Ok (seq (seq (o ++ null) ++ octet_string (sr_issuer_name_hash r) ++
           octet_string (sr_issuer_key_hash r) ++ unsigned_integer (sr_serial_number r))).

Definition encode_cert_status (s : CertStatus) : list u8 :=
  match s with
  | Good => tlv 128 []
  | Revoked revocation_time revocation_reason =>
      tlv 161 (generalized_time (civil revocation_time) ++
               match revocation_reason with
               | Some reason => tlv 160 (enumerated reason)
               | None => []
               end)
  | Unknown => tlv 130 []
  end.

Definition encode_single_response (r : SingleResponse) : result (list u8) Error :=
  let? cert_id := encode_cert_id r in
  Ok (seq (cert_id ++ encode_cert_status (cert_status r) ++
           generalized_time (civil (this_update r)) ++
           match next_update r with
           | Some t => tlv 160 (generalized_time (civil t))
           | None => []
           end)).

Fixpoint encode_responses (rs : list SingleResponse) : result (list u8) Error :=
  match rs with
  | [] => Ok []
  | r :: rs =>
      let? one := encode_single_response r in
      let? more := encode_responses rs in
      Ok (one ++ more)
  end.

Definition encode_tbs_response_data (responder_name_der : list u8) (produced_at : DateTime)
    (rs : list SingleResponse) (nonce : option (list u8)) : result (list u8) Error :=
  let? responses_content := encode_responses rs in
  let? extensions :=
    match nonce with
    | None => Ok []
    | Some nonce_value =>
        let? o := der_oid ID_PKIX_OCSP_NONCE in
        Ok (tlv 161 (seq (seq (o ++ octet_string nonce_value))))
    end in
  Ok (seq (tlv 161 responder_name_der ++ generalized_time (civil produced_at) ++
           seq responses_content ++ extensions)).

Definition to_der (r : OcspResponse) : result (list u8) Error :=
  if negb (bool_decide (response_status r = Successful)) then
    Ok (seq (enumerated (status_as_u8 (response_status r))))
  else if (length (tbs_response_data r) =? 0)%nat then
    Err (InternalError "Successful OCSP response is missing signed tbsResponseData")
  else if (length (signature_algorithm r) =? 0)%nat then
    Err (InternalError "Successful OCSP response is missing signatureAlgorithm")
  else
    let certs := if (length (signing_cert r) =? 0)%nat then []
                 else tlv 160 (seq (signing_cert r)) in
    let basic := seq (tbs_response_data r ++ signature_algorithm r ++
                      bit_string (signature r) ++ certs) in
    let? o := der_oid ID_PKIX_OCSP_BASIC in
    let response_bytes := seq (o ++ octet_string basic) in
    Ok (seq (enumerated (status_as_u8 Successful) ++ tlv 160 response_bytes)).

(** ** A reader of responses

    What a relying party takes from the bytes: the bytes the signature is
    over, the algorithm, the signature and the certificates. *)
Definition element (input : list u8) : option (list u8 * list u8) :=
  '(_, _, rest) ← read_tlv input; Some (take (length input - length rest) input, rest).
Definition inside (tag : u8) (input : list u8) : option (list u8 * list u8) :=
  '(t, c, rest) ← read_tlv input; if t =? tag then Some (c, rest) else None.

Record Basic := { b_tbs : list u8; b_algorithm : list u8; b_signature : list u8; b_certs : list u8 }.

Definition decode_basic (input : list u8) : option Basic :=
  '(tbs, rest) ← element input;
  '(alg, rest) ← element rest;
  '(bits, certs) ← inside TAG_BIT_STRING rest;
  match bits with
  | 0 :: sig => Some {| b_tbs := tbs; b_algorithm := alg; b_signature := sig; b_certs := certs |}
  | _ => None
  end.

Definition decode_response (input : list u8) : option (u8 * option Basic) :=
  '(content, _) ← inside TAG_SEQUENCE input;
  '(status, rest) ← inside TAG_ENUMERATED content;
  match status with
  | [s] =>
      match rest with
      | [] => Some (s, None)
      | _ =>
          '(rb, _) ← inside 160 rest;
          '(rb, _) ← inside TAG_SEQUENCE rb;
          '(_, rb) ← inside TAG_OID rb;
          '(oct, _) ← inside TAG_OCTET_STRING rb;
          '(basic, _) ← inside TAG_SEQUENCE oct;
          b ← decode_basic basic; Some (s, Some b)
      end
  | _ => None
  end.

(** ** Lemmas *)

Lemma tlv_app_inj t c r t' c' r' :
  small c → small c' → tlv t c ++ r = tlv t' c' ++ r' → t = t' ∧ c = c' ∧ r = r'.
Proof.
  intros Hc Hc' He. pose proof (read_tlv_tlv t c r Hc) as H1.
  rewrite He, read_tlv_tlv in H1 by done. by simplify_eq.
Qed.

Lemma inside_tlv t c r : small c → inside t (tlv t c ++ r) = Some (c, r).
Proof. intros Hc. unfold inside. rewrite read_tlv_tlv by done. simpl. by rewrite Z.eqb_refl. Qed.

Lemma inside_tlv_end t c : small c → inside t (tlv t c) = Some (c, []).
Proof. intros Hc. rewrite <- (app_nil_r (tlv t c)). by apply inside_tlv. Qed.

Lemma element_tlv t c r : small c → element (tlv t c ++ r) = Some (tlv t c, r).
Proof.
  intros Hc. unfold element. rewrite read_tlv_tlv by done. cbn [mbind option_bind].
  by rewrite length_app, Nat.add_sub, take_app_length.
Qed.

Lemma der_oid_Ok dotted o : der_oid dotted = Ok o → ∃ b, oid_bytes dotted = Some b ∧ o = tlv TAG_OID b.
Proof.
  unfold der_oid, oid. destruct (oid_bytes dotted) as [b|]; simpl; [|done]. intros [= <-]. eauto.
Qed.

Lemma to_der_status r d :
  to_der r = Ok d → response_status r ≠ Successful →
  d = seq (enumerated (status_as_u8 (response_status r))).
Proof. unfold to_der. intros Hd Hs. rewrite bool_decide_eq_false_2 in Hd by done. by injection Hd. Qed.

(** *** The statement a SingleResponse makes *)

Definition same_status (s s' : CertStatus) : Prop :=
  match s, s' with
  | Good, Good | Unknown, Unknown => True
  | Revoked t reason, Revoked t' reason' => civil t = civil t' ∧ reason = reason'
  | _, _ => False
  end.

(** Equal up to the fractions of seconds of the times and leading zeros of
    the serial number, which the encoding does not carry. *)
Definition same_statement (r r' : SingleResponse) : Prop :=
  oid_bytes (sr_hash_algorithm r) = oid_bytes (sr_hash_algorithm r') ∧
  sr_issuer_name_hash r = sr_issuer_name_hash r' ∧
  sr_issuer_key_hash r = sr_issuer_key_hash r' ∧
  be_val (sr_serial_number r) = be_val (sr_serial_number r') ∧
  same_status (cert_status r) (cert_status r') ∧
  civil (this_update r) = civil (this_update r') ∧
  civil <$> next_update r = civil <$> next_update r'.

(** Bytes are bytes and years have four digits. *)
Definition response_ok (r : SingleResponse) : Prop :=
  u8_list (sr_serial_number r) ∧ Z.of_nat (length (sr_serial_number r)) < 2 ^ 31 ∧
  civil_ok (civil (this_update r)) ∧
  from_option (λ t, civil_ok (civil t)) True (next_update r) ∧
  match cert_status r with Revoked t _ => civil_ok (civil t) | _ => True end.

Lemma small_civil dt : civil_ok dt → small (civil_text dt).
Proof. intros [Hl _]%civil_text_length. unfold small. rewrite Hl. done. Qed.

Lemma time_app_inj dt dt' l l' :
  civil_ok dt → civil_ok dt' → generalized_time dt ++ l = generalized_time dt' ++ l' →
  dt = dt' ∧ l = l'.
Proof.
  intros Hd Hd' (_ & Hc & Hl)%tlv_app_inj; [|by apply small_civil..].
  split; [by apply civil_text_inj|done].
Qed.

Lemma small_integer m : Z.of_nat (length m) < 2 ^ 31 → small (integer_content m).
Proof. intros Hm. unfold small. pose proof (integer_content_length m). lia. Qed.

Lemma integer_app_inj m m' l l' :
  u8_list m → u8_list m' → Z.of_nat (length m) < 2 ^ 31 → Z.of_nat (length m') < 2 ^ 31 →
  unsigned_integer m ++ l = unsigned_integer m' ++ l' → be_val m = be_val m' ∧ l = l'.
Proof.
  intros U U' L L' (_ & Hc & Hl)%tlv_app_inj; [|by apply small_integer..]. split; [|done].
  rewrite <- (proj2 (integer_content_spec m U)), <- (proj2 (integer_content_spec m' U')). congruence.
Qed.

Lemma cert_id_inj r r' d d' l l' :
  response_ok r → response_ok r' → encode_cert_id r = Ok d → encode_cert_id r' = Ok d' →
  small (d ++ l) → small (d' ++ l') → d ++ l = d' ++ l' →
  oid_bytes (sr_hash_algorithm r) = oid_bytes (sr_hash_algorithm r') ∧
  sr_issuer_name_hash r = sr_issuer_name_hash r' ∧
  sr_issuer_key_hash r = sr_issuer_key_hash r' ∧
  be_val (sr_serial_number r) = be_val (sr_serial_number r') ∧ l = l'.
Proof.
  intros (U & L & _) (U' & L' & _).
  intros (o & (b & Hb & ->)%der_oid_Ok & <-%Ok_inj)%res_bind_Ok.
  intros (o' & (b' & Hb' & ->)%der_oid_Ok & <-%Ok_inj)%res_bind_Ok.
  intros [S%small_tlv _]%small_app [S'%small_tlv _]%small_app.
  intros (_ & He & ->)%tlv_app_inj; [|done..].
  apply small_app in S as [Sa [Sn%small_tlv [Sk%small_tlv _]%small_app]%small_app].
  apply small_app in S' as [Sa' [Sn'%small_tlv [Sk'%small_tlv _]%small_app]%small_app].
  apply small_tlv in Sa, Sa'.
  apply tlv_app_inj in He as (_ & Ho & He); [|done..].
  apply small_app in Sa as [Sa%small_tlv _]. apply small_app in Sa' as [Sa'%small_tlv _].
  apply tlv_app_inj in Ho as (_ & -> & _); [|done..].
  apply tlv_app_inj in He as (_ & -> & He); [|done..].
  apply tlv_app_inj in He as (_ & -> & He); [|done..].
  rewrite <- (app_nil_r (unsigned_integer (sr_serial_number r))),
    <- (app_nil_r (unsigned_integer (sr_serial_number r'))) in He.
  apply integer_app_inj in He as [Hs _]; [|done..]. split_and!; try done. congruence.
Qed.

Lemma status_inj s s' l l' :
  match s with Revoked t _ => civil_ok (civil t) | _ => True end →
  match s' with Revoked t _ => civil_ok (civil t) | _ => True end →
  small (encode_cert_status s ++ l) → small (encode_cert_status s' ++ l') →
  encode_cert_status s ++ l = encode_cert_status s' ++ l' → same_status s s' ∧ l = l'.
Proof.
  intros Hs Hs' [S _]%small_app [S' _]%small_app He.
  destruct s as [|t o|], s' as [|t' o'|]; unfold encode_cert_status in *;
    apply small_tlv in S, S'; apply tlv_app_inj in He as (Ht & Hc & ->); try done.
  apply time_app_inj in Hc as [Hc Hr]; [|done..].
  apply small_app in S as [_ S]. apply small_app in S' as [_ S'].
  split; [|done]. split; [done|].
  destruct o as [o|], o' as [o'|]; try done. f_equal.
  apply small_tlv in S, S'. apply tlv_inj in Hr; [|done..]. by injection Hr.
Qed.

Lemma single_response_inj r r' d d' l l' :
  response_ok r → response_ok r' →
  encode_single_response r = Ok d → encode_single_response r' = Ok d' →
  small (d ++ l) → small (d' ++ l') → d ++ l = d' ++ l' → same_statement r r' ∧ l = l'.
Proof.
  intros Hr Hr' (c & Hc & <-%Ok_inj)%res_bind_Ok (c' & Hc' & <-%Ok_inj)%res_bind_Ok.
  intros [S%small_tlv _]%small_app [S'%small_tlv _]%small_app.
  intros (_ & He & ->)%tlv_app_inj; [|done..].
  destruct (cert_id_inj _ _ _ _ _ _ Hr Hr' Hc Hc' S S' He) as (Ha & Hn & Hk & Hs & He').
  apply small_app in S as [_ S]. apply small_app in S' as [_ S'].
  destruct Hr as (_ & _ & Ht & Hnx & Hst), Hr' as (_ & _ & Ht' & Hnx' & Hst').
  apply status_inj in He' as [Hss He']; [|done..].
  apply time_app_inj in He' as [Hth Hnu]; [|done..].
  unfold same_statement. split_and!; try done.
  destruct (next_update r) as [t|], (next_update r') as [t'|]; try done. simpl.
  simpl in Hnx, Hnx'. f_equal.
  rewrite <- (app_nil_r (tlv 160 (generalized_time (civil t)))),
    <- (app_nil_r (tlv 160 (generalized_time (civil t')))) in Hnu.
  assert (∀ dt, civil_ok dt → small (generalized_time dt)) as Hsm.
  { intros dt [Hl _]%civil_text_length. unfold small, generalized_time, tlv. rewrite Hl. simpl.
    rewrite Hl. done. }
  apply tlv_app_inj in Hnu as (_ & Hg & _); [|by apply Hsm..].
  rewrite <- (app_nil_r (generalized_time (civil t))),
    <- (app_nil_r (generalized_time (civil t'))) in Hg. by apply time_app_inj in Hg as [? _].
Qed.

Lemma encode_single_nonempty r d : encode_single_response r = Ok d → d ≠ [].
Proof. intros (c & _ & <-%Ok_inj)%res_bind_Ok. done. Qed.

Lemma responses_inj rs rs' d :
  Forall response_ok rs → Forall response_ok rs' →
  encode_responses rs = Ok d → encode_responses rs' = Ok d → small d →
  Forall2 same_statement rs rs'.
Proof.
  intros Hrs. revert rs' d. induction Hrs as [|r rs Hr Hrs IH]; intros rs' d Hrs' He He' S.
  - injection He as <-. destruct rs' as [|r' rs']; [constructor|].
    apply res_bind_Ok in He' as (x & Hx & (y & _ & He')%res_bind_Ok).
    apply encode_single_nonempty in Hx. injection He' as He'. by apply app_nil in He' as [-> _].
  - apply res_bind_Ok in He as (x & Hx & (y & Hy & <-%Ok_inj)%res_bind_Ok).
    destruct Hrs' as [|r' rs' Hr' Hrs'].
    { injection He' as He'. apply encode_single_nonempty in Hx.
      symmetry in He'. by apply app_nil in He' as [-> _]. }
    apply res_bind_Ok in He' as (x' & Hx' & (y' & Hy' & He'%Ok_inj)%res_bind_Ok).
    assert (small (x' ++ y')) as S' by (by rewrite He').
    destruct (single_response_inj r r' x x' y y') as [Hss <-]; try done.
    constructor; [done|]. apply small_app in S as [_ S]. by eapply IH.
Qed.

Lemma to_der_signed r tbs_content alg_content :
  tbs_response_data r = [] ∨ tbs_response_data r = seq tbs_content →
  signature_algorithm r = [] ∨ signature_algorithm r = seq alg_content →
  match to_der r with
  | Err _ => response_status r = Successful ∧
      (tbs_response_data r = [] ∨ signature_algorithm r = [] ∨
       oid_bytes ID_PKIX_OCSP_BASIC = None)
  | Ok d => small d → decode_response d = Some (status_as_u8 (response_status r),
      if decide (response_status r = Successful) then
        Some {| b_tbs := tbs_response_data r; b_algorithm := signature_algorithm r;
                b_signature := signature r;
                b_certs := if decide (signing_cert r = []) then []
                           else tlv 160 (seq (signing_cert r)) |}
      else None)
  end.
Proof.
  intros Htbs Halg. unfold to_der. destruct (decide (response_status r = Successful)) as [Hs|Hs].
  2: { rewrite bool_decide_eq_false_2 by done. cbn [negb]. intros Sd.
       unfold decode_response. rewrite inside_tlv_end by (by apply small_tlv in Sd).
       cbn [mbind option_bind]. unfold enumerated. rewrite inside_tlv_end by done. done. }
  rewrite bool_decide_eq_true_2 by done. cbn [negb].
  destruct Htbs as [->|Htbs]; [cbn; by eauto|]. rewrite Htbs.
  change (length (seq tbs_content) =? 0)%nat with false. cbv iota.
  destruct Halg as [->|Halg]; [cbn; by eauto|]. rewrite Halg.
  change (length (seq alg_content) =? 0)%nat with false. cbv iota.
  unfold der_oid, oid. destruct (oid_bytes ID_PKIX_OCSP_BASIC) as [b|];
    [|cbn [res_bind ok_or]; split; [done|]; by right; right].
  cbn [res_bind ok_or]. set (certs := if (length (signing_cert r) =? 0)%nat then [] else _).
  assert (certs = if decide (signing_cert r = []) then [] else tlv 160 (seq (signing_cert r))) as <-
    by (unfold certs; by destruct (signing_cert r)).
  set (basic := seq tbs_content ++ seq alg_content ++ bit_string (signature r) ++ certs).
  intros S. apply small_tlv in S. assert (S1 := S). apply small_app in S1 as [_ S1].
  apply small_tlv in S1. assert (S2 := S1). apply small_tlv in S2. assert (S3 := S2).
  apply small_app in S3 as [S4 S3]. apply small_tlv in S3. assert (S5 := S3). apply small_tlv in S5.
  assert (S6 := S5). unfold basic in S6. apply small_app in S6 as [S7 S6].
  apply small_app in S6 as [S8 S6]. apply small_app in S6 as [S9 _].
  apply small_tlv in S4, S7, S8, S9.
  unfold decode_response. rewrite inside_tlv_end by done. cbn [mbind option_bind].
  unfold enumerated at 1. rewrite inside_tlv by done. cbn [mbind option_bind].
  destruct (tlv 160 (seq (tlv TAG_OID b ++ octet_string (seq basic)))) as [|x l] eqn:Hx; [done|].
  rewrite <- Hx.
  rewrite inside_tlv_end by done. cbn [mbind option_bind]. rewrite inside_tlv_end by done.
  cbn [mbind option_bind]. rewrite inside_tlv by done. cbn [mbind option_bind].
  unfold octet_string. rewrite inside_tlv_end by done. cbn [mbind option_bind].
  rewrite inside_tlv_end by done. cbn [mbind option_bind].
  unfold decode_basic, basic. unfold seq at 1. rewrite element_tlv by done. cbn [mbind option_bind].
  unfold seq at 1. rewrite element_tlv by done. cbn [mbind option_bind].
  unfold bit_string. rewrite inside_tlv by done. cbn [mbind option_bind]. by rewrite Hs.
Qed.

(** ** Properties *)

(** C36. The signed bytes pin down what is stated: two ResponseData with the same
    encoding name the same responder, make the same statements about the
    same certificates in the same order, and echo the same nonce. *)
Theorem signed_bytes_determine_statements name name' t t' rs rs' n n' d :
  Forall response_ok rs → Forall response_ok rs' → civil_ok (civil t) → civil_ok (civil t') →
  encode_tbs_response_data name t rs n = Ok d →
  encode_tbs_response_data name' t' rs' n' = Ok d → small d →
  name = name' ∧ civil t = civil t' ∧ Forall2 same_statement rs rs' ∧ n = n'.
Proof.
  intros Hrs Hrs' Ht Ht'.
  intros (c & Hc & (e & He & <-%Ok_inj)%res_bind_Ok)%res_bind_Ok.
  intros (c' & Hc' & (e' & He' & Hd%Ok_inj)%res_bind_Ok)%res_bind_Ok S.
  assert (S' := S). rewrite <- Hd in S'. symmetry in Hd.
  apply small_tlv in S, S'. apply tlv_inj in Hd; [|done..].
  apply small_app in S as [S1%small_tlv [_ [S2%small_tlv S3]%small_app]%small_app].
  apply small_app in S' as [S1'%small_tlv [_ [S2'%small_tlv S3']%small_app]%small_app].
  apply tlv_app_inj in Hd as (_ & -> & Hd); [|done..].
  apply time_app_inj in Hd as [-> Hd]; [|done..].
  apply tlv_app_inj in Hd as (_ & -> & ->); [|done..].
  split_and!; [done..|by eapply responses_inj|].
  destruct n as [n|], n' as [n'|]; try done.
  - apply res_bind_Ok in He as (o & (b & Hb & ->)%der_oid_Ok & <-%Ok_inj).
    apply res_bind_Ok in He' as (o' & (b' & Hb' & ->)%der_oid_Ok & Hx%Ok_inj).
    assert (b = b') as <- by congruence. f_equal. rewrite <- Hx in S3'.
    apply small_tlv in S3, S3'. apply tlv_inj in Hx; [|done..].
    apply small_tlv in S3, S3'. apply tlv_inj in Hx; [|done..].
    apply small_tlv in S3, S3'. apply tlv_inj in Hx; [|done..].
    apply small_app in S3 as [So S3%small_tlv]. apply small_app in S3' as [_ S3'%small_tlv].
    apply small_tlv in So. apply tlv_app_inj in Hx as (_ & _ & Hx); [|done..].
    symmetry. by apply tlv_inj in Hx.
  - apply res_bind_Ok in He as (o & _ & <-%Ok_inj). by apply Ok_inj in He'.
  - apply Ok_inj in He as <-. by apply res_bind_Ok in He' as (o' & _ & ?%Ok_inj).
Qed.

(** The bytes emitted are the bytes signed: what a reader finds in the DER
    form of a successful response is, byte for byte, the ResponseData, the
    algorithm, the signature and the certificate it was made of; an error
    response carries its status and nothing else; and there is no DER form
    of a successful response without signed bytes or without algorithm. *)
Theorem to_der_carries_signed_bytes r tbs_content alg_content :
  tbs_response_data r = [] ∨ tbs_response_data r = seq tbs_content →
  signature_algorithm r = [] ∨ signature_algorithm r = seq alg_content →
  match to_der r with
  | Err _ => response_status r = Successful ∧
      (tbs_response_data r = [] ∨ signature_algorithm r = [] ∨
       oid_bytes ID_PKIX_OCSP_BASIC = None)
  | Ok d => small d → decode_response d = Some (status_as_u8 (response_status r),
      if decide (response_status r = Successful) then
        Some {| b_tbs := tbs_response_data r; b_algorithm := signature_algorithm r;
                b_signature := signature r;
                b_certs := if decide (signing_cert r = []) then []
                           else tlv 160 (seq (signing_cert r)) |}
      else None)
  end.
Proof. apply to_der_signed. Qed.
End response.

(** ** Witnesses *)

Definition toy_civil (t : DateTime) : Civil :=
  {| year := 2026; month := 1; day := 1; hour := 0; minute := 0; second := t mod 60 |}.
Definition toy_single (s : CertStatus) (serial : list u8) : SingleResponse :=
  {| sr_serial_number := serial; sr_issuer_name_hash := [1]; sr_issuer_key_hash := [2];
     sr_hash_algorithm := "1.3.14.3.2.26"; cert_status := s; this_update := 5; next_update := None |}.

Lemma toy_civil_ok t : civil_ok (toy_civil t).
Proof.
  pose proof (Z.mod_pos_bound t 60 ltac:(done)). unfold civil_ok, toy_civil.
  cbn [year month day hour minute second]. lia.
Qed.

Definition toy_tbs (t : DateTime) (serial : list u8) : result (list u8) Error :=
  @encode_tbs_response_data rfc_lib toy_civil (λ _, "") [1] t
    [toy_single (Revoked t (Some 4)) serial] (Some [7]).
Definition toy_signed : list u8 := match toy_tbs 5 [0; 9] with Ok d => d | Err _ => [] end.

(** The encoding forgets a leading zero and what is below a second only. *)
Lemma signed_bytes_determine_statements_witness :
  toy_tbs 5 [0; 9] = Ok toy_signed ∧ toy_tbs 65 [9] = Ok toy_signed ∧
  Forall2 (@same_statement rfc_lib toy_civil)
    [toy_single (Revoked 5 (Some 4)) [0; 9]] [toy_single (Revoked 65 (Some 4)) [9]].
Proof.
  assert (toy_tbs 5 [0; 9] = Ok toy_signed) as Ha by (vm_compute; reflexivity).
  assert (toy_tbs 65 [9] = Ok toy_signed) as Hb by (vm_compute; reflexivity).
  split; [exact Ha|]. split; [exact Hb|].
  apply (@signed_bytes_determine_statements rfc_lib toy_civil (λ _, "") [1] [1] 5 65
           [toy_single (Revoked 5 (Some 4)) [0; 9]] [toy_single (Revoked 65 (Some 4)) [9]]
           (Some [7]) (Some [7]) toy_signed).
  - repeat constructor; apply toy_civil_ok.
  - repeat constructor; apply toy_civil_ok.
  - apply toy_civil_ok.
  - apply toy_civil_ok.
  - exact Ha.
  - exact Hb.
  - vm_compute. reflexivity.
Defined.

Lemma to_der_carries_signed_bytes_witness :
  match @to_der rfc_lib (λ _, "") (successful 0 [] (seq [7]) [8; 9] (seq null) [] None) with
  | Ok d => decode_response d = Some (0, Some
      {| b_tbs := seq [7]; b_algorithm := seq null; b_signature := [8; 9]; b_certs := [] |})
  | Err _ => False
  end.
Proof.
  apply (@to_der_carries_signed_bytes rfc_lib (λ _, "")
           (successful 0 [] (seq [7]) [8; 9] (seq null) [] None) [7] null).
  - by right.
  - by right.
  - vm_compute. reflexivity.
Defined.
