(* ===== verification/OcspCache.v ===== *)
(** * The OCSP response cache

    [crates/ostrich-ocsp/src/cache.rs].  The hex text of a serial number is
    the parameter [hex].  [is_valid] reads the clock for each entry it is
    asked about: [insert] takes the time at which each key was checked. *)
From stdpp Require Import base gmap strings list.
From S2P Require Import Prelude Der OcspRequest OcspResponse.
#[local] Open Scope Z_scope.

Record CacheKey := { key_serial : string; key_hash_algorithm : string }.
#[export] Instance CacheKey_eq_dec : EqDecision CacheKey.
Proof. solve_decision. Defined.
#[export] Instance CacheKey_countable : Countable CacheKey.
Proof.
  apply (inj_countable' (λ k, (key_serial k, key_hash_algorithm k))
           (λ p, {| key_serial := p.1; key_hash_algorithm := p.2 |})). by intros [].
Defined.

Definition new_key (hex : list u8 → string) (serial : list u8) (alg : string) : CacheKey :=
  {| key_serial := hex serial; key_hash_algorithm := alg |}.

Record CacheEntry := {
  ce_response : OcspResponse;
  expires_at : DateTime;
  inserted_at : DateTime
}.

Definition entry_is_valid (now : DateTime) (e : CacheEntry) : bool := now <? expires_at e.

(** The entries; [max_entries] is an argument of [insert]. *)
Abbreviation Cache := (gmap CacheKey CacheEntry).

(** [iter().min_by_key(inserted_at)]: which of several oldest entries comes
    first is the hash map's. *)
Class OldestKey := {
  oldest_key : Cache → option CacheKey;
  oldest_key_None m : oldest_key m = None → m = ∅;
  oldest_key_Some m k : oldest_key m = Some k →
    ∃ e, m !! k = Some e ∧ ∀ k' e', m !! k' = Some e' → inserted_at e ≤ inserted_at e'
}.

Definition cache_get (now : DateTime) (k : CacheKey) (m : Cache) : option OcspResponse :=
  match m !! k with
  | Some e => if entry_is_valid now e then Some (ce_response e) else None
  | None => None
  end.

(** The time a response may be cached until: the [nextUpdate] of its first
    SingleResponse. *)
Definition response_expiry (r : OcspResponse) : option DateTime :=
  match responses r with
  | [] => None
  | single :: _ => next_update single
  end.

Definition retain_valid (now_of : CacheKey → DateTime) (m : Cache) : Cache :=
  filter (λ p, entry_is_valid (now_of p.1) p.2 = true) m.

Definition evict `{!OldestKey} (max_entries : nat) (m : Cache) : Cache :=
  if (max_entries <=? size m)%nat then
    match oldest_key m with Some k => delete k m | None => m end
  else m.

Definition cache_insert `{!OldestKey} (max_entries : nat) (now_of : CacheKey → DateTime)
    (now : DateTime) (k : CacheKey) (r : OcspResponse) (m : Cache) : Cache :=
  match response_expiry r with
  | None => m
  | Some expires =>
      <[k := {| ce_response := r; expires_at := expires; inserted_at := now |}]>
        (evict max_entries (retain_valid now_of m))
  end.

Definition cache_invalidate (hex : list u8 → string) (serial : list u8) (m : Cache) : Cache :=
  filter (λ p, key_serial p.1 ≠ hex serial) m.

Definition cache_stats (now_of : CacheKey → DateTime) (m : Cache) : nat * nat :=
  (size m, size (retain_valid now_of m)).

Definition cache_clear (m : Cache) : Cache := ∅.

(** ** Lemmas *)

Lemma cache_get_Some now k m r :
  cache_get now k m = Some r ↔
  ∃ e, m !! k = Some e ∧ now < expires_at e ∧ ce_response e = r.
Proof.
  unfold cache_get, entry_is_valid. destruct (m !! k) as [e|]; [|naive_solver].
  destruct (Z.ltb_spec now (expires_at e)); naive_solver lia.
Qed.

Lemma lookup_retain now_of m k e : retain_valid now_of m !! k = Some e → m !! k = Some e.
Proof. by intros [? _]%map_lookup_filter_Some. Qed.

Lemma lookup_evict `{!OldestKey} n m k e : evict n m !! k = Some e → m !! k = Some e.
Proof.
  unfold evict. intros He. destruct (n <=? size m)%nat; [|done].
  destruct (oldest_key m); [|done]. by apply lookup_delete_Some in He as [_ ?].
Qed.

(** What an insertion leaves: its own entry and entries there were. *)
Lemma lookup_insert_cases `{!OldestKey} n now_of now k r m k' e :
  cache_insert n now_of now k r m !! k' = Some e →
  m !! k' = Some e ∨
  (k' = k ∧ ∃ x, response_expiry r = Some x ∧
    e = {| ce_response := r; expires_at := x; inserted_at := now |}).
Proof.
  unfold cache_insert. destruct (response_expiry r) as [x|]; [|by left].
  intros [[-> <-]|[_ He]]%lookup_insert_Some; [right; eauto|left].
  by eapply lookup_retain, lookup_evict.
Qed.

Lemma evict_size `{!OldestKey} n m : (size m ≤ n `max` 1 → size (evict n m) ≤ n - 1 ∨ n = 0)%nat.
Proof.
  unfold evict. intros Hs. destruct (Nat.leb_spec n (size m)) as [Hn|Hn]; [|lia].
  destruct (oldest_key m) as [k|] eqn:Hk.
  - apply oldest_key_Some in Hk as (e & He & _). rewrite map_size_delete, He.
    destruct (decide (n = 0)%nat); [by right|]. left. simpl. lia.
  - apply oldest_key_None in Hk. rewrite Hk in *. rewrite map_size_empty in *. lia.
Qed.

Lemma evict_size_le `{!OldestKey} n m : (size (evict n m) ≤ size m)%nat.
Proof.
  apply map_subseteq_size. apply map_subseteq_spec. intros k e. apply lookup_evict.
Qed.

Lemma retain_size now_of m : (size (retain_valid now_of m) ≤ size m)%nat.
Proof. apply map_subseteq_size, map_filter_subseteq. Qed.

(** The cache of any sequence of operations. *)
Inductive cache_op :=
| OpInsert (now_of : CacheKey → DateTime) (now : DateTime) (k : CacheKey) (r : OcspResponse)
| OpInvalidate (serial : list u8)
| OpClear.

Definition run_op `{!OldestKey} (hex : list u8 → string) (n : nat) (op : cache_op) (m : Cache) : Cache :=
  match op with
  | OpInsert now_of now k r => cache_insert n now_of now k r m
  | OpInvalidate serial => cache_invalidate hex serial m
  | OpClear => cache_clear m
  end.

(** ** Properties *)

(** The cache stays within its bound: after any sequence of insertions,
    invalidations and clearings it holds at most [max_entries] entries, and
    never more than one when [max_entries] is 0. *)
Theorem cache_bounded `{!OldestKey} hex n ops :
  (size (foldr (run_op hex n) ∅ ops) ≤ n `max` 1)%nat.
Proof.
  induction ops as [|op ops IH]; simpl; [rewrite map_size_empty; lia|].
  set (m := foldr (run_op hex n) ∅ ops) in *. destruct op as [now_of now k r|serial|]; simpl.
  - unfold cache_insert. destruct (response_expiry r); [|done].
    pose proof (retain_size now_of m) as Hr.
    destruct (evict_size n (retain_valid now_of m)) as [He|He]; [lia| |].
    + rewrite map_size_insert. destruct (_ !! k); simpl; lia.
    + subst n. pose proof (evict_size_le 0 (retain_valid now_of m)).
      assert (size (evict 0 (retain_valid now_of m)) = 0)%nat as Hz.
      { unfold evict. simpl. destruct (oldest_key (retain_valid now_of m)) as [k'|] eqn:Hk.
        - apply oldest_key_Some in Hk as (e & He & _). rewrite map_size_delete, He. simpl. lia.
        - apply oldest_key_None in Hk. rewrite Hk. apply map_size_empty. }
      rewrite map_size_insert. destruct (_ !! k); simpl; lia.
  - etransitivity; [|exact IH]. apply map_subseteq_size, map_filter_subseteq.
  - unfold cache_clear. rewrite map_size_empty. lia.
Qed.

(** What the cache answers: a hit is the response of the last insertion under
    the key, before its [nextUpdate]; an insertion is answered until it
    expires; a response without [nextUpdate] is never stored; and after an
    invalidation no key of the serial number is answered, while other keys
    are answered as before. *)
Theorem cache_get_spec `{!OldestKey} hex n now_of now k r m t :
  (cache_get t k (cache_insert n now_of now k r m) =
     match response_expiry r with
     | Some x => if t <? x then Some r else None
     | None => cache_get t k m
     end) ∧
  (∀ k', cache_get t k' (cache_insert n now_of now k r m) = None ∨ k' = k ∨
     cache_get t k' (cache_insert n now_of now k r m) = cache_get t k' m) ∧
  (∀ serial k', cache_get t k' (cache_invalidate hex serial m) =
     if decide (key_serial k' = hex serial) then None else cache_get t k' m).
Proof.
  split_and!.
  - unfold cache_insert. destruct (response_expiry r) as [x|] eqn:Hx; [|done].
    unfold cache_get. rewrite lookup_insert_eq. done.
  - intros k'. destruct (cache_insert n now_of now k r m !! k') as [e|] eqn:He.
    + apply lookup_insert_cases in He as H'. destruct H' as [Hm|[-> _]]; [|by right; left].
      right. right. unfold cache_get. by rewrite He, Hm.
    + left. unfold cache_get. by rewrite He.
  - intros serial k'. unfold cache_get, cache_invalidate.
    destruct (decide (key_serial k' = hex serial)) as [Hk|Hk].
    + rewrite map_lookup_filter_None_2; [done|]. right. intros e _. naive_solver.
    + destruct (m !! k') as [e|] eqn:He.
      * by rewrite (map_lookup_filter_Some_2 _ _ _ _ He).
      * rewrite map_lookup_filter_None_2; [done|]. by left.
Qed.

(** ** The order of an ordinary map *)

Definition older (p q : CacheKey * CacheEntry) : CacheKey * CacheEntry :=
  if inserted_at (p.2) <=? inserted_at (q.2) then p else q.
Fixpoint oldest_of (l : list (CacheKey * CacheEntry)) : option (CacheKey * CacheEntry) :=
  match l with
  | [] => None
  | p :: l => Some (match oldest_of l with Some q => older p q | None => p end)
  end.

Lemma oldest_of_Some l p :
  oldest_of l = Some p → p ∈ l ∧ ∀ q, q ∈ l → inserted_at p.2 ≤ inserted_at q.2.
Proof.
  revert p. induction l as [|x l IH]; intros p; simpl; [done|]. intros [= <-].
  destruct (oldest_of l) as [q|] eqn:Hq.
  - destruct (IH q eq_refl) as [Hin Hmin]. unfold older.
    destruct (Z.leb_spec (inserted_at x.2) (inserted_at q.2)); split; try set_solver.
    + intros y [->|Hy]%elem_of_cons; [lia|]. specialize (Hmin y Hy). lia.
    + intros y [->|Hy]%elem_of_cons; [lia|]. by apply Hmin.
  - destruct l; [|done]. split; [set_solver|]. by intros y ->%list_elem_of_singleton.
Qed.

Lemma map_oldest_None (m : Cache) : fst <$> oldest_of (map_to_list m) = None → m = ∅.
Proof.
  destruct (map_to_list m) eqn:Hm; [|done]. intros _. by apply map_to_list_empty_iff.
Qed.

Lemma map_oldest_Some (m : Cache) k : fst <$> oldest_of (map_to_list m) = Some k →
  ∃ e, m !! k = Some e ∧ ∀ k' e', m !! k' = Some e' → inserted_at e ≤ inserted_at e'.
Proof.
  destruct (oldest_of (map_to_list m)) as [[k' e]|] eqn:Ho; [|done]. intros [= ->].
  apply oldest_of_Some in Ho as [Hin Hmin]. apply elem_of_map_to_list in Hin.
  exists e. split; [done|]. intros k' e' He. apply (Hmin (k', e')). by apply elem_of_map_to_list.
Qed.

#[export] Instance map_OldestKey : OldestKey :=
  {| oldest_key m := fst <$> oldest_of (map_to_list m);
     oldest_key_None := map_oldest_None; oldest_key_Some := map_oldest_Some |}.
