(* ===== verification/OcspResponder.v ===== *)
(** * The OCSP responder

    [crates/ostrich-ocsp/src/responder.rs] and the POST handler of
    [rest.rs], over the cache, the request parser and the response encoder,
    with [CertificateRepository::find_by_serial] and [revoke] of
    [crates/ostrich-db/src/repository/certificate.rs] and the serial numbers
    [generate_serial_number] of [crates/ostrich-ca/src/issuance.rs] draws.

    [process_request] is split where it first awaits after reading the
    database, so that other requests and revocations can come in between. *)
From stdpp Require Import base gmap strings list pretty.
From S2P Require Import Prelude Gf256 Algorithm Der OcspRequest Signing OcspResponse OcspCache.
#[local] Open Scope Z_scope.
#[local] Arguments tlv : simpl never.

(** ** The certificates table *)

(** The columns of [certificates] the responder and [revoke] use. *)
Record Certificate := {
  c_id : Uuid;
  c_serial_number : list u8;
  c_revoked : bool;
  c_revocation_time : option DateTime;
  c_revocation_reason : option Z
}.

(** [WHERE serial_number = $1], without an order: among several rows the
    server returns any, which [pick] stands for. *)
Definition find_by_serial (pick : nat) (certs : list Certificate) (serial : list u8)
    : option Certificate :=
  let rows := filter (λ c, c_serial_number c = serial) certs in
  rows !! (pick mod length rows)%nat.

(** A time chrono can represent, from the year -262143 to 262142, and the sum
    of one and [Duration::seconds(s)]; [None] is where one of the two
    panics. *)
Definition chrono_range (t : DateTime) : bool :=
  (seconds (-8334601228800) <=? t) && (t <? seconds 8210266876800).
Definition add_seconds (t : DateTime) (s : Z) : option DateTime :=
  if (Z.abs s <=? 9223372036854775) && chrono_range (t + seconds s) then Some (t + seconds s)
  else None.

Definition revoke_cert (now : DateTime) (i : Uuid) (reason : Z) (c : Certificate) : Certificate :=
  if decide (c_id c = i) then
    if c_revoked c then c
    else {| c_id := c_id c; c_serial_number := c_serial_number c; c_revoked := true;
            c_revocation_time := Some now; c_revocation_reason := Some reason |}
  else c.

(** [CertificateRepository::revoke]; the error is [NotFound]. *)
Definition revoke (now : DateTime) (i : Uuid) (reason : Z) (certs : list Certificate)
    : result unit unit * list Certificate :=
  (if existsb (λ c, bool_decide (c_id c = i) && negb (c_revoked c)) certs then Ok tt else Err tt,
   revoke_cert now i reason <$> certs).

(** [generate_serial_number], of the bytes the generator filled; the error is
    that of [SerialNumber::from_bytes]. *)
Definition serial_from_bytes (bytes : list u8) : result (list u8) string :=
  match bytes with
  | [] => Err "Serial number cannot be empty"
  | b :: _ =>
      if (20 <? length bytes)%nat then Err "Serial number exceeds 20 octets"
      else if negb (Z.land b 128 =? 0) then Err "Serial number must be positive"
      else Ok bytes
  end.
Definition generate_serial_number (random : list u8) : outcome (list u8) string :=
  match random with
  | [] => Panic
  | b :: rest => res_outcome (serial_from_bytes (Z.land b 127 :: rest))
  end.

Section responder.
Context `{!OidLib, !OldestKey} (civil : DateTime → Civil) (oid_error : string → string)
  (hex : list u8 → string) (debug_key : KeyType → string)
  (debug_algorithm : Algorithm → string) (debug_length : nat → string)
  (crypto_text : CryptoErr → string).

(** *** Configuration *)

(** [parse_x509_certificate(ca_cert_der)]: the subject Name, or the text of
    the error; [crypto.sign] with the configured key: the signature of the
    bytes, or the text of the error. *)
Record OcspConfig := {
  response_validity : Z;
  signing_key : option KeyType;
  ca_certificate_der : option (list u8);
  include_nonce : bool;
  parse_subject : list u8 → result (list u8) string;
  crypto_sign : Algorithm → list u8 → result (list u8) string;
  max_entries : nat
}.

Definition signing_algorithm_for_key (key : option KeyType) : result Algorithm Error :=
  let? k := ok_or key (SigningError "OCSP signing key not configured") in
  match recommended_signature_algorithm debug_key k with
  | Ok a => Ok a
  | Err e => Err (SigningError ("OCSP signing key not supported: " +:+ crypto_text e))
  end.

Definition sign_text {A} (text : string) (r : result A string) : result A Error :=
  match r with Ok x => Ok x | Err e => Err (SigningError (text +:+ e)) end.
Definition sign_crypto {A} (text : string) (r : result A CryptoErr) : result A Error :=
  match r with Ok x => Ok x | Err e => Err (SigningError (text +:+ crypto_text e)) end.

Definition sign_response (cfg : OcspConfig) (t_tbs t_done : DateTime)
    (rs : list SingleResponse) (nonce : option (list u8)) : result OcspResponse Error :=
  let? algorithm := signing_algorithm_for_key (signing_key cfg) in
  let? ca_cert_der := ok_or (ca_certificate_der cfg)
                        (SigningError "OCSP responder CA certificate not configured") in
  let? name := sign_text "Failed to parse CA certificate: " (parse_subject cfg ca_cert_der) in
  let nonce := if include_nonce cfg then nonce else None in
  let? tbs_der := encode_tbs_response_data civil oid_error name t_tbs rs nonce in
  let? raw := sign_text "Failed to sign OCSP response: " (crypto_sign cfg algorithm tbs_der) in
  let? signature := sign_crypto "Failed to encode OCSP signature: "
                      (encode_x509_signature debug_length algorithm raw) in
  let? signature_algorithm := sign_crypto "Failed to encode OCSP signatureAlgorithm: "
                                (algorithm_identifier_der debug_algorithm algorithm) in
  Ok (successful t_done rs tbs_der signature signature_algorithm ca_cert_der nonce).

(** *** Requests *)

(** The certificates, the cache and the actions of the audit events. *)
Record St := { certs : list Certificate; cache : Cache; audit : list string }.
Definition log (action : string) : Exec St unit Error :=
  exec_modify (λ w, {| certs := certs w; cache := cache w; audit := audit w ++ [action] |}).
Definition set_cache (f : Cache → Cache) : Exec St unit Error :=
  exec_modify (λ w, {| certs := certs w; cache := f (cache w); audit := audit w |}).

(** The reads of the clock of one request, in program order, and what the
    database answered instead of rows. *)
Record Env := {
  t_get : DateTime; t_revoked : DateTime; t_this : DateTime; t_next : DateTime;
  t_tbs : DateTime; t_done : DateTime; t_retain : CacheKey → DateTime; t_insert : DateTime;
  db_error : option string; db_pick : nat
}.

Definition cacheable (cfg : OcspConfig) (r : OcspRequest) : bool :=
  match nonce r with None => true | Some _ => negb (include_nonce cfg) end.
Definition request_key (r : OcspRequest) : CacheKey :=
  new_key hex (serial_number r) (hash_oid (hash_algorithm r)).

(** Up to the answer of the database: a cached response, or the row. *)
Definition lookup_phase (cfg : OcspConfig) (env : Env) (request : OcspRequest)
    : Exec St (OcspResponse + option Certificate) Error :=
  let* w := exec_get in
  match (if cacheable cfg request then cache_get (t_get env) (request_key request) (cache w)
         else None) with
  | Some cached => let* _ := log "cache_hit" in exec_ret (inl cached)
  | None =>
      let* _ := log "check_status" in
      match db_error env with
      | Some msg => exec_fail (DatabaseError msg)
      | None => exec_ret (inr (find_by_serial (db_pick env) (certs w) (serial_number request)))
      end
  end.

Definition single_for (request : OcspRequest) (status : CertStatus) (this : DateTime)
    (next : option DateTime) : SingleResponse :=
  {| sr_serial_number := serial_number request; sr_issuer_name_hash := issuer_name_hash request;
     sr_issuer_key_hash := issuer_key_hash request;
     sr_hash_algorithm := hash_oid (hash_algorithm request); cert_status := status;
     this_update := this; next_update := next |}.

Definition status_of (env : Env) (c : Certificate) : CertStatus :=
  if c_revoked c then
    Revoked (default (t_revoked env) (c_revocation_time c)) (wrap 8 <$> c_revocation_reason c)
  else Good.

Definition create_unknown_response (cfg : OcspConfig) (env : Env) (request : OcspRequest)
    : result OcspResponse Error :=
  sign_response cfg (t_tbs env) (t_done env)
    [single_for request Unknown (t_this env) None] (nonce request).

(** From the answer of the database on. *)
Definition respond_phase (cfg : OcspConfig) (env : Env) (request : OcspRequest)
    (row : option Certificate) : Exec St OcspResponse Error :=
  match row with
  | None => exec_pure (res_outcome (create_unknown_response cfg env request))
  | Some cert =>
      let* next_update := exec_pure (match add_seconds (t_next env) (response_validity cfg) with
                                     | Some t => Ret t
                                     | None => Panic
                                     end) in
      let* response := exec_pure (res_outcome
        (sign_response cfg (t_tbs env) (t_done env)
           [single_for request (status_of env cert) (t_this env) (Some next_update)]
           (nonce request))) in
      let* _ := (if cacheable cfg request
                 then set_cache (cache_insert (max_entries cfg) (t_retain env) (t_insert env)
                                   (request_key request) response)
                 else exec_ret tt) in
      let* _ := log "generate_response" in
      exec_ret response
  end.

(** [OcspResponder::process_request]. *)
Definition process_request (cfg : OcspConfig) (env : Env) (request : OcspRequest)
    : Exec St OcspResponse Error :=
  let* found := lookup_phase cfg env request in
  match found with
  | inl cached => exec_ret cached
  | inr row => respond_phase cfg env request row
  end.

Definition invalidate_cache (serial : list u8) : Exec St unit Error :=
  set_cache (cache_invalidate hex serial).

(** *** HTTP *)

Definition error_status (e : Error) : Z * ResponseStatus :=
  match e with
  | InvalidRequest _ | MalformedRequest => (400, SMalformedRequest)
  | Unauthorized => (401, SUnauthorized)
  | InternalError _ | DatabaseError _ | CryptoError _ | CommonError _ | DerError _
  | SigningError _ => (500, SInternalError)
  | CertificateNotFound => (500, SInternalError)
  end.

(** [Error::into_response]: the status code and the body. *)
Definition error_into_response (now : DateTime) (e : Error) : Z * list u8 :=
  let (status, ocsp_status) := error_status e in
  (status, match to_der oid_error (error_response now ocsp_status) with
           | Ok der => der
           | Err _ => []
           end).

(** [ocsp_post], with its error made a response; [None] if the parser ran
    out of fuel.  [error_text] is the text of an error. *)
Definition ocsp_post (error_text : Error → string) (cfg : OcspConfig) (env : Env)
    (body : list u8) (w : St) : option (outcome (Z * list u8) Error * St) :=
  match from_der body with
  | None => None
  | Some (Err e) => Some (Ret (error_into_response (t_done env) e), w)
  | Some (Ok request) =>
      Some (match process_request cfg env request w with
            | (Ret response, w) =>
                match to_der oid_error response with
                | Ok der => (Ret (200, der), w)
                | Err e => (Ret (error_into_response (t_done env)
                    (InternalError ("Failed to encode response: " +:+ error_text e))), w)
                end
            | (Fail e, w) => (Ret (error_into_response (t_done env) e), w)
            | (Panic, w) => (Panic, w)
            end)
  end.

(** [ocsp_get], of the query parameter [req]; [base64_decode] is
    [BASE64_URL_SAFE_NO_PAD.decode], after which it is [ocsp_post]'s text
    once more. *)
Definition ocsp_get (base64_decode : string → option (list u8)) (error_text : Error → string)
    (cfg : OcspConfig) (env : Env) (params_request : string) (w : St) : option (outcome (Z * list u8) Error * St) :=
  match base64_decode params_request with
  | None => Some (Ret (error_into_response (t_done env) MalformedRequest), w)
  | Some request_der => ocsp_post error_text cfg env request_der w
  end.

(** ** Lemmas *)

(** A response to the statements [rs], signed by the configured key over
    the bytes it carries. *)
Definition signed_with (cfg : OcspConfig) (t_tbs : DateTime) (rs : list SingleResponse)
    (nonce : option (list u8)) (r : OcspResponse) : Prop :=
  ∃ k a name raw,
    signing_key cfg = Some k ∧ recommended_signature_algorithm debug_key k = Ok a ∧
    ca_certificate_der cfg = Some (signing_cert r) ∧
    parse_subject cfg (signing_cert r) = Ok name ∧
    encode_tbs_response_data civil oid_error name t_tbs rs (resp_nonce r) =
      Ok (tbs_response_data r) ∧
    crypto_sign cfg a (tbs_response_data r) = Ok raw ∧
    encode_x509_signature debug_length a raw = Ok (signature r) ∧
    algorithm_identifier_der debug_algorithm a = Ok (signature_algorithm r) ∧
    responses r = rs ∧ response_status r = Successful ∧
    resp_nonce r = (if include_nonce cfg then nonce else None).

Lemma sign_text_Ok {A} text (r : result A string) x : sign_text text r = Ok x ↔ r = Ok x.
Proof. destruct r; simpl; naive_solver. Qed.
Lemma sign_crypto_Ok {A} text (r : result A CryptoErr) x : sign_crypto text r = Ok x ↔ r = Ok x.
Proof. destruct r; simpl; naive_solver. Qed.
Lemma sign_response_Ok cfg t_tbs t_done rs n r :
  sign_response cfg t_tbs t_done rs n = Ok r → signed_with cfg t_tbs rs n r.
Proof.
  unfold sign_response, signing_algorithm_for_key.
  intros (a & (k & Hk%ok_or_Ok & Ha)%res_bind_Ok & (ca & Hca%ok_or_Ok & HH)%res_bind_Ok)%res_bind_Ok.
  apply res_bind_Ok in HH as (name & Hn%sign_text_Ok & HH).
  apply res_bind_Ok in HH as (tbs & Htbs & HH).
  apply res_bind_Ok in HH as (raw & Hraw%sign_text_Ok & HH).
  apply res_bind_Ok in HH as (sig & Hsig%sign_crypto_Ok & HH).
  apply res_bind_Ok in HH as (alg & Halg%sign_crypto_Ok & <-%Ok_inj).
  destruct (recommended_signature_algorithm debug_key k) as [a'|] eqn:Hrec; [|done].
  apply Ok_inj in Ha as ->. exists k, a, name, raw. done.
Qed.

(** The response to a row (or to none), and what it is signed over. *)
Definition answer (cfg : OcspConfig) (env : Env) (request : OcspRequest)
    (row : option Certificate) : SingleResponse :=
  match row with
  | None => single_for request Unknown (t_this env) None
  | Some c => single_for request (status_of env c) (t_this env)
                (Some (t_next env + seconds (response_validity cfg)))
  end.

Definition hit (cfg : OcspConfig) (env : Env) (request : OcspRequest) (m : Cache)
    : option OcspResponse :=
  if cacheable cfg request then cache_get (t_get env) (request_key request) m else None.

(** The two phases, as relations between what they read and leave. *)
Lemma lookup_phase_spec cfg env req w :
  lookup_phase cfg env req w =
    match hit cfg env req (cache w) with
    | Some r => (Ret (inl r), {| certs := certs w; cache := cache w; audit := audit w ++ ["cache_hit"] |})
    | None => (match db_error env with
               | Some msg => Fail (DatabaseError msg)
               | None => Ret (inr (find_by_serial (db_pick env) (certs w) (serial_number req)))
               end, {| certs := certs w; cache := cache w; audit := audit w ++ ["check_status"] |})
    end.
Proof.
  unfold lookup_phase, hit. simpl. destruct (if cacheable cfg req then _ else _); [done|].
  simpl. by destruct (db_error env).
Qed.

Lemma add_seconds_Some t s t' : add_seconds t s = Some t' → t' = t + seconds s.
Proof. unfold add_seconds. destruct (_ && _); [by intros [= <-]|done]. Qed.

Lemma respond_phase_Ret cfg env req row w r w' :
  respond_phase cfg env req row w = (Ret r, w') →
  signed_with cfg (t_tbs env) [answer cfg env req row] (nonce req) r ∧ certs w' = certs w ∧
  cache w' = (if cacheable cfg req && bool_decide (is_Some row)
              then cache_insert (max_entries cfg) (t_retain env) (t_insert env)
                     (request_key req) r (cache w)
              else cache w) ∧
  audit w' = audit w ++ (if row is Some _ then ["generate_response"] else []).
Proof.
  unfold respond_phase, create_unknown_response. destruct row as [c|].
  - destruct (add_seconds _ _) as [t'|] eqn:Hadd; [|done].
    apply add_seconds_Some in Hadd as ->.
    rewrite exec_bind_Ret. intros (t & w0 & [= <- <-] & HH). revert HH.
    rewrite exec_bind_Ret. intros (r' & w1 & Hr & HH). simpl in Hr.
    destruct (sign_response _ _ _ _ _) as [x|e] eqn:Hs; [|done]. simplify_eq/=.
    apply sign_response_Ok in Hs.
    rewrite andb_true_r. destruct (cacheable cfg req); simplify_eq/=; done.
  - simpl. destruct (sign_response _ _ _ _ _) as [x|e] eqn:Hs; [|done]. intros. simplify_eq/=.
    apply sign_response_Ok in Hs. rewrite app_nil_r, andb_false_r. done.
Qed.

Lemma respond_phase_state cfg env req row w :
  let (o, w') := respond_phase cfg env req row w in
  certs w' = certs w ∧ (cacheable cfg req = false → cache w' = cache w) ∧
  (∀ e, o = Fail e → w' = w) ∧
  (o = Panic ↔ is_Some row ∧ add_seconds (t_next env) (response_validity cfg) = None) ∧
  (o = Panic → w' = w).
Proof.
  unfold respond_phase. destruct row as [c|]; simpl.
  - destruct (add_seconds _ _) as [t|]; simpl; [|split_and!; try done; by split; [split; [eexists|]|]].
    destruct (sign_response _ _ _ _ _); simpl; [|split_and!; try done; naive_solver].
    destruct (cacheable cfg req); simpl; split_and!; try done; naive_solver.
  - destruct (create_unknown_response _ _ _); simpl; split_and!; try done;
      (split; [done|by intros [[? ?] ?]]).
Qed.

(** Where one request can panic: a row was found and the clock plus the
    configured validity is not a time. *)
Definition out_of_range (cfg : OcspConfig) (env : Env) (req : OcspRequest) (w : St) : Prop :=
  hit cfg env req (cache w) = None ∧ db_error env = None ∧
  is_Some (find_by_serial (db_pick env) (certs w) (serial_number req)) ∧
  add_seconds (t_next env) (response_validity cfg) = None.

Lemma process_request_Ret cfg env req w r w' :
  hit cfg env req (cache w) = None → process_request cfg env req w = (Ret r, w') →
  ∃ w1, certs w1 = certs w ∧ cache w1 = cache w ∧ audit w1 = audit w ++ ["check_status"] ∧
  respond_phase cfg env req (find_by_serial (db_pick env) (certs w) (serial_number req)) w1 = (Ret r, w').
Proof.
  intros Hhit. unfold process_request, exec_bind. rewrite lookup_phase_spec, Hhit.
  destruct (db_error env); [done|]. intros Hr. by eexists {| audit := _ |}.
Qed.

Lemma process_request_hit cfg env req w r :
  hit cfg env req (cache w) = Some r →
  process_request cfg env req w =
    (Ret r, {| certs := certs w; cache := cache w; audit := audit w ++ ["cache_hit"] |}).
Proof. intros Hhit. unfold process_request, exec_bind. by rewrite lookup_phase_spec, Hhit. Qed.

(** A response this responder signed, for some statements, and a cache of
    such responses. *)
Definition made (cfg : OcspConfig) (r : OcspResponse) : Prop :=
  ∃ t rs n, signed_with cfg t rs n r.
Definition cache_made (cfg : OcspConfig) (m : Cache) : Prop :=
  ∀ k e, m !! k = Some e → made cfg (ce_response e).

Lemma cache_made_empty cfg : cache_made cfg ∅.
Proof. intros k e He. by rewrite lookup_empty in He. Qed.

Lemma made_shape cfg r : made cfg r →
  response_status r = Successful ∧
  (∃ c, tbs_response_data r = seq c) ∧ (∃ c, signature_algorithm r = seq c).
Proof.
  intros (t & rs & n & k & a & name & raw & _ & _ & _ & _ & Ht & _ & _ & Ha & _ & Hs & _).
  split; [done|]. apply res_bind_Ok in Ht as (c & _ & (e & _ & <-%Ok_inj)%res_bind_Ok).
  apply res_bind_Ok in Ha as (i & _ & (b & _ & <-%Ok_inj)%res_bind_Ok). split; by eexists.
Qed.

(** What [process_request] returns: the cached response, or one signed now
    for the row the server gave. *)
Definition returned (cfg : OcspConfig) (env : Env) (req : OcspRequest) (w : St)
    (r : OcspResponse) : Prop :=
  match hit cfg env req (cache w) with
  | Some cached => r = cached
  | None =>
      let row := find_by_serial (db_pick env) (certs w) (serial_number req) in
      signed_with cfg (t_tbs env) [answer cfg env req row] (nonce req) r
  end.

(** [process_request] leaves the table alone and the cache well made, and
    what it returns is well made. *)
Lemma process_request_made cfg env req w :
  cache_made cfg (cache w) →
  let (o, w') := process_request cfg env req w in
  cache_made cfg (cache w') ∧ certs w' = certs w ∧
  (o = Panic ↔ out_of_range cfg env req w) ∧
  (∀ r, o = Ret r → made cfg r ∧ returned cfg env req w r).
Proof.
  intros Hm. unfold returned, out_of_range.
  destruct (hit cfg env req (cache w)) as [r|] eqn:Hhit.
  - rewrite (process_request_hit _ _ _ _ r Hhit). split_and!; [done..|naive_solver|].
    intros ? [= <-]. split; [|done].
    unfold hit in Hhit. destruct (cacheable cfg req); [|done].
    apply cache_get_Some in Hhit as (e & He & _ & <-). by eapply Hm.
  - unfold process_request, exec_bind. rewrite lookup_phase_spec, Hhit.
    destruct (db_error env); [split_and!; try done; naive_solver|].
    set (w1 := {| certs := certs w; cache := cache w; audit := _ |}).
    set (row := find_by_serial (db_pick env) (certs w) (serial_number req)).
    pose proof (respond_phase_state cfg env req row w1) as Hst.
    destruct (respond_phase _ _ _ _ _) as [o w'] eqn:Hr. destruct Hst as (Hc & _ & Hf & Hp & Hp').
    destruct o as [r|e|].
    + apply respond_phase_Ret in Hr as (Hs & _ & Hc' & _).
      assert (made cfg r) as Hmr by (by do 3 eexists).
      split_and!; [|done|naive_solver|by intros ? [= <-]].
      rewrite Hc'. destruct (cacheable cfg req && _); [|done].
      intros k e [Hk|(_ & x & _ & ->)]%lookup_insert_cases; [by eapply Hm|done].
    + rewrite (Hf e eq_refl). split_and!; try done. naive_solver.
    + rewrite (Hp' eq_refl). split_and!; try done. naive_solver.
Qed.

Lemma error_into_response_spec now e :
  let '(status, body) := error_into_response now e in
  (status = 400 ∨ status = 401 ∨ status = 500) ∧
  (∀ msg, e = MalformedRequest ∨ e = InvalidRequest msg → status = 400) ∧
  body = seq (enumerated (status_as_u8 (error_status e).2)) ∧
  decode_response body = Some (status_as_u8 (error_status e).2, None).
Proof. destruct e; vm_compute; split_and!; auto; intros ? [?|?]; done. Qed.

(** The errors of the responder itself are all internal. *)
Definition internal (e : Error) : Prop := error_status e = (500, SInternalError).

Lemma internal_error_response now e :
  internal e → ∃ der, error_into_response now e = (500, der) ∧ decode_response der = Some (2, None).
Proof. destruct e; intros Hi; try discriminate Hi; (eexists; split; [reflexivity|by vm_compute]). Qed.

Lemma res_bind_internal {A B} (r : result A Error) (k : A → result B Error) e :
  (∀ e, r = Err e → internal e) → (∀ x e, r = Ok x → k x = Err e → internal e) →
  res_bind r k = Err e → internal e.
Proof. destruct r as [x|e']; simpl; [by eauto|]. intros He _ [= <-]. by apply He. Qed.

Lemma der_oid_internal dotted e : der_oid oid_error dotted = Err e → internal e.
Proof. unfold der_oid, oid. destruct (oid_bytes dotted); simpl; [done|by intros [= <-]]. Qed.

Lemma encode_tbs_internal name t rs n e :
  encode_tbs_response_data civil oid_error name t rs n = Err e → internal e.
Proof.
  unfold encode_tbs_response_data. apply res_bind_internal.
  - clear e. induction rs as [|x rs IH]; intros e; [done|]. cbn [encode_responses].
    apply res_bind_internal.
    + unfold encode_single_response, encode_cert_id. intros e'.
      apply res_bind_internal; [|done]. intros e2. apply res_bind_internal; [|done].
      intros e3. apply der_oid_internal.
    + intros one e' _. apply res_bind_internal; [exact IH|done].
  - intros c e' _. apply res_bind_internal; [|done]. destruct n; [|done]. intros e2.
    apply res_bind_internal; [|done]. intros e3. apply der_oid_internal.
Qed.

Lemma sign_response_internal cfg t t' rs n e : sign_response cfg t t' rs n = Err e → internal e.
Proof.
  assert (∀ A text (r : result A string) e, sign_text text r = Err e → internal e) as Htext
    by (intros A text [] ?; [done|by intros [= <-]]).
  assert (∀ A text (r : result A CryptoErr) e, sign_crypto text r = Err e → internal e) as Hcrypto
    by (intros A text [] ?; [done|by intros [= <-]]).
  unfold sign_response, signing_algorithm_for_key. apply res_bind_internal.
  { intros e'. apply res_bind_internal.
    - destruct (signing_key cfg); [done|by intros ? [= <-]].
    - intros k e2 _. by destruct (recommended_signature_algorithm _ _); [|intros [= <-]]. }
  intros a e1 _. apply res_bind_internal.
  { destruct (ca_certificate_der cfg); [done|by intros ? [= <-]]. }
  intros ca e2 _. apply res_bind_internal; [intros ?; apply Htext|].
  intros nm e3 _. apply res_bind_internal; [intros ?; apply encode_tbs_internal|].
  intros tbs e4 _. apply res_bind_internal; [intros ?; apply Htext|].
  intros raw e5 _. apply res_bind_internal; [intros ?; apply Hcrypto|].
  intros sg e6 _. apply res_bind_internal; [intros ?; apply Hcrypto|done].
Qed.

Lemma process_request_internal cfg env req w e w' :
  process_request cfg env req w = (Fail e, w') → internal e.
Proof.
  unfold process_request, exec_bind. rewrite lookup_phase_spec.
  destruct (hit cfg env req (cache w)); [done|].
  destruct (db_error env) as [msg|]; [by intros [= <- _]|].
  unfold respond_phase, create_unknown_response. destruct (find_by_serial _ _ _); simpl.
  - destruct (add_seconds _ _); simpl; [|done].
    destruct (sign_response _ _ _ _ _) eqn:Hs; simpl.
    + by destruct (cacheable cfg req).
    + intros [= <- _]. by eapply sign_response_internal.
  - destruct (sign_response _ _ _ _ _) eqn:Hs; simpl; [done|].
    intros [= <- _]. by eapply sign_response_internal.
Qed.

(** ** Properties *)

(** C39. The endpoint answers every body, provided the cache holds only
    responses this responder signed, which is so at the start and after every
    request.  It does not run out of fuel, and panics exactly when a body
    parses, nothing is cached for it, a row is found and the clock plus the
    configured validity is no time chrono can represent.  It leaves the
    certificates alone.  A body that does not parse gets 400 and a DER
    response with status malformedRequest.  A request is answered with a
    5xx and internalError, or with 200 and the DER of the response cached for
    it or of one signed now for what the certificates say of its serial
    number; that DER, when shorter than 4 GiB, decodes to successful with the
    bytes that were signed, their algorithm, the signature and the
    responder's certificate. *)
Theorem ocsp_post_total error_text cfg env body w :
  cache_made cfg (cache w) →
  ∃ o w', ocsp_post error_text cfg env body w = Some (o, w') ∧
    cache_made cfg (cache w') ∧ certs w' = certs w ∧
    (o = Panic ↔ ∃ req, from_der body = Some (Ok req) ∧ out_of_range cfg env req w) ∧
    match o with
    | Ret (status, der) =>
        match from_der body with
        | Some (Ok req) =>
            (status = 200 ∧ ∃ r, made cfg r ∧ returned cfg env req w r ∧
               to_der oid_error r = Ok der ∧
               (small der → decode_response der =
                  Some (0, Some {| b_tbs := tbs_response_data r;
                                   b_algorithm := signature_algorithm r;
                                   b_signature := signature r;
                                   b_certs := if decide (signing_cert r = []) then []
                                              else tlv 160 (seq (signing_cert r)) |}))) ∨
            (status = 500 ∧ decode_response der = Some (2, None))
        | _ => status = 400 ∧ decode_response der = Some (1, None)
        end
    | Fail _ => False
    | Panic => True
    end.
Proof.
  intros Hm. destruct (from_der_outcome body) as (res & Hres & Hok).
  unfold ocsp_post. rewrite Hres. destruct res as [req|e].
  - pose proof (process_request_made cfg env req w Hm) as Hp.
    pose proof (process_request_internal cfg env req w) as Hint.
    destruct (process_request cfg env req w) as [[r|e|] w']; destruct Hp as (Hm' & Hc & Hpan & Hret).
    + destruct (Hret r eq_refl) as [Hmr Hr]. pose proof (made_shape _ _ Hmr) as (Hs & (c & Hc1) & (c' & Hc2)).
      pose proof (to_der_signed oid_error r c c' (or_intror Hc1) (or_intror Hc2)) as Hd.
      destruct (to_der oid_error r) as [d|e] eqn:Htd.
      * exists (Ret (200, d)), w'. split_and!; [done..| |].
        { split; [done|]. intros (? & [= <-] & Hx). by apply Hpan in Hx. }
        left. split; [done|]. exists r. split_and!; [done..|]. intros Hsm.
        by rewrite (Hd Hsm), Hs.
      * eexists _, w'. split_and!; [done..| |].
        { split; [done|]. intros (? & [= <-] & Hx). by apply Hpan in Hx. }
        destruct (internal_error_response (t_done env)
          (InternalError ("Failed to encode response: " +:+ error_text e)) eq_refl) as (der & -> & Hx).
        by right.
    + eexists _, w'. split_and!; [done..| |].
      { split; [done|]. intros (? & [= <-] & Hx). by apply Hpan in Hx. }
      destruct (internal_error_response (t_done env) e) as (der & -> & Hx); [by eapply Hint|].
      by right.
    + exists Panic, w'. split_and!; [done..| |done]. split; [|done].
      intros _. exists req. split; [done|]. by apply Hpan.
  - pose proof (error_into_response_spec (t_done env) e) as He.
    destruct (error_into_response _ e) as [st der] eqn:Hx.
    destruct He as (_ & H4 & _ & Hd). exists (Ret (st, der)), w. split_and!; [done..| | |].
    + split; [done|]. by intros (? & ? & _).
    + destruct Hok as [->|[msg ->]]; [apply (H4 ""); by left|apply (H4 msg); by right].
    + rewrite Hd. by destruct Hok as [->|[msg ->]].
Qed.

(** What a client gets when the cache has nothing for it: one statement,
    which echoes the certificate identifier asked about, says unknown when
    the table has no row of the serial number and otherwise what the row
    says, good until the configured validity is over; signed over exactly
    the bytes the response carries, by an algorithm chosen from the key.
    The table is not changed, the response is cached if it may be, and two
    events (one for an unknown certificate) are recorded. *)
Theorem fresh_response_spec cfg env req w r w' :
  hit cfg env req (cache w) = None → process_request cfg env req w = (Ret r, w') →
  let row := find_by_serial (db_pick env) (certs w) (serial_number req) in
  signed_with cfg (t_tbs env) [answer cfg env req row] (nonce req) r ∧
  sr_serial_number (answer cfg env req row) = serial_number req ∧
  sr_issuer_name_hash (answer cfg env req row) = issuer_name_hash req ∧
  sr_issuer_key_hash (answer cfg env req row) = issuer_key_hash req ∧
  sr_hash_algorithm (answer cfg env req row) = hash_oid (hash_algorithm req) ∧
  cert_status (answer cfg env req row) =
    match row with
    | None => Unknown
    | Some c => if c_revoked c
                then Revoked (default (t_revoked env) (c_revocation_time c))
                       (wrap 8 <$> c_revocation_reason c)
                else Good
    end ∧
  certs w' = certs w ∧
  cache w' = (if cacheable cfg req && bool_decide (is_Some row)
              then cache_insert (max_entries cfg) (t_retain env) (t_insert env)
                     (request_key req) r (cache w)
              else cache w) ∧
  audit w' = audit w ++ "check_status" :: (if row is Some _ then ["generate_response"] else []).
Proof.
  intros Hhit Hr row. destruct (process_request_Ret _ _ _ _ _ _ Hhit Hr) as (w1 & Hc & Hm & Ha & Hp).
  apply respond_phase_Ret in Hp as (Hs & Hc' & Hm' & Ha'). fold row in Hs, Hm', Ha'.
  rewrite Hm', Ha', Hc', Hm, Ha, <- app_assoc. destruct row; done.
Qed.

(** A response with a nonce is made for its request alone: the cache is
    neither read nor written, so the outcome is the same whatever was asked
    before, and a response echoes the nonce. *)
Theorem nonce_never_cached cfg env req n w m :
  include_nonce cfg = true → nonce req = Some n →
  let run m := process_request cfg env req {| certs := certs w; cache := m; audit := audit w |} in
  (run m).1 = (run ∅).1 ∧ cache (run m).2 = m ∧
  (∀ r, (run m).1 = Ret r → resp_nonce r = Some n).
Proof.
  intros Hi Hn run.
  assert (cacheable cfg req = false) as Hc by (unfold cacheable; by rewrite Hn, Hi).
  assert (∀ m, hit cfg env req m = None) as Hh by (intros; unfold hit; by rewrite Hc).
  unfold run, process_request, exec_bind. rewrite !lookup_phase_spec. cbn [cache certs audit].
  rewrite !Hh. destruct (db_error env); [done|]. unfold respond_phase. rewrite Hc.
  assert (∀ t t' rs r, sign_response cfg t t' rs (nonce req) = Ok r → resp_nonce r = Some n) as Hnn.
  { intros t t' rs r (k & a & nm & raw & Hs)%sign_response_Ok. rewrite Hi, Hn in Hs. apply Hs. }
  unfold create_unknown_response.
  destruct (find_by_serial _ _ _); simpl; [destruct (add_seconds _ _); simpl; [|done]|];
    (destruct (sign_response _ _ _ _ _) as [x|] eqn:Hs; simpl; [|done]);
    (split_and!; [done..|]; intros r [= <-]; by eapply Hnn).
Qed.

(** The cache key leaves out the issuer: after a request has been answered
    from the table, a request for the same serial number and hash algorithm
    under another issuer gets the same response until it expires, with the
    first request's issuer hashes and whatever the table now says. *)
Theorem cached_cert_id_mismatch cfg env env' req req' w r w' certs' c :
  hit cfg env req (cache w) = None → process_request cfg env req w = (Ret r, w') →
  find_by_serial (db_pick env) (certs w) (serial_number req) = Some c →
  cacheable cfg req = true → cacheable cfg req' = true →
  serial_number req' = serial_number req → hash_algorithm req' = hash_algorithm req →
  t_get env' < t_next env + seconds (response_validity cfg) →
  (process_request cfg env' req' {| certs := certs'; cache := cache w'; audit := audit w' |}).1
    = Ret r ∧
  (sr_issuer_name_hash <$> responses r) = [issuer_name_hash req] ∧
  (sr_issuer_key_hash <$> responses r) = [issuer_key_hash req].
Proof.
  intros Hhit Hr Hrow Hca Hca' Hser Halg Ht.
  destruct (process_request_Ret _ _ _ _ _ _ Hhit Hr) as (w1 & _ & Hm & _ & Hp).
  rewrite Hrow in Hp. apply respond_phase_Ret in Hp as (Hs & _ & Hm' & _).
  destruct Hs as (k & a & name & raw & _ & _ & _ & _ & _ & _ & _ & _ & Hrs & _).
  rewrite Hrs. split; [|done].
  rewrite process_request_hit with (r := r); [done|]. unfold hit. cbn [cache].
  rewrite Hca', Hm', Hca. cbn [andb].
  rewrite bool_decide_eq_true_2 by by eexists.
  assert (request_key req' = request_key req) as -> by (unfold request_key; by rewrite Hser, Halg).
  unfold cache_insert, response_expiry. rewrite Hrs. simpl.
  unfold cache_get. rewrite lookup_insert_eq. unfold entry_is_valid. cbn [expires_at ce_response].
  by rewrite (proj2 (Z.ltb_lt _ _) Ht).
Qed.
End responder.

(** ** Serial numbers *)

Lemma land_127 b : is_u8 b = true → 0 ≤ Z.land b 127 < 128.
Proof.
  intros Hb. assert ((0 <=? Z.land b 127) && (Z.land b 127 <? 128) = true) as Hx.
  { revert b Hb. apply bytes_check. by vm_compute. }
  apply andb_true_iff in Hx as [?%Z.leb_le ?%Z.ltb_lt]. done.
Qed.

#[local] Instance minimal_dec l : Decision (minimal l).
Proof. destruct l as [|b [|b' l]]; simpl; apply _. Defined.

Lemma integer_content_minimal s : u8_list s → minimal s → integer_content s = s.
Proof.
  intros Hs Hm. destruct s as [|x rest]; [done|]. apply Forall_cons in Hs as [Hx Hr].
  unfold integer_content. cbn [position]. unfold nonzero at 1.
  destruct (Z.eqb_spec x 0) as [->|Hnz]; cbn [negb].
  - destruct rest as [|y rest]; [done|]. destruct Hm as [_ Hy]. specialize (Hy eq_refl).
    apply Forall_cons in Hr as [Hy8 _]. cbn [position]. unfold nonzero at 1.
    destruct (Z.eqb_spec y 0); [lia|]. cbn [negb fmap option_fmap option_map drop].
    rewrite high_bit_clear by done. by rewrite (proj2 (Z.leb_le _ _) Hy).
  - cbn [drop]. rewrite high_bit_clear by done.
    destruct (Z.leb_spec 128 x); [|done]. destruct rest; simpl in Hm; lia.
Qed.

(** Which certificates the responder can find: a certificate carries its
    serial number as a DER INTEGER, whose content is what a client asks for
    and what is compared with the stored bytes.  The row of a generated
    serial number is found exactly when its stored bytes have no leading zero
    to strip: one certificate in 256 is answered as unknown, revoked or not. *)
Theorem generated_serial_found pick random s c :
  u8_list random → generate_serial_number random = Ret s → c_serial_number c = s →
  find_by_serial pick [c] (integer_content s) =
    match s with
    | 0 :: b :: _ => if b <? 128 then None else Some c
    | _ => Some c
    end ∧
  be_val (integer_content s) = be_val s ∧ (length s ≤ 20)%nat.
Proof.
  intros Hu Hg Hc. destruct random as [|b rest]; [done|]. apply Forall_cons in Hu as [Hb Hr].
  pose proof (land_127 b Hb) as Hx. unfold generate_serial_number, serial_from_bytes in Hg.
  destruct (20 <? length _)%nat eqn:Hl; [done|]. apply Nat.ltb_ge in Hl.
  destruct (negb _); [done|]. injection Hg as <-. set (x := Z.land b 127) in *.
  assert (u8_list (x :: rest)) as Hs by (constructor; [apply is_u8_range; lia|done]).
  split_and!; [|by apply integer_content_spec|done].
  assert (∀ l, find_by_serial pick [c] l = if decide (l = x :: rest) then Some c else None) as Hf.
  { intros l. unfold find_by_serial. rewrite filter_cons, Hc.
    destruct (decide (x :: rest = l)), (decide (l = x :: rest)); subst; done. }
  rewrite Hf. clear Hf Hl Hc. destruct (decide (minimal (x :: rest))) as [Hm|Hm].
  - rewrite integer_content_minimal, decide_True by done.
    destruct rest as [|y rest]; [by destruct x|]. destruct Hm as [_ Hy].
    destruct x; [|done..]. destruct (Z.ltb_spec y 128); [specialize (Hy eq_refl); lia|done].
  - rewrite decide_False.
    + destruct rest as [|y rest]; [exfalso; apply Hm; simpl; lia|]. simpl in Hm.
      destruct (decide (x = 0)) as [->|]; [|exfalso; apply Hm; split; [lia|done]].
      destruct (Z.ltb_spec y 128); [done|]. exfalso. apply Hm. split; [lia|]. lia.
    + intros He. apply Hm. rewrite <- He. by apply integer_content_spec.
Qed.

(** ** Witnesses *)

(** A responder that signs by appending the byte 1, and the hex text as the
    decimal text of a code of the bytes. *)
Definition toy_hex (l : list u8) : string := pretty (N.pos (encode l)).
Definition toy_cfg (nonces : bool) : OcspConfig :=
  {| response_validity := 3600; signing_key := Some KEd25519; ca_certificate_der := Some [48; 0];
     include_nonce := nonces; parse_subject := Ok; crypto_sign := λ _ m, Ok (m ++ [1]);
     max_entries := 10 |}.
Definition toy_env (t : DateTime) : Env :=
  {| t_get := t; t_revoked := t; t_this := t; t_next := t; t_tbs := t; t_done := t;
     t_retain := λ _, t; t_insert := t; db_error := None; db_pick := 0 |}.
Definition toy_request (serial issuer_hash : list u8) (n : option (list u8)) : OcspRequest :=
  {| serial_number := serial; issuer_name_hash := issuer_hash; issuer_key_hash := issuer_hash;
     hash_algorithm := Sha256; nonce := n |}.
Definition toy_cert (serial : list u8) : Certificate :=
  {| c_id := 1%N; c_serial_number := serial; c_revoked := false; c_revocation_time := None;
     c_revocation_reason := None |}.
Definition toy_state : St := {| certs := [toy_cert [9]]; cache := ∅; audit := [] |}.
Definition toy_process (cfg : OcspConfig) (env : Env) (r : OcspRequest) :
    Exec St OcspResponse Error :=
  @process_request rfc_lib map_OldestKey toy_civil (λ _, "") toy_hex (λ _, "") (λ _, "") (λ _, "")
    (λ _, "") cfg env r.

Lemma toy_run n : n = None ∨ n = Some [7] →
  ∃ r w, toy_process (toy_cfg true) (toy_env 5) (toy_request [9] [1; 2] n) toy_state = (Ret r, w).
Proof. intros [-> | ->]; vm_compute; by do 2 eexists. Qed.

Lemma fresh_response_spec_witness :
  ∃ r w, toy_process (toy_cfg true) (toy_env 5) (toy_request [9] [1; 2] None) toy_state = (Ret r, w) ∧
  audit w = ["check_status"; "generate_response"] ∧ cert_status <$> responses r = [Good].
Proof.
  destruct (toy_run None (or_introl eq_refl)) as (r & w & Hr). exists r, w. split; [exact Hr|].
  destruct (@fresh_response_spec rfc_lib map_OldestKey toy_civil (λ _, "") toy_hex (λ _, "")
    (λ _, "") (λ _, "") (λ _, "") (toy_cfg true) (toy_env 5) (toy_request [9] [1; 2] None) toy_state
    r w eq_refl Hr) as (Hs & _ & _ & _ & _ & _ & _ & _ & Ha).
  split; [exact Ha|].
  destruct Hs as (k & a & name & raw & _ & _ & _ & _ & _ & _ & _ & _ & Hrs & _).
  rewrite Hrs. reflexivity.
Defined.

Lemma nonce_never_cached_witness :
  ∃ r, (toy_process (toy_cfg true) (toy_env 5) (toy_request [9] [1; 2] (Some [7])) toy_state).1 = Ret r ∧
  resp_nonce r = Some [7].
Proof.
  destruct (@nonce_never_cached rfc_lib map_OldestKey toy_civil (λ _, "") toy_hex (λ _, "") (λ _, "")
    (λ _, "") (λ _, "") (toy_cfg true) (toy_env 5) (toy_request [9] [1; 2] (Some [7])) [7] toy_state ∅
    eq_refl eq_refl) as (_ & _ & Hn).
  destruct (toy_run (Some [7]) (or_intror eq_refl)) as (r & w & Hr).
  exists r. split; [by rewrite Hr|]. apply Hn.
  change (process_request _ _ _ _ _ _ _ _ _ _ _)
    with (toy_process (toy_cfg true) (toy_env 5) (toy_request [9] [1; 2] (Some [7])) toy_state).
  by rewrite Hr.
Defined.

(** Two issuers use the serial number 9: the second is told of the first's. *)
Lemma cached_cert_id_mismatch_witness :
  ∃ r w, toy_process (toy_cfg true) (toy_env 5) (toy_request [9] [1; 2] None) toy_state = (Ret r, w) ∧
  (toy_process (toy_cfg true) (toy_env 6) (toy_request [9] [3; 4] None)
     {| certs := []; cache := cache w; audit := audit w |}).1 = Ret r ∧
  sr_issuer_key_hash <$> responses r = [[1; 2]].
Proof.
  destruct (toy_run None (or_introl eq_refl)) as (r & w & Hr). exists r, w. split; [exact Hr|].
  destruct (@cached_cert_id_mismatch rfc_lib map_OldestKey toy_civil (λ _, "") toy_hex (λ _, "")
    (λ _, "") (λ _, "") (λ _, "") (toy_cfg true) (toy_env 5) (toy_env 6) (toy_request [9] [1; 2] None)
    (toy_request [9] [3; 4] None) toy_state r w [] (toy_cert [9]) eq_refl Hr) as (Hg & _ & Hk);
    [vm_compute; reflexivity..|]. split; [exact Hg|exact Hk].
Defined.

(** A malformed body, and a request in the year 262142 whose response would
    be good into the next year. *)
Definition toy_post (env : Env) (body : list u8) : option (outcome (Z * list u8) Error * St) :=
  @ocsp_post rfc_lib map_OldestKey toy_civil (λ _, "") toy_hex (λ _, "") (λ _, "") (λ _, "")
    (λ _, "") (λ _, "") (toy_cfg true) env body toy_state.
Definition toy_body : list u8 :=
  encode_request [43; 14; 3; 2; 26]
    {| sh_params := null; sh_version := None; sh_requestor := None; sh_single := []; sh_more := [];
       sh_before := []; sh_after := []; sh_signature := []; sh_trailing := [] |}
    {| serial_number := [9]; issuer_name_hash := [3]; issuer_key_hash := [4];
       hash_algorithm := Sha1; nonce := None |}.

Lemma toy_cache_made : cache_made (H := rfc_lib) toy_civil (λ _, "") (λ _, "") (λ _, "") (λ _, "")
  (toy_cfg true) (cache toy_state).
Proof. apply cache_made_empty. Qed.

Lemma ocsp_post_total_witness :
  (∃ der w', toy_post (toy_env 5) [48; 3; 1; 2] = Some (Ret (400, der), w') ∧
     decode_response der = Some (1, None)) ∧
  (∃ w', toy_post (toy_env (seconds 8210266876799)) toy_body = Some (Panic, w') ∧
     certs w' = certs toy_state).
Proof.
  split.
  - destruct (@ocsp_post_total rfc_lib map_OldestKey toy_civil (λ _, "") toy_hex (λ _, "") (λ _, "")
      (λ _, "") (λ _, "") (λ _, "") (toy_cfg true) (toy_env 5) [48; 3; 1; 2] toy_state toy_cache_made)
      as (o & w' & Hp & _ & _ & Hpan & Ho).
    destruct o as [[st der]|e|]; [|done|].
    + destruct Ho as [-> Hd]. exists der, w'. split; [exact Hp|exact Hd].
    + destruct (proj1 Hpan eq_refl) as (? & [=] & _).
  - destruct (@ocsp_post_total rfc_lib map_OldestKey toy_civil (λ _, "") toy_hex (λ _, "") (λ _, "")
      (λ _, "") (λ _, "") (λ _, "") (toy_cfg true) (toy_env (seconds 8210266876799)) toy_body
      toy_state toy_cache_made) as (o & w' & Hp & _ & Hc & Hpan & _).
    exists w'. split; [|exact Hc]. unfold toy_post. rewrite Hp. do 2 f_equal. apply Hpan.
    eexists. split; [vm_compute; reflexivity|]. split_and!; [reflexivity|reflexivity| |reflexivity].
    by eexists.
Defined.

(** A revoked certificate that is answered as unknown. *)
Lemma generated_serial_found_witness :
  find_by_serial 0 [{| c_id := 1; c_serial_number := [0; 77; 5]; c_revoked := true;
                     c_revocation_time := Some 3; c_revocation_reason := None |}]
    (integer_content [0; 77; 5]) = None ∧ integer_content [0; 77; 5] = [77; 5].
Proof.
  split; [|reflexivity].
  apply (generated_serial_found 0 [128; 77; 5] [0; 77; 5]
           {| c_id := 1; c_serial_number := [0; 77; 5]; c_revoked := true;
              c_revocation_time := Some 3; c_revocation_reason := None |}).
  - repeat constructor.
  - reflexivity.
  - reflexivity.
Defined.
