(* ===== verification/OcspFreshness.v ===== *)
(** * How stale an OCSP answer can be

    Requests run concurrently with revocations: a request reads the
    certificates table, and its response is signed, cached and sent some time
    later.  The step relation below interleaves the two phases of
    OcspResponder.v with the other operations on the table and the cache. *)
From stdpp Require Import base gmap strings list pretty.
From S2P Require Import Prelude Gf256 Algorithm Der OcspRequest Signing OcspResponse OcspCache.
From S2P Require Import OcspResponder.
#[local] Open Scope Z_scope.

(** A request whose row has been read and whose response has not been made. *)
Record Pending := { p_request : OcspRequest; p_row : option Certificate; p_read : DateTime }.
Record Sys := { now : DateTime; world : St; pending : list Pending }.

Section freshness.
Context `{!OidLib, !OldestKey} (civil : DateTime → Civil) (oid_error : string → string)
  (hex : list u8 → string) (debug_key : KeyType → string)
  (debug_algorithm : Algorithm → string) (debug_length : nat → string)
  (crypto_text : CryptoErr → string) (cfg : OcspConfig).
(** The hex text determines the bytes. *)
Context (hex_inj : Inj (=) (=) hex).
(** The time between reading the table and having sent the response. *)
Context (delay : Z).

Notation lookup := (lookup_phase hex cfg).
Notation respond := (respond_phase civil oid_error hex debug_key debug_algorithm debug_length
  crypto_text cfg).

Definition with_certs (f : list Certificate → list Certificate) (w : St) : St :=
  {| certs := f (certs w); cache := cache w; audit := audit w |}.

Inductive step : Sys → Sys → Prop :=
| step_tick s t :
    now s ≤ t → Forall (λ p, t ≤ p_read p + delay) (pending s) →
    step s {| now := t; world := world s; pending := pending s |}
| step_issue s c :
    c_revoked c = false →
    step s {| now := now s; world := with_certs (λ cs, cs ++ [c]) (world s); pending := pending s |}
| step_revoke s i reason :
    step s {| now := now s; world := with_certs (λ cs, (revoke (now s) i reason cs).2) (world s);
              pending := pending s |}
| step_lookup s env req o w :
    t_get env = now s → lookup env req (world s) = (o, w) →
    step s {| now := now s; world := w;
              pending := match o with
                         | Ret (inr row) => {| p_request := req; p_row := row; p_read := now s |}
                                              :: pending s
                         | _ => pending s
                         end |}
| step_respond s env p ps o w :
    pending s ≡ₚ p :: ps → p_read p ≤ t_next env ≤ now s →
    respond env (p_request p) (p_row p) (world s) = (o, w) →
    step s {| now := now s; world := w; pending := ps |}
| step_invalidate s serial o w :
    invalidate_cache hex serial (world s) = (o, w) →
    step s {| now := now s; world := w; pending := pending s |}.

(** A responder that has just started: nothing cached, nobody waiting. *)
Definition starting (s : Sys) : Prop := cache (world s) = ∅ ∧ pending s = [].

Definition says_good (r : OcspResponse) : Prop :=
  match responses r with x :: _ => cert_status x = Good | [] => False end.
(** Whatever row of [serial] the server returns, there being one, it was
    revoked at [tr] or before. *)
Definition revoked_by (tr : DateTime) (c : Certificate) : Prop :=
  c_revoked c = true ∧ ∃ t, c_revocation_time c = Some t ∧ t ≤ tr.
Definition revoked_since (serial : list u8) (tr : DateTime) (cs : list Certificate) : Prop :=
  (∃ c, c ∈ cs ∧ c_serial_number c = serial) ∧
  ∀ c, c ∈ cs → c_serial_number c = serial → revoked_by tr c.
Definition not_before (serial : list u8) (t0 : DateTime) (cs : list Certificate) : Prop :=
  ∀ tr, revoked_since serial tr cs → t0 ≤ tr.

(** What good answers, made or to be made, rely on. *)
Definition inv (s : Sys) : Prop :=
  (∀ p, p ∈ pending s → p_read p ≤ now s ≤ p_read p + delay ∧
     ∀ c, p_row p = Some c → c_revoked c = false →
       not_before (serial_number (p_request p)) (p_read p) (certs (world s))) ∧
  (∀ k e serial, cache (world s) !! k = Some e → key_serial k = hex serial →
     says_good (ce_response e) →
     ∃ t0, not_before serial t0 (certs (world s)) ∧ t0 ≤ now s ∧
       expires_at e ≤ t0 + delay + seconds (response_validity cfg)).

(** ** Lemmas *)

Lemma find_by_serial_elem pick cs serial c :
  find_by_serial pick cs serial = Some c → c ∈ cs ∧ c_serial_number c = serial.
Proof.
  intros Hc%list_elem_of_lookup_2. by apply list_elem_of_filter in Hc as [? ?].
Qed.

Lemma not_before_revoke t t0 i reason cs serial :
  t0 ≤ t → not_before serial t0 cs → not_before serial t0 (revoke t i reason cs).2.
Proof.
  intros Ht Hn tr [(c' & Hc' & Hser) Hall]. simpl in Hc', Hall.
  assert (∀ c, c_serial_number (revoke_cert t i reason c) = c_serial_number c) as Hs.
  { intros c. unfold revoke_cert. destruct (decide _); [|done]. by destruct (c_revoked c). }
  apply list_elem_of_fmap in Hc' as (c0 & -> & Hc0). rewrite Hs in Hser.
  destruct (decide (Exists (λ c, c_serial_number c = serial ∧ c_id c = i ∧ c_revoked c = false) cs))
    as [(c & Hc & Hcs & Hi & Hr)%Exists_exists|Hno].
  - destruct (Hall (revoke_cert t i reason c)) as (_ & t' & Ht' & Hle);
      [by apply list_elem_of_fmap_2|by rewrite Hs|].
    unfold revoke_cert in Ht'. rewrite decide_True, Hr in Ht' by done. simplify_eq/=. lia.
  - apply Hn. split; [by exists c0|]. intros c Hc Hcs.
    specialize (Hall (revoke_cert t i reason c)).
    rewrite Hs in Hall. specialize (Hall (list_elem_of_fmap_2 _ _ _ Hc) Hcs).
    unfold revoke_cert in Hall. destruct (decide (c_id c = i)); [|done].
    destruct (c_revoked c) eqn:Hr; [done|]. destruct Hno. apply Exists_exists. by exists c.
Qed.

Lemma not_before_issue c t0 cs serial :
  c_revoked c = false → not_before serial t0 cs → not_before serial t0 (cs ++ [c]).
Proof.
  intros Hf Hn tr [(c' & Hc' & Hser) Hall].
  destruct (decide (c_serial_number c = serial)) as [Hcs|Hcs].
  - destruct (Hall c) as [Hr _]; [set_solver|done|congruence].
  - apply Hn. split.
    + exists c'. apply elem_of_app in Hc' as [?| ->%list_elem_of_singleton]; [done|congruence].
    + intros x Hx. apply Hall. set_solver.
Qed.

(** A change of the table that keeps every bound up to the present keeps
    the invariant. *)
Lemma inv_table s f :
  (∀ serial t0, t0 ≤ now s → not_before serial t0 (certs (world s)) →
     not_before serial t0 (f (certs (world s)))) →
  inv s → inv {| now := now s; world := with_certs f (world s); pending := pending s |}.
Proof.
  intros Hf [Hp Hc]. split.
  - intros p Hin. destruct (Hp p Hin) as [Ht Hn]. split; [exact Ht|]. intros c Hc' Hr.
    apply Hf; [lia|]. by eapply Hn.
  - intros k e serial He Hk Hg. destruct (Hc k e serial He Hk Hg) as (t0 & Hn & Ht & Hx).
    exists t0. split; [by apply Hf|done].
Qed.

Lemma inv_lookup s env req o w :
  lookup env req (world s) = (o, w) → inv s → 0 ≤ delay →
  inv {| now := now s; world := w;
         pending := match o with
                    | Ret (inr row) => {| p_request := req; p_row := row; p_read := now s |}
                                         :: pending s
                    | _ => pending s
                    end |}.
Proof.
  rewrite lookup_phase_spec. intros Hl [Hp Hc] Hd.
  destruct (hit hex cfg env req (cache (world s))) as [r|]; simplify_eq/=; [done|].
  destruct (db_error env); simplify_eq/=; [done|]. split; [|done]. cbn [pending now world certs].
  intros p [->|Hin]%elem_of_cons; [|by apply Hp]. cbn [p_read p_row p_request]. split; [lia|].
  intros c Hrow Hr tr [_ Hall]. destruct (find_by_serial_elem _ _ _ _ Hrow) as [Hin Hs].
  destruct (Hall c Hin Hs). congruence.
Qed.

Lemma inv_respond s env p ps o w :
  pending s ≡ₚ p :: ps → p_read p ≤ t_next env ≤ now s →
  respond env (p_request p) (p_row p) (world s) = (o, w) → inv s →
  inv {| now := now s; world := w; pending := ps |}.
Proof.
  intros Hps Ht Hr [Hp Hc].
  pose proof (respond_phase_state civil oid_error hex debug_key debug_algorithm debug_length
    crypto_text cfg env (p_request p) (p_row p) (world s)) as Hst. rewrite Hr in Hst.
  destruct Hst as (Hcs & _ & Hf & _ & Hpan).
  assert (∀ q, q ∈ p :: ps → q ∈ pending s) as Hsub by (intros q; by rewrite Hps).
  split; cbn [pending now world]; rewrite Hcs.
  { intros q Hq. apply Hp, Hsub. by apply list_elem_of_further. }
  destruct o as [r|e|]; [|by rewrite (Hf e eq_refl)|by rewrite Hpan].
  apply respond_phase_Ret in Hr as ((? & ? & ? & ? & _ & _ & _ & _ & _ & _ & _ & _ & Hrs & _) &
    _ & Hm & _).
  rewrite Hm. destruct (cacheable cfg (p_request p) && _) eqn:Hca; [|done].
  apply andb_true_iff in Hca as [_ [c Hrow]%bool_decide_eq_true].
  intros k en serial [He|(-> & exp & Hx & ->)]%lookup_insert_cases Hk Hg; [by eapply Hc|].
  cbn [ce_response expires_at] in *. unfold request_key, new_key in Hk. cbn [key_serial] in Hk.
  apply (inj hex) in Hk as <-. unfold says_good, response_expiry in *. rewrite Hrs, Hrow in *.
  cbn in Hg, Hx. injection Hx as <-. unfold status_of in Hg.
  destruct (c_revoked c) eqn:Hrv; [done|].
  destruct (Hp p) as [Hd Hn]; [apply Hsub, list_elem_of_here|].
  exists (p_read p). split; [by eapply Hn|lia].
Qed.

Lemma step_inv s s' : 0 ≤ delay → step s s' → inv s → inv s'.
Proof.
  intros Hd Hs Hi. destruct Hs as [s t Ht Hdl|s c Hc|s i reason|s env req o w Ht Hl
    |s env p ps o w Hps Ht Hr|s serial o w Hv].
  - destruct Hi as [Hp Hc]. split; cbn [pending now world].
    + intros p Hin. destruct (Hp p Hin) as [Hb Hn]. rewrite Forall_forall in Hdl.
      specialize (Hdl p Hin). split; [lia|done].
    + intros k e serial He Hk Hg. destruct (Hc k e serial He Hk Hg) as (t0 & Hn & Hb & Hx).
      exists t0. split; [done|]. split; [lia|done].
  - apply inv_table; [|done]. intros. by apply not_before_issue.
  - apply inv_table; [|done]. intros. by apply not_before_revoke.
  - by apply inv_lookup with (env := env) (req := req).
  - by apply inv_respond with (env := env) (p := p) (o := o).
  - injection Hv as <- <-. destruct Hi as [Hp Hc]. split; [done|]. cbn [world cache].
    intros k e sn He. apply map_lookup_filter_Some in He as [He _]. by apply Hc.
Qed.

Lemma responder_reachable_inv s s' : 0 ≤ delay → starting s → rtc step s s' → inv s'.
Proof.
  intros Hd [Hc Hp] Hr. assert (inv s) as Hi.
  { split; [rewrite Hp; by intros p ?%elem_of_nil|]. rewrite Hc. intros k e serial He.
    by rewrite lookup_empty in He. }
  clear Hc Hp. induction Hr as [|x y z Hxy _ IH]; [done|]. apply IH. by eapply step_inv.
Qed.

(** ** Properties *)

(** C24. How long a revoked certificate can still be called good: whatever
    requests, revocations, issuances and invalidations came before, in any
    interleaving, an answer from the cache that says good for a serial number
    whose rows were all revoked by [tr] is given before [tr] plus the validity of responses
    plus the time one request takes; an answer from the table, before [tr]
    plus the time one request takes. *)
Theorem bounded_staleness s s' serial tr :
  0 ≤ delay → starting s → rtc step s s' → revoked_since serial tr (certs (world s')) →
  (∀ env req r w, t_get env = now s' → serial_number req = serial →
     lookup env req (world s') = (Ret (inl r), w) → says_good r →
     now s' < tr + delay + seconds (response_validity cfg)) ∧
  (∀ p env r w, p ∈ pending s' → serial_number (p_request p) = serial →
     respond env (p_request p) (p_row p) (world s') = (Ret r, w) → says_good r →
     now s' ≤ tr + delay).
Proof.
  intros Hd Hst Hr Hrev. destruct (responder_reachable_inv s s' Hd Hst Hr) as [Hp Hc]. split.
  - intros env req r w Ht Hser Hl Hg. rewrite lookup_phase_spec in Hl.
    destruct (hit hex cfg env req (cache (world s'))) as [r0|] eqn:Hh;
      [|by destruct (db_error env)].
    injection Hl as -> _. unfold hit in Hh. destruct (cacheable cfg req); [|done].
    apply cache_get_Some in Hh as (e & He & Hx & <-).
    destruct (Hc _ e serial He) as (t0 & Hn & _ & Hle); [cbn; by rewrite Hser|done|].
    specialize (Hn tr Hrev). lia.
  - intros p env r w Hin Hser Hl Hg. destruct (Hp p Hin) as [Hb Hn].
    apply respond_phase_Ret in Hl as ((? & ? & ? & ? & _ & _ & _ & _ & _ & _ & _ & _ & Hrs & _) & _).
    unfold says_good in Hg. rewrite Hrs in Hg. destruct (p_row p) as [c|]; [|done].
    cbn in Hg. unfold status_of in Hg. destruct (c_revoked c) eqn:Hrv; [done|].
    rewrite Hser in Hn. specialize (Hn c eq_refl Hrv tr Hrev). lia.
Qed.
End freshness.

(** ** Witness *)

#[export] Instance toy_hex_inj : Inj (=) (=) toy_hex.
Proof. intros l l' E. unfold toy_hex in E. apply (inj (@pretty N _)) in E. injection E as E. by apply (inj encode) in E. Qed.

Definition toy_step : Sys → Sys → Prop :=
  @step rfc_lib map_OldestKey toy_civil (λ _, "") toy_hex (λ _, "") (λ _, "") (λ _, "") (λ _, "")
    (toy_cfg true) 10.
Definition toy_req : OcspRequest := toy_request [9] [1; 2] None.
Definition toy_row : option Certificate := find_by_serial 0 (certs toy_state) [9].
Definition toy_looked : St := (lookup_phase toy_hex (toy_cfg true) (toy_env 0) toy_req toy_state).2.
Definition toy_answered : St :=
  (@respond_phase rfc_lib map_OldestKey toy_civil (λ _, "") toy_hex (λ _, "") (λ _, "") (λ _, "")
     (λ _, "") (toy_cfg true) (toy_env 5) toy_req toy_row toy_looked).2.
Definition toy_revoked : St := with_certs (λ cs, (revoke 20 1 4 cs).2) toy_answered.
Definition toy_start : Sys := {| now := 0; world := toy_state; pending := [] |}.
Definition toy_end : Sys := {| now := 30; world := toy_revoked; pending := [] |}.

Lemma toy_reach : rtc toy_step toy_start toy_end.
Proof.
  set (p := {| p_request := toy_req; p_row := toy_row; p_read := 0 |}).
  eapply rtc_l; [by apply (step_lookup _ _ _ _ _ _ _ _ _ toy_start (toy_env 0) toy_req (Ret (inr toy_row)) toy_looked)|].
  eapply rtc_l; [eapply step_tick with (t := 5); [done|by repeat constructor]|].
  eapply rtc_l.
  { eapply step_respond with (env := toy_env 5) (p := p) (ps := []) (w := toy_answered)
      (o := (@respond_phase rfc_lib map_OldestKey toy_civil (λ _, "") toy_hex (λ _, "") (λ _, "")
               (λ _, "") (λ _, "") (toy_cfg true) (toy_env 5) toy_req toy_row toy_looked).1).
    - done.
    - done.
    - apply surjective_pairing. }
  eapply rtc_l; [eapply step_tick with (t := 20); [done|by repeat constructor]|].
  eapply rtc_l; [eapply step_revoke with (i := 1%N) (reason := 4)|].
  eapply rtc_l; [eapply step_tick with (t := 30); [done|by repeat constructor]|].
  apply rtc_refl.
Qed.

Lemma toy_stale : ∃ r w,
  lookup_phase toy_hex (toy_cfg true) (toy_env 30) toy_req (world toy_end) = (Ret (inl r), w) ∧
  says_good r.
Proof. vm_compute. do 2 eexists. split; [reflexivity|]. reflexivity. Qed.

(** Ten nanoseconds after the revocation the answer is still good. *)
Lemma bounded_staleness_witness :
  revoked_since [9] 20 (certs (world toy_end)) ∧ now toy_end < 20 + 10 + seconds 3600.
Proof.
  assert (revoked_since [9] 20 (certs (world toy_end))) as Hrev.
  { split; [eexists; split; [apply list_elem_of_here|reflexivity]|].
    intros c ->%list_elem_of_singleton _. split; [reflexivity|]. by exists 20. }
  split; [exact Hrev|]. destruct toy_stale as (r & w & Hl & Hg).
  eapply (@bounded_staleness rfc_lib map_OldestKey toy_civil (λ _, "") toy_hex (λ _, "") (λ _, "")
    (λ _, "") (λ _, "") (toy_cfg true) toy_hex_inj 10 toy_start toy_end [9] 20).
  - lia.
  - split; reflexivity.
  - exact toy_reach.
  - exact Hrev.
  - exact (eq_refl : t_get (toy_env 30) = now toy_end).
  - exact (eq_refl : serial_number toy_req = [9]).
  - exact Hl.
  - exact Hg.
Defined.
