(* ===== verification/TampTypes.v ===== *)
(** * TAMP data types

    [crates/ostrich-tamp/src/asn1.rs], [statuscode.rs], [error.rs] and
    [oids.rs]: the messages of the Trust Anchor Management Protocol.  The
    X.509 structures inside them are the [x509-cert], [spki] and [der]
    crates'; so are the DER codecs, which those crates derive from the
    declarations. *)
From stdpp Require Import base strings list sets.
From S2P Require Import Prelude.
#[local] Open Scope Z_scope.

(** ** Status codes *)

Inductive StatusCode :=
| SSuccess | SDecodeFailure | SBadContentInfo | SBadSignedData | SBadEncapContent
| SBadCertificate | SBadSignerInfo | SBadSignedAttrs | SBadUnsignedAttrs | SMissingContent
| SNoTrustAnchor | SNotAuthorized | SBadDigestAlgorithm | SBadSignatureAlgorithm
| SUnsupportedKeySize | SUnsupportedParameters | SSignatureFailure | SInsufficientMemory
| SUnsupportedTampMsgType | SApexTampAnchor | SImproperTaAddition | SSeqNumFailure
| SContingencyPublicKeyDecrypt | SIncorrectTarget | SCommunityUpdateFailed
| STrustAnchorNotFound | SUnsupportedTaAlgorithm | SUnsupportedTaKeySize
| SUnsupportedContinPubKeyDecryptAlg | SMissingSignature | SResourcesBusy
| SVersionNumberMismatch | SMissingPolicySet | SRevokedCertificate
| SUnsupportedTrustAnchorFormat | SImproperTaChange | SMalformed | SCmsError
| SUnsupportedTargetIdentifier | SOther.

Definition status_discriminant (s : StatusCode) : u8 :=
  match s with
  | SSuccess => 0 | SDecodeFailure => 1 | SBadContentInfo => 2 | SBadSignedData => 3
  | SBadEncapContent => 4 | SBadCertificate => 5 | SBadSignerInfo => 6 | SBadSignedAttrs => 7
  | SBadUnsignedAttrs => 8 | SMissingContent => 9 | SNoTrustAnchor => 10 | SNotAuthorized => 11
  | SBadDigestAlgorithm => 12 | SBadSignatureAlgorithm => 13 | SUnsupportedKeySize => 14
  | SUnsupportedParameters => 15 | SSignatureFailure => 16 | SInsufficientMemory => 17
  | SUnsupportedTampMsgType => 18 | SApexTampAnchor => 19 | SImproperTaAddition => 20
  | SSeqNumFailure => 21 | SContingencyPublicKeyDecrypt => 22 | SIncorrectTarget => 23
  | SCommunityUpdateFailed => 24 | STrustAnchorNotFound => 25 | SUnsupportedTaAlgorithm => 26
  | SUnsupportedTaKeySize => 27 | SUnsupportedContinPubKeyDecryptAlg => 28
  | SMissingSignature => 29 | SResourcesBusy => 30 | SVersionNumberMismatch => 31
  | SMissingPolicySet => 32 | SRevokedCertificate => 33 | SUnsupportedTrustAnchorFormat => 34
  | SImproperTaChange => 35 | SMalformed => 36 | SCmsError => 37
  | SUnsupportedTargetIdentifier => 38 | SOther => 127
  end.

Definition status_as_str (s : StatusCode) : string :=
  match s with
  | SSuccess => "success"
  | SDecodeFailure => "decode_failure"
  | SBadContentInfo => "bad_content_info"
  | SBadSignedData => "bad_signed_data"
  | SBadEncapContent => "bad_encap_content"
  | SBadCertificate => "bad_certificate"
  | SBadSignerInfo => "bad_signer_info"
  | SBadSignedAttrs => "bad_signed_attrs"
  | SBadUnsignedAttrs => "bad_unsigned_attrs"
  | SMissingContent => "missing_content"
  | SNoTrustAnchor => "no_trust_anchor"
  | SNotAuthorized => "not_authorized"
  | SBadDigestAlgorithm => "bad_digest_algorithm"
  | SBadSignatureAlgorithm => "bad_signature_algorithm"
  | SUnsupportedKeySize => "unsupported_key_size"
  | SUnsupportedParameters => "unsupported_parameters"
  | SSignatureFailure => "signature_failure"
  | SInsufficientMemory => "insufficient_memory"
  | SUnsupportedTampMsgType => "unsupported_tamp_msg_type"
  | SApexTampAnchor => "apex_tamp_anchor"
  | SImproperTaAddition => "improper_ta_addition"
  | SSeqNumFailure => "seq_num_failure"
  | SContingencyPublicKeyDecrypt => "contingency_public_key_decrypt"
  | SIncorrectTarget => "incorrect_target"
  | SCommunityUpdateFailed => "community_update_failed"
  | STrustAnchorNotFound => "trust_anchor_not_found"
  | SUnsupportedTaAlgorithm => "unsupported_ta_algorithm"
  | SUnsupportedTaKeySize => "unsupported_ta_key_size"
  | SUnsupportedContinPubKeyDecryptAlg => "unsupported_contin_pub_key_decrypt_alg"
  | SMissingSignature => "missing_signature"
  | SResourcesBusy => "resources_busy"
  | SVersionNumberMismatch => "version_number_mismatch"
  | SMissingPolicySet => "missing_policy_set"
  | SRevokedCertificate => "revoked_certificate"
  | SUnsupportedTrustAnchorFormat => "unsupported_trust_anchor_format"
  | SImproperTaChange => "improper_ta_change"
  | SMalformed => "malformed"
  | SCmsError => "cms_error"
  | SUnsupportedTargetIdentifier => "unsupported_target_identifier"
  | SOther => "other"
  end.

Definition every_status : list StatusCode :=
 
  [SSuccess; SDecodeFailure; SBadContentInfo; SBadSignedData; SBadEncapContent; SBadCertificate; 
   SBadSignerInfo; SBadSignedAttrs; SBadUnsignedAttrs; SMissingContent; SNoTrustAnchor; SNotAuthorized; 
   SBadDigestAlgorithm; SBadSignatureAlgorithm; SUnsupportedKeySize; SUnsupportedParameters; SSignatureFailure; SInsufficientMemory; 
   SUnsupportedTampMsgType; SApexTampAnchor; SImproperTaAddition; SSeqNumFailure; SContingencyPublicKeyDecrypt; SIncorrectTarget; 
   SCommunityUpdateFailed; STrustAnchorNotFound; SUnsupportedTaAlgorithm; SUnsupportedTaKeySize; SUnsupportedContinPubKeyDecryptAlg; SMissingSignature; 
   SResourcesBusy; SVersionNumberMismatch; SMissingPolicySet; SRevokedCertificate; SUnsupportedTrustAnchorFormat; SImproperTaChange; 
   SMalformed; SCmsError; SUnsupportedTargetIdentifier; SOther].

Definition is_success (s : StatusCode) : bool :=
  match s with SSuccess => true | _ => false end.

(** ** Errors *)

Inductive Error :=
| Asn1 (e : string)
| Cms (msg : string)
| SignatureFailure (msg : string)
| NoTrustAnchor
| NotAuthorized
| SeqNumFailure (msg : string)
| IncorrectTarget
| ETrustAnchorUpdate (msg : string)
| Crypto (e : string)
| Storage (msg : string)
| Other (msg : string).

Definition status_code (e : Error) : StatusCode :=
  match e with
  | Asn1 _ => SDecodeFailure
  | Cms _ => SCmsError
  | SignatureFailure _ => SSignatureFailure
  | NoTrustAnchor => SNoTrustAnchor
  | NotAuthorized => SNotAuthorized
  | SeqNumFailure _ => SSeqNumFailure
  | IncorrectTarget => SIncorrectTarget
  | ETrustAnchorUpdate _ => SImproperTaChange
  | Crypto _ => SSignatureFailure
  | Storage _ => SInsufficientMemory
  | Other _ => SOther
  end.

(** The status of [Error::into_response] in [rest.rs]. *)
Definition error_http_status (e : Error) : Z :=
  match e with
  | Asn1 _ | ETrustAnchorUpdate _ | Other _ => 400
  | SignatureFailure _ | NoTrustAnchor | NotAuthorized | SeqNumFailure _ | IncorrectTarget
  | Cms _ => 422
  | Crypto _ | Storage _ => 500
  end.

(** ** Content types *)

Definition ID_CT_TAMP_STATUS_QUERY : string := "2.16.840.1.101.2.1.2.77.1".
Definition ID_CT_TAMP_STATUS_RESPONSE : string := "2.16.840.1.101.2.1.2.77.2".
Definition ID_CT_TAMP_UPDATE : string := "2.16.840.1.101.2.1.2.77.3".
Definition ID_CT_TAMP_UPDATE_CONFIRM : string := "2.16.840.1.101.2.1.2.77.4".
Definition ID_CT_TAMP_APEX_UPDATE : string := "2.16.840.1.101.2.1.2.77.5".
Definition ID_CT_TAMP_APEX_UPDATE_CONFIRM : string := "2.16.840.1.101.2.1.2.77.6".
Definition ID_CT_TAMP_COMMUNITY_UPDATE : string := "2.16.840.1.101.2.1.2.77.7".
Definition ID_CT_TAMP_COMMUNITY_UPDATE_CONFIRM : string := "2.16.840.1.101.2.1.2.77.8".
Definition ID_CT_TAMP_ERROR : string := "2.16.840.1.101.2.1.2.77.9".
Definition ID_CT_TAMP_SEQ_NUM_ADJUST : string := "2.16.840.1.101.2.1.2.77.10".
Definition ID_CT_TAMP_SEQ_NUM_ADJUST_CONFIRM : string := "2.16.840.1.101.2.1.2.77.11".
Definition ID_AA_TAMP_CONTINGENCY_PUBLIC_KEY_DECRYPT_KEY : string := "2.16.840.1.101.2.1.5.63".
Definition ID_SIGNED_DATA : string := "1.2.840.113549.1.7.2".

(** ** Messages *)

Inductive TerseOrVerbose := Terse | Verbose.

(** The structures of the X.509 crates. *)
Class X509Types := {
  XCertificate : Type;
  XTbsCertificate : Type;
  SubjectPublicKeyInfo : Type;
  XName : Type;
  XExtensions : Type;
  CertificatePolicies : Type;
  NameConstraints : Type;
  AlgorithmIdentifier : Type;
  Validity : Type;
  OtherName : Type
}.

Section types.
Context `{!X509Types}.

Record CertPathControls := {
  cpc_ta_name : XName;
  cpc_certificate : option XCertificate;
  cpc_policy_set : option CertificatePolicies;
  cpc_policy_flags : option (list u8);
  cpc_name_constr : option NameConstraints;
  cpc_path_len_constraint : option Z
}.

Record TrustAnchorInfo := {
  tai_version : u8;
  tai_pub_key : SubjectPublicKeyInfo;
  tai_key_id : list u8;
  tai_ta_title : option string;
  tai_cert_path : option CertPathControls;
  tai_exts : option XExtensions;
  tai_ta_title_lang_tag : option string
}.

Inductive TrustAnchorChoice :=
| TaCertificate (cert : XCertificate)
| TaTbsCert (tbs : XTbsCertificate)
| TaInfo (info : TrustAnchorInfo).

Inductive HardwareSerialEntry :=
| HwAll
| HwSingle (serial : list u8)
| HwBlock (low high : list u8).

Record HardwareModules := {
  hw_type : string;
  hw_serial_entries : list HardwareSerialEntry
}.

Inductive TargetIdentifier :=
| HwModules (modules : list HardwareModules)
| Communities (communities : list string)
| AllModules
| Uri (uri : string)
| TOtherName (name : OtherName).

Record TampMsgRef := { target : TargetIdentifier; seq_num : Z }.
Record TampSequenceNumber := { tsn_key_id : list u8; tsn_seq_number : Z }.

Record TampStatusQuery := {
  sq_version : u8;
  sq_terse : TerseOrVerbose;
  sq_query : TampMsgRef
}.

Inductive StatusResponse :=
| TerseStatusResponse (ta_key_ids : list (list u8)) (communities : option (list string))
| VerboseStatusResponse (ta_info : list TrustAnchorChoice)
    (contin_pub_key_decrypt_alg : option AlgorithmIdentifier)
    (communities : option (list string)) (tamp_seq_numbers : option (list TampSequenceNumber)).

Record TampStatusResponse := {
  sr_version : u8;
  sr_query : TampMsgRef;
  sr_response : StatusResponse;
  sr_uses_apex : bool
}.

Record TbsCertificateChangeInfo := {
  tcc_serial_number : option (list u8);
  tcc_signature : option AlgorithmIdentifier;
  tcc_issuer : option XName;
  tcc_validity : option Validity;
  tcc_subject : option XName;
  tcc_subject_public_key_info : SubjectPublicKeyInfo;
  tcc_exts : option XExtensions
}.

Record TrustAnchorChangeInfo := {
  tac_pub_key : SubjectPublicKeyInfo;
  tac_key_id : option (list u8);
  tac_ta_title : option string;
  tac_cert_path : option CertPathControls;
  tac_exts : option XExtensions
}.

Inductive TrustAnchorChangeInfoChoice :=
| TbsCertChange (info : TbsCertificateChangeInfo)
| TaChange (info : TrustAnchorChangeInfo).

Inductive TrustAnchorUpdate :=
| UpdateAdd (ta : TrustAnchorChoice)
| UpdateRemove (spki : SubjectPublicKeyInfo)
| UpdateChange (change : TrustAnchorChangeInfoChoice).

Record TampUpdate := {
  tu_version : u8;
  tu_terse : TerseOrVerbose;
  tu_msg_ref : TampMsgRef;
  tu_updates : list TrustAnchorUpdate;
  tu_tamp_seq_numbers : option (list TampSequenceNumber)
}.

Record VerboseUpdateConfirm := {
  vuc_status : list StatusCode;
  vuc_ta_info : list TrustAnchorChoice;
  vuc_tamp_seq_numbers : option (list TampSequenceNumber);
  vuc_uses_apex : bool
}.

Inductive UpdateConfirm :=
| UcTerse (status : list StatusCode)
| UcVerbose (v : VerboseUpdateConfirm).

Record TampUpdateConfirm := {
  uc_version : u8;
  uc_update : TampMsgRef;
  uc_confirm : UpdateConfirm
}.

Record TampApexUpdate := {
  au_version : u8;
  au_terse : TerseOrVerbose;
  au_msg_ref : TampMsgRef;
  au_clear_trust_anchors : bool;
  au_clear_communities : bool;
  au_seq_number : option Z;
  au_apex_ta : TrustAnchorChoice
}.

Record VerboseApexUpdateConfirm := {
  vac_status : StatusCode;
  vac_ta_info : list TrustAnchorChoice;
  vac_communities : option (list string);
  vac_tamp_seq_numbers : option (list TampSequenceNumber)
}.

Inductive ApexUpdateConfirm :=
| AcTerse (status : StatusCode)
| AcVerbose (v : VerboseApexUpdateConfirm).

Record TampApexUpdateConfirm := {
  ac_version : u8;
  ac_apex_replace : TampMsgRef;
  ac_apex_confirm : ApexUpdateConfirm
}.

Record CommunityUpdates := { cu_remove : option (list string); cu_add : option (list string) }.

Record TampCommunityUpdate := {
  tcu_version : u8;
  tcu_terse : TerseOrVerbose;
  tcu_msg_ref : TampMsgRef;
  tcu_updates : CommunityUpdates
}.

Record VerboseCommunityConfirm := {
  vcc_status : StatusCode;
  vcc_communities : option (list string)
}.

Inductive CommunityConfirm :=
| CcTerse (status : StatusCode)
| CcVerbose (v : VerboseCommunityConfirm).

Record TampCommunityUpdateConfirm := {
  cc_version : u8;
  cc_update : TampMsgRef;
  cc_comm_confirm : CommunityConfirm
}.

Record SequenceNumberAdjust := { sa_version : u8; sa_msg_ref : TampMsgRef }.

Record SequenceNumberAdjustConfirm := {
  sac_version : u8;
  sac_adjust : TampMsgRef;
  sac_status : StatusCode
}.

Record TampError := {
  te_version : u8;
  te_msg_type : string;
  te_status : StatusCode;
  te_msg_ref : option TampMsgRef
}.

(** The derived codecs; an error is its text. *)
Class TampCodec := {
  target_to_der : TargetIdentifier → result (list u8) string;
  cert_spki : XCertificate → SubjectPublicKeyInfo;
  tbs_spki : XTbsCertificate → SubjectPublicKeyInfo;
  spki_to_der : SubjectPublicKeyInfo → result (list u8) string;
  spki_from_der : list u8 → result SubjectPublicKeyInfo string;
  ta_to_der : TrustAnchorChoice → result (list u8) string;
  change_to_der : TrustAnchorChangeInfoChoice → result (list u8) string;
  status_query_to_der : TampStatusQuery → result (list u8) string;
  update_to_der : TampUpdate → result (list u8) string;
  apex_update_to_der : TampApexUpdate → result (list u8) string;
  community_update_to_der : TampCommunityUpdate → result (list u8) string;
  seq_adjust_to_der : SequenceNumberAdjust → result (list u8) string;
  status_response_from_der : list u8 → result TampStatusResponse string;
  update_confirm_from_der : list u8 → result TampUpdateConfirm string;
  apex_confirm_from_der : list u8 → result TampApexUpdateConfirm string;
  community_confirm_from_der : list u8 → result TampCommunityUpdateConfirm string;
  seq_adjust_confirm_from_der : list u8 → result SequenceNumberAdjustConfirm string;
  tamp_error_from_der : list u8 → result TampError string
}.

(** [?] on a codec's result. *)
Definition asn1 {A} (r : result A string) : result A Error :=
  match r with Ok x => Ok x | Err e => Err (Asn1 e) end.

(** ** An inbound message

    [decode_inbound] of [manager.rs]: its name, the sequence number it refers
    to and its status codes. *)
Definition decode_inbound `{!TampCodec} (content_type : string) (content : list u8)
    : result (string * option Z * list StatusCode) Error :=
  if bool_decide (content_type = ID_CT_TAMP_STATUS_RESPONSE) then
    let? m := asn1 (status_response_from_der content) in
    Ok ("TAMPStatusResponse", Some (seq_num (sr_query m)), [])
  else if bool_decide (content_type = ID_CT_TAMP_UPDATE_CONFIRM) then
    let? m := asn1 (update_confirm_from_der content) in
    Ok ("TAMPUpdateConfirm", Some (seq_num (uc_update m)),
        match uc_confirm m with UcTerse c => c | UcVerbose v => vuc_status v end)
  else if bool_decide (content_type = ID_CT_TAMP_APEX_UPDATE_CONFIRM) then
    let? m := asn1 (apex_confirm_from_der content) in
    Ok ("TAMPApexUpdateConfirm", Some (seq_num (ac_apex_replace m)),
        [match ac_apex_confirm m with AcTerse c => c | AcVerbose v => vac_status v end])
  else if bool_decide (content_type = ID_CT_TAMP_COMMUNITY_UPDATE_CONFIRM) then
    let? m := asn1 (community_confirm_from_der content) in
    Ok ("TAMPCommunityUpdateConfirm", Some (seq_num (cc_update m)),
        [match cc_comm_confirm m with CcTerse c => c | CcVerbose v => vcc_status v end])
  else if bool_decide (content_type = ID_CT_TAMP_SEQ_NUM_ADJUST_CONFIRM) then
    let? m := asn1 (seq_adjust_confirm_from_der content) in
    Ok ("SequenceNumberAdjustConfirm", Some (seq_num (sac_adjust m)), [sac_status m])
  else if bool_decide (content_type = ID_CT_TAMP_ERROR) then
    let? m := asn1 (tamp_error_from_der content) in
    Ok ("TAMPError", seq_num <$> te_msg_ref m, [te_status m])
  else Err (Cms ("unexpected inbound TAMP content type " +:+ content_type)).
End types.

(** ** Lemmas *)

Lemma every_status_complete s : s ∈ every_status.
Proof. destruct s; unfold every_status; set_solver. Qed.

(** The wire values and the labels tell the status codes apart. *)
Lemma status_codes_distinct s s' :
  status_discriminant s = status_discriminant s' ∨ status_as_str s = status_as_str s' → s = s'.
Proof.
  intros [E|E]; destruct s; destruct s'; first [reflexivity|discriminate E].
Qed.
