(* ===== verification/TampCms.v ===== *)
(** * CMS protection of TAMP messages

    [crates/ostrich-tamp/src/cms.rs]: wrapping a message in a [SignedData]
    with one SignerInfo, and parsing and verifying such an envelope.  The CMS
    structures are the [cms] crate's, with the fields the code sets or reads;
    their DER codecs are parameters with the round trip DER has. *)
From stdpp Require Import base strings list.
From S2P Require Import Prelude Der OcspRequest Signing Algorithm TampTypes.
#[local] Open Scope Z_scope.

Definition ID_CONTENT_TYPE : string := "1.2.840.113549.1.9.3".
Definition ID_MESSAGE_DIGEST : string := "1.2.840.113549.1.9.4".

(** [Any] is its DER form. *)
Abbreviation Any := (list u8).
Record Attribute := { attr_oid : string; attr_values : list Any }.

Inductive SignerIdentifier :=
| SubjectKeyIdentifier (ski : list u8)
| IssuerAndSerialNumber.

Record SignerInfo := {
  si_sid : SignerIdentifier;
  si_signed_attrs : option (list Attribute);
  si_signature_algorithm : string * bool;
  si_signature : list u8;
  si_unsigned_attrs : option (list Attribute)
}.

Record SignedData := {
  sd_econtent_type : string;
  sd_econtent : option Any;
  sd_signer_infos : list SignerInfo
}.

Record ContentInfo := { ci_content_type : string; ci_content : Any }.

(** The library: errors are their texts.  [set_insert] is
    [SetOfVec::insert], which keeps the DER order and refuses a duplicate. *)
Class CmsLib := {
  sha256 : list u8 → list u8;
  oid_any : string → result Any string;
  octets_any : list u8 → result Any string;
  octets_of_any : Any → result (list u8) string;
  set_insert : Attribute → list Attribute → result (list Attribute) string;
  attrs_to_der : list Attribute → result (list u8) string;
  attrs_from_der : list u8 → result (list Attribute) string;
  signed_data_any : SignedData → result Any string;
  signed_data_of_any : Any → result SignedData string;
  content_info_to_der : ContentInfo → result (list u8) string;
  content_info_from_der : list u8 → result ContentInfo string;
  octets_any_back b a : octets_any b = Ok a → octets_of_any a = Ok b;
  set_insert_elem x l l' : set_insert x l = Ok l' → ∀ y, y ∈ l' ↔ y = x ∨ y ∈ l;
  attrs_back l b : attrs_to_der l = Ok b → attrs_from_der b = Ok l;
  signed_data_back s a : signed_data_any s = Ok a → signed_data_of_any a = Ok s;
  content_info_back c b : content_info_to_der c = Ok b → content_info_from_der b = Ok c
}.

Section cms.
Context `{!CmsLib, !VerifyLib} (debug_algorithm : Algorithm → string)
  (debug_length : nat → string) (text : CryptoErr → string)
  (crypto_text : CryptoError → string).

(** [.map_err(|e| Error::Cms(format!(..)))]. *)
Definition cms_err {A} (context : string) (r : result A string) : result A Error :=
  match r with Ok x => Ok x | Err e => Err (Cms (context +:+ e)) end.
Definition cms_crypto {A} (context : string) (r : result A CryptoErr) : result A Error :=
  match r with Ok x => Ok x | Err e => Err (Cms (context +:+ text e)) end.

Definition attribute (oid : string) (value : Any) : Attribute :=
  {| attr_oid := oid; attr_values := [value] |}.

Definition build_signed_attrs (content_type : string) (content : list u8)
    : result (list Attribute) Error :=
  let? ct_value := cms_err "content-type any: " (oid_any content_type) in
  let? md_value := cms_err "message-digest any: " (octets_any (sha256 content)) in
  let? attrs := cms_err "insert content-type: "
                  (set_insert (attribute ID_CONTENT_TYPE ct_value) []) in
  cms_err "insert message-digest: " (set_insert (attribute ID_MESSAGE_DIGEST md_value) attrs).

Fixpoint insert_unsigned (set : list Attribute) (attrs : list (string * Any))
    : result (list Attribute) Error :=
  match attrs with
  | [] => Ok set
  | (oid, value) :: attrs =>
      let? set := cms_err "insert unsigned attr: " (set_insert (attribute oid value) set) in
      insert_unsigned set attrs
  end.
Definition build_unsigned_attrs (attrs : list (string * Any))
    : result (option (list Attribute)) Error :=
  match attrs with
  | [] => Ok None
  | _ => let? set := insert_unsigned [] attrs in Ok (Some set)
  end.

(** [sign] is the provider with the signing key. *)
Definition sign_message_with_unsigned_attrs
    (sign : Algorithm → list u8 → result (list u8) string) (signer_ski : list u8)
    (content_type : string) (content : list u8) (algorithm : Algorithm)
    (unsigned_attrs : list (string * Any)) : result (list u8) Error :=
  let? signed_attrs := build_signed_attrs content_type content in
  let? tbs := cms_err "encode signed attrs: " (attrs_to_der signed_attrs) in
  let? raw_sig := match sign algorithm tbs with Ok s => Ok s | Err e => Err (Crypto e) end in
  let? sig := cms_crypto "encode signature value: "
                (encode_x509_signature debug_length algorithm raw_sig) in
  let? sig_alg := cms_crypto "signature algorithm id: "
                    (algorithm_identifier debug_algorithm algorithm) in
  let? unsigned := build_unsigned_attrs unsigned_attrs in
  let? econtent := cms_err "econtent any: " (octets_any content) in
  let? signed_data := cms_err "encode SignedData: " (signed_data_any
    {| sd_econtent_type := content_type; sd_econtent := Some econtent;
       sd_signer_infos := [{| si_sid := SubjectKeyIdentifier signer_ski;
                              si_signed_attrs := Some signed_attrs;
                              si_signature_algorithm := sig_alg; si_signature := sig;
                              si_unsigned_attrs := unsigned |}] |}) in
  cms_err "encode ContentInfo: " (content_info_to_der
    {| ci_content_type := ID_SIGNED_DATA; ci_content := signed_data |}).

Definition sign_message sign signer_ski content_type content algorithm : result (list u8) Error :=
  sign_message_with_unsigned_attrs sign signer_ski content_type content algorithm [].

Record ParsedTampMessage := {
  p_content_type : string;
  p_content : list u8;
  p_signer_ski : list u8;
  p_signed_attrs_der : list u8;
  p_signature : list u8;
  p_signature_alg_oid : string
}.

Definition parse (content_info_der : list u8) : result ParsedTampMessage Error :=
  let? ci := asn1 (content_info_from_der content_info_der) in
  if negb (bool_decide (ci_content_type ci = ID_SIGNED_DATA)) then
    Err (Cms "outer content type is not id-signedData")
  else
    let? signed_data := cms_err "decode SignedData: " (signed_data_of_any (ci_content ci)) in
    let? econtent := ok_or (sd_econtent signed_data) (Cms "missing eContent") in
    let? content := cms_err "eContent is not an OCTET STRING: " (octets_of_any econtent) in
    match sd_signer_infos signed_data with
    | [signer] =>
        match si_sid signer with
        | IssuerAndSerialNumber =>
            Err (Cms "SignerIdentifier must be subjectKeyIdentifier (RFC 5934 §2.2.1)")
        | SubjectKeyIdentifier ski =>
            let? attrs := ok_or (si_signed_attrs signer) (Cms "missing signed attributes") in
            let? der := cms_err "re-encode signed attrs: " (attrs_to_der attrs) in
            Ok {| p_content_type := sd_econtent_type signed_data; p_content := content;
                  p_signer_ski := ski; p_signed_attrs_der := der;
                  p_signature := si_signature signer;
                  p_signature_alg_oid := (si_signature_algorithm signer).1 |}
        end
    | _ => Err (Cms "expected exactly one SignerInfo")
    end.

Definition map_signature_alg (oid : string) : result Algorithm Error :=
  ok_or (table_lookup oid
           [("1.2.840.10045.4.3.2", EcdsaP256Sha256); ("1.2.840.10045.4.3.3", EcdsaP384Sha384);
            ("1.2.840.113549.1.1.11", RsaPkcs1Sha256); ("1.2.840.113549.1.1.12", RsaPkcs1Sha384);
            ("1.2.840.113549.1.1.13", RsaPkcs1Sha512); ("1.3.101.112", Ed25519)])
        (Cms ("unsupported CMS signature algorithm OID " +:+ oid)).

(** The [for] loop over the attributes: the first message-digest decides. *)
Fixpoint first_digest (attrs : list Attribute) : result (list u8) Error :=
  match attrs with
  | [] => Err (Cms "no message-digest attribute")
  | a :: attrs =>
      if bool_decide (attr_oid a = ID_MESSAGE_DIGEST) then
        match attr_values a with
        | [] => Err (Cms "empty message-digest attribute")
        | value :: _ => cms_err "message-digest value: " (octets_of_any value)
        end
      else first_digest attrs
  end.
Definition extract_message_digest (signed_attrs_der : list u8) : result (list u8) Error :=
  let? attrs := asn1 (attrs_from_der signed_attrs_der) in first_digest attrs.

Definition verify (parsed : ParsedTampMessage) (signer_spki_der : list u8) : result unit Error :=
  let? bound_digest := extract_message_digest (p_signed_attrs_der parsed) in
  if negb (bool_decide (bound_digest = sha256 (p_content parsed))) then
    Err (SignatureFailure "message-digest attribute does not match eContent")
  else
    let? algorithm := map_signature_alg (p_signature_alg_oid parsed) in
    match verify_with_spki signer_spki_der algorithm (p_signed_attrs_der parsed)
            (p_signature parsed) false with
    | Err e => Err (Crypto (crypto_text e))
    | Ok true => Ok tt
    | Ok false => Err (SignatureFailure "signature did not verify")
    end.

(** ** Lemmas *)

Lemma cms_err_Ok {A} c (r : result A string) x : cms_err c r = Ok x ↔ r = Ok x.
Proof. destruct r; simpl; naive_solver. Qed.
Lemma cms_crypto_Ok {A} c (r : result A CryptoErr) x : cms_crypto c r = Ok x ↔ r = Ok x.
Proof. destruct r; simpl; naive_solver. Qed.
Lemma asn1_Ok {A} (r : result A string) x : asn1 r = Ok x ↔ r = Ok x.
Proof. destruct r; simpl; naive_solver. Qed.

(** Attributes of which one kind only is the message digest. *)
Lemma first_digest_unique l v b :
  attribute ID_MESSAGE_DIGEST v ∈ l →
  (∀ a, a ∈ l → attr_oid a = ID_MESSAGE_DIGEST → a = attribute ID_MESSAGE_DIGEST v) →
  octets_of_any v = Ok b → first_digest l = Ok b.
Proof.
  intros Hin Hu Hb. induction l as [|a l IH]; [by apply elem_of_nil in Hin|]. cbn [first_digest].
  destruct (decide (attr_oid a = ID_MESSAGE_DIGEST)) as [Ha|Ha].
  - rewrite bool_decide_eq_true_2 by done. rewrite (Hu a); [|apply list_elem_of_here|done].
    cbn. by rewrite Hb.
  - rewrite bool_decide_eq_false_2 by done. apply IH.
    + apply elem_of_cons in Hin as [<-|Hin]; [by destruct Ha|done].
    + intros a' Ha'. apply Hu. by apply list_elem_of_further.
Qed.

Lemma build_signed_attrs_spec ct content l :
  build_signed_attrs ct content = Ok l →
  ∃ c v, oid_any ct = Ok c ∧ octets_any (sha256 content) = Ok v ∧
    ∀ a, a ∈ l ↔ a = attribute ID_MESSAGE_DIGEST v ∨ a = attribute ID_CONTENT_TYPE c.
Proof.
  intros (c & Hc%cms_err_Ok & HH)%res_bind_Ok. apply res_bind_Ok in HH as (v & Hv%cms_err_Ok & HH).
  apply res_bind_Ok in HH as (l1 & H1%cms_err_Ok & H2%cms_err_Ok).
  exists c, v. split; [done|]. split; [done|]. intros a.
  rewrite (set_insert_elem _ _ _ H2), (set_insert_elem _ _ _ H1), elem_of_nil. naive_solver.
Qed.

(** The algorithms whose identifiers [verify] knows. *)
Definition verifiable (a : Algorithm) : Prop :=
  a ∈ [RsaPkcs1Sha256; RsaPkcs1Sha384; RsaPkcs1Sha512; EcdsaP256Sha256; EcdsaP384Sha384; Ed25519].

Lemma map_signature_alg_back a id :
  algorithm_identifier debug_algorithm a = Ok id → verifiable a → map_signature_alg id.1 = Ok a.
Proof.
  intros Hid Ha. unfold verifiable in Ha.
  repeat (apply elem_of_cons in Ha as [->|Ha]; [by injection Hid as <-|]). by apply elem_of_nil in Ha.
Qed.

(** What an envelope the signer made holds. *)
Lemma sign_message_parts sign ski ct content a u env :
  sign_message_with_unsigned_attrs sign ski ct content a u = Ok env →
  ∃ attrs tbs raw sig id un,
    build_signed_attrs ct content = Ok attrs ∧ attrs_to_der attrs = Ok tbs ∧
    sign a tbs = Ok raw ∧ encode_x509_signature debug_length a raw = Ok sig ∧
    algorithm_identifier debug_algorithm a = Ok id ∧ build_unsigned_attrs u = Ok un ∧
    parse env = Ok {| p_content_type := ct; p_content := content; p_signer_ski := ski;
                      p_signed_attrs_der := tbs; p_signature := sig;
                      p_signature_alg_oid := id.1 |}.
Proof.
  intros (attrs & Ha & HH)%res_bind_Ok. apply res_bind_Ok in HH as (tbs & Ht%cms_err_Ok & HH).
  apply res_bind_Ok in HH as (raw & Hr & HH).
  apply res_bind_Ok in HH as (sig & Hs%cms_crypto_Ok & HH).
  apply res_bind_Ok in HH as (id & Hid%cms_crypto_Ok & HH).
  apply res_bind_Ok in HH as (un & Hu & HH).
  apply res_bind_Ok in HH as (ec & Hec%cms_err_Ok%octets_any_back & HH).
  apply res_bind_Ok in HH as (sd & Hsd%cms_err_Ok%signed_data_back & Hci%cms_err_Ok%content_info_back).
  destruct (sign a tbs) as [r|] eqn:Hsign; [|done]. apply Ok_inj in Hr as ->.
  exists attrs, tbs, raw, sig, id, un. split_and!; [done..|].
  unfold parse. rewrite Hci. cbn. rewrite Hsd. cbn. rewrite Hec. cbn. by rewrite Ht.
Qed.

(** ** Properties *)

(** What is signed is what the other side reads: the envelope parses to the
    content type, content and key identifier it was made with, and verifies
    under every key that accepts the signature over the signed attributes,
    for the algorithms [verify] knows. *)
Theorem sign_then_verify sign ski ct content a u env :
  sign_message_with_unsigned_attrs sign ski ct content a u = Ok env → verifiable a →
  ∃ p, parse env = Ok p ∧ p_content_type p = ct ∧ p_content p = content ∧ p_signer_ski p = ski ∧
  (∃ raw, sign a (p_signed_attrs_der p) = Ok raw ∧
     encode_x509_signature debug_length a raw = Ok (p_signature p)) ∧
  ∀ spki, verify_with_spki spki a (p_signed_attrs_der p) (p_signature p) false = Ok true →
    verify p spki = Ok tt.
Proof.
  intros (attrs & tbs & raw & sig & id & un & Ha & Ht & Hr & Hs & Hid & _ & Hp)%sign_message_parts Hv.
  eexists. split; [exact Hp|]. cbn [p_content_type p_content p_signer_ski p_signed_attrs_der p_signature].
  split_and!; [done..|by exists raw|]. intros spki Hok. unfold verify, extract_message_digest.
  cbn [p_signed_attrs_der p_content p_signature_alg_oid p_signature].
  rewrite (attrs_back _ _ Ht). cbn.
  destruct (build_signed_attrs_spec _ _ _ Ha) as (c & v & _ & Hmd & Hin).
  rewrite (first_digest_unique attrs v (sha256 content)).
  - cbn. rewrite bool_decide_eq_true_2 by done. cbn.
    rewrite (map_signature_alg_back a id) by done. cbn. by rewrite Hok.
  - apply Hin. by left.
  - intros x [->| ->]%Hin; [done|]. discriminate.
  - by apply octets_any_back in Hmd.
Qed.

(** A verified envelope binds its content: the bytes the signature was
    checked over decode to attributes whose message digest is the hash of the
    content.  It does not bind the content type: an envelope whose
    [eContentType] alone is changed verifies as well, so that one message can
    be presented as another. *)
Theorem verify_binds_content_only p spki :
  verify p spki = Ok tt →
  (∃ attrs algorithm key, attrs_from_der (p_signed_attrs_der p) = Ok attrs ∧
     first_digest attrs = Ok (sha256 (p_content p)) ∧
     map_signature_alg (p_signature_alg_oid p) = Ok algorithm ∧
     spki_key_bytes spki = Ok (Some key) ∧
     ∃ alg, ring_algorithm algorithm false = Some alg ∧
       ring_verify alg key (p_signed_attrs_der p) (p_signature p) = true) ∧
  (∀ ct, verify {| p_content_type := ct; p_content := p_content p; p_signer_ski := p_signer_ski p;
                   p_signed_attrs_der := p_signed_attrs_der p; p_signature := p_signature p;
                   p_signature_alg_oid := p_signature_alg_oid p |} spki = Ok tt).
Proof.
  intros Hv. split; [|done]. unfold verify in Hv.
  apply res_bind_Ok in Hv as (d & (attrs & Ha%asn1_Ok & Hd)%res_bind_Ok & Hv).
  destruct (decide (d = sha256 (p_content p))) as [->|];
    [rewrite bool_decide_eq_true_2 in Hv by done|by rewrite bool_decide_eq_false_2 in Hv].
  cbn [negb] in Hv. apply res_bind_Ok in Hv as (alg & Halg & Hv).
  unfold verify_with_spki in Hv. destruct (spki_key_bytes spki) as [[key|]|] eqn:Hk; [|done..].
  destruct (ring_algorithm alg false) as [ra|] eqn:Hra; [|done].
  destruct (ring_verify ra key _ _) eqn:Hrv; [|done].
  exists attrs, alg, key. split_and!; [done..|]. by exists ra.
Qed.
End cms.
