(* ===== verification/TampStore.v ===== *)
(** * The TAMP manager's store

    [crates/ostrich-db/src/repository/tamp.rs], on the tables of
    [migrations/00014_tamp_trust_anchor_store.sql] and 00015 with their unique
    constraints.  Row ids and times are left out but for the ids of targets,
    which other tables refer to; a list of rows is in the order of insertion.
    A call is one statement or one transaction: it takes the store to the
    next, and an error leaves it as it was. *)
From stdpp Require Import base gmap strings list sets.
From Stdlib Require Import Sorting.Sorted.
From S2P Require Import Prelude.
#[local] Open Scope Z_scope.

Record TampTargetRow := {
  t_id : Uuid;
  t_label : string;
  t_target_der : list u8;
  t_uses_apex : bool
}.

Record TampTrustAnchorRow := {
  a_target_id : Uuid;
  a_pub_key_spki : list u8;
  a_key_id : option (list u8);
  a_ta_title : option string;
  a_is_apex : bool;
  a_ta_der : list u8
}.

Inductive TrustAnchorWrite :=
| WInsert (pub_key_spki : list u8) (key_id : option (list u8)) (ta_title : option string)
    (is_apex : bool) (ta_der : list u8)
| WRemove (pub_key_spki : list u8)
| WUpdate (pub_key_spki ta_der : list u8).

Record TampMessageLogRow := {
  l_target_id : option Uuid;
  l_direction : string;
  l_content_type : string;
  l_message_name : string;
  l_seq_number : option Z;
  l_signer_key_id : option (list u8);
  l_status_code : option string;
  l_message_der : list u8
}.

Record TampDb := {
  targets : list TampTargetRow;
  trust_anchors : list TampTrustAnchorRow;
  sequence_numbers : gmap (Uuid * list u8) Z;
  communities : gset (Uuid * string);
  target_signers : gmap (Uuid * list u8) (list u8 * option string);
  message_log : list TampMessageLogRow
}.

Definition set_targets db x := {| targets := x; trust_anchors := trust_anchors db;
  sequence_numbers := sequence_numbers db; communities := communities db;
  target_signers := target_signers db; message_log := message_log db |}.
Definition set_anchors db x := {| targets := targets db; trust_anchors := x;
  sequence_numbers := sequence_numbers db; communities := communities db;
  target_signers := target_signers db; message_log := message_log db |}.
Definition set_seqs db x := {| targets := targets db; trust_anchors := trust_anchors db;
  sequence_numbers := x; communities := communities db;
  target_signers := target_signers db; message_log := message_log db |}.
Definition set_communities db x := {| targets := targets db; trust_anchors := trust_anchors db;
  sequence_numbers := sequence_numbers db; communities := x;
  target_signers := target_signers db; message_log := message_log db |}.
Definition set_signers db x := {| targets := targets db; trust_anchors := trust_anchors db;
  sequence_numbers := sequence_numbers db; communities := communities db;
  target_signers := x; message_log := message_log db |}.
Definition set_log db x := {| targets := targets db; trust_anchors := trust_anchors db;
  sequence_numbers := sequence_numbers db; communities := communities db;
  target_signers := target_signers db; message_log := x |}.

Definition UNIQUE_VIOLATION : string := "duplicate key value violates unique constraint".
Definition OUT_OF_RANGE : string := "bigint out of range".

(** ** Targets *)

Definition find_target_by_der (target_der : list u8) (db : TampDb) : option TampTargetRow :=
  head (filter (λ r, t_target_der r = target_der) (targets db)).

Definition get_target (i : Uuid) (db : TampDb) : option TampTargetRow :=
  head (filter (λ r, t_id r = i) (targets db)).

(** [fresh] is the [Uuid::new_v4()]. *)
Definition get_or_create_target (fresh : Uuid) (target_der : list u8) (label : string)
    (uses_apex : bool) (db : TampDb) : result Uuid string * TampDb :=
  match find_target_by_der target_der db with
  | Some existing => (Ok (t_id existing), db)
  | None =>
      match get_target fresh db with
      | Some _ => (Err UNIQUE_VIOLATION, db)
      | None => (Ok fresh, set_targets db (targets db ++
          [{| t_id := fresh; t_label := label; t_target_der := target_der;
              t_uses_apex := uses_apex |}]))
      end
  end.

(** ** Sequence numbers *)

Definition check_and_advance_seq (target_id : Uuid) (signer_key_id : list u8) (new_seq : Z)
    (db : TampDb) : result bool string * TampDb :=
  match sequence_numbers db !! (target_id, signer_key_id) with
  | Some stored =>
      if new_seq <=? stored then (Ok false, db)
      else (Ok true, set_seqs db (<[(target_id, signer_key_id) := new_seq]> (sequence_numbers db)))
  | None =>
      (Ok true, set_seqs db (<[(target_id, signer_key_id) := new_seq]> (sequence_numbers db)))
  end.

Definition get_seq (target_id : Uuid) (signer_key_id : list u8) (db : TampDb) : option Z :=
  sequence_numbers db !! (target_id, signer_key_id).

Definition reset_seq (target_id : Uuid) (signer_key_id : list u8) (value : Z) (db : TampDb)
    : TampDb :=
  set_seqs db (<[(target_id, signer_key_id) := value]> (sequence_numbers db)).

Definition allocate_next_seq (target_id : Uuid) (signer_key_id : list u8) (db : TampDb)
    : result Z string * TampDb :=
  let next := match sequence_numbers db !! (target_id, signer_key_id) with
              | Some last => last + 1
              | None => 1
              end in
  if i64_MAX <? next then (Err OUT_OF_RANGE, db)
  else (Ok next, set_seqs db (<[(target_id, signer_key_id) := next]> (sequence_numbers db))).

(** ** Trust anchors *)

Definition keyed_by (target_id : Uuid) (spki : list u8) (r : TampTrustAnchorRow) : bool :=
  bool_decide (a_target_id r = target_id ∧ a_pub_key_spki r = spki).
Definition apex_of (target_id : Uuid) (r : TampTrustAnchorRow) : bool :=
  bool_decide (a_target_id r = target_id) && a_is_apex r.
Definition keep (f : TampTrustAnchorRow → bool) (l : list TampTrustAnchorRow)
    : list TampTrustAnchorRow := filter (λ r, f r = true) l.

Definition trust_anchor_exists (target_id : Uuid) (spki : list u8) (db : TampDb) : bool :=
  existsb (keyed_by target_id spki) (trust_anchors db).

(** [INSERT]: unique are (target, key) and the apex of a target. *)
Definition insert_row (r : TampTrustAnchorRow) (rows : list TampTrustAnchorRow)
    : result (list TampTrustAnchorRow) string :=
  if existsb (keyed_by (a_target_id r) (a_pub_key_spki r)) rows ||
     (a_is_apex r && existsb (apex_of (a_target_id r)) rows)
  then Err UNIQUE_VIOLATION
  else Ok (rows ++ [r]).

Definition in_rows {A} (f : list TampTrustAnchorRow → result A string * list TampTrustAnchorRow)
    (db : TampDb) : result A string * TampDb :=
  let (o, rows) := f (trust_anchors db) in (o, set_anchors db rows).

Definition insert_trust_anchor (r : TampTrustAnchorRow) : TampDb → result unit string * TampDb :=
  in_rows (λ rows, match insert_row r rows with Ok rows => (Ok tt, rows) | Err e => (Err e, rows) end).

Definition with_identity (key_id : option (list u8)) (ta_title : option string) (ta_der : list u8)
    (r : TampTrustAnchorRow) : TampTrustAnchorRow :=
  {| a_target_id := a_target_id r; a_pub_key_spki := a_pub_key_spki r; a_key_id := key_id;
     a_ta_title := ta_title; a_is_apex := a_is_apex r; a_ta_der := ta_der |}.
Definition update_trust_anchor (target_id : Uuid) (spki : list u8) (key_id : option (list u8))
    (ta_title : option string) (ta_der : list u8) : TampDb → result bool string * TampDb :=
  in_rows (λ rows, (Ok (existsb (keyed_by target_id spki) rows),
    (λ r, if keyed_by target_id spki r then with_identity key_id ta_title ta_der r else r) <$> rows)).

Definition remove_trust_anchor (target_id : Uuid) (spki : list u8)
    : TampDb → result bool string * TampDb :=
  in_rows (λ rows, (Ok (existsb (keyed_by target_id spki) rows),
                    keep (λ r, negb (keyed_by target_id spki r)) rows)).

Definition apply_one_write (target_id : Uuid) (w : TrustAnchorWrite)
    (rows : list TampTrustAnchorRow) : result (list TampTrustAnchorRow) string :=
  match w with
  | WInsert spki key_id title is_apex ta_der =>
      insert_row {| a_target_id := target_id; a_pub_key_spki := spki; a_key_id := key_id;
                    a_ta_title := title; a_is_apex := is_apex; a_ta_der := ta_der |} rows
  | WRemove spki => Ok (keep (λ r, negb (keyed_by target_id spki r)) rows)
  | WUpdate spki ta_der =>
      Ok ((λ r, if keyed_by target_id spki r
                then with_identity (a_key_id r) (a_ta_title r) ta_der r else r) <$> rows)
  end.

Fixpoint apply_writes (target_id : Uuid) (ws : list TrustAnchorWrite)
    (rows : list TampTrustAnchorRow) : result (list TampTrustAnchorRow) string :=
  match ws with
  | [] => Ok rows
  | w :: ws => let? rows := apply_one_write target_id w rows in apply_writes target_id ws rows
  end.

Definition apply_trust_anchor_writes (target_id : Uuid) (ws : list TrustAnchorWrite)
    : TampDb → result unit string * TampDb :=
  in_rows (λ rows, match apply_writes target_id ws rows with
                   | Ok rows => (Ok tt, rows)
                   | Err e => (Err e, rows)
                   end).

Definition clear_anchor_rows (target_id : Uuid) (rows : list TampTrustAnchorRow)
    : list TampTrustAnchorRow :=
  keep (λ r, negb (bool_decide (a_target_id r = target_id) && negb (a_is_apex r))) rows.
Definition clear_trust_anchors (target_id : Uuid) (db : TampDb) : TampDb :=
  set_anchors db (clear_anchor_rows target_id (trust_anchors db)).

Definition list_trust_anchors (target_id : Uuid) (db : TampDb) : list TampTrustAnchorRow :=
  keep (λ r, bool_decide (a_target_id r = target_id)) (trust_anchors db).

(** ** Communities *)

Definition of_target (target_id : Uuid) (cs : gset (Uuid * string)) : gset (Uuid * string) :=
  filter (λ p, p.1 = target_id) cs.
Definition apply_community_update (target_id : Uuid) (remove add : list string) (db : TampDb)
    : TampDb :=
  set_communities db ((communities db ∖ list_to_set (pair target_id <$> remove)) ∪
                      list_to_set (pair target_id <$> add)).
Definition add_community (target_id : Uuid) (oid : string) (db : TampDb) : bool * TampDb :=
  (negb (bool_decide ((target_id, oid) ∈ communities db)),
   set_communities db (communities db ∪ {[(target_id, oid)]})).
Definition remove_community (target_id : Uuid) (oid : string) (db : TampDb) : bool * TampDb :=
  (bool_decide ((target_id, oid) ∈ communities db),
   set_communities db (communities db ∖ {[(target_id, oid)]})).
Definition clear_communities (target_id : Uuid) (db : TampDb) : TampDb :=
  set_communities db (communities db ∖ of_target target_id (communities db)).

(** ** The apex *)

Definition apply_apex_update (target_id : Uuid) (clear_tas clear_comms : bool)
    (spki : list u8) (key_id : option (list u8)) (title : option string) (ta_der : list u8)
    (db : TampDb) : result unit string * TampDb :=
  let rows := if clear_tas then clear_anchor_rows target_id (trust_anchors db)
              else trust_anchors db in
  let db1 := if clear_comms then clear_communities target_id db else db in
  let rows := keep (λ r, negb (keyed_by target_id spki r)) rows in
  match apply_one_write target_id (WInsert spki key_id title true ta_der) rows with
  | Ok rows => (Ok tt, set_anchors db1 rows)
  | Err e => (Err e, db)
  end.

(** ** Signers of a target's responses, and the message log *)

Definition register_target_signer (target_id : Uuid) (signer_key_id spki : list u8)
    (description : option string) (db : TampDb) : TampDb :=
  set_signers db (<[(target_id, signer_key_id) := (spki, description)]> (target_signers db)).
Definition find_target_signer_spki (target_id : Uuid) (signer_key_id : list u8) (db : TampDb)
    : option (list u8) := fst <$> target_signers db !! (target_id, signer_key_id).
Definition log_message (r : TampMessageLogRow) (db : TampDb) : TampDb :=
  set_log db (message_log db ++ [r]).

(** ** Runs of calls

    Concurrent operations of the manager are, at the store, a sequence of
    these calls. *)
Inductive repo_call :=
| CGetOrCreate (fresh : Uuid) (target_der : list u8) (label : string) (uses_apex : bool)
| CCheckAndAdvance (target_id : Uuid) (ski : list u8) (new_seq : Z)
| CReset (target_id : Uuid) (ski : list u8) (value : Z)
| CAllocate (target_id : Uuid) (ski : list u8)
| CInsertAnchor (r : TampTrustAnchorRow)
| CUpdateAnchor (target_id : Uuid) (spki : list u8) (key_id : option (list u8))
    (title : option string) (ta_der : list u8)
| CRemoveAnchor (target_id : Uuid) (spki : list u8)
| CApplyWrites (target_id : Uuid) (ws : list TrustAnchorWrite)
| CClearAnchors (target_id : Uuid)
| CApplyCommunity (target_id : Uuid) (remove add : list string)
| CAddCommunity (target_id : Uuid) (oid : string)
| CRemoveCommunity (target_id : Uuid) (oid : string)
| CClearCommunities (target_id : Uuid)
| CApplyApex (target_id : Uuid) (clear_tas clear_comms : bool) (spki : list u8)
    (key_id : option (list u8)) (title : option string) (ta_der : list u8)
| CRegisterSigner (target_id : Uuid) (ski spki : list u8) (description : option string)
| CLog (r : TampMessageLogRow).

Definition repo_step (c : repo_call) (db : TampDb) : TampDb :=
  match c with
  | CGetOrCreate f d l u => (get_or_create_target f d l u db).2
  | CCheckAndAdvance t k n => (check_and_advance_seq t k n db).2
  | CReset t k v => reset_seq t k v db
  | CAllocate t k => (allocate_next_seq t k db).2
  | CInsertAnchor r => (insert_trust_anchor r db).2
  | CUpdateAnchor t k i n d => (update_trust_anchor t k i n d db).2
  | CRemoveAnchor t k => (remove_trust_anchor t k db).2
  | CApplyWrites t ws => (apply_trust_anchor_writes t ws db).2
  | CClearAnchors t => clear_trust_anchors t db
  | CApplyCommunity t r a => apply_community_update t r a db
  | CAddCommunity t o => (add_community t o db).2
  | CRemoveCommunity t o => (remove_community t o db).2
  | CClearCommunities t => clear_communities t db
  | CApplyApex t ct cc k i n d => (apply_apex_update t ct cc k i n d db).2
  | CRegisterSigner t k s d => register_target_signer t k s d db
  | CLog r => log_message r db
  end.

(** The sequence number a call takes for a signer of a target: handed out for
    an outbound message, or accepted of an inbound one. *)
Definition taken (key : Uuid * list u8) (c : repo_call) (db : TampDb) : option Z :=
  match c with
  | CAllocate t k =>
      if decide ((t, k) = key) then
        match (allocate_next_seq t k db).1 with Ok n => Some n | Err _ => None end
      else None
  | CCheckAndAdvance t k n =>
      if decide ((t, k) = key) then
        match (check_and_advance_seq t k n db).1 with Ok true => Some n | _ => None end
      else None
  | _ => None
  end.

Fixpoint all_taken (key : Uuid * list u8) (cs : list repo_call) (db : TampDb) : list Z :=
  match cs with
  | [] => []
  | c :: cs => option_list (taken key c db) ++ all_taken key cs (repo_step c db)
  end.

Definition resets (key : Uuid * list u8) (c : repo_call) : Prop :=
  match c with CReset t k _ => (t, k) = key | _ => False end.

(** ** The tables' constraints *)

Definition anchor_key (r : TampTrustAnchorRow) : Uuid * list u8 :=
  (a_target_id r, a_pub_key_spki r).


(** ** Lemmas *)

Lemma keyed_by_true t k r : keyed_by t k r = true ↔ anchor_key r = (t, k).
Proof. unfold keyed_by, anchor_key. rewrite bool_decide_eq_true. naive_solver. Qed.











(** The baseline of a signer only rises, by the numbers it takes. *)
Lemma taken_baseline key c db :
  ¬ resets key c →
  match taken key c db with
  | Some n => sequence_numbers (repo_step c db) !! key = Some n ∧
              (∀ b, sequence_numbers db !! key = Some b → b < n)
  | None => sequence_numbers (repo_step c db) !! key = sequence_numbers db !! key
  end.
Proof.
  intros Hr. destruct c as [f d l u|t k n|t k v|t k|r|t k i n d|t k|t ws|t|t rm ad|t o|t o|t
    |t ct cc k i n d|t k sp d|r]; simpl in *; try done.
  - unfold get_or_create_target. destruct (find_target_by_der d db); [done|].
    by destruct (get_target f db).
  - unfold check_and_advance_seq. destruct (decide ((t, k) = key)) as [<-|Hk].
    + destruct (_ !! _) as [b|] eqn:Hb.
      * destruct (Z.leb_spec n b); simpl; [by rewrite Hb|]. rewrite lookup_insert_eq.
        split; [done|]. intros b' [= <-]. done.
      * simpl. by rewrite lookup_insert_eq.
    + destruct (sequence_numbers db !! (t, k)); [destruct (_ <=? _)|]; simpl;
        [done|by rewrite lookup_insert_ne..].
  - by rewrite lookup_insert_ne.
  - unfold allocate_next_seq. set (next := match sequence_numbers db !! (t, k) with Some last => last + 1 | None => 1 end).
    destruct (decide ((t, k) = key)) as [<-|Hk]; destruct (i64_MAX <? next); simpl; [done| |done|].
    + rewrite lookup_insert_eq. split; [done|]. intros b Hb. unfold next. rewrite Hb. lia.
    + by rewrite lookup_insert_ne.
  - unfold insert_trust_anchor, in_rows. by destruct (insert_row _ _).
  - unfold apply_trust_anchor_writes, in_rows. by destruct (apply_writes _ _ _).
  - unfold apply_apex_update. destruct (apply_one_write _ _ _); [|done]. by destruct cc.
Qed.

(** A target once known keeps its row. *)
Lemma find_target_stable c d db row :
  find_target_by_der d db = Some row → find_target_by_der d (repo_step c db) = Some row.
Proof.
  intros Hf. destruct c; simpl; try done.
  - unfold get_or_create_target. destruct (find_target_by_der target_der db); [exact Hf|].
    destruct (get_target fresh db); [exact Hf|]. unfold find_target_by_der in *. simpl.
    rewrite filter_app. by destruct (filter (λ r, t_target_der r = d) (targets db)).
  - unfold check_and_advance_seq. by destruct (_ !! _); [destruct (_ <=? _)|].
  - unfold allocate_next_seq. by destruct (i64_MAX <? _).
  - unfold insert_trust_anchor, in_rows. by destruct (insert_row _ _).
  - unfold apply_trust_anchor_writes, in_rows. by destruct (apply_writes _ _ _).
  - unfold apply_apex_update. destruct (apply_one_write _ _ _); [|done]. by destruct clear_comms.
Qed.

Lemma find_target_stable_run cs d db row :
  find_target_by_der d db = Some row →
  find_target_by_der d (foldl (λ db c, repo_step c db) db cs) = Some row.
Proof.
  revert db. induction cs as [|c cs IH]; intros db Hf; [done|]. by apply IH, find_target_stable.
Qed.

Lemma baseline_rises cs key db b :
  Forall (λ c, ¬ resets key c) cs → sequence_numbers db !! key = Some b →
  ∃ b', sequence_numbers (foldl (λ db c, repo_step c db) db cs) !! key = Some b' ∧ b ≤ b'.
Proof.
  intros Hr. revert db b. induction Hr as [|c cs Hc _ IH]; intros db b Hb; [by exists b|].
  pose proof (taken_baseline key c db Hc) as Ht. simpl. destruct (taken key c db) as [n|].
  - destruct Ht as [Hn Hlt]. destruct (IH _ _ Hn) as (b' & Hb' & Hle). exists b'. split; [done|].
    specialize (Hlt b Hb). lia.
  - rewrite Hb in Ht. by apply IH.
Qed.

(** An apex with another key stands in the way of a new one. *)
Lemma apply_apex_refused tid ct cc spki key_id title ta_der db r :
  r ∈ trust_anchors db → a_target_id r = tid → a_is_apex r = true → a_pub_key_spki r ≠ spki →
  apply_apex_update tid ct cc spki key_id title ta_der db = (Err UNIQUE_VIOLATION, db).
Proof.
  intros Hr Ht Ha Hk. unfold apply_apex_update.
  set (rows := keep (λ r, negb (keyed_by tid spki r)) _).
  assert (r ∈ rows) as Hin.
  { apply list_elem_of_filter. split.
    - apply negb_true_iff, not_true_iff_false. intros [= _ Hs]%keyed_by_true. by rewrite Hs in Hk.
    - destruct ct; [|done]. apply list_elem_of_filter. split; [|done]. by rewrite Ha, andb_false_r. }
  simpl. unfold insert_row. cbn [a_is_apex a_target_id].
  assert (existsb (apex_of tid) rows = true) as ->.
  { apply existsb_elem_of. exists r. split; [done|]. unfold apex_of.
    by rewrite bool_decide_eq_true_2, Ha. }
  by rewrite orb_true_r.
Qed.

(** ** Properties *)

(** C23. Sequence numbers never repeat.  Whatever calls are made in whatever order,
    so long as nothing resets the baseline of a signer of a target (nothing
    in the manager does), the numbers handed out for its messages and
    accepted from it, in order, are strictly increasing, and all above the
    baseline there was. *)
Theorem sequence_numbers_increase key cs db :
  Forall (λ c, ¬ resets key c) cs →
  StronglySorted Z.lt (option_list (sequence_numbers db !! key) ++ all_taken key cs db).
Proof.
  intros Hr. revert db. induction Hr as [|c cs Hc Hr IH]; intros db; simpl.
  - destruct (_ !! _); simpl; repeat constructor.
  - specialize (IH (repo_step c db)). pose proof (taken_baseline key c db Hc) as Ht.
    destruct (taken key c db) as [n|].
    + destruct Ht as [Hn Hb]. rewrite Hn in IH. simpl in IH.
      destruct (sequence_numbers db !! key) as [b|]; simpl; [|done].
      constructor; [done|]. constructor; [by apply Hb|].
      apply StronglySorted_inv in IH as [_ IH]. eapply Forall_impl; [exact IH|].
      intros x Hx. specialize (Hb b eq_refl). simpl in Hx. lia.
    + by rewrite Ht in IH.
Qed.

(** ** The anchors as maps

    What the calls promise of the trust anchors, said of maps from a target
    and a public key to a row, without the order of rows and without the scans
    and deletes of the statements. *)
Abbreviation Anchors := (gmap (Uuid * list u8) TampTrustAnchorRow).

Definition has_apex (t : Uuid) (m : Anchors) : Prop := map_Exists (λ k r, k.1 = t ∧ a_is_apex r = true) m.
#[export] Instance has_apex_dec t m : Decision (has_apex t m).
Proof. unfold has_apex. apply _. Defined.




Section view.
Implicit Types rows : list TampTrustAnchorRow.










End view.



