(* ===== verification/TampManager.v ===== *)
(** * The TAMP manager

    [crates/ostrich-tamp/src/manager.rs] over the store of TampStore.v and
    the envelopes of TampCms.v.  Each call of the repository may fail, before
    or after it took effect, as the environment of the run says; an audit
    event counts as recorded when it is handed to the sink, whose failures
    the manager ignores. *)
From stdpp Require Import base gmap strings list sets.
From S2P Require Import Prelude Der OcspRequest Signing Algorithm TampTypes TampCms.
From S2P Require Import TampStore Pickle.
#[local] Open Scope Z_scope.

Inductive Details :=
| DOutbound (content_type : string) (seq_num : Z) (signer_ski : list u8)
| DInbound (content_type : string) (seq_num : option Z) (status : list string)
    (signer_ski : list u8)
| DReplay (seq_num : Z) (signer_ski : list u8)
| DSigner (signer_ski : list u8).
Record TampEvent := {
  ev_action : string;
  ev_target : string;
  ev_success : bool;
  ev_details : Details
}.

Record TampWorld := { db : TampDb; events : list TampEvent }.

(** The calls of the repository in one operation. *)
Inductive DbPoint :=
| PTarget | PSeq | PExists (i : nat) | PWrites | PCommunity | PApex | PLog | PRegister
| PFindSigner | PList.
(** [fault] is the error a call answers with, and whether it took effect all
    the same. *)
Record TampEnv := { fresh_target : Uuid; fault : DbPoint → option (string * bool) }.

Abbreviation M A := (Exec TampWorld A Error).

Definition db_call {A} (env : TampEnv) (p : DbPoint) (f : TampDb → result A string * TampDb) : M A :=
  λ w, let (r, d) := f (db w) in
       match fault env p with
       | Some (e, took_effect) =>
           (Fail (Storage e), if took_effect then {| db := d; events := events w |} else w)
       | None =>
           (match r with Ok x => Ret x | Err e => Fail (Storage e) end,
            {| db := d; events := events w |})
       end.
(** A read, and a write that answers nothing. *)
Definition reading {A} (f : TampDb → A) : TampDb → result A string * TampDb := λ d, (Ok (f d), d).
Definition writing (f : TampDb → TampDb) : TampDb → result unit string * TampDb :=
  λ d, (Ok tt, f d).

Definition audit (action label : string) (success : bool) (details : Details) : M unit :=
  exec_modify (λ w, {| db := db w; events := events w ++
    [{| ev_action := action; ev_target := label; ev_success := success; ev_details := details |}] |}).

(** [as i64] of a [u64]. *)
Definition as_i64 (z : Z) : Z := if wrap 64 z <? 2 ^ 63 then wrap 64 z else wrap 64 z - 2 ^ 64.

Definition seq_to_i64 (seq : Z) : result Z Error :=
  if i64_MAX <? seq then Err (SeqNumFailure "sequence number exceeds the RFC 5934 maximum (2^63-1)")
  else Ok seq.

Section manager.
Context `{!X509Types, !TampCodec, !CmsLib, !VerifyLib} (debug_algorithm : Algorithm → string)
  (debug_length : nat → string) (text : CryptoErr → string) (crypto_text : CryptoError → string)
  (base64 hex : list u8 → string).

Record SignerContext := {
  sc_sign : Algorithm → list u8 → result (list u8) string;
  sc_ski : list u8;
  sc_algorithm : Algorithm
}.

Record IssuedMessage := {
  im_content_type : string;
  im_message_name : string;
  im_seq_num : Z;
  im_envelope : list u8
}.

Inductive TrustAnchorEdit :=
| EditAdd (ta : TrustAnchorChoice)
| EditRemove (spki : list u8)
| EditChange (spki : list u8) (change : TrustAnchorChangeInfoChoice).

Record TrustAnchorSummary := {
  ts_pub_key_spki_b64 : string;
  ts_key_id_hex : option string;
  ts_title : option string;
  ts_is_apex : bool
}.

Record IngestOutcome := {
  io_content_type : string;
  io_message_name : string;
  io_seq_num : option Z;
  io_status_codes : list StatusCode;
  io_signer_ski : list u8
}.

Definition ta_identity (ta : TrustAnchorChoice)
    : result (list u8 * option (list u8) * option string) Error :=
  let? spki := asn1 (match ta with
                     | TaCertificate cert => spki_to_der (cert_spki cert)
                     | TaTbsCert tbs => spki_to_der (tbs_spki tbs)
                     | TaInfo info => spki_to_der (tai_pub_key info)
                     end) in
  Ok (match ta with
      | TaInfo info => (spki, Some (tai_key_id info), tai_ta_title info)
      | _ => (spki, None, None)
      end).

Definition lift {A} (r : result A Error) : M A := exec_pure (res_outcome r).

(** [target.to_der()?] and [get_or_create_target]. *)
Definition target_id_of (env : TampEnv) (target : TargetIdentifier) (label : string) : M Uuid :=
  let* target_der := lift (asn1 (target_to_der target)) in
  db_call env PTarget (get_or_create_target (fresh_target env) target_der label true).

Definition next_seq (env : TampEnv) (target_id : Uuid) (our_ski : list u8) : M Z :=
  let* next := db_call env PSeq (allocate_next_seq target_id our_ski) in
  exec_ret (wrap 64 next).

Definition sign_outbound (signer : SignerContext) (content_type : string) (content_der : list u8)
    : M (list u8) :=
  lift (sign_message debug_algorithm debug_length text (sc_sign signer) (sc_ski signer)
          content_type content_der (sc_algorithm signer)).

(** The failure of the log is only traced. *)
Definition try_call (env : TampEnv) (p : DbPoint) (f : TampDb → TampDb) : M unit :=
  λ w, (Ret tt, (db_call env p (writing f) w).2).

Definition finalize (env : TampEnv) (target_id : Uuid) (label : string) (signer_ski : list u8)
    (content_type message_name : string) (seq : Z) (envelope : list u8) : M IssuedMessage :=
  let* _ := try_call env PLog (log_message
    {| l_target_id := Some target_id; l_direction := "outbound"; l_content_type := content_type;
       l_message_name := message_name; l_seq_number := Some (as_i64 seq);
       l_signer_key_id := Some signer_ski; l_status_code := None; l_message_der := envelope |}) in
  let* _ := audit message_name label true (DOutbound content_type seq signer_ski) in
  exec_ret {| im_content_type := content_type; im_message_name := message_name;
              im_seq_num := seq; im_envelope := envelope |}.

(** *** Outbound messages *)

Definition issue_status_query (env : TampEnv) (tgt : TargetIdentifier) (label : string)
    (signer : SignerContext) (terse : bool) : M IssuedMessage :=
  let* target_id := target_id_of env tgt label in
  let* seq := next_seq env target_id (sc_ski signer) in
  let msg := {| sq_version := 2; sq_terse := if terse then Terse else Verbose;
                sq_query := {| target := tgt; seq_num := seq |} |} in
  let* der := lift (asn1 (status_query_to_der msg)) in
  let* envelope := sign_outbound signer ID_CT_TAMP_STATUS_QUERY der in
  finalize env target_id label (sc_ski signer) ID_CT_TAMP_STATUS_QUERY "TAMPStatusQuery" seq
    envelope.

(** Phase 1 of [issue_trust_anchor_update], of the [i]-th edit and of all. *)
Definition prepare_one (env : TampEnv) (target_id : Uuid) (i : nat) (edit : TrustAnchorEdit)
    : M (TrustAnchorUpdate * TrustAnchorWrite) :=
  match edit with
  | EditAdd ta =>
      let* identity := lift (ta_identity ta) in
      let* present := db_call env (PExists i)
                        (reading (trust_anchor_exists target_id identity.1.1)) in
      if present : bool then
        exec_fail (ETrustAnchorUpdate "trust anchor with this public key already present (improperTAAddition)")
      else
        let* ta_der := lift (asn1 (ta_to_der ta)) in
        exec_ret (UpdateAdd ta,
                  WInsert identity.1.1 identity.1.2 identity.2 false ta_der)
  | EditRemove spki =>
      let* spki_info := lift (asn1 (spki_from_der spki)) in
      exec_ret (UpdateRemove spki_info, WRemove spki)
  | EditChange spki change =>
      let* present := db_call env (PExists i)
                        (reading (trust_anchor_exists target_id spki)) in
      if present : bool then
        let* ta_der := lift (asn1 (change_to_der change)) in
        exec_ret (UpdateChange change, WUpdate spki ta_der)
      else
        exec_fail (ETrustAnchorUpdate "trust anchor to change was not found (trustAnchorNotFound)")
  end.

Fixpoint prepare (env : TampEnv) (target_id : Uuid) (i : nat) (edits : list TrustAnchorEdit)
    : M (list TrustAnchorUpdate * list TrustAnchorWrite) :=
  match edits with
  | [] => exec_ret ([], [])
  | edit :: edits =>
      let* one := prepare_one env target_id i edit in
      let* more := prepare env target_id (S i) edits in
      exec_ret (one.1 :: more.1, one.2 :: more.2)
  end.

Definition issue_trust_anchor_update (env : TampEnv) (tgt : TargetIdentifier) (label : string)
    (signer : SignerContext) (edits : list TrustAnchorEdit) : M IssuedMessage :=
  match edits with
  | [] => exec_fail (ETrustAnchorUpdate "TAMPUpdate requires at least one trust anchor update")
  | _ =>
      let* target_id := target_id_of env tgt label in
      let* prepared := prepare env target_id 0 edits in
      let* seq := next_seq env target_id (sc_ski signer) in
      let msg := {| tu_version := 2; tu_terse := Verbose;
                    tu_msg_ref := {| target := tgt; seq_num := seq |};
                    tu_updates := prepared.1; tu_tamp_seq_numbers := None |} in
      let* der := lift (asn1 (update_to_der msg)) in
      let* envelope := sign_outbound signer ID_CT_TAMP_UPDATE der in
      let* _ := db_call env PWrites (apply_trust_anchor_writes target_id prepared.2) in
      finalize env target_id label (sc_ski signer) ID_CT_TAMP_UPDATE "TAMPUpdate" seq envelope
  end.

Definition list_or_none {A} (l : list A) : option (list A) :=
  match l with [] => None | _ => Some l end.

Definition issue_community_update (env : TampEnv) (tgt : TargetIdentifier) (label : string)
    (signer : SignerContext) (add remove : list string) : M IssuedMessage :=
  match add, remove with
  | [], [] => exec_fail (Other "community update requires at least one add or remove")
  | _, _ =>
      let* target_id := target_id_of env tgt label in
      let* seq := next_seq env target_id (sc_ski signer) in
      let msg := {| tcu_version := 2; tcu_terse := Verbose;
                    tcu_msg_ref := {| target := tgt; seq_num := seq |};
                    tcu_updates := {| cu_remove := list_or_none remove;
                                      cu_add := list_or_none add |} |} in
      let* der := lift (asn1 (community_update_to_der msg)) in
      let* envelope := sign_outbound signer ID_CT_TAMP_COMMUNITY_UPDATE der in
      let* _ := db_call env PCommunity (writing (apply_community_update target_id remove add)) in
      finalize env target_id label (sc_ski signer) ID_CT_TAMP_COMMUNITY_UPDATE
        "TAMPCommunityUpdate" seq envelope
  end.

Definition issue_sequence_number_adjust (env : TampEnv) (tgt : TargetIdentifier) (label : string)
    (signer : SignerContext) : M IssuedMessage :=
  let* target_id := target_id_of env tgt label in
  let* seq := next_seq env target_id (sc_ski signer) in
  let msg := {| sa_version := 2; sa_msg_ref := {| target := tgt; seq_num := seq |} |} in
  let* der := lift (asn1 (seq_adjust_to_der msg)) in
  let* envelope := sign_outbound signer ID_CT_TAMP_SEQ_NUM_ADJUST der in
  finalize env target_id label (sc_ski signer) ID_CT_TAMP_SEQ_NUM_ADJUST "SequenceNumberAdjust"
    seq envelope.

Definition issue_apex_update (env : TampEnv) (tgt : TargetIdentifier) (label : string)
    (signer : SignerContext) (apex_ta : TrustAnchorChoice)
    (clear_trust_anchors clear_communities : bool) (contingency_decrypt_key : option (list u8))
    : M IssuedMessage :=
  let* target_id := target_id_of env tgt label in
  let* identity := lift (ta_identity apex_ta) in
  let* apex_der := lift (asn1 (ta_to_der apex_ta)) in
  let* seq := next_seq env target_id (sc_ski signer) in
  let msg := {| au_version := 2; au_terse := Verbose;
                au_msg_ref := {| target := tgt; seq_num := seq |};
                au_clear_trust_anchors := clear_trust_anchors;
                au_clear_communities := clear_communities;
                au_seq_number := Some seq; au_apex_ta := apex_ta |} in
  let* apex_der_msg := lift (asn1 (apex_update_to_der msg)) in
  let* envelope :=
    match contingency_decrypt_key with
    | Some key =>
        let* value := lift (cms_err "contingency key attr: " (octets_any key)) in
        lift (sign_message_with_unsigned_attrs debug_algorithm debug_length text
                (sc_sign signer) (sc_ski signer) ID_CT_TAMP_APEX_UPDATE apex_der_msg
                (sc_algorithm signer) [(ID_AA_TAMP_CONTINGENCY_PUBLIC_KEY_DECRYPT_KEY, value)])
    | None => sign_outbound signer ID_CT_TAMP_APEX_UPDATE apex_der_msg
    end in
  let* _ := db_call env PApex (apply_apex_update target_id clear_trust_anchors clear_communities
                                 identity.1.1 identity.1.2 identity.2 apex_der) in
  finalize env target_id label (sc_ski signer) ID_CT_TAMP_APEX_UPDATE "TAMPApexUpdate" seq envelope.

(** *** The store and inbound messages *)

Definition summary (r : TampTrustAnchorRow) : TrustAnchorSummary :=
  {| ts_pub_key_spki_b64 := base64 (a_pub_key_spki r); ts_key_id_hex := hex <$> a_key_id r;
     ts_title := a_ta_title r; ts_is_apex := a_is_apex r |}.
Definition list_trust_anchors (env : TampEnv) (tgt : TargetIdentifier) (label : string)
    : M (list TrustAnchorSummary) :=
  let* target_id := target_id_of env tgt label in
  let* rows := db_call env PList (reading (TampStore.list_trust_anchors target_id)) in
  exec_ret (summary <$> rows).

Definition register_signer (env : TampEnv) (tgt : TargetIdentifier) (label : string)
    (signer_ski signer_spki : list u8) (description : option string) : M unit :=
  let* target_id := target_id_of env tgt label in
  let* _ := db_call env PRegister
              (writing (register_target_signer target_id signer_ski signer_spki description)) in
  audit "RegisterTargetSigner" label true (DSigner signer_ski).

(** The replay check of [ingest]; the error is [SeqNumFailure]. *)
Definition check_replay (env : TampEnv) (target_id : Uuid) (label message_name : string)
    (ski : list u8) (seq_num : option Z) : M unit :=
  match seq_num with
  | None => exec_ret tt
  | Some seq =>
      let* seq_i64 := lift (seq_to_i64 seq) in
      let* fresh := db_call env PSeq (check_and_advance_seq target_id ski seq_i64) in
      if fresh : bool then exec_ret tt
      else
        let* _ := audit message_name label false (DReplay seq ski) in
        exec_fail (SeqNumFailure "inbound sequence number is not greater than stored baseline")
  end.

Definition ingest (env : TampEnv) (tgt : TargetIdentifier) (label : string)
    (content_info_der : list u8) : M IngestOutcome :=
  let* parsed := lift (parse content_info_der) in
  let* target_id := target_id_of env tgt label in
  let* found := db_call env PFindSigner
                  (reading (find_target_signer_spki target_id (p_signer_ski parsed))) in
  let* signer_spki := lift (ok_or found NoTrustAnchor) in
  let* _ := lift (verify crypto_text parsed signer_spki) in
  let* decoded := lift (decode_inbound (p_content_type parsed) (p_content parsed)) in
  let message_name := decoded.1.1 in
  let seq := decoded.1.2 in
  let codes := decoded.2 in
  let* _ := check_replay env target_id label message_name (p_signer_ski parsed) seq in
  let* _ := db_call env PLog (writing (log_message
    {| l_target_id := Some target_id; l_direction := "inbound";
       l_content_type := p_content_type parsed; l_message_name := message_name;
       l_seq_number := as_i64 <$> seq; l_signer_key_id := Some (p_signer_ski parsed);
       l_status_code := status_as_str <$> head codes; l_message_der := content_info_der |})) in
  let* _ := audit message_name label (forallb is_success codes)
              (DInbound (p_content_type parsed) seq (status_as_str <$> codes)
                 (p_signer_ski parsed)) in
  exec_ret {| io_content_type := p_content_type parsed; io_message_name := message_name;
              io_seq_num := seq; io_status_codes := codes; io_signer_ski := p_signer_ski parsed |}.

(** *** Outbound requests, together *)

Inductive Request :=
| RStatusQuery (terse : bool)
| RUpdate (edits : list TrustAnchorEdit)
| RCommunity (add remove : list string)
| RSeqAdjust
| RApex (apex_ta : TrustAnchorChoice) (clear_tas clear_comms : bool) (key : option (list u8)).

Definition issue (env : TampEnv) (tgt : TargetIdentifier) (label : string)
    (signer : SignerContext) (r : Request) : M IssuedMessage :=
  match r with
  | RStatusQuery terse => issue_status_query env tgt label signer terse
  | RUpdate edits => issue_trust_anchor_update env tgt label signer edits
  | RCommunity add remove => issue_community_update env tgt label signer add remove
  | RSeqAdjust => issue_sequence_number_adjust env tgt label signer
  | RApex ta ct cc key => issue_apex_update env tgt label signer ta ct cc key
  end.

(** The message a request is for. *)
Fixpoint edit_updates (edits : list TrustAnchorEdit) : result (list TrustAnchorUpdate) string :=
  match edits with
  | [] => Ok []
  | e :: edits =>
      let? u := match e with
                | EditAdd ta => Ok (UpdateAdd ta)
                | EditRemove spki => let? s := spki_from_der spki in Ok (UpdateRemove s)
                | EditChange _ change => Ok (UpdateChange change)
                end in
      let? us := edit_updates edits in Ok (u :: us)
  end.

Definition request_message (r : Request) (tgt : TargetIdentifier) (seq : Z)
    : result (list u8) string :=
  let ref := {| target := tgt; seq_num := seq |} in
  match r with
  | RStatusQuery terse =>
      status_query_to_der {| sq_version := 2; sq_terse := if terse then Terse else Verbose;
                             sq_query := ref |}
  | RUpdate edits =>
      let? us := edit_updates edits in
      update_to_der {| tu_version := 2; tu_terse := Verbose; tu_msg_ref := ref;
                       tu_updates := us; tu_tamp_seq_numbers := None |}
  | RCommunity add remove =>
      community_update_to_der {| tcu_version := 2; tcu_terse := Verbose; tcu_msg_ref := ref;
        tcu_updates := {| cu_remove := list_or_none remove; cu_add := list_or_none add |} |}
  | RSeqAdjust => seq_adjust_to_der {| sa_version := 2; sa_msg_ref := ref |}
  | RApex ta ct cc _ =>
      apex_update_to_der {| au_version := 2; au_terse := Verbose; au_msg_ref := ref;
        au_clear_trust_anchors := ct; au_clear_communities := cc;
        au_seq_number := Some seq; au_apex_ta := ta |}
  end.

Definition request_type (r : Request) : string :=
  match r with
  | RStatusQuery _ => ID_CT_TAMP_STATUS_QUERY
  | RUpdate _ => ID_CT_TAMP_UPDATE
  | RCommunity _ _ => ID_CT_TAMP_COMMUNITY_UPDATE
  | RSeqAdjust => ID_CT_TAMP_SEQ_NUM_ADJUST
  | RApex _ _ _ _ => ID_CT_TAMP_APEX_UPDATE
  end.

(** What the manager keeps of targets but for who they are and the sequence
    numbers. *)
Definition same_store (w w' : TampWorld) : Prop :=
  trust_anchors (db w') = trust_anchors (db w) ∧ communities (db w') = communities (db w) ∧
  target_signers (db w') = target_signers (db w) ∧ message_log (db w') = message_log (db w) ∧
  events w' = events w.

(** The write of a request, and where it is made. *)
Definition request_write (r : Request) (p : DbPoint) (f : TampDb → result unit string * TampDb)
    : Prop :=
  match r with
  | RUpdate _ => p = PWrites ∧ ∃ tid ws, f = apply_trust_anchor_writes tid ws
  | RCommunity add remove =>
      p = PCommunity ∧ ∃ tid, f = writing (apply_community_update tid remove add)
  | RApex _ ct cc _ =>
      p = PApex ∧ ∃ tid spki key_id title der, f = apply_apex_update tid ct cc spki key_id title der
  | RStatusQuery _ | RSeqAdjust => False
  end.

(** The answer of the request's write was lost: the server made it, and the
    manager was told that it failed. *)
Definition write_unanswered (env : TampEnv) (r : Request) (o : outcome IssuedMessage Error)
    (w w' : TampWorld) : Prop :=
  ∃ p f msg w0, fault env p = Some (msg, true) ∧ request_write r p f ∧ o = Fail (Storage msg) ∧
    same_store w w0 ∧ w' = {| db := (f (db w0)).2; events := events w0 |}.

(** No call takes effect and then reports an error. *)
Definition faults_are_faults (env : TampEnv) : Prop := ∀ p e, fault env p ≠ Some (e, true).

(** ** Lemmas *)

#[local] Instance same_store_preorder : PreOrder same_store.
Proof.
  split; [by intros w; repeat split|]. intros w1 w2 w3 Hq1 Hq2. unfold same_store in *.
  naive_solver congruence.
Qed.

Lemma lift_run {A} (r : result A Error) w o w' :
  lift r w = (o, w') → w' = w ∧ o = res_outcome r.
Proof. intros [= <- <-]. done. Qed.

Lemma lift_Ret {A} (r : result A Error) w x w' : lift r w = (Ret x, w') → r = Ok x ∧ w' = w.
Proof. intros [-> Hr]%lift_run. destruct r; by simplify_eq/=. Qed.

Lemma db_call_Ret {A} env p (f : TampDb → result A string * TampDb) w x w' :
  db_call env p f w = (Ret x, w') →
  ∃ d, f (db w) = (Ok x, d) ∧ w' = {| db := d; events := events w |}.
Proof.
  unfold db_call. destruct (f (db w)) as [r d]. destruct (fault env p) as [[e [|]]|]; [done..|].
  destruct r; intros ?; simplify_eq. by exists d.
Qed.

(** A call whose errors leave the store alone, when it fails: it did
    nothing, or its answer was lost. *)
Lemma db_call_not_Ret {A} env p (f : TampDb → result A string * TampDb) w o w' :
  (∀ d e d', f d = (Err e, d') → d' = d) →
  db_call env p f w = (o, w') → (∀ x, o ≠ Ret x) →
  w' = w ∨ ∃ msg, fault env p = Some (msg, true) ∧ o = Fail (Storage msg) ∧
    w' = {| db := (f (db w)).2; events := events w |}.
Proof.
  intros Hf. unfold db_call. destruct (f (db w)) as [r d] eqn:Hr.
  destruct (fault env p) as [[e [|]]|] eqn:Hp; [|by intros [= <- <-]; left|].
  { intros [= <- <-] _. right. by exists e. }
  destruct r as [x|e]; intros [= <- <-]; [by intros Hx; destruct (Hx x)|]. apply Hf in Hr as ->.
  left. by destruct w.
Qed.

(** Failing where [m] or what follows it fails. *)
Lemma bind_not_Ret {A B} (m : M A) (k : A → M B) w o w' :
  exec_bind m k w = (o, w') → (∀ x, o ≠ Ret x) →
  (∃ o1, m w = (o1, w') ∧ ∀ x, o1 ≠ Ret x) ∨ (∃ x w1, m w = (Ret x, w1) ∧ k x w1 = (o, w')).
Proof.
  unfold exec_bind. destruct (m w) as [[x|e|] w1]; intros Ho Hn; [right; by exists x, w1|..];
    left; injection Ho as <- <-; by eexists.
Qed.

Lemma target_id_store env tgt label w o w' :
  target_id_of env tgt label w = (o, w') → same_store w w'.
Proof.
  unfold target_id_of, exec_bind, lift, exec_pure.
  destruct (asn1 (target_to_der tgt)) as [d|]; simpl; [|by intros [= <- <-]].
  unfold db_call, get_or_create_target. destruct (find_target_by_der d (db w)).
  - destruct (fault env PTarget) as [[e []]|]; intros [= <- <-]; done.
  - destruct (get_target _ _); (destruct (fault env PTarget) as [[e []]|]; intros [= <- <-]; done).
Qed.

Lemma next_seq_store env tid ski w o w' : next_seq env tid ski w = (o, w') → same_store w w'.
Proof.
  unfold next_seq, exec_bind, db_call, allocate_next_seq.
  destruct (i64_MAX <? _); (destruct (fault env PSeq) as [[e []]|]; intros [= <- <-]; done).
Qed.

Lemma next_seq_Ret env tid ski w s w' :
  next_seq env tid ski w = (Ret s, w') →
  targets (db w') = targets (db w) ∧ events w' = events w ∧
  ∃ n, s = wrap 64 n ∧ sequence_numbers (db w') !! (tid, ski) = Some n ∧ n ≤ i64_MAX ∧
    ∀ b, sequence_numbers (db w) !! (tid, ski) = Some b → b < n.
Proof.
  unfold next_seq. intros (n & w1 & (d & Hd & ->)%db_call_Ret & Hr)%exec_bind_Ret.
  injection Hr as <- <-. pose proof (taken_baseline (tid, ski) (CAllocate tid ski) (db w)) as Ht.
  simpl in Ht. rewrite decide_True, Hd in Ht by done. destruct Ht as [Hn Hb]; [by intros []|].
  assert (n ≤ i64_MAX ∧ targets d = targets (db w)) as [Hle Htg].
  { unfold allocate_next_seq in Hd. destruct (i64_MAX <? _) eqn:Hle; [done|].
    apply Z.ltb_ge in Hle. by injection Hd as <- <-. }
  split; [done|]. split; [done|]. exists n. split; [done|]. split; [done|]. done.
Qed.

Lemma target_id_Ret env tgt label w tid w' :
  target_id_of env tgt label w = (Ret tid, w') →
  sequence_numbers (db w') = sequence_numbers (db w) ∧ events w' = events w ∧
  target_signers (db w') = target_signers (db w) ∧
  ∃ d, target_to_der tgt = Ok d ∧ t_id <$> find_target_by_der d (db w') = Some tid ∧
    ∀ i, t_id <$> find_target_by_der d (db w) = Some i → i = tid ∧ w' = w.
Proof.
  unfold target_id_of. intros (d & w1 & [Hd ->]%lift_Ret & Hc)%exec_bind_Ret.
  apply db_call_Ret in Hc as (d' & Hg & ->). unfold get_or_create_target in Hg.
  apply asn1_Ok in Hd as ->.
  destruct (find_target_by_der d (db w)) as [row|] eqn:Hf.
  - injection Hg as <- <-. split_and!; [done..|]. exists d. cbn [db]. rewrite Hf. split_and!; [done..|].
    intros i [= <-]. by destruct w.
  - destruct (get_target _ _); [done|]. injection Hg as <- <-. split_and!; [done..|]. exists d.
    split; [done|]. split; [|rewrite Hf; by intros i]. unfold find_target_by_der in *. cbn [db targets set_targets].
    rewrite filter_app. destruct (filter _ (targets (db w))); [|done].
    by rewrite filter_cons_True by done.
Qed.

Lemma finalize_run env tid label ski ct name seq envelope w o w' :
  finalize env tid label ski ct name seq envelope w = (o, w') →
  o = Ret {| im_content_type := ct; im_message_name := name; im_seq_num := seq;
             im_envelope := envelope |} ∧
  events w' = events w ++ [{| ev_action := name; ev_target := label; ev_success := true;
                              ev_details := DOutbound ct seq ski |}] ∧
  sequence_numbers (db w') = sequence_numbers (db w) ∧
  trust_anchors (db w') = trust_anchors (db w) ∧ communities (db w') = communities (db w) ∧
  targets (db w') = targets (db w).
Proof.
  unfold finalize, exec_bind, try_call, db_call, writing, audit, exec_modify, exec_ret.
  destruct (fault env PLog) as [[e []]|]; intros [= <- <-]; done.
Qed.

Lemma reading_store {A} env p (f : TampDb → A) w o w' :
  db_call env p (reading f) w = (o, w') → w' = w.
Proof.
  unfold db_call, reading. destruct (fault env p) as [[e []]|]; intros [= <- <-]; by destruct w.
Qed.

Lemma prepare_one_store env tid i e w o w' : prepare_one env tid i e w = (o, w') → w' = w.
Proof.
  destruct e as [ta|spki|spki ch]; cbn [prepare_one]; unfold exec_bind at 1.
  - destruct (lift (ta_identity ta) w) as [r1 w2] eqn:Hl. apply lift_run in Hl as [-> ->].
    destruct (ta_identity ta); simpl; [|by intros [= <- <-]]. unfold exec_bind at 1.
    destruct (db_call _ _ _ w) as [[b|e|] w2] eqn:Hd; apply reading_store in Hd as ->;
      [|by intros [= <- <-]..].
    destruct b; [by intros [= <- <-]|]. unfold exec_bind, lift, exec_pure.
    by destruct (asn1 (ta_to_der ta)); intros [= <- <-].
  - unfold lift, exec_pure. by destruct (asn1 _); intros [= <- <-].
  - destruct (db_call _ _ _ w) as [[b|e|] w2] eqn:Hd; apply reading_store in Hd as ->;
      [|by intros [= <- <-]..].
    destruct b; [|by intros [= <- <-]]. unfold exec_bind, lift, exec_pure.
    by destruct (asn1 (change_to_der ch)); intros [= <- <-].
Qed.

Lemma prepare_store env tid i edits w o w' : prepare env tid i edits w = (o, w') → w' = w.
Proof.
  revert i o w'. induction edits as [|e edits IH]; intros i o w'; cbn [prepare]; [by intros [= <- <-]|].
  unfold exec_bind at 1. destruct (prepare_one env tid i e w) as [r w1] eqn:Hone.
  apply prepare_one_store in Hone as ->. destruct r as [one|er|]; [|by intros [= <- <-]..].
  unfold exec_bind. destruct (prepare env tid (S i) edits w) as [[x|er|] w2] eqn:Hp;
    apply IH in Hp as ->; by intros [= <- <-].
Qed.

Lemma prepare_one_updates env tid i e w one w' :
  prepare_one env tid i e w = (Ret one, w') →
  match e with
  | EditAdd ta => one.1 = UpdateAdd ta
  | EditRemove spki => ∃ s, spki_from_der spki = Ok s ∧ one.1 = UpdateRemove s
  | EditChange _ change => one.1 = UpdateChange change
  end.
Proof.
  destruct e as [ta|spki|spki ch]; cbn [prepare_one].
  - intros (idt & w1 & _ & Hb)%exec_bind_Ret. apply exec_bind_Ret in Hb as ([] & w2 & _ & Hb); [done|].
    apply exec_bind_Ret in Hb as (d & w3 & _ & Hb). by injection Hb as <- _.
  - intros (sp & w1 & [Hs _]%lift_Ret & Hb)%exec_bind_Ret. injection Hb as <- _.
    exists sp. split; [|done]. by apply asn1_Ok in Hs.
  - intros ([] & w1 & _ & Hb)%exec_bind_Ret; [|done].
    apply exec_bind_Ret in Hb as (d & w3 & _ & Hb). by injection Hb as <- _.
Qed.

Lemma prepare_updates env tid i edits w r w' :
  prepare env tid i edits w = (Ret r, w') → edit_updates edits = Ok r.1.
Proof.
  revert i w r w'. induction edits as [|e edits IH]; intros i w r w'; cbn [prepare].
  - by intros [= <- _].
  - intros (one & w1 & Hone & Hb)%exec_bind_Ret. apply exec_bind_Ret in Hb as (more & w2 & Hm & Hb).
    injection Hb as <- _. apply prepare_one_updates in Hone. cbn [edit_updates fst].
    rewrite (IH _ _ _ _ Hm). destruct e as [ta|spki|spki ch].
    + by rewrite Hone.
    + destruct Hone as (sp & -> & ->). done.
    + by rewrite Hone.
Qed.
(** What a message that was issued is. *)
Definition issued_as (tgt : TargetIdentifier) (label : string) (signer : SignerContext)
    (r : Request) (w : TampWorld) (m : IssuedMessage) (w' : TampWorld) : Prop :=
  ∃ d tid n body p name,
    target_to_der tgt = Ok d ∧ t_id <$> find_target_by_der d (db w') = Some tid ∧
    im_seq_num m = wrap 64 n ∧ n ≤ i64_MAX ∧
    sequence_numbers (db w') !! (tid, sc_ski signer) = Some n ∧
    (∀ b, sequence_numbers (db w) !! (tid, sc_ski signer) = Some b → b < n) ∧
    im_content_type m = request_type r ∧ request_message r tgt (im_seq_num m) = Ok body ∧
    parse (im_envelope m) = Ok p ∧ p_content_type p = request_type r ∧ p_content p = body ∧
    p_signer_ski p = sc_ski signer ∧
    (∃ raw, sc_sign signer (sc_algorithm signer) (p_signed_attrs_der p) = Ok raw ∧
       encode_x509_signature debug_length (sc_algorithm signer) raw = Ok (p_signature p)) ∧
    events w' = events w ++
      [{| ev_action := name; ev_target := label; ev_success := true;
          ev_details := DOutbound (request_type r) (im_seq_num m) (sc_ski signer) |}].

Lemma issued_tail env tgt label signer r w tid w1 seq w2 w3 der u envelope name m w' :
  target_id_of env tgt label w = (Ret tid, w1) →
  next_seq env tid (sc_ski signer) w1 = (Ret seq, w2) →
  request_message r tgt seq = Ok der →
  sign_message_with_unsigned_attrs debug_algorithm debug_length text (sc_sign signer)
    (sc_ski signer) (request_type r) der (sc_algorithm signer) u = Ok envelope →
  sequence_numbers (db w3) = sequence_numbers (db w2) → targets (db w3) = targets (db w2) →
  events w3 = events w2 →
  finalize env tid label (sc_ski signer) (request_type r) name seq envelope w3 = (Ret m, w') →
  issued_as tgt label signer r w m w'.
Proof.
  intros (Hq & He & _ & d & Hd & Hf & _)%target_id_Ret (Ht2 & He2 & n & -> & Hn & Hle & Hb)%next_seq_Ret.
  intros Hder Hs Hq3 Ht3 He3 (Hm & Hev & Hsq & _ & _ & Htg)%finalize_run. injection Hm as ->.
  apply sign_message_parts in Hs as (attrs & tbs & raw & sig & id & un & _ & _ & Hr & Hsig & _ & _ & Hp).
  eexists d, tid, n, der, _, name. cbn [im_seq_num im_content_type im_envelope].
  split_and!; [done| |done|done| | |done|done|exact Hp|done|done|done|by exists raw|].
  - unfold find_target_by_der. rewrite Htg, Ht3, Ht2. exact Hf.
  - by rewrite Hsq, Hq3.
  - intros b. rewrite <- Hq. apply Hb.
  - by rewrite Hev, He3, He2, He.
Qed.

Lemma asn1_Ok' {A} (r : result A string) x : asn1 r = Ok x → r = Ok x.
Proof. by intros ?%asn1_Ok. Qed.

Lemma in_rows_Err {A} f d (e : string) d' :
  (∀ rows e rows', f rows = (Err e, rows') → rows' = rows) →
  @in_rows A f d = (Err e, d') → d' = d.
Proof.
  intros Hf. unfold in_rows. destruct (f (trust_anchors d)) as [o rows] eqn:Hr.
  intros [= -> <-]. apply Hf in Hr as ->. by destruct d.
Qed.

Lemma apply_writes_Err tid ws d e d' : apply_trust_anchor_writes tid ws d = (Err e, d') → d' = d.
Proof.
  apply in_rows_Err. intros rows e0 rows'. destruct (apply_writes tid ws rows); [done|]. congruence.
Qed.

Lemma apply_apex_Err tid ct cc k i n td d e d' :
  apply_apex_update tid ct cc k i n td d = (Err e, d') → d' = d.
Proof. unfold apply_apex_update. destruct (apply_one_write _ _ _); [done|]. congruence. Qed.

(** A failed request: nothing kept, or its write unanswered. *)
Definition failed_clean (env : TampEnv) (r : Request) (o : outcome IssuedMessage Error)
    (w w' : TampWorld) : Prop := same_store w w' ∨ write_unanswered env r o w w'.

(** Steps that fail or go on, while the store stays the same. *)
Lemma failed_bind {A} env r (m : M A) (k : A → M IssuedMessage) w o w' :
  (∀ o1 w1, m w = (o1, w1) → same_store w w1) →
  (∀ x w1, m w = (Ret x, w1) → k x w1 = (o, w') → (∀ y, o ≠ Ret y) → failed_clean env r o w1 w') →
  exec_bind m k w = (o, w') → (∀ y, o ≠ Ret y) → failed_clean env r o w w'.
Proof.
  intros Hm Hk Hb Ho. destruct (bind_not_Ret _ _ _ _ _ Hb Ho) as [(o1 & Hc & _)|(x & w1 & Hx & Hr)].
  - left. by eapply Hm.
  - pose proof (Hm _ _ Hx) as Hw. destruct (Hk _ _ Hx Hr Ho) as [Hs|(p & f & msg & w0 & ? & ? & ? & Hs & ?)].
    + left. by etransitivity.
    + right. exists p, f, msg, w0. split_and!; [done..|by etransitivity|done].
Qed.

Lemma same_store_lift {A} (r : result A Error) w o w' : lift r w = (o, w') → same_store w w'.
Proof. by intros [-> _]%lift_run. Qed.

(** The write and the record of a request: [finalize] itself never fails. *)
Lemma failed_finalize env r tid label ski ct name seq envelope w o w' :
  finalize env tid label ski ct name seq envelope w = (o, w') → (∀ m, o ≠ Ret m) →
  failed_clean env r o w w'.
Proof. intros [-> _]%finalize_run Ho. by edestruct Ho. Qed.

Lemma failed_write env r p (f : TampDb → result unit string * TampDb) tid label ski ct name
    seq envelope w o w' :
  request_write r p f → (∀ d e d', f d = (Err e, d') → d' = d) →
  exec_bind (db_call env p f)
    (λ _, finalize env tid label ski ct name seq envelope) w = (o, w') →
  (∀ m, o ≠ Ret m) → failed_clean env r o w w'.
Proof.
  intros Hp Hf Hb Ho. destruct (bind_not_Ret _ _ _ _ _ Hb Ho) as [(o1 & Hc & Ho1)|(x & w1 & _ & Hfin)].
  - destruct (db_call_not_Ret _ _ _ _ _ _ Hf Hc Ho1) as [->|(msg & Hfa & -> & ->)]; [by left|].
    right. exists p, f, msg, w. split_and!; try done.
    + revert Hb. unfold exec_bind. rewrite Hc. by intros [= <-].
  - apply finalize_run in Hfin as [-> _]. by edestruct Ho.
Qed.

Ltac failed_steps :=
  repeat match goal with
  | |- exec_bind _ _ _ = _ → _ => apply failed_bind;
      [intros ? ?; first [apply target_id_store|apply next_seq_store|apply same_store_lift
                         |(intros ->%prepare_store; reflexivity)]|];
      intros ? ? _
  end.

Lemma issue_failed env tgt label signer r w o w' :
  issue env tgt label signer r w = (o, w') → (∀ m, o ≠ Ret m) → failed_clean env r o w w'.
Proof.
  destruct r as [terse|edits|add remove| |ta ct cc key]; cbn [issue].
  - unfold issue_status_query. failed_steps. apply failed_finalize.
  - unfold issue_trust_anchor_update. destruct edits as [|e edits]; [by intros [= <- <-]; left|].
    failed_steps. apply failed_write; [split; [done|by do 2 eexists]|apply apply_writes_Err].
  - unfold issue_community_update.
    destruct add as [|x add]; [destruct remove as [|y remove]; [by intros [= <- <-]; left|]|];
      failed_steps; (apply failed_write; [split; [done|by eexists]|done]).
  - unfold issue_sequence_number_adjust. failed_steps. apply failed_finalize.
  - unfold issue_apex_update. failed_steps. apply failed_bind.
    + destruct key as [key|].
      * intros ? ?. unfold exec_bind. destruct (lift (cms_err _ _) _) as [[v|e|] ?] eqn:Hv;
          apply lift_run in Hv as [-> _]; [apply same_store_lift|by intros [= <- <-]..].
      * intros ? ?. apply same_store_lift.
    + intros envelope ? _. apply failed_write; [split; [done|by do 5 eexists]|apply apply_apex_Err].
Qed.

Lemma issue_failed_store env tgt label signer r w o w' :
  faults_are_faults env → issue env tgt label signer r w = (o, w') → (∀ m, o ≠ Ret m) →
  same_store w w'.
Proof.
  intros Hn Hi Ho. destruct (issue_failed _ _ _ _ _ _ _ _ Hi Ho) as [|(p & f & msg & w0 & Hf & _)];
    [done|]. by apply Hn in Hf.
Qed.

Lemma check_replay_Ret env tid label name ski seq w w' :
  check_replay env tid label name ski seq w = (Ret tt, w') →
  events w' = events w ∧ same_store w w' ∧ targets (db w') = targets (db w) ∧
  match seq with
  | None => w' = w
  | Some n => n ≤ i64_MAX ∧ sequence_numbers (db w') !! (tid, ski) = Some n ∧
      ∀ b, sequence_numbers (db w) !! (tid, ski) = Some b → b < n
  end.
Proof.
  destruct seq as [n|]; cbn [check_replay]; [|by intros [= <-]].
  intros (s & w1 & [Hs ->]%lift_Ret & HH)%exec_bind_Ret.
  apply exec_bind_Ret in HH as ([] & w2 & (d & Hd & ->)%db_call_Ret & HH); [|done].
  injection HH as <-. unfold seq_to_i64 in Hs. destruct (i64_MAX <? n) eqn:Hle; [done|].
  injection Hs as <-. apply Z.ltb_ge in Hle.
  pose proof (taken_baseline (tid, ski) (CCheckAndAdvance tid ski n) (db w)) as Ht.
  simpl in Ht. rewrite decide_True, Hd in Ht by done. destruct Ht as [Hn Hb]; [by intros []|].
  assert (same_store w {| db := d; events := events w |} ∧ targets d = targets (db w)) as [Hss Htg].
  { unfold check_and_advance_seq in Hd.
    destruct (sequence_numbers (db w) !! (tid, ski)); [destruct (_ <=? _); [done|]|];
      by injection Hd as <-. }
  split; [done|]. split; [done|]. split; [done|]. split; [done|]. split; [done|]. done.
Qed.

(** What [ingest] did when it returned. *)
Definition ingested (tgt : TargetIdentifier) (label : string) (der : list u8) (w : TampWorld)
    (out : IngestOutcome) (w' : TampWorld) : Prop :=
  ∃ p d tid spki name seq codes,
    parse der = Ok p ∧ target_to_der tgt = Ok d ∧
    t_id <$> find_target_by_der d (db w') = Some tid ∧
    (∀ i, t_id <$> find_target_by_der d (db w) = Some i → i = tid) ∧
    find_target_signer_spki tid (p_signer_ski p) (db w) = Some spki ∧
    verify crypto_text p spki = Ok tt ∧
    decode_inbound (p_content_type p) (p_content p) = Ok (name, seq, codes) ∧
    out = {| io_content_type := p_content_type p; io_message_name := name; io_seq_num := seq;
             io_status_codes := codes; io_signer_ski := p_signer_ski p |} ∧
    match seq with
    | Some n => n ≤ i64_MAX ∧ sequence_numbers (db w') !! (tid, p_signer_ski p) = Some n ∧
        ∀ b, sequence_numbers (db w) !! (tid, p_signer_ski p) = Some b → b < n
    | None => sequence_numbers (db w') = sequence_numbers (db w)
    end ∧
    trust_anchors (db w') = trust_anchors (db w) ∧ communities (db w') = communities (db w) ∧
    target_signers (db w') = target_signers (db w) ∧
    message_log (db w') = message_log (db w) ++
      [{| l_target_id := Some tid; l_direction := "inbound"; l_content_type := p_content_type p;
          l_message_name := name; l_seq_number := as_i64 <$> seq;
          l_signer_key_id := Some (p_signer_ski p); l_status_code := status_as_str <$> head codes;
          l_message_der := der |}] ∧
    events w' = events w ++
      [{| ev_action := name; ev_target := label; ev_success := forallb is_success codes;
          ev_details := DInbound (p_content_type p) seq (status_as_str <$> codes)
                          (p_signer_ski p) |}].

Lemma target_id_rows env tgt label w tid w' :
  target_id_of env tgt label w = (Ret tid, w') →
  trust_anchors (db w') = trust_anchors (db w) ∧ communities (db w') = communities (db w) ∧
  message_log (db w') = message_log (db w).
Proof.
  unfold target_id_of. intros (d & w1 & [_ ->]%lift_Ret & (d' & Hg & ->)%db_call_Ret)%exec_bind_Ret.
  unfold get_or_create_target in Hg. destruct (find_target_by_der _ _); [by injection Hg as _ <-|].
  destruct (get_target _ _); [done|]. by injection Hg as _ <-.
Qed.

Lemma ingest_Ret env tgt label der w out w' :
  ingest env tgt label der w = (Ret out, w') → ingested tgt label der w out w'.
Proof.
  unfold ingest. intros (p & w1 & [Hp ->]%lift_Ret & HH)%exec_bind_Ret.
  apply exec_bind_Ret in HH as (tid & w2 & Ht & HH).
  apply exec_bind_Ret in HH as (fo & w3 & (dd & Hdd & ->)%db_call_Ret & HH).
  injection Hdd as <- <-.
  apply exec_bind_Ret in HH as (spki & w4 & [Hs ->]%lift_Ret & HH).
  apply exec_bind_Ret in HH as ([] & w5 & [Hv ->]%lift_Ret & HH).
  apply exec_bind_Ret in HH as ([[name seq] codes] & w6 & [Hd ->]%lift_Ret & HH).
  apply exec_bind_Ret in HH as ([] & w7 & Hc & HH).
  apply exec_bind_Ret in HH as ([] & w8 & (d8 & Hd8 & ->)%db_call_Ret & HH).
  injection Hd8 as <-. apply exec_bind_Ret in HH as (u & w9 & Hau & HH).
  injection Hau as _ <-. injection HH as <- <-. cbn [fst snd] in *.
  replace {| db := db w2; events := events w2 |} with w2 in Hc by (by destruct w2).
  apply check_replay_Ret in Hc as (He & (Hs1 & Hs2 & Hs3 & Hs4 & _) & Htg & Hseq).
  pose proof (target_id_rows _ _ _ _ _ _ Ht) as (Hr1 & Hr2 & Hr3).
  apply target_id_Ret in Ht as (Hq & He2 & Hsg & d & Hdt & Hf & Hk).
  exists p, d, tid, spki, name, seq, codes.
  assert (find_target_signer_spki tid (p_signer_ski p) (db w2) = Some spki) as Hfs
    by (destruct (find_target_signer_spki _ _ _); simplify_eq/=; done).
  split; [done|]. split; [done|]. split; [unfold find_target_by_der in *; cbn; by rewrite Htg|].
  split; [intros i Hi; by apply Hk in Hi as [-> _]|].
  split; [unfold find_target_signer_spki in *; by rewrite <- Hsg|].
  split; [done|]. split; [done|]. split; [done|]. split.
  { cbn [db log_message set_log sequence_numbers].
    destruct seq as [n|]; [rewrite <- Hq; exact Hseq|by rewrite Hseq]. }
  cbn [db log_message set_log trust_anchors communities target_signers message_log events].
  split_and!; [congruence..|by rewrite Hs4, Hr3|by rewrite He, He2].
Qed.

(** ** Properties *)


(** Every message the manager issues carries a number of its own: higher than
    any this signer has used for the target, within the RFC's range, and the
    new baseline; the envelope parses to exactly the message of the request
    with that number and verifies as signed by the signer; and one success
    event is recorded. *)
Theorem issued_message_spec env tgt label signer r w m w' :
  issue env tgt label signer r w = (Ret m, w') → issued_as tgt label signer r w m w'.
Proof.
  destruct r as [terse|edits|add remove| |ta ct cc key]; cbn [issue].
  - unfold issue_status_query. intros (tid & w1 & Ht & HH)%exec_bind_Ret.
    apply exec_bind_Ret in HH as (seq & w2 & Hs & HH).
    apply exec_bind_Ret in HH as (der & w3 & [Hd%asn1_Ok' ->]%lift_Ret & HH).
    apply exec_bind_Ret in HH as (envelope & w4 & [Hsg ->]%lift_Ret & HH).
    eapply issued_tail with (r := RStatusQuery terse); [exact Ht|exact Hs|exact Hd|exact Hsg|done..|exact HH].
  - unfold issue_trust_anchor_update. destruct edits as [|e edits]; [done|].
    intros (tid & w1 & Ht & HH)%exec_bind_Ret.
    apply exec_bind_Ret in HH as (pr & w2 & Hp & HH). pose proof (prepare_store _ _ _ _ _ _ _ Hp) as ->.
    apply exec_bind_Ret in HH as (seq & w3 & Hs & HH).
    apply exec_bind_Ret in HH as (der & w4 & [Hd%asn1_Ok' ->]%lift_Ret & HH).
    apply exec_bind_Ret in HH as (envelope & w5 & [Hsg ->]%lift_Ret & HH).
    apply exec_bind_Ret in HH as (x & w6 & (dd & Hw & ->)%db_call_Ret & HH).
    eapply issued_tail with (r := RUpdate (e :: edits)) (w3 := {| db := dd; events := events w3 |}); [exact Ht|exact Hs| |exact Hsg| | | |exact HH].
    + apply prepare_updates in Hp. cbn [request_message]. rewrite Hp. exact Hd.
    + unfold apply_trust_anchor_writes, in_rows in Hw.
      destruct (apply_writes _ _ _); [by injection Hw as _ <-|done].
    + unfold apply_trust_anchor_writes, in_rows in Hw.
      destruct (apply_writes _ _ _); [by injection Hw as _ <-|done].
    + done.
  - unfold issue_community_update. intros HH.
    assert (∃ tid w1, target_id_of env tgt label w = (Ret tid, w1) ∧ exists seq w2,
      next_seq env tid (sc_ski signer) w1 = (Ret seq, w2) ∧ ∃ der envelope w3,
      request_message (RCommunity add remove) tgt seq = Ok der ∧
      sign_message_with_unsigned_attrs debug_algorithm debug_length text (sc_sign signer)
        (sc_ski signer) ID_CT_TAMP_COMMUNITY_UPDATE der (sc_algorithm signer) [] = Ok envelope ∧
      db_call env PCommunity (writing (apply_community_update tid remove add)) w2 = (Ret tt, w3) ∧
      finalize env tid label (sc_ski signer) ID_CT_TAMP_COMMUNITY_UPDATE "TAMPCommunityUpdate" seq
        envelope w3 = (Ret m, w')) as (tid & w1 & Ht & seq & w2 & Hs & der & envelope & w3 & Hd & Hsg & Hw & Hfin).
    { destruct add as [|x add]; [destruct remove as [|y remove]; [done|]|];
        (apply exec_bind_Ret in HH as (tid & w1 & Ht & HH); exists tid, w1; split; [exact Ht|];
         apply exec_bind_Ret in HH as (seq & w2 & Hs & HH); exists seq, w2; split; [exact Hs|];
         apply exec_bind_Ret in HH as (der & w4 & [Hd%asn1_Ok' ->]%lift_Ret & HH);
         apply exec_bind_Ret in HH as (envelope & w5 & [Hsg ->]%lift_Ret & HH);
         apply exec_bind_Ret in HH as ([] & w6 & Hw & HH); by exists der, envelope, w6). }
    apply db_call_Ret in Hw as (dd & [= <-] & ->).
    eapply issued_tail with (r := RCommunity add remove)
      (w3 := {| db := apply_community_update tid remove add (db w2); events := events w2 |});
      [exact Ht|exact Hs|exact Hd|exact Hsg|done..|exact Hfin].
  - unfold issue_sequence_number_adjust. intros (tid & w1 & Ht & HH)%exec_bind_Ret.
    apply exec_bind_Ret in HH as (seq & w2 & Hs & HH).
    apply exec_bind_Ret in HH as (der & w3 & [Hd%asn1_Ok' ->]%lift_Ret & HH).
    apply exec_bind_Ret in HH as (envelope & w4 & [Hsg ->]%lift_Ret & HH).
    eapply issued_tail with (r := RSeqAdjust); [exact Ht|exact Hs|exact Hd|exact Hsg|done..|exact HH].
  - unfold issue_apex_update. intros (tid & w1 & Ht & HH)%exec_bind_Ret.
    apply exec_bind_Ret in HH as (idt & w2 & [_ ->]%lift_Ret & HH).
    apply exec_bind_Ret in HH as (ad & w3 & [_ ->]%lift_Ret & HH).
    apply exec_bind_Ret in HH as (seq & w4 & Hs & HH).
    apply exec_bind_Ret in HH as (der & w5 & [Hd%asn1_Ok' ->]%lift_Ret & HH).
    apply exec_bind_Ret in HH as (envelope & w6 & Hsg & HH).
    apply exec_bind_Ret in HH as (x & w7 & (dd & Hw & ->)%db_call_Ret & HH).
    assert (w6 = w4 ∧ ∃ u, sign_message_with_unsigned_attrs debug_algorithm debug_length text
      (sc_sign signer) (sc_ski signer) ID_CT_TAMP_APEX_UPDATE der (sc_algorithm signer) u = Ok envelope)
      as [-> [u Hu]].
    { destruct key as [key|].
      - apply exec_bind_Ret in Hsg as (v & w8 & [_ ->]%lift_Ret & [Hu ->]%lift_Ret).
        split; [done|]. by eexists.
      - apply lift_Ret in Hsg as [Hu ->]. split; [done|]. by exists []. }
    unfold apply_apex_update in Hw. destruct (apply_one_write _ _ _) as [l|]; [|done]. injection Hw as _ <-.
    eapply issued_tail with (r := RApex ta ct cc key)
      (w3 := {| db := set_anchors (if cc then clear_communities tid (db w4) else db w4) l;
                events := events w4 |}); [exact Ht|exact Hs|exact Hd|exact Hu| | |done|exact HH];
      by destruct cc.
Qed.

(** A target's apex cannot be replaced: once a target has an apex, an apex
    update with another key fails at the store, whatever it is asked to
    clear, after its message has been signed; the apex stays. *)
Theorem apex_never_replaced env tgt label signer ta ct cc key w o w' d r spki rest :
  faults_are_faults env → target_to_der tgt = Ok d →
  t_id <$> find_target_by_der d (db w) = Some (a_target_id r) → r ∈ trust_anchors (db w) →
  a_is_apex r = true → ta_identity ta = Ok (spki, rest.1, rest.2) → a_pub_key_spki r ≠ spki →
  issue env tgt label signer (RApex ta ct cc key) w = (o, w') →
  (∀ m, o ≠ Ret m) ∧ trust_anchors (db w') = trust_anchors (db w).
Proof.
  intros Hn Hd Hf Hr Ha Hid Hk Hi. assert (∀ m, o ≠ Ret m) as Ho.
  { intros m ->. revert Hi. cbn [issue]. unfold issue_apex_update.
    intros (tid & w1 & (_ & _ & _ & d' & Hd' & _ & Ht)%target_id_Ret & HH)%exec_bind_Ret.
    rewrite Hd in Hd'. injection Hd' as <-. destruct (Ht _ Hf) as [<- ->].
    apply exec_bind_Ret in HH as (idt & w2 & [Hid' ->]%lift_Ret & HH).
    rewrite Hid in Hid'. injection Hid' as <-.
    apply exec_bind_Ret in HH as (ad & w3 & [_ ->]%lift_Ret & HH).
    apply exec_bind_Ret in HH as (seq & w4 & (Hta & _)%next_seq_store & HH).
    apply exec_bind_Ret in HH as (der & w5 & [_ ->]%lift_Ret & HH).
    apply exec_bind_Ret in HH as (envelope & w6 & Hsg & HH).
    apply exec_bind_Ret in HH as (x & w7 & (dd & Hw & _)%db_call_Ret & _).
    assert (w6 = w4) as ->.
    { destruct key as [k|]; [|by apply lift_Ret in Hsg as [_ ->]].
      by apply exec_bind_Ret in Hsg as (v & w8 & [_ ->]%lift_Ret & [_ ->]%lift_Ret). }
    cbn [fst snd] in Hw. rewrite (apply_apex_refused _ _ _ _ _ _ _ _ r) in Hw; [done| |done..].
    by rewrite Hta. }
  split; [done|]. by apply (issue_failed_store _ _ _ _ _ _ _ _ Hn Hi Ho).
Qed.

(** An inbound message is believed only if it parses, its signer is
    registered for the target and the registered key verifies it, and, if it
    names a sequence number, that number is in range and above all this
    signer has used; the number becomes the baseline, the message is logged
    and audited with its outcome, and nothing else changes. *)
Theorem ingest_sound env tgt label der w out w' :
  ingest env tgt label der w = (Ret out, w') → ingested tgt label der w out w'.
Proof. apply ingest_Ret. Qed.

(** C22. No replay: an envelope with a sequence number that was accepted for a
    target is refused for that target ever after, whatever label and faults,
    and whatever calls the repository has carried out in between, in any
    order, so long as none of them resets the baseline of a signer (nothing in
    the manager does). *)
Theorem ingest_no_replay env tgt label der w out w1 cs w2 n :
  ingest env tgt label der w = (Ret out, w1) → io_seq_num out = Some n →
  (∀ key, Forall (λ c, ¬ resets key c) cs) →
  db w2 = foldl (λ d c, repo_step c d) (db w1) cs →
  ∀ env' label' out' w3, ingest env' tgt label' der w2 ≠ (Ret out', w3).
Proof.
  intros (p & d & tid & spki & name & seq & codes & Hp & Hd & Hf & _ & _ & _ & Hdec & -> & Hseq & _)%ingest_Ret.
  cbn. intros -> Hr Hw2 env' label' out' w3
    (p' & d' & tid' & spki' & name' & seq' & codes' & Hp' & Hd' & _ & Hk' & _ & _ & Hdec' & _ & Hseq' & _)%ingest_Ret.
  rewrite Hp in Hp'. injection Hp' as <-. rewrite Hd in Hd'. injection Hd' as <-.
  rewrite Hdec in Hdec'. injection Hdec' as <- <- <-.
  destruct Hseq as (_ & Hn & _). destruct Hseq' as (_ & _ & Hb).
  destruct (find_target_by_der d (db w1)) as [row|] eqn:Hrow; [|done]. injection Hf as <-.
  apply find_target_stable_run with (cs := cs) in Hrow as Hrow2. rewrite <- Hw2 in Hrow2.
  pose proof (Hk' (t_id row)) as Htid. rewrite Hrow2 in Htid. specialize (Htid eq_refl). subst tid'.
  destruct (baseline_rises cs _ _ _ (Hr _) Hn) as (b & Hb' & Hle). rewrite <- Hw2 in Hb'.
  specialize (Hb b Hb'). lia.
Qed.

(** A message without a sequence number, as a TAMPError may be, is accepted
    again and again. *)
Theorem unnumbered_message_replayed env env' tgt label der w out w1 :
  ingest env tgt label der w = (Ret out, w1) → io_seq_num out = None →
  (∀ p, fault env' p = None) → ∃ w2, ingest env' tgt label der w1 = (Ret out, w2).
Proof.
  intros Hin. pose proof (ingest_Ret _ _ _ _ _ _ _ Hin) as
    (p & d & tid & spki & name & seq & codes & Hp & Hd & Hf & _ & Hs & Hv & Hdec & -> & _ & _ & _ & Hsg & _ & _).
  cbn [io_seq_num]. intros -> Hnf. destruct (find_target_by_der d (db w1)) as [row|] eqn:Hrow; [|done].
  injection Hf as <-.
  assert (∀ {A} p (f : TampDb → result A string * TampDb) x dd w, f (db w) = (Ok x, dd) →
    db_call env' p f w = (Ret x, {| db := dd; events := events w |})) as Hcall.
  { intros A q f x dd w0 Hf. unfold db_call. by rewrite Hnf, Hf. }
  eexists. unfold ingest. refine (proj2 (exec_bind_Ret _ _ _ _ _) _).
  exists p, w1. split; [unfold lift, exec_pure; by rewrite Hp|]. refine (proj2 (exec_bind_Ret _ _ _ _ _) _).
  exists (t_id row), w1. split.
  { unfold target_id_of. refine (proj2 (exec_bind_Ret _ _ _ _ _) _). exists d, w1. unfold lift, exec_pure. rewrite Hd.
    split; [done|]. rewrite (Hcall _ _ _ (t_id row) (db w1)); [by destruct w1|].
    unfold get_or_create_target. by rewrite Hrow. }
  refine (proj2 (exec_bind_Ret _ _ _ _ _) _). exists (Some spki), w1. split.
  { rewrite (Hcall _ _ _ (Some spki) (db w1)); [by destruct w1|].
    unfold reading, find_target_signer_spki in *. by rewrite Hsg, Hs. }
  refine (proj2 (exec_bind_Ret _ _ _ _ _) _). exists spki, w1. split; [done|].
  refine (proj2 (exec_bind_Ret _ _ _ _ _) _). exists tt, w1. split; [unfold lift, exec_pure; by rewrite Hv|].
  refine (proj2 (exec_bind_Ret _ _ _ _ _) _). exists (name, None, codes), w1. split; [unfold lift, exec_pure; by rewrite Hdec|].
  refine (proj2 (exec_bind_Ret _ _ _ _ _) _). exists tt, w1. split; [done|]. refine (proj2 (exec_bind_Ret _ _ _ _ _) _). exists tt. eexists.
  split; [by apply Hcall|]. done.
Qed.
End manager.

(** ** Witnesses *)

Lemma attribute_image a : Build_Attribute (attr_oid a) (attr_values a) = a.
Proof. by destruct a. Qed.
#[local] Instance Attribute_Pickle : Pickle Attribute :=
  image_Pickle (λ a, (attr_oid a, attr_values a)) (λ p, Build_Attribute p.1 p.2) attribute_image.
Definition sid_list (s : SignerIdentifier) : option (list u8) :=
  match s with SubjectKeyIdentifier k => Some k | IssuerAndSerialNumber => None end.
Definition list_sid (o : option (list u8)) : SignerIdentifier :=
  match o with Some k => SubjectKeyIdentifier k | None => IssuerAndSerialNumber end.
Lemma sid_image s : list_sid (sid_list s) = s.
Proof. by destruct s. Qed.
#[local] Instance SignerIdentifier_Pickle : Pickle SignerIdentifier :=
  image_Pickle sid_list list_sid sid_image.
Definition info_tuple (s : SignerInfo) :=
  (si_sid s, si_signed_attrs s, si_signature_algorithm s, si_signature s, si_unsigned_attrs s).
Definition tuple_info p : SignerInfo := let '(a, b, c, d, e) := p in Build_SignerInfo a b c d e.
Lemma info_image s : tuple_info (info_tuple s) = s.
Proof. by destruct s. Qed.
#[local] Instance SignerInfo_Pickle : Pickle SignerInfo :=
  image_Pickle info_tuple tuple_info info_image.
Definition data_tuple (s : SignedData) := (sd_econtent_type s, sd_econtent s, sd_signer_infos s).
Definition tuple_data p : SignedData := let '(a, b, c) := p in Build_SignedData a b c.
Lemma data_image s : tuple_data (data_tuple s) = s.
Proof. by destruct s. Qed.
#[local] Instance SignedData_Pickle : Pickle SignedData :=
  image_Pickle data_tuple tuple_data data_image.
Lemma content_image c : Build_ContentInfo (ci_content_type c) (ci_content c) = c.
Proof. by destruct c. Qed.
#[local] Instance ContentInfo_Pickle : Pickle ContentInfo :=
  image_Pickle (λ c, (ci_content_type c, ci_content c)) (λ p, Build_ContentInfo p.1 p.2) content_image.

Lemma toy_octets (b a : list u8) : @Ok _ string b = Ok a → @Ok _ string a = Ok b.
Proof. congruence. Qed.
Lemma toy_insert_elem (x : Attribute) l l' :
  @Ok _ string (x :: l) = Ok l' → ∀ y, y ∈ l' ↔ y = x ∨ y ∈ l.
Proof. intros [= <-] y. apply elem_of_cons. Qed.
Definition toy_cms : CmsLib := {|
  TampCms.sha256 b := [Z.of_nat (length b)]; oid_any s := to_pickle s; octets_any := Ok;
  octets_of_any := Ok; set_insert x l := Ok (x :: l); attrs_to_der := to_pickle;
  attrs_from_der := of_pickle; signed_data_any := to_pickle; signed_data_of_any := of_pickle;
  content_info_to_der := to_pickle; content_info_from_der := of_pickle;
  octets_any_back := toy_octets; set_insert_elem := toy_insert_elem;
  attrs_back := of_to_pickle; signed_data_back := of_to_pickle; content_info_back := of_to_pickle
|}.
Definition toy_verify : VerifyLib :=
  {| spki_key_bytes b := Ok (Some b); ring_verify _ _ data sig := bool_decide (data = sig) |}.
Definition toy_x509 : X509Types :=
  {| XCertificate := list u8; XTbsCertificate := list u8; SubjectPublicKeyInfo := list u8;
     XName := unit; XExtensions := unit; CertificatePolicies := unit; NameConstraints := unit;
     AlgorithmIdentifier := unit; Validity := unit; OtherName := unit |}.
#[local] Existing Instance toy_x509.
#[local] Existing Instance toy_cms.
#[local] Existing Instance toy_verify.

Definition toy_seq (t : TampMsgRef) : result (list u8) string := Ok [seq_num t].
Definition toy_ref (b : list u8) : result TampMsgRef string :=
  match b with [n] => Ok {| target := AllModules; seq_num := n |} | _ => Err "length" end.
Definition toy_tamp : TampCodec := {|
  target_to_der t := match t with AllModules => Ok [1] | _ => Ok [0] end;
  cert_spki c := c; tbs_spki c := c; spki_to_der := Ok; spki_from_der := Ok;
  ta_to_der t := match t with TaCertificate c => Ok c | _ => Err "not a certificate" end;
  change_to_der _ := Ok []; status_query_to_der q := toy_seq (sq_query q);
  update_to_der q := toy_seq (tu_msg_ref q); apex_update_to_der q := toy_seq (au_msg_ref q);
  community_update_to_der q := toy_seq (tcu_msg_ref q); seq_adjust_to_der q := toy_seq (sa_msg_ref q);
  status_response_from_der b :=
    let? r := toy_ref b in
    Ok {| sr_version := 2; sr_query := r; sr_response := TerseStatusResponse [] None;
          sr_uses_apex := true |};
  update_confirm_from_der _ := Err "none"; apex_confirm_from_der _ := Err "none";
  community_confirm_from_der _ := Err "none"; seq_adjust_confirm_from_der _ := Err "none";
  tamp_error_from_der _ := Ok {| te_version := 2; te_msg_type := ""; te_status := SOther;
                                 te_msg_ref := None |}
|}.
#[local] Existing Instance toy_tamp.

Definition toy_env : TampEnv := {| fresh_target := 7%N; fault := λ _, None |}.
Definition toy_signer : SignerContext :=
  {| sc_sign := λ _ m, Ok m; sc_ski := [9]; sc_algorithm := Ed25519 |}.
Definition toy_empty : TampDb :=
  {| targets := []; trust_anchors := []; sequence_numbers := ∅; communities := ∅;
     target_signers := ∅; message_log := [] |}.
Definition toy_world : TampWorld := {| db := toy_empty; events := [] |}.
Definition toy_issue (r : Request) (w : TampWorld) : outcome IssuedMessage Error * TampWorld :=
  issue (λ _, "") (λ _, "") (λ _, "") toy_env AllModules "all" toy_signer r w.
Definition toy_ta (k : Z) : TrustAnchorChoice := TaCertificate [k].
Definition toy_apex (k : Z) : Request := RApex (toy_ta k) true true None.
Definition toy_with_apex : TampWorld := (toy_issue (toy_apex 5) toy_world).2.
Definition toy_registered : TampWorld :=
  (register_signer toy_env AllModules "all" [4] [44] None toy_world).2.
(** An envelope of a target with key identifier [4]. *)
Definition toy_envelope (ct : string) (content : list u8) : list u8 :=
  match sign_message (λ _, "") (λ _, "") (λ _, "") (λ _ m, Ok m) [4] ct content Ed25519 with
  | Ok e => e
  | Err _ => []
  end.
Definition toy_response : list u8 := toy_envelope ID_CT_TAMP_STATUS_RESPONSE [3].
Definition toy_error : list u8 := toy_envelope ID_CT_TAMP_ERROR [].
Definition toy_ingest (e : list u8) (w : TampWorld) : outcome IngestOutcome Error * TampWorld :=
  ingest (λ _, "") toy_env AllModules "all" e w.

Lemma toy_issue_ok : ∃ m w, toy_issue (toy_apex 5) toy_world = (Ret m, w).
Proof. vm_compute. by do 2 eexists. Qed.
Lemma toy_ingest_ok : ∃ out w,
  toy_ingest toy_response toy_registered = (Ret out, w) ∧ io_seq_num out = Some 3.
Proof. vm_compute. by do 2 eexists. Qed.
Lemma toy_error_ok : ∃ out w,
  toy_ingest toy_error toy_registered = (Ret out, w) ∧ io_seq_num out = None.
Proof. vm_compute. by do 2 eexists. Qed.

Lemma issued_message_spec_witness :
  ∃ m w, toy_issue (toy_apex 5) toy_world = (Ret m, w) ∧ im_seq_num m = 1 ∧
  im_content_type m = ID_CT_TAMP_APEX_UPDATE.
Proof.
  destruct toy_issue_ok as (m & w & Hi). exists m, w. split; [exact Hi|].
  destruct (issued_message_spec (λ _, "") (λ _, "") (λ _, "") toy_env AllModules "all" toy_signer
    (toy_apex 5) toy_world m w Hi) as (d & tid & n & body & p & name & _ & _ & _ & _ & _ & _ & Hct & _).
  split; [|exact Hct]. vm_compute in Hi. injection Hi as <- _. reflexivity.
Defined.


Lemma apex_never_replaced_witness :
  trust_anchors (db (toy_issue (toy_apex 6) toy_with_apex).2) = trust_anchors (db toy_with_apex).
Proof.
  destruct (toy_issue (toy_apex 6) toy_with_apex) as [o w] eqn:Hi.
  destruct (apex_never_replaced (λ _, "") (λ _, "") (λ _, "") toy_env AllModules "all" toy_signer
    (toy_ta 6) true true None toy_with_apex o w [1]
    {| a_target_id := 7%N; a_pub_key_spki := [5]; a_key_id := None; a_ta_title := None;
       a_is_apex := true; a_ta_der := [5] |} [6] (None, None)) as [_ Hn].
  - intros [] e; discriminate.
  - reflexivity.
  - vm_compute. reflexivity.
  - vm_compute. apply list_elem_of_here.
  - reflexivity.
  - reflexivity.
  - discriminate.
  - exact Hi.
  - exact Hn.
Defined.

Lemma ingest_sound_witness :
  ∃ out w, toy_ingest toy_response toy_registered = (Ret out, w) ∧
  ingested (λ _, "") AllModules "all" toy_response toy_registered out w.
Proof.
  destruct toy_ingest_ok as (out & w & Hi & _). exists out, w. split; [exact Hi|].
  apply (ingest_sound (λ _, "") toy_env AllModules "all" toy_response toy_registered out w Hi).
Defined.

Lemma ingest_no_replay_witness :
  ∃ out w, toy_ingest toy_response toy_registered = (Ret out, w) ∧
  (toy_ingest toy_response w).1 ≠ Ret out.
Proof.
  destruct toy_ingest_ok as (out & w & Hi & Hs). exists out, w. split; [exact Hi|].
  intros Hx. destruct (toy_ingest toy_response w) as [o w'] eqn:Hy. simpl in Hx. subst o.
  revert Hy. apply (ingest_no_replay (λ _, "") toy_env AllModules "all" toy_response toy_registered out w [] w 3
    Hi Hs).
  - intros key. constructor.
  - reflexivity.
Defined.

(** A signer registered for two targets: what was accepted for one of them is
    accepted for the other, since nothing compares the target the message
    names with the target it is taken in for. *)
Definition toy_other_env : TampEnv := {| fresh_target := 8%N; fault := λ _, None |}.
Definition accepted (r : outcome IngestOutcome Error * TampWorld) : bool :=
  match r.1 with Ret _ => true | _ => false end.

Example accepted_for_another_target :
  let two := Communities ["1.2"] in
  let once := (toy_ingest toy_response toy_registered).2 in
  let both := (register_signer toy_other_env two "two" [4] [44] None once).2 in
  accepted (toy_ingest toy_response both) = false ∧
  accepted (ingest (λ _, "") toy_other_env two "two" toy_response both) = true.
Proof. split; vm_compute; reflexivity. Qed.

Lemma unnumbered_message_replayed_witness :
  ∃ out w w', toy_ingest toy_error toy_registered = (Ret out, w) ∧
  toy_ingest toy_error w = (Ret out, w').
Proof.
  destruct toy_error_ok as (out & w & Hi & Hs).
  destruct (unnumbered_message_replayed (λ _, "") toy_env toy_env AllModules "all" toy_error
    toy_registered out w Hi Hs) as [w' Hw'].
  - intros p. reflexivity.
  - exists out, w, w'. split; [exact Hi|exact Hw'].
Defined.

Lemma sign_then_verify_witness :
  ∃ p, parse toy_response = Ok p ∧ p_content p = [3] ∧ p_signer_ski p = [4].
Proof.
  destruct (sign_then_verify (λ _, "") (λ _, "") (λ _, "") (λ _, "") (λ _ m, Ok m) [4]
    ID_CT_TAMP_STATUS_RESPONSE [3] Ed25519 [] toy_response) as (p & Hp & _ & Hc & Hs & _).
  - vm_compute. reflexivity.
  - unfold verifiable. set_solver.
  - exists p. split; [exact Hp|]. split; [exact Hc|exact Hs].
Defined.

(** A status response that verifies as a TAMPError. *)
Lemma verify_binds_content_only_witness :
  ∃ p, parse toy_response = Ok p ∧
  verify (λ _, "") {| p_content_type := ID_CT_TAMP_ERROR; p_content := p_content p;
    p_signer_ski := p_signer_ski p; p_signed_attrs_der := p_signed_attrs_der p;
    p_signature := p_signature p; p_signature_alg_oid := p_signature_alg_oid p |} [44] = Ok tt.
Proof.
  destruct (parse toy_response) as [p|e] eqn:Hp; [|vm_compute in Hp; discriminate Hp].
  exists p. split; [reflexivity|]. apply (verify_binds_content_only (λ _, "") p [44]).
  vm_compute in Hp. injection Hp as <-. vm_compute. reflexivity.
Defined.

Lemma sequence_numbers_increase_witness :
  Sorted.StronglySorted Z.lt (all_taken (1%N, [2])
    [CAllocate 1 [2]; CCheckAndAdvance 1 [2] 1; CCheckAndAdvance 1 [2] 5; CAllocate 1 [2]] toy_empty) ∧
  all_taken (1%N, [2])
    [CAllocate 1 [2]; CCheckAndAdvance 1 [2] 1; CCheckAndAdvance 1 [2] 5; CAllocate 1 [2]] toy_empty
  = [1; 5; 6].
Proof.
  split; [|reflexivity].
  apply (sequence_numbers_increase (1%N, [2])
    [CAllocate 1 [2]; CCheckAndAdvance 1 [2] 1; CCheckAndAdvance 1 [2] 5; CAllocate 1 [2]] toy_empty).
  repeat constructor; intros [].
Defined.
