(* ===== verification/Programs.v ===== *)
(** * Programs with effects

    Code that waits for something between its steps (a SQL statement, the
    clock, the network, a signing operation) is a program: an effect, and what
    comes next as a function of its answer.  How effects answer is a relation
    of each component, between the world before and after; many programs run
    interleaved, effect by effect, while the world changes by itself.

    The program logic proves an invariant of all runs one program at a time:
    [wp p Q w] holds when [p], run from any world later than [w] in company of
    other programs, keeps the invariant and ends with [Q].  A program on its own is
    followed against any answers at the end. *)
From stdpp Require Import base list relations.
From Stdlib Require Import Lia.
From S2P Require Import Prelude.


Inductive Prog (E : Type → Type) (A : Type) : Type :=
| Done (a : A)
| Step {X : Type} (e : E X) (k : X → Prog E A).
Arguments Done {E A} a.
Arguments Step {E A X} e k.

Section programs.
Context {E : Type → Type} {Error : Type}.

Fixpoint prog_bind {A B} (p : Prog E A) (f : A → Prog E B) : Prog E B :=
  match p with Done a => f a | Step e k => Step e (λ x, prog_bind (k x) f) end.

Definition call {X} (e : E X) : Prog E X := Step e Done.

(** Programs whose errors the [?] operator returns. *)
Definition ret {A} (a : A) : Prog E (result A Error) := Done (Ok a).
Definition fail {A} (e : Error) : Prog E (result A Error) := Done (Err e).
Definition lift {A} (r : result A Error) : Prog E (result A Error) := Done r.
Definition bind {A B} (m : Prog E (result A Error)) (f : A → Prog E (result B Error))
    : Prog E (result B Error) :=
  prog_bind m (λ r, match r with Ok a => f a | Err e => fail e end).
End programs.

Notation "'let^' x ':=' p 'in' k" := (prog_bind p (λ x, k))
  (at level 10, x name, p at level 100, k at level 200) : rust_scope.
Notation "'let#' x ':=' m 'in' k" := (bind m (λ x, k))
  (at level 10, x name, m at level 100, k at level 200) : rust_scope.

(** ** Runs *)

Section runs.
Context {E : Type → Type} {World : Type} (answers : World → ∀ X, E X → X → World → Prop)
  (spawned : ∀ X, E X → list (Prog E unit)) (env : World → World → list (Prog E unit) → Prop).

(** The programs that run, and the world they share. *)
Abbreviation State := (World * list (Prog E unit))%type.

(** A program takes its next effect, or the world changes and perhaps starts
    programs. *)
Inductive step : State → State → Prop :=
| step_program w ts1 X (e : E X) k ts2 x w' :
    answers w X e x w' → step (w, ts1 ++ Step e k :: ts2) (w', ts1 ++ k x :: ts2 ++ spawned X e)
| step_env w w' ps ts : env w w' ps → step (w, ts) (w', ts ++ ps).

(** A program that runs among the others, to its answer. *)
Inductive runs {A} : Prog E A → State → A → State → Prop :=
| runs_done a s : runs (Done a) s a s
| runs_effect X (e : E X) k s w ts x w' a s' :
    rtc step s (w, ts) → answers w X e x w' → runs (k x) (w', ts ++ spawned X e) a s' →
    runs (Step e k) s a s'.

(** The same, with the program's own steps: the world before and after each. *)
Inductive runs_own {A} : Prog E A → State → list (World * World) → A → State → Prop :=
| own_done a s : runs_own (Done a) s [] a s
| own_effect X (e : E X) k s w ts x w' own a s' :
    rtc step s (w, ts) → answers w X e x w' → runs_own (k x) (w', ts ++ spawned X e) own a s' →
    runs_own (Step e k) s ((w, w') :: own) a s'.

Lemma runs_has_own {A} (p : Prog E A) s a s' : runs p s a s' → ∃ own, runs_own p s own a s'.
Proof.
  induction 1 as [a s|X e k s w ts x w' a s' Hs Ha Hr [own IH]]; eexists; [constructor|].
  by eapply own_effect.
Qed.

Lemma runs_own_inv {A} (p : Prog E A) s own a s' :
  runs_own p s own a s' →
  match p with
  | Done b => own = [] ∧ a = b ∧ s' = s
  | Step e k => ∃ w ts x w' own', own = (w, w') :: own' ∧ rtc step s (w, ts) ∧ answers w _ e x w' ∧
      runs_own (k x) (w', ts ++ spawned _ e) own' a s'
  end.
Proof. destruct 1; [done|]. by do 5 eexists. Qed.
Lemma runs_own_bind {A B} (p : Prog E A) (f : A → Prog E B) s own b s' :
  runs_own (prog_bind p f) s own b s' →
  ∃ own1 a s1 own2, own = own1 ++ own2 ∧ runs_own p s own1 a s1 ∧ runs_own (f a) s1 own2 b s'.
Proof.
  revert s own. induction p as [a|X e k IH]; intros s own HH.
  { exists [], a, s, own. split; [done|]. split; [constructor|exact HH]. }
  apply runs_own_inv in HH as (w & ts & x & w' & own' & -> & Hs & Ha & Hr).
  destruct (IH _ _ _ Hr) as (own1 & a & s1 & own2 & -> & Hp & Hf).
  exists ((w, w') :: own1), a, s1, own2. split; [done|]. split; [|done]. by eapply own_effect.
Qed.
(** A success of [let#] is one of both programs. *)
Lemma runs_own_bindM {Error A B} (m : Prog E (result A Error)) (f : A → Prog E (result B Error)) s own b s' :
  runs_own (bind m f) s own (Ok b) s' →
  ∃ own1 a s1 own2, own = own1 ++ own2 ∧ runs_own m s own1 (Ok a) s1 ∧ runs_own (f a) s1 own2 (Ok b) s'.
Proof.
  intros (own1 & [a|e] & s1 & own2 & -> & Hm & Hf)%runs_own_bind; [by exists own1, a, s1, own2|].
  by apply runs_own_inv in Hf as (_ & ? & _).
Qed.
Lemma runs_own_lift {Error A B} (r : result A Error) (f : A → Prog E (result B Error)) s own b s' :
  runs_own (bind (lift r) f) s own (Ok b) s' → ∃ a, r = Ok a ∧ runs_own (f a) s own (Ok b) s'.
Proof. destruct r as [a|e]; [by exists a|]. by intros (_ & ? & _)%runs_own_inv. Qed.
Lemma runs_own_call {X} (e : E X) s own x s' :
  runs_own (call e) s own x s' → ∃ w w', own = [(w, w')] ∧ answers w X e x w'.
Proof.
  intros (w & ts & y & w' & own' & -> & _ & Ha & (-> & -> & ->)%runs_own_inv)%runs_own_inv.
  by exists w, w'.
Qed.
End runs.

(** ** The program logic *)

(** What a component's proofs are relative to: how its effects answer, the
    invariant of the world, what later worlds keep, and what a program has to
    establish when it spawns another. *)
Class Logic (E : Type → Type) (World : Type) := {
  l_answers : World → ∀ X, E X → X → World → Prop;
  l_inv : World → Prop;
  l_later : World → World → Prop;
  l_spawn_ok : World → ∀ X, E X → Prop;
  #[global] l_later_preorder :: PreOrder l_later
}.

Section logic.
Context {E : Type → Type} {World : Type} {L : Logic E World}.

Fixpoint wp {A} (p : Prog E A) (Q : A → World → Prop) (w : World) : Prop :=
  match p with
  | Done a => Q a w
  | @Step _ _ X e k => ∀ w1, l_later w w1 → l_inv w1 → ∀ x w2, l_answers w1 X e x w2 →
      l_inv w2 ∧ l_later w1 w2 ∧ l_spawn_ok w2 X e ∧ wp (k x) Q w2
  end.

Definition top {A} : A → World → Prop := λ _ _, True.

Lemma wp_bind {A B} (p : Prog E A) (f : A → Prog E B) Q w :
  wp p (λ a w', wp (f a) Q w') w → wp (prog_bind p f) Q w.
Proof.
  revert w. induction p as [a|X e k IH]; intros w HH; [done|]. cbn. intros w1 Hl Hi x w2 Ha.
  destruct (HH w1 Hl Hi x w2 Ha) as (H1 & H2 & H3 & H4). split_and!; [done..|]. by apply IH.
Qed.

Lemma wp_mono {A} (p : Prog E A) (Q Q' : A → World → Prop) w :
  (∀ a w', l_later w w' → Q a w' → Q' a w') → wp p Q w → wp p Q' w.
Proof.
  revert w. induction p as [a|X e k IH]; intros w HQ HH; [apply HQ; [done|exact HH]|].
  cbn. intros w1 Hl Hi x w2 Ha. destruct (HH w1 Hl Hi x w2 Ha) as (H1 & H2 & H3 & H4).
  split_and!; [done..|]. eapply IH; [|done]. intros a w' Hl' HQa. apply HQ; [|done].
  do 2 (etransitivity; [eassumption|]). done.
Qed.

Lemma wp_top_later {A} (p : Prog E A) w w' : l_later w w' → wp p top w → wp p top w'.
Proof.
  intros Hl. destruct p as [a|X e k]; [done|]. cbn. intros HH w1 Hl1.
  apply HH. by etransitivity.
Qed.

(** For programs with errors, of which nothing is claimed. *)
Definition wpm {Error A} (m : Prog E (result A Error)) (Q : A → World → Prop) (w : World) : Prop :=
  wp m (λ r w', match r with Ok a => Q a w' | Err _ => True end) w.

Lemma wpm_bind {Error A B} (m : Prog E (result A Error)) (f : A → Prog E (result B Error)) Q w :
  wpm m (λ a w', wpm (f a) Q w') w → wpm (bind m f) Q w.
Proof.
  intros HH. apply wp_bind. eapply wp_mono; [|exact HH]. intros [a|e] w' _; [done|]. by intros _.
Qed.
Lemma wpm_lift {Error A} (r : result A Error) (Q : A → World → Prop) w :
  (∀ a, r = Ok a → Q a w) → wpm (lift r) Q w.
Proof. intros HH. destruct r; [by apply HH|done]. Qed.
Lemma wpm_mono {Error A} (m : Prog E (result A Error)) (Q Q' : A → World → Prop) w :
  (∀ a w', l_later w w' → Q a w' → Q' a w') → wpm m Q w → wpm m Q' w.
Proof. intros HQ. apply wp_mono. intros [a|e] w' Hl; [by apply HQ|done]. Qed.

(** [let#] twice is once. *)
Lemma wpm_assoc {Error A B C} (m : Prog E (result A Error)) (f : A → Prog E (result B Error))
    (g : B → Prog E (result C Error)) Q w :
  wpm (bind (bind m f) g) Q w → wpm (bind m (λ x, bind (f x) g)) Q w.
Proof.
  unfold wpm, bind. revert w. induction m as [[a|e]|X e k IH]; intros w HH; [exact HH|exact HH|].
  cbn in *. intros w1 Hl Hi x w2 Ha. destruct (HH w1 Hl Hi x w2 Ha) as (H1 & H2 & H3 & H4).
  split_and!; [done..|]. by apply IH.
Qed.

(** Programs that keep the invariant from anywhere. *)
Definition safe {A} (p : Prog E A) : Prop := ∀ w, wp p top w.

Lemma safe_wp {A} (p : Prog E A) (Q : A → World → Prop) w :
  (∀ a w', l_later w w' → Q a w') → safe p → wp p Q w.
Proof. intros HQ Hs. eapply wp_mono; [|apply Hs]. auto. Qed.
Lemma safe_wpm {Error A B} (m : Prog E (result A Error)) (f : A → Prog E (result B Error)) Q w :
  safe m → (∀ a w', l_later w w' → wpm (f a) Q w') → wpm (bind m f) Q w.
Proof. intros Hs HQ. apply wpm_bind, safe_wp; [|done]. intros [a|] w' Hl; [by apply HQ|done]. Qed.
Lemma wpm_safe {Error A} (m : Prog E (result A Error)) w : wpm m top w → wp m top w.
Proof. apply wp_mono. intros [] w'; done. Qed.
Lemma safe_Done {A} (a : A) : safe (Done a).
Proof. done. Qed.
Lemma safe_bind {A B} (p : Prog E A) (f : A → Prog E B) :
  safe p → (∀ a, safe (f a)) → safe (prog_bind p f).
Proof. intros Hp Hf w. apply wp_bind. eapply wp_mono; [|apply Hp]. intros a w' _ _. apply Hf. Qed.
Lemma safe_bindM {Error A B} (m : Prog E (result A Error)) (f : A → Prog E (result B Error)) :
  safe m → (∀ a, safe (f a)) → safe (bind m f).
Proof. intros Hm Hf. apply safe_bind; [done|]. intros [a|e]; [apply Hf|apply safe_Done]. Qed.
Lemma safe_lift {Error A} (r : result A Error) : safe (lift r). Proof. apply safe_Done. Qed.

(** *** Soundness *)

Definition Sys (s : World * list (Prog E unit)) : Prop := l_inv s.1 ∧ Forall (λ p, wp p top s.1) s.2.

(** What is left to show of a component: programs are spawned safely, and
    the world's own changes keep the invariant and start safe programs. *)
Context (spawned : ∀ X, E X → list (Prog E unit)) (env : World → World → list (Prog E unit) → Prop)
  (spawn_safe : ∀ w X (e : E X), l_inv w → l_spawn_ok w X e → Forall (λ p, wp p top w) (spawned X e))
  (env_safe : ∀ w w' ps, l_inv w → env w w' ps → l_inv w' ∧ l_later w w' ∧ Forall (λ p, wp p top w') ps).

Lemma all_later (ts : list (Prog E unit)) w w' : l_later w w' → Forall (λ p, wp p top w) ts → Forall (λ p, wp p top w') ts.
Proof. intros Hl Ht. eapply Forall_impl; [exact Ht|]. intros p. by apply wp_top_later. Qed.

Lemma Sys_step s s' : step l_answers spawned env s s' → Sys s → Sys s' ∧ l_later s.1 s'.1.
Proof.
  intros Hstep [Hi Ht]. destruct Hstep as [w ts1 X e k ts2 x w' Ha|w w' ps ts He]; cbn [fst snd] in *.
  - apply Forall_app in Ht as [Ht1 [Hp Ht2]%Forall_cons].
    destruct (Hp w (reflexivity w) Hi x w' Ha) as (Hi' & Hl & Hs & Hk).
    split; [|done]. split; [done|]. apply Forall_app. split; [by apply (all_later _ w)|].
    constructor; [done|]. apply Forall_app. split; [by apply (all_later _ w)|by apply spawn_safe].
  - destruct (env_safe _ _ _ Hi He) as (Hi' & Hl & Hps). split; [|done]. split; [done|].
    apply Forall_app. split; [by apply (all_later _ w)|done].
Qed.

Lemma Sys_steps s s' : rtc (step l_answers spawned env) s s' → Sys s → Sys s' ∧ l_later s.1 s'.1.
Proof.
  induction 1 as [s|s1 s2 s3 Hstep Hr IH]; intros Hs; [by split|].
  apply (Sys_step _ _ Hstep) in Hs as [Hs Hl]. apply IH in Hs as [Hs' Hl'].
  split; [done|]. by etransitivity.
Qed.

Lemma wp_runs {A} (p : Prog E A) Q s a s' :
  runs l_answers spawned env p s a s' → Sys s → wp p Q s.1 → Q a s'.1.
Proof.
  induction 1 as [a s|X e k s w ts x w' a s' Hsteps Ha Hr IH]; intros Hs Hp; [done|].
  destruct (Sys_steps _ _ Hsteps Hs) as [[Hi Ht] Hl]. cbn [fst snd] in *.
  destruct (Hp w Hl Hi x w' Ha) as (Hi' & Hl' & Hsp & Hk). apply IH; [|done].
  split; [done|]. apply Forall_app. split; [by apply (all_later _ w)|by apply spawn_safe].
Qed.

(** The worlds that the own steps of a safe program lead to keep the invariant, and
    the run goes through them. *)
Lemma own_steps {A} (p : Prog E A) s own a s' :
  runs_own l_answers spawned env p s own a s' → Sys s → wp p top s.1 →
  l_later s.1 s'.1 ∧ Forall (λ uv, l_inv uv.2 ∧ l_later uv.2 s'.1) own.
Proof.
  induction 1 as [a s|X e k s w ts x w' own a s' Hsteps Ha Hr IH]; intros Hs Hp; [done|].
  destruct (Sys_steps _ _ Hsteps Hs) as [[Hi Ht] Hl]. cbn [fst snd] in *.
  destruct (Hp w Hl Hi x w' Ha) as (Hi' & Hl' & Hsp & Hk). destruct IH as [Hl2 Hown]; [|done|].
  { split; [done|]. apply Forall_app. split; [by apply (all_later _ w)|by apply spawn_safe]. }
  cbn [fst] in *. split; [by do 2 (etransitivity; [eassumption|])|by constructor].
Qed.
End logic.

(** * Programs on their own

    What a program does when nothing is known of the answers it gets: the
    events of a run, a logic for what holds of each event when it happens and of
    the whole run at its end, and a bound on the number of events. *)

Section history.
Context {E : Type → Type} {Event : Type} (event : ∀ X, E X → X → Event).

Inductive ran {A} : Prog E A → list Event → A → Prop :=
| ran_done a : ran (Done a) [] a
| ran_step X (e : E X) k x h a : ran (k x) h a → ran (Step e k) (event X e x :: h) a.

(** After the events [h], [p] only has events that [P] allows, and ends with [Q]
    of its answer and of all the events. *)
Fixpoint traced (P : list Event → Event → Prop) {A} (p : Prog E A) (Q : A → list Event → Prop)
    (h : list Event) : Prop :=
  match p with
  | Done a => Q a h
  | Step e k => ∀ x, P h (event _ e x) ∧ traced P (k x) Q (h ++ [event _ e x])
  end.

Context (P : list Event → Event → Prop).

Lemma traced_bind {A B} (p : Prog E A) (f : A → Prog E B) Q h :
  traced P p (λ a, traced P (f a) Q) h → traced P (prog_bind p f) Q h.
Proof.
  revert h. induction p as [a|X e k IH]; intros h HH; [done|]. intros x. destruct (HH x) as [H1 H2].
  split; [done|]. by apply IH.
Qed.
Lemma traced_mono {A} (p : Prog E A) (Q Q' : A → list Event → Prop) h :
  (∀ a h', Q a h' → Q' a h') → traced P p Q h → traced P p Q' h.
Proof.
  intros HQ. revert h. induction p as [a|X e k IH]; intros h HH; [by apply HQ|].
  intros x. destruct (HH x) as [H1 H2]. split; [done|]. by apply IH.
Qed.
Lemma traced_call {A} X (e : E X) (f : X → Prog E A) Q h :
  (∀ x, P h (event X e x) ∧ traced P (f x) Q (h ++ [event X e x])) →
  traced P (prog_bind (call e) f) Q h.
Proof. done. Qed.
(** For programs with errors. *)
Lemma traced_bindM {Error A B} (m : Prog E (result A Error)) (f : A → Prog E (result B Error)) Q h :
  traced P m (λ r h, match r with Ok a => traced P (f a) Q h | Err e => Q (Err e) h end) h →
  traced P (bind m f) Q h.
Proof. intros HH. apply traced_bind. eapply traced_mono; [|exact HH]. by intros [a|e] h'. Qed.

Lemma traced_ran {A} (p : Prog E A) Q h h' a : ran p h' a → traced P p Q h →
  Q a (h ++ h') ∧ ∀ h1 ev h2, h' = h1 ++ ev :: h2 → P (h ++ h1) ev.
Proof.
  intros Hr. revert h. induction Hr as [a|X e k x h' a Hr IH]; intros h HH.
  - rewrite app_nil_r. split; [done|]. by intros [|] ? ?.
  - destruct (HH x) as [HP Hk]. destruct (IH _ Hk) as [HQ Hh]. rewrite <- app_assoc in HQ. split; [done|].
    intros [|ev' h1] ev h2 Heq; injection Heq as <- Heq; [by rewrite app_nil_r|].
    specialize (Hh h1 ev h2 Heq). by rewrite <- app_assoc in Hh.
Qed.
Lemma traced_runs {A} (p : Prog E A) Q h a : ran p h a → traced P p Q [] →
  Q a h ∧ ∀ h1 ev h2, h = h1 ++ ev :: h2 → P h1 ev.
Proof. intros Hr Ht. exact (traced_ran p Q [] h a Hr Ht). Qed.

(** At most [n] events. *)
Fixpoint within (n : nat) {A} (p : Prog E A) {struct p} : Prop :=
  match p with
  | Done _ => True
  | Step e k => match n with O => False | S n => ∀ x, within n (k x) end
  end.
Lemma within_mono {A} (p : Prog E A) n m : n ≤ m → within n p → within m p.
Proof.
  revert n m. induction p as [a|X e k IH]; intros n m Hn HH; [done|]. destruct n as [|n]; [destruct HH|].
  destruct m as [|m]; [lia|]. intros x. apply (IH x n); [lia|apply HH].
Qed.
Lemma within_bind {A B} (p : Prog E A) (f : A → Prog E B) n m :
  within n p → (∀ a, within m (f a)) → within (n + m) (prog_bind p f).
Proof.
  intros Hp Hf. revert n Hp. induction p as [a|X e k IH]; intros n Hp; cbn [prog_bind].
  - apply (within_mono _ m); [lia|apply Hf].
  - destruct n as [|n]; [destruct Hp|]. intros x. apply IH, Hp.
Qed.
Lemma within_bindM {Error A B} (m : Prog E (result A Error)) (f : A → Prog E (result B Error)) i j :
  within i m → (∀ a, within j (f a)) → within (i + j) (bind m f).
Proof. intros Hm Hf. apply within_bind; [done|]. by intros [a|e]; [apply Hf|]. Qed.
Lemma within_ran {A} (p : Prog E A) n h a : ran p h a → within n p → length h ≤ n.
Proof.
  intros Hr. revert n. induction Hr as [a|X e k x h a Hr IH]; intros n HH; cbn; [lia|].
  destruct n as [|n]; [destruct HH|]. specialize (IH n (HH x)). lia.
Qed.

(** A run against answers that depend on what happened before. *)
Section play.
Context (oracle : list Event → ∀ X, E X → X).

Fixpoint play {A} (p : Prog E A) (before : list Event) : list Event * A :=
  match p with
  | Done a => ([], a)
  | Step e k =>
      let x := oracle before _ e in
      let '(h, a) := play (k x) (before ++ [event _ e x]) in (event _ e x :: h, a)
  end.
Lemma play_ran {A} (p : Prog E A) before : ran p (play p before).1 (play p before).2.
Proof.
  revert before. induction p as [a|X e k IH]; intros before; cbn; [constructor|].
  specialize (IH (oracle before X e) (before ++ [event X e (oracle before X e)])).
  destruct (play _ _) as [h a]. by constructor.
Qed.
End play.
End history.
