(* ===== verification/Credits.v ===== *)
(** * Budgets along runs

    Programs share a stock that effects draw from and return to: [gain] is what
    an effect's answer gives the program that made it, and the world's balance
    never falls by more than programs gain.  [credit p Q n] holds when [p], with
    [n] in hand, never owes and ends with [Q] of its answer and of what it then
    has; so in every state the balance covers what the running programs hold
    ([backed]). *)
From stdpp Require Import base list relations.
From Stdlib Require Import ZArith Lia.
From S2P Require Import Prelude Programs.
#[local] Open Scope Z_scope.

Section only.
Context {E : Type → Type}.

(** Every effect that [p] can have satisfies [P]. *)
Fixpoint only (P : ∀ X, E X → Prop) {A} (p : Prog E A) : Prop :=
  match p with Done _ => True | Step e k => P _ e ∧ ∀ x, only P (k x) end.

Lemma only_bind (P : ∀ X, E X → Prop) {A B} (p : Prog E A) (f : A → Prog E B) :
  only P p → (∀ a, only P (f a)) → only P (prog_bind p f).
Proof.
  intros Hp Hf. induction p as [a|X e k IH]; [apply Hf|]. destruct Hp as [He Hk].
  split; [done|]. intros x. by apply IH.
Qed.
Lemma only_call (P : ∀ X, E X → Prop) {X} (e : E X) : P X e → only P (call e).
Proof. done. Qed.
Lemma only_bindM (P : ∀ X, E X → Prop) {Error A B} (m : Prog E (result A Error))
    (f : A → Prog E (result B Error)) :
  only P m → (∀ a, only P (f a)) → only P (bind m f).
Proof. intros Hm Hf. apply only_bind; [done|]. by intros [a|e]; [apply Hf|]. Qed.
Lemma only_mono (P P' : ∀ X, E X → Prop) {A} (p : Prog E A) :
  (∀ X (e : E X), P X e → P' X e) → only P p → only P' p.
Proof.
  intros HP. induction p as [a|X e k IH]; [done|]. intros [He Hk].
  split; [by apply HP|]. intros x. by apply IH.
Qed.
End only.

(** [only] of a program, along its text; the database has the lemmas for parts
    that are not in it. *)
Create HintDb only.
Ltac head_of t := lazymatch t with ?f _ => head_of f | _ => t end.
Ltac only_auto :=
  cbv zeta;
  lazymatch goal with
  | |- only _ (bind _ _) => apply only_bindM; [only_auto|intros ?; only_auto]
  | |- only _ (prog_bind _ _) => apply only_bind; [only_auto|intros ?; only_auto]
  | |- only _ (call _) => apply only_call; first [exact I|auto with only nocore]
  | |- only _ (Done _) => exact I
  | |- only _ (match ?x with _ => _ end) => destruct x; only_auto
  | |- only _ ?p => first [solve [auto with only nocore]|let h := head_of p in unfold h; only_auto]
  end.

Section credits.
Context {E : Type → Type} (gain : ∀ X, E X → X → Z).

Fixpoint credit {A} (p : Prog E A) (Q : A → Z → Prop) (n : Z) : Prop :=
  match p with
  | Done a => Q a n
  | Step e k => 0 ≤ n ∧ ∀ x, credit (k x) Q (n + gain _ e x)
  end.
(** What is in hand at the end is lost. *)
Definition solvent (p : Prog E unit) (n : Z) : Prop := 0 ≤ n ∧ credit p (λ _ m, 0 ≤ m) n.

Lemma credit_bind {A B} (p : Prog E A) (f : A → Prog E B) Q n :
  credit p (λ a m, credit (f a) Q m) n → credit (prog_bind p f) Q n.
Proof.
  revert n. induction p as [a|X e k IH]; intros n HH; [done|]. destruct HH as [Hn HH].
  split; [done|]. intros x. by apply IH.
Qed.
Lemma credit_mono {A} (p : Prog E A) (Q Q' : A → Z → Prop) n :
  (∀ a m, Q a m → Q' a m) → credit p Q n → credit p Q' n.
Proof.
  intros HQ. revert n. induction p as [a|X e k IH]; intros n HH; [by apply HQ|].
  destruct HH as [Hn HH]. split; [done|]. intros x. by apply IH.
Qed.

(** A program whose effects cost nothing. *)
Lemma credit_free {A} (P : ∀ X, E X → Prop) (p : Prog E A) (Q : A → Z → Prop) n :
  (∀ X (e : E X) x, P X e → 0 ≤ gain X e x) → only P p → 0 ≤ n →
  (∀ a m, n ≤ m → Q a m) → credit p Q n.
Proof.
  intros Hg. revert n. induction p as [a|X e k IH]; intros n Hp Hn HQ; [by apply HQ|].
  destruct Hp as [He Hk]. split; [done|]. intros x. specialize (Hg X e x He).
  apply IH; [done|lia|]. intros a m Hm. apply HQ. lia.
Qed.

Context {World : Type} (answers : World → ∀ X, E X → X → World → Prop)
  (spawned : ∀ X, E X → list (Prog E unit)) (env : World → World → list (Prog E unit) → Prop)
  (balance : World → Z) (good : World → Prop).
Context (answers_balance : ∀ w X (e : E X) x w', good w → answers w X e x w' → balance w + gain X e x ≤ balance w')
  (spawned_solvent : ∀ X (e : E X), Forall (λ p, solvent p 0) (spawned X e))
  (env_balance : ∀ w w' ps, good w → env w w' ps →
     balance w ≤ balance w' ∧ Forall (λ p, solvent p 0) ps).

Definition sum_of (ns : list Z) : Z := foldr Z.add 0 ns.
Definition backed (s : World * list (Prog E unit)) : Prop :=
  ∃ ns, Forall2 solvent s.2 ns ∧ sum_of ns ≤ balance s.1.

Lemma sum_of_app ns ms : sum_of (ns ++ ms) = sum_of ns + sum_of ms.
Proof. induction ns as [|n ns IH]; cbn; [done|]. fold (sum_of (ns ++ ms)) (sum_of ns). lia. Qed.
Lemma solvent_sum ts ns : Forall2 solvent ts ns → 0 ≤ sum_of ns.
Proof. induction 1 as [|t n ts ns [Hn _] _ IH]; cbn; [done|]. fold (sum_of ns). lia. Qed.
(** Programs with nothing in hand. *)
Lemma solvent_zeros ps : Forall (λ p, solvent p 0) ps →
  Forall2 solvent ps (replicate (length ps) 0) ∧ sum_of (replicate (length ps) 0) = 0.
Proof.
  induction 1 as [|p ps Hp _ [IH1 IH2]]; cbn; [done|]. split; [by constructor|]. exact IH2.
Qed.

Lemma credit_nonneg (p : Prog E unit) n : credit p (λ _ m, 0 ≤ m) n → solvent p n.
Proof. intros HH. split; [|done]. destruct p as [a|X e k]; [done|]. apply HH. Qed.

Lemma backed_step s s' : good s.1 → step answers spawned env s s' → backed s → backed s'.
Proof.
  intros Hg Hstep (ns & Hns & Hsum). destruct Hstep as [w ts1 X e k ts2 x w' Ha|w w' ps ts He]; cbn [fst snd] in *.
  - apply Forall2_app_inv_l in Hns as (ns1 & ns2 & Hns1 & Hns2 & ->).
    apply Forall2_cons_inv_l in Hns2 as (n & ns2' & [Hn Hp] & Hns2 & ->). destruct Hp as [_ Hk].
    destruct (solvent_zeros (spawned X e)) as [Hz Hz0]; [apply spawned_solvent|].
    exists (ns1 ++ (n + gain X e x) :: ns2' ++ replicate (length (spawned X e)) 0). split.
    + apply Forall2_app; [done|]. constructor; [apply credit_nonneg, Hk|]. by apply Forall2_app.
    + specialize (answers_balance _ _ _ _ _ Hg Ha). rewrite sum_of_app in *. cbn [sum_of foldr] in *.
      fold (sum_of ns2') in *. fold (sum_of (ns2' ++ replicate (length (spawned X e)) 0)).
      rewrite sum_of_app, Hz0. cbn [fst]. lia.
  - destruct (env_balance _ _ _ Hg He) as [Hb Hps]. destruct (solvent_zeros ps Hps) as [Hz Hz0].
    exists (ns ++ replicate (length ps) 0). split; [by apply Forall2_app|].
    rewrite sum_of_app, Hz0. cbn [fst]. lia.
Qed.

Lemma backed_balance s : backed s → 0 ≤ balance s.1.
Proof. intros (ns & Hns & Hsum). apply solvent_sum in Hns. lia. Qed.
End credits.
