(* ===== verification/Text.v ===== *)
(** * Strings of Rust

    A [str] is its UTF-8 bytes.  The methods the components share: prefixes,
    [split], [trim] over the white space of Unicode, characters and control
    characters. *)
From stdpp Require Import base strings list.
From Stdlib Require Import Ascii ZArith Lia.
From S2P Require Import Prelude.

Fixpoint split_on (sep : ascii) (s : string) : list string :=
  match s with
  | EmptyString => [""]
  | String c s =>
      if Ascii.eqb c sep then "" :: split_on sep s
      else match split_on sep s with
           | l :: ls => String c l :: ls
           | [] => [String c ""]
           end
  end.

Definition has_char (c : ascii) (s : string) : bool :=
  existsb (Ascii.eqb c) (String.list_ascii_of_string s).

Definition ends_with (c : ascii) (s : string) : bool :=
  match last (String.list_ascii_of_string s) with Some x => Ascii.eqb x c | None => false end.

Fixpoint strip_prefix (p s : string) : option string :=
  match p, s with
  | EmptyString, _ => Some s
  | String a p, String b s => if Ascii.eqb a b then strip_prefix p s else None
  | String _ _, EmptyString => None
  end.
(** [split_once] at a text. *)
Fixpoint split_once (sep s : string) : option (string * string) :=
  match strip_prefix sep s with
  | Some rest => Some ("", rest)
  | None =>
      match s with
      | EmptyString => None
      | String c s => (λ p, (String c p.1, p.2)) <$> split_once sep s
      end
  end.

Definition is_digit (c : ascii) : bool :=
  let n := N_of_ascii c in ((48 <=? n) && (n <=? 57))%N.
Definition is_alnum (c : ascii) : bool :=
  let n := N_of_ascii c in
  is_digit c || ((65 <=? n) && (n <=? 90))%N || ((97 <=? n) && (n <=? 122))%N.

Definition DQUOTE : string := String (ascii_of_N 34) "".
Definition quoted (s : string) : string := DQUOTE +:+ s +:+ DQUOTE.

(** [s.as_bytes()]. *)
Definition as_bytes (s : string) : list u8 :=
  (λ c, Z.of_N (N_of_ascii c)) <$> String.list_ascii_of_string s.

(** ** [trim] *)

Fixpoint utf8 (bytes : list N) : string :=
  match bytes with [] => "" | b :: bytes => String (ascii_of_N b) (utf8 bytes) end.
(** The characters with the property White_Space. *)
Definition WHITE_SPACE : list string :=
  utf8 <$> [[9]; [10]; [11]; [12]; [13]; [32]; [194; 133]; [194; 160]; [225; 154; 128];
    [226; 128; 128]; [226; 128; 129]; [226; 128; 130]; [226; 128; 131]; [226; 128; 132];
    [226; 128; 133]; [226; 128; 134]; [226; 128; 135]; [226; 128; 136]; [226; 128; 137];
    [226; 128; 138]; [226; 128; 168]; [226; 128; 169]; [226; 128; 175]; [226; 129; 159];
    [227; 128; 128]]%N.
Fixpoint reverse (acc s : string) : string :=
  match s with EmptyString => acc | String c s => reverse (String c acc) s end.
Fixpoint strip_all (fuel : nat) (ps : list string) (s : string) : string :=
  match fuel with
  | O => s
  | S fuel => match find_map (λ p, strip_prefix p s) ps with
              | Some s' => strip_all fuel ps s'
              | None => s
              end
  end.
Definition trim_start (s : string) : string := strip_all (String.length s) WHITE_SPACE s.
Definition trim_end (s : string) : string :=
  reverse "" (strip_all (String.length s) (reverse "" <$> WHITE_SPACE) (reverse "" s)).
Definition trim (s : string) : string := trim_end (trim_start s).

(** ** Characters *)

(** [chars().count()]: the bytes that continue no character. *)
Definition char_count (s : string) : nat :=
  length (List.filter (λ c, negb (N.shiftr (N_of_ascii c) 6 =? 2)%N) (String.list_ascii_of_string s)).
(** [chars().any(char::is_control)]: U+0000 to U+001F and U+007F to U+009F. *)
Fixpoint has_control (s : string) : bool :=
  match s with
  | EmptyString => false
  | String c s' =>
      let n := N_of_ascii c in
      ((n <? 32) || (n =? 127))%N ||
      match s' with
      | String d _ => (n =? 194)%N && (N_of_ascii d <? 160)%N
      | EmptyString => false
      end || has_control s'
  end.

(** ** Lemmas *)

Lemma strip_prefix_Some p s r : strip_prefix p s = Some r ↔ s = p +:+ r.
Proof.
  revert s. induction p as [|a p IH]; intros s; simpl.
  { split; [by intros [= ->]|by intros ->]. }
  destruct s as [|b s]; [done|].
  destruct (Ascii.eqb a b) eqn:E.
  - apply Ascii.eqb_eq in E as ->. rewrite IH. split; [by intros ->|by intros [= ->]].
  - split; [done|]. intros [= -> _]. by rewrite Ascii.eqb_refl in E.
Qed.
Lemma split_once_Some sep s a b : split_once sep s = Some (a, b) → s = a +:+ sep +:+ b.
Proof.
  revert a. induction s as [|c s IH]; intros a; cbn [split_once].
  - destruct (strip_prefix sep "") eqn:Hs; [|done]. intros [= <- <-]. by apply strip_prefix_Some in Hs.
  - destruct (strip_prefix sep (String c s)) eqn:Hs.
    + intros [= <- <-]. by apply strip_prefix_Some in Hs.
    + destruct (split_once sep s) as [[a' b']|]; [|done]. intros [= <- <-]. cbn.
      by rewrite (IH a' eq_refl).
Qed.

Lemma string_app_cons c (a b : string) : String c a +:+ b = String c (a +:+ b).
Proof. done. Qed.
Lemma string_app_assoc (a b c : string) : (a +:+ b) +:+ c = a +:+ b +:+ c.
Proof. induction a as [|x a IH]; [done|]. by rewrite !string_app_cons, IH. Qed.
Lemma string_app_nil (a : string) : a +:+ "" = a.
Proof. induction a as [|x a IH]; [done|]. by rewrite string_app_cons, IH. Qed.

Lemma has_char_app c a b : has_char c (a +:+ b) = has_char c a || has_char c b.
Proof.
  unfold has_char. induction a as [|x a IH]; [done|].
  rewrite string_app_cons. cbn. by rewrite IH, orb_assoc.
Qed.
Lemma split_on_plain sep a : has_char sep a = false → split_on sep a = [a].
Proof.
  unfold has_char. induction a as [|x a IH]; [done|]. cbn [String.list_ascii_of_string existsb].
  intros [Hx Ha]%orb_false_iff. cbn [split_on]. by rewrite Ascii.eqb_sym, Hx, IH.
Qed.
Lemma split_on_app sep a b : has_char sep a = false →
  split_on sep (a +:+ String sep b) = a :: split_on sep b.
Proof.
  unfold has_char. induction a as [|x a IH]; [|].
  { intros _. change (split_on sep (String sep b) = "" :: split_on sep b). cbn [split_on].
    by rewrite Ascii.eqb_refl. }
  rewrite string_app_cons. cbn [String.list_ascii_of_string existsb split_on].
  intros [Hx Ha]%orb_false_iff. by rewrite Ascii.eqb_sym, Hx, IH.
Qed.

(** *** [reverse] and [trim] *)

Lemma reverse_spec acc s : reverse acc s = reverse "" s +:+ acc.
Proof.
  revert acc. induction s as [|c s IH]; intros acc; [done|]. cbn.
  rewrite (IH (String c acc)), (IH (String c "")), string_app_assoc. done.
Qed.
Lemma reverse_app a b : reverse "" (a +:+ b) = reverse "" b +:+ reverse "" a.
Proof.
  induction a as [|c a IH]; [by rewrite string_app_nil|]. rewrite string_app_cons. cbn [reverse].
  by rewrite reverse_spec, IH, (reverse_spec (String c "") a), string_app_assoc.
Qed.
Lemma reverse_reverse s : reverse "" (reverse "" s) = s.
Proof.
  induction s as [|c s IH]; [done|]. cbn [reverse].
  rewrite (reverse_spec (String c "") s), reverse_app, IH. done.
Qed.

Lemma strip_all_stop fuel ps s : find_map (λ p, strip_prefix p s) ps = None → strip_all fuel ps s = s.
Proof. intros Hn. destruct fuel; cbn; [done|]. by rewrite Hn. Qed.

(** Text that begins and ends with something else is left alone. *)
Lemma trim_same s : find_map (λ p, strip_prefix p s) WHITE_SPACE = None →
  find_map (λ p, strip_prefix p (reverse "" s)) (reverse "" <$> WHITE_SPACE) = None → trim s = s.
Proof.
  intros H1 H2. unfold trim, trim_start, trim_end. rewrite (strip_all_stop _ _ s H1).
  by rewrite strip_all_stop, reverse_reverse.
Qed.
Lemma alnum_not_white c s : is_alnum c = true →
  find_map (λ p, strip_prefix p (String c s)) (reverse "" <$> WHITE_SPACE) = None.
Proof. destruct c as [[] [] [] [] [] [] [] []]; intros Hc; first [discriminate Hc|reflexivity]. Qed.
Lemma trim_alnum a s c : is_alnum a = true → is_alnum c = true → trim (String a (s +:+ String c "")) =
  String a (s +:+ String c "").
Proof.
  intros Ha Hc. apply trim_same.
  - destruct a as [[] [] [] [] [] [] [] []]; first [discriminate Ha|reflexivity].
  - cbn [reverse]. rewrite reverse_spec, reverse_app. by apply alnum_not_white.
Qed.

Lemma as_bytes_inj s t : as_bytes s = as_bytes t → s = t.
Proof.
  unfold as_bytes. revert t. induction s as [|c s IH]; intros [|d t]; simpl; try done.
  intros [= Hc Hs]. apply N2Z.inj in Hc. f_equal; [|by apply IH].
  by rewrite <- (ascii_N_embedding c), Hc, ascii_N_embedding.
Qed.
