(* ===== verification/IpAddr.v ===== *)
(** * IP addresses as text

    What the code uses of [std::net]: [IpAddr::from_str], its [Display] and
    the test for embedded IPv4 addresses.  The parser is the Standard
    Library's, reading the bytes of the text; a parser that fails leaves the
    state it started from, so it is a function to [option]. *)
From stdpp Require Import base list strings pretty.
From Stdlib Require Import ZArith Lia Ascii.
From S2P Require Import Prelude.
#[local] Open Scope Z_scope.

(** An IPv6 address is its eight 16-bit segments. *)
Inductive IpAddr := V4 (a b c d : u8) | V6 (segments : list Z).

#[global] Instance IpAddr_eq_dec : EqDecision IpAddr.
Proof. solve_decision. Defined.

(** ** Parsing *)

(** [char::to_digit]. *)
Definition to_digit (radix : Z) (c : ascii) : option Z :=
  let n := Z.of_N (N_of_ascii c) in
  let d := if (48 <=? n) && (n <=? 57) then Some (n - 48)
           else if (97 <=? n) && (n <=? 122) then Some (n - 87)
           else if (65 <=? n) && (n <=? 90) then Some (n - 55)
           else None in
  match d with Some v => if v <? radix then Some v else None | None => None end.

Fixpoint read_digits (radix : Z) (s : list ascii) : list Z * list ascii :=
  match s with
  | c :: s' =>
      match to_digit radix c with
      | Some d => let (ds, rest) := read_digits radix s' in (d :: ds, rest)
      | None => ([], s)
      end
  | [] => ([], [])
  end.

Definition read_number (radix : Z) (max_digits : nat) (allow_zero_prefix : bool) (bound : Z)
    (s : list ascii) : option (Z * list ascii) :=
  let (ds, rest) := read_digits radix s in
  if (max_digits <? length ds)%nat || (length ds =? 0)%nat then None
  else if negb allow_zero_prefix && bool_decide (head ds = Some 0) && (1 <? length ds)%nat then None
  else
    let v := foldl (λ acc d, acc * radix + d) 0 ds in
    if v <? bound then Some (v, rest) else None.

Definition read_separator {A} (sep : ascii) (index : nat)
    (inner : list ascii → option (A * list ascii)) (s : list ascii) : option (A * list ascii) :=
  match index with
  | O => inner s
  | S _ => match s with
           | c :: s => if Ascii.eqb c sep then inner s else None
           | [] => None
           end
  end.

Definition read_octet (index : nat) : list ascii → option (Z * list ascii) :=
  read_separator "."%char index (read_number 10 3 false 256).

Definition read_ipv4_addr (s : list ascii) : option ((Z * Z * Z * Z) * list ascii) :=
  '(a, s) ← read_octet 0 s; '(b, s) ← read_octet 1 s;
  '(c, s) ← read_octet 2 s; '(d, s) ← read_octet 3 s;
  Some (a, b, c, d, s).

(** [left] slots are left at slot [i]. *)
Fixpoint read_groups (i left : nat) (s : list ascii) : list Z * bool * list ascii :=
  match left with
  | O => ([], false, s)
  | S left' =>
      match (if (1 <? left)%nat then read_separator ":"%char i read_ipv4_addr s else None) with
      | Some ((a, b, c, d), rest) => ([a * 256 + b; c * 256 + d], true, rest)
      | None =>
          match read_separator ":"%char i (read_number 16 4 true 65536) s with
          | Some (g, rest) =>
              let '(gs, v4, rest) := read_groups (S i) left' rest in (g :: gs, v4, rest)
          | None => ([], false, s)
          end
      end
  end.

Definition read_ipv6_addr (s : list ascii) : option (list Z * list ascii) :=
  let '(front, front_v4, s1) := read_groups 0 8 s in
  if (length front =? 8)%nat then Some (front, s1)
  else if front_v4 then None
  else
    match s1 with
    | c1 :: c2 :: s2 =>
        if Ascii.eqb c1 ":" && Ascii.eqb c2 ":" then
          let '(back, _, s3) := read_groups 0 (8 - (length front + 1)) s2 in
          Some (front ++ repeat 0 (8 - length front - length back) ++ back, s3)
        else None
    | _ => None
    end.

Definition read_ip_addr (s : list ascii) : option (IpAddr * list ascii) :=
  match read_ipv4_addr s with
  | Some ((a, b, c, d), rest) => Some (V4 a b c d, rest)
  | None => match read_ipv6_addr s with
            | Some (g, rest) => Some (V6 g, rest)
            | None => None
            end
  end.

(** [str::parse::<IpAddr>]: the whole text has to be read. *)
Definition parse_ip_addr (s : string) : option IpAddr :=
  match read_ip_addr (String.list_ascii_of_string s) with
  | Some (ip, []) => Some ip
  | _ => None
  end.

(** ** Display *)

Definition hex_digit (d : Z) : string :=
  String (ascii_of_N (Z.to_N (if d <? 10 then d + 48 else d + 87))) "".
(** [{:x}] of a 16-bit number. *)
Definition hex_u16 (n : Z) : string :=
  let ds := [n / 4096 mod 16; n / 256 mod 16; n / 16 mod 16] in
  let fix skip l := match l with 0 :: l => skip l | _ => l end in
  String.concat "" (hex_digit <$> skip ds ++ [n mod 16]).

Definition ipv4_to_string (a b c d : u8) : string :=
  pretty a +:+ "." +:+ pretty b +:+ "." +:+ pretty c +:+ "." +:+ pretty d.

(** The first longest run of zero segments: where it starts, and its length. *)
Fixpoint longest_zeros (i : nat) (current longest : nat * nat) (segments : list Z) : nat * nat :=
  match segments with
  | [] => longest
  | g :: segments =>
      if g =? 0 then
        let current := (if (current.2 =? 0)%nat then i else current.1, S current.2) in
        longest_zeros (S i) current (if (longest.2 <? current.2)%nat then current else longest)
          segments
      else longest_zeros (S i) (0%nat, 0%nat) longest segments
  end.

Definition segments_to_string (segments : list Z) : string :=
  String.concat ":" (hex_u16 <$> segments).

Definition to_ipv4_mapped (segments : list Z) : option (Z * Z * Z * Z) :=
  match segments with
  | [0; 0; 0; 0; 0; 65535; x; y] => Some (x / 256, x mod 256, y / 256, y mod 256)
  | _ => None
  end.

Definition ipv6_to_string (segments : list Z) : string :=
  match to_ipv4_mapped segments with
  | Some (a, b, c, d) => "::ffff:" +:+ ipv4_to_string a b c d
  | None =>
      let (start, len) := longest_zeros 0 (0%nat, 0%nat) (0%nat, 0%nat) segments in
      if (1 <? len)%nat then
        segments_to_string (take start segments) +:+ "::" +:+
        segments_to_string (drop (start + len) segments)
      else segments_to_string segments
  end.

Definition ip_to_string (ip : IpAddr) : string :=
  match ip with V4 a b c d => ipv4_to_string a b c d | V6 g => ipv6_to_string g end.

(** [is_ipv4_embedded] of [crates/ostrich-acme/src/identifier.rs]; with six
    zero segments, [to_bits] is the number in the last two. *)
Definition is_ipv4_embedded (segments : list Z) : bool :=
  match to_ipv4_mapped segments with
  | Some _ => true
  | None => forallb (Z.eqb 0) (take 6 segments) &&
            (1 <? foldl (λ acc g, acc * 65536 + g) 0 (drop 6 segments))
  end.

(** ** Tests *)

Example parse_v4 : parse_ip_addr "192.0.2.1" = Some (V4 192 0 2 1).
Proof. reflexivity. Qed.
Example parse_v4_octal : parse_ip_addr "192.0.2.01" = None.
Proof. reflexivity. Qed.
Example parse_v4_short : parse_ip_addr "127.1" = None.
Proof. reflexivity. Qed.
Example parse_v6 : parse_ip_addr "2001:db8::1" = Some (V6 [8193; 3512; 0; 0; 0; 0; 0; 1]).
Proof. reflexivity. Qed.
Example parse_v6_mapped : parse_ip_addr "::ffff:192.0.2.1" = Some (V6 [0; 0; 0; 0; 0; 65535; 49152; 513]).
Proof. reflexivity. Qed.
Example show_v6 : ip_to_string (V6 [8193; 3512; 0; 0; 1; 0; 0; 1]) = "2001:db8::1:0:0:1".
Proof. reflexivity. Qed.
Example show_v6_unspecified : ip_to_string (V6 [0; 0; 0; 0; 0; 0; 0; 0]) = "::".
Proof. reflexivity. Qed.
Example show_v6_mapped : ip_to_string (V6 [0; 0; 0; 0; 0; 65535; 49152; 513]) = "::ffff:192.0.2.1".
Proof. reflexivity. Qed.
Example embedded_compat : is_ipv4_embedded [0; 0; 0; 0; 0; 0; 49152; 513] = true.
Proof. reflexivity. Qed.
Example embedded_loopback : is_ipv4_embedded [0; 0; 0; 0; 0; 0; 0; 1] = false.
Proof. reflexivity. Qed.
