(* ===== verification/AcmeIdentifier.v ===== *)
(** * ACME order identifiers

    [crates/ostrich-acme/src/identifier.rs] with the DNS name rules of
    [validation.rs] it uses, and the errors of [error.rs].  A string is its
    bytes; every character the code looks for is ASCII.  Whether
    [hickory_proto] reads a DNS name is the class [HickoryName]. *)
From stdpp Require Import base list strings gmap pretty.
From Stdlib Require Import ZArith Lia Ascii.
From S2P Require Import Prelude Text IpAddr.
#[local] Open Scope Z_scope.

(** ** Errors *)

Inductive Error :=
| AccountDoesNotExist | AlreadyRevoked | BadCsr (s : string) | BadNonce | BadPublicKey
| BadRevocationReason | BadSignatureAlgorithm | Caa (s : string) | Connection (s : string)
| Dns (s : string) | ExternalAccountRequired | IncorrectResponse (s : string)
| InvalidContact (s : string) | Malformed (s : string) | OrderNotReady | RateLimited
| RejectedIdentifier (s : string) | ServerInternal (s : string) | Tls (s : string)
| Unauthorized (s : string) | UnsupportedContact (s : string) | UnsupportedIdentifier (s : string)
| UserActionRequired (s : string) | NotFound | Database (e : string) | Common (e : string).

Definition acme_urn (s : string) : string := "urn:ietf:params:acme:error:" +:+ s.

Definition error_type (e : Error) : string :=
  acme_urn
    match e with
    | AccountDoesNotExist => "accountDoesNotExist" | AlreadyRevoked => "alreadyRevoked"
    | BadCsr _ => "badCSR" | BadNonce => "badNonce" | BadPublicKey => "badPublicKey"
    | BadRevocationReason => "badRevocationReason"
    | BadSignatureAlgorithm => "badSignatureAlgorithm" | Caa _ => "caa"
    | Connection _ => "connection" | Dns _ => "dns"
    | ExternalAccountRequired => "externalAccountRequired"
    | IncorrectResponse _ => "incorrectResponse" | InvalidContact _ => "invalidContact"
    | Malformed _ => "malformed" | OrderNotReady => "orderNotReady" | RateLimited => "rateLimited"
    | RejectedIdentifier _ => "rejectedIdentifier" | ServerInternal _ => "serverInternal"
    | Tls _ => "tls" | Unauthorized _ => "unauthorized" | UnsupportedContact _ => "unsupportedContact"
    | UnsupportedIdentifier _ => "unsupportedIdentifier"
    | UserActionRequired _ => "userActionRequired"
    | NotFound => "serverInternal" | Database _ | Common _ => "serverInternal"
    end.

Definition status_code (e : Error) : Z :=
  match e with
  | Caa _ | ExternalAccountRequired | OrderNotReady | UserActionRequired _ => 403
  | RateLimited => 429
  | ServerInternal _ | Database _ | Common _ => 500
  | Unauthorized _ => 401
  | NotFound => 404
  | AccountDoesNotExist | AlreadyRevoked | BadCsr _ | BadNonce | BadPublicKey
  | BadRevocationReason | BadSignatureAlgorithm | Connection _ | Dns _ | IncorrectResponse _
  | InvalidContact _ | Malformed _ | RejectedIdentifier _ | Tls _ | UnsupportedContact _
  | UnsupportedIdentifier _ => 400
  end.

Definition is_internal (e : Error) : bool :=
  match e with Database _ | Common _ | ServerInternal _ => true | _ => false end.

(** [Display]. *)
Definition error_to_string (e : Error) : string :=
  match e with
  | AccountDoesNotExist => "Account does not exist" | AlreadyRevoked => "Already revoked"
  | BadCsr s => "Bad CSR: " +:+ s | BadNonce => "Bad nonce" | BadPublicKey => "Bad public key"
  | BadRevocationReason => "Bad revocation reason"
  | BadSignatureAlgorithm => "Bad signature algorithm" | Caa s => "CAA error: " +:+ s
  | Connection s => "Connection error: " +:+ s | Dns s => "DNS error: " +:+ s
  | ExternalAccountRequired => "External account required"
  | IncorrectResponse s => "Incorrect response: " +:+ s
  | InvalidContact s => "Invalid contact: " +:+ s | Malformed s => "Malformed request: " +:+ s
  | OrderNotReady => "Order not ready" | RateLimited => "Rate limited"
  | RejectedIdentifier s => "Rejected identifier: " +:+ s
  | ServerInternal s => "Server internal error: " +:+ s | Tls s => "TLS error: " +:+ s
  | Unauthorized s => "Unauthorized: " +:+ s
  | UnsupportedContact s => "Unsupported contact: " +:+ s
  | UnsupportedIdentifier s => "Unsupported identifier: " +:+ s
  | UserActionRequired s => "User action required: " +:+ s | NotFound => "Resource not found"
  | Database s => "Database error: " +:+ s | Common s => "Common error: " +:+ s
  end.

Definition client_detail (e : Error) : string :=
  if is_internal e then "Internal server error" else error_to_string e.

(** ** DNS names (validation.rs) *)

Definition MAX_LABEL_LEN : nat := 63.
Definition MAX_DOMAIN_LEN : nat := 253.
Definition ACME_CHALLENGE_LABEL : string := "_acme-challenge".

Definition is_ldh_label (label : string) : bool :=
  let bytes := String.list_ascii_of_string label in
  match head bytes, last bytes with
  | Some first, Some final =>
      (length bytes <=? MAX_LABEL_LEN)%nat && negb (Ascii.eqb first "-") &&
      negb (Ascii.eqb final "-") && forallb (λ b, is_alnum b || Ascii.eqb b "-") bytes
  | _, _ => false
  end.

Inductive DnsIdentifierViolation := Syntax | IpLiteral.

Definition dns_identifier_violation (d : string) : option DnsIdentifierViolation :=
  if bool_decide (d = "") || ends_with "." d || (MAX_DOMAIN_LEN <? String.length d)%nat then
    Some Syntax
  else if bool_decide (parse_ip_addr d ≠ None) then Some IpLiteral
  else if negb (forallb is_ldh_label (split_on "." d)) then Some Syntax
  else if forallb is_digit (String.list_ascii_of_string (default "" (last (split_on "." d)))) then
    Some Syntax
  else None.

Definition validate_dns_identifier (domain : string) : result unit Error :=
  match dns_identifier_violation domain with
  | None => Ok tt
  | Some Syntax => Err (Malformed "dns identifier is not a valid DNS name")
  | Some IpLiteral => Err (Malformed ("IP address identifiers must use identifier type " +:+ quoted "ip"))
  end.

(** [hickory_proto]'s [Name]. *)
Class HickoryName := {
  Name : Type;
  from_ascii : string → option Name;
  is_fqdn : Name → bool
}.

Section identifier.
Context `{!HickoryName}.

Definition dns01_query_name (domain : string) : result Name Error :=
  let malformed := Malformed "dns-01 identifier is not a valid DNS name" in
  match dns_identifier_violation domain with
  | Some Syntax => Err malformed
  | Some IpLiteral => Err (Malformed "dns-01 is not valid for IP address identifiers")
  | None =>
      let? name := ok_or (from_ascii (ACME_CHALLENGE_LABEL +:+ "." +:+ domain +:+ ".")) malformed in
      if is_fqdn name then Ok name else Err malformed
  end.

(** ** Order identifiers (identifier.rs, order.rs) *)

Record Identifier := { id_type : string; value : string }.

Definition MAX_ORDER_IDENTIFIERS : nat := 100.
Definition WILDCARD_PREFIX : string := "*.".
Definition MAX_DNS_NAME_LEN : nat := 253.
Definition DNS_CHALLENGES : list string := ["http-01"; "dns-01"; "tls-alpn-01"].
Definition DNS_CHALLENGES_NO_DNS01 : list string := ["http-01"; "tls-alpn-01"].
Definition WILDCARD_CHALLENGES : list string := ["dns-01"].
Definition IP_CHALLENGES : list string := ["http-01"].

Record AuthzIdentifier := { az_type : string; az_value : string; az_wildcard : bool }.

Definition challenge_types (a : AuthzIdentifier) : list string :=
  if bool_decide (az_type a = "ip") then IP_CHALLENGES
  else if az_wildcard a then WILDCARD_CHALLENGES
  else if negb (is_ok (dns01_query_name (az_value a))) then DNS_CHALLENGES_NO_DNS01
  else DNS_CHALLENGES.

Definition parse_dns (value : string) : result AuthzIdentifier Error :=
  if (MAX_DNS_NAME_LEN <? String.length value)%nat then
    Err (Malformed "dns identifier is not a valid DNS name")
  else
    let '(base, wildcard) := match strip_prefix WILDCARD_PREFIX value with
                             | Some base => (base, true)
                             | None => (value, false)
                             end in
    if has_char "*" base then
      Err (RejectedIdentifier ("only a single leftmost " +:+ quoted "*." +:+
             " wildcard label is supported"))
    else
      let? _ := validate_dns_identifier base in
      if wildcard && negb (has_char "." base) then
        Err (RejectedIdentifier ("wildcard identifiers must have at least two labels after " +:+
               quoted "*."))
      else
        let? _ := if (wildcard : bool) then
                    match dns01_query_name base with
                    | Ok _ => Ok tt
                    | Err _ => Err (Malformed "wildcard base domain is too long for dns-01")
                    end
                  else Ok tt in
        Ok {| az_type := "dns"; az_value := base; az_wildcard := wildcard |}.

Definition parse_ip (value : string) : result AuthzIdentifier Error :=
  let malformed := Malformed "ip identifier is not a canonical IP address" in
  let? ip := ok_or (parse_ip_addr value) malformed in
  if negb (bool_decide (ip_to_string ip = value)) then Err malformed
  else if match ip with V6 v6 => is_ipv4_embedded v6 | V4 _ _ _ _ => false end then
    Err (RejectedIdentifier "IPv4-mapped or IPv4-compatible IPv6 identifiers are not supported; use the IPv4 address")
  else Ok {| az_type := "ip"; az_value := value; az_wildcard := false |}.

Definition parse_order_identifier (id : Identifier) : result AuthzIdentifier Error :=
  if bool_decide (id_type id = "dns") then parse_dns (value id)
  else if bool_decide (id_type id = "ip") then parse_ip (value id)
  else Err (UnsupportedIdentifier ("only " +:+ quoted "dns" +:+ " and " +:+ quoted "ip" +:+
              " identifier types are supported")).

(** What [validate_order_identifiers] compares for duplicates, and the
    finalize check for binding. *)
Definition Key : Type := string * string * bool.
Definition authz_key (a : AuthzIdentifier) : Key :=
  (az_type a, to_ascii_lowercase (az_value a), az_wildcard a).

Definition duplicate_error : Error :=
  Malformed "Identifiers list contains a duplicate identifier".

Fixpoint validate_loop (ids : list Identifier) (seen : gset Key) (out : list AuthzIdentifier)
    : result (list AuthzIdentifier) Error :=
  match ids with
  | [] => Ok out
  | id :: ids =>
      let? authz := parse_order_identifier id in
      if bool_decide (authz_key authz ∈ seen) then Err duplicate_error
      else validate_loop ids ({[authz_key authz]} ∪ seen) (out ++ [authz])
  end.

Definition validate_order_identifiers (ids : list Identifier)
    : result (list AuthzIdentifier) Error :=
  if (length ids =? 0)%nat then Err (Malformed "Identifiers list cannot be empty")
  else if (MAX_ORDER_IDENTIFIERS <? length ids)%nat then
    Err (Malformed ("an order may contain at most " +:+ pretty MAX_ORDER_IDENTIFIERS +:+
           " identifiers"))
  else validate_loop ids ∅ [].
End identifier.

(** ** Lemmas *)

Lemma lowercase_app s t :
  to_ascii_lowercase (s +:+ t) = to_ascii_lowercase s +:+ to_ascii_lowercase t.
Proof. induction s as [|c s IH]; simpl; [done|]. by rewrite IH. Qed.

Lemma ascii_lower_idem c : ascii_lower (ascii_lower c) = ascii_lower c.
Proof. destruct c as [[] [] [] [] [] [] [] []]; reflexivity. Qed.
Lemma lowercase_idem s : to_ascii_lowercase (to_ascii_lowercase s) = to_ascii_lowercase s.
Proof. induction s as [|c s IH]; simpl; [done|]. by rewrite IH, ascii_lower_idem. Qed.

(** The text an authorization identifier stands for in its order. *)
Definition order_value (a : AuthzIdentifier) : string :=
  (if az_wildcard a then WILDCARD_PREFIX else "") +:+ az_value a.

(** What the newOrder policy makes of an accepted identifier. *)
Inductive accepted `{!HickoryName} (id : Identifier) (a : AuthzIdentifier) : Prop :=
| accepted_dns :
    id_type id = "dns" → az_type a = "dns" → value id = order_value a →
    (String.length (value id) ≤ MAX_DNS_NAME_LEN)%nat →
    has_char "*" (az_value a) = false → dns_identifier_violation (az_value a) = None →
    (az_wildcard a = true →
       has_char "." (az_value a) = true ∧ is_ok (dns01_query_name (az_value a)) = true) →
    (az_wildcard a = false → strip_prefix WILDCARD_PREFIX (value id) = None) →
    accepted id a
| accepted_ip ip :
    id_type id = "ip" → az_type a = "ip" → az_value a = value id → az_wildcard a = false →
    parse_ip_addr (value id) = Some ip → ip_to_string ip = value id →
    (∀ v6, ip = V6 v6 → is_ipv4_embedded v6 = false) →
    accepted id a.

Section identifier_lemmas.
Context `{!HickoryName}.

Lemma validate_dns_identifier_Ok d :
  validate_dns_identifier d = Ok tt ↔ dns_identifier_violation d = None.
Proof. unfold validate_dns_identifier. destruct (dns_identifier_violation d) as [[]|]; naive_solver. Qed.

Lemma parse_dns_Ok v a :
  parse_dns v = Ok a ↔ accepted {| id_type := "dns"; value := v |} a.
Proof.
  unfold parse_dns. split.
  - intros HH. destruct (_ <? _)%nat eqn:Hlen; [done|]. apply Nat.ltb_ge in Hlen.
    destruct (strip_prefix WILDCARD_PREFIX v) as [base|] eqn:Hs; cbn beta iota in HH.
    all: destruct (has_char "*" _) eqn:Hstar; [done|].
    all: apply res_bind_Ok in HH as ([] & Hv%validate_dns_identifier_Ok & HH).
    + cbn [andb] in HH. destruct (has_char "." base) eqn:Hdot; cbn [negb] in HH; [|done].
      destruct (dns01_query_name base) eqn:Hq; cbn [res_bind] in HH; [|done].
      injection HH as <-. apply accepted_dns; cbn; try done.
      * by apply strip_prefix_Some.
      * intros _. by rewrite Hq.
    + cbn in HH. injection HH as <-. by apply accepted_dns.
  - intros [Ht Hat Hv Hl Hst Hd Hw Hn|]; [|done]. cbn [id_type value az_type az_value az_wildcard] in *.
    replace (_ <? _)%nat with false by (symmetry; by apply Nat.ltb_ge).
    destruct a as [at' av aw]. cbn [id_type value az_type az_value az_wildcard] in *. subst at'. unfold order_value in Hv.
    destruct aw; cbn [az_wildcard az_value] in Hv.
    + replace (strip_prefix WILDCARD_PREFIX v) with (Some av)
        by (symmetry; by apply strip_prefix_Some).
      destruct (Hw eq_refl) as [Hdot Hq]. rewrite Hst.
      rewrite (proj2 (validate_dns_identifier_Ok _) Hd). cbn. rewrite Hdot. cbn.
      destruct (dns01_query_name av); [done|done].
    + change ("" +:+ av) with av in Hv. subst v. rewrite Hn by done. rewrite Hst.
      by rewrite (proj2 (validate_dns_identifier_Ok _) Hd).
Qed.

Lemma parse_ip_Ok v a :
  parse_ip v = Ok a ↔ accepted {| id_type := "ip"; value := v |} a.
Proof.
  unfold parse_ip. split.
  - intros (ip & Hip & HH)%res_bind_Ok. destruct (parse_ip_addr v) as [x|] eqn:Hp; [|done].
    injection Hip as <-. case_bool_decide as Hc; cbn [negb] in HH; [|done].
    destruct x as [b c d e|v6].
    + injection HH as <-. by eapply accepted_ip.
    + destruct (is_ipv4_embedded v6) eqn:He; [done|]. injection HH as <-.
      eapply accepted_ip; cbn; try done. by intros v' [= <-].
  - intros [|ip Ht Hat Hv Hw Hp Hc He]; [done|]. cbn in *. rewrite Hp. cbn.
    rewrite bool_decide_eq_true_2 by done. cbn. destruct a as [x y z]. cbn in *. subst.
    destruct ip as [|v6]; [done|]. by rewrite He.
Qed.

Lemma parse_order_identifier_Ok id a : parse_order_identifier id = Ok a ↔ accepted id a.
Proof.
  destruct id as [ty v]. unfold parse_order_identifier. cbn.
  case_bool_decide as H1; [subst; apply parse_dns_Ok|].
  case_bool_decide as H2; [subst; apply parse_ip_Ok|].
  split; [done|]. by intros [].
Qed.

Lemma accepted_types id a : accepted id a → id_type id = az_type a ∧ value id = order_value a.
Proof.
  intros [H1 H2 H3|ip H1 H2 H3 H4 H5 H6 H7]; [by rewrite H1, H2|]. unfold order_value. rewrite H4, H1, H2. by rewrite H3.
Qed.

(** Keys separate identifiers up to the case of DNS names. *)
Lemma authz_key_spec id a id' a' :
  accepted id a → accepted id' a' →
  authz_key a = authz_key a' →
  id_type id = id_type id' ∧ to_ascii_lowercase (value id) = to_ascii_lowercase (value id').
Proof.
  intros [Ht Hv]%accepted_types [Ht' Hv']%accepted_types [= H1 H2 H3].
  rewrite Ht, Ht', Hv, Hv'. split; [done|]. unfold order_value. by rewrite !lowercase_app, H2, H3.
Qed.

(** The first reason to refuse a list. *)
Definition refused_at (ids : list Identifier) (e : Error) : Prop :=
  ∃ pre id post auths, ids = pre ++ id :: post ∧ Forall2 accepted pre auths ∧
    NoDup (authz_key <$> auths) ∧
    (parse_order_identifier id = Err e ∨
     ∃ a, accepted id a ∧ authz_key a ∈ authz_key <$> auths ∧ e = duplicate_error).

Lemma validate_loop_spec ids pre out r :
  Forall2 accepted pre out → NoDup (authz_key <$> out) →
  validate_loop ids (list_to_set (authz_key <$> out)) out = r →
  match r with
  | Ok auths => Forall2 accepted (pre ++ ids) auths ∧ NoDup (authz_key <$> auths)
  | Err e => refused_at (pre ++ ids) e
  end.
Proof.
  revert pre out r. induction ids as [|id ids IH]; intros pre out r Hf Hn <-; cbn [validate_loop].
  { by rewrite app_nil_r. }
  destruct (parse_order_identifier id) as [a|e] eqn:Hp; cbn [res_bind].
  2:{ exists pre, id, ids, out. naive_solver. }
  apply parse_order_identifier_Ok in Hp. case_bool_decide as Hin.
  - apply elem_of_list_to_set in Hin. exists pre, id, ids, out. split_and!; [done..|]. right. by exists a.
  - rewrite elem_of_list_to_set in Hin.
    replace ({[authz_key a]} ∪ list_to_set (authz_key <$> out)) with
      (list_to_set (C := gset Key) (authz_key <$> out ++ [a])) by (rewrite fmap_app; set_solver).
    change (id :: ids) with ([id] ++ ids). rewrite (app_assoc pre). apply (IH (pre ++ [id]) (out ++ [a])); [| |done].
    + apply Forall2_app; [done|]. by constructor.
    + rewrite fmap_app. apply NoDup_app. split_and!; [done| |apply NoDup_singleton].
      by intros x Hx ->%list_elem_of_singleton.
Qed.

(** The first reason is unique, so the description of the result is complete. *)
Lemma validate_order_identifiers_loop ids :
  ids ≠ [] → (length ids ≤ MAX_ORDER_IDENTIFIERS)%nat →
  match validate_order_identifiers ids with
  | Ok auths => Forall2 accepted ids auths ∧ NoDup (authz_key <$> auths)
  | Err e => refused_at ids e
  end.
Proof.
  intros Hne Hlen. unfold validate_order_identifiers.
  replace (length ids =? 0)%nat with false by (destruct ids; [done|reflexivity]).
  replace (_ <? _)%nat with false by (symmetry; by apply Nat.ltb_ge).
  exact (validate_loop_spec ids [] [] _ (List.Forall2_nil _) NoDup_nil_2 eq_refl).
Qed.
Lemma accepted_inj id a a' : accepted id a → accepted id a' → a = a'.
Proof. intros H1%parse_order_identifier_Ok H2%parse_order_identifier_Ok. congruence. Qed.

Lemma refused_not_accepted ids e auths :
  refused_at ids e → Forall2 accepted ids auths → NoDup (authz_key <$> auths) → False.
Proof.
  intros (pre & id & post & out & -> & Hpre & Hn & Hr) Hall Hk.
  apply Forall2_app_inv_l in Hall as (l1 & l2 & H1 & H2 & ->).
  inversion H2 as [|? a ? l3 Ha Hpost]; subst.
  assert (l1 = out) as ->.
  { clear -Hpre H1. revert l1 H1. induction Hpre as [|x y l k Hx Hl IH]; intros l1 HH;
      inversion HH as [|? z ? m Hz Hm]; subst; [done|].
    rewrite (accepted_inj x z y) by done. f_equal. by apply IH. }
  rewrite fmap_app in Hk. apply NoDup_app in Hk as (_ & Hdis & _).
  destruct Hr as [Hr|(a' & Ha' & Hin & _)].
  - apply parse_order_identifier_Ok in Ha. congruence.
  - rewrite (accepted_inj _ _ _ Ha Ha') in Hdis. apply (Hdis _ Hin). cbn. apply list_elem_of_here.
Qed.

(** The kinds of error a bad identifier list gives. *)
Definition identifier_error (e : Error) : Prop :=
  match e with Malformed _ | UnsupportedIdentifier _ | RejectedIdentifier _ => True | _ => False end.

Lemma parse_order_identifier_Err id e : parse_order_identifier id = Err e → identifier_error e.
Proof.
  unfold parse_order_identifier, parse_dns, parse_ip, validate_dns_identifier, res_bind, ok_or.
  intros HH. repeat (case_match; simplify_eq; try done).
Qed.

Lemma validate_order_identifiers_Err ids e :
  validate_order_identifiers ids = Err e → identifier_error e.
Proof.
  unfold validate_order_identifiers. case_match; [by intros [= <-]|]. case_match; [by intros [= <-]|].
  generalize (∅ : gset Key) ([] : list AuthzIdentifier). clear.
  induction ids as [|id l IH]; intros seen out; cbn [validate_loop]; [done|].
  destruct (parse_order_identifier id) as [a|e'] eqn:Hp; cbn [res_bind].
  - case_bool_decide; [by intros [= <-]|]. apply IH.
  - intros [= <-]. by eapply parse_order_identifier_Err.
Qed.
End identifier_lemmas.

(** ** Properties *)

Lemma order_identifiers_lemma `{!HickoryName} ids :
  (∀ auths, validate_order_identifiers ids = Ok auths ↔
     ids ≠ [] ∧ (length ids ≤ MAX_ORDER_IDENTIFIERS)%nat ∧ Forall2 accepted ids auths ∧
     NoDup (authz_key <$> auths)) ∧
  (∀ e, validate_order_identifiers ids = Err e →
     identifier_error e ∧
     (ids ≠ [] → (length ids ≤ MAX_ORDER_IDENTIFIERS)%nat → refused_at ids e)).
Proof.
  split.
  - intros auths. split.
    + intros HH. assert (ids ≠ [] ∧ (length ids ≤ MAX_ORDER_IDENTIFIERS)%nat) as [Hne Hlen].
      { unfold validate_order_identifiers in HH. destruct (_ =? 0)%nat eqn:H1 in HH; [done|].
        destruct (_ <? _)%nat eqn:H2 in HH; [done|]. apply Nat.ltb_ge in H2. by destruct ids. }
      pose proof (validate_order_identifiers_loop ids Hne Hlen) as Hl. by rewrite HH in Hl.
    + intros (Hne & Hlen & Hall & Hk).
      pose proof (validate_order_identifiers_loop ids Hne Hlen) as Hl.
      destruct (validate_order_identifiers ids) as [auths'|e].
      * destruct Hl as [Hl _]. f_equal. clear -Hall Hl. revert auths Hall.
        induction Hl as [|x y l k Hx Hl IH]; intros auths HH; inversion HH as [|? z ? m Hz Hm];
          subst; [done|]. rewrite (accepted_inj x z y) by done. f_equal. by apply IH.
      * by destruct (refused_not_accepted _ _ _ Hl Hall Hk).
  - intros e HH. split; [by eapply validate_order_identifiers_Err|]. intros Hne Hlen.
    pose proof (validate_order_identifiers_loop ids Hne Hlen) as Hl. by rewrite HH in Hl.
Qed.

(** C27. [validate_order_identifiers] answers every list as the newOrder policy
    says: with one authorization per identifier, in order and under different
    keys, exactly when the list has between 1 and 100 identifiers, each
    acceptable and no two the same up to the case of DNS names; otherwise
    with the first reason to refuse it. *)
Theorem validate_order_identifiers_spec `{!HickoryName} ids :
  (∀ auths, validate_order_identifiers ids = Ok auths ↔
     ids ≠ [] ∧ (length ids ≤ MAX_ORDER_IDENTIFIERS)%nat ∧ Forall2 accepted ids auths ∧
     NoDup (authz_key <$> auths)) ∧
  (∀ e, validate_order_identifiers ids = Err e →
     identifier_error e ∧
     (ids ≠ [] → (length ids ≤ MAX_ORDER_IDENTIFIERS)%nat → refused_at ids e)).
Proof. apply order_identifiers_lemma. Qed.
