(* ===== verification/AddressGuard.v ===== *)
(** * Addresses that challenges may not reach

    [is_disallowed_ip] and the rules for resolvers of
    [crates/ostrich-acme/src/validation.rs], with the classification of
    [std::net::Ipv4Addr] and [Ipv6Addr] that they use, and the address ranges
    that they amount to. *)
From stdpp Require Import base strings list pretty.
From Stdlib Require Import ZArith Lia.
From S2P Require Import Prelude IpAddr AcmeIdentifier.
#[local] Open Scope Z_scope.

(** ** [std::net] *)

Definition v4_is_unspecified (a b c d : u8) : bool := (a =? 0) && (b =? 0) && (c =? 0) && (d =? 0).
Definition v4_is_loopback (a : u8) : bool := a =? 127.
Definition v4_is_private (a b : u8) : bool :=
  (a =? 10) || (a =? 172) && (16 <=? b) && (b <=? 31) || (a =? 192) && (b =? 168).
Definition v4_is_link_local (a b : u8) : bool := (a =? 169) && (b =? 254).
Definition v4_is_broadcast (a b c d : u8) : bool := (a =? 255) && (b =? 255) && (c =? 255) && (d =? 255).
Definition v4_is_documentation (a b c : u8) : bool :=
  (a =? 192) && (b =? 0) && (c =? 2) || (a =? 198) && (b =? 51) && (c =? 100) ||
  (a =? 203) && (b =? 0) && (c =? 113).
Definition v4_is_multicast (a : u8) : bool := (224 <=? a) && (a <=? 239).
Definition segment (i : nat) (segments : list Z) : Z := default 0 (segments !! i).
Definition v6_is_unspecified (segments : list Z) : bool := forallb (Z.eqb 0) segments.
Definition v6_is_loopback (segments : list Z) : bool :=
  forallb (Z.eqb 0) (take 7 segments) && (segment 7 segments =? 1).
Definition v6_is_multicast (segments : list Z) : bool := Z.land (segment 0 segments) 0xff00 =? 0xff00.
(** [IpAddr::to_canonical]. *)
Definition to_canonical (ip : IpAddr) : IpAddr :=
  match ip with
  | V4 _ _ _ _ => ip
  | V6 s => match to_ipv4_mapped s with Some (a, b, c, d) => V4 a b c d | None => ip end
  end.

(** ** The guard *)

Definition is_disallowed_v4 (a b c d : u8) : bool :=
  v4_is_unspecified a b c d || v4_is_loopback a || v4_is_private a b || v4_is_link_local a b ||
  v4_is_broadcast a b c d || v4_is_documentation a b c || v4_is_multicast a || (a =? 0) ||
  (a =? 100) && ((64 <=? b) && (b <? 128)) || (a =? 192) && (b =? 0) && (c =? 0) || (240 <=? a).
Definition is_disallowed_ip (ip : IpAddr) : bool :=
  match ip with
  | V4 a b c d => is_disallowed_v4 a b c d
  | V6 s =>
      match to_ipv4_mapped s with
      | Some (a, b, c, d) => is_disallowed_v4 a b c d
      | None =>
          v6_is_unspecified s || v6_is_loopback s || v6_is_multicast s ||
          (Z.land (segment 0 s) 0xfe00 =? 0xfc00) || (Z.land (segment 0 s) 0xffc0 =? 0xfe80)
      end
  end.

(** ** Resolvers *)

Definition MAX_DNS01_RESOLVERS : nat := 8.
Definition is_unspecified (ip : IpAddr) : bool :=
  match ip with V4 a b c d => v4_is_unspecified a b c d | V6 s => v6_is_unspecified s end.
Definition is_multicast (ip : IpAddr) : bool :=
  match ip with V4 a _ _ _ => v4_is_multicast a | V6 s => v6_is_multicast s end.
Definition is_broadcast (ip : IpAddr) : bool :=
  match ip with V4 a b c d => v4_is_broadcast a b c d | V6 _ => false end.
Fixpoint resolver_loop (ips seen : list IpAddr) : result unit Error :=
  match ips with
  | [] => Ok tt
  | ip :: ips =>
      let canonical := to_canonical ip in
      if is_unspecified canonical || is_multicast canonical || is_broadcast canonical then
        Err (Dns ("dns-01 resolver " +:+ ip_to_string ip +:+ " is not a usable unicast address"))
      else if contains canonical seen then
        Err (Dns ("dns-01 resolver " +:+ ip_to_string ip +:+ " is listed twice"))
      else resolver_loop ips (seen ++ [canonical])
  end.
Definition validate_dns01_resolver_ips (ips : list IpAddr) : result unit Error :=
  if (MAX_DNS01_RESOLVERS <? length ips)%nat then
    Err (Dns ("dns-01 resolver list has " +:+ pretty (N.of_nat (length ips)) +:+
              " entries; at most 8 are allowed"))
  else resolver_loop ips [].

(** ** The ranges *)

(** An IPv4 address as a number, and the first [len] bits of it. *)
Definition v4_number (a b c d : u8) : Z := ((a * 256 + b) * 256 + c) * 256 + d.
Definition in_v4 (block : u8 * u8 * u8 * u8 * Z) (a b c d : u8) : Prop :=
  let '(p, q, r, s, len) := block in v4_number a b c d / 2 ^ (32 - len) = v4_number p q r s / 2 ^ (32 - len).
Definition v4_blocks : list (u8 * u8 * u8 * u8 * Z) :=
  [(0, 0, 0, 0, 8); (10, 0, 0, 0, 8); (100, 64, 0, 0, 10); (127, 0, 0, 0, 8); (169, 254, 0, 0, 16);
   (172, 16, 0, 0, 12); (192, 0, 0, 0, 24); (192, 0, 2, 0, 24); (192, 168, 0, 0, 16);
   (198, 51, 100, 0, 24); (203, 0, 113, 0, 24); (224, 0, 0, 0, 4); (240, 0, 0, 0, 4)].
(** The ranges of IPv6 that begin with the given bits. *)
Definition v6_blocks : list (Z * Z) := [(0xff00, 8); (0xfc00, 7); (0xfe80, 10)].
Definition in_v6 (block : Z * Z) (segments : list Z) : Prop :=
  segment 0 segments / 2 ^ (16 - block.2) = block.1 / 2 ^ (16 - block.2).

Definition ip_ok (ip : IpAddr) : Prop :=
  match ip with
  | V4 a b c d => u8_list [a; b; c; d]
  | V6 s => length s = 8%nat ∧ Forall (λ x, 0 ≤ x < 65536) s
  end.
(** The addresses that the guard refuses, as ranges. *)
Definition refused (ip : IpAddr) : Prop :=
  match to_canonical ip with
  | V4 a b c d => Exists (λ block, in_v4 block a b c d) v4_blocks
  | V6 s => s = [0; 0; 0; 0; 0; 0; 0; 0] ∨ s = [0; 0; 0; 0; 0; 0; 0; 1] ∨
            Exists (λ block, in_v6 block s) v6_blocks
  end.

Lemma in_v4_block a b c d : u8_list [a; b; c; d] →
  (in_v4 (0, 0, 0, 0, 8) a b c d ↔ a = 0) ∧ (in_v4 (10, 0, 0, 0, 8) a b c d ↔ a = 10) ∧
  (in_v4 (100, 64, 0, 0, 10) a b c d ↔ a = 100 ∧ 64 ≤ b < 128) ∧
  (in_v4 (127, 0, 0, 0, 8) a b c d ↔ a = 127) ∧ (in_v4 (169, 254, 0, 0, 16) a b c d ↔ a = 169 ∧ b = 254) ∧
  (in_v4 (172, 16, 0, 0, 12) a b c d ↔ a = 172 ∧ 16 ≤ b ≤ 31) ∧
  (in_v4 (192, 0, 0, 0, 24) a b c d ↔ a = 192 ∧ b = 0 ∧ c = 0) ∧
  (in_v4 (192, 0, 2, 0, 24) a b c d ↔ a = 192 ∧ b = 0 ∧ c = 2) ∧
  (in_v4 (192, 168, 0, 0, 16) a b c d ↔ a = 192 ∧ b = 168) ∧
  (in_v4 (198, 51, 100, 0, 24) a b c d ↔ a = 198 ∧ b = 51 ∧ c = 100) ∧
  (in_v4 (203, 0, 113, 0, 24) a b c d ↔ a = 203 ∧ b = 0 ∧ c = 113) ∧
  (in_v4 (224, 0, 0, 0, 4) a b c d ↔ 224 ≤ a ≤ 239) ∧ (in_v4 (240, 0, 0, 0, 4) a b c d ↔ 240 ≤ a).
Proof.
  intros Hu. assert (0 ≤ a < 256 ∧ 0 ≤ b < 256 ∧ 0 ≤ c < 256 ∧ 0 ≤ d < 256) as (Ha & Hb & Hc & Hd).
  { unfold u8_list in Hu. rewrite !Forall_cons in Hu. setoid_rewrite is_u8_range in Hu. tauto. }
  unfold in_v4, v4_number. clear Hu.
  repeat match goal with |- context [2 ^ ?e] => let v := eval vm_compute in (2 ^ e) in change (2 ^ e) with v end.
  split_and!; split; intros HH; Z.to_euclidean_division_equations; lia.
Qed.

Ltac in_disjunct :=
  lazymatch goal with
  | |- _ ∨ _ => first [left; in_disjunct | right; in_disjunct]
  | |- _ => lia
  end.
Lemma disallowed_v4_spec a b c d : u8_list [a; b; c; d] →
  is_disallowed_v4 a b c d = true ↔ Exists (λ block, in_v4 block a b c d) v4_blocks.
Proof.
  intros Hu. destruct (in_v4_block a b c d Hu) as (H1 & H2 & H3 & H4 & H5 & H6 & H7 & H8 & H9 & H10 & H11 & H12 & H13).
  unfold v4_blocks. rewrite !Exists_cons, Exists_nil, H1, H2, H3, H4, H5, H6, H7, H8, H9, H10, H11, H12, H13.
  unfold u8_list in Hu. rewrite !Forall_cons in Hu. setoid_rewrite is_u8_range in Hu.
  destruct Hu as (Ha & Hb & Hc & Hd & _).
  unfold is_disallowed_v4, v4_is_unspecified, v4_is_loopback, v4_is_private, v4_is_link_local, v4_is_broadcast, v4_is_documentation, v4_is_multicast.
  clear H1 H2 H3 H4 H5 H6 H7 H8 H9 H10 H11 H12 H13.
  rewrite !orb_true_iff, !andb_true_iff, !Z.eqb_eq, !Z.leb_le, !Z.ltb_lt. split; intros HH.
  - destruct_or?; in_disjunct.
  - destruct_or?; try done; in_disjunct.
Qed.

(** The first bits of a segment. *)
Lemma first_bits n mask x : 0 ≤ n → mask = Z.ldiff (Z.ones 16) (Z.ones n) → 0 ≤ x < 65536 →
  Z.land x mask = x / 2 ^ n * 2 ^ n.
Proof.
  intros Hn -> Hx. rewrite !Z.ldiff_land, Z.land_assoc, Z.land_ones by lia.
  rewrite Z.mod_small by (change (2 ^ 16) with 65536; lia).
  by rewrite <- Z.ldiff_land, Z.ldiff_ones_r, Z.shiftl_mul_pow2, Z.shiftr_div_pow2.
Qed.
Lemma disallowed_v6_blocks s : 0 ≤ segment 0 s < 65536 →
  (v6_is_multicast s || (Z.land (segment 0 s) 0xfe00 =? 0xfc00) || (Z.land (segment 0 s) 0xffc0 =? 0xfe80) = true ↔
   Exists (λ block, in_v6 block s) v6_blocks).
Proof.
  intros Hs. unfold v6_is_multicast, v6_blocks, in_v6. rewrite !Exists_cons, Exists_nil. cbn [fst snd].
  rewrite (first_bits 8 0xff00), (first_bits 9 0xfe00), (first_bits 6 0xffc0) by (done || lia).
  repeat match goal with |- context [2 ^ ?e] => let v := eval vm_compute in (2 ^ e) in change (2 ^ e) with v end.
  rewrite !orb_true_iff, !Z.eqb_eq. split; intros HH; Z.to_euclidean_division_equations; lia.
Qed.

Lemma v6_cases (s : list Z) : length s = 8%nat → ∃ a b c d e f g h, s = [a; b; c; d; e; f; g; h].
Proof.
  intros Hs. destruct s as [|a [|b [|c [|d [|e [|f [|g [|h [|]]]]]]]]]; try discriminate Hs. by repeat eexists.
Qed.
Lemma mapped_octets (s : list Z) a b c d : Forall (λ x, 0 ≤ x < 65536) s → to_ipv4_mapped s = Some (a, b, c, d) →
  u8_list [a; b; c; d].
Proof.
  intros Hs Hm. unfold to_ipv4_mapped in Hm. repeat (case_match; try discriminate Hm). injection Hm as <- <- <- <-.
  subst. rewrite !Forall_cons in Hs. unfold u8_list. rewrite !Forall_cons. setoid_rewrite is_u8_range.
  destruct Hs as (_ & _ & _ & _ & _ & _ & Hx & Hy & _). split_and!; try apply Z.mod_pos_bound; try done;
    try (Z.to_euclidean_division_equations; lia).
Qed.

(** C26. The guard refuses exactly the addresses of these ranges, an IPv4 address that
    is mapped into IPv6 as that IPv4 address. *)
Theorem disallowed_spec ip : ip_ok ip → is_disallowed_ip ip = true ↔ refused ip.
Proof.
  intros Hok. destruct ip as [a b c d|s]; [by apply disallowed_v4_spec|].
  unfold refused, is_disallowed_ip, to_canonical. destruct Hok as [Hlen Hs].
  destruct (to_ipv4_mapped s) as [[[[a b] c] d]|] eqn:Hm.
  - apply disallowed_v4_spec. by eapply mapped_octets.
  - destruct (v6_cases s Hlen) as (a & b & c & d & e & f & g & h & ->).
    rewrite <- disallowed_v6_blocks by (by apply Forall_cons in Hs as [? _]).
    rewrite !orb_true_iff. unfold v6_is_unspecified, v6_is_loopback. cbn [forallb take segment lookup list_lookup default].
    rewrite !andb_true_iff, !Z.eqb_eq. split.
    + intros [[[[HH|HH]|HH]|HH]|HH]; [left|right; left|right; right; tauto..]; naive_solver.
    + intros [[= -> -> -> -> -> -> -> ->]|[[= -> -> -> -> -> -> -> ->]|HH]];
        [by do 4 left|by do 3 left; right|tauto].
Qed.
Lemma disallowed_spec_witness : ip_ok (V6 [0; 0; 0; 0; 0; 65535; 32512; 1]) ∧
  (is_disallowed_ip (V6 [0; 0; 0; 0; 0; 65535; 32512; 1]) = true ↔
   refused (V6 [0; 0; 0; 0; 0; 65535; 32512; 1])).
Proof.
  assert (ip_ok (V6 [0; 0; 0; 0; 0; 65535; 32512; 1])) as Hok.
  { split; [reflexivity|]. repeat (constructor; [lia|]). constructor. }
  split; [exact Hok|]. apply (disallowed_spec _ Hok).
Defined.
(** Addresses that are not globally routable, and which the guard lets pass: for
    documentation, and IPv4 addresses of the loopback and of benchmarks, as NAT64
    and 6to4 embed them or as they are. *)
Example guard_gaps : Forall (λ ip, is_disallowed_ip ip = false)
  [V6 [0x2001; 0xdb8; 0; 0; 0; 0; 0; 1]; V6 [0x64; 0xff9b; 0; 0; 0; 0; 0x7f00; 1];
   V6 [0x2002; 0x7f00; 1; 0; 0; 0; 0; 1]; V4 198 18 0 1].
Proof. repeat constructor. Qed.

(** ** Resolver lists *)

Definition usable_resolver (ip : IpAddr) : bool :=
  negb (is_unspecified ip || is_multicast ip || is_broadcast ip).

Lemma resolver_loop_spec ips seen :
  resolver_loop ips seen = Ok tt ↔
  Forall (λ ip, usable_resolver ip = true) (to_canonical <$> ips) ∧ NoDup (to_canonical <$> ips) ∧
  ∀ ip, ip ∈ to_canonical <$> ips → ip ∉ seen.
Proof.
  revert seen. induction ips as [|ip ips IH]; intros seen; cbn [resolver_loop].
  { split; [|done]. intros _. split_and!; [constructor|constructor|]. by intros ip ?%not_elem_of_nil. }
  rewrite fmap_cons, Forall_cons, NoDup_cons. unfold usable_resolver at 1.
  destruct (_ || _ || _); cbn [negb]; [naive_solver|].
  destruct (contains _ _) eqn:Hc.
  - apply contains_true in Hc. split; [done|]. intros (_ & _ & Hn). by destruct (Hn _ (list_elem_of_here _ _)).
  - rewrite IH. apply not_true_iff_false in Hc. rewrite contains_true in Hc.
    setoid_rewrite elem_of_cons. setoid_rewrite elem_of_app. setoid_rewrite elem_of_cons.
    split.
    + intros (HF & HN & Hn). split_and!; [done..| |done|].
      * intros Hin. apply (Hn _ Hin). right. by left.
      * intros x [->|Hx]; [done|]. intros Hs. apply (Hn _ Hx). by left.
    + intros ([_ HF] & [Hnot HN] & Hn). split_and!; [done..|]. intros x Hx [Hs|[->|Hs]].
      * apply (Hn x); [by right|done].
      * done.
      * by apply not_elem_of_nil in Hs.
Qed.

(** A list of resolvers is accepted exactly when it has at most eight addresses,
    each usable for unicast, and no two the same, an IPv4 address that is mapped
    into IPv6 taken as that IPv4 address. *)
Theorem resolver_ips_spec ips :
  validate_dns01_resolver_ips ips = Ok tt ↔
  (length ips ≤ 8)%nat ∧ Forall (λ ip, usable_resolver ip = true) (to_canonical <$> ips) ∧
  NoDup (to_canonical <$> ips).
Proof.
  unfold validate_dns01_resolver_ips, MAX_DNS01_RESOLVERS. destruct (Nat.ltb_spec 8 (length ips)).
  - split; [done|]. lia.
  - rewrite resolver_loop_spec. split; [tauto|]. intros (_ & HF & HN). split_and!; [done..|].
    intros ip _. apply not_elem_of_nil.
Qed.
