(* ===== verification/AcmeJws.v ===== *)
(** * JWS authentication of ACME requests

    [crates/ostrich-acme/src/jws.rs] and the base64url functions of
    [crates/ostrich-common/src/util/encoding.rs].  The [base64], [sha2],
    [serde_json], [rsa] and [spki] crates are the class [JwsLib]; a text that
    [format!] builds is written out, with [DQUOTE] for its quotes. *)
From stdpp Require Import base list strings gmap countable pretty.
From Stdlib Require Import ZArith Lia Ascii.
From S2P Require Import Prelude Text Algorithm IpAddr AcmeIdentifier.
#[local] Open Scope Z_scope.

Record JwsEnvelope := { protected : string; payload : string; signature : string }.

Record Jwk := {
  kty : string; jwk_alg : option string; key_use : option string;
  jwk_n : option string; jwk_e : option string;
  crv : option string; jwk_x : option string; jwk_y : option string
}.

Record ProtectedHeader := {
  alg : string; nonce : string; url : string; jwk : option Jwk; kid : option string
}.

Inductive JwsAlgorithm :=
| RS256 | RS384 | RS512 | PS256 | PS384 | PS512 | ES256 | ES384 | ES512 | EdDSA.

(** Characters of the URL-safe base64 alphabet. *)
Definition is_base64url (c : ascii) : bool :=
  is_alnum c || Ascii.eqb c "-" || Ascii.eqb c "_".

Class JwsLib := {
  url_safe_decode : string → result (list u8) string;
  url_safe_encode : list u8 → string;
  sha256 : list u8 → list u8;
  jws_from_slice : list u8 → result JwsEnvelope string;
  header_from_slice : list u8 → result ProtectedHeader string;
  (** [RsaPublicKey::new(n, e)] and its SubjectPublicKeyInfo. *)
  rsa_public_key_der : list u8 → list u8 → result (list u8) string;
  (** The SubjectPublicKeyInfo of an algorithm, its parameters and the key bytes. *)
  spki_to_der : string → option string → list u8 → result (list u8) string;
  url_safe_decode_alphabet s b :
    url_safe_decode s = Ok b → forallb is_base64url (String.list_ascii_of_string s) = true;
  url_safe_encode_inj b b' : url_safe_encode b = url_safe_encode b' → b = b'
}.


Definition jws_algorithm_table : list (string * JwsAlgorithm) :=
  [("RS256", RS256); ("RS384", RS384); ("RS512", RS512); ("PS256", PS256); ("PS384", PS384);
   ("PS512", PS512); ("ES256", ES256); ("ES384", ES384); ("ES512", ES512); ("EdDSA", EdDSA)].

Definition parse_algorithm (a : string) : result JwsAlgorithm Error :=
  ok_or (table_lookup a jws_algorithm_table)
    (Malformed ("Unsupported JWS algorithm: " +:+ a)).

Definition to_crypto_algorithm (a : JwsAlgorithm) : result Algorithm Error :=
  match a with
  | RS256 => Ok RsaPkcs1Sha256 | RS384 => Ok RsaPkcs1Sha384 | RS512 => Ok RsaPkcs1Sha512
  | PS256 => Ok RsaPssSha256 | PS384 => Ok RsaPssSha384 | PS512 => Ok RsaPssSha512
  | ES256 => Ok EcdsaP256Sha256 | ES384 => Ok EcdsaP384Sha384
  | ES512 => Err (Malformed "ES512 (P-521) not yet supported")
  | EdDSA => Ok Ed25519
  end.

Section jws.
Context `{!JwsLib, !VerifyLib} (crypto_text : CryptoError → string).

Definition decode_base64url (data : string) : result (list u8) Error :=
  match url_safe_decode data with
  | Ok b => Ok b
  | Err e => Err (Common ("Decoding error: Base64url decode error: " +:+ e))
  end.
(** [map_err(|e| Error::Malformed(format!("<context>{}", e)))]. *)
Definition malformed {A} (context : string) (r : result A string) : result A Error :=
  match r with Ok x => Ok x | Err e => Err (Malformed (context +:+ e)) end.
(** The same after [decode_base64url], whose error is the text of the
    [ostrich_common] error. *)
Definition decode_or {A} (context : string) (data : string) (k : list u8 → result A Error)
    : result A Error :=
  match url_safe_decode data with
  | Ok b => k b
  | Err e => Err (Malformed (context +:+ "Decoding error: Base64url decode error: " +:+ e))
  end.

Definition parse_jws (body : list u8) : result JwsEnvelope Error :=
  malformed "Invalid JWS envelope: " (jws_from_slice body).

Definition decode_protected_header (prot : string) : result ProtectedHeader Error :=
  decode_or "Invalid protected header encoding: " prot (λ bytes,
    malformed "Invalid protected header JSON: " (header_from_slice bytes)).

Definition missing (text : string) (o : option string) : result string Error :=
  ok_or o (Malformed text).
(** ["name":"text"]. *)
Definition member (name text : string) : string := quoted name +:+ ":" +:+ quoted text.

(** The canonical JSON text of RFC 7638. *)
Definition canonical_jwk (k : Jwk) : result string Error :=
  if bool_decide (kty k = "RSA") then
    let? n := missing "RSA JWK missing 'n' parameter" (jwk_n k) in
    let? e := missing "RSA JWK missing 'e' parameter" (jwk_e k) in
    Ok ("{" +:+ member "e" e +:+ "," +:+ member "kty" "RSA" +:+ "," +:+ member "n" n +:+ "}")
  else if bool_decide (kty k = "EC") then
    let? c := missing "EC JWK missing 'crv' parameter" (crv k) in
    let? x := missing "EC JWK missing 'x' parameter" (jwk_x k) in
    let? y := missing "EC JWK missing 'y' parameter" (jwk_y k) in
    Ok ("{" +:+ member "crv" c +:+ "," +:+ member "kty" "EC" +:+ "," +:+ member "x" x +:+ "," +:+
        member "y" y +:+ "}")
  else if bool_decide (kty k = "OKP") then
    let c := default "Ed25519" (crv k) in
    let? x := missing "OKP JWK missing 'x' parameter" (jwk_x k) in
    Ok ("{" +:+ member "crv" c +:+ "," +:+ member "kty" "OKP" +:+ "," +:+ member "x" x +:+ "}")
  else Err (Malformed ("Unsupported JWK key type: " +:+ kty k)).

Definition compute_jwk_thumbprint (k : Jwk) : result string Error :=
  let? canonical := canonical_jwk k in
  Ok (url_safe_encode (sha256 (as_bytes canonical))).

Definition jwk_rsa_to_spki (k : Jwk) : result (list u8) Error :=
  let? n := missing "RSA JWK missing 'n'" (jwk_n k) in
  let? e := missing "RSA JWK missing 'e'" (jwk_e k) in
  decode_or "Invalid RSA modulus encoding: " n (λ n_bytes,
  decode_or "Invalid RSA exponent encoding: " e (λ e_bytes,
    malformed "Invalid RSA public key: " (rsa_public_key_der n_bytes e_bytes))).

Definition curve_oids : list (string * string) :=
  [("P-256", "1.2.840.10045.3.1.7"); ("P-384", "1.3.132.0.34"); ("P-521", "1.3.132.0.35")].

Definition jwk_ec_to_spki (k : Jwk) : result (list u8) Error :=
  let? c := missing "EC JWK missing 'crv'" (crv k) in
  let? x := missing "EC JWK missing 'x'" (jwk_x k) in
  let? y := missing "EC JWK missing 'y'" (jwk_y k) in
  decode_or "Invalid EC X coordinate: " x (λ x_bytes,
  decode_or "Invalid EC Y coordinate: " y (λ y_bytes,
    let? curve_oid := ok_or (table_lookup c curve_oids)
                        (Malformed ("Unsupported EC curve: " +:+ c)) in
    malformed "Failed to encode EC SPKI: "
      (spki_to_der "1.2.840.10045.2.1" (Some curve_oid) (4 :: x_bytes ++ y_bytes)))).

Definition jwk_okp_to_spki (k : Jwk) : result (list u8) Error :=
  let c := default "Ed25519" (crv k) in
  let? x := missing "OKP JWK missing 'x'" (jwk_x k) in
  if negb (bool_decide (c = "Ed25519")) then
    Err (Malformed ("Unsupported OKP curve: " +:+ c +:+ " (only Ed25519 supported)"))
  else
    decode_or "Invalid Ed25519 public key: " x (λ bytes,
      if negb (length bytes =? 32)%nat then Err (Malformed "Invalid Ed25519 public key length")
      else malformed "Failed to encode Ed25519 SPKI: " (spki_to_der "1.3.101.112" None bytes)).

Definition jwk_to_spki_der (k : Jwk) : result (list u8) Error :=
  if bool_decide (kty k = "RSA") then jwk_rsa_to_spki k
  else if bool_decide (kty k = "EC") then jwk_ec_to_spki k
  else if bool_decide (kty k = "OKP") then jwk_okp_to_spki k
  else Err (Malformed ("Unsupported JWK key type: " +:+ kty k)).

Definition verify_jws_with_jwk (jws : JwsEnvelope) (header : ProtectedHeader) (k : Jwk)
    : result bool Error :=
  let? jws_alg := parse_algorithm (alg header) in
  let? crypto_alg := to_crypto_algorithm jws_alg in
  let? public_key_der := jwk_to_spki_der k in
  let signing_input := protected jws +:+ "." +:+ payload jws in
  decode_or "Invalid signature encoding: " (signature jws) (λ signature_bytes,
    match verify_with_spki public_key_der crypto_alg (as_bytes signing_input) signature_bytes true with
    | Ok b => Ok b
    | Err e => Err (Unauthorized ("Signature verification failed: " +:+ crypto_text e))
    end).
End jws.

(** ** The thumbprint identifies the key *)

Lemma str_app_assoc s t u : (s +:+ t) +:+ u = s +:+ t +:+ u.
Proof. induction s as [|c s IH]; [done|]. change (String c ((s +:+ t) +:+ u) = String c (s +:+ t +:+ u)). by rewrite IH. Qed.

Definition no_quote (s : string) : Prop := has_char (ascii_of_N 34) s = false.

Lemma quote_split a b r r' :
  no_quote a → no_quote b → a +:+ DQUOTE +:+ r = b +:+ DQUOTE +:+ r' → a = b ∧ r = r'.
Proof.
  unfold no_quote, has_char. revert b. induction a as [|c a IH]; intros [|d b] Ha Hb HH.
  - by injection HH.
  - injection HH as <- _. done.
  - injection HH as -> _. done.
  - simpl in Ha, Hb, HH. injection HH as -> HH.
    apply orb_false_iff in Ha as [_ Ha], Hb as [_ Hb].
    by destruct (IH b Ha Hb HH) as [-> ->].
Qed.

Lemma base64url_no_quote s :
  forallb is_base64url (String.list_ascii_of_string s) = true → no_quote s.
Proof.
  unfold no_quote, has_char. induction s as [|c s IH]; [done|].
  cbn [String.list_ascii_of_string forallb existsb].
  intros [Hc Hs]%andb_true_iff. rewrite IH by done. rewrite orb_false_r.
  by destruct (Ascii.eqb_spec (ascii_of_N 34) c) as [<-|].
Qed.


Section thumbprint.
Context `{!JwsLib}.

Definition sha256_collision : Prop := ∃ a b : list u8, a ≠ b ∧ sha256 a = sha256 b.

Lemma decode_or_Ok {A} ctx data (k : list u8 → result A Error) x :
  decode_or ctx data k = Ok x → no_quote data ∧ ∃ b, url_safe_decode data = Ok b ∧ k b = Ok x.
Proof.
  unfold decode_or. destruct (url_safe_decode data) as [b|] eqn:Hd; [|done]. intros HH.
  split; [|naive_solver]. by eapply base64url_no_quote, url_safe_decode_alphabet.
Qed.

Lemma missing_Ok t o s : missing t o = Ok s ↔ o = Some s.
Proof. unfold missing. destruct o; simpl; split; congruence. Qed.
Lemma malformed_Ok {A} t (r : result A string) x : malformed t r = Ok x ↔ r = Ok x.
Proof. destruct r; simpl; split; congruence. Qed.

(** What the key and its canonical text share, by key type. *)
Inductive jwk_shape (k : Jwk) (spki : list u8) (text : string) : Prop :=
| shape_rsa n e nb eb :
    no_quote n → no_quote e → url_safe_decode n = Ok nb → url_safe_decode e = Ok eb →
    rsa_public_key_der nb eb = Ok spki →
    text = "{" +:+ member "e" e +:+ "," +:+ member "kty" "RSA" +:+ "," +:+ member "n" n +:+ "}" →
    jwk_shape k spki text
| shape_ec c x y xb yb o :
    no_quote c → no_quote x → no_quote y → url_safe_decode x = Ok xb → url_safe_decode y = Ok yb →
    table_lookup c curve_oids = Some o →
    spki_to_der "1.2.840.10045.2.1" (Some o) (4 :: xb ++ yb) = Ok spki →
    text = "{" +:+ member "crv" c +:+ "," +:+ member "kty" "EC" +:+ "," +:+ member "x" x +:+ "," +:+
           member "y" y +:+ "}" →
    jwk_shape k spki text
| shape_okp x xb :
    no_quote x → url_safe_decode x = Ok xb → spki_to_der "1.3.101.112" None xb = Ok spki →
    text = "{" +:+ member "crv" "Ed25519" +:+ "," +:+ member "kty" "OKP" +:+ "," +:+
           member "x" x +:+ "}" →
    jwk_shape k spki text.

Lemma curve_no_quote c o : table_lookup c curve_oids = Some o → no_quote c.
Proof.
  unfold curve_oids. cbn [table_lookup]. intros HH.
  destruct (String.eqb_spec c "P-256") as [->|]; [by vm_compute|].
  destruct (String.eqb_spec c "P-384") as [->|]; [by vm_compute|].
  destruct (String.eqb_spec c "P-521") as [->|]; [by vm_compute|done].
Qed.

Lemma jwk_shape_of k spki text :
  jwk_to_spki_der k = Ok spki → canonical_jwk k = Ok text → jwk_shape k spki text.
Proof.
  unfold jwk_to_spki_der, canonical_jwk. case_bool_decide.
  { intros (n & Hn & (e & He & HH)%res_bind_Ok)%res_bind_Ok.
    apply decode_or_Ok in HH as (Qn & nb & Dn & HH).
    apply decode_or_Ok in HH as (Qe & eb & De & HH). apply malformed_Ok in HH.
    apply missing_Ok in Hn, He. rewrite Hn, He. intros [= <-]. by apply (shape_rsa _ _ _ n e nb eb). }
  case_bool_decide.
  { intros (c & Hc & (x & Hx & (y & Hy & HH)%res_bind_Ok)%res_bind_Ok)%res_bind_Ok.
    apply decode_or_Ok in HH as (Qx & xb & Dx & HH).
    apply decode_or_Ok in HH as (Qy & yb & Dy & HH).
    apply res_bind_Ok in HH as (o & Ho & HH%malformed_Ok).
    destruct (table_lookup c curve_oids) as [o'|] eqn:Ht; [|done]. injection Ho as ->.
    apply missing_Ok in Hc, Hx, Hy. rewrite Hc, Hx, Hy. intros [= <-].
    eapply (shape_ec _ _ _ c x y xb yb o); [by eapply curve_no_quote|done..]. }
  case_bool_decide; [|done].
  intros (x & Hx & HH)%res_bind_Ok. case_bool_decide as Hc; cbn [negb] in HH; [|done].
  apply decode_or_Ok in HH as (Qx & xb & Dx & HH). rewrite Hc.
  destruct (_ =? 32)%nat; [|done]. apply malformed_Ok in HH.
  apply missing_Ok in Hx. rewrite Hx. intros [= <-]. by apply (shape_okp _ _ _ x xb).
Qed.

(** The texts of two shapes agree only when the keys do. *)
Lemma str_cancel (p s t : string) : p +:+ s = p +:+ t → s = t.
Proof. revert s t. induction p as [|c p IH]; [done|]. intros s t [= HH]. by apply IH. Qed.

Lemma member_split name a b r r' :
  no_quote a → no_quote b → member name a +:+ r = member name b +:+ r' → a = b ∧ r = r'.
Proof.
  intros Ha Hb HH. unfold member, quoted in HH. rewrite !str_app_assoc in HH.
  do 4 apply str_cancel in HH. apply (str_cancel DQUOTE) in HH. by apply quote_split.
Qed.

Lemma same_text_same_key k k' spki spki' text :
  jwk_shape k spki text → jwk_shape k' spki' text → spki = spki'.
Proof.
  intros [n e nb eb Qn Qe Dn De Hs Ht|c x y xb yb o Qc Qx Qy Dx Dy Ho Hs Ht|x xb Qx Dx Hs Ht]
    [n' e' nb' eb' Qn' Qe' Dn' De' Hs' Ht'|c' x' y' xb' yb' o' Qc' Qx' Qy' Dx' Dy' Ho' Hs' Ht'|
     x' xb' Qx' Dx' Hs' Ht']; rewrite Ht in Ht'; clear Ht; try done; apply str_cancel in Ht';
    (apply member_split in Ht' as [He Ht]; [|done..]).
  - do 3 apply str_cancel in Ht. apply member_split in Ht as [Hn _]; [|done..]. congruence.
  - do 3 apply str_cancel in Ht. apply member_split in Ht as [Hx Ht]; [|done..].
    apply str_cancel in Ht. apply member_split in Ht as [Hy Ht]; [|done..]. congruence.
  - done.
  - done.
  - do 3 apply str_cancel in Ht. apply member_split in Ht as [Hx _]; [|done..]. congruence.
Qed.

(** An account is its key: the thumbprints of two keys the server can verify
    signatures with are equal only when the keys are, as public keys, or when
    SHA-256 collides. *)
Theorem thumbprint_identifies_key k k' spki spki' t :
  jwk_to_spki_der k = Ok spki → jwk_to_spki_der k' = Ok spki' →
  compute_jwk_thumbprint k = Ok t → compute_jwk_thumbprint k' = Ok t →
  spki = spki' ∨ sha256_collision.
Proof.
  intros Hk Hk' (c & Hc & [= <-])%res_bind_Ok (c' & Hc' & [= HH])%res_bind_Ok.
  apply url_safe_encode_inj in HH. destruct (decide (as_bytes c = as_bytes c')) as [Heq|Hne].
  - apply as_bytes_inj in Heq as <-. left.
    by eapply same_text_same_key; eapply jwk_shape_of.
  - right. by exists (as_bytes c), (as_bytes c').
Qed.
End thumbprint.

(** ** A concrete instance, for the witnesses *)

Definition toy_encode (b : list u8) : string := pretty (Npos (encode b)).

Lemma toy_encode_inj b b' : toy_encode b = toy_encode b' → b = b'.
Proof. unfold toy_encode. intros HH%pretty_N_inj. injection HH as HH. by apply (inj encode). Qed.

Definition toy_decode (s : string) : result (list u8) string :=
  if forallb is_base64url (String.list_ascii_of_string s) then Ok (as_bytes s) else Err "not base64".

Lemma toy_decode_alphabet s b :
  toy_decode s = Ok b → forallb is_base64url (String.list_ascii_of_string s) = true.
Proof. unfold toy_decode. by destruct (forallb _ _). Qed.

Definition toy_jws : JwsLib := {|
  url_safe_decode := toy_decode; url_safe_encode := toy_encode; sha256 := λ b, b;
  jws_from_slice _ := Err "no"; header_from_slice _ := Err "no";
  rsa_public_key_der n e := Ok (n ++ [-1] ++ e);
  spki_to_der _ _ k := Ok k;
  url_safe_decode_alphabet := toy_decode_alphabet;
  url_safe_encode_inj := toy_encode_inj |}.

Definition toy_key (a : option string) : Jwk := {|
  kty := "RSA"; jwk_alg := a; key_use := None; jwk_n := Some "ALY"; jwk_e := Some "AQAB";
  crv := None; jwk_x := None; jwk_y := None |}.

Lemma thumbprint_identifies_key_witness :
  let spki := as_bytes "ALY" ++ [-1] ++ as_bytes "AQAB" in
  @jwk_to_spki_der toy_jws (toy_key None) = Ok spki ∧
  (spki = spki ∨ @sha256_collision toy_jws).
Proof.
  split; [reflexivity|].
  by apply (@thumbprint_identifies_key toy_jws (toy_key None) (toy_key (Some "RS256")) _ _ _
    eq_refl eq_refl eq_refl eq_refl).
Defined.
