(* ===== verification/AcmeStore.v ===== *)
(** * The ACME tables

    [crates/ostrich-db/src/repository/acme.rs] on the tables of
    [migrations/00001_create_base_tables.sql], with their unique constraints
    and foreign keys.  [created_at] and [updated_at] are left out; rows are in
    the order of insertion.  A call is one statement; [Uuid::new_v4()] of an
    insert is its first argument.  JSON columns hold the parameter [Json]. *)
From stdpp Require Import base list strings gmap.
From S2P Require Import Prelude.
#[local] Open Scope Z_scope.

Record AcmeAccount {Json : Type} := {
  ac_id : Uuid; ac_account_id : string; ac_jwk_thumbprint : string; ac_public_key_jwk : Json;
  ac_contact : list string; ac_status : string; ac_terms_of_service_agreed : bool
}.
Arguments AcmeAccount : clear implicits.

Record AcmeOrder {Json : Type} := {
  or_id : Uuid; or_order_id : string; or_account_id : Uuid; or_status : string;
  or_identifiers : Json; or_not_before : option DateTime; or_not_after : option DateTime;
  or_expires : DateTime; or_certificate_id : option Uuid; or_csr_der : option (list u8)
}.
Arguments AcmeOrder : clear implicits.

Record AcmeAuthorization := {
  au_id : Uuid; au_authorization_id : string; au_order_id : Uuid; au_identifier_type : string;
  au_identifier_value : string; au_status : string; au_expires : DateTime; au_wildcard : bool
}.

Record AcmeChallenge {Json : Type} := {
  ch_id : Uuid; ch_challenge_id : string; ch_authorization_id : Uuid; ch_challenge_type : string;
  ch_token : string; ch_status : string; ch_validated_at : option DateTime;
  ch_error_detail : option Json
}.
Arguments AcmeChallenge : clear implicits.

Record AcmeDb {Json : Type} := {
  accounts : list (AcmeAccount Json);
  orders : list (AcmeOrder Json);
  authorizations : list AcmeAuthorization;
  challenges : list (AcmeChallenge Json);
  nonces : gmap string DateTime;
  certificates : gmap Uuid string
}.
Arguments AcmeDb : clear implicits.

Definition UNIQUE_VIOLATION : string := "duplicate key value violates unique constraint".
Definition FOREIGN_KEY_VIOLATION : string := "violates foreign key constraint".
Definition ROW_NOT_FOUND : string := "no rows returned by a query that expected to return at least one row".

Section store.
Context {Json : Type}.
Abbreviation Db := (AcmeDb Json).
(** What one statement answers, and the database after it. *)
Definition Sql (A : Type) : Type := Db → result A string * Db.

Definition set_accounts x (d : Db) : Db := {| accounts := x; orders := orders d;
  authorizations := authorizations d; challenges := challenges d; nonces := nonces d;
  certificates := certificates d |}.
Definition set_orders x (d : Db) : Db := {| accounts := accounts d; orders := x;
  authorizations := authorizations d; challenges := challenges d; nonces := nonces d;
  certificates := certificates d |}.
Definition set_authorizations x (d : Db) : Db := {| accounts := accounts d; orders := orders d;
  authorizations := x; challenges := challenges d; nonces := nonces d;
  certificates := certificates d |}.
Definition set_challenges x (d : Db) : Db := {| accounts := accounts d; orders := orders d;
  authorizations := authorizations d; challenges := x; nonces := nonces d;
  certificates := certificates d |}.
Definition set_nonces x (d : Db) : Db := {| accounts := accounts d; orders := orders d;
  authorizations := authorizations d; challenges := challenges d; nonces := x;
  certificates := certificates d |}.
Definition set_certificates x (d : Db) : Db := {| accounts := accounts d; orders := orders d;
  authorizations := authorizations d; challenges := challenges d; nonces := nonces d;
  certificates := x |}.

(** [SELECT .. WHERE P], of at most one row and of all. *)
Definition select_one {R} (rows : Db → list R) (P : R → bool) : Sql (option R) :=
  λ d, (Ok (head (List.filter P (rows d))), d).
Definition select_all {R} (rows : Db → list R) (P : R → bool) : Sql (list R) :=
  λ d, (Ok (List.filter P (rows d)), d).
(** [UPDATE .. SET f WHERE P RETURNING *], with [fetch_one]. *)
Definition update_rows {R} (P : R → bool) (f : R → R) (rows : list R) : list R :=
  (λ r, if P r then f r else r) <$> rows.
Definition update_one {R} (rows : Db → list R) (set_rows : list R → Db → Db) (P : R → bool)
    (f : R → R) : Sql R :=
  λ d, match head (List.filter P (rows d)) with
       | Some r => (Ok (f r), set_rows (update_rows P f (rows d)) d)
       | None => (Err ROW_NOT_FOUND, d)
       end.
(** [INSERT .. RETURNING *]: no row may clash with the new one, and the row it
    refers to has to exist. *)
Definition insert_one {R} (rows : Db → list R) (set_rows : list R → Db → Db) (clash : R → R → bool)
    (parent : Db → R → bool) (r : R) : Sql R :=
  λ d, if existsb (clash r) (rows d) then (Err UNIQUE_VIOLATION, d)
       else if negb (parent d r) then (Err FOREIGN_KEY_VIOLATION, d)
       else (Ok r, set_rows (rows d ++ [r]) d).

(** ** Accounts *)

Definition account_clash (a b : AcmeAccount Json) : bool :=
  bool_decide (ac_id a = ac_id b) || bool_decide (ac_account_id a = ac_account_id b) ||
  bool_decide (ac_jwk_thumbprint a = ac_jwk_thumbprint b).

Definition create_account (id : Uuid) (account_id jwk_thumbprint : string) (public_key_jwk : Json)
    (contact : list string) (status : string) (tos_agreed : bool) : Sql (AcmeAccount Json) :=
  insert_one accounts set_accounts account_clash (λ _ _, true)
    {| ac_id := id; ac_account_id := account_id; ac_jwk_thumbprint := jwk_thumbprint;
       ac_public_key_jwk := public_key_jwk; ac_contact := contact; ac_status := status;
       ac_terms_of_service_agreed := tos_agreed |}.

Definition find_account_by_jwk (jwk_thumbprint : string) : Sql (option (AcmeAccount Json)) :=
  select_one accounts (λ a, bool_decide (ac_jwk_thumbprint a = jwk_thumbprint)).
Definition find_account_by_id (account_id : string) : Sql (option (AcmeAccount Json)) :=
  select_one accounts (λ a, bool_decide (ac_account_id a = account_id)).
Definition find_account_by_uuid (id : Uuid) : Sql (option (AcmeAccount Json)) :=
  select_one accounts (λ a, bool_decide (ac_id a = id)).

Definition set_contact_status (contact : option (list string)) (status : option string)
    (a : AcmeAccount Json) : AcmeAccount Json :=
  {| ac_id := ac_id a; ac_account_id := ac_account_id a; ac_jwk_thumbprint := ac_jwk_thumbprint a;
     ac_public_key_jwk := ac_public_key_jwk a; ac_contact := default (ac_contact a) contact;
     ac_status := default (ac_status a) status;
     ac_terms_of_service_agreed := ac_terms_of_service_agreed a |}.
Definition update_account (account_id : string) (contact : option (list string))
    (status : option string) : Sql (AcmeAccount Json) :=
  update_one accounts set_accounts (λ a, bool_decide (ac_account_id a = account_id))
    (set_contact_status contact status).

(** ** Orders *)

Definition order_clash (a b : AcmeOrder Json) : bool :=
  bool_decide (or_id a = or_id b) || bool_decide (or_order_id a = or_order_id b).

Definition create_order (id : Uuid) (order_id : string) (account_id : Uuid) (status : string)
    (identifiers : Json) (not_before not_after : option DateTime) (expires : DateTime)
    : Sql (AcmeOrder Json) :=
  insert_one orders set_orders order_clash
    (λ d o, existsb (λ a, bool_decide (ac_id a = or_account_id o)) (accounts d))
    {| or_id := id; or_order_id := order_id; or_account_id := account_id; or_status := status;
       or_identifiers := identifiers; or_not_before := not_before; or_not_after := not_after;
       or_expires := expires; or_certificate_id := None; or_csr_der := None |}.

Definition find_order_by_id (order_id : string) : Sql (option (AcmeOrder Json)) :=
  select_one orders (λ o, bool_decide (or_order_id o = order_id)).
Definition find_order_by_uuid (id : Uuid) : Sql (option (AcmeOrder Json)) :=
  select_one orders (λ o, bool_decide (or_id o = id)).
(** Newest first. *)
Definition list_orders_by_account (account_id : Uuid) : Sql (list (AcmeOrder Json)) :=
  select_all (λ d, rev (orders d)) (λ o, bool_decide (or_account_id o = account_id)).

Definition set_order_status (status : string) (o : AcmeOrder Json) : AcmeOrder Json :=
  {| or_id := or_id o; or_order_id := or_order_id o; or_account_id := or_account_id o;
     or_status := status; or_identifiers := or_identifiers o; or_not_before := or_not_before o;
     or_not_after := or_not_after o; or_expires := or_expires o;
     or_certificate_id := or_certificate_id o; or_csr_der := or_csr_der o |}.
Definition update_order_status (id : Uuid) (status : string) : Sql (AcmeOrder Json) :=
  update_one orders set_orders (λ o, bool_decide (or_id o = id)) (set_order_status status).

Definition set_order_certificate (certificate_id : Uuid) (csr_der : list u8) (o : AcmeOrder Json)
    : AcmeOrder Json :=
  {| or_id := or_id o; or_order_id := or_order_id o; or_account_id := or_account_id o;
     or_status := or_status o; or_identifiers := or_identifiers o;
     or_not_before := or_not_before o; or_not_after := or_not_after o; or_expires := or_expires o;
     or_certificate_id := Some certificate_id; or_csr_der := Some csr_der |}.
(** The certificate has to exist in this database. *)
Definition update_order_certificate (id certificate_id : Uuid) (csr_der : list u8)
    : Sql (AcmeOrder Json) :=
  λ d, match head (List.filter (λ o, bool_decide (or_id o = id)) (orders d)) with
       | Some _ =>
           if bool_decide (certificates d !! certificate_id = None) then
             (Err FOREIGN_KEY_VIOLATION, d)
           else update_one orders set_orders (λ o, bool_decide (or_id o = id))
                  (set_order_certificate certificate_id csr_der) d
       | None => (Err ROW_NOT_FOUND, d)
       end.

(** ** Authorizations *)

Definition authorization_clash (a b : AcmeAuthorization) : bool :=
  bool_decide (au_id a = au_id b) || bool_decide (au_authorization_id a = au_authorization_id b).

Definition create_authorization (id : Uuid) (authorization_id : string) (order_id : Uuid)
    (identifier_type identifier_value status : string) (expires : DateTime) (wildcard : bool)
    : Sql AcmeAuthorization :=
  insert_one authorizations set_authorizations authorization_clash
    (λ d a, existsb (λ o, bool_decide (or_id o = au_order_id a)) (orders d))
    {| au_id := id; au_authorization_id := authorization_id; au_order_id := order_id;
       au_identifier_type := identifier_type; au_identifier_value := identifier_value;
       au_status := status; au_expires := expires; au_wildcard := wildcard |}.

Definition find_authorization_by_id (authorization_id : string) : Sql (option AcmeAuthorization) :=
  select_one authorizations (λ a, bool_decide (au_authorization_id a = authorization_id)).
Definition find_authorization_by_uuid (id : Uuid) : Sql (option AcmeAuthorization) :=
  select_one authorizations (λ a, bool_decide (au_id a = id)).
Definition list_authorizations_by_order (order_id : Uuid) : Sql (list AcmeAuthorization) :=
  select_all authorizations (λ a, bool_decide (au_order_id a = order_id)).

Definition set_authorization_status (status : string) (a : AcmeAuthorization)
    : AcmeAuthorization :=
  {| au_id := au_id a; au_authorization_id := au_authorization_id a; au_order_id := au_order_id a;
     au_identifier_type := au_identifier_type a; au_identifier_value := au_identifier_value a;
     au_status := status; au_expires := au_expires a; au_wildcard := au_wildcard a |}.
Definition update_authorization_status (authorization_id status : string)
    : Sql AcmeAuthorization :=
  update_one authorizations set_authorizations
    (λ a, bool_decide (au_authorization_id a = authorization_id)) (set_authorization_status status).

(** ** Challenges *)

Definition challenge_clash (a b : AcmeChallenge Json) : bool :=
  bool_decide (ch_id a = ch_id b) || bool_decide (ch_challenge_id a = ch_challenge_id b).

Definition create_challenge (id : Uuid) (challenge_id : string) (authorization_id : Uuid)
    (challenge_type token status : string) : Sql (AcmeChallenge Json) :=
  insert_one challenges set_challenges challenge_clash
    (λ d c, existsb (λ a, bool_decide (au_id a = ch_authorization_id c)) (authorizations d))
    {| ch_id := id; ch_challenge_id := challenge_id; ch_authorization_id := authorization_id;
       ch_challenge_type := challenge_type; ch_token := token; ch_status := status;
       ch_validated_at := None; ch_error_detail := None |}.

Definition find_challenge_by_id (challenge_id : string) : Sql (option (AcmeChallenge Json)) :=
  select_one challenges (λ c, bool_decide (ch_challenge_id c = challenge_id)).
Definition list_challenges_by_authorization (authorization_id : Uuid)
    : Sql (list (AcmeChallenge Json)) :=
  select_all challenges (λ c, bool_decide (ch_authorization_id c = authorization_id)).

Definition set_challenge_status (status : string) (validated_at : option DateTime)
    (error_detail : option Json) (c : AcmeChallenge Json) : AcmeChallenge Json :=
  {| ch_id := ch_id c; ch_challenge_id := ch_challenge_id c;
     ch_authorization_id := ch_authorization_id c; ch_challenge_type := ch_challenge_type c;
     ch_token := ch_token c; ch_status := status; ch_validated_at := validated_at;
     ch_error_detail := error_detail |}.
Definition update_challenge_status (challenge_id status : string) (validated_at : option DateTime)
    (error_detail : option Json) : Sql (AcmeChallenge Json) :=
  update_one challenges set_challenges (λ c, bool_decide (ch_challenge_id c = challenge_id))
    (set_challenge_status status validated_at error_detail).

(** ** Nonces *)

Definition create_nonce (nonce : string) (expires_at : DateTime) : Sql unit :=
  λ d, match nonces d !! nonce with
       | Some _ => (Err UNIQUE_VIOLATION, d)
       | None => (Ok tt, set_nonces (<[nonce := expires_at]> (nonces d)) d)
       end.
(** [now] is the database's [NOW()]. *)
Definition consume_nonce (now : DateTime) (nonce : string) : Sql bool :=
  λ d, match nonces d !! nonce with
       | Some expires_at =>
           if now <? expires_at then (Ok true, set_nonces (delete nonce (nonces d)) d)
           else (Ok false, d)
       | None => (Ok false, d)
       end.
Definition cleanup_expired_nonces (now : DateTime) : Sql nat :=
  λ d, (Ok (size (filter (λ '(_, e), (e ≤ now)%Z) (nonces d))),
        set_nonces (filter (λ '(_, e), ¬ (e ≤ now)%Z) (nonces d)) d).
End store.
