(* ===== verification/ValidatorRuns.v ===== *)
(** * Runs of the challenge validators

    What a validator does whatever the network answers: the addresses it
    connects to, the questions it asks of which resolvers ([justified]), what
    proof it accepts ([shows]), and how many requests it makes. *)
From stdpp Require Import base strings list pretty.
From Stdlib Require Import ZArith Ascii Lia.
From S2P Require Import Prelude Programs Text IpAddr AcmeIdentifier AcmeJws AddressGuard AcmeValidators.
#[local] Open Scope Z_scope.

Section validators.
Context `{!HickoryName, !JwsLib, !ValidatorLib}.

(** ** Histories *)

Inductive NetEvent :=
| Looked (host : string) (port : Z) (r : result (list SocketAddr) string)
| Built (c : Client) (r : result unit string)
| Got (c : Client) (t : Target) (r : result HttpResponse string)
| Read (response : HttpResponse) (r : result string string)
| SystemConf (r : result (result ResolverConfig string) string)
| ResolverBuilt (c : ResolverConfig) (o : ResolverOpts) (r : result unit string)
| LookedTxt (c : ResolverConfig) (o : ResolverOpts) (n : Name) (r : result (list DnsRecord) string)
| Slept (seconds : Z)
| Connected (addr : SocketAddr) (seconds : Z) (r : option (result TcpStream string))
| Shook (c : TlsConfig) (n : ServerName) (s : TcpStream) (r : result TlsSession string).

Definition net_event X (e : NetE X) : X → NetEvent :=
  match e in NetE X return X → NetEvent with
  | ELookupHost host port => Looked host port
  | EBuildClient c => Built c
  | EGet c t => Got c t
  | EText response => Read response
  | ESystemConf => SystemConf
  | EBuildResolver c o => ResolverBuilt c o
  | ETxtLookup c o n => LookedTxt c o n
  | ESleep seconds => λ _, Slept seconds
  | EConnect addr seconds => Connected addr seconds
  | EHandshake c n s => Shook c n s
  end.

(** ** What counts as proof *)

(** [n] leads to [target] over [k] CNAME records. *)
Inductive alias (answers : list DnsRecord) : nat → Name → Name → Prop :=
| alias_self n : alias answers 0 n n
| alias_step k n m target : alias answers k n m → cname_of m answers = Some target →
    alias answers (S k) n target.
(** A TXT record with the text [expected], at the name or where its aliases lead. *)
Definition txt_proof (query_name : Name) (answers : list DnsRecord) (expected : list u8) : Prop :=
  ∃ k owner record txt, (k ≤ MAX_CNAME_CHAIN)%nat ∧ alias answers k query_name owner ∧ record ∈ answers ∧
    name_eqb owner (record_name record) = true ∧ data record = TXT txt ∧ concat txt = expected.
(** The session is for the challenge alone, and the first extension of its kind in
    the server's certificate is the digest. *)
Definition alpn_proof (session : TlsSession) (digest : list u8) : Prop :=
  alpn_protocol session = Some ACME_TLS_1 ∧ length digest = 32%nat ∧
  ∃ cert chain before value after, peer_certificates session = Some (cert :: chain) ∧
    parse_extensions cert = Ok (before ++ (ACME_IDENTIFIER_OID, value) :: after) ∧
    ACME_IDENTIFIER_OID ∉ before.*1 ∧ (value = 0x04 :: 0x20 :: digest ∨ value = digest).

(** The event shows the key authorization, in the way of the challenge. *)
Definition shows_key (challenge_type token thumbprint : string) (ev : NetEvent) : Prop :=
  match ev with
  | Read _ (Ok body) => challenge_type = "http-01" ∧ trim body = key_authorization token thumbprint
  | LookedTxt _ _ n (Ok answers) =>
      challenge_type = "dns-01" ∧
      txt_proof n answers
        (as_bytes (url_safe_encode (sha256 (as_bytes (key_authorization token thumbprint)))))
  | Shook _ _ _ (Ok session) =>
      challenge_type = "tls-alpn-01" ∧
      alpn_proof session (sha256 (as_bytes (key_authorization token thumbprint)))
  | _ => False
  end.
Definition shows (challenge_type token thumbprint : string) (h : list NetEvent) : Prop :=
  match last h with Some ev => shows_key challenge_type token thumbprint ev | None => False end.

(** ** What a validator may ask for *)

(** Every address of the host was found to be public, and [addr] is one of them. *)
Definition checked (h : list NetEvent) (host : string) (port : Z) (addr : SocketAddr) : Prop :=
  ∃ addrs, Looked host port (Ok addrs) ∈ h ∧ addr ∈ addrs ∧
    Forall (λ a, is_disallowed_ip a.1 = false) addrs.
(** The resolvers of the operator or, when there are none, of the system. *)
Definition resolvers_of (o : ChallengeOptions) (h : list NetEvent) (servers : list NameServerConfig) : Prop :=
  match dns01_resolvers o with
  | [] => ∃ config, SystemConf (Ok (Ok config)) ∈ h ∧ servers = rc_name_servers config
  | ips => servers = udp_and_tcp <$> ips
  end.

(** The pages asked for. *)
Definition page (ev : NetEvent) : option (Target * result HttpResponse string) :=
  match ev with Got _ t r => Some (t, r) | _ => None end.
Definition pages (h : list NetEvent) : list (Target * result HttpResponse string) := omap page h.
(** The text of the first URL: the identifier is its host, in brackets when it is an
    IPv6 address, and the path ends in the token. *)
Definition first_page (o : ChallengeOptions) (domain token : string) : string :=
  "http://" +:+
  match parse_ip_addr domain with Some (V6 a) => "[" +:+ ipv6_to_string a +:+ "]" | _ => domain end +:+
  (if http01_port o =? 80 then "" else ":" +:+ pretty (http01_port o)) +:+
  "/.well-known/acme-challenge/" +:+ token.
(** The URL to ask for after [h]: the first one, or where the last response redirects to. *)
Definition next_page (o : ChallengeOptions) (domain token : string) (h : list NetEvent) (u : Url) : Prop :=
  match last (pages h) with
  | None => url_parse (first_page o domain token) = Ok u
  | Some (t, r) =>
      ∃ u0 response loc, t = ParsedUrl u0 ∧ r = Ok response ∧ is_redirection (status response) = true ∧
        location response ≫= header_to_str = Some loc ∧ url_join u0 loc = Ok u
  end.

(** With the guard switched off ([allow_private_ip_domains]) a validator of http-01 asks
    for the first page alone, and [reqwest] resolves and follows it; one of
    tls-alpn-01 takes the first address. *)
Definition justified (o : ChallengeOptions) (challenge_type domain token : string) (h : list NetEvent)
    (ev : NetEvent) : Prop :=
  match ev with
  | Looked host port _ =>
      (challenge_type = "http-01" ∧ allow_private_ip_domains o = false ∧ ∃ u, next_page o domain token h u ∧
         url_scheme u ∈ ["http"; "https"] ∧ url_connect_host u = Some host ∧
         port = default 80 (url_port_or_known_default u)) ∨
      (challenge_type = "tls-alpn-01" ∧ host = domain ∧ port = 443)
  | Built c _ => challenge_type = "http-01" ∧ redirect c = NoRedirect
  | Got c t _ =>
      challenge_type = "http-01" ∧
      if allow_private_ip_domains o then h = [] ∧ t = UrlText (first_page o domain token)
      else ∃ u host addr, t = ParsedUrl u ∧ next_page o domain token h u ∧
        url_scheme u ∈ ["http"; "https"] ∧ url_connect_host u = Some host ∧
        redirect c = NoRedirect ∧ resolve c = Some (host, addr) ∧
        checked h host (default 80 (url_port_or_known_default u)) addr
  | Read response _ =>
      is_success (status response) = true ∧ ∃ c t, last h = Some (Got c t (Ok response))
  | SystemConf _ => challenge_type = "dns-01" ∧ dns01_resolvers o = [] ∧ ∃ n, dns01_query_name domain = Ok n
  | ResolverBuilt _ _ _ | Slept _ => challenge_type = "dns-01"
  | LookedTxt c opts n _ =>
      challenge_type = "dns-01" ∧ dns01_query_name domain = Ok n ∧
      rc_domain c = None ∧ rc_search c = [] ∧ rc_name_servers c ≠ [] ∧
      resolvers_of o h (rc_name_servers c) ∧ opt_cache_size opts = 0%nat ∧ opt_use_hosts_file opts = HostsNever
  | Connected addr _ _ =>
      challenge_type = "tls-alpn-01" ∧
      if allow_private_ip_domains o
      then ∃ addrs, Looked domain 443 (Ok addrs) ∈ h ∧ head addrs = Some addr
      else checked h domain 443 addr
  | Shook c n s _ =>
      alpn_protocols c = [ACME_TLS_1] ∧ server_name_try_from domain = Ok n ∧
      ∃ addr seconds, last h = Some (Connected addr seconds (Some (Ok s)))
  end.

(** ** DNS answers *)

Lemma name_eqb_refl a : name_eqb a a = true.
Proof. exact (Equivalence_Reflexive (Equivalence := name_eqb_equivalence) a). Qed.
Lemma name_eqb_sym a b : name_eqb a b = true → name_eqb b a = true.
Proof. exact (Equivalence_Symmetric (Equivalence := name_eqb_equivalence) a b). Qed.
Lemma name_eqb_trans a b c : name_eqb a b = true → name_eqb b c = true → name_eqb a c = true.
Proof. exact (Equivalence_Transitive (Equivalence := name_eqb_equivalence) a b c). Qed.
Lemma name_eqb_congr a b c : name_eqb a b = true → name_eqb c a = name_eqb c b.
Proof.
  intros Hab. apply eq_true_iff_eq. split; intros HH; [by eapply name_eqb_trans|].
  eapply name_eqb_trans; [exact HH|]. by apply name_eqb_sym.
Qed.
Lemma cname_of_eqb a b answers : name_eqb a b = true → cname_of a answers = cname_of b answers.
Proof.
  intros Hab. unfold cname_of. induction answers as [|r answers IH]; cbn; [done|]. rewrite IH.
  destruct (data r); try done. by rewrite (name_eqb_congr a b).
Qed.

Lemma alias_head answers k n m : alias answers (S k) n m ↔ ∃ t, cname_of n answers = Some t ∧ alias answers k t m.
Proof.
  revert m. induction k as [|k IH]; intros m; split.
  - inversion 1 as [|? ? m' ? Hm Hc]; subst. inversion Hm; subst. eexists. split; [exact Hc|constructor].
  - intros (t & Hc & Ht). inversion Ht; subst. econstructor; [constructor|done].
  - inversion 1 as [|? ? m' ? Hm Hc]; subst. apply IH in Hm as (t & Ht & Hm). exists t.
    split; [done|]. by econstructor.
  - intros (t & Hc & Ht). inversion Ht as [|? ? m' ? Hm Hc']; subst. econstructor; [|exact Hc'].
    apply IH. eauto.
Qed.

(** Equal to one of the names. *)
Definition among (owners : list Name) (n : Name) : Prop := ∃ x, x ∈ owners ∧ name_eqb x n = true.
Lemma existsb_among owners n : existsb (λ owner, name_eqb owner n) owners = true ↔ among owners n.
Proof.
  unfold among. rewrite existsb_exists. by setoid_rewrite list_elem_of_In.
Qed.
Lemma among_self (owners : list Name) n : n ∈ owners → among owners n.
Proof. intros Hn. exists n. split; [done|apply name_eqb_refl]. Qed.
Lemma among_closed answers owners n k m :
  (∀ x t, x ∈ owners → cname_of x answers = Some t → among owners t) →
  among owners n → alias answers k n m → among owners m.
Proof.
  intros Hclosed Hn. induction 1 as [|k n m target Hm IH Hc]; [done|].
  destruct (IH Hn) as (x & Hx & Hxm). apply (Hclosed x); [done|]. by rewrite (cname_of_eqb x m).
Qed.

(** The owner names are the aliases, where the names before the current one lead
    no further. *)
Lemma owner_names_spec answers hops owners current n :
  current ∈ owners →
  (∀ x t, x ∈ owners → cname_of x answers = Some t → x = current ∨ among owners t) →
  among (owner_names hops answers owners current) n ↔
  among owners n ∨ ∃ k m, (k ≤ hops)%nat ∧ alias answers k current m ∧ name_eqb m n = true.
Proof.
  revert owners current. induction hops as [|hops IH]; intros owners current Hcur Hclosed; cbn.
  { split; [by left|]. intros [HH|(k & m & Hk & Hm & Hn)]; [done|]. exists current. split; [done|].
    assert (k = 0%nat) as -> by lia. by inversion Hm; subst. }
  destruct (cname_of current answers) as [t|] eqn:Hc; cycle 1.
  { split; [by left|]. intros [HH|(k & m & Hk & Hm & Hn)]; [done|]. destruct k as [|k].
    - inversion Hm; subst. by exists m.
    - apply alias_head in Hm as (t & Ht & _). congruence. }
  destruct (existsb _ _) eqn:Ht.
  - apply existsb_among in Ht. split; [by left|]. intros [HH|(k & m & Hk & Hm & Hn)]; [done|].
    assert (among owners m) as (x & Hx & Hxm); cycle 1.
    { exists x. split; [done|]. by rewrite <- (name_eqb_congr m n). }
    eapply among_closed; [|by apply among_self|done]. intros x t' Hx Ht'.
    destruct (Hclosed x t' Hx Ht') as [->|]; [congruence|done].
  - rewrite IH.
    + split.
      * intros [(x & [Hx|Hx]%elem_of_app & Hn)|(k & m & Hk & Hm & Hn)].
        -- left. by exists x.
        -- right. apply list_elem_of_singleton in Hx as ->. exists 1%nat, t. split_and!; [lia| |done].
           apply alias_head. exists t. split; [done|constructor].
        -- right. exists (S k), m. split_and!; [lia| |done]. apply alias_head. eauto.
      * intros [(x & Hx & Hn)|(k & m & Hk & Hm & Hn)].
        -- left. exists x. split; [|done]. by apply elem_of_app; left.
        -- destruct k as [|k].
           ++ inversion Hm; subst. left. exists m. split; [|done]. by apply elem_of_app; left.
           ++ right. apply alias_head in Hm as (t' & Ht' & Hm). exists k, m.
              split_and!; [lia|congruence|done].
    + apply elem_of_app. right. by apply list_elem_of_singleton.
    + intros x t' [Hx|Hx]%elem_of_app Ht'; [|left; by apply list_elem_of_singleton in Hx]. right.
      destruct (Hclosed x t' Hx Ht') as [->|(y & Hy & Hyt)].
      * replace t' with t by congruence. apply among_self, elem_of_app. right. by apply list_elem_of_singleton.
      * exists y. split; [by apply elem_of_app; left|done].
Qed.

(** The loop that collects names accepts the same answers as the relation. *)
Theorem txt_answers_match_spec query_name answers expected :
  txt_answers_match query_name answers expected = true ↔ txt_proof query_name answers expected.
Proof.
  unfold txt_answers_match, txt_proof. rewrite existsb_exists. setoid_rewrite <- list_elem_of_In.
  set (owners := owner_names _ _ _ _).
  assert (∀ n, existsb (λ owner, name_eqb owner n) owners = true ↔
               ∃ k m, (k ≤ MAX_CNAME_CHAIN)%nat ∧ alias answers k query_name m ∧ name_eqb m n = true) as Hown.
  { intros n. rewrite existsb_among. unfold owners. rewrite owner_names_spec.
    - split; [|by right]. intros [(x & ->%list_elem_of_singleton & Hx)|HH]; [|done].
      exists 0%nat, query_name. split_and!; [lia|constructor|done].
    - by apply list_elem_of_singleton.
    - intros x t ->%list_elem_of_singleton _. by left. }
  split.
  - intros (record & Hr & HH). destruct (data record) as [|txt|] eqn:Hd; try done.
    apply andb_true_iff in HH as [(k & m & Hk & Hm & Hn)%Hown Ht]. apply bool_decide_eq_true in Ht.
    by exists k, m, record, txt.
  - intros (k & m & record & txt & Hk & Hm & Hr & Hn & Hd & Ht). exists record. split; [done|].
    rewrite Hd. apply andb_true_iff. split; [apply Hown; eauto|by apply bool_decide_eq_true].
Qed.

(** ** Certificates *)

Lemma acme_identifier_digest_spec value digest :
  acme_identifier_digest value = Some digest ↔
  length digest = 32%nat ∧ (value = 0x04 :: 0x20 :: digest ∨ value = digest).
Proof.
  assert (∀ v, (if (length v =? 32)%nat then Some v else None) = Some digest ↔ length digest = 32%nat ∧ v = digest) as Hbare.
  { intros v. destruct (Nat.eqb_spec (length v) 32); split; [by intros [= <-]|by intros [_ ->]|done|by intros [? ->]]. }
  unfold acme_identifier_digest. cbv zeta. destruct value as [|tag [|len rest]]; cbv iota; [rewrite Hbare; naive_solver..|].
  destruct (Z.eqb_spec tag 4) as [->|Ht]; [|cbn [andb]; rewrite Hbare; naive_solver].
  destruct (Z.eqb_spec len 32) as [->|Hl]; [|cbn [andb]; rewrite Hbare; naive_solver]. cbn [andb].
  destruct (Nat.eqb_spec (length rest) 32) as [Hr|Hr]; [|rewrite Hbare; naive_solver].
  split; [intros [= <-]; auto|]. intros [Hd [[= ->]|<-]]; [done|]. cbn in Hd. lia.
Qed.

Lemma find_map_split {A B} (f : A → option B) (l : list A) b :
  find_map f l = Some b ↔ ∃ l1 x l2, l = l1 ++ x :: l2 ∧ f x = Some b ∧ ∀ y, y ∈ l1 → f y = None.
Proof.
  induction l as [|a l IH]; cbn.
  { split; [done|]. intros (l1 & x & l2 & Hl & _). by destruct l1. }
  destruct (f a) as [b'|] eqn:Ha.
  - split; [intros [= ->]; exists [], a, l; split_and!; [done..|]; by intros y ?%not_elem_of_nil|].
    intros ([|y l1] & x & l2 & Hl & Hx & Hn); [injection Hl as <- <-; congruence|].
    injection Hl as <- _. specialize (Hn a (list_elem_of_here _ _)). congruence.
  - rewrite IH. split; intros (l1 & x & l2 & Hl & Hx & Hn).
    + exists (a :: l1), x, l2. split_and!; [by rewrite Hl|done|]. by intros y [->|Hy%Hn]%elem_of_cons.
    + destruct l1 as [|a' l1]; injection Hl as <- ->; [congruence|]. exists l1, x, l2.
      split_and!; [done..|]. intros y Hy. by apply Hn, elem_of_cons; right.
Qed.

Lemma if_bool_decide_None {A} (Q : Prop) `{!Decision Q} (x : A) : ¬ Q → (if bool_decide Q then Some x else None) = None.
Proof. intros HQ. by rewrite bool_decide_eq_false_2. Qed.
Lemma acme_extension exts value :
  find_map (λ ext : string * list u8, if bool_decide (ext.1 = ACME_IDENTIFIER_OID) then Some ext.2 else None) exts
    = Some value ↔
  ∃ before after, exts = before ++ (ACME_IDENTIFIER_OID, value) :: after ∧ ACME_IDENTIFIER_OID ∉ before.*1.
Proof.
  rewrite find_map_split. split.
  - intros (before & [oid v] & after & -> & Hv & Hb). cbn in Hv. case_bool_decide as Hoid; [|done].
    injection Hv as ->. subst oid. exists before, after. split; [done|].
    intros ([oid' v'] & Heq & Hin)%list_elem_of_fmap. specialize (Hb _ Hin). cbn in *.
    by rewrite bool_decide_eq_true_2 in Hb.
  - intros (before & after & -> & Hnot). exists before, (ACME_IDENTIFIER_OID, value), after.
    split_and!; [done|by rewrite bool_decide_eq_true_2|]. intros [oid v] Hin. cbn.
    apply if_bool_decide_None. intros ->. apply Hnot, list_elem_of_fmap. by exists (ACME_IDENTIFIER_OID, v).
Qed.

Lemma alpn_certificate_spec domain digest session :
  alpn_certificate domain digest session = Ok true ↔ alpn_proof session digest.
Proof.
  unfold alpn_certificate, alpn_proof. destruct (decide (alpn_protocol session = Some ACME_TLS_1)) as [Hp|Hp]; cycle 1.
  { rewrite bool_decide_eq_false_2 by done. naive_solver. }
  rewrite bool_decide_eq_true_2 by done. cbn [negb].
  destruct (peer_certificates session) as [[|cert chain]|]; cbn; [naive_solver| |naive_solver].
  destruct (parse_extensions cert) as [exts|e] eqn:He; cycle 1.
  { split; [done|]. intros (_ & _ & c' & ch' & b & v & a & [= <- <-] & Hx & _). congruence. }
  destruct (find_map _ exts) as [value|] eqn:Hf; cycle 1.
  { split; [done|]. intros (_ & _ & c' & ch' & b & v & a & [= <- <-] & Hx & Hn & _).
    assert (∃ b a, exts = b ++ (ACME_IDENTIFIER_OID, v) :: a ∧ ACME_IDENTIFIER_OID ∉ b.*1) as Hv%acme_extension.
    { exists b, a. split; [congruence|done]. }
    congruence. }
  split.
  - destruct (acme_identifier_digest value) as [d|] eqn:Hd; [|done]. intros [= Hdd%bool_decide_eq_true].
    subst d. apply acme_identifier_digest_spec in Hd as [Hlen Hd].
    apply acme_extension in Hf as (before & after & -> & Hn).
    split_and!; [done..|]. by exists cert, chain, before, value, after.
  - intros (_ & Hlen & c' & ch' & b & v & a & [= <- <-] & Hx & Hn & Hd).
    assert (∃ b a, exts = b ++ (ACME_IDENTIFIER_OID, v) :: a ∧ ACME_IDENTIFIER_OID ∉ b.*1) as Hv%acme_extension.
    { exists b, a. split; [congruence|done]. }
    assert (value = v) as -> by congruence.
    assert (acme_identifier_digest v = Some digest) as -> by by apply acme_identifier_digest_spec.
    by rewrite bool_decide_eq_true_2.
Qed.

(** ** The validators *)

Section runs.
Context (o : ChallengeOptions) (challenge_type domain token thumbprint : string).
Abbreviation M A := (Prog NetE (result A Error)).
Abbreviation shown := (shows challenge_type token thumbprint).
Abbreviation traces := (traced net_event (justified o challenge_type domain token)).
Definition concluded (r : result bool Error) (h : list NetEvent) : Prop := r = Ok true ↔ shown h.

Lemma shows_snoc h ev : shown (h ++ [ev]) ↔ shows_key challenge_type token thumbprint ev.
Proof. unfold shows. by rewrite last_snoc. Qed.
(** An event that shows nothing ends in an error, or with no. *)
Lemma concluded_quiet r h ev : ¬ shows_key challenge_type token thumbprint ev → r ≠ Ok true → concluded r (h ++ [ev]).
Proof. intros Hev Hr. unfold concluded. rewrite shows_snoc. tauto. Qed.

Ltac quiet := intros; apply concluded_quiet; [cbn; intros []|discriminate].
Lemma traced_net {A B} (e : NetE (result A string)) f (k : A → M B) Q h :
  (∀ a, justified o challenge_type domain token h (net_event _ e (Ok a)) ∧ traces (k a) Q (h ++ [net_event _ e (Ok a)])) →
  (∀ s, justified o challenge_type domain token h (net_event _ e (Err s)) ∧ Q (Err (f s)) (h ++ [net_event _ e (Err s)])) →
  traces (let# a := net e f in k a) Q h.
Proof. intros Hok Herr. apply traced_bindM. intros [a|s]; [apply Hok|apply Herr]. Qed.
Lemma traced_lift {A B} (r : result A Error) (k : A → M B) Q h :
  (∀ a, r = Ok a → traces (k a) Q h) → (∀ e, r = Err e → Q (Err e) h) → traces (bind (lift r) k) Q h.
Proof. intros Hok Herr. destruct r; [by apply Hok|by apply Herr]. Qed.
Lemma traced_try_lift {A B} (r : result A string) f (k : A → M B) Q h :
  (∀ a, r = Ok a → traces (k a) Q h) → (∀ s, Q (Err (f s)) h) → traces (bind (try_lift r f) k) Q h.
Proof. intros Hok Herr. destruct r; [by apply Hok|by apply Herr]. Qed.

Lemma checked_snoc h ev host port addr : checked h host port addr → checked (h ++ [ev]) host port addr.
Proof. intros (addrs & Hl & HH). exists addrs. split; [by apply elem_of_app; left|done]. Qed.
Lemma traced_resolve_public {B} host port (k : SocketAddr → M B) Q h :
  (∀ r, justified o challenge_type domain token h (Looked host port r)) →
  (∀ e r, Q (Err e) (h ++ [Looked host port r])) →
  (∀ addr r, checked (h ++ [Looked host port r]) host port addr → traces (k addr) Q (h ++ [Looked host port r])) →
  traces (bind (resolve_public host port) k) Q h.
Proof.
  intros Hj Herr Hok. apply traced_bindM. unfold resolve_public. apply traced_net; [|intros s; split; [apply Hj|apply Herr]].
  intros addrs. split; [apply Hj|]. destruct addrs as [|addr addrs]; [apply Herr|].
  destruct (existsb _ _) eqn:Hex; [apply Herr|]. apply Hok. exists (addr :: addrs). split_and!.
  - apply elem_of_app. right. by apply list_elem_of_singleton.
  - apply list_elem_of_here.
  - apply Forall_forall. intros a Ha. apply not_true_iff_false. intros Hd.
    apply not_true_iff_false in Hex. apply Hex, existsb_exists. exists a. by rewrite <- list_elem_of_In.
Qed.

Lemma traced_http01_body response h c t :
  challenge_type = "http-01" →
  last h = Some (Got c t (Ok response)) →
  traces (http01_body domain (key_authorization token thumbprint) response) concluded h.
Proof.
  intros Hct Hlast. unfold http01_body. destruct (is_success (status response)) eqn:Hs; cbn [negb].
  - apply traced_net.
    + intros body. split; [split; [done|eauto]|]. cbn. unfold concluded. rewrite shows_snoc. cbn.
      case_bool_decide; split; [done|done|by intros [=]|naive_solver].
    + intros s. split; [split; [done|eauto]|]. quiet.
  - unfold fail. cbn. unfold concluded, shows. rewrite Hlast. split; [done|by intros []].
Qed.

Lemma pages_snoc h ev : pages (h ++ [ev]) = pages h ++ option_list (page ev).
Proof. unfold pages. rewrite omap_app. cbn. by destruct (page ev). Qed.
Lemma next_page_snoc h ev u : page ev = None → next_page o domain token h u → next_page o domain token (h ++ [ev]) u.
Proof. intros He. unfold next_page. by rewrite pages_snoc, He, app_nil_r. Qed.
Lemma http01_challenge_url_text : http01_challenge_url domain (http01_port o) token = first_page o domain token.
Proof. unfold http01_challenge_url, first_page. destruct (_ =? 80), (parse_ip_addr domain) as [[]|]; by rewrite ?str_app_assoc. Qed.

Lemma traced_http01_hops hops v u h :
  challenge_type = "http-01" → allow_private_ip_domains o = false → next_page o domain token h u →
  ¬ shown h → traces (http01_hops hops v domain (key_authorization token thumbprint) u) concluded h.
Proof.
  intros Hct Hguard. assert (∀ e h, ¬ shown h → concluded (Err e) h) as Hquiet by (by unfold concluded; intros; split).
  revert u h. induction hops as [|hops IH]; intros u h Hu Hh; cbn [http01_hops]; [by apply Hquiet|].
  destruct (contains _ _) eqn:Hs; cbn [negb]; [|by apply Hquiet]. apply contains_true in Hs.
  apply traced_lift; [|by intros; apply Hquiet]. intros host Hhost. apply ok_or_Ok in Hhost.
  apply traced_resolve_public; [intros r; left; by eauto 10|quiet|]. intros addr r Haddr.
  apply traced_net; [|intros s; split; [done|quiet]]. intros []. split; [done|].
  assert (∀ r', justified o challenge_type domain token ((h ++ [Looked host (default 80 (url_port_or_known_default u)) r]) ++
            [Built (pinned_client v host addr) (Ok ())]) (Got (pinned_client v host addr) (ParsedUrl u) r')) as Hgot.
  { intros r'. split; [done|]. rewrite Hguard. exists u, host, addr.
    split_and!; [done|by apply next_page_snoc, next_page_snoc|done..|]. by apply checked_snoc. }
  apply traced_net; [|intros s; split; [apply Hgot|quiet]].
  intros response. split; [apply Hgot|]. destruct (is_redirection _) eqn:Hred.
  - apply traced_lift; [|quiet]. intros loc Hloc%ok_or_Ok.
    apply traced_try_lift; [|quiet]. intros u' Hu'.
    apply IH; [|rewrite shows_snoc; by intros []].
    unfold next_page. rewrite pages_snoc. cbn. rewrite last_snoc. by exists u, response, loc.
  - eapply traced_http01_body; [done|by rewrite last_snoc].
Qed.

Lemma traced_http01_validate v : challenge_type = "http-01" →
  allow_private_domains v = allow_private_ip_domains o → http_port v = http01_port o →
  traces (http01_validate v domain token thumbprint) concluded [].
Proof.
  intros Hct Hv Hport. unfold http01_validate. rewrite Hv, Hport, http01_challenge_url_text.
  destruct (allow_private_ip_domains o) eqn:Hguard.
  - assert (∀ r, justified o challenge_type domain token [] (Got (client v) (UrlText (first_page o domain token)) r)) as Hgot.
    { intros r. cbn. by rewrite Hguard. }
    apply traced_net; [|intros s; split; [apply Hgot|quiet]]. intros response. split; [apply Hgot|].
    by eapply (traced_http01_body _ [_]).
  - apply traced_try_lift; [|intros s; split; [done|intros []]]. intros u Hu. apply traced_http01_hops; [done..|]. by intros [].
Qed.

(** *** dns-01 *)

Definition usable (c : ResolverConfig) (opts : ResolverOpts) (h : list NetEvent) : Prop :=
  rc_domain c = None ∧ rc_search c = [] ∧ rc_name_servers c ≠ [] ∧ resolvers_of o h (rc_name_servers c) ∧
  opt_cache_size opts = 0%nat ∧ opt_use_hosts_file opts = HostsNever.

Lemma usable_snoc c opts h ev : usable c opts h → usable c opts (h ++ [ev]).
Proof.
  intros (Hd & Hs & Hne & Hr & Hca & Hho). split_and!; [done..| |done|done]. unfold resolvers_of in *.
  destruct (dns01_resolvers o); [|done]. destruct Hr as (config & Hin & Hc). exists config.
  split; [by apply elem_of_app; left|done].
Qed.
Lemma resolver_config_Ok system seconds c opts h :
  dns01_resolver_config (dns01_resolvers o) system seconds = Ok (c, opts) →
  (∀ config, dns01_resolvers o = [] → system = Ok config → SystemConf (Ok (Ok config)) ∈ h) →
  usable c opts h.
Proof.
  intros Hc Hsys. unfold dns01_resolver_config in Hc. apply res_bind_Ok in Hc as (servers & Hs & Hc).
  destruct servers as [|server servers]; [done|]. injection Hc as <- <-. unfold usable, resolvers_of. cbn.
  split_and!; [done..| |done|done]. case_bool_decide as Hips.
  - rewrite Hips in *. destruct system as [config|]; [|done]. injection Hs as Hs. exists config. by split; [apply Hsys|].
  - destruct (validate_dns01_resolver_ips _); [|done]. injection Hs as Hs. by destruct (dns01_resolvers o).
Qed.

Lemma traced_dns01_rounds attempts v c opts n h : challenge_type = "dns-01" →
  dns01_query_name domain = Ok n → usable c opts h → ¬ shown h →
  traces (dns01_rounds attempts v c opts n
            (as_bytes (url_safe_encode (sha256 (as_bytes (key_authorization token thumbprint)))))) concluded h.
Proof.
  intros Hct Hn. revert h. induction attempts as [|attempt attempts IH]; intros h Hc Hh; cbn [dns01_rounds].
  { unfold ret. cbn. unfold concluded. naive_solver. }
  apply traced_net; [|intros s; split; [done|quiet]]. intros []. split; [done|].
  set (h1 := h ++ _). assert (usable c opts h1) as Hc1 by by apply usable_snoc.
  assert (∀ r, justified o challenge_type domain token h1 (LookedTxt c opts n r)) as Hj.
  { intros r. destruct Hc1 as (?&?&?&?&?&?). cbn. by split_and!. }
  apply traced_call. intros found. split; [apply Hj|]. set (h2 := h1 ++ _).
  assert (∀ ev', ¬ shows_key challenge_type token thumbprint ev' →
    traces (dns01_rounds attempts v c opts n
      (as_bytes (url_safe_encode (sha256 (as_bytes (key_authorization token thumbprint)))))) concluded (h2 ++ [ev'])) as Hnext.
  { intros ev' Hev. apply IH; [by do 2 apply usable_snoc|by rewrite shows_snoc]. }
  destruct found as [answers|s].
  - destruct (txt_answers_match _ _ _) eqn:Hm.
    + apply txt_answers_match_spec in Hm. unfold ret. cbn. unfold concluded, h2. rewrite shows_snoc. by split.
    + assert (¬ shown h2) as Hno.
      { unfold h2. rewrite shows_snoc. cbn. rewrite <- txt_answers_match_spec, Hm. by intros []. }
      destruct (attempt =? _); [unfold ret; cbn; unfold concluded; naive_solver|].
      apply traced_call. intros []. split; [done|]. apply Hnext. cbn. intros [].
  - destruct (attempt =? _); [unfold fail; cbn; quiet|]. apply traced_call. intros []. split; [done|]. apply Hnext. cbn. intros [].
Qed.

Lemma traced_dns01_validate v : challenge_type = "dns-01" →
  upstreams v = dns01_resolvers o → traces (dns01_validate v domain token thumbprint) concluded [].
Proof.
  intros Hct. assert (∀ e, concluded (Err e) []) as Hnil by (intros e; split; [done|intros []]).
  intros Hv. unfold dns01_validate. apply traced_lift; [|intros; apply Hnil]. intros n Hn.
  apply traced_bind.
  assert (∀ system h, ¬ shown h →
    (∀ config, dns01_resolvers o = [] → system = Ok config → SystemConf (Ok (Ok config)) ∈ h) →
    traces (dns01_validate_with_system v domain token thumbprint system) concluded h) as Hwith.
  { intros system h Hh Hsys. assert (∀ e, concluded (Err e) h) as He by (intros e; by split).
    unfold dns01_validate_with_system. rewrite Hn, Hv. apply traced_lift; [|intros; apply He].
    intros n' [= <-]. apply traced_lift; [|intros; apply He]. intros [c opts] Hc.
    apply traced_dns01_rounds; [done..| |done]. by eapply resolver_config_Ok. }
  case_bool_decide as Hups; rewrite Hv in Hups.
  - apply traced_call. intros r. split; [by split_and!; [..|eauto]|]. apply Hwith.
    + rewrite shows_snoc. cbn. intros [].
    + intros config _ Hr. apply elem_of_app. right. apply list_elem_of_singleton.
      destruct r as [r|]; cbn in Hr; [by rewrite Hr|done].
  - apply Hwith; [by intros []|done].
Qed.

(** *** tls-alpn-01 *)

Lemma traced_resolve_pinned {B} (k : SocketAddr → M B) (Q : result B Error → list NetEvent → Prop) h :
  (∀ r, justified o challenge_type domain token h (Looked domain 443 r)) →
  (∀ e r, Q (Err e) (h ++ [Looked domain 443 r])) →
  (∀ addr r, (if allow_private_ip_domains o
              then ∃ addrs, Looked domain 443 (Ok addrs) ∈ h ++ [Looked domain 443 r] ∧ head addrs = Some addr
              else checked (h ++ [Looked domain 443 r]) domain 443 addr) →
     traces (k addr) Q (h ++ [Looked domain 443 r])) →
  traces (bind (resolve_pinned domain 443 (allow_private_ip_domains o)) k) Q h.
Proof.
  intros Hj Herr Hok. unfold resolve_pinned. destruct (allow_private_ip_domains o) eqn:Ha; cbn [negb].
  - apply traced_bindM, traced_net; [|intros s; split; [apply Hj|apply Herr]]. intros addrs. split; [apply Hj|].
    destruct addrs as [|addr addrs]; [apply Herr|]. apply Hok. exists (addr :: addrs). split; [|done].
    apply elem_of_app. right. by apply list_elem_of_singleton.
  - by apply traced_resolve_public.
Qed.

Lemma traced_tls_alpn01_validate v : challenge_type = "tls-alpn-01" →
  tls_allow_private_domains v = allow_private_ip_domains o →
  traces (tls_alpn01_validate v domain token thumbprint) concluded [].
Proof.
  intros Hct Hv. unfold tls_alpn01_validate. rewrite Hv. apply traced_resolve_pinned; [intros r; by right|quiet|].
  intros addr r Haddr. apply traced_call. intros connected. split; [by split|].
  apply traced_lift; [|quiet]. intros tcp Htcp. apply traced_try_lift; [|quiet]. intros [] _.
  apply traced_try_lift; [|quiet]. intros n Hn.
  assert (∀ r', justified o challenge_type domain token (([] ++ [Looked domain 443 r]) ++ [Connected addr (tls_timeout_secs v) connected])
            (Shook {| verifier := AcmeTlsAlpnCertVerifier; alpn_protocols := [ACME_TLS_1] |} n tcp r')) as Hj.
  { intros r'. split_and!; [done..|]. exists addr, (tls_timeout_secs v).
    rewrite last_snoc. destruct connected as [[]|]; [|done..]. congruence. }
  apply traced_net; [|intros s; split; [apply Hj|quiet]]. intros session. split; [apply Hj|].
  unfold lift. cbn [traced]. unfold concluded. rewrite shows_snoc. cbn. rewrite alpn_certificate_spec. tauto.
Qed.

Lemma traced_validator : traces (validator o challenge_type domain token thumbprint) concluded [].
Proof.
  unfold validator. repeat case_bool_decide.
  - apply traced_http01_validate; [done|..]; unfold http01_of; by destruct (allow_private_ip_domains o).
  - by apply traced_dns01_validate.
  - apply traced_tls_alpn01_validate; [done|]. unfold tls_alpn01_of. by destruct (allow_private_ip_domains o).
  - split; [done|intros []].
Qed.
End runs.

(** ** How much a validator asks for *)

Lemma within_net {A B} (e : NetE (result A string)) f (k : A → Prog NetE (result B Error)) n :
  (∀ a, within n (k a)) → within (S n) (let# a := net e f in k a).
Proof. intros Hk. apply (within_bindM _ _ 1 n); [by intros [a|s]|done]. Qed.
Lemma within_lift {A B} (r : result A Error) (k : A → Prog NetE (result B Error)) n :
  (∀ a, within n (k a)) → within n (bind (lift r) k).
Proof. intros Hk. by apply (within_bindM _ _ 0 n). Qed.
Lemma within_try_lift {A B} (r : result A string) f (k : A → Prog NetE (result B Error)) n :
  (∀ a, within n (k a)) → within n (bind (try_lift r f) k).
Proof. intros Hk. apply (within_bindM _ _ 0 n); [by destruct r|done]. Qed.
Lemma within_resolve_public {B} host port (k : SocketAddr → Prog NetE (result B Error)) n :
  (∀ a, within n (k a)) → within (S n) (bind (resolve_public host port) k).
Proof.
  intros Hk. apply (within_bindM _ _ 1 n); [|done]. apply within_net. intros [|a addrs]; [done|].
  by destruct (existsb _ _).
Qed.
Lemma within_http01_body domain expected response : within 1 (http01_body domain expected response).
Proof. unfold http01_body. destruct (is_success _); cbn [negb]; [|done]. by apply within_net. Qed.
Lemma within_http01_hops hops v domain expected u :
  within (3 * hops + 1) (http01_hops hops v domain expected u).
Proof.
  revert u. induction hops as [|hops IH]; intros u; cbn [http01_hops]; [done|].
  replace (3 * S hops + 1)%nat with (S (S (S (3 * hops + 1)))) by lia. destruct (contains _ _); cbn [negb]; [|done].
  apply within_lift. intros host. apply within_resolve_public. intros addr. apply within_net. intros _.
  apply within_net. intros response. destruct (is_redirection _).
  - apply within_lift. intros loc. by apply within_try_lift.
  - eapply within_mono; [|apply within_http01_body]. lia.
Qed.
Lemma within_dns01_rounds attempts v c opts n expected :
  within (3 * length attempts) (dns01_rounds attempts v c opts n expected).
Proof.
  induction attempts as [|attempt attempts IH]; cbn [dns01_rounds length]; [done|].
  replace (3 * S (length attempts))%nat with (S (S (S (3 * length attempts)))) by lia.
  apply within_net. intros _ [answers|s]; cbn [prog_bind].
  - destruct (txt_answers_match _ _ _); [done|]. destruct (attempt =? _); [done|]. by intros [].
  - destruct (attempt =? _); [done|]. by intros [].
Qed.
Lemma within_dns01_validate v domain token thumbprint : within 16 (dns01_validate v domain token thumbprint).
Proof.
  unfold dns01_validate. apply within_lift. intros _. apply (within_bind _ _ 1 15); [by destruct (bool_decide _)|].
  intros system. apply within_lift. intros n. apply within_lift. intros resolver.
  apply (within_dns01_rounds (seqZ 1 DNS01_MAX_RETRIES)).
Qed.
Lemma within_tls_alpn01_validate v domain token thumbprint : within 3 (tls_alpn01_validate v domain token thumbprint).
Proof.
  unfold tls_alpn01_validate. apply (within_bindM _ _ 1 2).
  - unfold resolve_pinned. destruct (tls_allow_private_domains v); cbn [negb].
    + apply within_net. intros addrs. by destruct (head addrs).
    + apply (within_net _ _ _ 0). intros [|a addrs]; [done|]. by destruct (existsb _ _).
  - intros addr connected. cbn [prog_bind]. apply within_lift. intros tcp. apply within_try_lift. intros _.
    apply within_try_lift. intros n. by apply within_net.
Qed.
Lemma within_validator o challenge_type domain token thumbprint :
  within 34 (validator o challenge_type domain token thumbprint).
Proof.
  unfold validator. repeat case_bool_decide.
  - unfold http01_validate. destruct (allow_private_domains _).
    + apply within_net. intros response. eapply within_mono; [|apply within_http01_body]. lia.
    + apply within_try_lift. intros u. assert (max_redirects (http01_of o) = 10%nat) as ->.
      { unfold http01_of. by destruct (allow_private_ip_domains o). }
      apply (within_http01_hops 11).
  - eapply within_mono; [|apply within_dns01_validate]. lia.
  - eapply within_mono; [|apply within_tls_alpn01_validate]. lia.
  - done.
Qed.
End validators.
