(* ===== verification/AcmeServer.v ===== *)
(** * The ACME server

    The handlers of [crates/ostrich-acme/src/rest.rs] with the objects of
    [account.rs], [order.rs], [authorization.rs] and [challenge.rs], and
    [AcmeCaClient::finalize_order] of [ca_integration.rs] with the retry loop
    of [crates/ostrich-common/src/grpc_client.rs].

    A handler is a program: what it asks of the outside (one SQL statement,
    the clock, a random Uuid, the network, the CA, the audit sink) is an
    effect of Programs.v.  AcmeRun.v says how effects answer.  The [serde_json], [uuid],
    [chrono] and [x509-cert] crates, and the CSR parser of
    [crates/ostrich-x509/src/parser.rs], are the class [AcmeLib]. *)
From stdpp Require Import base list strings gmap.
From Stdlib Require Import Ascii.
From S2P Require Import AcmeValidators.
From S2P Require Import Prelude Text Programs Algorithm IpAddr AcmeIdentifier AcmeJws AcmeStore.
#[local] Open Scope Z_scope.

(** ** Requests, objects and responses *)

Record NewAccountRequest := {
  contact : list string; terms_of_service_agreed : bool; only_return_existing : option bool
}.
Record NewOrderRequest := {
  identifiers : list Identifier; not_before : option string; not_after : option string
}.
Record UpdateAccountRequest := { up_contact : option (list string); up_status : option string }.

Record DistinguishedName := {
  common_name : option string; organization : option string; organizational_unit : option string;
  locality : option string; state_or_province : option string; country : option string;
  serial_number : option string
}.
(** What the code reads of [CertReq]: whether the subject is empty, the
    subject as [convert_subject_to_proto] gives it, and the key's DER form. *)
Record CertReq := {
  subject_is_empty : bool;
  convert_subject_to_proto : result DistinguishedName Error;
  public_key_to_der : result (list u8) string
}.

Class AcmeLib := {
  Json : Type;
  jwk_to_value : Jwk → result Json string;
  jwk_from_value : Json → result Jwk string;
  identifiers_to_value : list Identifier → result Json string;
  identifiers_from_value : Json → result (list Identifier) string;
  problem_document : string → string → Json;
  new_account_from_slice : list u8 → result NewAccountRequest string;
  new_order_from_slice : list u8 → result NewOrderRequest string;
  update_account_from_slice : list u8 → result UpdateAccountRequest string;
  challenge_response_from_slice : list u8 → result unit string;
  (** [FinalizeRequest] has the one field [csr]. *)
  finalize_from_slice : list u8 → result string string;
  parse_datetime : string → option DateTime;
  uuid_to_string : Uuid → string;
  uuid_parse : string → option Uuid;
  (** The [subject_alternative_names] of a CSR. *)
  parse_csr : list u8 → result (list string) string;
  cert_req_from_der : list u8 → result CertReq string;
  crypto_text : CryptoError → string;
  jwk_value_roundtrip k v : jwk_to_value k = Ok v → jwk_from_value v = Ok k;
  identifiers_value_roundtrip l v :
    identifiers_to_value l = Ok v → identifiers_from_value v = Ok l;
  uuid_parse_to_string u : uuid_parse (uuid_to_string u) = Some u;
  (** The hyphenated form: hexadecimal digits and hyphens. *)
  uuid_characters u : forallb (λ c, is_digit c || Ascii.eqb c "-" ||
    existsb (Ascii.eqb c) ["a"; "b"; "c"; "d"; "e"; "f"]%char)
    (String.list_ascii_of_string (uuid_to_string u)) = true
}.

Inductive AccountStatus := AValid | ADeactivated | ARevoked.
Inductive OrderStatus := OPending | OReady | OProcessing | OValid | OInvalid.
Inductive AuthorizationStatus := ZPending | ZValid | ZInvalid | ZDeactivated | ZExpired | ZRevoked.
Inductive ChallengeStatus := CPending | CProcessing | CValid | CInvalid.
Inductive ChallengeType := Http01 | Dns01 | TlsAlpn01.

(** The serialized fields of the objects. *)
Record Account := {
  acct_status : AccountStatus; acct_contact : list string; acct_terms : option bool;
  acct_orders : string
}.
Record Order := {
  ord_status : OrderStatus; ord_expires : option DateTime; ord_identifiers : list Identifier;
  ord_not_before : option DateTime; ord_not_after : option DateTime;
  ord_authorizations : list string; ord_finalize : string; ord_certificate : option string
}.
Record Challenge `{!AcmeLib} := {
  chl_type : ChallengeType; chl_status : ChallengeStatus; chl_url : string; chl_token : string;
  chl_error : option Json; chl_validated : option DateTime
}.
Record Authorization `{!AcmeLib} := {
  atz_status : AuthorizationStatus; atz_expires : option DateTime; atz_identifier : Identifier;
  atz_challenges : list Challenge; atz_wildcard : option bool
}.

Inductive Body `{!AcmeLib} :=
| BodyEmpty | BodyAccount (a : Account) | BodyOrder (o : Order) | BodyAuthorization (a : Authorization)
| BodyChallenge (c : Challenge) | BodyPem (pem : string).
Record Response `{!AcmeLib} := {
  rs_status : Z; rs_headers : list (string * string); rs_body : Body
}.

(** The request to the CA. *)
Inductive SubjectAltName :=
| DnsName (s : string) | Rfc822Name (s : string) | Uri (s : string) | IpAddress (s : string)
| DirectoryName (s : string).
Record IssueCertificateRequest := {
  profile_name : string; subject : DistinguishedName; subject_alt_names : list SubjectAltName;
  public_key : list u8; requestor : string; acme_order_id : string; acme_account_id : string;
  csr_der : list u8; request_id : string
}.
(** A gRPC error: its text, and whether [is_retryable_error] holds of it. *)
Record Status := { status_text : string; is_retryable_error : bool }.

Inductive EventDetails :=
| NoDetails | ProblemType (problem : string)
| OrderDetails (count dns ip other wildcards : nat) (problem : option string)
    (ids : option (list string)).
Record AuditEvent := {
  ev_actor : string; ev_target : string; ev_action : string; ev_success : bool;
  ev_details : EventDetails
}.

(** ** Effects and programs *)

Section effects.
Context `{!AcmeLib}.

Abbreviation Db := (AcmeDb Json).

Inductive AcmeE : Type → Type :=
| ESql {A} (statement : Db → result A string * Db) : AcmeE (result A string)
| ECreateNonce (nonce : string) (expires_at : DateTime) : AcmeE (result unit string)
| EConsumeNonce (nonce : string) : AcmeE (result bool string)
| ENow : AcmeE DateTime
| ENewUuid : AcmeE Uuid
| EValidate (challenge_type domain token thumbprint : string) : AcmeE (result bool Error)
| EVerifyCsr (csr : list u8) : AcmeE (result bool string)
| ERequestAllowed : AcmeE (result unit string)
| EIssue (r : IssueCertificateRequest) : AcmeE (result string Status)
| ERecord (ev : AuditEvent) : AcmeE unit
| ESpawn (c : AcmeChallenge Json) : AcmeE unit.

End effects.

Abbreviation Prog := (Programs.Prog AcmeE).
Abbreviation M A := (Programs.Prog AcmeE (result A Error)).

Section server.
Context `{!HickoryName, !JwsLib, !VerifyLib, !AcmeLib}.

Definition try_sql {A} (f : Sql (Json := Json) A) : Prog (result A string) := call (ESql f).
(** [.await?] on the repository. *)
Definition sql {A} (f : Sql (Json := Json) A) : M A :=
  let^ r := try_sql f in
  Done (match r with Ok a => Ok a | Err e => Err (Database e) end).

(** [AcmeState], with the settings of the validators. *)
Record AcmeState := {
  base_url : string; has_ca_client : bool; max_retries : nat; challenge_options : ChallengeOptions
}.

Record ValidatedJwsRequest {T : Type} := {
  vr_payload : T; vr_jwk : Jwk; vr_thumbprint : string; vr_account_id : Uuid
}.
Arguments ValidatedJwsRequest : clear implicits.
Record VerifiedJwsAccount := {
  va_jwk : Jwk; va_thumbprint : string; va_account_id : Uuid; va_payload_b64 : string
}.

(** *** Authentication *)

Definition url_mismatch (expected got : string) : Error :=
  Malformed ("JWS URL mismatch: expected '" +:+ expected +:+ "', got '" +:+ got +:+ "'").

(** [consume_nonce(..).map_err(|_| BadNonce)?] and the test of its answer. *)
Definition use_nonce (nonce : string) : M unit :=
  let^ nonce_ok := call (EConsumeNonce nonce) in
  match nonce_ok with
  | Ok true => ret tt
  | Ok false | Err _ => fail BadNonce
  end.

Definition invalid_payload {A} (r : result A string) : result A Error :=
  malformed "Invalid payload JSON: " r.

Definition check_signature (jws : JwsEnvelope) (header : ProtectedHeader) (k : Jwk) : M unit :=
  let# signature_valid := lift (verify_jws_with_jwk crypto_text jws header k) in
  if negb signature_valid then fail (Unauthorized "Invalid JWS signature") else ret tt.

Definition validate_jws_new_account {T} (from_slice : list u8 → result T string) (body : list u8)
    (expected_url : string) : M (ValidatedJwsRequest T) :=
  let# jws := lift (parse_jws body) in
  let# header := lift (decode_protected_header (protected jws)) in
  if negb (bool_decide (url header = expected_url)) then
    fail (url_mismatch expected_url (url header))
  else
    let# _ := use_nonce (nonce header) in
    let# k := lift (ok_or (jwk header) (Malformed "JWK required for new-account")) in
    let# _ := check_signature jws header k in
    let# thumbprint := lift (compute_jwk_thumbprint k) in
    let# payload_bytes := lift (decode_base64url (payload jws)) in
    let# p := lift (invalid_payload (from_slice payload_bytes)) in
    ret {| vr_payload := p; vr_jwk := k; vr_thumbprint := thumbprint; vr_account_id := 0%N |}.

(** [kid.rsplit('/').next().filter(..)]. *)
Definition account_id_of_kid (kid : string) : option string :=
  match last (split_on "/" kid) with
  | Some s => if bool_decide (s = "") then None else Some s
  | None => None
  end.

Definition verify_jws_account (body : list u8) (expected_url : string) : M VerifiedJwsAccount :=
  let# jws := lift (parse_jws body) in
  let# header := lift (decode_protected_header (protected jws)) in
  if negb (bool_decide (url header = expected_url)) then
    fail (url_mismatch expected_url (url header))
  else
    let# _ := use_nonce (nonce header) in
    let# kid := lift (ok_or (kid header) (Malformed "kid required for this request")) in
    let# account_id_str := lift (ok_or (account_id_of_kid kid)
                                   (Malformed ("Invalid kid: " +:+ kid))) in
    let# found := sql (find_account_by_id account_id_str) in
    let# account := lift (ok_or found AccountDoesNotExist) in
    let# k := lift (match jwk_from_value (ac_public_key_jwk account) with
                    | Ok k => Ok k
                    | Err e => Err (ServerInternal ("Failed to parse stored JWK: " +:+ e))
                    end) in
    let# _ := check_signature jws header k in
    let# thumbprint := lift (compute_jwk_thumbprint k) in
    ret {| va_jwk := k; va_thumbprint := thumbprint; va_account_id := ac_id account;
           va_payload_b64 := payload jws |}.

Definition validate_jws_with_account {T} (from_slice : list u8 → result T string) (body : list u8)
    (expected_url : string) : M (ValidatedJwsRequest T) :=
  let# v := verify_jws_account body expected_url in
  let# payload_bytes := lift (decode_base64url (va_payload_b64 v)) in
  let# p := lift (invalid_payload (from_slice payload_bytes)) in
  ret {| vr_payload := p; vr_jwk := va_jwk v; vr_thumbprint := va_thumbprint v;
         vr_account_id := va_account_id v |}.

(** *** Objects of the service *)

Definition map_db_account_to_service (a : AcmeAccount Json) (base_url : string) : Account :=
  {| acct_status := match ac_status a with
                    | "valid" => AValid | "deactivated" => ADeactivated | "revoked" => ARevoked
                    | _ => AValid
                    end;
     acct_contact := ac_contact a; acct_terms := Some (ac_terms_of_service_agreed a);
     acct_orders := base_url +:+ "/acme/account/" +:+ ac_account_id a +:+ "/orders" |}.

Definition map_db_order_to_service (o : AcmeOrder Json) (auths : list string) (base_url : string)
    : Order :=
  {| ord_status := match or_status o with
                   | "pending" => OPending | "ready" => OReady | "processing" => OProcessing
                   | "valid" => OValid | "invalid" => OInvalid | _ => OPending
                   end;
     ord_expires := Some (or_expires o);
     ord_identifiers := match identifiers_from_value (or_identifiers o) with
                        | Ok l => l | Err _ => [] end;
     ord_not_before := or_not_before o; ord_not_after := or_not_after o;
     ord_authorizations := auths;
     ord_finalize := base_url +:+ "/acme/order/" +:+ or_order_id o +:+ "/finalize";
     ord_certificate := (λ _, base_url +:+ "/acme/cert/" +:+ or_order_id o) <$> or_certificate_id o |}.

Definition map_db_challenge_to_service (c : AcmeChallenge Json) (base_url : string) : Challenge :=
  {| chl_type := match ch_challenge_type c with
                 | "http-01" => Http01 | "dns-01" => Dns01 | "tls-alpn-01" => TlsAlpn01
                 | _ => Http01
                 end;
     chl_status := match ch_status c with
                   | "pending" => CPending | "processing" => CProcessing | "valid" => CValid
                   | "invalid" => CInvalid | _ => CPending
                   end;
     chl_url := base_url +:+ "/acme/challenge/" +:+ ch_challenge_id c; chl_token := ch_token c;
     chl_error := ch_error_detail c; chl_validated := ch_validated_at c |}.

Definition map_db_authorization_to_service (a : AcmeAuthorization) (cs : list Challenge)
    : Authorization :=
  {| atz_status := match au_status a with
                   | "pending" => ZPending | "valid" => ZValid | "invalid" => ZInvalid
                   | "deactivated" => ZDeactivated | "expired" => ZExpired | "revoked" => ZRevoked
                   | _ => ZPending
                   end;
     atz_expires := Some (au_expires a);
     atz_identifier := {| id_type := au_identifier_type a; value := au_identifier_value a |};
     atz_challenges := cs; atz_wildcard := if au_wildcard a then Some true else None |}.

(** A random identifier as text, with its prefix. *)
Definition new_id (prefix : string) : Prog string :=
  let^ u := call ENewUuid in Done (prefix +:+ uuid_to_string u).

(** A failure to store the nonce is only reported. *)
Definition generate_nonce : Prog string :=
  let^ nonce := new_id "" in
  let^ now := call ENow in
  let^ _ := call (ECreateNonce nonce (now + seconds 300)) in
  Done nonce.

Definition respond (status : Z) (headers : list (string * string)) (nonce : string) (b : Body)
    : M Response :=
  ret {| rs_status := status; rs_headers := headers ++ [("Replay-Nonce", nonce)]; rs_body := b |}.

(** [head] says whether the request is a HEAD. *)
Definition get_new_nonce (head : bool) : Prog Response :=
  let^ nonce := generate_nonce in
  Done {| rs_status := if head then 200 else 204;
          rs_headers := [("Replay-Nonce", nonce); ("Cache-Control", "no-store")];
          rs_body := BodyEmpty |}.

(** *** Accounts *)

Variable st : AcmeState.
Definition acme_url (path : string) : string := base_url st +:+ "/acme/" +:+ path.

Definition account_response (status : Z) (account_id : string) (a : AcmeAccount Json) : M Response :=
  let^ nonce := generate_nonce in
  respond status [("Location", acme_url ("account/" +:+ account_id))] nonce
    (BodyAccount (map_db_account_to_service a (base_url st))).

Definition existing_account_response (a : AcmeAccount Json) : M Response :=
  account_response 200 (ac_account_id a) a.

Definition new_account (body : list u8) : M Response :=
  let# v := validate_jws_new_account new_account_from_slice body (acme_url "new-account") in
  let request := vr_payload v in
  let# public_key_jwk := lift (match jwk_to_value (vr_jwk v) with
                               | Ok j => Ok j
                               | Err e => Err (ServerInternal ("Failed to serialize JWK: " +:+ e))
                               end) in
  let# existing := sql (find_account_by_jwk (vr_thumbprint v)) in
  match existing with
  | Some a => existing_account_response a
  | None =>
      if bool_decide (only_return_existing request = Some true) then fail AccountDoesNotExist
      else if negb (terms_of_service_agreed request) then
        fail (UserActionRequired "Terms of service must be agreed to")
      else
        let^ account_id := new_id "acct-" in
        let^ id := call ENewUuid in
        let^ created := try_sql (create_account id account_id (vr_thumbprint v) public_key_jwk
                                   (contact request) "valid" true) in
        match created with
        | Ok a => account_response 201 account_id a
        | Err e =>
            let# existing := sql (find_account_by_jwk (vr_thumbprint v)) in
            match existing with
            | Some a => existing_account_response a
            | None => fail (Database e)
            end
        end
  end.

Definition update_account (id : string) (body : list u8) : M Response :=
  let# v := validate_jws_with_account update_account_from_slice body
              (acme_url ("account/" +:+ id)) in
  if negb (bool_decide (id = uuid_to_string (vr_account_id v))) then
    fail (Unauthorized "Cannot update another account")
  else
    let# a := sql (AcmeStore.update_account id (up_contact (vr_payload v))
                     (up_status (vr_payload v))) in
    let^ nonce := generate_nonce in
    respond 200 [] nonce (BodyAccount (map_db_account_to_service a (base_url st))).

(** *** Orders *)

(** [record_audit]: a failure of the sink is only reported. *)
Definition record_audit (ev : AuditEvent) : Prog unit := call (ERecord ev).

Definition count_ids (P : Identifier → bool) (ids : list Identifier) : nat :=
  length (List.filter P ids).
Definition is_type (t : string) (id : Identifier) : bool := bool_decide (id_type id = t).

Definition new_order_audit_event (account_id : string) (order_id : option string)
    (ids : list Identifier) (refusal : option Error) : AuditEvent :=
  let details := OrderDetails (length ids) (count_ids (is_type "dns") ids)
    (count_ids (is_type "ip") ids)
    (count_ids (λ id, negb (is_type "dns" id) && negb (is_type "ip" id)) ids)
    (count_ids (λ id, is_type "dns" id && String.prefix "*." (value id)) ids) in
  let event target success d := {| ev_actor := account_id; ev_target := target;
    ev_action := "new_order"; ev_success := success; ev_details := d |} in
  match order_id, refusal with
  | _, Some e => event "acme:new-order" false (details (Some (error_type e)) None)
  | Some order_id, None =>
      event ("acme:order:" +:+ order_id) true
        (details None (Some ((λ id, id_type id +:+ ":" +:+ value id) <$> ids)))
  | None, None => event "acme:new-order" false (details None None)
  end.

Definition finalize_refusal_audit_event (account_id order_id : string) (refusal : Error)
    : AuditEvent :=
  {| ev_actor := account_id; ev_target := "acme:order:" +:+ order_id;
     ev_action := "finalize_order"; ev_success := false;
     ev_details := ProblemType (error_type refusal) |}.

(** The challenges of one authorization. *)
Fixpoint create_challenges (authorization : Uuid) (types : list string) : M unit :=
  match types with
  | [] => ret tt
  | t :: types =>
      let^ challenge_id := new_id "chall-" in
      let^ token := new_id "" in
      let^ id := call ENewUuid in
      let# _ := sql (create_challenge id challenge_id authorization t token "pending") in
      create_challenges authorization types
  end.

(** The authorizations of an order, one per identifier; their URLs. *)
Fixpoint create_authorizations (order : Uuid) (ids : list AuthzIdentifier) : M (list string) :=
  match ids with
  | [] => ret []
  | identifier :: ids =>
      let^ authz_id := new_id "authz-" in
      let^ now := call ENow in
      let^ id := call ENewUuid in
      let# db_authz := sql (create_authorization id authz_id order (az_type identifier)
                              (az_value identifier) "pending" (now + seconds (7 * 86400))
                              (az_wildcard identifier)) in
      let# _ := create_challenges (au_id db_authz) (challenge_types identifier) in
      let# urls := create_authorizations order ids in
      ret (acme_url ("authz/" +:+ authz_id) :: urls)
  end.

Definition new_order (body : list u8) : M Response :=
  let# v := validate_jws_with_account new_order_from_slice body (acme_url "new-order") in
  let request := vr_payload v in
  let account_id := vr_account_id v in
  match validate_order_identifiers (identifiers request) with
  | Err e =>
      let^ _ := record_audit (new_order_audit_event (uuid_to_string account_id) None
                                (identifiers request) (Some e)) in
      fail e
  | Ok authz_identifiers =>
      let^ order_id := new_id "order-" in
      let^ now := call ENow in
      let# identifiers_json :=
        lift (match identifiers_to_value (identifiers request) with
              | Ok j => Ok j
              | Err e => Err (ServerInternal ("Failed to serialize identifiers: " +:+ e))
              end) in
      let^ id := call ENewUuid in
      let# db_order := sql (create_order id order_id account_id "pending" identifiers_json
                              (not_before request ≫= parse_datetime)
                              (not_after request ≫= parse_datetime)
                              (now + seconds (7 * 86400))) in
      let# urls := create_authorizations (or_id db_order) authz_identifiers in
      let^ _ := record_audit (new_order_audit_event (uuid_to_string account_id) (Some order_id)
                                (identifiers request) None) in
      let^ nonce := generate_nonce in
      respond 201 [("Location", acme_url ("order/" +:+ order_id))] nonce
        (BodyOrder (map_db_order_to_service db_order urls (base_url st)))
  end.

Definition authorization_urls (authzs : list AcmeAuthorization) : list string :=
  (λ a, acme_url ("authz/" +:+ au_authorization_id a)) <$> authzs.

Definition get_order (id : string) : M Response :=
  let# found := sql (find_order_by_id id) in
  let# db_order := lift (ok_or found (Malformed ("Order not found: " +:+ id))) in
  let# db_authzs := sql (list_authorizations_by_order (or_id db_order)) in
  let^ nonce := generate_nonce in
  respond 200 [] nonce
    (BodyOrder (map_db_order_to_service db_order (authorization_urls db_authzs) (base_url st))).

Definition get_authorization (id : string) : M Response :=
  let# found := sql (find_authorization_by_id id) in
  let# db_authz := lift (ok_or found (Malformed ("Authorization not found: " +:+ id))) in
  let# db_challenges := sql (list_challenges_by_authorization (au_id db_authz)) in
  let^ nonce := generate_nonce in
  respond 200 [] nonce
    (BodyAuthorization (map_db_authorization_to_service db_authz
       ((λ c, map_db_challenge_to_service c (base_url st)) <$> db_challenges))).

(** *** Challenges *)

Definition check_challenge_permitted (authz : AcmeAuthorization) (challenge_type : string)
    : result unit Error :=
  if au_wildcard authz && negb (bool_decide (challenge_type = "dns-01")) then
    Err (Unauthorized "wildcard authorizations can only be validated with dns-01")
  else if bool_decide (au_identifier_type authz = "ip") &&
          negb (bool_decide (challenge_type = "http-01")) then
    Err (Unauthorized "ip authorizations can only be validated with http-01")
  else if has_char "*" (au_identifier_value authz) then
    Err (Malformed "authorization identifier is not a valid DNS name")
  else Ok tt.

Definition challenge_error_document (e : Error) : Json :=
  problem_document (error_type e) (client_detail e).

(** The validators, by challenge type. *)
Definition run_validator (challenge_type domain token thumbprint : string) : M bool :=
  if contains challenge_type ["http-01"; "dns-01"; "tls-alpn-01"] then
    call (EValidate challenge_type domain token thumbprint)
  else fail (Malformed ("Unsupported challenge type: " +:+ challenge_type)).

Definition validate_challenge_inner (challenge : AcmeChallenge Json) : M unit :=
  let# found := sql (find_authorization_by_uuid (ch_authorization_id challenge)) in
  let# authz := lift (ok_or found (ServerInternal "Authorization not found")) in
  let# _ := lift (check_challenge_permitted authz (ch_challenge_type challenge)) in
  let# found := sql (find_order_by_uuid (au_order_id authz)) in
  let# order := lift (ok_or found (ServerInternal "Order not found")) in
  let# found := sql (find_account_by_uuid (or_account_id order)) in
  let# account := lift (ok_or found (ServerInternal "Account not found")) in
  let# valid := run_validator (ch_challenge_type challenge) (au_identifier_value authz)
                  (ch_token challenge) (ac_jwk_thumbprint account) in
  if negb valid then
    fail (IncorrectResponse "Challenge response did not match key authorization")
  else
    let^ now := call ENow in
    let# _ := sql (update_challenge_status (ch_challenge_id challenge) "valid" (Some now) None) in
    let# _ := sql (update_authorization_status (au_authorization_id authz) "valid") in
    let# authzs := sql (list_authorizations_by_order (or_id order)) in
    if forallb (λ a, bool_decide (au_status a = "valid")) authzs then
      let# _ := sql (update_order_status (or_id order) "ready") in ret tt
    else ret tt.

Definition outcome_recorded (challenge_id : string) : Prog bool :=
  let^ r := try_sql (find_challenge_by_id challenge_id) in
  Done match r with
       | Ok (Some c) => bool_decide (ch_status c = "valid")
       | _ => false
       end.

Definition run_challenge_validation (challenge : AcmeChallenge Json) : Prog unit :=
  let challenge_id := ch_challenge_id challenge in
  let^ outcome := validate_challenge_inner challenge in
  let^ _ :=
    match outcome with
    | Ok _ => Done tt
    | Err e =>
        let^ _ := try_sql (update_challenge_status challenge_id "invalid" None
                             (Some (challenge_error_document e))) in
        let^ found := try_sql (find_authorization_by_uuid (ch_authorization_id challenge)) in
        match found with
        | Ok (Some authz) =>
            let^ _ := try_sql (update_authorization_status (au_authorization_id authz) "invalid") in
            Done tt
        | _ => Done tt
        end
    end in
  let^ success := outcome_recorded challenge_id in
  call (ERecord {| ev_actor := "acme-validator"; ev_target := "acme:challenge:" +:+ challenge_id;
                   ev_action := "validate_challenge"; ev_success := success;
                   ev_details := NoDetails |}).

Definition respond_to_challenge (id : string) (body : list u8) : M Response :=
  let# _ := validate_jws_with_account challenge_response_from_slice body
              (acme_url ("challenge/" +:+ id)) in
  let# found := sql (find_challenge_by_id id) in
  let# db_challenge := lift (ok_or found (Malformed ("Challenge not found: " +:+ id))) in
  let# updated := sql (update_challenge_status id "processing" None None) in
  let# up := sql (find_authorization_by_uuid (ch_authorization_id db_challenge)) in
  let^ _ := call (ESpawn db_challenge) in
  let^ nonce := generate_nonce in
  ret {| rs_status := 200;
         rs_headers := ("Replay-Nonce", nonce) ::
           match up with
           | Some a => [("Link", "<" +:+ acme_url ("authz/" +:+ au_authorization_id a) +:+
                                 ">;rel=" +:+ quoted "up")]
           | None => []
           end;
         rs_body := BodyChallenge (map_db_challenge_to_service updated (base_url st)) |}.

(** *** Finalization *)

Definition lower_if_dns (ty v : string) : string * string :=
  let ty := to_ascii_lowercase ty in
  (ty, if bool_decide (ty = "dns") then to_ascii_lowercase v else v).

Definition csr_entry (san : string) : result (string * string) Error :=
  match strip_prefix "DNS:" san with
  | Some dns => Ok (lower_if_dns "dns" dns)
  | None =>
      match strip_prefix "IP:" san with
      | Some ip => Ok (lower_if_dns "ip" ip)
      | None => Err (Unauthorized ("CSR contains a Subject Alternative Name that is not an authorized ACME identifier: " +:+ san))
      end
  end.

Fixpoint csr_entries (sans : list string) (requested : gset (string * string))
    : result (gset (string * string)) Error :=
  match sans with
  | [] => Ok requested
  | san :: sans => let? entry := csr_entry san in csr_entries sans ({[entry]} ∪ requested)
  end.

(** The text of the error lists both sets; it is left out. *)
Definition validate_csr_identifiers (order_identifiers : list Identifier) (csr_sans : list string)
    : result unit Error :=
  let authorized : gset (string * string) :=
    list_to_set ((λ id, lower_if_dns (id_type id) (value id)) <$> order_identifiers) in
  let? requested := csr_entries csr_sans ∅ in
  if bool_decide (authorized = requested) then Ok tt
  else Err (Unauthorized "CSR identifiers do not match the order's authorized identifiers (RFC 8555 §7.4)").

Definition row_key (a : AcmeAuthorization) : Key :=
  (au_identifier_type a, to_ascii_lowercase (au_identifier_value a), au_wildcard a).

Definition unbound : Error :=
  Unauthorized "order authorizations do not match the order identifiers".

Fixpoint bind_rows (authzs : list AcmeAuthorization) (expected_keys : gset Key)
    : result (gset Key) Error :=
  match authzs with
  | [] => Ok expected_keys
  | authz :: authzs =>
      if bool_decide (row_key authz ∈ expected_keys) then
        bind_rows authzs (expected_keys ∖ {[row_key authz]})
      else Err unbound
  end.

Definition proven_by_http01 (cs : list (AcmeChallenge Json)) (authz : AcmeAuthorization) : bool :=
  existsb (λ c, bool_decide (ch_authorization_id c = au_id authz) &&
                bool_decide (ch_challenge_type c = "http-01") &&
                bool_decide (ch_status c = "valid")) cs.

Definition check_order_finalizable (order : AcmeOrder Json) (order_identifiers : list Identifier)
    (authzs : list AcmeAuthorization) (cs : list (AcmeChallenge Json)) (now : DateTime)
    : result unit Error :=
  if negb (bool_decide (or_status order = "ready")) || (or_expires order <=? now) then
    Err OrderNotReady
  else
    let? expected :=
      match validate_order_identifiers order_identifiers with
      | Ok l => Ok l
      | Err _ => Err (Unauthorized "order identifiers do not satisfy the current identifier policy")
      end in
    let expected_keys : gset Key := list_to_set (authz_key <$> expected) in
    if negb (length authzs =? size expected_keys)%nat then Err unbound
    else
      let? _ := bind_rows authzs expected_keys in
      if existsb (λ a, negb (bool_decide (au_status a = "valid")) || (au_expires a <=? now)) authzs
      then Err OrderNotReady
      else if existsb (λ a, negb (proven_by_http01 cs a))
                (List.filter (λ a, bool_decide (au_identifier_type a = "ip")) authzs)
      then Err (Unauthorized "ip authorization was not validated by http-01")
      else Ok tt.

(** [AcmeCaClient]. *)
Definition proto_san (san : string) : option SubjectAltName :=
  match strip_prefix "DNS:" san, strip_prefix "email:" san, strip_prefix "URI:" san,
        strip_prefix "IP:" san, strip_prefix "DirName:" san with
  | Some dns, _, _, _, _ => Some (DnsName dns)
  | None, Some email, _, _, _ => Some (Rfc822Name email)
  | None, None, Some uri, _, _ => Some (Uri uri)
  | None, None, None, Some ip, _ => Some (IpAddress ip)
  | None, None, None, None, Some dn => Some (DirectoryName dn)
  | None, None, None, None, None => None
  end.
Definition convert_sans_to_proto (sans : list string) : list SubjectAltName := omap proto_san sans.

Definition derived_cn_from_sans (sans : list string) : option string :=
  head (List.filter (λ dns, (1 <=? String.length dns)%nat && (String.length dns <=? 64)%nat)
          (omap (strip_prefix "DNS:") sans)).

Definition empty_subject : DistinguishedName :=
  {| common_name := None; organization := None; organizational_unit := None; locality := None;
     state_or_province := None; country := None; serial_number := None |}.
Definition with_cn (cn : string) : DistinguishedName :=
  {| common_name := Some cn; organization := None; organizational_unit := None; locality := None;
     state_or_province := None; country := None; serial_number := None |}.

Definition resolve_proto_subject (csr : CertReq) (sans : list string)
    : result DistinguishedName Error :=
  if subject_is_empty csr then
    match derived_cn_from_sans sans with
    | Some cn => Ok (with_cn cn)
    | None => convert_subject_to_proto csr
    end
  else convert_subject_to_proto csr.

(** [with_retry]: after this call, [left] more may follow. *)
Fixpoint issue_attempts (left : nat) (r : IssueCertificateRequest) : Prog (result string string) :=
  let^ answer := call (EIssue r) in
  match answer with
  | Ok id => Done (Ok id)
  | Err status =>
      match left with
      | S left' =>
          if is_retryable_error status then issue_attempts left' r
          else Done (Err (status_text status))
      | O => Done (Err (status_text status))
      end
  end.
Definition issue_with_retry (r : IssueCertificateRequest) : Prog (result string string) :=
  let^ allowed := call ERequestAllowed in
  match allowed with
  | Err e => Done (Err e)
  | Ok _ => issue_attempts (max_retries st - 1) r
  end.

Definition bad_csr {A} (context : string) (r : result A string) : result A Error :=
  match r with Ok x => Ok x | Err e => Err (BadCsr (context +:+ e)) end.

Definition ca_finalize_order (order_id : Uuid) (csr : list u8) (account_id : string) : M Uuid :=
  let# cert_req := lift (bad_csr "Failed to parse CSR: " (cert_req_from_der csr)) in
  let# sans := lift (bad_csr "Failed to parse CSR for SANs: " (parse_csr csr)) in
  let# proto_subject := lift (resolve_proto_subject cert_req sans) in
  let# public_key_der := lift (bad_csr "Failed to encode public key: " (public_key_to_der cert_req)) in
  let request := {| profile_name := "acme-default"; subject := proto_subject;
                    subject_alt_names := convert_sans_to_proto sans; public_key := public_key_der;
                    requestor := "acme::" +:+ account_id; acme_order_id := uuid_to_string order_id;
                    acme_account_id := account_id; csr_der := csr;
                    request_id := uuid_to_string order_id |} in
  let^ issued := issue_with_retry request in
  let# id := lift (match issued with
                   | Ok id => Ok id
                   | Err e => Err (ServerInternal ("CA service call failed: " +:+ e))
                   end) in
  let# certificate_id := lift (ok_or (uuid_parse id) (ServerInternal "Invalid certificate ID from CA")) in
  let# _ := sql (update_order_certificate order_id certificate_id csr) in
  let# _ := sql (update_order_status order_id "valid") in
  ret certificate_id.

(** The challenges of the [ip] authorizations. *)
Fixpoint load_ip_challenges (authzs : list AcmeAuthorization) : M (list (AcmeChallenge Json)) :=
  match authzs with
  | [] => ret []
  | a :: authzs =>
      if bool_decide (au_identifier_type a = "ip") then
        let# cs := sql (list_challenges_by_authorization (au_id a)) in
        let# more := load_ip_challenges authzs in
        ret (cs ++ more)
      else load_ip_challenges authzs
  end.

Definition finalize_order (id : string) (body : list u8) : M Response :=
  let# v := validate_jws_with_account finalize_from_slice body
              (acme_url ("order/" +:+ id +:+ "/finalize")) in
  let csr_b64 := vr_payload v in
  if bool_decide (csr_b64 = "") then fail (BadCsr "CSR cannot be empty")
  else
    let# csr := lift (match decode_base64url csr_b64 with
                      | Ok b => Ok b
                      | Err _ => Err (BadCsr "Invalid base64url encoding")
                      end) in
    let# sans := lift (bad_csr "Failed to parse CSR: " (parse_csr csr)) in
    let^ checked := call (EVerifyCsr csr) in
    let# signature_valid := lift (bad_csr "CSR signature verification failed: " checked) in
    if negb signature_valid then fail (BadCsr "Invalid CSR signature")
    else
      let# found := sql (find_order_by_id id) in
      let# db_order := lift (ok_or found (Malformed ("Order not found: " +:+ id))) in
      if negb (bool_decide (or_account_id db_order = vr_account_id v)) then
        fail (Unauthorized "Order belongs to different account")
      else
        let# order_identifiers :=
          lift (match identifiers_from_value (or_identifiers db_order) with
                | Ok l => Ok l
                | Err e => Err (ServerInternal ("Failed to parse order identifiers: " +:+ e))
                end) in
        let# db_authzs := sql (list_authorizations_by_order (or_id db_order)) in
        let# ip_challenges := load_ip_challenges db_authzs in
        let^ now := call ENow in
        match (let? _ := check_order_finalizable db_order order_identifiers db_authzs
                           ip_challenges now in
               validate_csr_identifiers order_identifiers sans) with
        | Err e =>
            let^ _ := record_audit (finalize_refusal_audit_event
                        (uuid_to_string (vr_account_id v)) (or_order_id db_order) e) in
            fail e
        | Ok _ =>
            let# _ := sql (update_order_status (or_id db_order) "processing") in
            if negb (has_ca_client st) then
              let^ _ := try_sql (update_order_status (or_id db_order) "ready") in
              fail (ServerInternal "CA integration not configured")
            else
              let# _ := ca_finalize_order (or_id db_order) csr (uuid_to_string (vr_account_id v)) in
              let# found := sql (find_order_by_id id) in
              let# valid_order := lift (ok_or found (ServerInternal
                ("Order disappeared during finalization: " +:+ id))) in
              let^ nonce := generate_nonce in
              respond 200 [] nonce
                (BodyOrder (map_db_order_to_service valid_order (authorization_urls db_authzs)
                              (base_url st)))
        end.

(** *** Certificates, and POST-as-GET *)

Definition find_certificate (id : Uuid) : Sql (Json := Json) (option string) :=
  λ d, (Ok (certificates d !! id), d).

Definition get_certificate (id : string) : M Response :=
  let# found := sql (find_order_by_id id) in
  let# db_order := lift (ok_or found NotFound) in
  let# certificate_id := lift (ok_or (or_certificate_id db_order) NotFound) in
  let# found := sql (find_certificate certificate_id) in
  let# pem := lift (ok_or found NotFound) in
  let^ nonce := generate_nonce in
  respond 200 [("Content-Type", "application/pem-certificate-chain")] nonce (BodyPem pem).

Definition post_as_get (path : string) (body : list u8) (get : M Response) : M Response :=
  let# _ := verify_jws_account body (acme_url path) in get.
Definition post_as_get_authorization (id : string) (body : list u8) : M Response :=
  post_as_get ("authz/" +:+ id) body (get_authorization id).
Definition post_as_get_order (id : string) (body : list u8) : M Response :=
  post_as_get ("order/" +:+ id) body (get_order id).
Definition post_as_get_certificate (id : string) (body : list u8) : M Response :=
  post_as_get ("cert/" +:+ id) body (get_certificate id).
End server.
