(* ===== verification/AcmeFinalize.v ===== *)
(** * The finalize checks of the ACME server

    What [check_order_finalizable] and [validate_csr_identifiers] of
    [crates/ostrich-acme/src/rest.rs] decide, in terms of the order, its
    authorizations and the names in the CSR. *)
From stdpp Require Import base list strings gmap.
From Stdlib Require Import Ascii.
From S2P Require Import Prelude Text Programs Algorithm IpAddr AcmeIdentifier AcmeJws AcmeStore AcmeServer.
#[local] Open Scope Z_scope.

Section finalize.
Context {HNm : HickoryName} {HJw : JwsLib} {HVf : VerifyLib} {HAc : AcmeLib}.

(** ** The names of a CSR *)

(** A SAN of a CSR is the name of an order identifier. *)
Definition san_of (id : Identifier) (san : string) : Prop :=
  (∃ v, san = "DNS:" +:+ v ∧ to_ascii_lowercase (id_type id) = "dns" ∧
        to_ascii_lowercase v = to_ascii_lowercase (value id)) ∨
  (∃ v, san = "IP:" +:+ v ∧ to_ascii_lowercase (id_type id) = "ip" ∧ v = value id).

Definition id_entry (id : Identifier) : string * string := lower_if_dns (id_type id) (value id).

Lemma csr_entry_Ok san e :
  csr_entry san = Ok e ↔
  (∃ v, san = "DNS:" +:+ v ∧ e = ("dns", to_ascii_lowercase v)) ∨
  (∃ v, san = "IP:" +:+ v ∧ e = ("ip", v)).
Proof.
  unfold csr_entry. destruct (strip_prefix "DNS:" san) as [v|] eqn:Hd.
  - apply strip_prefix_Some in Hd as ->. split.
    + intros [= <-]. left. by exists v.
    + intros [(v' & HH & ->)|(v' & HH & _)]; [|done]. by apply str_cancel in HH as <-.
  - assert (∀ v, san ≠ "DNS:" +:+ v) as Hn.
    { intros v HH%strip_prefix_Some. by rewrite HH in Hd. }
    destruct (strip_prefix "IP:" san) as [v|] eqn:Hi.
    + apply strip_prefix_Some in Hi as ->. split.
      * intros [= <-]. right. by exists v.
      * intros [(v' & HH & ->)|(v' & HH & ->)]; [done|]. by apply str_cancel in HH as <-.
    + split; [done|]. intros [(v & HH & _)|(v & HH & _)]; [by destruct (Hn v)|].
      apply strip_prefix_Some in HH. by rewrite HH in Hi.
Qed.

Lemma csr_entry_san id san : csr_entry san = Ok (id_entry id) ↔ san_of id san.
Proof.
  rewrite csr_entry_Ok. unfold id_entry, lower_if_dns, san_of. split.
  - intros [(v & -> & HH)|(v & -> & HH)].
    + left. exists v. case_bool_decide as Hb; injection HH as H1 H2; [by rewrite H1, H2|by destruct Hb].
    + right. exists v. case_bool_decide as Hb; injection HH as H1 H2; [by rewrite Hb in H1|done].
  - intros [(v & -> & Ht & Hv)|(v & -> & Ht & ->)]; rewrite Ht; cbn.
    + left. exists v. by rewrite Hv.
    + right. by exists (value id).
Qed.

Lemma csr_entries_Ok sans acc out :
  csr_entries sans acc = Ok out ↔
  ∃ es, Forall2 (λ san e, csr_entry san = Ok e) sans es ∧ out = list_to_set es ∪ acc.
Proof.
  revert acc. induction sans as [|san sans IH]; intros acc; cbn [csr_entries].
  - split.
    + intros [= <-]. exists []. split; [constructor|]. set_solver.
    + intros (es & Hf%Forall2_nil_inv_l & ->). subst. f_equal. set_solver.
  - rewrite res_bind_Ok. split.
    + intros (e & He & (es & Hf & ->)%IH). exists (e :: es). split; [by constructor|]. set_solver.
    + intros (es & Hf & ->). inversion Hf as [|? e ? es' He Hes]; subst.
      exists e. split; [done|]. apply IH. exists es'. split; [done|]. set_solver.
Qed.

Lemma csr_entries_Err sans acc e : csr_entries sans acc = Err e → ∃ s, e = Unauthorized s.
Proof.
  revert acc. induction sans as [|san sans IH]; intros acc; cbn [csr_entries]; [done|].
  destruct (csr_entry san) as [x|e'] eqn:Hc; cbn [res_bind]; [apply IH|].
  intros [= <-]. unfold csr_entry in Hc. repeat case_match; simplify_eq. by eexists.
Qed.

Lemma csr_identifiers_lemma ids sans :
  (validate_csr_identifiers ids sans = Ok tt ↔
     (∀ san, san ∈ sans → ∃ id, id ∈ ids ∧ san_of id san) ∧
     (∀ id, id ∈ ids → ∃ san, san ∈ sans ∧ san_of id san)) ∧
  (∀ e, validate_csr_identifiers ids sans = Err e → ∃ s, e = Unauthorized s).
Proof.
  unfold validate_csr_identifiers. split.
  - rewrite res_bind_Ok. split.
    + intros (req & (es & Hf & ->)%csr_entries_Ok & HH). case_bool_decide as Heq; [|done].
      rewrite (right_id_L ∅ (∪)) in Heq. split.
      * intros san Hs. apply list_elem_of_lookup in Hs as [i Hi].
        destruct (Forall2_lookup_l _ _ _ _ _ Hf Hi) as (e & He & Hc).
        assert (e ∈ (list_to_set (id_entry <$> ids) : gset _)) as Hin.
        { unfold id_entry. rewrite Heq. apply elem_of_list_to_set. by eapply list_elem_of_lookup_2. }
        apply elem_of_list_to_set, list_elem_of_fmap in Hin as (id & -> & Hid).
        exists id. split; [done|]. by apply csr_entry_san.
      * intros id Hid. assert (id_entry id ∈ (list_to_set es : gset _)) as Hin.
        { rewrite <- Heq. apply elem_of_list_to_set. by apply (list_elem_of_fmap_2 id_entry). }
        apply elem_of_list_to_set, list_elem_of_lookup in Hin as [i Hi].
        destruct (Forall2_lookup_r _ _ _ _ _ Hf Hi) as (san & Hs & Hc).
        exists san. split; [by eapply list_elem_of_lookup_2|]. by apply csr_entry_san.
    + intros [Hl Hr].
      assert (∃ es, Forall2 (λ san e, csr_entry san = Ok e) sans es) as [es Hf].
      { clear Hr. induction sans as [|san sans IH]; [by exists []|].
        destruct (Hl san (list_elem_of_here _ _)) as (id & _ & Hid%csr_entry_san).
        destruct IH as [es Hes]; [intros s Hs; by apply Hl, list_elem_of_further|].
        exists (id_entry id :: es). by constructor. }
      exists (list_to_set es ∪ ∅). split; [apply csr_entries_Ok; by exists es|].
      case_bool_decide as Heq; [done|]. destruct Heq. rewrite (right_id_L ∅ (∪)).
      apply set_eq. intros e. rewrite !elem_of_list_to_set. split.
      * intros (id & -> & Hid)%list_elem_of_fmap. destruct (Hr id Hid) as (san & Hs & Hc%csr_entry_san).
        apply list_elem_of_lookup in Hs as [i Hi].
        destruct (Forall2_lookup_l _ _ _ _ _ Hf Hi) as (e & He & Hce).
        rewrite Hc in Hce. apply Ok_inj in Hce. fold (id_entry id). rewrite Hce.
        by eapply list_elem_of_lookup_2.
      * intros [i Hi]%list_elem_of_lookup.
        destruct (Forall2_lookup_r _ _ _ _ _ Hf Hi) as (san & Hs & Hce).
        destruct (Hl san) as (id & Hid & Hc%csr_entry_san); [by eapply list_elem_of_lookup_2|].
        assert (e = id_entry id) as -> by congruence. by apply (list_elem_of_fmap_2 id_entry).
  - intros e. destruct (csr_entries sans ∅) as [req|e'] eqn:Hc; cbn [res_bind].
    + case_bool_decide; [done|]. intros [= <-]. by eexists.
    + intros [= <-]. by eapply csr_entries_Err.
Qed.

(** [validate_csr_identifiers] accepts a CSR exactly when its names are the
    identifiers of the order: every name is one of them and every one of them
    is a name, DNS names up to case; otherwise it answers [unauthorized]. *)
Theorem validate_csr_identifiers_spec ids sans :
  (validate_csr_identifiers ids sans = Ok tt ↔
     (∀ san, san ∈ sans → ∃ id, id ∈ ids ∧ san_of id san) ∧
     (∀ id, id ∈ ids → ∃ san, san ∈ sans ∧ san_of id san)) ∧
  (∀ e, validate_csr_identifiers ids sans = Err e → ∃ s, e = Unauthorized s).
Proof. apply csr_identifiers_lemma. Qed.

(** ** The authorizations of an order *)

Lemma bind_rows_spec rows keys :
  match bind_rows rows keys with
  | Ok _ => NoDup (row_key <$> rows) ∧ ∀ z, z ∈ rows → row_key z ∈ keys
  | Err e => e = unbound ∧ ¬ (NoDup (row_key <$> rows) ∧ ∀ z, z ∈ rows → row_key z ∈ keys)
  end.
Proof.
  revert keys. induction rows as [|z rows IH]; intros keys; cbn [bind_rows].
  { split; [constructor|]. by intros z ?%elem_of_nil. }
  case_bool_decide as Hin.
  - specialize (IH (keys ∖ {[row_key z]})). destruct (bind_rows _ _) as [k|e].
    + destruct IH as [Hn Hk]. split.
      * apply NoDup_cons. split; [|done]. intros (z' & Hz & Hz')%list_elem_of_fmap.
        apply Hk in Hz' as [_ Hne]%elem_of_difference. by apply Hne, elem_of_singleton.
      * intros z' [->|Hz']%elem_of_cons; [done|]. by apply Hk in Hz' as [? _]%elem_of_difference.
    + destruct IH as [-> Hno]. split; [done|]. intros [[Hz Hn]%NoDup_cons Hk]. apply Hno.
      split; [done|]. intros z' Hz'. apply elem_of_difference. split.
      * by apply Hk, list_elem_of_further.
      * intros Heq%elem_of_singleton. destruct Hz. rewrite <- Heq.
        by apply (list_elem_of_fmap_2 row_key).
  - split; [done|]. intros [_ Hk]. by apply Hin, Hk, list_elem_of_here.
Qed.

Lemma bound_iff (rows : list AcmeAuthorization) (keys : list Key) :
  NoDup keys →
  row_key <$> rows ≡ₚ keys ↔
  length rows = size (list_to_set keys : gset Key) ∧ NoDup (row_key <$> rows) ∧
  ∀ z, z ∈ rows → row_key z ∈ (list_to_set keys : gset Key).
Proof.
  intros Hn. assert (size (list_to_set keys : gset Key) = length keys) as ->.
  { unfold size, set_size. cbn. by rewrite elements_list_to_set. }
  split.
  - intros Hp. split_and!.
    + by rewrite <- (length_fmap row_key rows), Hp.
    + by rewrite Hp.
    + intros z Hz. apply elem_of_list_to_set. rewrite <- Hp. by apply list_elem_of_fmap_2.
  - intros (Hl & Hr & Hk). apply submseteq_length_Permutation.
    + apply NoDup_submseteq; [done|]. intros k (z & -> & Hz)%list_elem_of_fmap.
      by apply Hk, elem_of_list_to_set in Hz.
    + by rewrite length_fmap, Hl.
Qed.

Definition authz_usable (now : DateTime) (z : AcmeAuthorization) : Prop :=
  au_status z = "valid" ∧ now < au_expires z.
Definition ip_proven (cs : list (AcmeChallenge Json)) (z : AcmeAuthorization) : Prop :=
  au_identifier_type z = "ip" →
  ∃ c, c ∈ cs ∧ ch_authorization_id c = au_id z ∧ ch_challenge_type c = "http-01" ∧
    ch_status c = "valid".

(** The finalize check, as the four questions it asks, in their order. *)
Inductive finalizable (order : AcmeOrder Json) (ids : list Identifier)
    (rows : list AcmeAuthorization) (cs : list (AcmeChallenge Json)) (now : DateTime)
    : result unit Error → Prop :=
| fin_not_ready :
    (or_status order ≠ "ready" ∨ or_expires order ≤ now) →
    finalizable order ids rows cs now (Err OrderNotReady)
| fin_policy e :
    or_status order = "ready" → now < or_expires order → validate_order_identifiers ids = Err e →
    finalizable order ids rows cs now
      (Err (Unauthorized "order identifiers do not satisfy the current identifier policy"))
| fin_unbound expected :
    or_status order = "ready" → now < or_expires order →
    validate_order_identifiers ids = Ok expected →
    ¬ row_key <$> rows ≡ₚ authz_key <$> expected →
    finalizable order ids rows cs now (Err unbound)
| fin_unusable expected :
    or_status order = "ready" → now < or_expires order →
    validate_order_identifiers ids = Ok expected → row_key <$> rows ≡ₚ authz_key <$> expected →
    ¬ Forall (authz_usable now) rows →
    finalizable order ids rows cs now (Err OrderNotReady)
| fin_ip_unproven expected :
    or_status order = "ready" → now < or_expires order →
    validate_order_identifiers ids = Ok expected → row_key <$> rows ≡ₚ authz_key <$> expected →
    Forall (authz_usable now) rows → ¬ Forall (ip_proven cs) rows →
    finalizable order ids rows cs now
      (Err (Unauthorized "ip authorization was not validated by http-01"))
| fin_ok expected :
    or_status order = "ready" → now < or_expires order →
    validate_order_identifiers ids = Ok expected → row_key <$> rows ≡ₚ authz_key <$> expected →
    Forall (authz_usable now) rows → Forall (ip_proven cs) rows →
    finalizable order ids rows cs now (Ok tt).

Lemma usable_iff now rows :
  existsb (λ a, negb (bool_decide (au_status a = "valid")) || (au_expires a <=? now)) rows = false ↔
  Forall (authz_usable now) rows.
Proof.
  unfold authz_usable. induction rows as [|z rows IH]; cbn [existsb]; [by split|].
  rewrite orb_false_iff, Forall_cons, IH, orb_false_iff, negb_false_iff, bool_decide_eq_true, Z.leb_gt.
  done.
Qed.

Lemma ip_proven_iff cs rows :
  existsb (λ a, negb (proven_by_http01 cs a))
    (List.filter (λ a, bool_decide (au_identifier_type a = "ip")) rows) = false ↔
  Forall (ip_proven cs) rows.
Proof.
  unfold ip_proven. induction rows as [|z rows IH]; [by split|]. cbn [List.filter].
  rewrite Forall_cons, <- IH. clear IH. case_bool_decide as Ht; [|naive_solver].
  cbn [existsb]. rewrite orb_false_iff, negb_false_iff. unfold proven_by_http01.
  rewrite existsb_elem_of. setoid_rewrite andb_true_iff. setoid_rewrite andb_true_iff.
  setoid_rewrite bool_decide_eq_true. naive_solver.
Qed.

Lemma order_finalizable_lemma order ids rows cs now r :
  check_order_finalizable order ids rows cs now = r ↔ finalizable order ids rows cs now r.
Proof.
  assert (finalizable order ids rows cs now (check_order_finalizable order ids rows cs now)) as Hf.
  { unfold check_order_finalizable.
    destruct (negb _ || _) eqn:Hr.
    { apply fin_not_ready. apply orb_true_iff in Hr as [Hr|Hr].
      - left. by apply negb_true_iff, bool_decide_eq_false in Hr.
      - right. by apply Z.leb_le. }
    apply orb_false_iff in Hr as [Hs%negb_false_iff%bool_decide_eq_true He%Z.leb_gt].
    destruct (validate_order_identifiers ids) as [expected|e] eqn:Hv; cbn [res_bind];
      [|by eapply fin_policy].
    assert (NoDup (authz_key <$> expected)) as Hn.
    { by apply (proj1 (order_identifiers_lemma ids)) in Hv as (_ & _ & _ & ?). }
    destruct (negb _) eqn:Hl.
    { eapply fin_unbound; [done..|]. intros [Hlen _]%bound_iff; [|done].
      apply negb_true_iff, Nat.eqb_neq in Hl. by destruct Hl. }
    apply negb_false_iff, Nat.eqb_eq in Hl.
    pose proof (bind_rows_spec rows (list_to_set (authz_key <$> expected))) as Hb.
    destruct (bind_rows _ _) as [k|e]; cbn [res_bind].
    2:{ destruct Hb as [-> Hb]. eapply fin_unbound; [done..|]. intros (_ & Hp)%bound_iff; [|done].
        by apply Hb. }
    assert (row_key <$> rows ≡ₚ authz_key <$> expected) as Hp by (by apply bound_iff).
    destruct (existsb _ rows) eqn:Hu.
    { eapply fin_unusable; [done..|]. intros Hu'%usable_iff. by rewrite Hu' in Hu. }
    apply usable_iff in Hu. destruct (existsb _ (List.filter _ rows)) eqn:Hi.
    { eapply fin_ip_unproven; [done..|]. intros Hi'%ip_proven_iff. by rewrite Hi' in Hi. }
    eapply fin_ok; [done..|]. by apply ip_proven_iff. }
  split; [by intros <-|]. intros Hr.
  destruct Hf; inversion Hr; subst; try done; exfalso;
    repeat match goal with HH : _ ∨ _ |- _ => destruct HH end; try done; try lia;
    repeat match goal with
    | HH : validate_order_identifiers _ = _, HK : validate_order_identifiers _ = _ |- _ =>
        rewrite HH in HK; simplify_eq
    end; done.
Qed.

(** [check_order_finalizable] asks whether the order is ready and unexpired,
    whether its authorizations are exactly those its identifiers need, whether
    each is valid and unexpired, and whether each address was proven by
    http-01, in this order, and answers with the first no; the order of the
    rows does not matter. *)
Theorem check_order_finalizable_spec order ids rows cs now r :
  check_order_finalizable order ids rows cs now = r ↔ finalizable order ids rows cs now r.
Proof. apply order_finalizable_lemma. Qed.
End finalize.
