(* ===== verification/AcmeRun.v ===== *)
(** * Runs of the ACME server

    The world an ACME server runs in and how the effects of its handlers
    answer: any number of requests and challenge validations run interleaved,
    statement by statement. *)
From stdpp Require Import base list strings gmap.
From Stdlib Require Import Ascii.
From S2P Require Import AcmeValidators ValidatorRuns.
From S2P Require Import Prelude Text Programs Algorithm IpAddr AcmeIdentifier AcmeJws AcmeStore AcmeServer.
#[local] Open Scope Z_scope.

Section run.
Context `{!HickoryName, !JwsLib, !ValidatorLib, !VerifyLib, !AcmeLib} (st : AcmeState).
Abbreviation Db := (AcmeDb Json).

(** The requests the router serves; the directory and the probes touch
    nothing. *)
Inductive Request :=
| RqNewNonce (head : bool) | RqNewAccount (body : list u8) | RqNewOrder (body : list u8)
| RqAccount (id : string) (body : list u8) | RqGetAuthz (id : string)
| RqPostAuthz (id : string) (body : list u8) | RqChallenge (id : string) (body : list u8)
| RqGetOrder (id : string) | RqPostOrder (id : string) (body : list u8)
| RqFinalize (id : string) (body : list u8) | RqGetCert (id : string)
| RqPostCert (id : string) (body : list u8).

Definition answer {A} (m : M A) : Prog unit := let^ _ := m in Done tt.

Definition serve (r : Request) : Prog unit :=
  match r with
  | RqNewNonce head => let^ _ := get_new_nonce head in Done tt
  | RqNewAccount body => answer (new_account st body)
  | RqNewOrder body => answer (new_order st body)
  | RqAccount id body => answer (update_account st id body)
  | RqGetAuthz id => answer (get_authorization st id)
  | RqPostAuthz id body => answer (post_as_get_authorization st id body)
  | RqChallenge id body => answer (respond_to_challenge st id body)
  | RqGetOrder id => answer (get_order st id)
  | RqPostOrder id body => answer (post_as_get_order st id body)
  | RqFinalize id body => answer (finalize_order st id body)
  | RqGetCert id => answer (get_certificate id)
  | RqPostCert id body => answer (post_as_get_certificate st id body)
  end.

(** ** The world *)

(** What happened, as an observer of the server's surroundings sees it. *)
Inductive Event :=
| EvRequest (r : Request)
| EvNonceCreated (nonce : string)
| EvNonceUsed (nonce : string)
(** What a validator asked of the network, and the answers. *)
| EvNetwork (challenge_type domain token thumbprint : string) (h : list NetEvent)
| EvValidated (challenge_type domain token thumbprint : string)
| EvCsrVerified (csr : list u8)
| EvIssue (r : IssueCertificateRequest)
| EvAudit (ev : AuditEvent).

Record World := { wdb : Db; wnow : DateTime; wtrace : list Event }.
Definition with_db (d : Db) (w : World) : World :=
  {| wdb := d; wnow := wnow w; wtrace := wtrace w |}.
Definition observe (ev : Event) (w : World) : World :=
  {| wdb := wdb w; wnow := wnow w; wtrace := wtrace w ++ [ev] |}.

(** A statement answers, or fails before or after it took effect. *)
Definition sql_answers {A} (f : Sql (Json := Json) A) (w : World) (x : result A string)
    (w' : World) : Prop :=
  (x = (f (wdb w)).1 ∧ w' = with_db (f (wdb w)).2 w) ∨
  (∃ e, x = Err e ∧ (w' = w ∨ w' = with_db (f (wdb w)).2 w)).

Definition answers (w : World) {X} (e : AcmeE X) : X → World → Prop :=
  match e in AcmeE X return X → World → Prop with
  | ESql f => λ x w', sql_answers f w x w'
  | ECreateNonce n expires => λ x w',
      (x = Ok tt ∧ nonces (wdb w) !! n = None ∧
       w' = observe (EvNonceCreated n) (with_db (create_nonce n expires (wdb w)).2 w)) ∨
      (∃ e, x = Err e ∧
       (w' = w ∨ nonces (wdb w) !! n = None ∧
        w' = observe (EvNonceCreated n) (with_db (create_nonce n expires (wdb w)).2 w)))
  | EConsumeNonce n => λ x w',
      (x = Ok true ∧ (consume_nonce (wnow w) n (wdb w)).1 = Ok true ∧
       w' = observe (EvNonceUsed n) (with_db (consume_nonce (wnow w) n (wdb w)).2 w)) ∨
      (x = Ok false ∧ (consume_nonce (wnow w) n (wdb w)).1 = Ok false ∧ w' = w) ∨
      (∃ e, x = Err e ∧ (w' = w ∨ w' = with_db (consume_nonce (wnow w) n (wdb w)).2 w))
  | ENow => λ x w', x = wnow w ∧ w' = w
  | ENewUuid => λ _ w', w' = w
  | EValidate ct domain token thumbprint => λ x w', ∃ h,
      ran net_event (validator (challenge_options st) ct domain token thumbprint) h x ∧
      let w1 := observe (EvNetwork ct domain token thumbprint h) w in
      w' = match x with Ok true => observe (EvValidated ct domain token thumbprint) w1 | _ => w1 end
  | EVerifyCsr csr => λ x w',
      w' = match x with Ok true => observe (EvCsrVerified csr) w | _ => w end
  | ERequestAllowed => λ _ w', w' = w
  | EIssue r => λ _ w', w' = observe (EvIssue r) w
  | ERecord ev => λ _ w', w' = observe (EvAudit ev) w
  | ESpawn _ => λ _ w', w' = w
  end.

Definition spawned {X} (e : AcmeE X) : list (Prog unit) :=
  match e with ESpawn c => [run_challenge_validation c] | _ => [] end.

(** What happens besides the programs: a request arrives, time passes, the CA
    stores certificates, expired nonces are deleted. *)
Inductive env : World → World → list (Prog unit) → Prop :=
| env_request w r : env w (observe (EvRequest r) w) [serve r]
| env_tick w t : wnow w ≤ t → env w {| wdb := wdb w; wnow := t; wtrace := wtrace w |} []
| env_ca w m :
    certificates (wdb w) ⊆ m → env w (with_db (set_certificates m (wdb w)) w) []
| env_cleanup w : env w (with_db (cleanup_expired_nonces (wnow w) (wdb w)).2 w) [].

Definition step : World * list (Prog unit) → World * list (Prog unit) → Prop :=
  Programs.step (@answers) (@spawned) env.
Definition runs {A} : Prog A → World * list (Prog unit) → A → World * list (Prog unit) → Prop :=
  Programs.runs (@answers) (@spawned) env.

Definition empty_db : Db :=
  {| accounts := []; orders := []; authorizations := []; challenges := []; nonces := ∅;
     certificates := ∅ |}.
Definition start (now : DateTime) : World * list (Prog unit) :=
  ({| wdb := empty_db; wnow := now; wtrace := [] |}, []).
Definition reachable (s : World * list (Prog unit)) : Prop := ∃ now, rtc step (start now) s.

(** A validation that was recorded is a run of a validator, against the answers of the
    network that were recorded before it. *)
Definition validations_run (t : list Event) : Prop :=
  ∀ t1 ct domain token thumbprint t2, t = t1 ++ EvValidated ct domain token thumbprint :: t2 →
    ∃ h, EvNetwork ct domain token thumbprint h ∈ t1 ∧
      ran net_event (validator (challenge_options st) ct domain token thumbprint) h (Ok true).

Lemma validations_run_app t l :
  validations_run t → (∀ l1 ct domain token thumbprint l2,
    l = l1 ++ EvValidated ct domain token thumbprint :: l2 →
    ∃ h, EvNetwork ct domain token thumbprint h ∈ l1 ∧
      ran net_event (validator (challenge_options st) ct domain token thumbprint) h (Ok true)) →
  validations_run (t ++ l).
Proof.
  intros Ht Hl t1 ct dom tok tp t2 (k & [[-> Hk]|[-> Hk]])%app_eq_app.
  - destruct k as [|ev k]; cbn in Hk.
    + destruct (Hl [] _ _ _ _ _ (eq_sym Hk)) as (h & Hh & _). by apply elem_of_nil in Hh.
    + injection Hk as <- Hk. by apply (Ht t1 _ _ _ _ k).
  - destruct (Hl k _ _ _ _ t2 Hk) as (h & Hh & Hr). exists h. split; [|done].
    apply elem_of_app. by right.
Qed.
Lemma validations_run_observe t ev :
  (∀ ct domain token thumbprint, ev ≠ EvValidated ct domain token thumbprint) →
  validations_run t → validations_run (t ++ [ev]).
Proof.
  intros Hev Ht. apply validations_run_app; [done|]. intros l1 ct dom tok tp l2 Hl.
  destruct l1 as [|? [|??]]; [|done..]. injection Hl as Hl _. by destruct (Hev ct dom tok tp).
Qed.

Lemma answers_validations_run {X} w (e : AcmeE X) x w' :
  answers w e x w' → validations_run (wtrace w) → validations_run (wtrace w').
Proof.
  intros Ha Ht. destruct e; cbn in Ha.
  - by destruct Ha as [[_ ->]|(? & _ & [-> | ->])].
  - destruct Ha as [(_ & _ & ->)|(? & _ & [->|[_ ->]])]; [|done|]; by apply validations_run_observe.
  - destruct Ha as [(_ & _ & ->)|[(_ & _ & ->)|(? & _ & [-> | ->])]]; [|done..]. by apply validations_run_observe.
  - by destruct Ha as [_ ->].
  - by subst.
  - destruct Ha as (h & Hr & ->).
    assert (validations_run (wtrace w ++ [EvNetwork challenge_type domain token thumbprint h])) as Hn
      by by apply validations_run_observe.
    destruct x as [[]|]; [|exact Hn..]. cbn. rewrite <- app_assoc.
    apply validations_run_app; [done|]. intros l1 ct dom tok tp l2 Hl.
    destruct l1 as [|? [|? [|??]]]; [done| |done..]. injection Hl as <- <- <- <- <- <-.
    exists h. split; [apply list_elem_of_here|done].
  - subst. destruct x as [[]|]; [|done..]. by apply validations_run_observe.
  - by subst.
  - subst. by apply validations_run_observe.
  - subst. by apply validations_run_observe.
  - by subst.
Qed.
Lemma reachable_validations_run s : reachable s → validations_run (wtrace s.1).
Proof.
  intros [now Hs]. assert (validations_run (wtrace (start now).1)) as Hn by by intros [].
  revert Hn. induction Hs as [s|s1 s2 s3 Hstep Hs IH]; intros HH; [done|]. apply IH. clear IH Hs.
  destruct Hstep as [w ts1 X e k ts2 x w' Ha|w w' ps ts He]; [by eapply answers_validations_run|].
  destruct He; [|done..]. by apply validations_run_observe.
Qed.
End run.
