(* ===== verification/AcmeSafety.v ===== *)
(** * No certificate without proof of control

    What the ACME server guarantees in every run: a certificate is requested
    from the CA only for names that the order's account proved control of,
    and a nonce authenticates one request. *)
From stdpp Require Import base list strings gmap.
From Stdlib Require Import Ascii.
From S2P Require Import AcmeValidators ValidatorRuns.
From S2P Require Import Prelude Text Programs Algorithm IpAddr AcmeIdentifier AcmeJws AcmeStore AcmeServer.
From S2P Require Import AcmeFinalize AcmeRun.
#[local] Open Scope Z_scope.

Section safety.
Context {HNm : HickoryName} {HJw : JwsLib} {HVl : ValidatorLib} {HVf : VerifyLib} {HAc : AcmeLib} (st : AcmeState).
Abbreviation Db := (AcmeDb Json).

(** ** What later worlds keep *)

Definition same_account (a b : AcmeAccount Json) : Prop :=
  ac_id a = ac_id b ∧ ac_account_id a = ac_account_id b ∧
  ac_jwk_thumbprint a = ac_jwk_thumbprint b ∧ ac_public_key_jwk a = ac_public_key_jwk b.
Definition same_order (o p : AcmeOrder Json) : Prop :=
  or_id o = or_id p ∧ or_order_id o = or_order_id p ∧ or_account_id o = or_account_id p ∧
  or_identifiers o = or_identifiers p.
Definition same_authz (a b : AcmeAuthorization) : Prop :=
  au_id a = au_id b ∧ au_authorization_id a = au_authorization_id b ∧
  au_order_id a = au_order_id b ∧ au_identifier_type a = au_identifier_type b ∧
  au_identifier_value a = au_identifier_value b ∧ au_wildcard a = au_wildcard b.
Definition same_challenge (a b : AcmeChallenge Json) : Prop :=
  ch_id a = ch_id b ∧ ch_challenge_id a = ch_challenge_id b ∧
  ch_authorization_id a = ch_authorization_id b ∧ ch_challenge_type a = ch_challenge_type b ∧
  ch_token a = ch_token b.

Definition rows_kept {R} (same : R → R → Prop) (l l' : list R) : Prop :=
  ∀ r, r ∈ l → ∃ r', r' ∈ l' ∧ same r r'.
Definition db_kept (d d' : Db) : Prop :=
  rows_kept same_account (accounts d) (accounts d') ∧ rows_kept same_order (orders d) (orders d') ∧
  rows_kept same_authz (authorizations d) (authorizations d') ∧
  rows_kept same_challenge (challenges d) (challenges d').
Definition later (w w' : World) : Prop :=
  db_kept (wdb w) (wdb w') ∧ wtrace w `prefix_of` wtrace w'.

Ltac same_rows := repeat intro; destruct_and?; split_and?; congruence.
#[export] Instance same_account_equiv : Equivalence same_account.
Proof. unfold same_account. split; same_rows. Qed.
#[export] Instance same_order_equiv : Equivalence same_order.
Proof. unfold same_order. split; same_rows. Qed.
#[export] Instance same_authz_equiv : Equivalence same_authz.
Proof. unfold same_authz. split; same_rows. Qed.
#[export] Instance same_challenge_equiv : Equivalence same_challenge.
Proof. unfold same_challenge. split; same_rows. Qed.

Lemma rows_kept_refl {R} (same : R → R → Prop) `{!Equivalence same} l : rows_kept same l l.
Proof. intros r Hr. by exists r. Qed.
Lemma rows_kept_trans {R} (same : R → R → Prop) `{!Equivalence same} l1 l2 l3 :
  rows_kept same l1 l2 → rows_kept same l2 l3 → rows_kept same l1 l3.
Proof.
  intros H1 H2 r (r' & Hr' & Hs)%H1. apply H2 in Hr' as (r'' & Hr'' & Hs').
  exists r''. split; [done|]. by etransitivity.
Qed.
Lemma rows_kept_app {R} (same : R → R → Prop) `{!Equivalence same} l l' : rows_kept same l (l ++ l').
Proof. intros r Hr. exists r. split; [apply elem_of_app; by left|done]. Qed.
Lemma rows_kept_update {R} (same : R → R → Prop) `{!Equivalence same} P f l :
  (∀ r, same r (f r)) → rows_kept same l (update_rows P f l).
Proof.
  intros Hf r Hr. exists (if P r then f r else r). split; [by apply (list_elem_of_fmap_2 (λ r, if P r then f r else r))|].
  by destruct (P r).
Qed.

#[export] Instance later_preorder : PreOrder later.
Proof.
  split.
  - intros w. split; [|done]. split_and!; apply rows_kept_refl; apply _.
  - intros w1 w2 w3 [(A1 & B1 & C1 & D1) T1] [(A2 & B2 & C2 & D2) T2].
    split; [|by etransitivity].
    split_and!; (eapply rows_kept_trans; [apply _|eassumption|eassumption]).
Qed.

(** ** The invariant *)

(** The server issued a challenge with this token for an authorization of
    the order. *)
Definition issued (d : Db) (order : Uuid) (ct tok : string) : Prop :=
  ∃ z c, z ∈ authorizations d ∧ au_order_id z = order ∧ c ∈ challenges d ∧
    ch_authorization_id c = au_id z ∧ ch_challenge_type c = ct ∧ ch_token c = tok.

(** An authorization was validated for the account of its order, by a
    challenge that is permitted for it. *)
Definition proven (w : World) (z : AcmeAuthorization) : Prop :=
  ∃ o a ct tok, o ∈ orders (wdb w) ∧ or_id o = au_order_id z ∧ a ∈ accounts (wdb w) ∧
    ac_id a = or_account_id o ∧
    EvValidated ct (au_identifier_value z) tok (ac_jwk_thumbprint a) ∈ wtrace w ∧
    check_challenge_permitted z ct = Ok tt ∧ issued (wdb w) (or_id o) ct tok.

(** The key with this thumbprint proved control of the name in a CSR, with a
    token of the order: of the name itself, or of the domain a wildcard
    covers, and then through DNS. *)
Definition controls (token : string → string → Prop) (t : list Event) (thumbprint san : string)
    : Prop :=
  (∃ d dom ct tok, san = "DNS:" +:+ d ∧ EvValidated ct dom tok thumbprint ∈ t ∧ token ct tok ∧
     (to_ascii_lowercase d = to_ascii_lowercase dom ∨
      to_ascii_lowercase d = "*." +:+ to_ascii_lowercase dom ∧ ct = "dns-01")) ∨
  (∃ ip dom tok, san = "IP:" +:+ ip ∧ EvValidated "http-01" dom tok thumbprint ∈ t ∧
     token "http-01" tok ∧ to_ascii_lowercase ip = to_ascii_lowercase dom).

(** The finalize request is signed with the account's key, and used a nonce. *)
Definition signed_by (t : list Event) (a : AcmeAccount Json) (url : string) (body : list u8) : Prop :=
  ∃ jws header k, EvNonceUsed (nonce header) ∈ t ∧ parse_jws body = Ok jws ∧
    decode_protected_header (protected jws) = Ok header ∧ AcmeJws.url header = url ∧
    jwk_from_value (ac_public_key_jwk a) = Ok k ∧
    verify_jws_with_jwk crypto_text jws header k = Ok true.

(** A request to the CA, when [t] had happened. *)
Definition authorized (t : list Event) (r : IssueCertificateRequest) (w : World) : Prop :=
  ∃ o a sans body, o ∈ orders (wdb w) ∧ a ∈ accounts (wdb w) ∧ or_account_id o = ac_id a ∧
    request_id r = uuid_to_string (or_id o) ∧ acme_account_id r = uuid_to_string (ac_id a) ∧
    EvRequest (RqFinalize (or_order_id o) body) ∈ t ∧
    signed_by t a (acme_url st ("order/" +:+ or_order_id o +:+ "/finalize")) body ∧
    EvCsrVerified (csr_der r) ∈ t ∧ parse_csr (csr_der r) = Ok sans ∧
    subject_alt_names r = convert_sans_to_proto sans ∧
    Forall (controls (issued (wdb w) (or_id o)) t (ac_jwk_thumbprint a)) sans.

(** The nonce was created, and not used since. *)
Definition turn (n : string) (fresh : bool) (ev : Event) : bool :=
  match ev with
  | EvNonceCreated m => if decide (m = n) then true else fresh
  | EvNonceUsed m => if decide (m = n) then false else fresh
  | _ => fresh
  end.
Definition fresh (n : string) (t : list Event) : bool := fold_left (turn n) t false.

Definition new_account_id (s : string) : Prop := ∃ u, s = "acct-" +:+ uuid_to_string u.
Record db_wf (d : Db) : Prop := {
  wf_account_ids : Forall new_account_id (ac_account_id <$> accounts d);
  wf_accounts : NoDup (ac_id <$> accounts d);
  wf_orders : NoDup (or_id <$> orders d);
  wf_authz : NoDup (au_authorization_id <$> authorizations d);
}.

Record Inv (w : World) : Prop := {
  inv_wf : db_wf (wdb w);
  inv_valid : ∀ z, z ∈ authorizations (wdb w) → au_status z = "valid" → proven w z;
  inv_issued : ∀ t1 r t2, wtrace w = t1 ++ EvIssue r :: t2 → authorized t1 r w;
  inv_nonces : ∀ n, is_Some (nonces (wdb w) !! n) → fresh n (wtrace w) = true;
  inv_used : ∀ t1 n t2, wtrace w = t1 ++ EvNonceUsed n :: t2 → fresh n t1 = true
}.

(** ** The program logic *)

Definition spawn_ok (w : World) {X} (e : AcmeE X) : Prop :=
  match e with ESpawn c => ∃ c', c' ∈ challenges (wdb w) ∧ same_challenge c c' | _ => True end.

Definition acme_logic : Logic AcmeE World := {|
  l_answers := answers st; l_inv := Inv; l_later := later; l_spawn_ok := @spawn_ok;
  l_later_preorder := later_preorder
|}.
Abbreviation wp := (Programs.wp (L := acme_logic)).
Abbreviation wpm := (Programs.wpm (L := acme_logic)).
Abbreviation safe := (Programs.safe (L := acme_logic)).

(** ** From the finalize checks to control of every name *)

Lemma permitted_wildcard z ct :
  check_challenge_permitted z ct = Ok tt → au_wildcard z = true → ct = "dns-01".
Proof.
  unfold check_challenge_permitted. intros HH Hw. rewrite Hw in HH. by case_bool_decide.
Qed.
Lemma permitted_ip z ct :
  check_challenge_permitted z ct = Ok tt → au_identifier_type z = "ip" → ct = "http-01".
Proof.
  unfold check_challenge_permitted. intros HH Ht. destruct (_ && _); [done|].
  rewrite bool_decide_eq_true_2 in HH by done. by case_bool_decide.
Qed.

Lemma lower_dns : to_ascii_lowercase "dns" = "dns". Proof. reflexivity. Qed.
Lemma lower_ip : to_ascii_lowercase "ip" = "ip". Proof. reflexivity. Qed.

Lemma names_controlled token t thumbprint order ids rows cs now sans :
  (∀ z, z ∈ rows → au_status z = "valid" → ∃ ct tok,
     EvValidated ct (au_identifier_value z) tok thumbprint ∈ t ∧
     check_challenge_permitted z ct = Ok tt ∧ token ct tok) →
  check_order_finalizable order ids rows cs now = Ok tt →
  validate_csr_identifiers ids sans = Ok tt →
  Forall (controls token t thumbprint) sans.
Proof.
  intros Hz Hc%order_finalizable_lemma Hs%csr_identifiers_lemma.
  inversion Hc as [| | | | |expected _ _ Hv Hp Hu _]; subst. destruct Hs as [Hs _].
  apply (proj1 (order_identifiers_lemma ids)) in Hv as (_ & _ & Hall & _).
  apply Forall_forall. intros san (id & Hid & Hname)%Hs.
  apply list_elem_of_lookup in Hid as [i Hi].
  destruct (Forall2_lookup_l _ _ _ _ _ Hall Hi) as (a & Ha & Hacc).
  assert (authz_key a ∈ row_key <$> rows) as (z & Hkey & Hrow)%list_elem_of_fmap.
  { rewrite Hp. apply list_elem_of_fmap_2. by eapply list_elem_of_lookup_2. }
  rewrite Forall_forall in Hu. destruct (Hu z Hrow) as [Hval _].
  destruct (Hz z Hrow Hval) as (ct & tok & Hev & Hperm & Htok).
  injection Hkey as Hty Hval' Hwild.
  destruct Hacc as [H1 H2 H3 H4 H5 H6 H7 H8|ip H1 H2 H3 H4 H5 H6 H7].
  - destruct Hname as [(v & -> & _ & Hlow)|(v & _ & Hbad & _)];
      [|by rewrite H1 in Hbad].
    left. exists v, (au_identifier_value z), ct, tok. do 3 (split; [done|]).
    rewrite H3 in Hlow. unfold order_value in Hlow. destruct (az_wildcard a).
    + right. rewrite Hlow, lowercase_app, Hval'. split; [done|]. by eapply permitted_wildcard.
    + left. rewrite Hlow. change ("" +:+ az_value a) with (az_value a). done.
  - destruct Hname as [(v & _ & Hbad & _)|(v & -> & _ & ->)]; [by rewrite H1 in Hbad|].
    right. rewrite H2 in Hty.
    assert (ct = "http-01") as -> by (by eapply permitted_ip).
    exists (value id), (au_identifier_value z), tok. do 3 (split; [done|]).
    by rewrite <- Hval', H3.
Qed.

(** ** What one step keeps *)

Lemma issued_later w w' o ct tok : later w w' → issued (wdb w) o ct tok → issued (wdb w') o ct tok.
Proof.
  intros [(_ & _ & HZ & HC) _] (z & c & Hz & Ho & Hc & Hca & Ht & Htok).
  destruct (HZ _ Hz) as (z' & Hz' & S1 & S2 & S3 & _).
  destruct (HC _ Hc) as (c' & Hc' & C1 & C2 & C3 & C4 & C5).
  exists z', c'. split_and!; congruence.
Qed.

Lemma proven_later w w' z z' : later w w' → same_authz z z' → proven w z → proven w' z'.
Proof.
  intros Hlater (S1 & S2 & S3 & S4 & S5 & S6) (o & a & ct & tok & Ho & Hid & Ha & Hac & Hev & Hp & Hi).
  pose proof (issued_later _ _ _ _ _ Hlater Hi) as Hi'. destruct Hlater as [(HA & HO & _) [l Hl]].
  destruct (HO _ Ho) as (o' & Ho' & O1 & O2 & O3 & O4).
  destruct (HA _ Ha) as (a' & Ha' & A1 & A2 & A3 & A4).
  exists o', a', ct, tok. split_and!; [done|congruence|done|congruence| | |].
  - rewrite Hl. apply elem_of_app. left. by rewrite <- S5, <- A3.
  - unfold check_challenge_permitted in *. by rewrite <- S4, <- S5, <- S6.
  - by rewrite <- O1.
Qed.

Lemma controls_mono (token token' : string → string → Prop) t t' thumbprint san :
  (∀ ct tok, token ct tok → token' ct tok) → (∀ ev, ev ∈ t → ev ∈ t') →
  controls token t thumbprint san → controls token' t' thumbprint san.
Proof.
  intros Htok Ht [(d & dom & ct & tok & H1 & H2 & H3 & H4)|(ip & dom & tok & H1 & H2 & H3 & H4)].
  - left. exists d, dom, ct, tok. auto.
  - right. exists ip, dom, tok. auto.
Qed.

Lemma authorized_later t r w w' : later w w' → authorized t r w → authorized t r w'.
Proof.
  intros Hlater (o & a & sans & body & Ho & Ha & Hoa & Hr & Hacc & Hev & Hsig & Hcv & Hp & Hsan & Hc).
  pose proof Hlater as [(HA & HO & _) _].
  destruct (HO _ Ho) as (o' & Ho' & O1 & O2 & O3 & O4).
  destruct (HA _ Ha) as (a' & Ha' & A1 & A2 & A3 & A4).
  exists o', a', sans, body. rewrite <- O1, <- O2, <- O3, <- A1, <- A3.
  split_and!; try done.
  - destruct Hsig as (jws & h & k & J0 & J1 & J2 & J3 & J4 & J5).
    exists jws, h, k. split_and!; try done. by rewrite <- A4.
  - eapply Forall_impl; [exact Hc|]. intros san. apply controls_mono; [|done].
    intros ct tok. by apply issued_later.
Qed.

(** A statement keeps the invariant. *)
Definition kept {A} (f : Sql (Json := Json) A) (w : World) : Prop :=
  Inv (with_db (f (wdb w)).2 w) ∧ later w (with_db (f (wdb w)).2 w).

Lemma kept_intro w (d : Db) :
  Inv w → db_wf d → db_kept (wdb w) d → nonces d = nonces (wdb w) →
  (∀ z, z ∈ authorizations d → au_status z = "valid" →
     proven w z ∨ ∃ z0, z0 ∈ authorizations (wdb w) ∧ au_status z0 = "valid" ∧ same_authz z0 z) →
  Inv (with_db d w) ∧ later w (with_db d w).
Proof.
  intros Hi Hwf Hk Hn Hv. assert (later w (with_db d w)) as Hl by (by split). split; [|done].
  split; [done| | | |].
  - intros z Hz Hs. destruct (Hv z Hz Hs) as [Hp|(z0 & Hz0 & Hs0 & Hsame)].
    + by eapply proven_later; [| |exact Hp].
    + eapply proven_later; [done|exact Hsame|]. by apply (inv_valid w).
  - intros t1 r t2 Ht. eapply authorized_later; [done|]. by apply (inv_issued w Hi t1 r t2).
  - intros n. cbn. rewrite Hn. apply (inv_nonces w Hi).
  - apply (inv_used w Hi).
Qed.

Lemma kept_same w : Inv w → Inv (with_db (wdb w) w) ∧ later w (with_db (wdb w) w).
Proof. intros Hi. replace (with_db (wdb w) w) with w by (by destruct w). by split. Qed.

Lemma kept_read {A} (f : Sql (Json := Json) A) w : (f (wdb w)).2 = wdb w → Inv w → kept f w.
Proof.
  intros Hf Hi. unfold kept. rewrite Hf. by apply kept_same.
Qed.

Lemma authz_unchanged w (d : Db) :
  authorizations d = authorizations (wdb w) →
  ∀ z, z ∈ authorizations d → au_status z = "valid" →
    proven w z ∨ ∃ z0, z0 ∈ authorizations (wdb w) ∧ au_status z0 = "valid" ∧ same_authz z0 z.
Proof. intros He z Hz Hs. right. exists z. by rewrite <- He. Qed.

Ltac insert_cases :=
  unfold kept, insert_one; destruct (existsb _ _) eqn:Hclash; cbn [fst snd];
  [by apply kept_same|]; destruct (negb _) eqn:Hparent; cbn [fst snd]; [by apply kept_same|].

Lemma kept_create_account i ai tp jk c s tos w :
  new_account_id ai → Inv w → kept (create_account i ai tp jk c s tos) w.
Proof.
  intros Hid Hi. unfold create_account. insert_cases. apply kept_intro; [done| | |done|by apply authz_unchanged].
  - destruct (inv_wf w Hi) as [W0 W1 W2 W3]. split; [| |done|done]; cbn.
    { rewrite fmap_app. apply Forall_app. split; [done|]. by apply Forall_singleton. }
    eapply NoDup_insert; [|done|exact Hclash]. intros a b Hab. unfold account_clash.
    by rewrite bool_decide_eq_true_2.
  - split_and!; cbn; [apply rows_kept_app|apply rows_kept_refl..]; apply _.
Qed.

Lemma kept_create_order i oi acc s ids nb na ex w :
  Inv w → kept (create_order i oi acc s ids nb na ex) w.
Proof.
  intros Hi. unfold create_order. insert_cases. apply kept_intro; [done| | |done|by apply authz_unchanged].
  - destruct (inv_wf w Hi) as [W0 W1 W2 W3]. split; [done|done| |done]. cbn.
    eapply NoDup_insert; [|done|exact Hclash]. intros a b Hab. unfold order_clash.
    by rewrite bool_decide_eq_true_2.
  - split_and!; cbn; [apply rows_kept_refl|apply rows_kept_app|apply rows_kept_refl..]; apply _.
Qed.

Lemma kept_create_authorization i ai o ty v s ex wc w :
  s ≠ "valid" → Inv w → kept (create_authorization i ai o ty v s ex wc) w.
Proof.
  intros Hs Hi. unfold create_authorization. insert_cases. apply kept_intro; [done| | |done|].
  - destruct (inv_wf w Hi) as [W0 W1 W2 W3]. split; [done|done|done|]. cbn.
    eapply NoDup_insert; [|done|exact Hclash]. intros a b Hab. unfold authorization_clash.
    rewrite (bool_decide_eq_true_2 (au_authorization_id a = _)) by done. apply orb_true_r.
  - split_and!; cbn; [apply rows_kept_refl; apply _..|apply rows_kept_app; apply _|
      apply rows_kept_refl; apply _].
  - cbn. intros z [Hz| ->%list_elem_of_singleton]%elem_of_app Hv; [|done]. right. by exists z.
Qed.

Lemma kept_create_challenge i ci a ty tok s w : Inv w → kept (create_challenge i ci a ty tok s) w.
Proof.
  intros Hi. unfold create_challenge. insert_cases. apply kept_intro; [done| | |done|by apply authz_unchanged].
  - by destruct (inv_wf w Hi).
  - split_and!; cbn; [apply rows_kept_refl; apply _..|apply rows_kept_app; apply _].
Qed.

Lemma kept_update_account ai c s w : Inv w → kept (AcmeStore.update_account ai c s) w.
Proof.
  intros Hi. unfold kept, AcmeStore.update_account, update_one.
  destruct (head _); cbn [fst snd]; [|by apply kept_same].
  apply kept_intro; [done| | |done|by apply authz_unchanged].
  - destruct (inv_wf w Hi) as [W0 W1 W2 W3]. split; [| |done|done]; cbn; by unfold update_rows; rewrite update_keys.
  - split_and!; cbn; [apply rows_kept_update; [apply _|done]|apply rows_kept_refl; apply _..].
Qed.

Lemma kept_update_orders P f w :
  (∀ o, same_order o (f o)) → Inv w → kept (update_one orders set_orders P f) w.
Proof.
  intros Hf Hi. unfold kept, update_one. destruct (head _); cbn [fst snd]; [|by apply kept_same].
  apply kept_intro; [done| | |done|by apply authz_unchanged].
  - destruct (inv_wf w Hi) as [W0 W1 W2 W3]. split; [done|done| |done]. cbn. unfold update_rows. rewrite update_keys; [done|].
    intros o. symmetry. by destruct (Hf o).
  - split_and!; cbn; [apply rows_kept_refl; apply _|apply rows_kept_update; [apply _|done]|
      apply rows_kept_refl; apply _..].
Qed.

Lemma kept_update_order_status i s w : Inv w → kept (update_order_status i s) w.
Proof. by apply kept_update_orders. Qed.

Lemma kept_update_order_certificate i c csr w : Inv w → kept (update_order_certificate i c csr) w.
Proof.
  intros Hi. unfold kept, update_order_certificate.
  destruct (head _); [|by apply kept_same]. case_bool_decide; [by apply kept_same|].
  by apply kept_update_orders.
Qed.

Lemma kept_update_challenge_status ci s v e w : Inv w → kept (update_challenge_status ci s v e) w.
Proof.
  intros Hi. unfold kept, update_challenge_status, update_one.
  destruct (head _); cbn [fst snd]; [|by apply kept_same].
  apply kept_intro; [done| | |done|by apply authz_unchanged].
  - by destruct (inv_wf w Hi).
  - split_and!; cbn; [apply rows_kept_refl; apply _..|apply rows_kept_update; [apply _|done]].
Qed.

(** An authorization may become valid only when it is proven. *)
Lemma kept_update_authorization_status ai s w :
  (s = "valid" → ∀ z, z ∈ authorizations (wdb w) → au_authorization_id z = ai → proven w z) →
  Inv w → kept (update_authorization_status ai s) w.
Proof.
  intros Hs Hi. unfold kept, update_authorization_status, update_one.
  destruct (head _); cbn [fst snd]; [|by apply kept_same].
  apply kept_intro; [done| | |done|].
  - destruct (inv_wf w Hi) as [W0 W1 W2 W3]. split; [done|done|done|]. cbn. by unfold update_rows; rewrite update_keys.
  - split_and!; cbn; [apply rows_kept_refl; apply _..|apply rows_kept_update; [apply _|done]|
      apply rows_kept_refl; apply _].
  - cbn. intros z (z0 & -> & Hz0)%list_elem_of_fmap. case_bool_decide as Hid.
    + cbn. intros Hv. left. eapply proven_later; [reflexivity| |exact (Hs Hv z0 Hz0 Hid)]. done.
    + intros Hv. right. by exists z0.
Qed.

(** Observations. *)
Lemma observe_later ev w : later w (observe ev w).
Proof.
  split; [split_and!; apply rows_kept_refl; apply _|]. by exists [ev].
Qed.

Lemma fresh_app n t ev : fresh n (t ++ [ev]) = turn n (fresh n t) ev.
Proof. unfold fresh. by rewrite fold_left_app. Qed.

(** What an event needs for the invariant to survive it. *)
Definition event_ok (ev : Event) (w : World) : Prop :=
  match ev with
  | EvNonceUsed _ | EvNonceCreated _ => False
  | EvIssue r => authorized (wtrace w) r w
  | _ => True
  end.

Lemma Inv_observe ev w : event_ok ev w → Inv w → Inv (observe ev w).
Proof.
  intros He Hi. pose proof (observe_later ev w) as Hl. split.
  - apply (inv_wf w Hi).
  - intros z Hz Hs. eapply proven_later; [done| |by apply (inv_valid w Hi z)]. done.
  - intros t1 r t2 Ht. eapply authorized_later; [done|].
    apply snoc_split in Ht as [(-> & <- & _)|(t2' & -> & Ht)]; [exact He|].
    by apply (inv_issued w Hi t1 r t2').
  - intros n Hn. change (wtrace (observe ev w)) with (wtrace w ++ [ev]). rewrite fresh_app.
    apply (inv_nonces w Hi) in Hn. by destruct ev.
  - intros t1 n t2 [(-> & <- & _)|(t2' & -> & Ht)]%snoc_split; [done|].
    by apply (inv_used w Hi t1 n t2').
Qed.

(** The nonce table changes, with an event for a nonce used or created. *)
Lemma Inv_nonce_step w m (ev : option Event) w' :
  Inv w →
  w' = match ev with
       | Some ev => observe ev (with_db (set_nonces m (wdb w)) w)
       | None => with_db (set_nonces m (wdb w)) w
       end →
  match ev with
  | Some (EvNonceUsed n) => fresh n (wtrace w) = true
  | Some (EvNonceCreated _) | None => True
  | _ => False
  end →
  (∀ n, is_Some (m !! n) → fresh n (wtrace w') = true) →
  Inv w' ∧ later w w'.
Proof.
  intros Hi Hw' He Hn.
  assert (wdb w' = set_nonces m (wdb w)) as Hdb by (by subst; destruct ev).
  assert (later w w') as Hl.
  { split; [rewrite Hdb; split_and!; apply rows_kept_refl; apply _|].
    subst. destruct ev; [by eexists|done]. }
  split; [|done]. split.
  - rewrite Hdb. by destruct (inv_wf w Hi).
  - rewrite Hdb. intros z Hz Hs. eapply proven_later; [done| |by apply (inv_valid w Hi z)]. done.
  - intros t1 r t2 Ht. eapply authorized_later; [done|]. subst. destruct ev as [ev|].
    + apply snoc_split in Ht as [(_ & <- & _)|(t2' & -> & Ht)]; [done|]. by apply (inv_issued w Hi t1 r t2').
    + by apply (inv_issued w Hi t1 r t2).
  - rewrite Hdb. exact Hn.
  - subst. intros t1 n t2 Ht. destruct ev as [ev|]; [|by apply (inv_used w Hi t1 n t2)].
    apply snoc_split in Ht as [(-> & <- & _)|(t2' & -> & Ht)]; [done|]. by apply (inv_used w Hi t1 n t2').
Qed.

Lemma Inv_create_nonce w n e :
  Inv w → nonces (wdb w) !! n = None →
  let w' := observe (EvNonceCreated n) (with_db (create_nonce n e (wdb w)).2 w) in
  Inv w' ∧ later w w'.
Proof.
  intros Hi Hn. unfold create_nonce. rewrite Hn. cbn [snd].
  eapply (Inv_nonce_step _ _ (Some (EvNonceCreated n))); [done|done|done|].
  intros k Hk. change (wtrace _) with (wtrace w ++ [EvNonceCreated n]). rewrite fresh_app. cbn.
  destruct (decide (n = k)) as [->|Hne]; [done|].
  rewrite lookup_insert_ne in Hk by done. by apply (inv_nonces w Hi).
Qed.

Lemma consume_Ok now n (d : Db) :
  (consume_nonce now n d).1 = Ok true →
  (consume_nonce now n d).2 = set_nonces (delete n (nonces d)) d ∧ is_Some (nonces d !! n).
Proof.
  unfold consume_nonce. destruct (nonces d !! n) as [e|] eqn:Hn; [|done].
  destruct (now <? e); [|done]. by intros _.
Qed.

Lemma Inv_consume_nonce w n :
  Inv w → (consume_nonce (wnow w) n (wdb w)).1 = Ok true →
  let w' := observe (EvNonceUsed n) (with_db (consume_nonce (wnow w) n (wdb w)).2 w) in
  Inv w' ∧ later w w'.
Proof.
  intros Hi Hc. apply consume_Ok in Hc as [Hc [e He]]. rewrite Hc.
  eapply (Inv_nonce_step _ _ (Some (EvNonceUsed n))); [done|done|by apply (inv_nonces w Hi)|].
  intros k Hk. change (wtrace _) with (wtrace w ++ [EvNonceUsed n]). rewrite fresh_app. cbn.
  destruct (decide (n = k)) as [->|Hne]; [by rewrite lookup_delete_eq in Hk; destruct Hk|].
  rewrite lookup_delete_ne in Hk by done. by apply (inv_nonces w Hi).
Qed.

Lemma Inv_fewer_nonces w (m : gmap string DateTime) :
  Inv w → m ⊆ nonces (wdb w) →
  Inv (with_db (set_nonces m (wdb w)) w) ∧ later w (with_db (set_nonces m (wdb w)) w).
Proof.
  intros Hi Hm. eapply (Inv_nonce_step _ _ None); [done|done|done|]. intros n [e He].
  apply (inv_nonces w Hi). exists e. by eapply lookup_weaken.
Qed.

Lemma Inv_consume_applied w n :
  Inv w → let w' := with_db (consume_nonce (wnow w) n (wdb w)).2 w in Inv w' ∧ later w w'.
Proof.
  intros Hi. unfold consume_nonce.
  destruct (nonces (wdb w) !! n) as [e|]; [|by apply kept_same].
  destruct (_ <? e); [|by apply kept_same].
  by apply Inv_fewer_nonces; [|apply delete_subseteq].
Qed.

(** ** Rules of the program logic *)

Lemma wp_try_sql {A} (f : Sql (Json := Json) A) Q w :
  (∀ w1, later w w1 → Inv w1 → kept f w1 ∧
     let w2 := with_db (f (wdb w1)).2 w1 in
     Q (f (wdb w1)).1 w2 ∧ ∀ e, Q (Err e) w1 ∧ Q (Err e) w2) →
  wp (try_sql f) Q w.
Proof.
  intros HH w1 Hl Hi x w2 Ha. destruct (HH w1 Hl Hi) as ([Hk1 Hk2] & HQ & HE).
  destruct Ha as [[-> ->]|(e & -> & [-> | ->])]; cbn.
  - done.
  - split; [done|]. split; [reflexivity|]. split; [done|]. apply HE.
  - split; [done|]. split; [done|]. split; [done|]. apply HE.
Qed.

Lemma wpm_sql {A} (f : Sql (Json := Json) A) Q w :
  (∀ w1, later w w1 → Inv w1 → kept f w1 ∧
     ∀ a, (f (wdb w1)).1 = Ok a → Q a (with_db (f (wdb w1)).2 w1)) →
  wpm (sql f) Q w.
Proof.
  intros HH. apply wp_bind, wp_try_sql. intros w1 Hl Hi. destruct (HH w1 Hl Hi) as [Hk HQ].
  split; [done|]. split; [|done]. cbn. destruct ((f (wdb w1)).1) as [a|e]; [by apply HQ|done].
Qed.

Lemma wpm_read {A} (f : Sql (Json := Json) A) Q w :
  (∀ d, (f d).2 = d) →
  (∀ w1 a, later w w1 → Inv w1 → (f (wdb w1)).1 = Ok a → Q a w1) → wpm (sql f) Q w.
Proof.
  intros Hr HH. apply wpm_sql. intros w1 Hl Hi. split; [by apply kept_read|]. intros a Ha.
  rewrite Hr. replace (with_db _ w1) with w1 by (by destruct w1). by apply HH.
Qed.

(** An effect that changes nothing but what is observed. *)
Lemma wp_call {X} (e : AcmeE X) Q w :
  (∀ w1, later w w1 → Inv w1 → ∀ x w2, answers st w1 e x w2 →
     (w2 = w1 ∨ ∃ ev, w2 = observe ev w1 ∧ event_ok ev w1) ∧ spawn_ok w2 e ∧ Q x w2) →
  wp (call e) Q w.
Proof.
  intros HH w1 Hl Hi x w2 Ha. destruct (HH w1 Hl Hi x w2 Ha) as ([->|(ev & -> & He)] & Hs & HQ).
  - by split.
  - split; [by apply Inv_observe|]. split; [apply observe_later|]. by split.
Qed.

Lemma wp_now Q w : (∀ w1 t, later w w1 → Inv w1 → Q t w1) → wp (call ENow) Q w.
Proof. intros HH. apply wp_call. intros w1 Hl Hi x w2 [-> ->]. split; [by left|]. split; [done|]. by apply HH. Qed.
Lemma wp_uuid Q w : (∀ w1 u, later w w1 → Inv w1 → Q u w1) → wp (call ENewUuid) Q w.
Proof. intros HH. apply wp_call. intros w1 Hl Hi x w2 ->. split; [by left|]. split; [done|]. by apply HH. Qed.
Lemma wp_record ev Q w : (∀ w1, later w w1 → Inv w1 → Q tt w1) → wp (call (ERecord ev)) Q w.
Proof.
  intros HH. apply wp_call. intros w1 Hl Hi [] w2 ->. split; [right; by eexists|]. split; [done|].
  apply HH; [etransitivity; [done|apply observe_later]|by apply Inv_observe].
Qed.

Lemma wp_new_id p Q w :
  (∀ w1 u, later w w1 → Inv w1 → Q (p +:+ uuid_to_string u) w1) → wp (new_id p) Q w.
Proof. intros HH. apply wp_bind, wp_uuid. intros w1 u Hl Hi. by apply HH. Qed.

Lemma wp_create_nonce n e Q w :
  (∀ w1 r, later w w1 → Inv w1 → Q r w1) → wp (call (ECreateNonce n e)) Q w.
Proof.
  intros HH w1 Hl Hi x w2 Ha.
  assert (Inv w2 ∧ later w1 w2) as [Hi2 Hl2].
  { destruct Ha as [(_ & Hn & ->)|(? & _ & [->|[Hn ->]])]; [by apply Inv_create_nonce|by split|
      by apply Inv_create_nonce]. }
  split; [done|]. split; [done|]. split; [done|]. apply HH; [by etransitivity|done].
Qed.

Lemma wpm_use_nonce n Q w :
  (∀ w1, later w w1 → Inv w1 → EvNonceUsed n ∈ wtrace w1 → Q tt w1) → wpm (use_nonce n) Q w.
Proof.
  intros HH w1 Hl Hi x w2 Ha.
  assert (Inv w2 ∧ later w1 w2) as [Hi2 Hl2].
  { destruct Ha as [(_ & Hc & ->)|[(_ & _ & ->)|(? & _ & [-> | ->])]];
      [by apply Inv_consume_nonce|by split|by split|by apply Inv_consume_applied]. }
  split; [done|]. split; [done|]. split; [done|].
  destruct x as [[]|]; cbn; [|done..]. apply HH; [by etransitivity|done|].
  destruct Ha as [(_ & _ & ->)|[(? & _)|(? & ? & _)]]; [|done..].
  apply elem_of_app. right. by apply list_elem_of_singleton.
Qed.

Lemma wp_generate_nonce Q w : (∀ w1 s, later w w1 → Inv w1 → Q s w1) → wp generate_nonce Q w.
Proof.
  intros HH. apply wp_bind, wp_new_id. intros w1 s Hl1 Hi1. apply wp_bind, wp_now.
  intros w2 t Hl2 Hi2. apply wp_bind, wp_create_nonce. intros w3 r Hl3 Hi3.
  apply HH; [|done]. by do 2 (etransitivity; [eassumption|]).
Qed.

(** ** The handlers *)

Lemma safe_try_sql {A} (f : Sql (Json := Json) A) :
  (∀ w, Inv w → kept f w) → safe (try_sql f).
Proof. intros Hk w. apply wp_try_sql. intros w1 _ Hi. split; [by apply Hk|done]. Qed.
Lemma safe_sql {A} (f : Sql (Json := Json) A) : (∀ w, Inv w → kept f w) → safe (sql f).
Proof. intros Hk. apply safe_bind; [by apply safe_try_sql|intros; apply safe_Done]. Qed.
Lemma safe_now : safe (call ENow). Proof. intros w. by apply wp_now. Qed.
Lemma safe_uuid : safe (call ENewUuid). Proof. intros w. by apply wp_uuid. Qed.
Lemma safe_record ev : safe (call (ERecord ev)). Proof. intros w. by apply wp_record. Qed.
Lemma safe_new_id p : safe (new_id p). Proof. intros w. by apply wp_new_id. Qed.
Lemma safe_generate_nonce : safe generate_nonce. Proof. intros w. by apply wp_generate_nonce. Qed.
Lemma safe_use_nonce n : safe (use_nonce n).
Proof. intros w. apply wpm_safe. by apply wpm_use_nonce. Qed.

Lemma kept_select {R} (rows : Db → list R) P w : Inv w → kept (select_one rows P) w.
Proof. by apply kept_read. Qed.
Lemma kept_select_all {R} (rows : Db → list R) P w : Inv w → kept (select_all rows P) w.
Proof. by apply kept_read. Qed.
Lemma kept_find_certificate i w : Inv w → kept (find_certificate i) w.
Proof. by apply kept_read. Qed.
End safety.

Create HintDb acme.
#[export] Hint Resolve safe_Done safe_now safe_uuid safe_record safe_new_id safe_generate_nonce
  safe_use_nonce safe_lift safe_sql safe_try_sql safe_bind safe_bindM : acme.
#[export] Hint Resolve kept_select kept_select_all kept_find_certificate
  kept_create_order kept_create_challenge kept_update_account kept_update_order_status
  kept_update_order_certificate kept_update_challenge_status : acme.

(** Runs through a handler that does nothing the invariant depends on. *)
Ltac safe_handler :=
  repeat first
    [ progress intros
    | apply safe_now | apply safe_uuid | apply safe_record | apply safe_new_id
    | apply safe_generate_nonce | apply safe_use_nonce | apply safe_lift
    | apply safe_sql; solve [auto with acme] | apply safe_try_sql; solve [auto with acme]
    | apply safe_bindM | apply safe_bind | apply safe_Done
    | progress (unfold respond, ret, fail, record_audit, account_response, existing_account_response,
        check_signature, find_account_by_id, find_account_by_jwk, find_account_by_uuid,
        find_order_by_id, find_order_by_uuid, find_authorization_by_id, find_authorization_by_uuid,
        find_challenge_by_id, list_authorizations_by_order, list_challenges_by_authorization)
    | case_match ].

(** Later worlds, through the chain of those in between. *)
Ltac laters :=
  cbn [l_later l_inv acme_logic] in *; solve [repeat first [eassumption | etransitivity; [eassumption|]]].

Section handlers.
Context {HNm : HickoryName} {HJw : JwsLib} {HVl : ValidatorLib} {HVf : VerifyLib} {HAc : AcmeLib} (st : AcmeState).
Abbreviation Db := (AcmeDb Json).
Abbreviation wp := (Programs.wp (L := acme_logic st)).
Abbreviation wpm := (Programs.wpm (L := acme_logic st)).
Abbreviation safe := (Programs.safe (L := acme_logic st)).
Abbreviation Sys := (Programs.Sys (L := acme_logic st)).

Lemma safe_get_new_nonce head : safe (get_new_nonce head).
Proof. unfold get_new_nonce. safe_handler. Qed.

Lemma safe_validate_new {T} (fs : list u8 → result T string) body url :
  safe (validate_jws_new_account fs body url).
Proof. unfold validate_jws_new_account. safe_handler. Qed.
Lemma safe_verify_jws_account body url : safe (verify_jws_account body url).
Proof. unfold verify_jws_account. safe_handler. Qed.
Lemma safe_validate {T} (fs : list u8 → result T string) body url :
  safe (validate_jws_with_account fs body url).
Proof. unfold validate_jws_with_account. apply safe_bindM; [apply safe_verify_jws_account|safe_handler]. Qed.

Lemma safe_new_account body : safe (new_account st body).
Proof.
  unfold new_account. apply safe_bindM; [apply safe_validate_new|intros v].
  do 2 (apply safe_bindM; [safe_handler|intros ?]). case_match; [safe_handler|].
  do 2 (case_match; [safe_handler|]). intros w. apply wp_bind, wp_new_id. intros w1 u _ _.
  apply safe_wp; [done|]. apply safe_bind; [safe_handler|intros id].
  apply safe_bind; [|safe_handler]. apply safe_try_sql. intros w2. apply kept_create_account. by exists u.
Qed.
Lemma safe_update_account id body : safe (update_account st id body).
Proof. unfold update_account. apply safe_bindM; [apply safe_validate|]. safe_handler. Qed.

Lemma safe_create_challenges a types : safe (create_challenges a types).
Proof. induction types as [|t types IH]; cbn [create_challenges]; safe_handler. apply IH. Qed.
Lemma safe_create_authorizations o ids : safe (create_authorizations st o ids).
Proof.
  induction ids as [|i ids IH]; cbn [create_authorizations]; [apply safe_Done|].
  do 3 (apply safe_bind; [safe_handler|intros ?]).
  apply safe_bindM; [apply safe_sql; intros; by apply kept_create_authorization|intros ?].
  apply safe_bindM; [apply safe_create_challenges|intros ?].
  apply safe_bindM; [apply IH|safe_handler].
Qed.
Lemma safe_new_order body : safe (new_order st body).
Proof.
  unfold new_order. apply safe_bindM; [apply safe_validate|intros v]. case_match; [|safe_handler].
  do 2 (apply safe_bind; [safe_handler|intros ?]). apply safe_bindM; [safe_handler|intros ?].
  apply safe_bind; [safe_handler|intros ?]. apply safe_bindM; [safe_handler|intros ?].
  apply safe_bindM; [apply safe_create_authorizations|]. safe_handler.
Qed.

Lemma safe_get_order id : safe (get_order st id).
Proof. unfold get_order. safe_handler. Qed.
Lemma safe_get_authorization id : safe (get_authorization st id).
Proof. unfold get_authorization. safe_handler. Qed.
Lemma safe_get_certificate id : safe (get_certificate id).
Proof. unfold get_certificate. safe_handler. Qed.
Lemma safe_post_as_get path body get : safe get → safe (post_as_get st path body get).
Proof. intros Hg. unfold post_as_get. apply safe_bindM; [apply safe_verify_jws_account|done]. Qed.

(** ** Challenge validation *)

Lemma wpm_found {R} (rows : Db → list R) P e Q w :
  (∀ w1 r, later w w1 → Inv st w1 → r ∈ rows (wdb w1) → P r = true → Q r w1) →
  wpm (let# found := sql (select_one rows P) in lift (ok_or found e)) Q w.
Proof.
  intros HH. apply wpm_bind, wpm_read; [done|]. intros w1 found Hl Hi Hf. apply wpm_lift.
  intros r Hr. destruct found as [r'|]; [|done]. injection Hr as ->. injection Hf as Hf.
  apply head_filter_Some in Hf as [Hin HP]. by apply HH.
Qed.

Lemma wpm_run_validator ct dom tok tp Q w :
  (∀ w1 b, later w w1 → Inv st w1 →
     (b = true → EvValidated ct dom tok tp ∈ wtrace w1) → Q b w1) →
  wpm (run_validator ct dom tok tp) Q w.
Proof.
  intros HH. unfold run_validator. case_match; [|done]. intros w1 Hl Hi x w2 (h & _ & Hw2).
  set (w3 := observe (EvNetwork ct dom tok tp h) w1) in *.
  assert (Inv st w3 ∧ later w1 w3) as [Hi3 Hl3] by (split; [by apply Inv_observe|apply observe_later]).
  assert (Inv st w2 ∧ later w3 w2 ∧ (x = Ok true → EvValidated ct dom tok tp ∈ wtrace w2)) as (Hi2 & Hl2 & Hev).
  { destruct x as [[]|e]; cbn zeta in Hw2; subst w2; [|by split_and!..]. split_and!; [by apply Inv_observe|apply observe_later|].
    intros _. apply elem_of_app. right. by apply list_elem_of_singleton. }
  split; [done|]. split; [by etransitivity|]. split; [done|]. destruct x as [b|e]; [|done].
  apply HH; [etransitivity; [exact Hl|by etransitivity]|done|]. by intros ->; apply Hev.
Qed.

Lemma wpm_find_authorization i e Q w :
  (∀ w1 z, later w w1 → Inv st w1 → z ∈ authorizations (wdb w1) → au_id z = i → Q z w1) →
  wpm (let# found := sql (find_authorization_by_uuid i) in lift (ok_or found e)) Q w.
Proof.
  intros HH. apply wpm_found. intros w1 z Hl Hi Hz Hp. apply HH; [done..|].
  by apply bool_decide_eq_true in Hp.
Qed.
Lemma wpm_find_order i e Q w :
  (∀ w1 o, later w w1 → Inv st w1 → o ∈ orders (wdb w1) → or_id o = i → Q o w1) →
  wpm (let# found := sql (find_order_by_uuid i) in lift (ok_or found e)) Q w.
Proof.
  intros HH. apply wpm_found. intros w1 z Hl Hi Hz Hp. apply HH; [done..|].
  by apply bool_decide_eq_true in Hp.
Qed.
Lemma wpm_find_account i e Q w :
  (∀ w1 a, later w w1 → Inv st w1 → a ∈ accounts (wdb w1) → ac_id a = i → Q a w1) →
  wpm (let# found := sql (find_account_by_uuid i) in lift (ok_or found e)) Q w.
Proof.
  intros HH. apply wpm_found. intros w1 z Hl Hi Hz Hp. apply HH; [done..|].
  by apply bool_decide_eq_true in Hp.
Qed.

Lemma safe_validate_inner c w :
  (∃ c', c' ∈ challenges (wdb w) ∧ same_challenge c c') →
  wpm (validate_challenge_inner c) top w.
Proof.
  intros (c0 & Hc0 & Hsame). unfold validate_challenge_inner.
  apply wpm_assoc, wpm_bind, wpm_find_authorization. intros w1 z Hl1 Hi1 Hz Hzid.
  apply wpm_bind, wpm_lift. intros [] Hperm.
  apply wpm_assoc, wpm_bind, wpm_find_order. intros w2 o Hl2 Hi2 Ho Hoid.
  apply wpm_assoc, wpm_bind, wpm_find_account. intros w3 a Hl3 Hi3 Ha Haid.
  apply wpm_bind, wpm_run_validator. intros w4 b Hl4 Hi4 Hev. destruct b; cbn [negb]; [|done].
  assert (proven w4 z) as Hproven.
  { assert (later w1 w4) as Hl14 by laters.
    assert (later w2 w4) as Hl24 by laters.
    destruct Hl24 as [(_ & HO & _) _]. destruct (HO _ Ho) as (o' & Ho' & O1 & O2 & O3 & O4).
    destruct Hl4 as [(HA & _) _]. destruct (HA _ Ha) as (a' & Ha' & A1 & A2 & A3 & A4).
    assert (later w w4) as Hl04 by laters.
    exists o', a', (ch_challenge_type c), (ch_token c).
    split_and!; [done|congruence|done|congruence|rewrite <- A3; by apply Hev|done|].
    destruct Hl04 as [(_ & _ & _ & HC) _]. destruct (HC _ Hc0) as (c' & Hc' & C).
    assert (same_challenge c c') as (C1 & C2 & C3 & C4 & C5) by laters.
    destruct Hl14 as [(_ & _ & HZ & _) _]. destruct (HZ _ Hz) as (z' & Hz' & S1 & S2 & S3 & _).
    exists z', c'. split_and!; congruence. }
  apply wp_bind, wp_now. intros w5 t Hl5 Hi5.
  apply wpm_bind, wpm_sql. intros w6 Hl6 Hi6. split; [by apply kept_update_challenge_status|].
  intros ? _. set (w6' := with_db _ w6).
  assert (later w1 w6) as Hl16 by laters.
  assert (later w4 w6) as Hl46 by laters.
  assert (later w6 w6') as Hl66 by (by apply (kept_update_challenge_status st)).
  apply wpm_bind, wpm_sql. intros w7 Hl7 Hi7. split.
  - apply kept_update_authorization_status; [|done]. intros _ z' Hz' Hid.
    assert (later w1 w7) as Hl17 by laters.
    assert (later w4 w7) as Hl47 by laters.
    pose proof Hl17 as [(_ & _ & HZ & _) _]. destruct (HZ _ Hz) as (z'' & Hz'' & Hs).
    assert (z' = z'') as ->.
    { eapply NoDup_key_eq; [exact (wf_authz _ (inv_wf _ _ Hi7))|done|done|].
      destruct Hs as (_ & Hs & _). congruence. }
    by eapply proven_later.
  - intros ? _. apply safe_wp; [by intros []|]. safe_handler.
Qed.
Lemma safe_outcome_recorded i : safe (outcome_recorded i).
Proof. unfold outcome_recorded. safe_handler. Qed.

Lemma wp_run_challenge_validation c w :
  (∃ c', c' ∈ challenges (wdb w) ∧ same_challenge c c') →
  wp (run_challenge_validation c) top w.
Proof.
  intros Hc. unfold run_challenge_validation. apply wp_bind.
  eapply wp_mono; [|by apply safe_validate_inner]. intros outcome w1 _ _.
  apply safe_bind.
  - destruct outcome as [|e]; [apply safe_Done|]. apply safe_bind; [safe_handler|intros _].
    apply safe_bind; [safe_handler|intros [[z|]|]]; [|apply safe_Done..].
    apply safe_bind; [|safe_handler]. apply safe_try_sql. intros w2 Hi.
    by apply kept_update_authorization_status.
  - intros _. apply safe_bind; [apply safe_outcome_recorded|safe_handler].
Qed.

Lemma safe_respond_to_challenge id body : safe (respond_to_challenge st id body).
Proof.
  intros w. apply wpm_safe. unfold respond_to_challenge.
  apply safe_wpm; [apply safe_validate|intros v w1 _].
  apply wpm_assoc, wpm_bind, wpm_found. intros w2 c _ _ Hc _.
  apply safe_wpm; [safe_handler|intros upd w3 Hl3]. apply safe_wpm; [safe_handler|intros up w4 Hl4].
  apply wp_bind, wp_call. intros w5 Hl5 Hi5 [] w6 ->. split; [by left|]. split.
  - assert (later w2 w5) as [(_ & _ & _ & HC) _] by laters.
    by apply HC.
  - apply wp_bind, safe_wp; [done|apply safe_generate_nonce].
Qed.

(** ** Finalization *)

Lemma later_trace w w' ev : later w w' → ev ∈ wtrace w → ev ∈ wtrace w'.
Proof. intros [_ [l ->]] Hin. apply elem_of_app. by left. Qed.
Lemma signed_by_key w w' a a' u body :
  later w w' → ac_public_key_jwk a = ac_public_key_jwk a' →
  signed_by (wtrace w) a u body → signed_by (wtrace w') a' u body.
Proof.
  unfold signed_by. intros Hl <- (jws & h & k & Hn & Hs). exists jws, h, k.
  split; [|done]. by apply (later_trace w).
Qed.

Lemma authorized_grow r w w' : later w w' → authorized st (wtrace w) r w → authorized st (wtrace w') r w'.
Proof.
  intros Hl Ha. apply (authorized_later st _ _ _ _ Hl) in Ha. destruct Hl as [_ [l ->]].
  destruct Ha as (o & a & sans & body & Ho & Hac & Hoa & Hr & Hacc & Hev & Hsig & Hcv & Hp & Hsan & Hc).
  exists o, a, sans, body. split_and!; try done; [apply elem_of_app; by left| |apply elem_of_app; by left|].
  { destruct Hsig as (jws & h & k & Hn & Hs). exists jws, h, k. split; [|done]. apply elem_of_app. by left. }
  eapply Forall_impl; [exact Hc|]. intros san. apply controls_mono; [done|].
  intros ev ?. apply elem_of_app. by left.
Qed.

Lemma wp_issue_attempts n r w : authorized st (wtrace w) r w → wp (issue_attempts n r) top w.
Proof.
  revert w. induction n as [|n IH]; intros w Ha; cbn [issue_attempts]; apply wp_bind, wp_call;
    intros w1 Hl1 Hi1 x w2 ->; (split; [right; eexists; split; [done|by apply (authorized_grow _ w)]|]);
    (split; [done|]); destruct x as [i|e]; try done.
  case_match; [|done]. apply IH, (authorized_grow _ w); [|done].
  etransitivity; [done|apply observe_later].
Qed.

Lemma wpm_verify_jws_account body url w :
  wpm (verify_jws_account body url)
    (λ v w', ∃ a, a ∈ accounts (wdb w') ∧ ac_id a = va_account_id v ∧ signed_by (wtrace w') a url body) w.
Proof.
  unfold verify_jws_account. apply wpm_bind, wpm_lift. intros jws Hjws.
  apply wpm_bind, wpm_lift. intros header Hheader.
  case_bool_decide as Hurl; cbn [negb]; [|done].
  apply wpm_bind, wpm_use_nonce. intros w1 _ _ Hused.
  apply wpm_bind, wpm_lift. intros kid Hkid. apply wpm_bind, wpm_lift. intros i Hi.
  apply wpm_assoc, wpm_bind, wpm_found. intros w2 a Hl2 Hi2 Ha _.
  apply wpm_bind, wpm_lift. intros k Hk. apply wpm_bind. unfold check_signature.
  apply wpm_bind, wpm_lift. intros b Hb. destruct b; cbn [negb]; [|done].
  apply wpm_bind, wpm_lift. intros tp Htp. exists a. split; [done|]. split; [done|].
  exists jws, header, k. split_and!; try done; [by apply (later_trace w1)|].
  by destruct (jwk_from_value _); simplify_eq.
Qed.

Lemma wpm_validate {T} (fs : list u8 → result T string) body url w :
  wpm (validate_jws_with_account fs body url)
    (λ v w', ∃ a, a ∈ accounts (wdb w') ∧ ac_id a = vr_account_id v ∧ signed_by (wtrace w') a url body) w.
Proof.
  unfold validate_jws_with_account. apply wpm_bind.
  eapply wpm_mono; [|apply wpm_verify_jws_account]. intros v w' _ Ha.
  apply wpm_bind, wpm_lift. intros b _. by apply wpm_bind, wpm_lift.
Qed.

(** The valid authorizations of an order, at one time. *)
Lemma rows_proven w o a z :
  Inv st w → o ∈ orders (wdb w) → a ∈ accounts (wdb w) → or_account_id o = ac_id a →
  z ∈ authorizations (wdb w) → au_order_id z = or_id o → au_status z = "valid" →
  ∃ ct tok, EvValidated ct (au_identifier_value z) tok (ac_jwk_thumbprint a) ∈ wtrace w ∧
    check_challenge_permitted z ct = Ok tt ∧ issued (wdb w) (or_id o) ct tok.
Proof.
  intros Hi Ho Ha Hoa Hz Hzo Hs. pose proof (inv_wf _ _ Hi) as [_ W1 W2 _].
  destruct (inv_valid _ _ Hi z Hz Hs) as (o' & a' & ct & tok & Ho' & Hid & Ha' & Hac & Hev & Hp & His).
  assert (o' = o) as -> by (apply (NoDup_key_eq or_id _ _ _ W2); congruence).
  assert (a' = a) as -> by (apply (NoDup_key_eq ac_id _ _ _ W1); congruence).
  by exists ct, tok.
Qed.

Lemma wpm_ca_finalize_order o csr sans acc w :
  parse_csr csr = Ok sans →
  (∀ r, request_id r = uuid_to_string o → acme_account_id r = acc → csr_der r = csr →
     subject_alt_names r = convert_sans_to_proto sans → authorized st (wtrace w) r w) →
  wpm (ca_finalize_order st o csr acc) top w.
Proof.
  intros Hsans Hr. unfold ca_finalize_order. apply wpm_bind, wpm_lift. intros req _.
  apply wpm_bind, wpm_lift. intros sans' Hs. rewrite Hsans in Hs. injection Hs as <-.
  apply wpm_bind, wpm_lift. intros sub _. apply wpm_bind, wpm_lift. intros der _.
  match goal with |- context [issue_with_retry _ ?r] => specialize (Hr r eq_refl eq_refl eq_refl eq_refl) end.
  unfold issue_with_retry. apply wp_bind, wp_bind, wp_call. intros w1 Hl1 Hi1 x w2 ->.
  split; [by left|]. split; [done|]. apply wp_mono with (Q := top).
  - intros x' w3 Hl3 _. apply safe_wp; [by intros []|]. safe_handler.
  - destruct x; [|done]. apply wp_issue_attempts. by apply (authorized_grow _ w).
Qed.

Lemma safe_load_ip_challenges rows : safe (load_ip_challenges rows).
Proof.
  induction rows as [|z rows IH]; cbn [load_ip_challenges]; [apply safe_Done|].
  destruct (bool_decide _); [|done].
  apply safe_bindM; [safe_handler|intros ?]. apply safe_bindM; [done|safe_handler].
Qed.

(** What the finalize checks establish for the request to the CA. *)
Lemma checks_authorize w p o a ids rows cs now body csr sans r :
  Inv st w → o ∈ orders (wdb w) → a ∈ accounts (wdb w) → or_account_id o = ac_id a →
  (∀ z, z ∈ rows → au_status z = "valid" → ∃ ct tok,
     EvValidated ct (au_identifier_value z) tok (ac_jwk_thumbprint a) ∈ wtrace w ∧
     check_challenge_permitted z ct = Ok tt ∧ issued (wdb w) (or_id o) ct tok) →
  check_order_finalizable p ids rows cs now = Ok tt → validate_csr_identifiers ids sans = Ok tt →
  EvRequest (RqFinalize (or_order_id o) body) ∈ wtrace w →
  signed_by (wtrace w) a (acme_url st ("order/" +:+ or_order_id o +:+ "/finalize")) body →
  EvCsrVerified csr ∈ wtrace w → parse_csr csr = Ok sans →
  request_id r = uuid_to_string (or_id o) → acme_account_id r = uuid_to_string (ac_id a) →
  csr_der r = csr → subject_alt_names r = convert_sans_to_proto sans →
  authorized st (wtrace w) r w.
Proof.
  intros Hi Ho Ha Hoa Hz Hc Hv Hev Hsig Hcv Hp Hr1 Hr2 <- Hr4.
  exists o, a, sans, body. split_and!; try done. by eapply names_controlled.
Qed.

Lemma wp_finalize_order id body w :
  EvRequest (RqFinalize id body) ∈ wtrace w → wpm (finalize_order st id body) top w.
Proof.
  intros Hreq. unfold finalize_order. apply wpm_bind.
  eapply wpm_mono; [|apply wpm_validate]. intros v w1 Hl1 (a & Ha & Haid & Hsig).
  case_bool_decide; [done|]. apply wpm_bind, wpm_lift. intros csr _.
  apply wpm_bind, wpm_lift. intros sans Hsans.
  assert (parse_csr csr = Ok sans) as Hp by (unfold bad_csr in Hsans; case_match; congruence).
  apply wp_bind, wp_call. intros w2 Hl2 Hi2 x w3 Hx.
  cbn in Hx. split; [rewrite Hx; destruct x as [[]|]; [right; by eexists|by left..]|]. split; [done|].
  apply wpm_bind, wpm_lift. intros b Hb. destruct b; cbn [negb]; [|done].
  assert (w3 = observe (EvCsrVerified csr) w2) as -> by (destruct x as [[]|]; cbn in Hb; congruence).
  assert (later w1 (observe (EvCsrVerified csr) w2)) as Hl3.
  { etransitivity; [exact Hl2|apply observe_later]. }
  assert (EvCsrVerified csr ∈ wtrace (observe (EvCsrVerified csr) w2)) as Hcv.
  { apply elem_of_app. right. by apply list_elem_of_singleton. }
  revert Hl3 Hcv. generalize (observe (EvCsrVerified csr) w2). clear w2 Hl2 Hi2 Hx. intros w2 Hl2 Hcv.
  apply wpm_assoc, wpm_bind, wpm_found. intros w3 o Hl3 Hi3 Ho Hoid.
  apply bool_decide_eq_true in Hoid as <-.
  case_bool_decide as Hown; cbn [negb]; [|done].
  apply wpm_bind, wpm_lift. intros ids _. apply wpm_bind, wpm_read; [done|].
  intros w4 rows Hl4 Hi4 Hrows. injection Hrows as <-.
  set (rows := List.filter _ _).
  assert (later w1 w4) as Hl14 by laters.
  pose proof Hl14 as [(HA & _) _]. destruct (HA _ Ha) as (a' & Ha' & A1 & _ & A3 & A4).
  pose proof Hl4 as [(_ & HO & _) _]. destruct (HO _ Ho) as (o' & Ho' & O1 & O2 & O3 & _).
  assert (∀ z, z ∈ rows → au_status z = "valid" → ∃ ct tok,
     EvValidated ct (au_identifier_value z) tok (ac_jwk_thumbprint a') ∈ wtrace w4 ∧
     check_challenge_permitted z ct = Ok tt ∧ issued (wdb w4) (or_id o') ct tok) as Hz.
  { intros z [Hz Hzo]%elem_of_filter_bool Hs. apply bool_decide_eq_true in Hzo.
    apply rows_proven; done || congruence. }
  apply safe_wpm; [apply safe_load_ip_challenges|intros cs w5 Hl5].
  apply wp_bind, wp_now. intros w6 now Hl6 Hi6.
  destruct (check_order_finalizable o ids rows cs now) as [[]|e] eqn:Hc; cbn [res_bind];
    [destruct (validate_csr_identifiers ids sans) as [[]|e] eqn:Hv|]; cycle 1.
  1, 2: apply wp_bind, safe_wp; [done|safe_handler].
  apply safe_wpm; [safe_handler|intros _ w7 Hl7]. case_match.
  { apply wp_bind, safe_wp; [done|safe_handler]. }
  apply wpm_bind. eapply wpm_mono; [|apply (wpm_ca_finalize_order _ _ _ _ _ Hp)].
  { intros i w8 _ _. apply safe_wp; [by intros []|]. safe_handler. }
  intros r Hr1 Hr2 Hr3 Hr4. apply (authorized_grow _ w4).
  { laters. }
  apply (checks_authorize w4 o o' a' ids rows cs now body csr sans); try done || congruence.
  - rewrite <- O2. by apply (later_trace w); [laters|].
  - rewrite <- O2. by eapply (signed_by_key w1).
  - by apply (later_trace w2); [laters|].
Qed.

(** ** Every run *)

Lemma wp_serve r w : EvRequest r ∈ wtrace w → wp (serve st r) top w.
Proof.
  intros Hr. destruct r; cbn [serve]; unfold answer;
    (apply wp_bind, wp_mono with (Q := top); [done|]).
  - apply safe_get_new_nonce.
  - apply safe_new_account.
  - apply safe_new_order.
  - apply safe_update_account.
  - apply safe_get_authorization.
  - apply safe_post_as_get, safe_get_authorization.
  - apply safe_respond_to_challenge.
  - apply safe_get_order.
  - apply safe_post_as_get, safe_get_order.
  - apply wpm_safe. by apply wp_finalize_order.
  - apply safe_get_certificate.
  - apply safe_post_as_get, safe_get_certificate.
Qed.

Lemma spawn_safe w X (e : AcmeE X) : Inv st w → spawn_ok w e → Forall (λ p, wp p top w) (spawned e).
Proof.
  intros _ Hs. destruct e; cbn [spawned]; constructor; [|done]. by apply wp_run_challenge_validation.
Qed.

(** A change of the world that starts nothing. *)
Lemma quiet w w' :
  Inv st w' ∧ later w w' → Inv st w' ∧ later w w' ∧ Forall (λ p : Prog unit, wp p top w') [].
Proof. intros [H1 H2]. by split_and!. Qed.

Lemma env_safe w w' ps :
  Inv st w → env st w w' ps → Inv st w' ∧ later w w' ∧ Forall (λ p, wp p top w') ps.
Proof.
  intros Hi He. destruct He as [w r|w t Hle|w m Hm|w].
  - split; [by apply Inv_observe|]. split; [apply observe_later|].
    apply Forall_singleton, wp_serve, elem_of_app. right. by apply list_elem_of_singleton.
  - split; [by destruct Hi|]. split; [|by constructor]. by split; [split_and!; apply rows_kept_refl; apply _|].
  - apply quiet. apply kept_intro; [done|..].
    + by destruct (inv_wf _ _ Hi).
    + split_and!; apply rows_kept_refl; apply _.
    + done.
    + by apply authz_unchanged.
  - apply quiet. by apply Inv_fewer_nonces; [|apply map_filter_subseteq].
Qed.

Lemma Sys_runs {A} (p : Prog A) Q s a s' : runs st p s a s' → Sys s → wp p Q s.1 → Q a s'.1.
Proof. exact (wp_runs (L := acme_logic st) _ _ spawn_safe env_safe p Q s a s'). Qed.

Lemma Sys_reachable s : reachable st s → Sys s.
Proof.
  intros [now Hr]. assert (Sys (start now)) as Hs.
  { split; [split|by constructor]; cbn.
    - repeat constructor.
    - intros z Hz. by apply elem_of_nil in Hz.
    - intros t1 r t2 Ht. by destruct t1.
    - intros n [e He]. by rewrite lookup_empty in He.
    - intros t1 n t2 Ht. by destruct t1. }
  by apply (Sys_steps (L := acme_logic st) _ _ spawn_safe env_safe _ _ Hr).
Qed.

(** ** An account update finds no account *)

Lemma uuid_no_acct u v : uuid_to_string u ≠ "acct-" +:+ v.
Proof. intros He. pose proof (uuid_characters u) as Hc. by rewrite He in Hc. Qed.

Lemma wpm_update_account id body w : wpm (update_account st id body) (λ _ _, False) w.
Proof.
  unfold update_account. apply safe_wpm; [apply safe_validate|intros v w1 _].
  case_bool_decide as Hid; cbn [negb]; [|done]. apply wpm_bind, wpm_sql. intros w2 _ Hi2.
  split; [by apply kept_update_account|]. unfold AcmeStore.update_account, update_one.
  destruct (head _) as [r|] eqn:Hr; [|done]. apply head_filter_Some in Hr as [Hr Heq].
  apply bool_decide_eq_true in Heq.
  pose proof (wf_account_ids _ (inv_wf _ _ Hi2)) as Hwf. rewrite Forall_forall in Hwf.
  destruct (Hwf (ac_account_id r)) as [u Hu]; [by apply list_elem_of_fmap_2|].
  destruct (uuid_no_acct (vr_account_id v) (uuid_to_string u)). congruence.
Qed.
End handlers.
