(* ===== verification/AcmeGuarantees.v ===== *)
(** * What the ACME server guarantees

    The theorems about every run, and one run of the whole flow, from the
    first nonce to the request to the CA, computed with a concrete instance
    of the libraries. *)
From stdpp Require Import base list strings gmap countable pretty.
From Stdlib Require Import Ascii.
From S2P Require Import AddressGuard AcmeValidators ValidatorRuns.
From S2P Require Import Prelude Text Programs Algorithm IpAddr AcmeIdentifier AcmeJws AcmeStore AcmeServer.
From S2P Require Import AcmeFinalize AcmeRun AcmeSafety.
#[local] Open Scope Z_scope.

(** ** Runs that can be computed *)

Section exec.
Context {HNm : HickoryName} {HJw : JwsLib} {HVl : ValidatorLib} {HVf : VerifyLib} {HAc : AcmeLib} (st : AcmeState)
  (net : string → string → string → string → list NetEvent → ∀ X, NetE X → X).

(** One possible answer of each effect; [u] is the next Uuid. *)
Definition perform {X} (e : AcmeE X) (u : N) (w : World) : X * World :=
  match e in AcmeE X return X * World with
  | ESql f => ((f (wdb w)).1, with_db (f (wdb w)).2 w)
  | ECreateNonce n expires =>
      match nonces (wdb w) !! n with
      | None => (Ok tt, observe (EvNonceCreated n) (with_db (create_nonce n expires (wdb w)).2 w))
      | Some _ => (Err "duplicate key", w)
      end
  | EConsumeNonce n =>
      match (consume_nonce (wnow w) n (wdb w)).1 with
      | Ok true =>
          (Ok true, observe (EvNonceUsed n) (with_db (consume_nonce (wnow w) n (wdb w)).2 w))
      | Ok false => (Ok false, w)
      | Err e => (Err e, w)
      end
  | ENow => (wnow w, w)
  | ENewUuid => (u, w)
  | EValidate ct domain token thumbprint =>
      let run := play net_event (net ct domain token thumbprint)
                   (validator (challenge_options st) ct domain token thumbprint) [] in
      let w1 := observe (EvNetwork ct domain token thumbprint run.1) w in
      (run.2, match run.2 with Ok true => observe (EvValidated ct domain token thumbprint) w1 | _ => w1 end)
  | EVerifyCsr csr => (Ok true, observe (EvCsrVerified csr) w)
  | ERequestAllowed => (Ok tt, w)
  | EIssue r => (Ok (uuid_to_string u), observe (EvIssue r) w)
  | ERecord ev => (tt, observe (EvAudit ev) w)
  | ESpawn _ => (tt, w)
  end.

Lemma perform_answers {X} (e : AcmeE X) u w : answers st w e (perform e u w).1 (perform e u w).2.
Proof.
  destruct e; cbn; try done.
  - by left.
  - destruct (nonces (wdb w) !! nonce) eqn:Hn; [|by left]. right. eexists. split; [done|by left].
  - destruct (consume_nonce (wnow w) nonce (wdb w)) as [[[]|e] d] eqn:Hc; cbn.
    + by left.
    + right. by left.
    + right. right. eexists. split; [done|by left].
  - eexists. split; [apply play_ran|done].
Qed.

(** The CA stores the certificate before it answers. *)
Definition prepare {X} (e : AcmeE X) (u : N) (w : World) : World :=
  match e with
  | EIssue _ => with_db (set_certificates (certificates (wdb w) ∪ {[u := "pem"]}) (wdb w)) w
  | _ => w
  end.

Lemma prepare_steps {X} (e : AcmeE X) u w ts : rtc (step st) (w, ts) (prepare e u w, ts).
Proof.
  destruct e; try done. apply rtc_once. rewrite <- (app_nil_r ts) at 2.
  apply step_env, env_ca, map_union_subseteq_l.
Qed.

(** A program run alone to its end, with the programs it spawned. *)
Fixpoint exec {A} (p : Prog A) (u : N) (w : World) : A * N * World * list (Prog unit) :=
  match p with
  | Done a => (a, u, w, [])
  | Step e k =>
      let '(x, w) := perform e u (prepare e u w) in
      let '(a, u', w, ps) := exec (k x) (u + 1)%N w in (a, u', w, spawned e ++ ps)
  end.

Lemma exec_runs {A} (p : Prog A) u w ts :
  let '(a, _, w', ps) := exec p u w in runs st p (w, ts) a (w', ts ++ ps).
Proof.
  revert u w ts. induction p as [a|X e k IH]; intros u w ts; cbn [exec].
  { rewrite app_nil_r. constructor. }
  pose proof (perform_answers e u (prepare e u w)) as Ha.
  destruct (perform e u (prepare e u w)) as [x w1].
  specialize (IH x (u + 1)%N w1 (ts ++ spawned e)). destruct (exec (k x) _ w1) as [[[a u'] w'] ps].
  eapply runs_effect; [apply (prepare_steps e u)|exact Ha|]. by rewrite <- app_assoc in IH.
Qed.

Lemma exec_steps (p : Prog unit) u w ts1 ts2 :
  let '(_, w', ps) := exec p u w in
  rtc (step st) (w, ts1 ++ p :: ts2) (w', ts1 ++ Done tt :: ts2 ++ ps).
Proof.
  revert u w ts2. induction p as [[]|X e k IH]; intros u w ts2; cbn [exec].
  { by rewrite app_nil_r. }
  pose proof (perform_answers e u (prepare e u w)) as Ha.
  destruct (perform e u (prepare e u w)) as [x w1].
  specialize (IH x (u + 1)%N w1 (ts2 ++ spawned e)). destruct (exec (k x) _ w1) as [[[a u'] w'] ps].
  etransitivity; [apply (prepare_steps e u)|].
  eapply rtc_l; [by apply step_program|]. by rewrite <- app_assoc in IH.
Qed.

Fixpoint exec_all (ps : list (Prog unit)) (u : N) (w : World) : N * World * list (Prog unit) :=
  match ps with
  | [] => (u, w, [])
  | p :: ps =>
      let '(_, u, w, qs) := exec p u w in
      let '(u, w, rs) := exec_all ps u w in (u, w, qs ++ rs)
  end.

Lemma exec_all_steps ps u w ts1 ts2 :
  let '(_, w', qs) := exec_all ps u w in
  ∃ ts', rtc (step st) (w, ts1 ++ ps ++ ts2) (w', ts').
Proof.
  revert u w ts1 ts2. induction ps as [|p ps IH]; intros u w ts1 ts2; cbn [exec_all].
  { by eexists. }
  pose proof (exec_steps p u w ts1 (ps ++ ts2)) as Hp. destruct (exec p u w) as [[[a u1] w1] qs].
  specialize (IH u1 w1 (ts1 ++ [Done tt]) (ts2 ++ qs)).
  destruct (exec_all ps u1 w1) as [[u2 w2] rs]. destruct IH as [ts' IH]. exists ts'.
  etransitivity; [exact Hp|]. rewrite <- app_assoc. by rewrite <- app_assoc in IH.
Qed.

(** Requests one after the other, each with the validations it starts. *)
Fixpoint session (rs : list Request) (u : N) (w : World) : World :=
  match rs with
  | [] => w
  | r :: rs =>
      let '(_, u, w, ps) := exec (serve st r) u (observe (EvRequest r) w) in
      let '(u, w, _) := exec_all ps u w in session rs u w
  end.

Lemma session_steps rs u w ts : ∃ ts', rtc (step st) (w, ts) (session rs u w, ts').
Proof.
  revert u w ts. induction rs as [|r rs IH]; intros u w ts; cbn [session]; [by eexists|].
  pose proof (exec_steps (serve st r) u (observe (EvRequest r) w) ts []) as Hr.
  destruct (exec _ _ _) as [[[a u1] w1] ps].
  pose proof (exec_all_steps ps u1 w1 (ts ++ [Done tt]) []) as Hps.
  destruct (exec_all _ _ _) as [[u2 w2] qs]. destruct Hps as [ts1 Hps].
  destruct (IH u2 w2 ts1) as [ts2 Hrs]. exists ts2.
  eapply rtc_l; [apply step_env, env_request|]. etransitivity; [exact Hr|].
  rewrite app_nil_r, <- app_assoc in Hps. by etransitivity.
Qed.

Lemma session_reachable rs u now : ∃ ts, reachable st (session rs u (start now).1, ts).
Proof. destruct (session_steps rs u (start now).1 []) as [ts Hts]. by exists ts, now. Qed.
End exec.

(** ** Guarantees *)

Section guarantees.
Context {HNm : HickoryName} {HJw : JwsLib} {HVl : ValidatorLib} {HVf : VerifyLib} {HAc : AcmeLib} (st : AcmeState).

Abbreviation Db := (AcmeDb Json).
Abbreviation owns := (runs_own (answers st) (@spawned _) (env st)).

(** C1. In every run of the server, with any number of requests and challenge
    validations interleaved and any statement failing, whatever the CA is
    asked to sign is authorized: the order exists, the finalize request was
    signed with the key of the order's account and used a nonce, the CSR's
    signature was verified, the names sent to the CA are those of the CSR, and
    the account's key proved control of each, through DNS for a wildcard and
    through HTTP for an address. *)
Theorem issuance_authorized w ts t1 r t2 :
  reachable st (w, ts) → wtrace w = t1 ++ EvIssue r :: t2 → authorized st t1 r w.
Proof. intros [Hi _]%Sys_reachable Ht. exact (inv_issued _ _ Hi t1 r t2 Ht). Qed.

Lemma fresh_after n t b : fold_left (turn n) t b = true → b = true ∨ EvNonceCreated n ∈ t.
Proof.
  revert b. induction t as [|ev t IH]; intros b HH; [by left|]. cbn in HH.
  apply IH in HH as [HH|HH]; [|right; by apply list_elem_of_further].
  destruct ev; cbn in HH; try by left.
  - destruct (decide _) as [->|]; [right; apply list_elem_of_here|by left].
  - destruct (decide _); [done|by left].
Qed.

(** *** Requests that are signed *)

(** The requests that carry a JWS: its text, the path its URL must have, and the
    handler. *)
Definition authenticated (rq : Request) : option (list u8 * string * M Response) :=
  match rq with
  | RqNewAccount body => Some (body, "new-account", new_account st body)
  | RqNewOrder body => Some (body, "new-order", new_order st body)
  | RqAccount id body => Some (body, "account/" +:+ id, update_account st id body)
  | RqPostAuthz id body => Some (body, "authz/" +:+ id, post_as_get_authorization st id body)
  | RqChallenge id body => Some (body, "challenge/" +:+ id, respond_to_challenge st id body)
  | RqPostOrder id body => Some (body, "order/" +:+ id, post_as_get_order st id body)
  | RqFinalize id body => Some (body, "order/" +:+ id +:+ "/finalize", finalize_order st id body)
  | RqPostCert id body => Some (body, "cert/" +:+ id, post_as_get_certificate st id body)
  | RqNewNonce _ | RqGetAuthz _ | RqGetOrder _ | RqGetCert _ => None
  end.
Lemma serve_authenticated rq body path m : authenticated rq = Some (body, path, m) → serve st rq = answer m.
Proof. by destruct rq; intros [= <- <- <-]. Qed.

(** The key a request is verified with: the one it brings for a new account, else the
    one of the account it names. *)
Definition signer (rq : Request) (header : ProtectedHeader) (d : Db) (k : Jwk) : Prop :=
  match rq with
  | RqNewAccount _ => jwk header = Some k
  | _ => ∃ name a, kid header = Some name ∧ account_id_of_kid name = Some (ac_account_id a) ∧
           a ∈ accounts d ∧ jwk_from_value (ac_public_key_jwk a) = Ok k
  end.

(** The own steps of a run, between them one that used up the nonce of the request, and
    one that found its key. *)
Definition passed (rq : Request) (body : list u8) (url : string) (own : list (World * World)) : Prop :=
  ∃ jws header k u v p, parse_jws body = Ok jws ∧ decode_protected_header (protected jws) = Ok header ∧
    AcmeJws.url header = url ∧ verify_jws_with_jwk crypto_text jws header k = Ok true ∧
    (u, v) ∈ own ∧ wtrace v = wtrace u ++ [EvNonceUsed (nonce header)] ∧
    p ∈ own ∧ signer rq header (wdb p.2) k.

Lemma passed_more rq body url own1 own2 : passed rq body url own1 → passed rq body url (own1 ++ own2).
Proof.
  intros (jws & header & k & u & v & p & H1 & H2 & H3 & H4 & H5 & H6 & H7 & H8).
  exists jws, header, k, u, v, p. split_and!; [done..|by apply elem_of_app; left|done|by apply elem_of_app; left|done].
Qed.

Lemma own_use_nonce {B} n (f : unit → M B) s own b s' :
  owns (bind (use_nonce n) f) s own (Ok b) s' →
  ∃ u v own', own = (u, v) :: own' ∧ wtrace v = wtrace u ++ [EvNonceUsed n] ∧ ∃ s1, owns (f tt) s1 own' (Ok b) s'.
Proof.
  intros (own1 & [] & s1 & own2 & -> & Hu & Hf)%runs_own_bindM.
  apply runs_own_bind in Hu as (o1 & r & s2 & o2 & -> & (u & v & -> & Ha)%runs_own_call & Hr).
  destruct r as [[]|e]; apply runs_own_inv in Hr as (-> & Hr & _); [|done..].
  destruct Ha as [(_ & _ & ->)|[(? & _)|(? & ? & _)]]; [|done..].
  exists u. eexists _, own2. split; [done|]. by split; [|exists s1].
Qed.
Lemma own_check_signature {B} jws header k (f : unit → M B) s own b s' :
  owns (bind (check_signature jws header k) f) s own (Ok b) s' →
  verify_jws_with_jwk crypto_text jws header k = Ok true.
Proof.
  intros (own1 & a & s1 & own2 & -> & Hc & Hf)%runs_own_bindM.
  apply runs_own_lift in Hc as (valid & Hv & Hc). destruct valid; [done|].
  by apply runs_own_inv in Hc as (_ & ? & _).
Qed.
Lemma own_find_account {B} i (f : option (AcmeAccount Json) → M B) s own b s' :
  owns (bind (sql (find_account_by_id i)) f) s own (Ok b) s' →
  ∃ p own' found s1, own = p :: own' ∧ owns (f found) s1 own' (Ok b) s' ∧
    ∀ a, found = Some a → a ∈ accounts (wdb p.2) ∧ ac_account_id a = i.
Proof.
  intros (own1 & found & s1 & own2 & -> & Hs & Hf)%runs_own_bindM.
  apply runs_own_bind in Hs as (o1 & r & s2 & o2 & -> & (u & v & -> & Ha)%runs_own_call & Hr).
  apply runs_own_inv in Hr as (-> & Hr & _). exists (u, v), own2, found, s1.
  split; [done|]. split; [done|]. intros a ->. destruct r as [found|e]; [|done]. injection Hr as <-.
  destruct Ha as [[Hfound ->]|(? & ? & _)]; [|done]. injection Hfound as Hfound. cbn.
  symmetry in Hfound. apply head_filter_Some in Hfound as [Hin Hp]. split; [done|].
  by apply bool_decide_eq_true in Hp.
Qed.

Lemma own_verify rq body url s own v s' :
  match rq with RqNewAccount _ => False | _ => True end →
  owns (verify_jws_account body url) s own (Ok v) s' → passed rq body url own.
Proof.
  intros Hrq HH. unfold verify_jws_account in HH.
  apply runs_own_lift in HH as (jws & Hjws & HH). apply runs_own_lift in HH as (header & Hh & HH).
  case_bool_decide as Hurl; cbn [negb] in HH; [|by apply runs_own_inv in HH as (_ & ? & _)].
  apply own_use_nonce in HH as (u & w & own1 & -> & Hused & s1 & HH).
  apply runs_own_lift in HH as (name & Hname & HH). apply runs_own_lift in HH as (i & Hi & HH).
  apply own_find_account in HH as (p & own2 & found & s2 & -> & HH & Hfound).
  apply runs_own_lift in HH as (a & Ha%ok_or_Ok & HH). apply runs_own_lift in HH as (k & Hk & HH).
  apply own_check_signature in HH. apply ok_or_Ok in Hname, Hi. destruct (Hfound a Ha) as [Hin <-].
  exists jws, header, k, u, w, p. split_and!; [done..| | | |].
  - apply list_elem_of_here.
  - done.
  - apply list_elem_of_further, list_elem_of_here.
  - assert (jwk_from_value (ac_public_key_jwk a) = Ok k) as Hkey by by destruct (jwk_from_value _); simplify_eq.
    destruct rq; try done; by exists name, a.
Qed.
Lemma own_validate {T} (fs : list u8 → result T string) rq body url s own v s' :
  match rq with RqNewAccount _ => False | _ => True end →
  owns (validate_jws_with_account fs body url) s own (Ok v) s' → passed rq body url own.
Proof.
  intros Hrq (own1 & v' & s1 & own2 & -> & Hv & _)%runs_own_bindM. apply passed_more. by eapply own_verify.
Qed.
Lemma own_validate_new {T} (fs : list u8 → result T string) b body url s own v s' :
  owns (validate_jws_new_account fs body url) s own (Ok v) s' → passed (RqNewAccount b) body url own.
Proof.
  intros HH. unfold validate_jws_new_account in HH.
  apply runs_own_lift in HH as (jws & Hjws & HH). apply runs_own_lift in HH as (header & Hh & HH).
  case_bool_decide as Hurl; cbn [negb] in HH; [|by apply runs_own_inv in HH as (_ & ? & _)].
  apply own_use_nonce in HH as (u & w & own1 & -> & Hused & s1 & HH).
  apply runs_own_lift in HH as (k & Hk%ok_or_Ok & HH). apply own_check_signature in HH.
  exists jws, header, k, u, w, (u, w). by split_and!; [..|apply list_elem_of_here|done|apply list_elem_of_here|].
Qed.

(** A request that is answered passed. *)
Lemma own_answered rq body path m s own resp s' :
  authenticated rq = Some (body, path, m) → owns m s own (Ok resp) s' → passed rq body (acme_url st path) own.
Proof.
  intros Hrq HH. destruct rq; simplify_eq/=;
    apply runs_own_bindM in HH as (own1 & v & s1 & own2 & -> & HH & _); apply passed_more;
    first [by eapply own_validate_new | by eapply own_validate | by eapply own_verify].
Qed.

Lemma wp_authenticated rq body path m w :
  authenticated rq = Some (body, path, m) → EvRequest rq ∈ wtrace w → wp (L := acme_logic st) m top w.
Proof.
  intros Hrq Hev. destruct rq; simplify_eq/=.
  - apply safe_new_account.
  - apply safe_new_order.
  - apply safe_update_account.
  - apply safe_post_as_get, safe_get_authorization.
  - apply safe_respond_to_challenge.
  - apply safe_post_as_get, safe_get_order.
  - apply wpm_safe. by apply wp_finalize_order.
  - apply safe_post_as_get, safe_get_certificate.
Qed.

Lemma used_before (w : World) t1 n t2 :
  Inv st w → wtrace w = t1 ++ EvNonceUsed n :: t2 → EvNonceCreated n ∈ t1.
Proof. intros Hi Ht. apply (inv_used _ _ Hi) in Ht. by apply fresh_after in Ht as [?|?]. Qed.
Lemma used_between (w : World) t1 n t2 t3 :
  Inv st w → wtrace w = t1 ++ EvNonceUsed n :: t2 ++ EvNonceUsed n :: t3 → EvNonceCreated n ∈ t2.
Proof.
  intros Hi Ht. rewrite app_comm_cons, app_assoc in Ht. apply (inv_used _ _ Hi) in Ht.
  unfold fresh in Ht. rewrite fold_left_app in Ht. cbn in Ht. rewrite decide_True in Ht by done.
  by apply fresh_after in Ht as [?|?].
Qed.
Lemma signer_later rq header w w' k : later w w' → signer rq header (wdb w) k → signer rq header (wdb w') k.
Proof.
  intros [(HA & _) _] HH. destruct rq; try exact HH; destruct HH as (name & a & Hn & Hi & Ha & Hk);
    destruct (HA _ Ha) as (a' & Ha' & _ & A2 & _ & A4); exists name, a'; by rewrite <- A2, <- A4.
Qed.

(** C13. A nonce authenticates one request: whenever the server answers a signed
    request with success, whatever runs beside it, the JWS names the URL, its signature
    verifies with the key it brings for a new account and else with the key of the
    account it names, and a step of this very request used up the nonce of its
    header; the server had created the nonce before, and since its last use, if there
    was one. *)
Theorem nonce_single_use rq body path m w ts own resp w' ts' :
  reachable st (w, ts) → EvRequest rq ∈ wtrace w → authenticated rq = Some (body, path, m) →
  runs_own (answers st) (@spawned _) (env st) m (w, ts) own (Ok resp) (w', ts') →
  ∃ jws header k u v, parse_jws body = Ok jws ∧ decode_protected_header (protected jws) = Ok header ∧
    url header = acme_url st path ∧ signer rq header (wdb w') k ∧
    verify_jws_with_jwk crypto_text jws header k = Ok true ∧
    (u, v) ∈ own ∧ wtrace v = wtrace u ++ [EvNonceUsed (nonce header)] ∧ wtrace v `prefix_of` wtrace w' ∧
    EvNonceCreated (nonce header) ∈ wtrace u ∧
    ∀ t1 t2, wtrace u = t1 ++ EvNonceUsed (nonce header) :: t2 → EvNonceCreated (nonce header) ∈ t2.
Proof.
  intros Hs%Sys_reachable Hreq Hrq Hown.
  destruct (own_answered _ _ _ _ _ _ _ _ Hrq Hown) as (jws & header & k & u & v & p & H1 & H2 & H3 & H4 & H5 & H6 & H7 & H8).
  destruct (own_steps (L := acme_logic st) _ _ (spawn_safe st) (env_safe st) _ _ _ _ _ Hown Hs
              (wp_authenticated _ _ _ _ _ Hrq Hreq)) as [_ Hall].
  rewrite Forall_forall in Hall. destruct (Hall _ H5) as [Hi Hl], (Hall _ H7) as [_ Hlp]. cbn in Hi, Hl.
  exists jws, header, k, u, v. split_and!; [done..| |done|done|done|apply Hl| |].
  - eapply signer_later; [exact Hlp|exact H8].
  - by eapply used_before.
  - intros t1 t2 Ht. rewrite Ht, <- app_assoc in H6. by eapply used_between.
Qed.

(** No account update ever succeeds: the path has to be the account's
    database identifier, and the row is looked up by the public one. *)
Theorem update_account_never_succeeds w ts id body r s :
  reachable st (w, ts) → runs st (update_account st id body) (w, ts) r s → ∃ e, r = Err e.
Proof.
  intros Hs%Sys_reachable Hr.
  pose proof (Sys_runs st _ _ _ _ _ Hr Hs (wpm_update_account st id body w)) as Hq.
  destruct r as [|e]; [done|by exists e].
Qed.
End guarantees.

(** ** A whole run *)

(** A Uuid in base two, with the letters a and b. *)
Fixpoint toy_positive (p : positive) : string :=
  match p with xH => "" | xO p => String "a" (toy_positive p) | xI p => String "b" (toy_positive p) end.
Definition toy_uuid (u : Uuid) : string := match u with N0 => "-" | Npos p => toy_positive p end.
Fixpoint toy_positive_parse (s : string) : option positive :=
  match s with
  | EmptyString => Some xH
  | String "a" s => xO <$> toy_positive_parse s
  | String "b" s => xI <$> toy_positive_parse s
  | _ => None
  end.
Definition toy_uuid_parse (s : string) : option Uuid :=
  if bool_decide (s = "-") then Some 0%N else Npos <$> toy_positive_parse s.

Lemma toy_positive_parse_inv p : toy_positive_parse (toy_positive p) = Some p.
Proof. induction p as [p IH|p IH|]; cbn; [by rewrite IH..|done]. Qed.
Lemma toy_uuid_parse_inv u : toy_uuid_parse (toy_uuid u) = Some u.
Proof.
  destruct u as [|p]; [done|]. unfold toy_uuid_parse. rewrite bool_decide_eq_false_2.
  - cbn. by rewrite toy_positive_parse_inv.
  - by destruct p.
Qed.
Lemma toy_uuid_characters u :
  forallb (λ c, is_digit c || Ascii.eqb c "-" ||
    existsb (Ascii.eqb c) ["a"; "b"; "c"; "d"; "e"; "f"]%char)
    (String.list_ascii_of_string (toy_uuid u)) = true.
Proof. destruct u as [|p]; [done|]. by induction p. Qed.

Definition toy_url (path : string) : string := "https://acme.test/acme/" +:+ path.
Definition toy_kid : option string := Some (toy_url "account/acct-ab").
(** The protected headers and the requests of the run, by number. *)
Definition toy_header (path nonce : string) (k : option Jwk) : ProtectedHeader :=
  {| alg := "RS256"; nonce := nonce; url := toy_url path; jwk := k;
     kid := match k with None => toy_kid | Some _ => None end |}.
Definition toy_headers (b : list u8) : result ProtectedHeader string :=
  match b with
  | [49] => Ok (toy_header "new-account" "" (Some (toy_key None)))
  | [50] => Ok (toy_header "new-order" "baa" None)
  | [51] => Ok (toy_header "challenge/chall-abba" "bbaaa" None)
  | [52] => Ok (toy_header "order/order-abb/finalize" "aabba" None)
  | [53] => Ok (toy_header "account/bb" "abbaaa" None)
  | [54] => Ok (toy_header "challenge/chall-abba" "abbaaa" None)
  | [55] => Ok (toy_header "order/order-abb/finalize" "bbbbaa" None)
  | _ => Err "no header"
  end.
Definition toy_envelope (b : list u8) : result JwsEnvelope string :=
  match b with
  | [i] => Ok {| protected := String (ascii_of_N (Z.to_N i)) ""; payload := "p"; signature := "sig" |}
  | _ => Err "no envelope"
  end.

#[local] Instance run_jws : JwsLib := {|
  url_safe_decode := toy_decode; url_safe_encode := toy_encode; sha256 := λ b, b;
  jws_from_slice := toy_envelope; header_from_slice := toy_headers;
  rsa_public_key_der n e := Ok (n ++ [-1] ++ e);
  spki_to_der _ _ k := Ok k;
  url_safe_decode_alphabet := toy_decode_alphabet;
  url_safe_encode_inj := toy_encode_inj |}.
#[local] Instance run_hickory : HickoryName := {| Name := string; from_ascii := Some; is_fqdn _ := true |}.
(** Every signature is the text [sig]. *)
#[local] Instance run_verify : VerifyLib := {|
  spki_key_bytes b := Ok (Some b); ring_verify _ _ _ s := bool_decide (s = as_bytes "sig") |}.

Inductive ToyJson := ToyJwk (k : Jwk) | ToyIdentifiers (l : list Identifier) | ToyProblem (s t : string).
Definition toy_identifiers : list Identifier := [{| id_type := "dns"; value := "Example.com" |}].
Definition toy_cert_req : CertReq :=
  {| subject_is_empty := true; convert_subject_to_proto := Err (BadCsr "no subject"); public_key_to_der := Ok [7] |}.

#[local] Program Instance run_lib : AcmeLib := {|
  Json := ToyJson;
  jwk_to_value k := Ok (ToyJwk k);
  jwk_from_value j := match j with ToyJwk k => Ok k | _ => Err "not a key" end;
  identifiers_to_value l := Ok (ToyIdentifiers l);
  identifiers_from_value j := match j with ToyIdentifiers l => Ok l | _ => Err "not identifiers" end;
  problem_document := ToyProblem;
  new_account_from_slice _ :=
    Ok {| contact := []; terms_of_service_agreed := true; only_return_existing := None |};
  new_order_from_slice _ :=
    Ok {| identifiers := toy_identifiers; not_before := None; not_after := None |};
  update_account_from_slice _ := Ok {| up_contact := None; up_status := None |};
  challenge_response_from_slice _ := Ok tt;
  finalize_from_slice _ := Ok "csr";
  parse_datetime _ := None;
  uuid_to_string := toy_uuid; uuid_parse := toy_uuid_parse;
  parse_csr b := if bool_decide (b = as_bytes "csr") then Ok ["DNS:example.com"] else Err "no request";
  cert_req_from_der _ := Ok toy_cert_req;
  crypto_text _ := "bad";
  uuid_parse_to_string := toy_uuid_parse_inv;
  uuid_characters := toy_uuid_characters
|}.
Solve Obligations with naive_solver.

Definition toy_name_eqb (a b : string) : bool := bool_decide (to_ascii_lowercase a = to_ascii_lowercase b).
Lemma toy_name_eqb_equivalence : Equivalence (λ a b, toy_name_eqb a b = true).
Proof.
  unfold toy_name_eqb. split; intros a; setoid_rewrite bool_decide_eq_true; [done| |].
  - by intros b.
  - intros b c -> ->. done.
Qed.
(** A URL is its scheme and its host; two texts are known. *)
#[local] Instance toy_validators : ValidatorLib := {|
  Url := string * string;
  url_parse s := Ok ("http", "example.com");
  url_join u s :=
    if bool_decide (s = "https://www.example.com/") then Ok ("https", "www.example.com")
    else if bool_decide (s = "http://[::1]/") then Ok ("http", "[::1]")
    else if bool_decide (s = "file:///etc/passwd") then Ok ("file", "") else Ok u;
  url_scheme := fst;
  url_host_str u := Some u.2;
  url_port_or_known_default u := Some (if bool_decide (u.1 = "https") then 443 else 80);
  header_to_str b := Some (String.string_of_list_ascii (ascii_of_N ∘ Z.to_N <$> b));
  name_eqb := toy_name_eqb : @Name run_hickory → @Name run_hickory → bool;
  name_to_string := λ n : @Name run_hickory, n;
  name_eqb_equivalence := toy_name_eqb_equivalence;
  NameServerConfig := IpAddr; udp_and_tcp ip := ip;
  OtherOpts := unit; default_opts := tt;
  ServerName := string; server_name_try_from := Ok;
  safe_default_protocol_versions := Ok tt;
  parse_extensions b := match b with [] => Err "no certificate" | _ => Ok [(ACME_IDENTIFIER_OID, b)] end
|}.

Definition toy_addrs (host : string) : list SocketAddr :=
  if bool_decide (host = "::1") then [(V6 [0; 0; 0; 0; 0; 0; 0; 1], 80)]
  else [(V4 93 184 216 34, 80); (V4 93 184 216 35, 80)].
(** The first page redirects to [first], the next one has [body]. *)
Definition toy_network (first : option string) (body : string) (records : list DnsRecord) (session : TlsSession)
    (before : list NetEvent) X (e : NetE X) : X :=
  match e in NetE X return X with
  | ELookupHost host _ => Ok (toy_addrs host)
  | EBuildClient _ => Ok tt
  | EGet _ _ =>
      match first with
      | Some s =>
          if (length before <=? 2)%nat then Ok {| status := 302; location := Some (as_bytes s) |}
          else Ok {| status := 200; location := None |}
      | None => Ok {| status := 200; location := None |}
      end
  | EText _ => Ok body
  | ESystemConf => Ok (Ok {| rc_domain := Some "corp.test"; rc_search := ["corp.test"]; rc_name_servers := [V4 127 0 0 53] |})
  | EBuildResolver _ _ => Ok tt
  | ETxtLookup _ _ _ => Ok records
  | ESleep _ => tt
  | EConnect _ _ => Some (Ok 0%N)
  | EHandshake _ _ _ => Ok session
  end.
Definition no_session : TlsSession := {| alpn_protocol := None; peer_certificates := None |}.
(** A network where every page is the key authorization. *)
Definition toy_answers (ct domain token thumbprint : string) : list NetEvent → ∀ X, NetE X → X :=
  toy_network None (key_authorization token thumbprint) [] no_session.

Definition toy_state : AcmeState :=
  {| base_url := "https://acme.test"; has_ca_client := true; max_retries := 3;
     challenge_options := default_challenge_options |}.
(** A client obtains a nonce, registers, orders example.com, answers the
    http-01 challenge and finalizes. *)
Definition toy_requests : list Request :=
  [RqNewNonce true; RqNewAccount [49]; RqNewOrder [50]; RqChallenge "chall-abba" [51];
   RqFinalize "order-abb" [52]].
Definition toy_world : World := session toy_state toy_answers toy_requests 1 (start 0).1.

Example toy_order_valid : or_status <$> orders (wdb toy_world) = ["valid"].
Proof. vm_compute. reflexivity. Qed.

(** The challenge of a finalized order may be answered again: the order goes
    back from valid to ready, and is finalized a second time. *)
Definition toy_reopened : World :=
  session toy_state toy_answers (toy_requests ++ [RqChallenge "chall-abba" [54]; RqFinalize "order-abb" [55]]) 1
    (start 0).1.
Definition is_issue (ev : Event) : bool := match ev with EvIssue _ => true | _ => false end.
Example toy_order_reissued : length (List.filter is_issue (wtrace toy_reopened)) = 2%nat.
Proof. vm_compute. reflexivity. Qed.

Fixpoint split_issue (t : list Event) : option (list Event * IssueCertificateRequest * list Event) :=
  match t with
  | [] => None
  | EvIssue r :: t => Some ([], r, t)
  | ev :: t => '(t1, r, t2) ← split_issue t; Some (ev :: t1, r, t2)
  end.

Lemma split_issue_eq t t1 r t2 : split_issue t = Some (t1, r, t2) → t = t1 ++ EvIssue r :: t2.
Proof.
  revert t1. induction t as [|ev t IH]; intros t1; [done|].
  destruct ev; cbn; intros HH; try (injection HH as <- <- <-; done);
    destruct (split_issue t) as [[[u1 r'] u2]|]; try done; injection HH as <- <- <-;
    by rewrite (IH u1 eq_refl).
Qed.

(** The names of the first request to the CA. *)
Definition asked_names (w : World) : option (list SubjectAltName) :=
  '(_, r, _) ← split_issue (wtrace w); Some (subject_alt_names r).
Lemma toy_asked : asked_names toy_world = Some [DnsName "example.com"].
Proof. vm_compute. reflexivity. Qed.

Lemma issuance_authorized_witness :
  ∃ ts t1 r t2, reachable toy_state (toy_world, ts) ∧
    wtrace toy_world = t1 ++ EvIssue r :: t2 ∧
    subject_alt_names r = [DnsName "example.com"] ∧ authorized toy_state t1 r toy_world.
Proof.
  destruct (session_reachable toy_state toy_answers toy_requests 1 0) as [ts Hts].
  pose proof toy_asked as Hasked. unfold asked_names in Hasked.
  destruct (split_issue (wtrace toy_world)) as [[[t1 r] t2]|] eqn:He; [|done].
  exists ts, t1, r, t2. split; [exact Hts|]. split; [by apply split_issue_eq|]. split.
  - by injection Hasked.
  - apply (issuance_authorized toy_state toy_world ts t1 r t2 Hts). by apply split_issue_eq.
Defined.

(** An order, from the account that the run registers. *)
Definition ordering : World :=
  observe (EvRequest (RqNewOrder [50]))
    (session toy_state toy_answers [RqNewNonce true; RqNewAccount [49]] 1 (start 0).1).
Definition ordered := exec toy_state toy_answers (new_order toy_state [50]) 40 ordering.
Lemma toy_ordered : match ordered.1.1.1 with Ok resp => rs_status resp = 201 | Err _ => False end.
Proof. vm_compute. reflexivity. Qed.

Lemma nonce_single_use_witness :
  ∃ ts own resp s', reachable toy_state (ordering, ts) ∧ EvRequest (RqNewOrder [50]) ∈ wtrace ordering ∧
    authenticated toy_state (RqNewOrder [50]) = Some ([50], "new-order", new_order toy_state [50]) ∧
    runs_own (answers toy_state) (@spawned _) (env toy_state) (new_order toy_state [50]) (ordering, ts) own (Ok resp) s' ∧
    ∃ jws header k u v, parse_jws [50] = Ok jws ∧ decode_protected_header (protected jws) = Ok header ∧
      url header = acme_url toy_state "new-order" ∧ signer (RqNewOrder [50]) header (wdb s'.1) k ∧
      verify_jws_with_jwk crypto_text jws header k = Ok true ∧
      (u, v) ∈ own ∧ wtrace v = wtrace u ++ [EvNonceUsed (nonce header)] ∧ wtrace v `prefix_of` wtrace s'.1 ∧
      EvNonceCreated (nonce header) ∈ wtrace u ∧
      ∀ t1 t2, wtrace u = t1 ++ EvNonceUsed (nonce header) :: t2 → EvNonceCreated (nonce header) ∈ t2.
Proof.
  destruct (session_reachable toy_state toy_answers [RqNewNonce true; RqNewAccount [49]] 1 0) as [ts [now Hts]].
  assert (reachable toy_state (ordering, ts ++ [serve toy_state (RqNewOrder [50])])) as Hr.
  { exists now. eapply rtc_r; [exact Hts|]. apply step_env, env_request. }
  assert (EvRequest (RqNewOrder [50]) ∈ wtrace ordering) as Hreq.
  { apply elem_of_app. right. apply list_elem_of_here. }
  pose proof (exec_runs toy_state toy_answers (new_order toy_state [50]) 40 ordering
    (ts ++ [serve toy_state (RqNewOrder [50])])) as Hrun.
  pose proof toy_ordered as Hok. unfold ordered in Hok.
  destruct (exec _ _ _ _ _) as [[[[resp|e] u] w] ps]; [|destruct Hok].
  apply runs_has_own in Hrun as [own Hown].
  do 4 eexists. split; [exact Hr|]. split; [exact Hreq|]. split; [reflexivity|]. split; [exact Hown|].
  exact (nonce_single_use toy_state _ _ _ _ _ _ _ _ _ _ Hr Hreq eq_refl Hown).
Defined.

Lemma update_account_never_succeeds_witness :
  let r := (exec toy_state toy_answers (update_account toy_state "bb" [53]) 100 toy_world).1.1.1 in
  r = Err (Database ROW_NOT_FOUND) ∧ ∃ e, r = Err e.
Proof.
  split; [vm_compute; reflexivity|].
  destruct (session_reachable toy_state toy_answers toy_requests 1 0) as [ts Hts].
  pose proof (exec_runs toy_state toy_answers (update_account toy_state "bb" [53]) 100 toy_world ts) as Hr.
  destruct (exec _ _ _) as [[[r u] w] ps].
  exact (update_account_never_succeeds toy_state _ _ _ _ r _ Hts Hr).
Defined.
