(* ===== verification/ValidatorGuarantees.v ===== *)
(** * What the challenge validators guarantee

    The theorems about every run of a validator, and with the ACME server: what
    the CA is asked to sign was demonstrated on the network. *)
From stdpp Require Import base strings list gmap.
From Stdlib Require Import ZArith Ascii Lia.
From S2P Require Import Prelude Programs Text Algorithm IpAddr AcmeIdentifier AcmeJws AcmeStore AcmeServer AcmeRun AcmeSafety AcmeGuarantees.
From S2P Require Import AddressGuard AcmeValidators ValidatorRuns.
#[local] Open Scope Z_scope.

Section validators.
Context `{!HickoryName, !JwsLib, !ValidatorLib}.

(** C16. Whatever the network answers, a validator says yes exactly when the last
    thing it got shows the key authorization in the way of the challenge: as the
    body of a page, as the digest in a TXT record at the challenge name or where
    its aliases lead within eight hops, or as the digest in the certificate of a
    session for the challenge. *)
Theorem validator_proves o challenge_type domain token thumbprint h r :
  ran net_event (validator o challenge_type domain token thumbprint) h r →
  r = Ok true ↔ shows challenge_type token thumbprint h.
Proof. intros Hr. exact (proj1 (traced_runs _ _ _ _ _ _ Hr (traced_validator o _ _ _ _))). Qed.

(** C15. Whatever the network answers, a validator asks only for what its challenge
    calls for.  With the guard on, which is the default: the first page is the
    challenge URL of the identifier and each later one is where the response before
    redirected to, over http or https; only their hosts, or for tls-alpn-01 the
    identifier, are looked up; and every connection is to an address that the host
    was looked up to, none of whose addresses the guard refuses.  TXT records are
    asked for at the challenge name alone, of the configured resolvers or else the
    system's, without search domains, hosts file or cache; a body is read from the
    last page, and a TLS session is on the connection just made.  When the operator
    has switched the guard off, http-01 asks for the challenge URL alone, whose
    redirects [reqwest] follows, and tls-alpn-01 connects to the first address. *)
Theorem validator_guarded o challenge_type domain token thumbprint h r h1 ev h2 :
  ran net_event (validator o challenge_type domain token thumbprint) h r → h = h1 ++ ev :: h2 →
  justified o challenge_type domain token h1 ev.
Proof. intros Hr Hh. exact (proj2 (traced_runs _ _ _ _ _ _ Hr (traced_validator o _ _ _ _)) h1 ev h2 Hh). Qed.

(** A validation ends after at most 34 requests: eleven pages of three each and
    a body. *)
Theorem validator_bounded o challenge_type domain token thumbprint h r :
  ran net_event (validator o challenge_type domain token thumbprint) h r → (length h ≤ 34)%nat.
Proof. intros Hr. exact (within_ran _ _ _ _ _ Hr (within_validator o _ _ _ _)). Qed.

(** ** With the server *)

Section issuance.
Context `{!VerifyLib, !AcmeLib} (st : AcmeState).

(** Before [t] ended a validator ran, and of what it asked for, all of it justified,
    the last answer shows the key authorization. *)
Definition demonstrated (t : list Event) (challenge_type domain token thumbprint : string) : Prop :=
  ∃ h, EvNetwork challenge_type domain token thumbprint h ∈ t ∧
    shows challenge_type token thumbprint h ∧
    ∀ h1 ev h2, h = h1 ++ ev :: h2 → justified (challenge_options st) challenge_type domain token h1 ev.
(** The name in a CSR was demonstrated with a token of the order: the name
    itself or the domain that a wildcard covers. *)
Definition name_demonstrated (t : list Event) (tokens : string → string → Prop) (thumbprint san : string) : Prop :=
  (∃ d domain challenge_type token, san = "DNS:" +:+ d ∧ tokens challenge_type token ∧
     demonstrated t challenge_type domain token thumbprint ∧
     (to_ascii_lowercase d = to_ascii_lowercase domain ∨
      to_ascii_lowercase d = "*." +:+ to_ascii_lowercase domain ∧ challenge_type = "dns-01")) ∨
  (∃ ip address token, san = "IP:" +:+ ip ∧ tokens "http-01" token ∧
     demonstrated t "http-01" address token thumbprint ∧ to_ascii_lowercase ip = to_ascii_lowercase address).

(** C14. In every run of the server, whatever the CA is asked to sign has names that
    were each demonstrated before, on the network, with a token of the order and the
    key of the order's account: among the recorded exchanges of the validators is one
    for that name whose last answer shows the key authorization, and everything that
    it asked for is what the guard and the challenge let it ask for (with the
    exception that the operator may make for private addresses). *)
Theorem issuance_demonstrated w ts t1 r t2 :
  reachable st (w, ts) → wtrace w = t1 ++ EvIssue r :: t2 →
  ∃ order account sans, order ∈ orders (wdb w) ∧ request_id r = uuid_to_string (or_id order) ∧
    account ∈ accounts (wdb w) ∧ or_account_id order = ac_id account ∧
    parse_csr (csr_der r) = Ok sans ∧ subject_alt_names r = convert_sans_to_proto sans ∧
    Forall (name_demonstrated t1 (issued (wdb w) (or_id order)) (ac_jwk_thumbprint account)) sans.
Proof.
  intros Hs Ht. pose proof (reachable_validations_run st _ Hs) as Hrun.
  apply Sys_reachable in Hs as [Hi _].
  destruct (inv_issued _ _ Hi t1 r t2 Ht) as (order & account & sans & _ & Ho & Ha & Hoa & Hid & _ & _ & _ & _ & Hp & Hsan & Hc).
  exists order, account, sans. split_and!; [done..|]. eapply Forall_impl; [exact Hc|].
  assert (∀ ct d tok tp, EvValidated ct d tok tp ∈ t1 → demonstrated t1 ct d tok tp) as Hd.
  { intros ct d tok tp (u1 & u2 & ->)%list_elem_of_split. rewrite <- app_assoc in Ht.
    destruct (Hrun u1 ct d tok tp _ Ht) as (h & Hh & Hr).
    destruct (traced_runs _ _ _ _ _ _ Hr (traced_validator _ _ _ _ _)) as [Hshow Hjust].
    exists h. split; [by apply elem_of_app; left|]. split; [by apply Hshow|done]. }
  intros san [(d & dom & ct & tok & Hn & Hev & Htok & Heq)|(ip & dom & tok & Hn & Hev & Htok & Heq)].
  - left. exists d, dom, ct, tok. split_and!; [done..|by apply Hd|done].
  - right. exists ip, dom, tok. split_and!; [done..|by apply Hd|done].
Qed.
End issuance.
End validators.

(** ** Runs with concrete libraries *)

#[local] Existing Instances run_hickory run_jws run_verify run_lib toy_validators.
Definition toy_fetch (first : option string) (body : string) : list NetEvent * result bool Error :=
  play net_event (toy_network first body [] no_session)
    (validator default_challenge_options "http-01" "example.com" "tok" "key") [].

(** A page, and pages behind redirects. *)
Example fetch_ok : (toy_fetch None " tok.key").2 = Ok true ∧ (toy_fetch None "tok.yek").2 = Ok false ∧
  (toy_fetch (Some "https://www.example.com/") "tok.key").2 = Ok true.
Proof. by vm_compute. Qed.
Example fetch_refused :
  (toy_fetch (Some "http://[::1]/") "tok.key").2 = Err (RejectedIdentifier
     "Refusing to validate ::1: it does not resolve to a publicly routable address") ∧
  (toy_fetch (Some "file:///etc/passwd") "tok.key").2 =
     Err (IncorrectResponse "HTTP-01 redirect for example.com used a disallowed URL scheme").
Proof. by vm_compute. Qed.

(** The digest behind an alias, in two strings, from the system's resolver. *)
Definition toy_digest : string := url_safe_encode (sha256 (as_bytes "tok.key")).
Definition toy_records (text : string) : list DnsRecord :=
  [{| record_name := "_acme-challenge.example.com." : @Name run_hickory; data := CNAME ("_Acme.example.org." : @Name run_hickory) |};
   {| record_name := "_acme.EXAMPLE.org." : @Name run_hickory; data := TXT [as_bytes text; []] |}].
Definition toy_query (text : string) : list NetEvent * result bool Error :=
  play net_event (toy_network None "" (toy_records text) no_session)
    (validator default_challenge_options "dns-01" "example.com" "tok" "key") [].
Example query_ok : (toy_query toy_digest).2 = Ok true ∧ length (toy_query toy_digest).1 = 3%nat ∧
  (toy_query "other").2 = Ok false ∧ length (toy_query "other").1 = 15%nat.
Proof. by vm_compute. Qed.

Lemma validator_proves_witness :
  ran net_event (validator default_challenge_options "http-01" "example.com" "tok" "key") (toy_fetch None "tok.key").1 (Ok true) ∧
  (Ok true = @Ok bool Error true ↔ shows "http-01" "tok" "key" (toy_fetch None "tok.key").1).
Proof.
  assert (ran net_event (validator default_challenge_options "http-01" "example.com" "tok" "key") (toy_fetch None "tok.key").1 (Ok true)) as Hr.
  { replace (Ok true) with (toy_fetch None "tok.key").2 by by vm_compute. apply play_ran. }
  split; [exact Hr|]. exact (validator_proves _ _ _ _ _ _ _ Hr).
Defined.
(** The request for the page that the redirect led to. *)
Definition redirected : list NetEvent * result bool Error := toy_fetch (Some "https://www.example.com/") "tok.key".
Definition is_got (host : string) (ev : NetEvent) : bool :=
  match ev with Got _ (ParsedUrl u) _ => bool_decide (url_connect_host u = Some host) | _ => false end.
Lemma validator_guarded_witness :
  ∃ ev, redirected.1 = take 5 redirected.1 ++ ev :: drop 6 redirected.1 ∧ is_got "www.example.com" ev = true ∧
    justified default_challenge_options "http-01" "example.com" "tok" (take 5 redirected.1) ev.
Proof.
  assert (from_option (is_got "www.example.com") false (redirected.1 !! 5%nat) = true) as Hgot
    by (vm_compute; reflexivity).
  destruct (redirected.1 !! 5%nat) as [ev|] eqn:Hev; [|discriminate Hgot]. apply take_drop_middle in Hev.
  symmetry in Hev. exists ev. split; [exact Hev|]. split; [exact Hgot|].
  exact (validator_guarded _ _ _ _ _ _ _ _ _ _ (play_ran _ _ _ _) Hev).
Defined.
Lemma validator_bounded_witness :
  ran net_event (validator default_challenge_options "dns-01" "example.com" "tok" "key") (toy_query "other").1 (toy_query "other").2 ∧
  (length (toy_query "other").1 ≤ 34)%nat.
Proof.
  split; [apply play_ran|]. exact (validator_bounded _ _ _ _ _ _ _ (play_ran _ _ _ _)).
Defined.

(** The run of the server, with the page that its validation fetched. *)
Lemma issuance_demonstrated_witness :
  ∃ ts t1 r t2, reachable toy_state (toy_world, ts) ∧ wtrace toy_world = t1 ++ EvIssue r :: t2 ∧
    subject_alt_names r = [DnsName "example.com"] ∧
    ∃ order account sans, order ∈ orders (wdb toy_world) ∧ request_id r = uuid_to_string (or_id order) ∧
      account ∈ accounts (wdb toy_world) ∧ or_account_id order = ac_id account ∧
      parse_csr (csr_der r) = Ok sans ∧ subject_alt_names r = convert_sans_to_proto sans ∧
      Forall (name_demonstrated toy_state t1 (issued (wdb toy_world) (or_id order)) (ac_jwk_thumbprint account)) sans.
Proof.
  destruct (session_reachable toy_state toy_answers toy_requests 1 0) as [ts Hts].
  pose proof toy_asked as Hasked. unfold asked_names in Hasked.
  destruct (split_issue (wtrace toy_world)) as [[[t1 r] t2]|] eqn:He; [|done].
  apply split_issue_eq in He. exists ts, t1, r, t2. split; [exact Hts|]. split; [exact He|].
  split; [by injection Hasked|].
  exact (issuance_demonstrated toy_state toy_world ts t1 r t2 Hts He).
Defined.
