(* ===== verification/X509Names.v ===== *)
(** * X.509 names, times and codecs

    What the certificate and the CRL builder share: the errors of
    [crates/ostrich-x509/src/error.rs], [DistinguishedName] of
    [crates/ostrich-common/src/types.rs] with its text, its conversion to and
    from an X.509 name ([builder/certificate.rs], [parser.rs]), times, and the
    structures of the [x509-cert], [der], [spki] and [x509-parser] crates with
    their codecs as the class [X509Lib].  A string is its bytes; the
    characters the code escapes are ASCII. *)
From stdpp Require Import base strings list.
From Stdlib Require Import Ascii ZArith Lia.
From S2P Require Import Prelude Pickle Der Algorithm OcspRequest Signing.
#[local] Open Scope Z_scope.

(** ** Errors and distinguished names *)

Inductive X509Error :=
| Parse (s : string) | Build (s : string) | InvalidField (s : string) | XDer (s : string)
| XEncoding (s : string) | Pem (s : string) | SignatureVerification (s : string)
| XExtension (s : string) | ProfileValidation (s : string) | XSecureDefaults (s : string)
| XCrypto (s : string) | XCommon (s : string) | X509Cert (s : string).

Definition x509_error_to_string (e : X509Error) : string :=
  match e with
  | Parse s => "Certificate parsing error: " +:+ s
  | Build s => "Certificate building error: " +:+ s
  | InvalidField s => "Invalid field: " +:+ s
  | XDer s => "DER encoding error: " +:+ s
  | XEncoding s => "Encoding error: " +:+ s
  | Pem s => "PEM encoding error: " +:+ s
  | SignatureVerification s => "Signature verification failed: " +:+ s
  | XExtension s => "Extension error: " +:+ s
  | ProfileValidation s => "Profile validation error: " +:+ s
  | XSecureDefaults s => "Secure defaults violation: " +:+ s
  | XCrypto s => "Crypto error: " +:+ s
  | XCommon s => "Common error: " +:+ s
  | X509Cert s => "x509-cert error: " +:+ s
  end.

(** [ostrich_common::types::DistinguishedName]. *)
Record DistinguishedName := {
  common_name : option string; organization : option string; organizational_unit : option string;
  locality : option string; state_or_province : option string; country : option string;
  serial_number : option string
}.
#[export] Instance DistinguishedName_eq_dec : EqDecision DistinguishedName.
Proof. solve_decision. Defined.

Definition BACKSLASH : ascii := "\".
Definition is_special (c : ascii) : bool :=
  existsb (Ascii.eqb c) [","; "+"; ascii_of_nat 34; BACKSLASH; "<"; ">"; ";"]%char.
(** [first] when nothing has been pushed yet. *)
Fixpoint escape_chars (first : bool) (value : list ascii) : list ascii :=
  match value with
  | [] => []
  | c :: value =>
      (if is_special c || (first && (Ascii.eqb c "#" || Ascii.eqb c " ")) then [BACKSLASH; c] else [c])
        ++ escape_chars false value
  end.
(** A space at the end, unless a backslash comes before it. *)
Definition escape_trailing (escaped : list ascii) : list ascii :=
  match rev escaped with
  | c :: before =>
      if Ascii.eqb c " " then
        match before with
        | b :: _ => if Ascii.eqb b BACKSLASH then escaped else rev before ++ [BACKSLASH; c]
        | [] => [BACKSLASH; c]
        end
      else escaped
  | [] => []
  end.
Definition escape_rdn_value (value : string) : string :=
  String.string_of_list_ascii
    (escape_trailing (escape_chars true (String.list_ascii_of_string value))).

(** The fields in the order of the text. *)
Definition rfc4514_fields : list (string * (DistinguishedName → option string)) :=
  [("CN", common_name); ("OU", organizational_unit); ("O", organization); ("L", locality);
   ("ST", state_or_province); ("C", country); ("SERIALNUMBER", serial_number)].
Definition to_string_rfc4514 (dn : DistinguishedName) : string :=
  String.concat "," (omap (λ '(label, field), (λ v, label +:+ "=" +:+ escape_rdn_value v) <$> field dn)
    rfc4514_fields).

(** ** The structures of the crates *)

Inductive StringKind := Printable | Utf8.
(** One attribute per relative distinguished name. *)
Record AttributeTypeAndValue := { at_oid : string; at_kind : StringKind; at_value : string }.
Definition Name : Type := list AttributeTypeAndValue.
(** Seconds since the epoch. *)
Inductive Time := UtcTime (secs : Z) | GeneralTime (secs : Z).
Record Extension := { extn_id : string; critical : bool; extn_value : list u8 }.
Record RevokedCert := {
  rc_serial_number : list u8; rc_revocation_date : Time; rc_extensions : option (list Extension)
}.
(** [version] is V2. *)
Record TbsCertList := {
  tl_signature : string * bool; tl_issuer : Name; tl_this_update : Time;
  tl_next_update : option Time; tl_revoked : option (list RevokedCert);
  tl_extensions : option (list Extension)
}.
Record CertificateList := {
  cl_tbs : TbsCertList; cl_algorithm : string * bool; cl_signature : list u8
}.

(** A certificate; its version is V3. *)
Record SubjectPublicKeyInfo := {
  spki_algorithm : string; spki_parameters : option (list u8); spki_unused_bits : Z;
  spki_raw_bytes : list u8
}.
Record X509Tbs := {
  xt_serial_number : list u8; xt_signature : string * bool; xt_issuer : Name;
  xt_not_before : Time; xt_not_after : Time; xt_subject : Name; xt_spki : SubjectPublicKeyInfo;
  xt_extensions : option (list Extension)
}.
Record X509Certificate := {
  xc_tbs : X509Tbs; xc_algorithm : string * bool; xc_signature : list u8
}.
Inductive GeneralName :=
| GnDns (name : string) | GnRfc822 (mail : string) | GnUri (uri : string) | GnIp (octets : list u8).

(** A general name, and an extension, as x509-parser reads them; bit [n] of a
    key usage is that of RFC 5280. *)
Inductive ParsedName :=
| DnsName (s : string) | Rfc822Name (s : string) | UriName (s : string) | IpName (ip : list u8)
| DirName (s : string) | OtherName (oid : string) (value : list u8) | RegisteredId (oid : string)
| X400 (bytes : list u8) | EdiParty (bytes : list u8) | InvalidName (tag : string) (raw : list u8).
Inductive ParsedExtension :=
| PxBasicConstraints (ca : bool) (path_len : option Z) | PxKeyUsage (flags : Z)
| PxSubjectAltName (names : list ParsedName) | PxOther.
(** [X509Certificate] of x509-parser: the attributes of the subject in order,
    across its RDNs, with [as_str] of each value; times in seconds. *)
Record X509Parsed := {
  xp_serial : list u8; xp_subject : string; xp_subject_attributes : list (string * result string string);
  xp_issuer : string; xp_not_before : Z; xp_not_after : Z; xp_spki_raw : list u8;
  xp_signature : list u8; xp_algorithm_oid : string; xp_extensions : list (string * ParsedExtension)
}.

Class X509Lib := {
  (** [SerialNumber::new], [BitString::from_bytes]. *)
  serial_number_new : list u8 → result (list u8) string;
  bit_string_from_bytes : list u8 → result (list u8) string;
  (** [PrintableStringRef::new] or [Utf8StringRef::new], and [Any::encode_from]. *)
  string_new : StringKind → string → result unit string;
  any_encode : StringKind → string → result unit string;
  utc_time_from_unix : Z → result unit string;
  generalized_time_from_unix : Z → result unit string;
  year : DateTime → Z;
  aki_to_der : list u8 → result (list u8) string;
  ia5_string_new : string → result unit string;
  freshest_crl_to_der : string → result (list u8) string;
  (** The [IssuingDistributionPoint] with [indirect_crl] only. *)
  idp_to_der : result (list u8) string;
  bit_string_to_der : list u8 → result (list u8) string;
  basic_constraints_to_der : bool → option Z → result (list u8) string;
  (** [ObjectIdentifier::new]. *)
  oid_new : string → result unit string;
  ekus_to_der : list string → result (list u8) string;
  san_to_der : list GeneralName → result (list u8) string;
  ski_to_der : list u8 → result (list u8) string;
  crl_dps_to_der : list string → result (list u8) string;
  (** Access methods and URIs. *)
  aia_to_der : list (string * string) → result (list u8) string;
  policies_to_der : list string → result (list u8) string;
  spki_try_from : list u8 → result SubjectPublicKeyInfo string;
  sha1 : list u8 → list u8;
  (** [X509Certificate::from_der] of x509-parser. *)
  x509_certificate : list u8 → result X509Parsed string;
  certificate_tbs_to_der : X509Tbs → result (list u8) string;
  certificate_tbs_from_der : list u8 → result X509Tbs string;
  certificate_to_der : X509Certificate → result (list u8) string;
  certificate_from_der : list u8 → result X509Certificate string;
  tbs_to_der : TbsCertList → result (list u8) string;
  tbs_from_der : list u8 → result TbsCertList string;
  certificate_list_to_der : CertificateList → result (list u8) string;
  certificate_list_from_der : list u8 → result CertificateList string;
  tbs_roundtrip t b : tbs_to_der t = Ok b → tbs_from_der b = Ok t;
  certificate_tbs_roundtrip t b : certificate_tbs_to_der t = Ok b → certificate_tbs_from_der b = Ok t;
  certificate_roundtrip c b : certificate_to_der c = Ok b → certificate_from_der b = Ok c;
  certificate_list_roundtrip c b :
    certificate_list_to_der c = Ok b → certificate_list_from_der b = Ok c
}.

(** ** Encoding *)

(** [map_err(|e| Error::Encoding(format!("<context>{}", e)))]. *)
Definition encoding {A} (context : string) (r : result A string) : result A X509Error :=
  match r with Ok x => Ok x | Err e => Err (XEncoding (context +:+ e)) end.

(** The attributes in the order of [dn_to_name]: OID, kind, what an error of
    the value or of its encoding calls it, and the field. *)
Definition dn_attributes : list (string * StringKind * string * string *
    (DistinguishedName → option string)) :=
  [("2.5.4.6", Printable, "country", "country", country);
   ("2.5.4.8", Utf8, "state", "state", state_or_province);
   ("2.5.4.7", Utf8, "locality", "locality", locality);
   ("2.5.4.10", Utf8, "organization", "organization", organization);
   ("2.5.4.11", Utf8, "OU", "OU", organizational_unit);
   ("2.5.4.3", Utf8, "CN", "CN", common_name);
   ("2.5.4.5", Printable, "serial number", "serial", serial_number)].

Section encoding.
Context {HX : X509Lib}.

Fixpoint name_of (attributes : list (string * StringKind * string * string *
    (DistinguishedName → option string))) (dn : DistinguishedName) : result Name X509Error :=
  match attributes with
  | [] => Ok []
  | (o, kind, value_label, encode_label, field) :: attributes =>
      match field dn with
      | None => name_of attributes dn
      | Some value =>
          let? _ := encoding ("Invalid " +:+ value_label +:+ ": ") (string_new kind value) in
          let? _ := encoding ("Failed to encode " +:+ encode_label +:+ ": ") (any_encode kind value) in
          let? rdns := name_of attributes dn in
          Ok ({| at_oid := o; at_kind := kind; at_value := value |} :: rdns)
      end
  end.
Definition dn_to_name : DistinguishedName → result Name X509Error := name_of dn_attributes.

(** [timestamp() as u64]. *)
Definition unix_seconds (dt : DateTime) : Z := wrap 64 (dt / NANOS).
Definition datetime_to_time (dt : DateTime) : result Time X509Error :=
  if year dt <=? 2049 then
    let? _ := encoding "Invalid UTC time: " (utc_time_from_unix (unix_seconds dt)) in
    Ok (UtcTime (unix_seconds dt))
  else
    let? _ := encoding "Invalid generalized time: " (generalized_time_from_unix (unix_seconds dt)) in
    Ok (GeneralTime (unix_seconds dt)).

Definition extension (id : string) (critical : bool) (value : list u8) : Extension :=
  {| extn_id := id; critical := critical; extn_value := value |}.

(** An extension that is there when the field is. *)
Definition optional_extension {A} (field : option A) (id : string) (critical : bool)
    (value : A → result (list u8) X509Error) : result (list Extension) X509Error :=
  match field with
  | None => Ok []
  | Some x => let? v := value x in Ok [extension id critical v]
  end.

(** *** Names from a certificate *)

Definition no_name : DistinguishedName :=
  {| common_name := None; organization := None; organizational_unit := None; locality := None;
     state_or_province := None; country := None; serial_number := None |}.
Definition set_attribute (oid value : string) (dn : DistinguishedName) : DistinguishedName :=
  let on (o : string) (old : option string) := if bool_decide (oid = o) then Some value else old in
  {| common_name := on "2.5.4.3" (common_name dn); organization := on "2.5.4.10" (organization dn);
     organizational_unit := on "2.5.4.11" (organizational_unit dn);
     locality := on "2.5.4.7" (locality dn);
     state_or_province := on "2.5.4.8" (state_or_province dn);
     country := on "2.5.4.6" (country dn); serial_number := on "2.5.4.5" (serial_number dn) |}.
(** A later attribute replaces an earlier one of its type; other types are
    skipped, once their value was read. *)
Fixpoint parse_attributes (attributes : list (string * result string string))
    (dn : DistinguishedName) : result DistinguishedName X509Error :=
  match attributes with
  | [] => Ok dn
  | (oid, value) :: attributes =>
      match value with
      | Err e => Err (Parse ("Failed to parse DN attribute value: " +:+ e))
      | Ok value => parse_attributes attributes (set_attribute oid value dn)
      end
  end.
Definition parse_distinguished_name (attributes : list (string * result string string))
    : result DistinguishedName X509Error := parse_attributes attributes no_name.
Definition parse_subject_dn (der : list u8) : result DistinguishedName X509Error :=
  match x509_certificate der with
  | Err e => Err (Parse ("Failed to parse certificate: " +:+ e))
  | Ok cert => parse_distinguished_name (xp_subject_attributes cert)
  end.
End encoding.

Lemma encoding_Ok {A} c (r : result A string) x : encoding c r = Ok x ↔ r = Ok x.
Proof. destruct r; cbn; split; congruence. Qed.

Lemma optional_extension_Ok {A} (field : option A) i c v l :
  optional_extension field i c v = Ok l →
  ∀ x, field = Some x → ∃ b, v x = Ok b ∧ l = [extension i c b].
Proof. intros HH x ->. apply res_bind_Ok in HH as (b & Hb & [= <-]). by exists b. Qed.
Lemma optional_extension_elem {A} (field : option A) i c v l e :
  optional_extension field i c v = Ok l → e ∈ l →
  ∃ x b, field = Some x ∧ v x = Ok b ∧ e = extension i c b.
Proof.
  destruct field as [x|]; [|by intros [= <-] ?%elem_of_nil].
  intros (b & Hb & [= <-])%res_bind_Ok ->%list_elem_of_singleton. by exists x, b.
Qed.

(** * A concrete X.509 library

    The class of X509Names.v with the codec of Pickle.v for every structure:
    what is encoded decodes to itself, and nothing is refused. *)

Lemma name_attribute_image a :
  (λ p, {| at_oid := p.1.1; at_kind := if p.1.2 : bool then Printable else Utf8; at_value := p.2 |})
  (at_oid a, match at_kind a with Printable => true | Utf8 => false end, at_value a) = a.
Proof. by destruct a as [? [] ?]. Qed.
#[export] Instance AttributeTypeAndValue_Pickle : Pickle AttributeTypeAndValue :=
  image_Pickle _ _ name_attribute_image.
Lemma time_image t :
  (λ p, if p.1 : bool then UtcTime p.2 else GeneralTime p.2)
  (match t with UtcTime s => (true, s) | GeneralTime s => (false, s) end) = t.
Proof. by destruct t. Qed.
#[export] Instance Time_Pickle : Pickle Time := image_Pickle _ _ time_image.
Lemma extension_image e :
  (λ p, {| extn_id := p.1.1; critical := p.1.2; extn_value := p.2 |})
  (extn_id e, critical e, extn_value e) = e.
Proof. by destruct e. Qed.
#[export] Instance Extension_Pickle : Pickle Extension := image_Pickle _ _ extension_image.
Lemma revoked_cert_image r :
  (λ p, {| rc_serial_number := p.1.1; rc_revocation_date := p.1.2; rc_extensions := p.2 |})
  (rc_serial_number r, rc_revocation_date r, rc_extensions r) = r.
Proof. by destruct r. Qed.
#[export] Instance RevokedCert_Pickle : Pickle RevokedCert := image_Pickle _ _ revoked_cert_image.
Lemma tbs_image t :
  (λ p, {| tl_signature := p.1.1.1.1.1; tl_issuer := p.1.1.1.1.2; tl_this_update := p.1.1.1.2;
           tl_next_update := p.1.1.2; tl_revoked := p.1.2; tl_extensions := p.2 |})
  (tl_signature t, tl_issuer t, tl_this_update t, tl_next_update t, tl_revoked t, tl_extensions t) = t.
Proof. by destruct t. Qed.
#[export] Instance TbsCertList_Pickle : Pickle TbsCertList := image_Pickle _ _ tbs_image.
Lemma certificate_list_image c :
  (λ p, {| cl_tbs := p.1.1; cl_algorithm := p.1.2; cl_signature := p.2 |})
  (cl_tbs c, cl_algorithm c, cl_signature c) = c.
Proof. by destruct c. Qed.
#[export] Instance CertificateList_Pickle : Pickle CertificateList :=
  image_Pickle _ _ certificate_list_image.

Lemma spki_image k :
  (λ p, {| spki_algorithm := p.1.1.1; spki_parameters := p.1.1.2; spki_unused_bits := p.1.2;
           spki_raw_bytes := p.2 |})
  (spki_algorithm k, spki_parameters k, spki_unused_bits k, spki_raw_bytes k) = k.
Proof. by destruct k. Qed.
#[export] Instance SubjectPublicKeyInfo_Pickle : Pickle SubjectPublicKeyInfo :=
  image_Pickle _ _ spki_image.
Lemma x509_tbs_image t :
  (λ p, {| xt_serial_number := p.1.1.1.1.1.1.1; xt_signature := p.1.1.1.1.1.1.2;
           xt_issuer := p.1.1.1.1.1.2; xt_not_before := p.1.1.1.1.2; xt_not_after := p.1.1.1.2;
           xt_subject := p.1.1.2; xt_spki := p.1.2; xt_extensions := p.2 |})
  (xt_serial_number t, xt_signature t, xt_issuer t, xt_not_before t, xt_not_after t, xt_subject t,
   xt_spki t, xt_extensions t) = t.
Proof. by destruct t. Qed.
#[export] Instance X509Tbs_Pickle : Pickle X509Tbs := image_Pickle _ _ x509_tbs_image.
Lemma x509_certificate_image c :
  (λ p, {| xc_tbs := p.1.1; xc_algorithm := p.1.2; xc_signature := p.2 |})
  (xc_tbs c, xc_algorithm c, xc_signature c) = c.
Proof. by destruct c. Qed.
#[export] Instance X509Certificate_Pickle : Pickle X509Certificate :=
  image_Pickle _ _ x509_certificate_image.
Lemma general_name_image g :
  (λ p : Z * string * list Z, if Z.eqb p.1.1 1 then GnDns p.1.2 else if Z.eqb p.1.1 2 then GnRfc822 p.1.2
    else if Z.eqb p.1.1 3 then GnUri p.1.2 else GnIp p.2)
  match g with
  | GnDns s => (1, s, []) | GnRfc822 s => (2, s, []) | GnUri s => (3, s, []) | GnIp l => (4, "", l)
  end = g.
Proof. by destruct g. Qed.
#[export] Instance GeneralName_Pickle : Pickle GeneralName := image_Pickle _ _ general_name_image.

Definition toy_x509 : X509Lib := {|
  serial_number_new := Ok; bit_string_from_bytes := Ok; string_new _ _ := Ok tt;
  any_encode _ _ := Ok tt; utc_time_from_unix _ := Ok tt; generalized_time_from_unix _ := Ok tt;
  year t := 1970 + t / seconds 31556952; aki_to_der := Ok; ia5_string_new _ := Ok tt;
  freshest_crl_to_der _ := Ok []; idp_to_der := Ok []; bit_string_to_der := Ok;
  basic_constraints_to_der ca path := to_pickle (ca, path); oid_new _ := Ok tt;
  ekus_to_der := to_pickle; san_to_der := to_pickle; ski_to_der := Ok; crl_dps_to_der := to_pickle;
  aia_to_der := to_pickle; policies_to_der := to_pickle; spki_try_from := of_pickle;
  sha1 b := [Z.of_nat (length b)];
  x509_certificate b :=
    let? c := of_pickle (A := X509Certificate) b in
    let? key := to_pickle (xt_spki (xc_tbs c)) in
    let seconds t := match t with UtcTime s | GeneralTime s => s end in
    Ok {| xp_serial := xt_serial_number (xc_tbs c); xp_subject := "subject";
          xp_subject_attributes := (λ a, (at_oid a, Ok (at_value a))) <$> xt_subject (xc_tbs c);
          xp_issuer := "issuer"; xp_not_before := seconds (xt_not_before (xc_tbs c));
          xp_not_after := seconds (xt_not_after (xc_tbs c)); xp_spki_raw := key;
          xp_signature := xc_signature c; xp_algorithm_oid := (xc_algorithm c).1;
          xp_extensions := [] |};
  certificate_tbs_to_der := to_pickle; certificate_tbs_from_der := of_pickle;
  certificate_to_der := to_pickle; certificate_from_der := of_pickle; tbs_to_der := to_pickle;
  tbs_from_der := of_pickle; certificate_list_to_der := to_pickle;
  certificate_list_from_der := of_pickle; certificate_tbs_roundtrip := of_to_pickle;
  certificate_roundtrip := of_to_pickle; tbs_roundtrip := of_to_pickle;
  certificate_list_roundtrip := of_to_pickle
|}.
