(* ===== verification/Csr.v ===== *)
(** * Certificate signing requests

    The PKCS#10 part of [crates/ostrich-x509/src/parser.rs]: parsing with its
    fallback, the names an extensionRequest asks for, and the proof of
    possession.  The [x509-parser], [asn1-rs], [x509-cert] and [der] crates are
    the class [CsrLib]; a reader of one element gives its content and what
    follows it.  The DER walker of the fallback is the code's own. *)
From stdpp Require Import base strings list pretty.
From Stdlib Require Import Ascii ZArith Lia.
From S2P Require Import Prelude Der Algorithm IpAddr X509Names.
#[local] Open Scope Z_scope.

(** ** The DER walker *)

(** [{:#04x}]. *)
Definition hex02 (b : u8) : string :=
  hex_digit (b / 16) +:+ hex_digit (b mod 16).
Definition nat_text (n : nat) : string := pretty (N.of_nat n).

Definition expected_tag_text (tag : u8) (off : nat) (found : u8) : string :=
  "expected DER tag 0x" +:+ hex02 tag +:+ " at offset " +:+ nat_text off +:+ ", found 0x" +:+ hex02 found.

(** The offsets of the value and of the end.  Offsets of a buffer never
    overflow a [usize] when a length of four octets is added. *)
Definition der_tlv (buf : list u8) (off : nat) (expected_tag : u8) : result (nat * nat) X509Error :=
  if (length buf <? off)%nat then Err (Parse "CSR truncated (offset past end)")
  else match drop off buf with
  | tag :: len_octet :: rest =>
      if negb (tag =? expected_tag) then Err (Parse (expected_tag_text expected_tag off tag))
      else
        let? header :=
          if Z.land len_octet 128 =? 0 then Ok (2%nat, Z.to_nat len_octet)
          else
            let n := Z.to_nat (Z.land len_octet 127) in
            if (n =? 0)%nat || (4 <? n)%nat then Err (Parse "unsupported DER length encoding")
            else if (length rest <? n)%nat then Err (Parse "CSR truncated (length octets)")
            else Ok ((2 + n)%nat, Z.to_nat (be_value (take n rest) 0)) in
        let end_offset := (off + header.1 + header.2)%nat in
        if (length buf <? end_offset)%nat then Err (Parse "DER length exceeds buffer")
        else Ok ((off + header.1)%nat, end_offset)
  | _ => Err (Parse "CSR truncated (no tag/length)")
  end.

Definition slice (buf : list u8) (start stop : nat) : list u8 := take (stop - start) (drop start buf).

Definition extract_cert_req_info_tbs (der : list u8) : result (list u8) X509Error :=
  let? outer := der_tlv der 0 48 in
  let? ci := der_tlv der outer.1 48 in
  Ok (slice der outer.1 ci.2).

Definition der_len_bytes (len : nat) : list u8 :=
  if (len <? 128)%nat then [Z.of_nat len]
  else
    let be := to_be_bytes 8 (Z.of_nat len) in
    let first := default (length be - 1)%nat (position nonzero be) in
    let sig := drop first be in
    Z.lor 128 (Z.of_nat (length sig)) :: sig.
Definition der_seq (content : list u8) : list u8 := 48 :: der_len_bytes (length content) ++ content.

Definition normalize_missing_attributes (der : list u8) : result (list u8) X509Error :=
  let? outer := der_tlv der 0 48 in
  let? ci := der_tlv der outer.1 48 in
  let? version := der_tlv der ci.1 2 in
  let? subject := der_tlv der version.2 48 in
  let? spki := der_tlv der subject.2 48 in
  if negb (spki.2 =? ci.2)%nat then Ok der
  else
    let new_ci := der_seq (slice der ci.1 ci.2 ++ [160; 0]) in
    Ok (der_seq (new_ci ++ slice der ci.2 outer.2)).

(** ** The libraries *)

(** [X509CertificationRequest], and [CertReq] whose parts are encoded again. *)
Record X509Csr := {
  xr_subject : string; xr_subject_attributes : list (string * result string string);
  xr_spki_raw : list u8; xr_signature : list u8; xr_algorithm_oid : string;
  xr_attributes : list (string * list u8); xr_info_raw : list u8
}.
Record DerCsr := {
  dc_subject_der : result (list u8) string; dc_subject_text : string;
  dc_spki_der : result (list u8) string; dc_algorithm_oid : string;
  (** [None] when it is not a number of octets. *)
  dc_signature : option (list u8);
  dc_attributes : list (string * result (list u8) string)
}.
Class CsrLib := {
  x509_csr : list u8 → result X509Csr string;
  der_csr : list u8 → result DerCsr string;
  (** [X509Name::from_der]: its text and its attributes. *)
  name_from_der : list u8 → result (string * list (string * result string string)) string;
  set_content : list u8 → result (list u8) string;
  sequence_from_der : list u8 → result (list u8 * list u8) string;
  oid_from_der : list u8 → result (string * list u8) string;
  boolean_from_der : list u8 → result (list u8) string;
  octets_from_der : list u8 → result (list u8) string;
  general_name_from_der : list u8 → option (ParsedName * list u8);
  (** Readers consume their element. *)
  sequence_consumes b c rest : sequence_from_der b = Ok (c, rest) → (length rest < length b)%nat;
  general_name_consumes b n rest : general_name_from_der b = Some (n, rest) → (length rest < length b)%nat
}.

Record ParsedCsr := {
  subject_dn : string; subject_alternative_names : list string; public_key : list u8;
  attributes : list (string * list u8); signature_algorithm : string; signature : list u8;
  der_encoded : list u8
}.

(** ** Names asked for *)

Fixpoint hex_text (l : list u8) : string :=
  match l with [] => "" | b :: l => hex02 b +:+ hex_text l end.

(** The eight groups, two octets each. *)
Fixpoint hex_groups (l : list u8) : string :=
  match l with
  | a :: b :: ((_ :: _) as l) => hex02 a +:+ hex02 b +:+ ":" +:+ hex_groups l
  | a :: b :: [] => hex02 a +:+ hex02 b
  | _ => ""
  end.
Definition byte_text (b : u8) : string := pretty (Z.to_N b).
Definition ip_text (ip : list u8) : option string :=
  match ip with
  | [a; b; c; d] =>
      Some ("IP:" +:+ byte_text a +:+ "." +:+ byte_text b +:+ "." +:+ byte_text c +:+ "." +:+ byte_text d)
  | _ => if (length ip =? 16)%nat then Some ("IP:" +:+ hex_groups ip) else None
  end.

(** [None] for an address of the wrong length. *)
Definition san_text (n : ParsedName) : option string :=
  match n with
  | DnsName dns => Some ("DNS:" +:+ dns)
  | Rfc822Name email => Some ("email:" +:+ email)
  | UriName uri => Some ("URI:" +:+ uri)
  | IpName ip => ip_text ip
  | DirName dn => Some ("DirName:" +:+ dn)
  | OtherName oid value => Some ("otherName:" +:+ oid +:+ ":" +:+ hex_text value)
  | RegisteredId oid => Some ("registeredID:" +:+ oid)
  | X400 addr => Some ("x400Address:" +:+ hex_text addr)
  | EdiParty edi => Some ("ediPartyName:" +:+ hex_text edi)
  | InvalidName tag raw => Some ("invalid:tag=" +:+ tag +:+ ":" +:+ hex_text raw)
  end.

(** [map_err(|e| Error::Parse(format!("<context>{}", e)))]. *)
Definition parsing {A} (context : string) (r : result A string) : result A X509Error :=
  match r with Ok x => Ok x | Err e => Err (Parse (context +:+ e)) end.

Definition EXTENSION_REQUEST : string := "1.2.840.113549.1.9.14".
Definition SUBJECT_ALT_NAME : string := "2.5.29.17".

Section csr.
Context {HC : CsrLib}.

(** Entries up to the first that does not parse. *)
Fixpoint general_names (fuel : nat) (remaining : list u8) : option (list ParsedName) :=
  match remaining, fuel with
  | [], _ => Some []
  | _, O => None
  | _, S fuel =>
      match general_name_from_der remaining with
      | Some (n, rest) => cons n <$> general_names fuel rest
      | None => Some []
      end
  end.

(** The names in one extension, by its content. *)
Definition extension_names (content : list u8) : result (list string) X509Error :=
  let? oid := parsing "Failed to parse extension OID: " (oid_from_der content) in
  if negb (bool_decide (oid.1 = SUBJECT_ALT_NAME)) then Ok []
  else
    let? value :=
      match oid.2 with
      | 1 :: _ => parsing "Failed to parse critical flag: " (boolean_from_der oid.2)
      | _ => Ok oid.2
      end in
    let? octets := parsing "Failed to parse extnValue OCTET STRING: " (octets_from_der value) in
    let? names := parsing "Failed to parse SAN SEQUENCE: " (sequence_from_der octets) in
    Ok (omap san_text (default [] (general_names (length names.1) names.1))).

(** [None] is the end of the fuel. *)
Fixpoint extensions_names (fuel : nat) (remaining : list u8) : option (result (list string) X509Error) :=
  match remaining, fuel with
  | [], _ => Some (Ok [])
  | _, O => None
  | _, S fuel =>
      match parsing "Failed to parse extension SEQUENCE: " (sequence_from_der remaining) with
      | Err e => Some (Err e)
      | Ok (content, rest) =>
          match extension_names content with
          | Err e => Some (Err e)
          | Ok names => (λ r, let? more := r in Ok (names ++ more)) <$> extensions_names fuel rest
          end
      end
  end.

Definition extract_sans_from_extension_request (set_der : list u8) : result (list string) X509Error :=
  let? content := parsing "Failed to parse extensionRequest SET: " (set_content set_der) in
  let? seq := parsing "Failed to parse Extensions SEQUENCE: " (sequence_from_der content) in
  default (Ok []) (extensions_names (length seq.1) seq.1).

Fixpoint extract_sans (attrs : list (string * list u8)) : result (list string) X509Error :=
  match attrs with
  | [] => Ok []
  | (oid, value) :: attrs =>
      let? names := if bool_decide (oid = EXTENSION_REQUEST)
                    then extract_sans_from_extension_request value else Ok [] in
      let? more := extract_sans attrs in Ok (names ++ more)
  end.
Definition extract_sans_from_csr (csr : X509Csr) : result (list string) X509Error :=
  extract_sans (xr_attributes csr).

(** ** Parsing *)

(** The attributes with their values encoded again, and the names. *)
Fixpoint fallback_attributes (attrs : list (string * result (list u8) string))
    : result (list (string * list u8) * list string) X509Error :=
  match attrs with
  | [] => Ok ([], [])
  | (oid, value) :: attrs =>
      let? value := parsing "re-encode attribute values: " value in
      let? names := if bool_decide (oid = EXTENSION_REQUEST)
                    then extract_sans_from_extension_request value else Ok [] in
      let? more := fallback_attributes attrs in Ok ((oid, value) :: more.1, names ++ more.2)
  end.

Definition parse_csr_der_fallback (der : list u8) : result ParsedCsr X509Error :=
  let? normalized := normalize_missing_attributes der in
  let? req := parsing "der CertReq decode failed: " (der_csr normalized) in
  let? subject_der := parsing "re-encode subject Name: " (dc_subject_der req) in
  let subject := match name_from_der subject_der with
                 | Ok name => name.1
                 | Err _ => dc_subject_text req
                 end in
  let? key := parsing "re-encode SubjectPublicKeyInfo: " (dc_spki_der req) in
  let? sig := ok_or (dc_signature req) (Parse "CSR signature BIT STRING is not octet-aligned") in
  let? attrs := fallback_attributes (dc_attributes req) in
  Ok {| subject_dn := subject; subject_alternative_names := attrs.2; public_key := key;
        attributes := attrs.1; signature_algorithm := dc_algorithm_oid req; signature := sig;
        der_encoded := der |}.

Definition both_failed (primary fallback : string) : X509Error :=
  Parse ("Failed to parse PKCS#10 CSR: " +:+ primary +:+ " (der fallback also failed: " +:+ fallback +:+ ")").

Definition parse_csr (der : list u8) : result ParsedCsr X509Error :=
  match der with
  | [] => Err (Parse "Empty CSR data")
  | _ =>
      match x509_csr der with
      | Err primary =>
          match parse_csr_der_fallback der with
          | Ok csr => Ok csr
          | Err e => Err (both_failed primary (x509_error_to_string e))
          end
      | Ok csr =>
          let? sans := extract_sans_from_csr csr in
          Ok {| subject_dn := xr_subject csr; subject_alternative_names := sans;
                public_key := xr_spki_raw csr; attributes := xr_attributes csr;
                signature_algorithm := xr_algorithm_oid csr; signature := xr_signature csr;
                der_encoded := der |}
      end
  end.

Definition parse_csr_subject_dn (der : list u8) : result DistinguishedName X509Error :=
  match x509_csr der with
  | Ok csr => parse_distinguished_name (xr_subject_attributes csr)
  | Err primary =>
      let? normalized := normalize_missing_attributes der in
      let? req :=
        match der_csr normalized with
        | Ok req => Ok req
        | Err e => Err (both_failed primary e)
        end in
      let? subject_der := parsing "re-encode subject Name: " (dc_subject_der req) in
      let? name := parsing "Failed to parse CSR subject Name: " (name_from_der subject_der) in
      parse_distinguished_name name.2
  end.

(** ** Proof of possession *)

Definition map_signature_algorithm_oid (oid : string) : result Algorithm X509Error :=
  ok_or (table_lookup oid
    [("1.2.840.113549.1.1.11", RsaPkcs1Sha256); ("1.2.840.113549.1.1.12", RsaPkcs1Sha384);
     ("1.2.840.113549.1.1.13", RsaPkcs1Sha512); ("1.2.840.113549.1.1.10", RsaPssSha256);
     ("1.2.840.10045.4.3.2", EcdsaP256Sha256); ("1.2.840.10045.4.3.3", EcdsaP384Sha384);
     ("1.2.840.10045.4.3.4", EcdsaP521Sha512); ("1.3.101.112", Ed25519)])
    (Parse ("Unsupported signature algorithm OID: " +:+ oid)).

Definition signed_part (der : list u8) : result (list u8) X509Error :=
  match x509_csr der with
  | Ok csr => Ok (xr_info_raw csr)
  | Err _ => extract_cert_req_info_tbs der
  end.
Definition verify_csr_signature {HV : VerifyLib} (crypto_text : CryptoError → string) (csr : ParsedCsr)
    : result bool X509Error :=
  let? tbs := signed_part (der_encoded csr) in
  let? algorithm := map_signature_algorithm_oid (signature_algorithm csr) in
  match verify_with_spki (public_key csr) algorithm tbs (signature csr) false with
  | Ok b => Ok b
  | Err e => Err (SignatureVerification ("CSR signature verification failed: " +:+ crypto_text e))
  end.
End csr.

(** ** The walker *)

Lemma be_value_take_bound l : u8_list l → (length l ≤ 4)%nat → be_value l 0 = be_val l.
Proof.
  intros Hu Hl. rewrite be_value_val; [lia|done|lia|].
  transitivity (256 ^ 4); [|done]. rewrite Z.mul_1_l. apply Z.pow_le_mono_r; lia.
Qed.

Lemma der_tlv_sound buf off tag v e : der_tlv buf off tag = Ok (v, e) →
  buf !! off = Some tag ∧ (off + 2 ≤ v ≤ e)%nat ∧ (e ≤ length buf)%nat.
Proof.
  unfold der_tlv. destruct (length buf <? off)%nat eqn:Ho; [done|].
  destruct (drop off buf) as [|t [|l rest]] eqn:Hd; [done..|].
  destruct (negb (t =? tag)) eqn:Ht; [done|]. apply negb_false_iff, Z.eqb_eq in Ht as ->.
  intros ([h n] & Hh & HH)%res_bind_Ok. cbn [fst snd] in HH.
  destruct (length buf <? off + h + n)%nat eqn:Hb; [done|]. apply Nat.ltb_ge in Hb.
  injection HH as <- <-. split.
  - rewrite <- (Nat.add_0_r off), <- lookup_drop, Hd. done.
  - split; [|lia]. destruct (Z.land l 128 =? 0); [injection Hh as <- <-; lia|].
    destruct (_ || _); [done|]. destruct (length rest <? _)%nat; [done|]. injection Hh as <- <-. lia.
Qed.

(** The value and the end of an element that [tlv] encoded. *)
Lemma der_tlv_tlv pre tag c post :
  Z.of_nat (length c) < 2 ^ 32 →
  der_tlv (pre ++ tlv tag c ++ post) (length pre) tag =
  Ok (length pre + (length (tlv tag c) - length c), length pre + length (tlv tag c))%nat.
Proof.
  intros Hc. unfold der_tlv. rewrite (proj2 (Nat.ltb_ge _ _)) by (rewrite length_app; lia).
  rewrite drop_app_length. unfold tlv. set (n := Z.of_nat (length c)) in *.
  destruct (Z.lt_ge_cases n 128) as [Hs|Hs].
  - unfold der_length. rewrite (proj2 (Z.ltb_lt n 128)) by done. cbn [app].
    rewrite Z.eqb_refl. cbn [negb].
    assert (Z.land n 128 = 0) as ->.
    { apply Z.bits_inj'. intros i Hi. rewrite Z.land_spec, Z.bits_0. apply andb_false_iff.
      destruct (Z.eq_dec i 7) as [->|Hne]; [left|right].
      - apply Z.bits_above_log2; [lia|]. destruct (Z.eq_dec n 0) as [->|]; [cbn; lia|].
        apply Z.log2_lt_pow2; lia.
      - change 128 with (2 ^ 7). apply Z.pow2_bits_false. lia. }
    cbn [Z.eqb res_bind fst snd]. unfold n. rewrite Nat2Z.id. cbn [length app].
    rewrite !length_app. cbn [length]. rewrite length_app.
    rewrite (proj2 (Nat.ltb_ge _ _)) by lia. f_equal. f_equal; lia.
  - destruct (der_length_long n) as (k & bytes & -> & <- & Hk4 & Hu & Hv); [lia|].
    cbn [app]. rewrite Z.eqb_refl. cbn [negb].
    assert (Z.land (Z.lor 128 (Z.of_nat (length bytes))) 128 =? 0 = false) as ->.
    { destruct (length bytes) as [|[|[|[|[|k]]]]]; [lia|done..|lia]. }
    assert (Z.to_nat (Z.land (Z.lor 128 (Z.of_nat (length bytes))) 127) = length bytes) as ->.
    { destruct (length bytes) as [|[|[|[|[|k]]]]]; [lia|done..|lia]. }
    rewrite (proj2 (Nat.eqb_neq _ _)) by lia. rewrite (proj2 (Nat.ltb_ge 4 _)) by lia. cbn [orb].
    rewrite <- !app_assoc. rewrite (proj2 (Nat.ltb_ge _ _)) by (rewrite length_app; lia).
    cbn [res_bind fst snd]. rewrite take_app_length, be_value_take_bound by (done || lia).
    rewrite Hv. unfold n. rewrite Nat2Z.id. cbn [length]. rewrite !length_app. cbn [length].
    rewrite !length_app. rewrite (proj2 (Nat.ltb_ge _ _)) by lia. f_equal. f_equal; lia.
Qed.

Definition header (tag : u8) (c : list u8) : list u8 := tag :: der_length (Z.of_nat (length c)).
Lemma tlv_header tag c : tlv tag c = header tag c ++ c.
Proof. done. Qed.

Lemma der_tlv_at buf pre tag c post :
  buf = pre ++ header tag c ++ c ++ post → Z.of_nat (length buf) < 2 ^ 32 →
  der_tlv buf (length pre) tag = Ok (length (pre ++ header tag c), length (pre ++ header tag c ++ c)).
Proof.
  intros -> Hl. rewrite !length_app in Hl.
  replace (header tag c ++ c ++ post) with (tlv tag c ++ post) by (by rewrite tlv_header, app_assoc).
  rewrite der_tlv_tlv by lia. rewrite tlv_header, !length_app. f_equal. f_equal; lia.
Qed.

Lemma slice_app pre mid post : slice (pre ++ mid ++ post) (length pre) (length (pre ++ mid)) = mid.
Proof.
  unfold slice. rewrite drop_app_length, length_app.
  replace (length pre + length mid - length pre)%nat with (length mid) by lia. apply take_app_length.
Qed.

Lemma der_seq_seq c : der_seq c = seq c.
Proof.
  unfold der_seq, seq, tlv, TAG_SEQUENCE. f_equal. f_equal. unfold der_len_bytes, der_length.
  destruct (length c <? 128)%nat eqn:Hl.
  - apply Nat.ltb_lt in Hl. by rewrite (proj2 (Z.ltb_lt _ _)) by lia.
  - apply Nat.ltb_ge in Hl. rewrite (proj2 (Z.ltb_ge _ _)) by lia. by rewrite length_drop.
Qed.

(** A request: its information has a version, a subject, a key, and what
    comes after the key; then its algorithm and its signature. *)
Definition csr_info (v s k attrs : list u8) : list u8 := seq (tlv 2 v ++ tlv 48 s ++ tlv 48 k ++ attrs).
Definition csr_der (info rest : list u8) : list u8 := seq (info ++ rest).

Section shape.
Context (v s k attrs rest trailing : list u8).
Let info := csr_info v s k attrs.
Let der := csr_der info rest ++ trailing.
Context (Hl : Z.of_nat (length der) < 2 ^ 32).

Let pre0 := header 48 (info ++ rest).
Let ci := tlv 2 v ++ tlv 48 s ++ tlv 48 k ++ attrs.
Let pre1 := pre0 ++ header 48 ci.

Lemma csr_split : der = pre0 ++ info ++ rest ++ trailing.
Proof. unfold der, csr_der, seq, pre0. by rewrite tlv_header, <- !app_assoc. Qed.
Lemma csr_info_split : info = header 48 ci ++ ci.
Proof. done. Qed.
Lemma csr_fields : der = pre1 ++ tlv 2 v ++ tlv 48 s ++ tlv 48 k ++ attrs ++ rest ++ trailing.
Proof. rewrite csr_split, csr_info_split. unfold pre1, ci. by rewrite <- !app_assoc. Qed.

Lemma csr_outer : der_tlv der 0 48 = Ok (length pre0, length (pre0 ++ info ++ rest)).
Proof.
  apply (der_tlv_at der [] 48 (info ++ rest) trailing); [|done]. rewrite csr_split.
  by rewrite <- !app_assoc.
Qed.
Lemma csr_ci : der_tlv der (length pre0) 48 = Ok (length pre1, length (pre0 ++ info)).
Proof.
  apply (der_tlv_at der pre0 48 ci (rest ++ trailing)); [|done].
  by rewrite csr_split, csr_info_split, <- !app_assoc.
Qed.
Lemma csr_version : der_tlv der (length pre1) 2 = Ok (length (pre1 ++ header 2 v), length (pre1 ++ tlv 2 v)).
Proof.
  apply (der_tlv_at der pre1 2 v (tlv 48 s ++ tlv 48 k ++ attrs ++ rest ++ trailing)); [|done].
  by rewrite csr_fields, (tlv_header 2 v), <- !app_assoc.
Qed.
Lemma csr_subject : der_tlv der (length (pre1 ++ tlv 2 v)) 48 =
  Ok (length ((pre1 ++ tlv 2 v) ++ header 48 s), length ((pre1 ++ tlv 2 v) ++ tlv 48 s)).
Proof.
  apply (der_tlv_at der (pre1 ++ tlv 2 v) 48 s (tlv 48 k ++ attrs ++ rest ++ trailing)); [|done].
  by rewrite csr_fields, (tlv_header 48 s), <- !app_assoc.
Qed.
Lemma csr_key : der_tlv der (length ((pre1 ++ tlv 2 v) ++ tlv 48 s)) 48 =
  Ok (length (((pre1 ++ tlv 2 v) ++ tlv 48 s) ++ header 48 k),
      length (((pre1 ++ tlv 2 v) ++ tlv 48 s) ++ tlv 48 k)).
Proof.
  apply (der_tlv_at der ((pre1 ++ tlv 2 v) ++ tlv 48 s) 48 k (attrs ++ rest ++ trailing)); [|done].
  by rewrite csr_fields, (tlv_header 48 k), <- !app_assoc.
Qed.

Lemma csr_tbs : extract_cert_req_info_tbs der = Ok info.
Proof.
  unfold extract_cert_req_info_tbs. rewrite csr_outer. cbn [res_bind fst snd]. rewrite csr_ci.
  cbn [res_bind fst snd]. rewrite csr_split at 1. by rewrite slice_app.
Qed.

Lemma csr_normalized : normalize_missing_attributes der =
  Ok match attrs with
     | [] => csr_der (csr_info v s k [160; 0]) rest
     | _ => der
     end.
Proof.
  unfold normalize_missing_attributes. rewrite csr_outer. cbn [res_bind fst snd]. rewrite csr_ci.
  cbn [res_bind fst snd]. rewrite csr_version. cbn [res_bind fst snd]. rewrite csr_subject.
  cbn [res_bind fst snd]. rewrite csr_key. cbn [res_bind fst snd].
  assert (pre0 ++ info = pre1 ++ ci) as Hpre by (rewrite csr_info_split; unfold pre1; by rewrite app_assoc).
  assert (length (pre0 ++ info) =
    length (((pre1 ++ tlv 2 v) ++ tlv 48 s) ++ tlv 48 k) + length attrs)%nat as Hci.
  { rewrite Hpre. unfold ci. rewrite !length_app. lia. }
  destruct (Nat.eqb_spec (length (((pre1 ++ tlv 2 v) ++ tlv 48 s) ++ tlv 48 k)) (length (pre0 ++ info)))
    as [He|He]; cbn [negb].
  - assert (attrs = []) as Ha by (apply nil_length_inv; lia).
    rewrite !der_seq_seq. rewrite Ha. unfold csr_der, csr_info.
    replace (slice der (length pre1) (length (pre0 ++ info))) with ci.
    2:{ rewrite Hpre, csr_split, (app_assoc pre0), Hpre, <- app_assoc. by rewrite slice_app. }
    replace (slice der (length (pre0 ++ info)) (length (pre0 ++ info ++ rest))) with rest.
    2:{ rewrite csr_split, (app_assoc pre0), (app_assoc pre0 info rest). by rewrite slice_app. }
    unfold ci. rewrite Ha, app_nil_r, <- !app_assoc. done.
  - destruct attrs; [|done]. cbn [length] in Hci. lia.
Qed.
End shape.

(** The fallback adds an empty attributes field exactly to a request that
    ends at its public key, and changes no other; the bytes that the
    signature is checked over are those of the information as it was sent. *)
Theorem missing_attributes_spec v s k attrs rest trailing :
  Z.of_nat (length (csr_der (csr_info v s k attrs) rest ++ trailing)) < 2 ^ 32 →
  extract_cert_req_info_tbs (csr_der (csr_info v s k attrs) rest ++ trailing) =
    Ok (csr_info v s k attrs) ∧
  normalize_missing_attributes (csr_der (csr_info v s k attrs) rest ++ trailing) =
    Ok match attrs with
       | [] => csr_der (csr_info v s k [160; 0]) rest
       | _ => csr_der (csr_info v s k attrs) rest ++ trailing
       end.
Proof. intros Hl. split; [by apply csr_tbs|by apply csr_normalized]. Qed.

Lemma missing_attributes_spec_witness :
  normalize_missing_attributes (csr_der (csr_info [0] [] [1; 2] []) [48; 0; 3; 1; 0]) =
    Ok [48; 18; 48; 11; 2; 1; 0; 48; 0; 48; 2; 1; 2; 160; 0; 48; 0; 3; 1; 0].
Proof.
  rewrite <- (app_nil_r (csr_der _ _)).
  rewrite (proj2 (missing_attributes_spec [0] [] [1; 2] [] [48; 0; 3; 1; 0] [] eq_refl)).
  by vm_compute.
Defined.

(** ** The names *)

Section names.
Context {HC : CsrLib}.

Lemma general_names_total l : ∀ fuel, (length l ≤ fuel)%nat → is_Some (general_names fuel l).
Proof.
  remember (length l) as n eqn:Hn. revert l Hn.
  induction (lt_wf n) as [n _ IH]. intros l -> fuel Hf. destruct l as [|b l]; [by destruct fuel|].
  destruct fuel as [|fuel]; [cbn in Hf; lia|]. cbn [general_names].
  destruct (general_name_from_der (b :: l)) as [[name rest]|] eqn:Hg; [|done].
  apply general_name_consumes in Hg. cbn [length] in Hf, Hg.
  destruct (IH (length rest) Hg rest eq_refl fuel) as [ns ->]; [lia|done].
Qed.
Lemma extensions_names_total l : ∀ fuel, (length l ≤ fuel)%nat → is_Some (extensions_names fuel l).
Proof.
  remember (length l) as n eqn:Hn. revert l Hn.
  induction (lt_wf n) as [n _ IH]. intros l -> fuel Hf. destruct l as [|b l]; [by destruct fuel|].
  destruct fuel as [|fuel]; [cbn in Hf; lia|]. cbn [extensions_names].
  destruct (sequence_from_der (b :: l)) as [[content rest]|] eqn:Hs; cbn [parsing]; [|done].
  destruct (extension_names content); [|done].
  apply sequence_consumes in Hs. cbn [length] in Hf, Hs.
  destruct (IH (length rest) Hs rest eq_refl fuel) as [ns ->]; [lia|done].
Qed.

(** Both parsers give a request whose bytes are those received, and that has
    the names of its extensionRequest attributes. *)
Lemma parse_csr_encoded der csr : parse_csr der = Ok csr → der_encoded csr = der.
Proof.
  destruct der as [|b der]; [done|]. unfold parse_csr.
  destruct (x509_csr (b :: der)) as [x|e].
  - by intros (sans & _ & [= <-])%res_bind_Ok.
  - destruct (parse_csr_der_fallback (b :: der)) as [c|] eqn:Hc; [|done]. intros [= <-].
    apply res_bind_Ok in Hc as (? & _ & (? & _ & (? & _ & (? & _ & (? & _ & (? & _ & [= <-])%res_bind_Ok)
      %res_bind_Ok)%res_bind_Ok)%res_bind_Ok)%res_bind_Ok). done.
Qed.

(** What a verified request shows: its signature is good under its own key
    on the information it carries. *)
Definition possession {HV : VerifyLib} (der : list u8) (csr : ParsedCsr) : Prop :=
  ∃ a ring key tbs, map_signature_algorithm_oid (signature_algorithm csr) = Ok a ∧
    ring_algorithm a false = Some ring ∧ spki_key_bytes (public_key csr) = Ok (Some key) ∧
    signed_part der = Ok tbs ∧ ring_verify ring key tbs (signature csr) = true.

Lemma verify_csr_signature_true {HV : VerifyLib} text der csr :
  parse_csr der = Ok csr → verify_csr_signature text csr = Ok true → possession der csr.
Proof.
  intros Hp%parse_csr_encoded (tbs & Ht & (a & Ha & Hv)%res_bind_Ok)%res_bind_Ok. rewrite Hp in Ht.
  unfold verify_with_spki in Hv. destruct (spki_key_bytes _) as [[key|]|] eqn:Hk; [|done..].
  destruct (ring_algorithm a false) as [ring|] eqn:Hr; [|done]. injection Hv as Hv.
  by exists a, ring, key, tbs.
Qed.
End names.
