(* ===== verification/CertParser.v ===== *)
(** * Parsed certificates

    [parse_certificate] of [crates/ostrich-x509/src/parser.rs], from what
    x509-parser reads to the structure that the path validator of Pathval.v
    works on. *)
From stdpp Require Import base strings list.
From Stdlib Require Import Ascii ZArith Lia.
From S2P Require Import Prelude X509Names Csr Pathval.
#[local] Open Scope Z_scope.

(** [chrono::DateTime::from_timestamp]: years -262143 to 262142. *)
Definition from_timestamp (secs : Z) : option DateTime :=
  if (-8334601228800 <=? secs) && (secs <=? 8210266876799) then Some (seconds secs) else None.

(** The flags in the order in which they are read, with their names. *)
Definition usage_names : list string :=
  ["digitalSignature"; "nonRepudiation"; "keyEncipherment"; "dataEncipherment"; "keyAgreement";
   "keyCertSign"; "cRLSign"; "encipherOnly"; "decipherOnly"].
Definition usages_of (flags : Z) : list string :=
  omap (λ p, if Z.testbit flags p.1 then Some p.2 else None) (zip (seqZ 0 9) usage_names).

(** Names of other kinds, and addresses of another length, are left out. *)
Definition parsed_san (n : ParsedName) : option string :=
  match n with
  | DnsName _ | Rfc822Name _ | UriName _ | IpName _ | DirName _ => san_text n
  | _ => None
  end.

(** What the loop over the extensions has collected. *)
Definition Extensions : Type := option (bool * option Z) * option (list string) * list string.
Definition read_extension (acc : Extensions) (ext : string * ParsedExtension) : Extensions :=
  let '(constraints, usage, sans) := acc in
  match ext with
  | (oid, PxBasicConstraints ca path_len) =>
      if bool_decide (oid = "2.5.29.19") then (Some (ca, path_len), usage, sans) else acc
  | (oid, PxKeyUsage flags) =>
      if bool_decide (oid = "2.5.29.15") then (constraints, Some (usages_of flags), sans) else acc
  | (oid, PxSubjectAltName names) =>
      if bool_decide (oid = "2.5.29.17") then (constraints, usage, sans ++ omap parsed_san names) else acc
  | (_, PxOther) => acc
  end.
Definition parse_certificate_extensions (exts : list (string * ParsedExtension)) : Extensions :=
  foldl read_extension (None, None, []) exts.

Section parser.
Context {HX : X509Lib}.

Definition parse_certificate (der : list u8) : result ParsedCertificate X509Error :=
  match der with
  | [] => Err (Parse "Empty DER data")
  | _ =>
      let? cert := parsing "Failed to parse X.509 certificate: " (x509_certificate der) in
      let? from := ok_or (from_timestamp (xp_not_before cert)) (Parse "Invalid notBefore timestamp") in
      let? until := ok_or (from_timestamp (xp_not_after cert)) (Parse "Invalid notAfter timestamp") in
      let '(constraints, usage, sans) := parse_certificate_extensions (xp_extensions cert) in
      Ok {| serial_number := xp_serial cert; subject_dn := xp_subject cert;
            issuer_dn := xp_issuer cert; not_before := from; not_after := until;
            public_key := xp_spki_raw cert; signature := xp_signature cert;
            signature_algorithm := xp_algorithm_oid cert; tbs_certificate := [];
            der_encoded := der; basic_constraints := constraints; key_usage := usage;
            subject_alt_names := sans |}
  end.
End parser.
