(* ===== verification/CertProfile.v ===== *)
(** * Certificate profiles and secure defaults

    [crates/ostrich-x509/src/profile.rs] and [secure_defaults.rs]: what a
    profile says, its structural check and the policy every profile has to
    meet before a certificate is issued under it.  The maps of custom
    extensions, which no code reads, are left out. *)
From stdpp Require Import base strings list gmap pretty.
From Stdlib Require Import Ascii ZArith Lia.
From S2P Require Import Prelude X509Names.
#[local] Open Scope Z_scope.

(** ** Profiles *)

Inductive ProfileType :=
| RootCa | IntermediateCa | TlsServer | TlsClient | CodeSigningType | EmailProtectionType
| OcspSigningType | SmartcardAuth | EfsType | CustomType.
#[export] Instance ProfileType_eq_dec : EqDecision ProfileType.
Proof. solve_decision. Defined.
Definition is_ca (t : ProfileType) : bool :=
  match t with RootCa | IntermediateCa => true | _ => false end.
Definition as_str (t : ProfileType) : string :=
  match t with
  | RootCa => "root_ca" | IntermediateCa => "intermediate_ca" | TlsServer => "tls_server"
  | TlsClient => "tls_client" | CodeSigningType => "code_signing"
  | EmailProtectionType => "email_protection" | OcspSigningType => "ocsp_signing"
  | SmartcardAuth => "smartcard_auth" | EfsType => "efs" | CustomType => "custom"
  end.

Inductive KeyUsage :=
| DigitalSignature | NonRepudiation | KeyEncipherment | DataEncipherment | KeyAgreement
| KeyCertSign | CrlSign | EncipherOnly | DecipherOnly.
#[export] Instance KeyUsage_eq_dec : EqDecision KeyUsage.
Proof. solve_decision. Defined.

Inductive ExtendedKeyUsage :=
| ServerAuth | ClientAuth | CodeSigning | EmailProtection | TimeStamping | OcspSigning | Efs
| Custom (oid : string).
#[export] Instance ExtendedKeyUsage_eq_dec : EqDecision ExtendedKeyUsage.
Proof. solve_decision. Defined.
Definition eku_oid (e : ExtendedKeyUsage) : string :=
  match e with
  | ServerAuth => "1.3.6.1.5.5.7.3.1" | ClientAuth => "1.3.6.1.5.5.7.3.2"
  | CodeSigning => "1.3.6.1.5.5.7.3.3" | EmailProtection => "1.3.6.1.5.5.7.3.4"
  | TimeStamping => "1.3.6.1.5.5.7.3.8" | OcspSigning => "1.3.6.1.5.5.7.3.9"
  | Efs => "1.3.6.1.4.1.311.10.3.4" | Custom oid => oid
  end.

Record CertificateProfile := {
  p_name : string; p_type : ProfileType; p_description : option string; p_validity_days : Z;
  p_key_type : string; p_algorithm : string; p_key_usage : list KeyUsage;
  p_extended_key_usage : list ExtendedKeyUsage; p_ca : bool; p_path_len : option Z;
  p_san_required : bool
}.

Definition new_profile (name : string) (t : ProfileType) (validity_days : Z)
    (key_type algorithm : string) : CertificateProfile :=
  {| p_name := name; p_type := t; p_description := None; p_validity_days := validity_days;
     p_key_type := key_type; p_algorithm := algorithm; p_key_usage := [];
     p_extended_key_usage := []; p_ca := is_ca t; p_path_len := None; p_san_required := false |}.

(** The assignments of the constructors below. *)
Definition with_usages (key_usage : list KeyUsage) (ekus : list ExtendedKeyUsage) (ca : bool)
    (path_len : option Z) (san_required : bool) (p : CertificateProfile) : CertificateProfile :=
  {| p_name := p_name p; p_type := p_type p; p_description := p_description p;
     p_validity_days := p_validity_days p; p_key_type := p_key_type p;
     p_algorithm := p_algorithm p; p_key_usage := key_usage; p_extended_key_usage := ekus;
     p_ca := ca; p_path_len := path_len; p_san_required := san_required |}.

Definition root_ca (validity_days : Z) : CertificateProfile :=
  with_usages [KeyCertSign; CrlSign] [] true None false
    (new_profile "Root CA" RootCa validity_days "rsa_4096" "rsa_pss_sha384").
Definition intermediate_ca (validity_days path_len : Z) : CertificateProfile :=
  with_usages [KeyCertSign; CrlSign] [] true (Some path_len) false
    (new_profile "Intermediate CA" IntermediateCa validity_days "rsa_3072" "rsa_pss_sha256").
Definition tls_server (validity_days : Z) : CertificateProfile :=
  with_usages [DigitalSignature; KeyEncipherment] [ServerAuth] false None true
    (new_profile "TLS Server" TlsServer validity_days "ec_p256" "ecdsa_p256_sha256").
Definition tls_client (validity_days : Z) : CertificateProfile :=
  with_usages [DigitalSignature] [ClientAuth] false None false
    (new_profile "TLS Client" TlsClient validity_days "ec_p256" "ecdsa_p256_sha256").
Definition code_signing (validity_days : Z) : CertificateProfile :=
  with_usages [DigitalSignature] [CodeSigning] false None false
    (new_profile "Code Signing" CodeSigningType validity_days "rsa_3072" "rsa_pss_sha256").
Definition efs (validity_days : Z) : CertificateProfile :=
  with_usages [DigitalSignature; KeyEncipherment; DataEncipherment] [Efs] false None false
    (new_profile "EFS" EfsType validity_days "rsa_2048" "rsa_pss_sha256").
Definition ocsp_signing (validity_days : Z) : CertificateProfile :=
  with_usages [DigitalSignature] [OcspSigning] false None false
    (new_profile "OCSP Signing" OcspSigningType validity_days "ec_p256" "ecdsa_p256_sha256").

Definition validate (p : CertificateProfile) : result unit X509Error :=
  if p_ca p && negb (contains KeyCertSign (p_key_usage p)) then
    Err (ProfileValidation "CA certificates must have keyCertSign")
  else if bool_decide (p_key_usage p = []) && bool_decide (p_extended_key_usage p = []) then
    Err (ProfileValidation "Profile must have at least one key usage or extended key usage")
  else if p_validity_days p =? 0 then
    Err (ProfileValidation "Validity period must be greater than 0")
  else Ok tt.

(** ** Secure defaults *)

Definition MIN_RSA_KEY_SIZE : Z := 2048.
Definition MIN_EC_KEY_SIZE : Z := 256.
Definition MAX_END_ENTITY_VALIDITY_DAYS : Z := 825.
Definition SERVER_AUTH_MAX_VALIDITY_DAYS : Z := 397.
Definition MAX_CA_VALIDITY_DAYS : Z := 7300.
Definition MIN_VALIDITY_DAYS : Z := 1.
Definition DEFAULT_END_ENTITY_VALIDITY_DAYS : Z := 365.
Definition DEFAULT_CA_VALIDITY_DAYS : Z := 3650.

Record SecureDefaults := {
  min_rsa_key_size : Z; min_ec_key_size : Z; max_end_entity_validity_days : Z;
  max_ca_validity_days : Z; default_end_entity_validity_days : Z; default_ca_validity_days : Z;
  require_crl_distribution_points : bool; require_aia : bool; require_san_for_tls : bool;
  allowed_signature_algorithms : list string; allowed_key_types : list string;
  prohibited_ekus : gset string; max_path_length : Z; enforce_critical_extensions : bool;
  require_unique_serial : bool
}.

Definition default_allowed_algorithms : list string :=
  ["rsa_pkcs1_sha256"; "rsa_pkcs1_sha384"; "rsa_pkcs1_sha512"; "rsa_pss_sha256"; "rsa_pss_sha384";
   "rsa_pss_sha512"; "ecdsa_p256_sha256"; "ecdsa_p384_sha384"; "ecdsa_p521_sha512"; "ed25519"; "ed448"].
Definition default_allowed_key_types : list string :=
  ["rsa_2048"; "rsa_3072"; "rsa_4096"; "ec_p256"; "ec_p384"; "ec_p521"; "ed25519"; "ed448";
   "ml_kem_512"; "ml_kem_768"; "ml_kem_1024"].
Definition default_prohibited_ekus : gset string := {["2.5.29.37.0"]}.

Definition new_defaults : SecureDefaults :=
  {| min_rsa_key_size := MIN_RSA_KEY_SIZE; min_ec_key_size := MIN_EC_KEY_SIZE;
     max_end_entity_validity_days := MAX_END_ENTITY_VALIDITY_DAYS;
     max_ca_validity_days := MAX_CA_VALIDITY_DAYS;
     default_end_entity_validity_days := DEFAULT_END_ENTITY_VALIDITY_DAYS;
     default_ca_validity_days := DEFAULT_CA_VALIDITY_DAYS;
     require_crl_distribution_points := true; require_aia := true; require_san_for_tls := true;
     allowed_signature_algorithms := default_allowed_algorithms;
     allowed_key_types := default_allowed_key_types; prohibited_ekus := default_prohibited_ekus;
     max_path_length := 1; enforce_critical_extensions := true; require_unique_serial := true |}.

(** *** Numbers in names *)

Fixpoint prefixed (p l : list ascii) : option (list ascii) :=
  match p, l with
  | [], l => Some l
  | c :: p, d :: l => if Ascii.eqb c d then prefixed p l else None
  | _ :: _, [] => None
  end.
Definition str_starts_with (p s : string) : bool :=
  match prefixed (String.list_ascii_of_string p) (String.list_ascii_of_string s) with Some _ => true | None => false end.
(** [trim_start_matches]: every copy of the prefix. *)
Fixpoint trim_prefix (fuel : nat) (p l : list ascii) : list ascii :=
  match fuel with
  | O => l
  | S fuel => match prefixed p l with Some l' => trim_prefix fuel p l' | None => l end
  end.
Definition trim_start_matches (p s : string) : list ascii :=
  trim_prefix (String.length s) (String.list_ascii_of_string p) (String.list_ascii_of_string s).

(** [str::parse::<u32>]. *)
Fixpoint parse_digits (acc : Z) (l : list ascii) : option Z :=
  match l with
  | [] => Some acc
  | c :: l =>
      let d := Z.of_N (N_of_ascii c) - 48 in
      if (0 <=? d) && (d <=? 9) then
        if acc * 10 + d <=? u32_MAX then parse_digits (acc * 10 + d) l else None
      else None
  end.
Definition parse_u32 (l : list ascii) : option Z :=
  match l with
  | [] => None
  | [_] => parse_digits 0 l
  | c :: rest => if Ascii.eqb c "+" then parse_digits 0 rest else parse_digits 0 l
  end.

Definition key_size (prefix key_type : string) : Z :=
  default 0 (parse_u32 (trim_start_matches prefix key_type)).

(** *** The policy *)

Definition z_text (z : Z) : string := pretty z.
Definition SERVER_AUTH_EKU_OID : string := "1.3.6.1.5.5.7.3.1".

Definition refuse {A} (reason : string) : result A X509Error := Err (XSecureDefaults reason).
Definition quote_text (s : string) : string := "'" +:+ s +:+ "'".

Definition find_prohibited (sd : SecureDefaults) (p : CertificateProfile) : option string :=
  find (λ oid, bool_decide (oid ∈ prohibited_ekus sd)) (eku_oid <$> p_extended_key_usage p).

Definition validate_profile (sd : SecureDefaults) (p : CertificateProfile) : result unit X509Error :=
  let days := p_validity_days p in
  let max_validity := if p_ca p then max_ca_validity_days sd else max_end_entity_validity_days sd in
  if negb (contains (p_key_type p) (allowed_key_types sd)) then
    refuse ("Key type " +:+ quote_text (p_key_type p) +:+ " is not in allowed list")
  else if negb (contains (p_algorithm p) (allowed_signature_algorithms sd)) then
    refuse ("Signature algorithm " +:+ quote_text (p_algorithm p) +:+ " is not in allowed list")
  else if existsb (λ e, bool_decide (eku_oid e = SERVER_AUTH_EKU_OID)) (p_extended_key_usage p) &&
          (SERVER_AUTH_MAX_VALIDITY_DAYS <? days) then
    refuse ("serverAuth (TLS server) validity " +:+ z_text days +:+ " days exceeds the " +:+
            z_text SERVER_AUTH_MAX_VALIDITY_DAYS +:+ "-day maximum that Apple/iOS and other TLS clients accept")
  else if max_validity <? days then
    refuse ("Validity period " +:+ z_text days +:+ " days exceeds maximum " +:+ z_text max_validity +:+ " days")
  else if days <? MIN_VALIDITY_DAYS then
    refuse ("Validity period " +:+ z_text days +:+ " days is below minimum " +:+ z_text MIN_VALIDITY_DAYS +:+ " day")
  else if str_starts_with "rsa_" (p_key_type p) && (key_size "rsa_" (p_key_type p) <? min_rsa_key_size sd) then
    refuse ("RSA key size " +:+ z_text (key_size "rsa_" (p_key_type p)) +:+ " bits is below minimum " +:+
            z_text (min_rsa_key_size sd) +:+ " bits")
  else if str_starts_with "ec_p" (p_key_type p) && (key_size "ec_p" (p_key_type p) <? min_ec_key_size sd) then
    refuse ("EC key size " +:+ z_text (key_size "ec_p" (p_key_type p)) +:+ " bits is below minimum " +:+
            z_text (min_ec_key_size sd) +:+ " bits")
  else if require_san_for_tls sd && bool_decide (p_type p = TlsServer) && negb (p_san_required p) then
    refuse "TLS server certificates must require Subject Alternative Name"
  else if p_ca p && (max_path_length sd <? default 0 (p_path_len p)) &&
          negb (bool_decide (p_path_len p = None)) && negb (bool_decide (p_type p = RootCa)) then
    refuse ("Path length constraint " +:+ z_text (default 0 (p_path_len p)) +:+ " exceeds maximum " +:+
            z_text (max_path_length sd))
  else match find_prohibited sd p with
  | Some oid => refuse ("Extended key usage OID " +:+ oid +:+ " is prohibited")
  | None =>
      if p_ca p && negb (contains KeyCertSign (p_key_usage p)) then
        refuse "CA certificates must have keyCertSign key usage"
      else Ok tt
  end.

Definition validate_key_size (sd : SecureDefaults) (key_type : string) : result unit X509Error :=
  if str_starts_with "rsa_" key_type then
    if key_size "rsa_" key_type <? min_rsa_key_size sd then
      refuse ("RSA key size " +:+ z_text (key_size "rsa_" key_type) +:+ " bits below minimum " +:+
              z_text (min_rsa_key_size sd) +:+ " bits")
    else Ok tt
  else if str_starts_with "ec_p" key_type then
    if key_size "ec_p" key_type <? min_ec_key_size sd then
      refuse ("EC key size " +:+ z_text (key_size "ec_p" key_type) +:+ " bits below minimum " +:+
              z_text (min_ec_key_size sd) +:+ " bits")
    else Ok tt
  else Ok tt.

Definition validate_validity (sd : SecureDefaults) (days : Z) (ca : bool) : result unit X509Error :=
  let max := if ca then max_ca_validity_days sd else max_end_entity_validity_days sd in
  if max <? days then
    refuse ("Validity period " +:+ z_text days +:+ " days exceeds maximum " +:+ z_text max +:+ " days")
  else if days <? MIN_VALIDITY_DAYS then
    refuse ("Validity period " +:+ z_text days +:+ " days below minimum " +:+ z_text MIN_VALIDITY_DAYS +:+ " day")
  else Ok tt.

Definition default_validity (sd : SecureDefaults) (ca : bool) : Z :=
  if ca then default_ca_validity_days sd else default_end_entity_validity_days sd.
Definition is_algorithm_allowed (sd : SecureDefaults) (algorithm : string) : bool :=
  contains algorithm (allowed_signature_algorithms sd).
Definition is_key_type_allowed (sd : SecureDefaults) (key_type : string) : bool :=
  contains key_type (allowed_key_types sd).

(** ** What the policy accepts *)

(** The policy as a list of requirements.  An extended key usage counts by its
    OID, however the profile names it. *)
Record meets (sd : SecureDefaults) (p : CertificateProfile) : Prop := {
  m_key_type : p_key_type p ∈ allowed_key_types sd;
  m_algorithm : p_algorithm p ∈ allowed_signature_algorithms sd;
  m_server_auth e : e ∈ p_extended_key_usage p → eku_oid e = SERVER_AUTH_EKU_OID →
    p_validity_days p ≤ SERVER_AUTH_MAX_VALIDITY_DAYS;
  m_validity : MIN_VALIDITY_DAYS ≤ p_validity_days p ≤
    if p_ca p then max_ca_validity_days sd else max_end_entity_validity_days sd;
  m_rsa : str_starts_with "rsa_" (p_key_type p) = true → min_rsa_key_size sd ≤ key_size "rsa_" (p_key_type p);
  m_ec : str_starts_with "ec_p" (p_key_type p) = true → min_ec_key_size sd ≤ key_size "ec_p" (p_key_type p);
  m_san : require_san_for_tls sd = true → p_type p = TlsServer → p_san_required p = true;
  m_path n : p_ca p = true → p_path_len p = Some n → p_type p ≠ RootCa → n ≤ max_path_length sd;
  m_ekus e : e ∈ p_extended_key_usage p → eku_oid e ∉ prohibited_ekus sd;
  m_cert_sign : p_ca p = true → KeyCertSign ∈ p_key_usage p
}.

Lemma find_prohibited_None sd p : find_prohibited sd p = None ↔
  ∀ e, e ∈ p_extended_key_usage p → eku_oid e ∉ prohibited_ekus sd.
Proof.
  unfold find_prohibited. split.
  - intros Hf e He. apply (list_elem_of_fmap_2 eku_oid), list_elem_of_In in He.
    apply (find_none _ _ Hf) in He. by apply bool_decide_eq_false in He.
  - intros HH. destruct (find _ _) as [oid|] eqn:Hf; [|done].
    apply find_some in Hf as [Hin%list_elem_of_In Hp%bool_decide_eq_true].
    apply list_elem_of_fmap in Hin as (e & -> & He). by apply HH in He.
Qed.

Lemma server_auth_listed l : existsb (λ e, bool_decide (eku_oid e = SERVER_AUTH_EKU_OID)) l = true ↔
  ∃ e, e ∈ l ∧ eku_oid e = SERVER_AUTH_EKU_OID.
Proof. rewrite existsb_elem_of. by setoid_rewrite bool_decide_eq_true. Qed.

(** A guard that has to be false. *)
Lemma guard_Ok (b : bool) (reason : string) (r : result unit X509Error) :
  (if b then refuse reason else r) = Ok tt ↔ b = false ∧ r = Ok tt.
Proof. destruct b; unfold refuse; naive_solver. Qed.

Lemma negb_contains {A} `{EqDecision A} (x : A) l : negb (contains x l) = false ↔ x ∈ l.
Proof. by rewrite negb_false_iff, contains_true. Qed.

(** The requirements hold exactly of the profiles that pass the checks. *)
Lemma profile_policy sd p : validate_profile sd p = Ok tt ↔ meets sd p.
Proof.
  unfold validate_profile. rewrite !guard_Ok, !negb_contains, !andb_false_iff, !negb_false_iff,
    !Z.ltb_ge, !bool_decide_eq_false, !bool_decide_eq_true.
  destruct (find_prohibited sd p) as [oid|] eqn:Hf.
  { split; [intuition discriminate|]. intros Hm. exfalso.
    rewrite (proj2 (find_prohibited_None sd p) (m_ekus sd p Hm)) in Hf. done. }
  rewrite find_prohibited_None in Hf. rewrite guard_Ok, andb_false_iff, negb_contains.
  rewrite <- (not_true_iff_false (existsb _ _)), server_auth_listed.
  split.
  - intros (H1 & H2 & H3 & H4 & H5 & H6 & H7 & H8 & H9 & H10 & _). split; try done.
    + intros e He Ho. destruct H3 as [H3|H3]; [|done]. exfalso. apply H3. by exists e.
    + intros Hs. destruct H6; congruence.
    + intros Hs. destruct H7; congruence.
    + intros Hs Ht. destruct H8 as [[|]|]; congruence.
    + intros n Hca Hn Ht. rewrite Hn in H9. cbn in H9. destruct H9 as [[[H9|H9]|H9]|H9]; congruence.
    + intros Hca. destruct H10; congruence.
  - intros []. split_and!; try done.
    + destruct (decide (Exists (λ e, eku_oid e = SERVER_AUTH_EKU_OID) (p_extended_key_usage p))) as [He|He];
        rewrite Exists_exists in He; [|by left].
      destruct He as (e & He & Ho). right. by eapply m_server_auth0.
    + by apply m_validity0.
    + by apply m_validity0.
    + destruct (str_starts_with _ _); [right; auto|by left].
    + destruct (str_starts_with "ec_p" _); [right; auto|by left].
    + destruct (require_san_for_tls sd); [|by left; left].
      destruct (decide (p_type p = TlsServer)); [right; auto|by left; right].
    + destruct (p_ca p) eqn:Hca; [|by left; left; left].
      destruct (p_path_len p) as [n|] eqn:Hn; [|by left; right].
      destruct (decide (p_type p = RootCa)); [by right|]. left; left; right. cbn. by apply m_path0.
    + destruct (p_ca p); [right; auto|by left].
Qed.

(** [validate_profile] is the policy: what it accepts are the profiles that
    meet every requirement. *)
Theorem validate_profile_spec sd p : validate_profile sd p = Ok tt ↔ meets sd p.
Proof. apply profile_policy. Qed.
