(* ===== verification/CertBuilder.v ===== *)
(** * Building a certificate

    [crates/ostrich-x509/src/builder/certificate.rs] and [extensions.rs], and
    [key_identifier] of [signing.rs]: from a profile to the to-be-signed
    certificate with its extensions.  [OctetString::new] fails only past 256
    MiB and is left out, as are the setters that the CA does not call. *)
From stdpp Require Import base strings list.
From Stdlib Require Import ZArith Lia.
From S2P Require Import Prelude Algorithm Der Signing IpAddr X509Names CertProfile.
#[local] Open Scope Z_scope.

(** ** Extensions asked for *)

Inductive SubjectAltName :=
| SanDns (name : string) | SanRfc822 (mail : string) | SanUri (uri : string) | SanIp (ip : IpAddr)
| SanDirectory (name : string).
Inductive AuthorityInfoAccess := Ocsp (uri : string) | CaIssuers (uri : string).
Record CertificatePolicy := {
  policy_oid : string; policy_cps_uri : option string; policy_user_notice : option string
}.

(** ** The builder *)

Record CertificateBuilder := {
  b_serial_number : option (list u8); b_subject : option DistinguishedName;
  b_issuer : option DistinguishedName; b_not_before : option DateTime;
  b_not_after : option DateTime; b_public_key : option (list u8); b_key_usage : list KeyUsage;
  b_extended_key_usage : list ExtendedKeyUsage; b_ca : bool; b_path_len : option Z;
  b_subject_alt_names : list SubjectAltName; b_authority_info_access : list AuthorityInfoAccess;
  b_crl_distribution_points : list string; b_certificate_policies : list CertificatePolicy;
  b_authority_key_id : option (list u8); b_subject_key_id : option (list u8);
  b_signature_algorithm : option Algorithm
}.

Definition new : CertificateBuilder :=
  {| b_serial_number := None; b_subject := None; b_issuer := None; b_not_before := None;
     b_not_after := None; b_public_key := None; b_key_usage := []; b_extended_key_usage := [];
     b_ca := false; b_path_len := None; b_subject_alt_names := []; b_authority_info_access := [];
     b_crl_distribution_points := []; b_certificate_policies := []; b_authority_key_id := None;
     b_subject_key_id := None; b_signature_algorithm := None |}.

(** [now] is the clock.  A number of days that [u32] holds never makes
    [try_days] fail. *)
Definition days (n : Z) : Z := seconds (n * 86400).
Definition from_profile (now : DateTime) (p : CertificateProfile) : CertificateBuilder :=
  {| b_serial_number := None; b_subject := None; b_issuer := None; b_not_before := Some now;
     b_not_after := Some (now + days (p_validity_days p)); b_public_key := None;
     b_key_usage := p_key_usage p; b_extended_key_usage := p_extended_key_usage p;
     b_ca := p_ca p; b_path_len := p_path_len p; b_subject_alt_names := [];
     b_authority_info_access := []; b_crl_distribution_points := [];
     b_certificate_policies := []; b_authority_key_id := None; b_subject_key_id := None;
     b_signature_algorithm := None |}.

Definition set_serial_number (serial : list u8) (b : CertificateBuilder) : CertificateBuilder :=
  {| b_serial_number := Some serial; b_subject := b_subject b; b_issuer := b_issuer b;
     b_not_before := b_not_before b; b_not_after := b_not_after b;
     b_public_key := b_public_key b; b_key_usage := b_key_usage b;
     b_extended_key_usage := b_extended_key_usage b; b_ca := b_ca b; b_path_len := b_path_len b;
     b_subject_alt_names := b_subject_alt_names b;
     b_authority_info_access := b_authority_info_access b;
     b_crl_distribution_points := b_crl_distribution_points b;
     b_certificate_policies := b_certificate_policies b;
     b_authority_key_id := b_authority_key_id b; b_subject_key_id := b_subject_key_id b;
     b_signature_algorithm := b_signature_algorithm b |}.
Definition set_subject (dn : DistinguishedName) (b : CertificateBuilder) : CertificateBuilder :=
  {| b_serial_number := b_serial_number b; b_subject := Some dn; b_issuer := b_issuer b;
     b_not_before := b_not_before b; b_not_after := b_not_after b;
     b_public_key := b_public_key b; b_key_usage := b_key_usage b;
     b_extended_key_usage := b_extended_key_usage b; b_ca := b_ca b; b_path_len := b_path_len b;
     b_subject_alt_names := b_subject_alt_names b;
     b_authority_info_access := b_authority_info_access b;
     b_crl_distribution_points := b_crl_distribution_points b;
     b_certificate_policies := b_certificate_policies b;
     b_authority_key_id := b_authority_key_id b; b_subject_key_id := b_subject_key_id b;
     b_signature_algorithm := b_signature_algorithm b |}.
Definition set_issuer (dn : DistinguishedName) (b : CertificateBuilder) : CertificateBuilder :=
  {| b_serial_number := b_serial_number b; b_subject := b_subject b; b_issuer := Some dn;
     b_not_before := b_not_before b; b_not_after := b_not_after b;
     b_public_key := b_public_key b; b_key_usage := b_key_usage b;
     b_extended_key_usage := b_extended_key_usage b; b_ca := b_ca b; b_path_len := b_path_len b;
     b_subject_alt_names := b_subject_alt_names b;
     b_authority_info_access := b_authority_info_access b;
     b_crl_distribution_points := b_crl_distribution_points b;
     b_certificate_policies := b_certificate_policies b;
     b_authority_key_id := b_authority_key_id b; b_subject_key_id := b_subject_key_id b;
     b_signature_algorithm := b_signature_algorithm b |}.
Definition set_public_key (key : list u8) (b : CertificateBuilder) : CertificateBuilder :=
  {| b_serial_number := b_serial_number b; b_subject := b_subject b; b_issuer := b_issuer b;
     b_not_before := b_not_before b; b_not_after := b_not_after b; b_public_key := Some key;
     b_key_usage := b_key_usage b; b_extended_key_usage := b_extended_key_usage b;
     b_ca := b_ca b; b_path_len := b_path_len b; b_subject_alt_names := b_subject_alt_names b;
     b_authority_info_access := b_authority_info_access b;
     b_crl_distribution_points := b_crl_distribution_points b;
     b_certificate_policies := b_certificate_policies b;
     b_authority_key_id := b_authority_key_id b; b_subject_key_id := b_subject_key_id b;
     b_signature_algorithm := b_signature_algorithm b |}.
Definition set_signature_algorithm (a : Algorithm) (b : CertificateBuilder) : CertificateBuilder :=
  {| b_serial_number := b_serial_number b; b_subject := b_subject b; b_issuer := b_issuer b;
     b_not_before := b_not_before b; b_not_after := b_not_after b;
     b_public_key := b_public_key b; b_key_usage := b_key_usage b;
     b_extended_key_usage := b_extended_key_usage b; b_ca := b_ca b; b_path_len := b_path_len b;
     b_subject_alt_names := b_subject_alt_names b;
     b_authority_info_access := b_authority_info_access b;
     b_crl_distribution_points := b_crl_distribution_points b;
     b_certificate_policies := b_certificate_policies b;
     b_authority_key_id := b_authority_key_id b; b_subject_key_id := b_subject_key_id b;
     b_signature_algorithm := Some a |}.
Definition set_subject_key_id (id : list u8) (b : CertificateBuilder) : CertificateBuilder :=
  {| b_serial_number := b_serial_number b; b_subject := b_subject b; b_issuer := b_issuer b;
     b_not_before := b_not_before b; b_not_after := b_not_after b;
     b_public_key := b_public_key b; b_key_usage := b_key_usage b;
     b_extended_key_usage := b_extended_key_usage b; b_ca := b_ca b; b_path_len := b_path_len b;
     b_subject_alt_names := b_subject_alt_names b;
     b_authority_info_access := b_authority_info_access b;
     b_crl_distribution_points := b_crl_distribution_points b;
     b_certificate_policies := b_certificate_policies b;
     b_authority_key_id := b_authority_key_id b; b_subject_key_id := Some id;
     b_signature_algorithm := b_signature_algorithm b |}.
Definition set_authority_key_id (id : list u8) (b : CertificateBuilder) : CertificateBuilder :=
  {| b_serial_number := b_serial_number b; b_subject := b_subject b; b_issuer := b_issuer b;
     b_not_before := b_not_before b; b_not_after := b_not_after b;
     b_public_key := b_public_key b; b_key_usage := b_key_usage b;
     b_extended_key_usage := b_extended_key_usage b; b_ca := b_ca b; b_path_len := b_path_len b;
     b_subject_alt_names := b_subject_alt_names b;
     b_authority_info_access := b_authority_info_access b;
     b_crl_distribution_points := b_crl_distribution_points b;
     b_certificate_policies := b_certificate_policies b; b_authority_key_id := Some id;
     b_subject_key_id := b_subject_key_id b; b_signature_algorithm := b_signature_algorithm b |}.
Definition add_subject_alt_name (san : SubjectAltName) (b : CertificateBuilder) : CertificateBuilder :=
  {| b_serial_number := b_serial_number b; b_subject := b_subject b; b_issuer := b_issuer b;
     b_not_before := b_not_before b; b_not_after := b_not_after b;
     b_public_key := b_public_key b; b_key_usage := b_key_usage b;
     b_extended_key_usage := b_extended_key_usage b; b_ca := b_ca b; b_path_len := b_path_len b;
     b_subject_alt_names := b_subject_alt_names b ++ [san];
     b_authority_info_access := b_authority_info_access b;
     b_crl_distribution_points := b_crl_distribution_points b;
     b_certificate_policies := b_certificate_policies b;
     b_authority_key_id := b_authority_key_id b; b_subject_key_id := b_subject_key_id b;
     b_signature_algorithm := b_signature_algorithm b |}.
Definition add_crl_distribution_point (uri : string) (b : CertificateBuilder) : CertificateBuilder :=
  {| b_serial_number := b_serial_number b; b_subject := b_subject b; b_issuer := b_issuer b;
     b_not_before := b_not_before b; b_not_after := b_not_after b;
     b_public_key := b_public_key b; b_key_usage := b_key_usage b;
     b_extended_key_usage := b_extended_key_usage b; b_ca := b_ca b; b_path_len := b_path_len b;
     b_subject_alt_names := b_subject_alt_names b;
     b_authority_info_access := b_authority_info_access b;
     b_crl_distribution_points := b_crl_distribution_points b ++ [uri];
     b_certificate_policies := b_certificate_policies b;
     b_authority_key_id := b_authority_key_id b; b_subject_key_id := b_subject_key_id b;
     b_signature_algorithm := b_signature_algorithm b |}.
Definition add_authority_info_access (aia : AuthorityInfoAccess) (b : CertificateBuilder) : CertificateBuilder :=
  {| b_serial_number := b_serial_number b; b_subject := b_subject b; b_issuer := b_issuer b;
     b_not_before := b_not_before b; b_not_after := b_not_after b;
     b_public_key := b_public_key b; b_key_usage := b_key_usage b;
     b_extended_key_usage := b_extended_key_usage b; b_ca := b_ca b; b_path_len := b_path_len b;
     b_subject_alt_names := b_subject_alt_names b;
     b_authority_info_access := b_authority_info_access b ++ [aia];
     b_crl_distribution_points := b_crl_distribution_points b;
     b_certificate_policies := b_certificate_policies b;
     b_authority_key_id := b_authority_key_id b; b_subject_key_id := b_subject_key_id b;
     b_signature_algorithm := b_signature_algorithm b |}.

Record TbsCertificate := {
  t_serial_number : list u8; t_subject : DistinguishedName; t_issuer : DistinguishedName;
  t_not_before : DateTime; t_not_after : DateTime; t_public_key : list u8;
  t_key_usage : list KeyUsage; t_extended_key_usage : list ExtendedKeyUsage; t_ca : bool;
  t_path_len : option Z; t_subject_alt_names : list SubjectAltName;
  t_authority_info_access : list AuthorityInfoAccess; t_crl_distribution_points : list string;
  t_certificate_policies : list CertificatePolicy; t_authority_key_id : option (list u8);
  t_subject_key_id : option (list u8); t_signature_algorithm : option Algorithm
}.

Definition build_tbs (b : CertificateBuilder) : result TbsCertificate X509Error :=
  let? serial := ok_or (b_serial_number b) (Build "Serial number is required") in
  let? subject := ok_or (b_subject b) (Build "Subject is required") in
  let? issuer := ok_or (b_issuer b) (Build "Issuer is required") in
  let? not_before := ok_or (b_not_before b) (Build "Not before time is required") in
  let? not_after := ok_or (b_not_after b) (Build "Not after time is required") in
  let? public_key := ok_or (b_public_key b) (Build "Public key is required") in
  if not_after <=? not_before then Err (Build "Not after must be later than not before")
  else
    Ok {| t_serial_number := serial; t_subject := subject; t_issuer := issuer;
        t_not_before := not_before; t_not_after := not_after; t_public_key := public_key;
        t_key_usage := b_key_usage b; t_extended_key_usage := b_extended_key_usage b;
        t_ca := b_ca b; t_path_len := b_path_len b; t_subject_alt_names := b_subject_alt_names b;
        t_authority_info_access := b_authority_info_access b;
        t_crl_distribution_points := b_crl_distribution_points b;
        t_certificate_policies := b_certificate_policies b;
        t_authority_key_id := b_authority_key_id b; t_subject_key_id := b_subject_key_id b;
        t_signature_algorithm := b_signature_algorithm b |}.

(** ** Encoding *)

(** The bits of the two octets: a usage's name in RFC 5280 is its number
    from the left. *)
Definition usage_bit (u : KeyUsage) : Z :=
  match u with
  | DigitalSignature => Z.shiftl 128 8 | NonRepudiation => Z.shiftl 64 8
  | KeyEncipherment => Z.shiftl 32 8 | DataEncipherment => Z.shiftl 16 8
  | KeyAgreement => Z.shiftl 8 8 | KeyCertSign => Z.shiftl 4 8 | CrlSign => Z.shiftl 2 8
  | EncipherOnly => Z.shiftl 1 8 | DecipherOnly => 1
  end.
Definition usage_bits (us : list KeyUsage) : Z := foldl (λ bits u, Z.lor bits (usage_bit u)) 0 us.

Definition ID_CE_KEY_USAGE : string := "2.5.29.15".
Definition ID_CE_BASIC_CONSTRAINTS : string := "2.5.29.19".
Definition ID_CE_EXT_KEY_USAGE : string := "2.5.29.37".
Definition ID_CE_SUBJECT_ALT_NAME : string := "2.5.29.17".
Definition ID_CE_AUTHORITY_KEY_IDENTIFIER : string := "2.5.29.35".
Definition ID_CE_SUBJECT_KEY_IDENTIFIER : string := "2.5.29.14".
Definition ID_CE_CRL_DISTRIBUTION_POINTS : string := "2.5.29.31".
Definition ID_PE_AUTHORITY_INFO_ACCESS : string := "1.3.6.1.5.5.7.1.1".
Definition ID_CE_CERTIFICATE_POLICIES : string := "2.5.29.32".

(** The octets of an address, in network order. *)
Definition ip_octets (ip : IpAddr) : list u8 :=
  match ip with
  | V4 a b c d => [a; b; c; d]
  | V6 g => concat ((λ s, [s / 256; s mod 256]) <$> g)
  end.

Section encoding.
Context {HX : X509Lib} (debug_algorithm : Algorithm → string) (crypto_text : CryptoErr → string).

(** A loop whose body can fail, over all elements. *)
Fixpoint each {A B} (f : A → result B X509Error) (l : list A) : result (list B) X509Error :=
  match l with
  | [] => Ok []
  | x :: l => let? y := f x in let? ys := each f l in Ok (y :: ys)
  end.
(** An extension that is there when its elements are. *)
Definition list_extension {A} (l : list A) (id : string) (critical : bool)
    (value : list A → result (list u8) X509Error) : result (list Extension) X509Error :=
  optional_extension (match l with [] => None | _ => Some l end) id critical value.

Definition eku_to_oid (e : ExtendedKeyUsage) : result string X509Error :=
  match e with
  | Custom oid => let? _ := encoding "Invalid custom EKU OID: " (oid_new oid) in Ok oid
  | e => Ok (eku_oid e)
  end.

(** A directory name has no general name yet. *)
Definition general_name (san : SubjectAltName) : result (option GeneralName) X509Error :=
  match san with
  | SanDns dns => let? _ := encoding "Invalid DNS name: " (ia5_string_new dns) in Ok (Some (GnDns dns))
  | SanRfc822 email => let? _ := encoding "Invalid email: " (ia5_string_new email) in Ok (Some (GnRfc822 email))
  | SanUri uri => let? _ := encoding "Invalid URI: " (ia5_string_new uri) in Ok (Some (GnUri uri))
  | SanIp ip => Ok (Some (GnIp (ip_octets ip)))
  | SanDirectory _ => Ok None
  end.

Definition access_description (a : AuthorityInfoAccess) : result (string * string) X509Error :=
  let '(method, location) := match a with
    | Ocsp uri => ("1.3.6.1.5.5.7.48.1", uri)
    | CaIssuers uri => ("1.3.6.1.5.5.7.48.2", uri)
    end in
  let? _ := encoding "Invalid AIA URI: " (ia5_string_new location) in Ok (method, location).

Definition build_extensions (t : TbsCertificate) : result (option (list Extension)) X509Error :=
  let? usage := list_extension (t_key_usage t) ID_CE_KEY_USAGE true (λ us,
    let? bits := encoding "Invalid key usage bits: " (bit_string_from_bytes (to_be_bytes 2 (usage_bits us))) in
    encoding "Failed to encode key usage: " (bit_string_to_der bits)) in
  let? constraints := optional_extension
    (if t_ca t || negb (bool_decide (t_path_len t = None)) then Some tt else None)
    ID_CE_BASIC_CONSTRAINTS (t_ca t)
    (λ _, encoding "Failed to encode basic constraints: " (basic_constraints_to_der (t_ca t) (t_path_len t))) in
  let? ekus := list_extension (t_extended_key_usage t) ID_CE_EXT_KEY_USAGE false (λ es,
    let? oids := each eku_to_oid es in
    encoding "Failed to encode extended key usage: " (ekus_to_der oids)) in
  let? names := each general_name (t_subject_alt_names t) in
  let? sans := list_extension (omap id names) ID_CE_SUBJECT_ALT_NAME false (λ names,
    encoding "Failed to encode SAN: " (san_to_der names)) in
  let? aki := optional_extension (t_authority_key_id t) ID_CE_AUTHORITY_KEY_IDENTIFIER false
    (λ k, encoding "Failed to encode AKI: " (aki_to_der k)) in
  let? ski := optional_extension (t_subject_key_id t) ID_CE_SUBJECT_KEY_IDENTIFIER false
    (λ k, encoding "Failed to encode SKI: " (ski_to_der k)) in
  let? crl := list_extension (t_crl_distribution_points t) ID_CE_CRL_DISTRIBUTION_POINTS false (λ uris,
    let? _ := each (λ uri, encoding "Invalid CRL URI: " (ia5_string_new uri)) uris in
    encoding "Failed to encode CRL DPs: " (crl_dps_to_der uris)) in
  let? aia := list_extension (t_authority_info_access t) ID_PE_AUTHORITY_INFO_ACCESS false (λ l,
    let? descriptions := each access_description l in
    encoding "Failed to encode AIA: " (aia_to_der descriptions)) in
  let? policies := list_extension (t_certificate_policies t) ID_CE_CERTIFICATE_POLICIES false (λ l,
    let? oids := each (λ p, let? _ := encoding "Invalid policy OID: " (oid_new (policy_oid p)) in
                            Ok (policy_oid p)) l in
    encoding "Failed to encode policies: " (policies_to_der oids)) in
  match usage ++ constraints ++ ekus ++ sans ++ aki ++ ski ++ crl ++ aia ++ policies with
  | [] => Ok None
  | l => Ok (Some l)
  end.

(** The fallback has absent parameters. *)
Definition get_signature_algorithm (t : TbsCertificate) : result (string * bool) X509Error :=
  match t_signature_algorithm t with
  | Some a =>
      match algorithm_identifier debug_algorithm a with
      | Ok id => Ok id
      | Err e => Err (XEncoding ("signature algorithm: " +:+ crypto_text e))
      end
  | None => Ok ("1.2.840.113549.1.1.11", false)
  end.

Definition x509_tbs (t : TbsCertificate) : result X509Tbs X509Error :=
  let? serial := encoding "Invalid serial number: " (serial_number_new (t_serial_number t)) in
  let? issuer := dn_to_name (t_issuer t) in
  let? subject := dn_to_name (t_subject t) in
  let? not_before := datetime_to_time (t_not_before t) in
  let? not_after := datetime_to_time (t_not_after t) in
  let? spki := encoding "Invalid public key: " (spki_try_from (t_public_key t)) in
  let? algorithm := get_signature_algorithm t in
  let? extensions := build_extensions t in
  Ok {| xt_serial_number := serial; xt_signature := algorithm; xt_issuer := issuer;
        xt_not_before := not_before; xt_not_after := not_after; xt_subject := subject;
        xt_spki := spki; xt_extensions := extensions |}.
(** [TbsCertificate::to_der]. *)
Definition tbs_certificate_der (t : TbsCertificate) : result (list u8) X509Error :=
  let? tbs := x509_tbs t in encoding "Failed to encode TBS certificate: " (certificate_tbs_to_der tbs).

(** [signing::key_identifier]. *)
Definition key_identifier (spki_der : list u8) : result (list u8) CryptoErr :=
  match spki_try_from spki_der with
  | Err e => Err (Encoding ("failed to parse SubjectPublicKeyInfo for key id: " +:+ e))
  | Ok spki => Ok (sha1 (spki_raw_bytes spki))
  end.
End encoding.

(** ** Key usage bits *)

(** The number of the bit in RFC 5280's [KeyUsage]. *)
Definition usage_number (u : KeyUsage) : Z :=
  match u with
  | DigitalSignature => 0 | NonRepudiation => 1 | KeyEncipherment => 2 | DataEncipherment => 3
  | KeyAgreement => 4 | KeyCertSign => 5 | CrlSign => 6 | EncipherOnly => 7 | DecipherOnly => 8
  end.

Lemma usage_bits_testbit us i : Z.testbit (usage_bits us) i = existsb (λ u, Z.testbit (usage_bit u) i) us.
Proof.
  unfold usage_bits.
  assert (∀ acc, Z.testbit (foldl (λ bits u, Z.lor bits (usage_bit u)) acc us) i =
    Z.testbit acc i || existsb (λ u, Z.testbit (usage_bit u) i) us) as Hacc.
  { induction us as [|u us IH]; intros acc; cbn; [by rewrite orb_false_r|].
    by rewrite IH, Z.lor_spec, orb_assoc. }
  by rewrite Hacc, Z.bits_0.
Qed.

Lemma usage_bit_testbit u v : u ≠ DecipherOnly →
  Z.testbit (usage_bit v) (15 - usage_number u) = bool_decide (v = u).
Proof. intros Hu. destruct u; try done; by destruct v. Qed.

(** The octets of the key usage extension: bit [n] of RFC 5280 is set exactly
    when the profile has the usage of that number, but for decipherOnly: its
    bit, the first of the second octet, is never set, and the profile's
    decipherOnly sets the last, which RFC 5280 does not define. *)
Theorem key_usage_octets us : ∃ hi lo,
  to_be_bytes 2 (usage_bits us) = [hi; lo] ∧
  (∀ u, u ≠ DecipherOnly → Z.testbit hi (7 - usage_number u) = contains u us) ∧
  Z.testbit lo 7 = false ∧ Z.testbit lo 0 = contains DecipherOnly us.
Proof.
  eexists _, _. split; [reflexivity|].
  assert (∀ j, 0 ≤ j < 8 → Z.testbit 255 j = true) as H255.
  { intros j Hj. change 255 with (Z.ones 8). apply Z.ones_spec_low. lia. }
  assert (∀ j, 0 ≤ j < 8 → ∀ k, 0 ≤ k → Z.testbit (Z.land (Z.shiftr (usage_bits us) k) 255) j =
    existsb (λ u, Z.testbit (usage_bit u) (j + k)) us) as Hbit.
  { intros j Hj k Hk. rewrite Z.land_spec, H255, andb_true_r, Z.shiftr_spec by lia. apply usage_bits_testbit. }
  split_and!.
  - intros u Hu. assert (0 ≤ usage_number u < 8) as Hn by (by destruct u).
    rewrite Hbit by lia. change (8 * Z.of_nat 1) with 8.
    replace (7 - usage_number u + 8) with (15 - usage_number u) by lia.
    apply eq_true_iff_eq. rewrite existsb_elem_of, contains_true. split.
    + intros (v & Hv & Hb). rewrite usage_bit_testbit in Hb by done. by apply bool_decide_eq_true in Hb as ->.
    + intros Hv. exists u. rewrite usage_bit_testbit by done. by rewrite bool_decide_eq_true.
  - rewrite Hbit by lia. apply not_true_iff_false. rewrite existsb_elem_of. intros (v & _ & Hb). by destruct v.
  - rewrite Hbit by lia. apply eq_true_iff_eq. rewrite existsb_elem_of, contains_true. split.
    + intros (v & Hv & Hb). by destruct v.
    + intros Hv. by exists DecipherOnly.
Qed.

(** ** What a built certificate says *)

Lemma each_Ok {A B} (f : A → result B X509Error) l ys : each f l = Ok ys ↔ Forall2 (λ x y, f x = Ok y) l ys.
Proof.
  revert ys. induction l as [|x l IH]; intros ys; cbn.
  - split; [intros [= <-]; constructor|by inversion 1].
  - rewrite res_bind_Ok. setoid_rewrite res_bind_Ok. setoid_rewrite IH. split.
    + intros (y & Hy & ys' & Hys & [= <-]). by constructor.
    + inversion 1 as [|? y ? ys' Hy Hys]; subst. by exists y; split; [|exists ys'].
Qed.
