(* ===== verification/CaStore.v ===== *)
(** * The tables of the CA

    [crates/ostrich-db/src/repository/certificate.rs], [crl.rs] and
    [approval.rs] on the tables of [migrations/00001_create_base_tables.sql],
    [00004_add_approval_workflow.sql] and [00009_delta_crl.sql] with their
    constraints.  [created_at] and [updated_at] of a certificate and the
    certificates' name index are left out; rows are in the order of insertion.
    A statement takes the database's [NOW()]; one that fails changes nothing.
    [RevokedOrder] is [ORDER BY revocation_time DESC].  References to users
    are not checked: a statement may fail for them, as for other reasons. *)
From stdpp Require Import base strings list sorting.
From Stdlib Require Import ZArith Lia.
From S2P Require Import Prelude.
From S2P Require Approval.
#[local] Open Scope Z_scope.

(** [serde_json::Value]; a number is its text. *)
Inductive Json :=
| JNull | JBool (b : bool) | JNumber (text : string) | JString (s : string) | JArray (l : list Json)
| JObject (members : list (string * Json)).
Definition json_get (key : string) (j : Json) : option Json :=
  match j with JObject members => table_lookup key members | _ => None end.
Definition json_as_str (j : Json) : option string := match j with JString s => Some s | _ => None end.
Definition json_as_array (j : Json) : option (list Json) := match j with JArray l => Some l | _ => None end.

Record Certificate := {
  c_id : Uuid; c_ca_id : Uuid; c_serial_number : list u8; c_subject_dn : string;
  c_issuer_dn : string; c_not_before : DateTime; c_not_after : DateTime;
  c_der_encoded : list u8; c_pem_encoded : string; c_revoked : bool;
  c_revocation_time : option DateTime; c_revocation_reason : option Z;
  c_issuer_service : option string; c_requestor : option string; c_profile_name : option string;
  c_metadata : option Json; c_request_id : option Uuid
}.

Record Crl := {
  l_ca_id : Uuid; l_crl_number : Z; l_this_update : DateTime; l_next_update : DateTime;
  l_der_encoded : list u8; l_pem_encoded : string; l_is_delta : bool; l_base_crl_number : option Z
}.

Abbreviation ApprovalRequestRecord := (Approval.ApprovalRequestRecord Json).
Record ApprovalDecisionRecord := {
  dr_id : Uuid; dr_request_id : Uuid; dr_approver_id : Uuid; dr_approver_username : string;
  dr_approver_roles : list string; dr_decision : string; dr_reason : option string;
  dr_justification : option string; dr_decided_at : DateTime; dr_metadata : option Json
}.

Record CaDb := {
  certificates : list Certificate; crls : list Crl; approvals : list ApprovalRequestRecord;
  decisions : list ApprovalDecisionRecord
}.
Definition set_certificates (cs : list Certificate) (d : CaDb) : CaDb :=
  {| certificates := cs; crls := crls d; approvals := approvals d; decisions := decisions d |}.
Definition set_crls (ls : list Crl) (d : CaDb) : CaDb :=
  {| certificates := certificates d; crls := ls; approvals := approvals d; decisions := decisions d |}.
Definition set_approvals (rs : list ApprovalRequestRecord) (d : CaDb) : CaDb :=
  {| certificates := certificates d; crls := crls d; approvals := rs; decisions := decisions d |}.
Definition set_decisions (ds : list ApprovalDecisionRecord) (d : CaDb) : CaDb :=
  {| certificates := certificates d; crls := crls d; approvals := approvals d; decisions := ds |}.

(** Later revocations come first; NULLs do before all. *)
Definition revoked_later (a b : Certificate) : Prop :=
  match c_revocation_time a, c_revocation_time b with
  | None, _ => True
  | Some _, None => False
  | Some s, Some t => t ≤ s
  end.
Class RevokedOrder := {
  by_revocation_time : list Certificate → list Certificate;
  by_revocation_time_perm l : by_revocation_time l ≡ₚ l;
  by_revocation_time_sorted l : StronglySorted revoked_later (by_revocation_time l)
}.

Section store.
Context {HO : RevokedOrder}.

Definition Sql (A : Type) : Type := DateTime → CaDb → result A string * CaDb.

Definition NOT_FOUND : string := "Certificate not found or already revoked".
Definition DUPLICATE : string := "Certificate with this serial number already exists".
Definition DUPLICATE_CRL : string := "duplicate key value violates unique constraint".

(** ** Certificates *)

Definition find_by_id (id : Uuid) : Sql (option Certificate) :=
  λ _ d, (Ok (find (λ c, bool_decide (c_id c = id)) (certificates d)), d).

Definition revoked_of (ca : Uuid) (c : Certificate) : bool :=
  bool_decide (c_ca_id c = ca) && c_revoked c.
Definition find_revoked (ca : Uuid) : Sql (list Certificate) :=
  λ _ d, (Ok (by_revocation_time (List.filter (revoked_of ca) (certificates d))), d).

Definition set_revoked (now : DateTime) (reason : Z) (c : Certificate) : Certificate :=
  {| c_id := c_id c; c_ca_id := c_ca_id c; c_serial_number := c_serial_number c;
     c_subject_dn := c_subject_dn c; c_issuer_dn := c_issuer_dn c;
     c_not_before := c_not_before c; c_not_after := c_not_after c;
     c_der_encoded := c_der_encoded c; c_pem_encoded := c_pem_encoded c; c_revoked := true;
     c_revocation_time := Some now; c_revocation_reason := Some reason;
     c_issuer_service := c_issuer_service c; c_requestor := c_requestor c;
     c_profile_name := c_profile_name c; c_metadata := c_metadata c; c_request_id := c_request_id c |}.
Definition unrevoked (id : Uuid) (c : Certificate) : bool :=
  bool_decide (c_id c = id) && negb (c_revoked c).
Definition revoke_row (id : Uuid) (reason : Z) : Sql unit :=
  λ now d,
    if existsb (unrevoked id) (certificates d) then
      (Ok tt, set_certificates
                ((λ c, if unrevoked id c then set_revoked now reason c else c) <$> certificates d) d)
    else (Err NOT_FOUND, d).

Definition is_valid (id : Uuid) : Sql bool :=
  λ now d, (Ok (existsb (λ c, unrevoked id c && (c_not_before c <=? now) && (now <? c_not_after c))
                 (certificates d)), d).

Definition certificate_clash (a b : Certificate) : bool :=
  bool_decide (c_id a = c_id b) ||
  (bool_decide (c_ca_id a = c_ca_id b) && bool_decide (c_serial_number a = c_serial_number b)).
Definition create (c : Certificate) : Sql Certificate :=
  λ _ d, if existsb (certificate_clash c) (certificates d) then (Err DUPLICATE, d)
         else (Ok c, set_certificates (certificates d ++ [c]) d).

(** ** CRLs *)

Definition crls_of (ca : Uuid) (d : CaDb) : list Crl :=
  List.filter (λ l, bool_decide (l_ca_id l = ca)) (crls d).

Definition create_crl (l : Crl) : Sql Crl :=
  λ _ d, if existsb (λ m, bool_decide (l_crl_number m = l_crl_number l)) (crls_of (l_ca_id l) d)
         then (Err ("Failed to persist CRL: " +:+ DUPLICATE_CRL), d)
         else (Ok l, set_crls (crls d ++ [l]) d).

(** [ORDER BY crl_number DESC LIMIT 1]; numbers are unique. *)
Fixpoint highest (ls : list Crl) : option Crl :=
  match ls with
  | [] => None
  | l :: ls =>
      match highest ls with
      | Some m => Some (if l_crl_number l <? l_crl_number m then m else l)
      | None => Some l
      end
  end.
Definition find_latest (ca : Uuid) (delta : bool) : Sql (option Crl) :=
  λ _ d, (Ok (highest (List.filter (λ l, Bool.eqb (l_is_delta l) delta) (crls_of ca d))), d).
Definition find_latest_crl (ca : Uuid) : Sql (option Crl) := find_latest ca false.
Definition find_latest_delta_crl (ca : Uuid) : Sql (option Crl) := find_latest ca true.

(** [COALESCE(MAX(crl_number), 0)]. *)
Definition max_number (ls : list Crl) : Z :=
  match l_crl_number <$> ls with [] => 0 | n :: ns => foldr Z.max n ns end.
Definition next_crl_number (ca : Uuid) : Sql Z :=
  λ _ d, (Ok (max_number (crls_of ca d) + 1), d).

(** ** Approvals *)

Definition CONSTRAINT : string := "constraint violation".
Definition NO_ROW : string := "no rows returned by a query that expected to return at least one row".
Definition query_error (context e : string) : string := context +:+ ": " +:+ e.

(** The CHECK constraints of [approval_requests]. *)
Definition request_row_ok (r : ApprovalRequestRecord) : bool :=
  contains (Approval.rec_request_type r) ["issuance"; "revocation"; "renewal"] &&
  contains (Approval.rec_status r) ["pending"; "approved"; "rejected"; "expired"; "completed"] &&
  (Approval.rec_created_at r <? Approval.rec_expires_at r) &&
  (negb (bool_decide (Approval.rec_status r = "approved")) ||
   bool_decide (is_Some (Approval.rec_approved_at r))).

Definition create_request (r : ApprovalRequestRecord) : Sql ApprovalRequestRecord :=
  λ _ d,
    if existsb (λ r', bool_decide (Approval.rec_id r' = Approval.rec_id r)) (approvals d) ||
       negb (request_row_ok r)
    then (Err (query_error "Failed to create approval request" CONSTRAINT), d)
    else (Ok r, set_approvals (approvals d ++ [r]) d).
Definition get_request (id : Uuid) : Sql (option ApprovalRequestRecord) :=
  λ _ d, (Ok (find (λ r, bool_decide (Approval.rec_id r = id)) (approvals d)), d).

(** An UPDATE of the row [id] that sets its status, and the other columns that
    any of them sets. *)
Definition set_row (status : string) (certificate : option Uuid)
    (approved_at completed_at : option DateTime) (r : ApprovalRequestRecord) : ApprovalRequestRecord :=
  {| Approval.rec_id := Approval.rec_id r; Approval.rec_request_type := Approval.rec_request_type r;
     Approval.rec_csr_id := Approval.rec_csr_id r; Approval.rec_certificate_id := certificate;
     Approval.rec_requestor_id := Approval.rec_requestor_id r;
     Approval.rec_requestor_username := Approval.rec_requestor_username r;
     Approval.rec_requestor_roles := Approval.rec_requestor_roles r; Approval.rec_status := status;
     Approval.rec_request_details := Approval.rec_request_details r;
     Approval.rec_created_at := Approval.rec_created_at r;
     Approval.rec_expires_at := Approval.rec_expires_at r; Approval.rec_approved_at := approved_at;
     Approval.rec_completed_at := completed_at; Approval.rec_metadata := Approval.rec_metadata r |}.
Definition update_request (context : string) (id : Uuid)
    (f : ApprovalRequestRecord → ApprovalRequestRecord) : Sql ApprovalRequestRecord :=
  λ _ d,
    match find (λ r, bool_decide (Approval.rec_id r = id)) (approvals d) with
    | None => (Err (query_error context NO_ROW), d)
    | Some r =>
        if request_row_ok (f r) then
          (Ok (f r), set_approvals
             ((λ r, if bool_decide (Approval.rec_id r = id) then f r else r) <$> approvals d) d)
        else (Err (query_error context CONSTRAINT), d)
    end.
Definition update_request_status (id : Uuid) (status : string) (approved_at : option DateTime)
    : Sql ApprovalRequestRecord :=
  update_request "Failed to update request status" id
    (λ r, set_row status (Approval.rec_certificate_id r) approved_at (Approval.rec_completed_at r) r).
(** [certificate_id] references a certificate. *)
Definition mark_request_completed (now : DateTime) (id certificate : Uuid) : Sql ApprovalRequestRecord :=
  λ db_now d,
    if existsb (λ c, bool_decide (c_id c = certificate)) (certificates d) then
      update_request "Failed to mark request completed" id
        (λ r, set_row "completed" (Some certificate) (Approval.rec_approved_at r) (Some now) r) db_now d
    else (Err (query_error "Failed to mark request completed" CONSTRAINT), d).

Definition decision_clash (a b : ApprovalDecisionRecord) : bool :=
  bool_decide (dr_id a = dr_id b) ||
  (bool_decide (dr_request_id a = dr_request_id b) && bool_decide (dr_approver_id a = dr_approver_id b)).
Definition create_decision (r : ApprovalDecisionRecord) : Sql ApprovalDecisionRecord :=
  λ _ d,
    if existsb (λ a, bool_decide (Approval.rec_id a = dr_request_id r)) (approvals d) &&
       contains (dr_decision r) ["approved"; "rejected"; "needs_info"; "deferred"] &&
       negb (existsb (decision_clash r) (decisions d))
    then (Ok r, set_decisions (decisions d ++ [r]) d)
    else (Err (query_error "Failed to create approval decision" CONSTRAINT), d).
End store.
