(* ===== verification/CaCore.v ===== *)
(** * What the CA's operations share

    Errors ([crates/ostrich-ca/src/error.rs]), audit events and the audit
    identity of [issuance.rs], the key handle of
    [crates/ostrich-crypto/src/key.rs], and the effects of the CA's programs:
    the SQL statements, the clock, randomness, the signature and the audit
    record.  An audit event is what its builder is given; its id and time are
    the sink's concern (AuditLog.v).  A JSON object is the map of its members.
    [escape_debug], which reads Unicode's tables, and the texts of other
    crates' errors are parameters. *)
From stdpp Require Import base strings list gmap.
From Stdlib Require Import Ascii ZArith Lia.
From S2P Require Import Prelude Programs Der Signing Algorithm X509Names Csr CaStore.
From S2P Require AuditLog Approval.
#[local] Open Scope Z_scope.

(** ** Errors *)

(** [WorkflowError] has the four errors of the approval engine. *)
Inductive Error :=
| IssuanceError (s : string) | RevocationError (s : string) | CrlGeneration (s : string)
| ProfileNotFound (s : string) | InvalidRequest (s : string) | WorkflowError (e : Approval.CaError)
| ApprovalRequestNotFound (id : Uuid) | ProfileNotPermitted | Internal (s : string)
| Database (s : string) | Crypto (s : string) | X509 (e : X509Error) | Audit (s : string)
| Common (s : string).

(** ** Audit events *)

Inductive Detail := DStr (s : string) | DInt (z : Z) | DBool (b : bool) | DNull.
Record CaEvent := {
  ce_type : AuditLog.EventType; ce_actor : string; ce_target : string; ce_action : string;
  ce_outcome : AuditLog.EventOutcome; ce_details : gmap string Detail
}.
(** [audit_event.outcome = EventOutcome::Failure]. *)
Definition failed (e : CaEvent) : CaEvent :=
  {| ce_type := ce_type e; ce_actor := ce_actor e; ce_target := ce_target e;
     ce_action := ce_action e; ce_outcome := AuditLog.Failure; ce_details := ce_details e |}.
Definition with_failure (failure : string) (e : CaEvent) : CaEvent :=
  {| ce_type := ce_type e; ce_actor := ce_actor e; ce_target := ce_target e;
     ce_action := ce_action e; ce_outcome := AuditLog.Failure;
     ce_details := <["failure" := DStr failure]> (ce_details e) |}.

Record AuthenticatedCaller := { subject_dn : string; issuer_dn : string; serial_hex : string }.

Definition audit_identity (requestor : string) (caller : option string)
    : string * option string :=
  match caller with
  | Some caller => (caller, if bool_decide (requestor = "") then None else Some requestor)
  | None => (requestor, None)
  end.

Definition add_caller_details (details : gmap string Detail) (caller : option AuthenticatedCaller)
    (on_behalf_of : option string) : gmap string Detail :=
  let details := match caller with
    | Some c => <["authenticated_caller_serial" := DStr (serial_hex c)]>
                (<["authenticated_caller_issuer" := DStr (issuer_dn c)]>
                (<["authenticated_caller" := DStr (subject_dn c)]> details))
    | None => details
    end in
  match on_behalf_of with
  | Some principal => <["on_behalf_of" := DStr principal]> details
  | None => details
  end.

(** ** Effects *)

Inductive ProviderId := Pkcs11 (slot_id : Z) | Software.
Record KeyHandle := {
  kh_provider_id : ProviderId; kh_key_id : list u8; kh_key_type : KeyType; kh_algorithm : Algorithm;
  kh_label : string
}.

Inductive CaE : Type → Type :=
| ESql {A} (statement : Sql A) : CaE (result A string)
| ENow : CaE DateTime
| EUuid : CaE Uuid
(** [fips_random_bytes], which gives that many bytes or fails. *)
| ERandom (n : nat) : CaE (result (list u8) string)
| ESign (key : KeyHandle) (a : Algorithm) (tbs : list u8) : CaE (result (list u8) string)
(** [DbUserRepository::ensure_user]. *)
| EEnsureUser (id : Uuid) (subject : string) : CaE (result unit string)
| ERecord (ev : CaEvent) : CaE (result unit string).
Abbreviation Prog := (Programs.Prog CaE).
Abbreviation M A := (Programs.Prog CaE (result A Error)).

Definition sql {A} (f : Sql A) : Prog (result A string) := call (ESql f).
(** [repository.call(..).await?]. *)
Definition try_sql {A} (f : Sql A) : M A :=
  let^ r := sql f in Done (match r with Ok x => Ok x | Err e => Err (Database e) end).
(** [self.audit_sink.record(..).await.map_err(Error::Audit)?]. *)
Definition record_audit (e : CaEvent) : M unit :=
  let^ r := call (ERecord e) in
  Done (match r with Ok _ => Ok tt | Err e => Err (Audit e) end).
(** [map_err] into an error with a text, and [?] on an error of the X.509
    library. *)
Definition map_text {A E} (into : string → Error) (text : E → string) (context : string)
    (r : result A E) : result A Error :=
  match r with Ok x => Ok x | Err e => Err (into (context +:+ text e)) end.
Definition x509 {A} (r : result A X509Error) : result A Error :=
  match r with Ok x => Ok x | Err e => Err (X509 e) end.

Class CaLib := {
  ca_x509 :: X509Lib;
  ca_csr :: CsrLib;
  ca_verify :: VerifyLib;
  ca_lowercase :: Lowercase;
  uuid_to_string : Uuid → string;
  uuid_parse : string → option Uuid;
  hex_encode : list u8 → string;
  escape_debug : string → string;
  debug_key : KeyType → string;
  debug_algorithm : Algorithm → string;
  debug_length : nat → string;
  crypto_text : CryptoErr → string;
  verify_text : CryptoError → string;
  (** [encode_string(label, LF, der)], [decode_vec]. *)
  pem_encode : string → list u8 → result string string;
  pem_decode : string → result (string * list u8) string;
  (** [Display] of x509-cert's [Name], and its decoders of three extensions:
      the purposes, the key identifier of the subject and of the authority. *)
  name_to_string : Name → option string;
  eku_from_der : list u8 → result (list string) string;
  ski_from_der : list u8 → result (list u8) string;
  aki_from_der : list u8 → result (option (list u8)) string
}.

Definition from_record {HL : CaLib} : ApprovalRequestRecord → Approval.ApprovalRequest Json :=
  @Approval.from_record Json ca_lowercase.
