(* ===== verification/CrlBuilder.v ===== *)
(** * Building a CRL

    [crates/ostrich-x509/src/crl.rs] and [builder/crl.rs]: the builder, the
    to-be-signed list and its conversion to the structures of the [x509-cert]
    crate (X509Names.v).  Adding hours to an instant past chrono's last
    year panics; instants here are unbounded. *)
From stdpp Require Import base strings list.
From Stdlib Require Import ZArith Lia.
From S2P Require Import Prelude Algorithm Der OcspRequest Signing X509Names.
#[local] Open Scope Z_scope.

(** ** Reasons *)

Inductive RevocationReason :=
| Unspecified | KeyCompromise | CaCompromise | AffiliationChanged | Superseded
| CessationOfOperation | CertificateHold | RemoveFromCrl | PrivilegeWithdrawn | AaCompromise.
#[export] Instance RevocationReason_eq_dec : EqDecision RevocationReason.
Proof. solve_decision. Defined.

Definition from_i32 (value : Z) : option RevocationReason :=
  match value with
  | 0 => Some Unspecified | 1 => Some KeyCompromise | 2 => Some CaCompromise
  | 3 => Some AffiliationChanged | 4 => Some Superseded | 5 => Some CessationOfOperation
  | 6 => Some CertificateHold | 8 => Some RemoveFromCrl | 9 => Some PrivilegeWithdrawn
  | 10 => Some AaCompromise | _ => None
  end.
Definition as_i32 (r : RevocationReason) : Z :=
  match r with
  | Unspecified => 0 | KeyCompromise => 1 | CaCompromise => 2 | AffiliationChanged => 3
  | Superseded => 4 | CessationOfOperation => 5 | CertificateHold => 6 | RemoveFromCrl => 8
  | PrivilegeWithdrawn => 9 | AaCompromise => 10
  end.

(** ** The builder *)

Record RevokedEntry := {
  re_serial_number : list u8; re_revocation_time : DateTime; re_reason : option RevocationReason
}.

Record CrlBuilder := {
  cb_issuer : option DistinguishedName; cb_this_update : option DateTime;
  cb_next_update : option DateTime; cb_crl_number : option Z;
  cb_revoked : list RevokedEntry; cb_authority_key_id : option (list u8);
  cb_signature_algorithm : option Algorithm; cb_base_crl_number : option Z;
  cb_freshest_crl_url : option string; cb_indirect_crl : bool
}.

Definition new_builder : CrlBuilder :=
  {| cb_issuer := None; cb_this_update := None; cb_next_update := None; cb_crl_number := None;
     cb_revoked := []; cb_authority_key_id := None; cb_signature_algorithm := None;
     cb_base_crl_number := None; cb_freshest_crl_url := None; cb_indirect_crl := false |}.

Definition delta_crl_indicator (base : Z) (b : CrlBuilder) : CrlBuilder :=
  {| cb_issuer := cb_issuer b; cb_this_update := cb_this_update b;
     cb_next_update := cb_next_update b; cb_crl_number := cb_crl_number b;
     cb_revoked := cb_revoked b; cb_authority_key_id := cb_authority_key_id b;
     cb_signature_algorithm := cb_signature_algorithm b; cb_base_crl_number := Some base;
     cb_freshest_crl_url := cb_freshest_crl_url b; cb_indirect_crl := cb_indirect_crl b |}.
Definition freshest_crl (url : string) (b : CrlBuilder) : CrlBuilder :=
  {| cb_issuer := cb_issuer b; cb_this_update := cb_this_update b;
     cb_next_update := cb_next_update b; cb_crl_number := cb_crl_number b;
     cb_revoked := cb_revoked b; cb_authority_key_id := cb_authority_key_id b;
     cb_signature_algorithm := cb_signature_algorithm b;
     cb_base_crl_number := cb_base_crl_number b; cb_freshest_crl_url := Some url;
     cb_indirect_crl := cb_indirect_crl b |}.
Definition signature_algorithm (a : Algorithm) (b : CrlBuilder) : CrlBuilder :=
  {| cb_issuer := cb_issuer b; cb_this_update := cb_this_update b;
     cb_next_update := cb_next_update b; cb_crl_number := cb_crl_number b;
     cb_revoked := cb_revoked b; cb_authority_key_id := cb_authority_key_id b;
     cb_signature_algorithm := Some a; cb_base_crl_number := cb_base_crl_number b;
     cb_freshest_crl_url := cb_freshest_crl_url b; cb_indirect_crl := cb_indirect_crl b |}.
Definition add_revoked (e : RevokedEntry) (b : CrlBuilder) : CrlBuilder :=
  {| cb_issuer := cb_issuer b; cb_this_update := cb_this_update b;
     cb_next_update := cb_next_update b; cb_crl_number := cb_crl_number b;
     cb_revoked := cb_revoked b ++ [e]; cb_authority_key_id := cb_authority_key_id b;
     cb_signature_algorithm := cb_signature_algorithm b;
     cb_base_crl_number := cb_base_crl_number b; cb_freshest_crl_url := cb_freshest_crl_url b;
     cb_indirect_crl := cb_indirect_crl b |}.

Definition hours (n : Z) : Z := seconds (n * 3600).

(** [CrlGenerator]; the code never sets its authority key identifier. *)
Record CrlGenerator := {
  cg_issuer : DistinguishedName; cg_validity_hours : Z; cg_authority_key_id : option (list u8)
}.
Definition new_generator (issuer : DistinguishedName) (validity_hours : Z) : CrlGenerator :=
  {| cg_issuer := issuer; cg_validity_hours := validity_hours; cg_authority_key_id := None |}.

(** [now] is the clock at [Utc::now()]; [generate] never fails. *)
Definition generate (g : CrlGenerator) (now : DateTime) (crl_number : Z)
    (revoked_certificates : list RevokedEntry) : CrlBuilder :=
  foldl (λ b e, add_revoked e b)
    {| cb_issuer := Some (cg_issuer g); cb_this_update := Some now;
       cb_next_update := Some (now + hours (cg_validity_hours g));
       cb_crl_number := Some crl_number; cb_revoked := [];
       cb_authority_key_id := cg_authority_key_id g; cb_signature_algorithm := None;
       cb_base_crl_number := None; cb_freshest_crl_url := None; cb_indirect_crl := false |}
    revoked_certificates.

Record TbsCrl := {
  tc_issuer : DistinguishedName; tc_this_update : DateTime; tc_next_update : DateTime;
  tc_crl_number : option Z; tc_revoked : list RevokedEntry;
  tc_authority_key_id : option (list u8); tc_signature_algorithm : option Algorithm;
  tc_base_crl_number : option Z; tc_freshest_crl_url : option string; tc_indirect_crl : bool
}.

(** [now] is read when the builder has no [this_update]. *)
Definition build_tbs (now : DateTime) (b : CrlBuilder) : result TbsCrl X509Error :=
  let? issuer := ok_or (cb_issuer b) (Build "Issuer is required") in
  let this_update := default now (cb_this_update b) in
  let? next_update := ok_or (cb_next_update b) (Build "Next update is required") in
  if next_update <=? this_update then
    Err (Build "Next update must be later than this update")
  else
    Ok {| tc_issuer := issuer; tc_this_update := this_update; tc_next_update := next_update;
          tc_crl_number := cb_crl_number b; tc_revoked := cb_revoked b;
          tc_authority_key_id := cb_authority_key_id b;
          tc_signature_algorithm := cb_signature_algorithm b;
          tc_base_crl_number := cb_base_crl_number b;
          tc_freshest_crl_url := cb_freshest_crl_url b; tc_indirect_crl := cb_indirect_crl b |}.

(** ** Encoding *)

(** The reason code of an entry extension. *)
Definition reason_code (r : RevocationReason) : u8 :=
  match r with
  | Unspecified => 0 | KeyCompromise => 1 | CaCompromise => 2 | AffiliationChanged => 3
  | Superseded => 4 | CessationOfOperation => 5 | CertificateHold => 6 | RemoveFromCrl => 8
  | PrivilegeWithdrawn => 9 | AaCompromise => 10
  end.

Definition ID_CE_CRL_REASONS : string := "2.5.29.21".
Definition ID_CE_CRL_NUMBER : string := "2.5.29.20".
Definition ID_CE_AUTHORITY_KEY_IDENTIFIER : string := "2.5.29.35".
Definition ID_CE_DELTA_CRL_INDICATOR : string := "2.5.29.27".
Definition ID_CE_FRESHEST_CRL : string := "2.5.29.46".
Definition ID_CE_ISSUING_DISTRIBUTION_POINT : string := "2.5.29.28".

Section encoding.
Context {HX : X509Lib} (debug_algorithm : Algorithm → string) (crypto_text : CryptoErr → string).

(** The fallback has absent parameters. *)
Definition get_signature_algorithm (t : TbsCrl) : result (string * bool) X509Error :=
  match tc_signature_algorithm t with
  | Some a =>
      match algorithm_identifier debug_algorithm a with
      | Ok id => Ok id
      | Err e => Err (XEncoding ("signature algorithm: " +:+ crypto_text e))
      end
  | None => Ok ("1.2.840.113549.1.1.11", false)
  end.

(** [Uint::new(&n.to_be_bytes())] of a [u64], in DER. *)
Definition uint_der (n : Z) : list u8 := unsigned_integer (to_be_bytes 8 n).

Definition build_extensions (t : TbsCrl) : result (option (list Extension)) X509Error :=
  let? number := optional_extension (tc_crl_number t) ID_CE_CRL_NUMBER false (λ n, Ok (uint_der n)) in
  let? aki := optional_extension (tc_authority_key_id t) ID_CE_AUTHORITY_KEY_IDENTIFIER false
                (λ k, encoding "Failed to encode AKI: " (aki_to_der k)) in
  let? delta := optional_extension (tc_base_crl_number t) ID_CE_DELTA_CRL_INDICATOR true
                  (λ n, Ok (uint_der n)) in
  let? freshest := optional_extension (tc_freshest_crl_url t) ID_CE_FRESHEST_CRL false
                     (λ url, let? _ := encoding "Invalid freshest CRL URI: " (ia5_string_new url) in
                             encoding "Failed to encode freshest CRL: " (freshest_crl_to_der url)) in
  let? idp := optional_extension (if tc_indirect_crl t then Some tt else None)
                ID_CE_ISSUING_DISTRIBUTION_POINT true
                (λ _, encoding "Failed to encode IDP: " idp_to_der) in
  match number ++ aki ++ delta ++ freshest ++ idp with
  | [] => Ok None
  | l => Ok (Some l)
  end.

Definition revoked_cert (e : RevokedEntry) : result RevokedCert X509Error :=
  let? serial := encoding "Invalid serial number: " (serial_number_new (re_serial_number e)) in
  let? t := datetime_to_time (re_revocation_time e) in
  Ok {| rc_serial_number := serial; rc_revocation_date := t;
        rc_extensions := (λ r, [extension ID_CE_CRL_REASONS false [10; 1; reason_code r]])
                           <$> re_reason e |}.

Fixpoint revoked_certs (l : list RevokedEntry) : result (list RevokedCert) X509Error :=
  match l with
  | [] => Ok []
  | e :: l => let? c := revoked_cert e in let? cs := revoked_certs l in Ok (c :: cs)
  end.

Definition tbs_cert_list (t : TbsCrl) : result TbsCertList X509Error :=
  let? issuer := dn_to_name (tc_issuer t) in
  let? this_update := datetime_to_time (tc_this_update t) in
  let? next_update := datetime_to_time (tc_next_update t) in
  let? revoked := revoked_certs (tc_revoked t) in
  let? algorithm := get_signature_algorithm t in
  let? extensions := build_extensions t in
  Ok {| tl_signature := algorithm; tl_issuer := issuer; tl_this_update := this_update;
        tl_next_update := Some next_update;
        tl_revoked := match revoked with [] => None | _ => Some revoked end;
        tl_extensions := extensions |}.

(** [TbsCrl::to_der]. *)
Definition to_der (t : TbsCrl) : result (list u8) X509Error :=
  let? tbs := tbs_cert_list t in encoding "Failed to encode TBS CRL: " (tbs_to_der tbs).
End encoding.

(** ** Lemmas *)

Lemma generate_fields g now n l :
  generate g now n l =
  {| cb_issuer := Some (cg_issuer g); cb_this_update := Some now;
     cb_next_update := Some (now + hours (cg_validity_hours g)); cb_crl_number := Some n;
     cb_revoked := l; cb_authority_key_id := cg_authority_key_id g;
     cb_signature_algorithm := None; cb_base_crl_number := None; cb_freshest_crl_url := None;
     cb_indirect_crl := false |}.
Proof.
  unfold generate.
  assert (∀ acc, foldl (λ b e, add_revoked e b)
    {| cb_issuer := Some (cg_issuer g); cb_this_update := Some now;
       cb_next_update := Some (now + hours (cg_validity_hours g)); cb_crl_number := Some n;
       cb_revoked := acc; cb_authority_key_id := cg_authority_key_id g;
       cb_signature_algorithm := None; cb_base_crl_number := None; cb_freshest_crl_url := None;
       cb_indirect_crl := false |} l =
    {| cb_issuer := Some (cg_issuer g); cb_this_update := Some now;
       cb_next_update := Some (now + hours (cg_validity_hours g)); cb_crl_number := Some n;
       cb_revoked := acc ++ l; cb_authority_key_id := cg_authority_key_id g;
       cb_signature_algorithm := None; cb_base_crl_number := None; cb_freshest_crl_url := None;
       cb_indirect_crl := false |}) as Hfold.
  { induction l as [|e l IH]; intros acc; cbn [foldl]; [by rewrite app_nil_r|].
    unfold add_revoked at 2. cbn. by rewrite IH, <- app_assoc. }
  by rewrite Hfold.
Qed.

Lemma from_i32_as_i32 r : from_i32 (as_i32 r) = Some r.
Proof. by destruct r. Qed.
