(* ===== verification/Revocation.v ===== *)
(** * Revocation and CRL generation

    [crates/ostrich-ca/src/revocation.rs], over the tables of CaStore.v, the
    builder of CrlBuilder.v and the effects of CaCore.v. *)
From stdpp Require Import base strings list gmap.
From Stdlib Require Import Ascii ZArith Lia.
From S2P Require Import Prelude Programs Algorithm Der OcspRequest Signing X509Names CaStore CaCore CrlBuilder.
From S2P Require AuditLog.
#[local] Open Scope Z_scope.

Inductive CrlActor := System | User (name : string) | Peer (caller : AuthenticatedCaller)
| Unauthenticated.

Definition CRL_ACTION_GENERATE : string := "generate".
Definition CRL_ACTION_GENERATE_DELTA : string := "generate_delta".
Definition MAX_AUDITED_TARGET_CHARS : nat := 64.

(** A byte that starts a character of UTF-8, and the first [n] characters. *)
Definition starts_char (c : ascii) : bool :=
  let b := Ascii.N_of_ascii c in (b <? 128)%N || (192 <=? b)%N.
Fixpoint take_chars (n : nat) (s : string) : string :=
  match s with
  | EmptyString => EmptyString
  | String c s' =>
      if starts_char c then
        match n with O => EmptyString | S n' => String c (take_chars n' s') end
      else String c (take_chars n s')
  end.

Record RevocationRequest := {
  certificate_id : Uuid; reason : RevocationReason; requestor : string;
  authenticated_caller : option AuthenticatedCaller; justification : option string
}.
Record GeneratedCrl := {
  g_crl_number : Z; g_this_update : DateTime; g_next_update : DateTime; g_revoked_count : nat;
  g_der_encoded : list u8; g_pem_encoded : string
}.
Record RevocationManager := {
  ca_key : KeyHandle; ca_certificate_id : Uuid; crl_validity_hours : Z;
  delta_crl_url : option string
}.

Section manager.
Context {HL : CaLib} {HO : RevokedOrder}.

Definition crl_event (ca : Uuid) (actor : CrlActor) (action : string)
    (outcome : AuditLog.EventOutcome) (failure : option string) : CaEvent :=
  let '(name, caller) := match actor with
    | System => ("system", None)
    | User user => (user, None)
    | Peer caller => (subject_dn caller, Some caller)
    | Unauthenticated => ("unauthenticated", None)
    end in
  let details := match failure with
    | Some failure => {["failure" := DStr failure]}
    | None => ∅
    end in
  {| ce_type := AuditLog.CrlGeneration; ce_actor := name; ce_target := uuid_to_string ca;
     ce_action := action; ce_outcome := outcome;
     ce_details := add_caller_details details caller None |}.
Definition crl_audit_event (ca : Uuid) (actor : CrlActor) (action : string) : CaEvent :=
  crl_event ca actor action AuditLog.Success None.
Definition crl_failure_event (ca : Uuid) (actor : CrlActor) (action failure : string) : CaEvent :=
  crl_event ca actor action AuditLog.Failure (Some failure).

Definition merge_details (e : CaEvent) (entries : list (string * Detail)) : CaEvent :=
  {| ce_type := ce_type e; ce_actor := ce_actor e; ce_target := ce_target e;
     ce_action := ce_action e; ce_outcome := ce_outcome e;
     ce_details := foldl (λ m '(k, v), <[k := v]> m) (ce_details e) entries |}.

Definition revocation_failure_event (target : string) (reason_code : Z) (requestor : string)
    (caller : option AuthenticatedCaller) (failure : string) : CaEvent :=
  let '(actor, on_behalf_of) := audit_identity requestor (subject_dn <$> caller) in
  {| ce_type := AuditLog.CertificateRevocation; ce_actor := actor;
     ce_target := escape_debug (take_chars MAX_AUDITED_TARGET_CHARS target);
     ce_action := "revoke"; ce_outcome := AuditLog.Failure;
     ce_details := add_caller_details
       (<["failure" := DStr failure]> {["reason" := DInt reason_code]}) caller on_behalf_of |}.

(** *** Revocation *)

(** A failure of the sink is only reported. *)
Definition record_rejected_revocation (target : string) (reason_code : Z) (requestor : string)
    (caller : option AuthenticatedCaller) (failure : string) : Prog unit :=
  let^ _ := call (ERecord (revocation_failure_event target reason_code requestor caller failure)) in
  Done tt.
Definition record_revocation_failure (rq : RevocationRequest) (failure : string) : Prog unit :=
  record_rejected_revocation (uuid_to_string (certificate_id rq)) (as_i32 (reason rq))
    (requestor rq) (authenticated_caller rq) failure.

Definition revocation_event (rq : RevocationRequest) (cert : Certificate) : CaEvent :=
  let '(actor, on_behalf_of) := audit_identity (requestor rq) (subject_dn <$> authenticated_caller rq) in
  {| ce_type := AuditLog.CertificateRevocation; ce_actor := actor;
     ce_target := uuid_to_string (certificate_id rq); ce_action := "revoke";
     ce_outcome := AuditLog.Success;
     ce_details := add_caller_details
       (<["subject" := DStr (c_subject_dn cert)]> (<["reason" := DInt (as_i32 (reason rq))]>
         {["serial_number" := DStr (hex_encode (c_serial_number cert))]}))
       (authenticated_caller rq) on_behalf_of |}.

Definition revoke (rq : RevocationRequest) : M unit :=
  let^ found := sql (find_by_id (certificate_id rq)) in
  match found with
  | Err e => let^ _ := record_revocation_failure rq "lookup_failed" in fail (Database e)
  | Ok None =>
      let^ _ := record_revocation_failure rq "certificate_not_found" in
      fail (InvalidRequest "Certificate not found")
  | Ok (Some cert) =>
      let audit_event := revocation_event rq cert in
      if c_revoked cert then
        let# _ := record_audit (with_failure "already_revoked" audit_event) in
        fail (RevocationError "Certificate already revoked")
      else
        let^ done := sql (revoke_row (certificate_id rq) (as_i32 (reason rq))) in
        match done with
        | Err e =>
            let^ _ := call (ERecord (with_failure "database_error" audit_event)) in
            fail (Database e)
        | Ok _ => record_audit audit_event
        end
  end.

Definition not_found {A} (r : result (option A) string) : result A Error :=
  match r with
  | Ok (Some x) => Ok x
  | Ok None => Err (InvalidRequest "Certificate not found")
  | Err e => Err (Database e)
  end.
Definition is_revoked (id : Uuid) : M bool :=
  let^ found := sql (find_by_id id) in
  let# cert := lift (not_found found) in ret (c_revoked cert).
Definition revocation_status (id : Uuid) : M (bool * option DateTime * option Z) :=
  let^ found := sql (find_by_id id) in
  let# cert := lift (not_found found) in
  ret (c_revoked cert, c_revocation_time cert, c_revocation_reason cert).

(** *** CRL generation *)

(** Programs that fail with the stage that failed. *)
Abbreviation Staged A := (Programs.Prog CaE (result A (string * Error))).
Definition stage {A E} (failure : string) (into : E → Error) (r : result A E)
    : result A (string * Error) :=
  match r with Ok x => Ok x | Err e => Err (failure, into e) end.
Definition stage_sql {A} (failure : string) (f : Sql A) : Staged A :=
  let^ r := sql f in Done (stage failure Database r).

Variable m : RevocationManager.

Definition crl_signature_algorithm : result Algorithm Error :=
  match recommended_signature_algorithm debug_key (kh_key_type (ca_key m)) with
  | Ok a => Ok a
  | Err _ => Err (CrlGeneration "CRL signing is not available for the CA key")
  end.

Definition crl_text {A} (context : string) (r : result A string) : result A Error :=
  match r with Ok x => Ok x | Err e => Err (CrlGeneration (context +:+ e)) end.

Definition build_signed_crl (tbs_der signature : list u8) : result (list u8) Error :=
  let? tbs := crl_text "Failed to parse TBS CRL: " (tbs_from_der tbs_der) in
  let? signature_value := crl_text "Failed to create signature BitString: "
                            (bit_string_from_bytes signature) in
  crl_text "Failed to encode CRL: "
    (certificate_list_to_der {| cl_tbs := tbs; cl_algorithm := tl_signature tbs;
                                cl_signature := signature_value |}).
Definition crl_der_to_pem (der : list u8) : result string Error :=
  crl_text "Failed to encode CRL PEM: " (pem_encode "X509 CRL" der).

(** The entry of a revoked certificate; a row without a revocation time has
    none. *)
Definition revoked_info (c : Certificate) : option RevokedEntry :=
  (λ t, {| re_serial_number := c_serial_number c; re_revocation_time := t;
           re_reason := c_revocation_reason c ≫= from_i32 |}) <$> c_revocation_time c.

(** From the builder to the stored CRL; [base] is the base CRL's number. *)
Definition sign_and_store (builder : CrlBuilder) (sig_alg : Algorithm) (crl_number : Z)
    (revoked_count : nat) (base : option Z) : Staged GeneratedCrl :=
  let# tbs_crl := lift (stage "crl_build_failed" X509 (build_tbs 0 builder)) in
  let# tbs_der := lift (stage "crl_build_failed" X509 (to_der debug_algorithm crypto_text tbs_crl)) in
  let^ signed := call (ESign (ca_key m) sig_alg tbs_der) in
  let# raw := lift (stage "signing_failed" Crypto signed) in
  let# signature := lift (stage "crl_encoding_failed"
    (λ e, CrlGeneration ("failed to encode signature: " +:+ crypto_text e))
    (encode_x509_signature debug_length sig_alg raw)) in
  let# der_encoded := lift (stage "crl_encoding_failed" id (build_signed_crl tbs_der signature)) in
  let# pem_encoded := lift (stage "crl_encoding_failed" id (crl_der_to_pem der_encoded)) in
  let# _ := stage_sql "crl_store_failed"
    (create_crl {| l_ca_id := ca_certificate_id m; l_crl_number := crl_number;
                   l_this_update := tc_this_update tbs_crl;
                   l_next_update := tc_next_update tbs_crl; l_der_encoded := der_encoded;
                   l_pem_encoded := pem_encoded;
                   l_is_delta := match base with Some _ => true | None => false end;
                   l_base_crl_number := base |}) in
  ret {| g_crl_number := wrap 64 crl_number; g_this_update := tc_this_update tbs_crl;
         g_next_update := tc_next_update tbs_crl; g_revoked_count := revoked_count;
         g_der_encoded := der_encoded; g_pem_encoded := pem_encoded |}.

Definition build_full_crl (issuer_dn : DistinguishedName) : Staged GeneratedCrl :=
  let# revoked_certs := stage_sql "revoked_lookup_failed" (find_revoked (ca_certificate_id m)) in
  let info := omap revoked_info revoked_certs in
  let# crl_number := stage_sql "crl_number_failed" (next_crl_number (ca_certificate_id m)) in
  let# sig_alg := lift (stage "unsupported_ca_key_type" id crl_signature_algorithm) in
  let^ now := call ENow in
  let builder := signature_algorithm sig_alg
    (generate (new_generator issuer_dn (crl_validity_hours m)) now (wrap 64 crl_number) info) in
  let builder := match delta_crl_url m with
                 | Some url => freshest_crl url builder
                 | None => builder
                 end in
  sign_and_store builder sig_alg crl_number (length info) None.

(** Revoked after the base CRL's [thisUpdate]. *)
Definition delta_info (base : Crl) (c : Certificate) : option RevokedEntry :=
  e ← revoked_info c;
  if re_revocation_time e <=? l_this_update base then None else Some e.

Definition build_delta_crl (issuer_dn : DistinguishedName) : Staged (GeneratedCrl * Z) :=
  let# found := stage_sql "base_crl_lookup_failed" (find_latest_crl (ca_certificate_id m)) in
  let# base := lift (ok_or found ("no_base_crl",
    CrlGeneration "no base CRL exists; generate a full CRL before a delta")) in
  let# revoked_certs := stage_sql "revoked_lookup_failed" (find_revoked (ca_certificate_id m)) in
  let info := omap (delta_info base) revoked_certs in
  let# crl_number := stage_sql "crl_number_failed" (next_crl_number (ca_certificate_id m)) in
  let# sig_alg := lift (stage "unsupported_ca_key_type" id crl_signature_algorithm) in
  let^ now := call ENow in
  let builder := delta_crl_indicator (wrap 64 (l_crl_number base)) (signature_algorithm sig_alg
    (generate (new_generator issuer_dn (crl_validity_hours m)) now (wrap 64 crl_number) info)) in
  let# crl := sign_and_store builder sig_alg crl_number (length info) (Some (l_crl_number base)) in
  ret (crl, l_crl_number base).

Definition record_crl_failure (actor : CrlActor) (action failure : string) : Prog unit :=
  let^ _ := call (ERecord (crl_failure_event (ca_certificate_id m) actor action failure)) in
  Done tt.

Definition generate_crl_by (issuer_dn : DistinguishedName) (actor : CrlActor) : M GeneratedCrl :=
  let^ built := build_full_crl issuer_dn in
  match built with
  | Ok crl =>
      let# _ := record_audit (merge_details
        (crl_audit_event (ca_certificate_id m) actor CRL_ACTION_GENERATE)
        [("crl_number", DInt (g_crl_number crl));
         ("revoked_count", DInt (Z.of_nat (g_revoked_count crl)))]) in
      ret crl
  | Err (failure, e) =>
      let^ _ := record_crl_failure actor CRL_ACTION_GENERATE failure in fail e
  end.
Definition generate_crl (issuer_dn : DistinguishedName) : M GeneratedCrl :=
  generate_crl_by issuer_dn System.

Definition generate_delta_crl_by (issuer_dn : DistinguishedName) (actor : CrlActor)
    : M GeneratedCrl :=
  let^ built := build_delta_crl issuer_dn in
  match built with
  | Ok (crl, base_crl_number) =>
      let# _ := record_audit (merge_details
        (crl_audit_event (ca_certificate_id m) actor CRL_ACTION_GENERATE_DELTA)
        [("crl_number", DInt (g_crl_number crl)); ("base_crl_number", DInt base_crl_number);
         ("revoked_count", DInt (Z.of_nat (g_revoked_count crl)))]) in
      ret crl
  | Err (failure, e) =>
      let^ _ := record_crl_failure actor CRL_ACTION_GENERATE_DELTA failure in fail e
  end.
Definition generate_delta_crl (issuer_dn : DistinguishedName) : M GeneratedCrl :=
  generate_delta_crl_by issuer_dn System.
End manager.
