(* ===== verification/Issuance.v ===== *)
(** * Certificate issuance

    [crates/ostrich-ca/src/issuance.rs]: what a request goes through between
    its arrival and the certificate's row, over the profiles of CertProfile.v,
    the request parser of Csr.v, the builder of CertBuilder.v and the tables of
    CaStore.v. *)
From stdpp Require Import base strings list gmap.
From Stdlib Require Import Ascii ZArith Lia.
From S2P Require Import Prelude Programs Der Signing Algorithm X509Names Csr CertParser CertProfile CertBuilder CaStore CaCore.
From S2P Require AuditLog Approval OcspResponder Pathval.
#[local] Open Scope Z_scope.
#[local] Existing Instances Approval.ApprovalStatus_eq_dec Approval.RequestType_eq_dec.

Record IssuanceRequest := {
  ir_profile_name : string; ir_subject : DistinguishedName; ir_subject_alt_names : list SubjectAltName;
  ir_public_key : list u8; ir_requestor : string;
  ir_authenticated_caller : option AuthenticatedCaller; ir_metadata : option Json;
  ir_csr_der : option (list u8); ir_approval_request_id : option Uuid; ir_request_id : option Uuid
}.
Record IssuedCertificate := {
  ic_certificate_id : Uuid; ic_serial_number : list u8; ic_der_encoded : list u8;
  ic_pem_encoded : string; ic_not_before : DateTime; ic_not_after : DateTime
}.

(** [ci_approval_repo] tells whether a repository is configured; the approval
    engine is not read. *)
Record CertificateIssuer := {
  ci_ca_key : KeyHandle; ci_ca_certificate : Certificate;
  ci_profiles : gmap string CertificateProfile; ci_approval_repo : bool;
  ci_approval_config : Approval.ApprovalConfig; ci_crl_distribution_url : option string;
  ci_ocsp_responder_url : option string; ci_ca_issuers_url : option string;
  ci_secure_defaults : SecureDefaults; ci_require_proof_of_possession : bool
}.
Definition new_issuer (key : KeyHandle) (certificate : Certificate) : CertificateIssuer :=
  {| ci_ca_key := key; ci_ca_certificate := certificate; ci_profiles := ∅; ci_approval_repo := false;
     ci_approval_config := Approval.default_config; ci_crl_distribution_url := None;
     ci_ocsp_responder_url := None; ci_ca_issuers_url := None; ci_secure_defaults := new_defaults;
     ci_require_proof_of_possession := true |}.
Definition add_profile (p : CertificateProfile) (i : CertificateIssuer) : CertificateIssuer :=
  {| ci_ca_key := ci_ca_key i; ci_ca_certificate := ci_ca_certificate i;
     ci_profiles := <[p_name p := p]> (ci_profiles i); ci_approval_repo := ci_approval_repo i;
     ci_approval_config := ci_approval_config i;
     ci_crl_distribution_url := ci_crl_distribution_url i;
     ci_ocsp_responder_url := ci_ocsp_responder_url i; ci_ca_issuers_url := ci_ca_issuers_url i;
     ci_secure_defaults := ci_secure_defaults i;
     ci_require_proof_of_possession := ci_require_proof_of_possession i |}.
(** [set_approval] and [set_approval_config]; the latter leaves the repository. *)
Definition with_approval (repo : bool) (c : Approval.ApprovalConfig) (i : CertificateIssuer)
    : CertificateIssuer :=
  {| ci_ca_key := ci_ca_key i; ci_ca_certificate := ci_ca_certificate i;
     ci_profiles := ci_profiles i; ci_approval_repo := repo; ci_approval_config := c;
     ci_crl_distribution_url := ci_crl_distribution_url i;
     ci_ocsp_responder_url := ci_ocsp_responder_url i; ci_ca_issuers_url := ci_ca_issuers_url i;
     ci_secure_defaults := ci_secure_defaults i;
     ci_require_proof_of_possession := ci_require_proof_of_possession i |}.
Definition set_approval (c : Approval.ApprovalConfig) : CertificateIssuer → CertificateIssuer :=
  with_approval true c.
Definition set_approval_config (c : Approval.ApprovalConfig) (i : CertificateIssuer)
    : CertificateIssuer := with_approval (ci_approval_repo i) c i.

Definition caller_profile_refusal (caller : option AuthenticatedCaller) (p : CertificateProfile)
    : option string :=
  if bool_decide (is_Some caller) && p_ca p then Some "ca_profile_not_permitted" else None.

(** The derived [Debug]. *)
Definition request_type_debug (t : Approval.RequestType) : string :=
  match t with
  | Approval.Issuance => "Issuance" | Approval.Revocation => "Revocation" | Approval.Renewal => "Renewal"
  end.

Definition issuer_service (requestor : string) : string :=
  if str_starts_with "est::" requestor then "EST"
  else if str_starts_with "acme::" requestor then "ACME"
  else if str_starts_with "scms::" requestor then "SCMS"
  else "CA".

(** The bytes drawn are twenty, so there is a first. *)
Definition serial_of_random (bytes : list u8) : result (list u8) Error :=
  match match bytes with
        | b :: rest => OcspResponder.serial_from_bytes (Z.land b 127 :: rest)
        | [] => OcspResponder.serial_from_bytes []
        end with
  | Ok serial => Ok serial
  | Err e => Err (Common e)
  end.

Section issuer.
Context {HL : CaLib}.

Definition generate_serial_number : M (list u8) :=
  let^ drawn := call (ERandom 20) in
  let# bytes := lift (match drawn with Ok b => Ok b | Err e => Err (Crypto e) end) in
  lift (serial_of_random bytes).

Definition ca_subject_public_key_info (ca_cert_der : list u8) : result (list u8) Error :=
  let? parsed := map_text IssuanceError x509_error_to_string "failed to parse CA certificate for AKI: "
                   (parse_certificate ca_cert_der) in
  Ok (Pathval.public_key parsed).

Definition issuance_text {A} : string → result A string → result A Error := map_text IssuanceError id.
Definition build_signed_certificate (tbs_der signature : list u8) : result (list u8) Error :=
  let? tbs := issuance_text "Failed to parse TBS certificate: " (certificate_tbs_from_der tbs_der) in
  let? signature_value := issuance_text "Failed to create signature BitString: "
                            (bit_string_from_bytes signature) in
  issuance_text "Failed to encode certificate: "
    (certificate_to_der {| xc_tbs := tbs; xc_algorithm := xt_signature tbs; xc_signature := signature_value |}).
Definition der_to_pem (der : list u8) : result string Error :=
  issuance_text "Failed to encode PEM: " (pem_encode "CERTIFICATE" der).

Definition issuance_event (rq : IssuanceRequest) (request_id : Uuid) : CaEvent :=
  let '(actor, on_behalf_of) :=
    audit_identity (ir_requestor rq) (subject_dn <$> ir_authenticated_caller rq) in
  {| ce_type := AuditLog.CertificateIssuance; ce_actor := actor;
     ce_target := to_string_rfc4514 (ir_subject rq); ce_action := "issue";
     ce_outcome := AuditLog.Success;
     ce_details := add_caller_details
       (<["request_id" := DStr (uuid_to_string request_id)]>
        (<["subject" := DStr (to_string_rfc4514 (ir_subject rq))]>
          {["profile" := DStr (ir_profile_name rq)]}))
       (ir_authenticated_caller rq) on_behalf_of |}.

(** *** The checks *)

(** A refusal that is recorded first. *)
Definition refused {A} (event : CaEvent) (message : string) : M A :=
  let# _ := record_audit (failed event) in fail (InvalidRequest message).

Definition check_approval (i : CertificateIssuer) (rq : IssuanceRequest) (event : CaEvent) : M unit :=
  if negb (Approval.require_approval (ci_approval_config i)) then ret tt
  else
    let# id := lift (ok_or (ir_approval_request_id rq)
      (InvalidRequest "Approval request ID is required when approval workflow is enabled")) in
    if negb (ci_approval_repo i) then fail (Internal "approval workflow unavailable")
    else
      let# found := try_sql (get_request id) in
      let# record := lift (ok_or found
        (InvalidRequest ("Approval request not found: " +:+ uuid_to_string id))) in
      let request := from_record record in
      if negb (bool_decide (Approval.status request = Approval.Approved)) then
        refused event ("Approval request must be in Approved status, current status: " +:+
                       Approval.approval_status_debug (Approval.status request))
      else if negb (bool_decide (Approval.request_type request = Approval.Issuance)) then
        refused event ("Approval request type mismatch: expected Issuance, got " +:+
                       request_type_debug (Approval.request_type request))
      else if bool_decide (is_Some (Approval.certificate_id request)) then
        refused event "Approval request has already been used to issue a certificate"
      else ret tt.

Definition check_csr (rq : IssuanceRequest) (event : CaEvent) : M unit :=
  match ir_csr_der rq with
  | None => ret tt
  | Some csr_der =>
      let# csr := lift match parse_csr csr_der with
        | Ok csr => Ok csr
        | Err _ => Err (InvalidRequest "CSR could not be parsed")
        end in
      let# valid := lift match verify_csr_signature verify_text csr with
        | Ok valid => Ok valid
        | Err _ => Err (InvalidRequest "CSR signature verification failed")
        end in
      if negb valid then refused event "Invalid CSR signature - proof of possession failed"
      else if negb (bool_decide (public_key csr = ir_public_key rq)) then
        refused event "CSR public key does not match request public key"
      else ret tt
  end.

Definition PROOF_REQUIRED : string :=
  "proof-of-possession required: end-entity issuance must include a CSR (RFC 2986 / SI-10)".

(** *** The certificate *)

Definition set_optional {A} (field : option A) (f : A → CertificateBuilder → CertificateBuilder)
    (b : CertificateBuilder) : CertificateBuilder :=
  match field with Some x => f x b | None => b end.
Definition authority_key (i : CertificateIssuer) : option (list u8) :=
  match ca_subject_public_key_info (c_der_encoded (ci_ca_certificate i)) with
  | Ok spki => match key_identifier spki with Ok aki => Some aki | Err _ => None end
  | Err _ => None
  end.
Definition builder_of (i : CertificateIssuer) (rq : IssuanceRequest) (profile : CertificateProfile)
    (now : DateTime) (serial : list u8) (issuer_dn : DistinguishedName) (sig_alg : Algorithm)
    (ski : list u8) : CertificateBuilder :=
  let b := set_signature_algorithm sig_alg (set_public_key (ir_public_key rq)
    (set_issuer issuer_dn (set_subject (ir_subject rq)
      (set_serial_number serial (from_profile now profile))))) in
  let b := set_optional (authority_key i) set_authority_key_id (set_subject_key_id ski b) in
  let b := foldl (λ b san, add_subject_alt_name san b) b (ir_subject_alt_names rq) in
  let b := set_optional (ci_crl_distribution_url i) add_crl_distribution_point b in
  let b := set_optional (ci_ocsp_responder_url i) (λ url, add_authority_info_access (Ocsp url)) b in
  set_optional (ci_ca_issuers_url i) (λ url, add_authority_info_access (CaIssuers url)) b.

Definition certificate_row (i : CertificateIssuer) (rq : IssuanceRequest) (id request_id : Uuid)
    (serial : list u8) (tbs : TbsCertificate) (der : list u8) (pem : string) : Certificate :=
  {| c_id := id; c_ca_id := c_id (ci_ca_certificate i); c_serial_number := serial;
     c_subject_dn := to_string_rfc4514 (ir_subject rq);
     c_issuer_dn := c_subject_dn (ci_ca_certificate i); c_not_before := t_not_before tbs;
     c_not_after := t_not_after tbs; c_der_encoded := der; c_pem_encoded := pem;
     c_revoked := false; c_revocation_time := None; c_revocation_reason := None;
     c_issuer_service := Some (issuer_service (ir_requestor rq));
     c_requestor := Some (ir_requestor rq); c_profile_name := Some (ir_profile_name rq);
     c_metadata := ir_metadata rq; c_request_id := Some request_id |}.

(** From the serial number to the bytes and the row. *)
Definition sign_certificate (i : CertificateIssuer) (rq : IssuanceRequest)
    (profile : CertificateProfile) (request_id : Uuid) : M Certificate :=
  let# serial := generate_serial_number in
  let# issuer_dn := lift (map_text IssuanceError x509_error_to_string "Failed to parse CA subject DN: "
    (parse_subject_dn (c_der_encoded (ci_ca_certificate i)))) in
  let# sig_alg := lift (map_text IssuanceError crypto_text "unsupported CA key type for issuance: "
    (recommended_signature_algorithm debug_key (kh_key_type (ci_ca_key i)))) in
  let^ now := call ENow in
  let# ski := lift (map_text IssuanceError crypto_text "failed to compute subject key id: "
    (key_identifier (ir_public_key rq))) in
  let# tbs := lift (x509 (build_tbs (builder_of i rq profile now serial issuer_dn sig_alg ski))) in
  let# tbs_der := lift (x509 (tbs_certificate_der debug_algorithm crypto_text tbs)) in
  let^ signed := call (ESign (ci_ca_key i) sig_alg tbs_der) in
  let# raw := lift (match signed with Ok raw => Ok raw | Err e => Err (Crypto e) end) in
  let# signature := lift (map_text IssuanceError crypto_text "failed to encode signature: "
    (encode_x509_signature debug_length sig_alg raw)) in
  let# der := lift (build_signed_certificate tbs_der signature) in
  let# pem := lift (der_to_pem der) in
  let^ id := call EUuid in
  ret (certificate_row i rq id request_id serial tbs der pem).

Definition link_approval (i : CertificateIssuer) (rq : IssuanceRequest) (certificate : Uuid) : M unit :=
  match ir_approval_request_id rq with
  | Some id =>
      if ci_approval_repo i then
        let^ now := call ENow in
        let# _ := try_sql (mark_request_completed now id certificate) in ret tt
      else ret tt
  | None => ret tt
  end.

(** Signed, stored, linked and audited. *)
Definition store_certificate (i : CertificateIssuer) (rq : IssuanceRequest)
    (profile : CertificateProfile) (request_id : Uuid) : M IssuedCertificate :=
  let# row := sign_certificate i rq profile request_id in
  let# _ := try_sql (create row) in
  let# _ := link_approval i rq (c_id row) in
  let# _ := record_audit (issuance_event rq request_id) in
  ret {| ic_certificate_id := c_id row; ic_serial_number := c_serial_number row;
         ic_der_encoded := c_der_encoded row; ic_pem_encoded := c_pem_encoded row;
         ic_not_before := c_not_before row; ic_not_after := c_not_after row |}.

(** From the validation of the profile on. *)
Definition issue_under (i : CertificateIssuer) (rq : IssuanceRequest) (profile : CertificateProfile)
    (request_id : Uuid) : M IssuedCertificate :=
  let event := issuance_event rq request_id in
  let# _ := lift (x509 (validate profile)) in
  let# _ := lift (x509 (validate_profile (ci_secure_defaults i) profile)) in
  let# _ := check_approval i rq event in
  if p_san_required profile && bool_decide (ir_subject_alt_names rq = []) then
    refused event "Subject alternative names are required for this profile"
  else
    let# _ := check_csr rq event in
    if ci_require_proof_of_possession i && negb (p_ca profile) && bool_decide (ir_csr_der rq = None)
    then refused event PROOF_REQUIRED
    else store_certificate i rq profile request_id.

Definition issue (i : CertificateIssuer) (rq : IssuanceRequest) : M IssuedCertificate :=
  let^ request_id := match ir_request_id rq with Some id => Done id | None => call EUuid end in
  let# profile := lift (ok_or (ci_profiles i !! ir_profile_name rq) (ProfileNotFound (ir_profile_name rq))) in
  match caller_profile_refusal (ir_authenticated_caller rq) profile with
  | Some failure =>
      let^ _ := call (ERecord (with_failure failure (issuance_event rq request_id))) in
      fail ProfileNotPermitted
  | None => issue_under i rq profile request_id
  end.
End issuer.
