(* ===== verification/GrpcIdentity.v ===== *)
(** * Who calls the CA

    [crates/ostrich-common/src/grpc_tls.rs]: the roles of the CA's gRPC clients
    and the requestors that each may claim. *)
From stdpp Require Import base strings list.
From Stdlib Require Import Ascii ZArith Lia.
From S2P Require Import Prelude Text.
#[local] Open Scope Z_scope.

Inductive GrpcClientRole := Issuer | Admin.
Record GrpcClientIdentity := { gc_role : GrpcClientRole; gc_namespace : string }.
Definition ACME : GrpcClientIdentity := {| gc_role := Issuer; gc_namespace := "acme" |}.
Definition EST : GrpcClientIdentity := {| gc_role := Issuer; gc_namespace := "est" |}.
Definition ADMIN : GrpcClientIdentity := {| gc_role := Admin; gc_namespace := "admin" |}.

Definition MAX_REQUESTOR_LEN : nat := 255.

Inductive RequestorRejection := Missing | NamespaceMismatch | Invalid.
Definition reason (r : RequestorRejection) : string :=
  match r with
  | Missing => "requestor_missing"
  | NamespaceMismatch => "requestor_namespace_mismatch"
  | Invalid => "requestor_invalid"
  end.

Definition is_allowed_requestor_byte (c : ascii) : bool :=
  let n := N_of_ascii c in ((33 <=? n) && (n <=? 126))%N.

Definition validate_requestor (identity : GrpcClientIdentity) (requestor : string)
    : result (option string) RequestorRejection :=
  if bool_decide (requestor = "") then
    match gc_role identity with Admin => Ok None | Issuer => Err Missing end
  else
    let? p := ok_or (split_once "::" requestor) NamespaceMismatch in
    if negb (bool_decide (p.1 = gc_namespace identity)) then Err NamespaceMismatch
    else if bool_decide (p.2 = "") || (MAX_REQUESTOR_LEN <? String.length requestor)%nat ||
            negb (forallb is_allowed_requestor_byte (String.list_ascii_of_string p.2)) then Err Invalid
    else Ok (Some requestor).

(** An id that can be claimed under a namespace of [n] characters. *)
Record claimable (n : nat) (id : string) : Prop := {
  cl_some : id ≠ "";
  cl_length : (n + 2 + String.length id ≤ MAX_REQUESTOR_LEN)%nat;
  cl_bytes : Forall (λ c, is_allowed_requestor_byte c = true) (String.list_ascii_of_string id)
}.

Lemma strip_prefix_app a b : strip_prefix a (a +:+ b) = Some b.
Proof. by apply strip_prefix_Some. Qed.

(** A text without colons ends at the first [::]. *)
Lemma split_once_app a b : has_char ":" a = false → split_once "::" (a +:+ "::" +:+ b) = Some (a, b).
Proof.
  induction a as [|c a IH]; [done|]. unfold has_char. cbn [String.list_ascii_of_string existsb].
  intros [Hc Ha]%orb_false_iff. rewrite string_app_cons. cbn [split_once strip_prefix].
  rewrite Hc. by rewrite IH.
Qed.

Lemma string_length_app (a b : string) : String.length (a +:+ b) = (String.length a + String.length b)%nat.
Proof.
  induction a as [|c a IH]; [done|]. rewrite string_app_cons. cbn [String.length Nat.add].
  by rewrite IH.
Qed.

Lemma forallb_Forall {A} (f : A → bool) l : forallb f l = true ↔ Forall (λ x, f x = true) l.
Proof. rewrite forallb_forall, Forall_forall. by setoid_rewrite <- list_elem_of_In. Qed.

(** An issuer's requestor names the id it claims under its own namespace. *)
Lemma validate_requestor_claim identity id : gc_namespace identity ≠ "" →
  has_char ":" (gc_namespace identity) = false →
  validate_requestor identity (gc_namespace identity +:+ "::" +:+ id) =
    (if decide (id = "" ∨ (MAX_REQUESTOR_LEN < String.length (gc_namespace identity) + 2 + String.length id)%nat ∨
                ¬ Forall (λ c, is_allowed_requestor_byte c = true) (String.list_ascii_of_string id))
     then Err Invalid else Ok (Some (gc_namespace identity +:+ "::" +:+ id))).
Proof.
  intros Hne Hc. unfold validate_requestor. set (ns := gc_namespace identity) in *.
  rewrite bool_decide_eq_false_2; [|destruct ns; [done|by rewrite string_app_cons]].
  rewrite split_once_app by done. cbn [res_bind ok_or fst snd]. rewrite bool_decide_eq_true_2 by done. cbn [negb].
  rewrite !string_length_app. change (String.length "::") with 2%nat.
  pose proof (forallb_Forall is_allowed_requestor_byte (String.list_ascii_of_string id)) as Hf.
  destruct (forallb _ _); cbn [negb]; rewrite ?orb_true_r, ?orb_false_r;
    case_decide as Hd; try done.
  - assert (Forall (λ c, is_allowed_requestor_byte c = true) (String.list_ascii_of_string id)) as Hb by by apply Hf.
    destruct (bool_decide_reflect (id = "")); [done|]. cbn [orb].
    destruct (Nat.ltb_spec MAX_REQUESTOR_LEN (String.length ns + (2 + String.length id))); [done|].
    exfalso. destruct Hd as [?|[?|?]]; [done|lia|done].
  - rewrite bool_decide_eq_false_2 by naive_solver. cbn [orb].
    destruct (Nat.ltb_spec MAX_REQUESTOR_LEN (String.length ns + (2 + String.length id))); [|done].
    exfalso. apply Hd. right. left. lia.
  - exfalso. apply Hd. right. right. intros HF. by apply Hf in HF.
Qed.
