(* ===== verification/CaGrpc.v ===== *)
(** * The gRPC interface of the CA

    The service of [crates/ostrich-ca/src/grpc.rs] with its authorization:
    the layer of the listener ([authorize_peer] of
    [crates/ostrich-common/src/grpc_tls.rs]), which maps the certificate of the
    connection to an identity and the method to the roles that may call it,
    and the binding of requestors and profiles of [grpc_authz.rs].  That the
    certificate's chain ends at a client trust anchor, and that the peer has
    its key, is the TLS library's.  The entries of a registry are given in
    their canonical form; texts of answers, and the records of refused calls,
    which a rate limiter may drop, are left out. *)
From stdpp Require Import base strings list gmap.
From Stdlib Require Import Ascii ZArith Lia.
From S2P Require Import Prelude Programs Text GrpcIdentity IpAddr X509Names CertProfile CertBuilder CaStore CaCore CrlBuilder Revocation Issuance.
From S2P Require Approval.
#[local] Open Scope Z_scope.
#[export] Instance GrpcClientRole_eq_dec : EqDecision GrpcClientRole.
Proof. solve_decision. Defined.
#[export] Instance StringKind_eq_dec : EqDecision StringKind.
Proof. solve_decision. Defined.
#[export] Instance AttributeTypeAndValue_eq_dec : EqDecision AttributeTypeAndValue.
Proof. solve_decision. Defined.

(** ** The listener *)

Record GrpcClientRegistry := { gr_acme : list string; gr_est : list string; gr_admin : list string }.
Definition client_identity (r : GrpcClientRegistry) (subject_dn : string) : option GrpcClientIdentity :=
  if bool_decide (subject_dn = "") then None
  else if contains subject_dn (gr_acme r) then Some ACME
  else if contains subject_dn (gr_est r) then Some EST
  else if contains subject_dn (gr_admin r) then Some ADMIN
  else None.

Record GrpcMethodRule := { mr_path : string; mr_roles : list GrpcClientRole }.
Definition SERVICE : string := "/ostrich.ca.v1.CertificateAuthorityService/".
Definition CA_GRPC_METHOD_RULES : list GrpcMethodRule :=
  [{| mr_path := SERVICE +:+ "IssueCertificate"; mr_roles := [Issuer] |};
   {| mr_path := SERVICE +:+ "RevokeCertificate"; mr_roles := [Admin] |};
   {| mr_path := SERVICE +:+ "GenerateCrl"; mr_roles := [Admin] |};
   {| mr_path := SERVICE +:+ "CheckRevocationStatus"; mr_roles := [Admin] |};
   {| mr_path := SERVICE +:+ "GetCaInfo"; mr_roles := [Issuer; Admin] |};
   {| mr_path := SERVICE +:+ "ListProfiles"; mr_roles := [Issuer; Admin] |}].

Record SubscriberIssuer := { sb_subject : Name; sb_subject_key_id : option (list u8) }.
Record AdminTrustAnchor := { aa_subject : Name; aa_subject_key_id : option (list u8) }.
Record SubjectAllowlistLayer := {
  ly_clients : GrpcClientRegistry; ly_subscriber_issuers : list SubscriberIssuer;
  ly_admin_anchor : option AdminTrustAnchor
}.
Inductive GrpcServerMode := Mtls (layer : SubjectAllowlistLayer) | InsecureDevPlaintext.

(** The codes of [tonic]. *)
Inductive Code := UNAUTHENTICATED | PERMISSION_DENIED | INVALID_ARGUMENT | NOT_FOUND
| FAILED_PRECONDITION | INTERNAL.
Record Denial := {
  dn_code : Code; dn_reason : string; dn_subject : option string;
  dn_identity : option GrpcClientIdentity; dn_certificate : option (string * string)
}.
Record AuthorizedLeaf := {
  al_subject : string; al_identity : GrpcClientIdentity; al_issuer_dn : string; al_serial_hex : string
}.

(** ** Profiles of the namespaces *)

Record IssuerProfilePolicy := { ip_acme : list string; ip_est : list string }.
Definition allows (p : IssuerProfilePolicy) (namespace profile : string) : bool :=
  if bool_decide (namespace = "acme") then contains profile (ip_acme p)
  else if bool_decide (namespace = "est") then contains profile (ip_est p)
  else false.
Definition allows_any (p : IssuerProfilePolicy) (profile : string) : bool :=
  allows p "acme" profile || allows p "est" profile.

Definition is_ascii_padding (c : ascii) : bool := contains (N_of_ascii c) [32; 9; 13; 10]%N.
Fixpoint drop_padding (l : list ascii) : list ascii :=
  match l with
  | c :: l' => if is_ascii_padding c then drop_padding l' else l
  | [] => []
  end.
(** [trim_matches([' ', '\t', '\r', '\n'])]. *)
Definition trim_padding (s : string) : string :=
  String.string_of_list_ascii (rev (drop_padding (rev (drop_padding (String.list_ascii_of_string s))))).

Inductive PolicyError :=
| UnknownProfile (env name : string) | CaProfile (env name : string) | NoProfiles (env namespace : string).
(** The names of one list that are not blank, each once. *)
Fixpoint listed_profiles (env : string) (profiles : list CertificateProfile) (out entries : list string)
    : result (list string) PolicyError :=
  match entries with
  | [] => Ok out
  | raw :: entries =>
      let name := trim_padding raw in
      if bool_decide (name = "") then listed_profiles env profiles out entries
      else
        let? profile := ok_or (find (λ p, bool_decide (p_name p = name)) profiles)
                              (UnknownProfile env name) in
        if p_ca profile then Err (CaProfile env name)
        else listed_profiles env profiles (if contains name out then out else out ++ [name]) entries
  end.
Definition profile_list (env namespace : string) (subjects : list string)
    (profiles : list CertificateProfile) (entries : list string) : result (list string) PolicyError :=
  let? out := listed_profiles env profiles [] entries in
  if bool_decide (out = []) && negb (bool_decide (subjects = [])) then Err (NoProfiles env namespace)
  else Ok out.
(** [IssuerProfilePolicy::parse]; without clients on the plaintext listener. *)
Definition parse_policy (acme est : list string) (clients : option GrpcClientRegistry)
    (profiles : list CertificateProfile) : result IssuerProfilePolicy PolicyError :=
  let? acme := profile_list "CA_GRPC_ACME_ALLOWED_PROFILES" "acme"
                 (default [] (gr_acme <$> clients)) profiles acme in
  let? est := profile_list "CA_GRPC_EST_ALLOWED_PROFILES" "est"
                (default [] (gr_est <$> clients)) profiles est in
  Ok {| ip_acme := acme; ip_est := est |}.

(** ** The messages *)

Inductive ProtoSan :=
| PsDns (name : string) | PsRfc822 (name : string) | PsUri (uri : string) | PsIp (text : string)
| PsDirectory (dn : string).
(** [gi_metadata] holds the members of the map in the order of the JSON object
    that they become. *)
Record GrpcIssueRequest := {
  gi_profile_name : string; gi_subject : option DistinguishedName;
  gi_subject_alt_names : list (option ProtoSan); gi_public_key : list u8; gi_requestor : string;
  gi_metadata : list (string * string); gi_csr_der : list u8; gi_request_id : string
}.
Record GrpcRevokeRequest := {
  gv_certificate_id : string; gv_reason : Z; gv_requestor : string; gv_justification : string
}.
Inductive GrpcCall :=
| GIssue (req : GrpcIssueRequest) | GRevoke (req : GrpcRevokeRequest) | GGenerateCrl
| GCheckStatus (id : string) | GGetCaInfo | GListProfiles.
Definition call_path (c : GrpcCall) : string :=
  SERVICE +:+ match c with
  | GIssue _ => "IssueCertificate" | GRevoke _ => "RevokeCertificate" | GGenerateCrl => "GenerateCrl"
  | GCheckStatus _ => "CheckRevocationStatus" | GGetCaInfo => "GetCaInfo"
  | GListProfiles => "ListProfiles"
  end.
Inductive GrpcReply :=
| Issued (ic : IssuedCertificate) | Revoked (t : DateTime) | CrlGenerated (g : GeneratedCrl)
| RevocationStatus (revoked : bool) (t : option DateTime) (reason : option Z)
| CaInfo (id : Uuid) (dn : string) | Profiles (ps : list CertificateProfile).
Record BoundCaller := { bc_caller : option AuthenticatedCaller; bc_requestor : string }.

Definition convert_san (san : option ProtoSan) : option SubjectAltName :=
  san ← san;
  match san with
  | PsDns dns => Some (SanDns dns) | PsRfc822 email => Some (SanRfc822 email)
  | PsUri uri => Some (SanUri uri) | PsIp text => SanIp <$> parse_ip_addr text
  | PsDirectory dn => Some (SanDirectory dn)
  end.
Definition grpc_issuance_request (req : GrpcIssueRequest) (caller : BoundCaller) (request_id : Uuid)
    : result IssuanceRequest Code :=
  let? subject := ok_or (gi_subject req) INVALID_ARGUMENT in
  let? sans := ok_or (mapM convert_san (gi_subject_alt_names req)) INVALID_ARGUMENT in
  Ok {| ir_profile_name := gi_profile_name req; ir_subject := subject; ir_subject_alt_names := sans;
        ir_public_key := gi_public_key req; ir_requestor := bc_requestor caller;
        ir_authenticated_caller := bc_caller caller;
        ir_metadata := match gi_metadata req with
                       | [] => None
                       | members => Some (JObject ((λ m, (m.1, JString m.2)) <$> members))
                       end;
        ir_csr_der := match gi_csr_der req with [] => None | der => Some der end;
        ir_approval_request_id := None; ir_request_id := Some request_id |}.

Definition grpc_status (e : Error) : Code :=
  match e with
  | ProfileNotFound _ | InvalidRequest _ => INVALID_ARGUMENT
  | ApprovalRequestNotFound _ => NOT_FOUND
  | WorkflowError (Approval.InsufficientRole _) | ProfileNotPermitted => PERMISSION_DENIED
  | WorkflowError _ | RevocationError _ => FAILED_PRECONDITION
  | _ => INTERNAL
  end.

Section grpc.
Context {HL : CaLib} {HO : RevokedOrder}.

(** *** The certificate of the connection *)

Definition find_extension (cert : X509Certificate) (oid : string) : option Extension :=
  find (λ e, bool_decide (extn_id e = oid)) (default [] (xt_extensions (xc_tbs cert))).
Definition ID_KP_CLIENT_AUTH : string := "1.3.6.1.5.5.7.3.2".
Definition has_client_auth_eku (cert : X509Certificate) : bool :=
  match find_extension cert ID_CE_EXT_KEY_USAGE with
  | Some e => match eku_from_der (extn_value e) with
              | Ok purposes => contains ID_KP_CLIENT_AUTH purposes
              | Err _ => false
              end
  | None => false
  end.
Definition authority_key_id (cert : X509Certificate) : option (list u8) :=
  e ← find_extension cert ID_CE_AUTHORITY_KEY_IDENTIFIER;
  match aki_from_der (extn_value e) with Ok id => id | Err _ => None end.

#[local] Instance Name_eq_dec : EqDecision Name := list_eq_dec.
Definition issued_by_subscriber_ca (ca : SubscriberIssuer) (leaf : X509Certificate) : bool :=
  bool_decide (xt_issuer (xc_tbs leaf) = sb_subject ca) ||
  (bool_decide (is_Some (sb_subject_key_id ca)) &&
   bool_decide (authority_key_id leaf = sb_subject_key_id ca)).
Definition issued_directly (anchor : AdminTrustAnchor) (leaf : X509Certificate) : bool :=
  bool_decide (xt_issuer (xc_tbs leaf) = aa_subject anchor) &&
  match authority_key_id leaf, aa_subject_key_id anchor with
  | Some aki, Some ski => bool_decide (aki = ski)
  | _, _ => false
  end.

(** An empty name has no text. *)
Definition subject_dn_of (cert : X509Certificate) : option string :=
  dn ← name_to_string (xt_subject (xc_tbs cert)); if bool_decide (dn = "") then None else Some dn.
Definition time_seconds (t : Time) : Z := match t with UtcTime s | GeneralTime s => s end.

(** [leaf] is the certificate of the connection, if it has one. *)
Definition authorize_peer_at (leaf : option (list u8)) (layer : SubjectAllowlistLayer) (path : string)
    (now : DateTime) : result AuthorizedLeaf Denial :=
  let? der := ok_or leaf {| dn_code := UNAUTHENTICATED; dn_reason := "no_client_certificate";
    dn_subject := None; dn_identity := None; dn_certificate := None |} in
  let? parsed := ok_or
    match certificate_from_der der with
    | Ok cert => (λ dn, (cert, dn)) <$> subject_dn_of cert
    | Err _ => None
    end {| dn_code := UNAUTHENTICATED; dn_reason := "unparsable_certificate"; dn_subject := None;
           dn_identity := None; dn_certificate := None |} in
  let '(cert, subject) := parsed in
  let issuer_dn := default "" (name_to_string (xt_issuer (xc_tbs cert))) in
  let serial_hex := hex_encode (xt_serial_number (xc_tbs cert)) in
  let deny code reason identity := Err {| dn_code := code; dn_reason := reason;
    dn_subject := Some subject; dn_identity := identity; dn_certificate := Some (issuer_dn, serial_hex) |} in
  if (now <? seconds (time_seconds (xt_not_before (xc_tbs cert)))) ||
     (seconds (time_seconds (xt_not_after (xc_tbs cert))) <? now)
  then deny UNAUTHENTICATED "certificate_not_valid_now" None
  else if negb (has_client_auth_eku cert) then deny PERMISSION_DENIED "missing_client_auth_eku" None
  else if existsb (λ ca, issued_by_subscriber_ca ca cert) (ly_subscriber_issuers layer)
  then deny PERMISSION_DENIED "subscriber_issuing_ca" None
  else match client_identity (ly_clients layer) subject with
  | None => deny PERMISSION_DENIED "subject_not_allowlisted" None
  | Some identity =>
      match find (λ rule, bool_decide (mr_path rule = path)) CA_GRPC_METHOD_RULES with
      | None => deny PERMISSION_DENIED "method_not_mapped" (Some identity)
      | Some rule =>
          if negb (contains (gc_role identity) (mr_roles rule))
          then deny PERMISSION_DENIED "method_not_permitted" (Some identity)
          else if bool_decide (gc_role identity = Admin) &&
                  negb match ly_admin_anchor layer with
                       | Some anchor => issued_directly anchor cert
                       | None => false
                       end
          then deny PERMISSION_DENIED "admin_issuer_not_anchor" (Some identity)
          else Ok {| al_subject := subject; al_identity := identity; al_issuer_dn := issuer_dn;
                     al_serial_hex := serial_hex |}
      end
  end.

(** *** The service *)

(** [gs_debug] is [cfg!(debug_assertions)]. *)
Record CaGrpcService := {
  gs_issuer : CertificateIssuer; gs_revocation_manager : RevocationManager; gs_ca_id : Uuid;
  gs_ca_dn : DistinguishedName; gs_mode : GrpcServerMode; gs_debug : bool;
  gs_profiles : IssuerProfilePolicy
}.
Definition mode_requires_peer (svc : CaGrpcService) : bool :=
  match gs_mode svc with Mtls _ => true | InsecureDevPlaintext => negb (gs_debug svc) end.
Definition authorized_peer (svc : CaGrpcService) (peer : option AuthorizedLeaf)
    : result (option AuthorizedLeaf) Code :=
  match peer with
  | Some p => Ok (Some p)
  | None => if mode_requires_peer svc then Err PERMISSION_DENIED else Ok None
  end.
Definition authenticated_caller_of (peer : AuthorizedLeaf) : AuthenticatedCaller :=
  {| subject_dn := al_subject peer; issuer_dn := al_issuer_dn peer; serial_hex := al_serial_hex peer |}.

(** [bind]: with the profile for an issuance. *)
Definition bind_caller (svc : CaGrpcService) (peer : option AuthorizedLeaf) (requestor : string)
    (profile : option string) : result BoundCaller Code :=
  let? peer := authorized_peer svc peer in
  match peer with
  | None =>
      if match profile with Some name => negb (allows_any (gs_profiles svc) name) | None => false end
      then Err PERMISSION_DENIED
      else Ok {| bc_caller := None; bc_requestor := requestor |}
  | Some peer =>
      match validate_requestor (al_identity peer) requestor with
      | Err _ => Err PERMISSION_DENIED
      | Ok bound =>
          if match profile with
             | Some name => negb (allows (gs_profiles svc) (gc_namespace (al_identity peer)) name)
             | None => false
             end
          then Err PERMISSION_DENIED
          else Ok {| bc_caller := Some (authenticated_caller_of peer); bc_requestor := default "" bound |}
      end
  end.

Definition grpc_issue (svc : CaGrpcService) (peer : option AuthorizedLeaf) (req : GrpcIssueRequest)
    : Programs.Prog CaE (result GrpcReply Code) :=
  let# caller := lift (bind_caller svc peer (gi_requestor req) (Some (gi_profile_name req))) in
  let^ request_id := match uuid_parse (gi_request_id req) with Some id => Done id | None => call EUuid end in
  let# rq := lift (grpc_issuance_request req caller request_id) in
  let^ issued := issue (gs_issuer svc) rq in
  Done (match issued with Ok ic => Ok (Issued ic) | Err e => Err (grpc_status e) end).

(** [Err] is the reason of the failure that is recorded. *)
Definition revocation_request (req : GrpcRevokeRequest) (caller : BoundCaller)
    : result RevocationRequest string :=
  let? id := ok_or (uuid_parse (gv_certificate_id req)) "invalid_certificate_id" in
  let? why := ok_or (from_i32 (gv_reason req)) "invalid_reason" in
  Ok {| certificate_id := id; reason := why; requestor := bc_requestor caller;
        authenticated_caller := bc_caller caller;
        justification := if bool_decide (gv_justification req = "") then None
                         else Some (gv_justification req) |}.
Definition grpc_revoke (svc : CaGrpcService) (peer : option AuthorizedLeaf) (req : GrpcRevokeRequest)
    : Programs.Prog CaE (result GrpcReply Code) :=
  let# caller := lift (bind_caller svc peer (gv_requestor req) None) in
  match revocation_request req caller with
  | Err failure =>
      let^ _ := record_rejected_revocation (gv_certificate_id req) (gv_reason req)
        (bc_requestor caller) (bc_caller caller) failure in
      fail INVALID_ARGUMENT
  | Ok rq =>
      let^ revoked := revoke rq in
      match revoked with
      | Err e => fail (grpc_status e)
      | Ok _ => let^ now := call ENow in ret (Revoked now)
      end
  end.

Definition crl_actor (caller : option AuthenticatedCaller) : CrlActor :=
  match caller with Some caller => Peer caller | None => Unauthenticated end.
Definition grpc_generate_crl (svc : CaGrpcService) (peer : option AuthorizedLeaf)
    : Programs.Prog CaE (result GrpcReply Code) :=
  let# peer := lift (authorized_peer svc peer) in
  let^ crl := generate_crl_by (gs_revocation_manager svc) (gs_ca_dn svc)
                (crl_actor (authenticated_caller_of <$> peer)) in
  Done (match crl with Ok g => Ok (CrlGenerated g) | Err e => Err (grpc_status e) end).

Definition grpc_check_status (svc : CaGrpcService) (peer : option AuthorizedLeaf) (id : string)
    : Programs.Prog CaE (result GrpcReply Code) :=
  let# _ := lift (authorized_peer svc peer) in
  let# id := lift (ok_or (uuid_parse id) INVALID_ARGUMENT) in
  let^ status := revocation_status id in
  Done (match status with
        | Ok (revoked, t, reason) => Ok (RevocationStatus revoked t reason)
        | Err e => Err (grpc_status e)
        end).

Definition get_ca_info (svc : CaGrpcService) (peer : option AuthorizedLeaf) : result GrpcReply Code :=
  let? _ := authorized_peer svc peer in Ok (CaInfo (gs_ca_id svc) (to_string_rfc4514 (gs_ca_dn svc))).
Definition list_profiles (svc : CaGrpcService) (peer : option AuthorizedLeaf) : result GrpcReply Code :=
  let? _ := authorized_peer svc peer in
  Ok (Profiles [root_ca 3650; intermediate_ca 1825 0; tls_server 365; tls_client 365;
                code_signing 365; ocsp_signing 90]).

Definition grpc_handle (svc : CaGrpcService) (peer : option AuthorizedLeaf) (c : GrpcCall)
    : Programs.Prog CaE (result GrpcReply Code) :=
  match c with
  | GIssue req => grpc_issue svc peer req
  | GRevoke req => grpc_revoke svc peer req
  | GGenerateCrl => grpc_generate_crl svc peer
  | GCheckStatus id => grpc_check_status svc peer id
  | GGetCaInfo => lift (get_ca_info svc peer)
  | GListProfiles => lift (list_profiles svc peer)
  end.

(** A call over a connection: only the mTLS listener has the layer. *)
Definition grpc_call (svc : CaGrpcService) (leaf : option (list u8)) (c : GrpcCall)
    : Programs.Prog CaE (result GrpcReply Code) :=
  match gs_mode svc with
  | InsecureDevPlaintext => grpc_handle svc None c
  | Mtls layer =>
      let^ now := call ENow in
      match authorize_peer_at leaf layer (call_path c) now with
      | Err denial => fail (dn_code denial)
      | Ok peer => grpc_handle svc (Some peer) c
      end
  end.

(** ** Who may ask for a certificate over gRPC *)

(** The client of one namespace, [prefix], with its certificate, at [now]: an
    issuer of the registry, by a certificate that is valid, for client
    authentication and not of a subscriber CA, which claims a requestor and
    asks for a profile of its own namespace. *)
Record issuer_client (svc : CaGrpcService) (layer : SubjectAllowlistLayer) (leaf : option (list u8))
    (req : GrpcIssueRequest) (now : DateTime) (caller : BoundCaller) (cert : X509Certificate)
    (subject prefix id : string) : Prop := {
  ic_leaf : ∃ der, leaf = Some der ∧ certificate_from_der der = Ok cert;
  ic_subject_dn : name_to_string (xt_subject (xc_tbs cert)) = Some subject ∧ subject ≠ "";
  ic_valid : seconds (time_seconds (xt_not_before (xc_tbs cert))) ≤ now ≤
             seconds (time_seconds (xt_not_after (xc_tbs cert)));
  ic_purpose : has_client_auth_eku cert = true;
  ic_issuer : ∀ ca, ca ∈ ly_subscriber_issuers layer →
    xt_issuer (xc_tbs cert) ≠ sb_subject ca ∧
    ∀ k, sb_subject_key_id ca = Some k → authority_key_id cert ≠ Some k;
  ic_registered : prefix = "acme" ∧ subject ∈ gr_acme (ly_clients layer) ∨
                  prefix = "est" ∧ subject ∈ gr_est (ly_clients layer);
  ic_requestor : gi_requestor req = prefix +:+ "::" +:+ id ∧ claimable (String.length prefix) id;
  ic_profile : gi_profile_name req ∈
    (if bool_decide (prefix = "acme") then ip_acme (gs_profiles svc) else ip_est (gs_profiles svc));
  ic_bound : caller = {| bc_requestor := gi_requestor req;
    bc_caller := Some {| subject_dn := subject;
      issuer_dn := default "" (name_to_string (xt_issuer (xc_tbs cert)));
      serial_hex := hex_encode (xt_serial_number (xc_tbs cert)) |} |}
}.
(** On the plaintext listener of a debug build: anyone, for a profile of
    either namespace. *)
Definition may_issue (svc : CaGrpcService) (leaf : option (list u8)) (req : GrpcIssueRequest)
    (now : DateTime) (caller : BoundCaller) : Prop :=
  match gs_mode svc with
  | Mtls layer => ∃ cert subject prefix id, issuer_client svc layer leaf req now caller cert subject prefix id
  | InsecureDevPlaintext => gs_debug svc = true ∧
      gi_profile_name req ∈ ip_acme (gs_profiles svc) ++ ip_est (gs_profiles svc) ∧
      caller = {| bc_caller := None; bc_requestor := gi_requestor req |}
  end.

(** The identity of an issuer is that of its list. *)
Lemma client_identity_issuer r subject identity : client_identity r subject = Some identity →
  gc_role identity = Issuer →
  identity = ACME ∧ subject ∈ gr_acme r ∨ identity = EST ∧ subject ∈ gr_est r.
Proof.
  unfold client_identity. case_bool_decide; [done|].
  destruct (contains subject (gr_acme r)) eqn:Ha; [intros [= <-] _; left; by apply contains_true in Ha|].
  destruct (contains subject (gr_est r)) eqn:He; [intros [= <-] _; right; by apply contains_true in He|].
  destruct (contains subject (gr_admin r)); [|done]. by intros [= <-].
Qed.

(** What the layer admits to the method that issues. *)
Lemma authorize_issue_Ok leaf layer req now peer :
  authorize_peer_at leaf layer (call_path (GIssue req)) now = Ok peer →
  ∃ der cert, leaf = Some der ∧ certificate_from_der der = Ok cert ∧
    name_to_string (xt_subject (xc_tbs cert)) = Some (al_subject peer) ∧ al_subject peer ≠ "" ∧
    seconds (time_seconds (xt_not_before (xc_tbs cert))) ≤ now ≤
      seconds (time_seconds (xt_not_after (xc_tbs cert))) ∧
    has_client_auth_eku cert = true ∧
    existsb (λ ca, issued_by_subscriber_ca ca cert) (ly_subscriber_issuers layer) = false ∧
    client_identity (ly_clients layer) (al_subject peer) = Some (al_identity peer) ∧
    gc_role (al_identity peer) = Issuer ∧
    al_issuer_dn peer = default "" (name_to_string (xt_issuer (xc_tbs cert))) ∧
    al_serial_hex peer = hex_encode (xt_serial_number (xc_tbs cert)).
Proof.
  intros (der & ->%ok_or_Ok & HH)%res_bind_Ok. apply res_bind_Ok in HH as ([cert subject] & Hp%ok_or_Ok & HH).
  destruct (certificate_from_der der) as [c|] eqn:Hc; [|done].
  apply fmap_Some in Hp as (dn & Hdn & [= -> ->]). unfold subject_dn_of in Hdn.
  destruct (name_to_string (xt_subject (xc_tbs c))) as [s|] eqn:Hn; [|done]. cbn in Hdn.
  case_bool_decide as Hs; [done|]. injection Hdn as ->. cbv zeta in HH.
  destruct (_ || _) eqn:Hv; [done|]. apply orb_false_iff in Hv as [Hv1%Z.ltb_ge Hv2%Z.ltb_ge].
  destruct (has_client_auth_eku c) eqn:Heku; [|done]. cbn [negb] in HH.
  destruct (existsb _ _) eqn:Hsub; [done|].
  destruct (client_identity _ _) as [identity|] eqn:Hid; [|done].
  replace (find _ CA_GRPC_METHOD_RULES) with
    (Some {| mr_path := SERVICE +:+ "IssueCertificate"; mr_roles := [Issuer] |}) in HH by reflexivity.
  destruct (contains (gc_role identity) _) eqn:Hrole; [|done]. cbn [negb mr_roles] in *.
  apply contains_true, list_elem_of_singleton in Hrole. rewrite Hrole in HH. cbn in HH. injection HH as <-.
  exists der, c. by split_and!.
Qed.

Lemma strip_prefix_spec p s r : strip_prefix p s = Some r → s = p +:+ r.
Proof. by rewrite strip_prefix_Some. Qed.
Lemma split_once_spec sep s p : split_once sep s = Some p → s = p.1 +:+ sep +:+ p.2.
Proof.
  revert p. induction s as [|c s IH]; intros p; cbn [split_once].
  - destruct (strip_prefix sep "") as [r|] eqn:Hp; [|done]. intros [= <-]. by apply strip_prefix_spec in Hp.
  - destruct (strip_prefix sep (String c s)) as [r|] eqn:Hp.
    { intros [= <-]. by apply strip_prefix_spec in Hp. }
    intros (q & Hq & ->)%fmap_Some. cbn [fst snd]. rewrite string_app_cons. f_equal. by apply IH.
Qed.
(** The requestor of an issuer names an id under its own namespace. *)
Lemma validate_issuer identity requestor bound : gc_role identity = Issuer →
  gc_namespace identity ≠ "" → has_char ":" (gc_namespace identity) = false →
  validate_requestor identity requestor = Ok bound → bound = Some requestor ∧
  ∃ id, requestor = gc_namespace identity +:+ "::" +:+ id ∧ claimable (String.length (gc_namespace identity)) id.
Proof.
  intros Hrole Hne Hc HH. pose proof HH as HH0. unfold validate_requestor in HH.
  case_bool_decide as Hr; [by rewrite Hrole in HH|].
  apply res_bind_Ok in HH as (p & Hp%ok_or_Ok%split_once_spec & HH).
  case_bool_decide as Hns; [|done]. subst requestor. rewrite Hns in *.
  rewrite (validate_requestor_claim _ _ Hne Hc) in HH0. case_decide as Hd; [done|]. injection HH0 as <-.
  split; [done|]. exists p.2. split; [done|]. split.
  - intros He. apply Hd. by left.
  - destruct (decide (MAX_REQUESTOR_LEN < String.length (gc_namespace identity) + 2 + String.length p.2)%nat);
      [|lia]. exfalso. apply Hd. right. by left.
  - apply dec_stable. intros He. apply Hd. by right; right.
Qed.

(** An issuance call that gets past its authorization. *)
Lemma bind_plaintext svc layer_now leaf req caller :
  gs_mode svc = InsecureDevPlaintext →
  bind_caller svc None (gi_requestor req) (Some (gi_profile_name req)) = Ok caller →
  may_issue svc leaf req layer_now caller.
Proof.
  unfold bind_caller, authorized_peer, mode_requires_peer, may_issue. intros ->.
  destruct (gs_debug svc); [|done]. cbn [negb res_bind].
  destruct (allows_any _ _) eqn:Ha; [|done]. cbn [negb]. intros [= <-]. split_and!; [done| |done].
  apply orb_true_iff in Ha. apply elem_of_app. unfold allows in Ha.
  change (contains (gi_profile_name req) (ip_acme (gs_profiles svc)) = true ∨
    contains (gi_profile_name req) (ip_est (gs_profiles svc)) = true) in Ha.
  by rewrite !contains_true in Ha.
Qed.

Lemma bind_mtls svc layer leaf now req peer caller : gs_mode svc = Mtls layer →
  authorize_peer_at leaf layer (call_path (GIssue req)) now = Ok peer →
  bind_caller svc (Some peer) (gi_requestor req) (Some (gi_profile_name req)) = Ok caller →
  may_issue svc leaf req now caller.
Proof.
  intros Hm Hp Hb. apply authorize_issue_Ok in Hp
    as (der & cert & -> & Hcert & Hdn & Hne & Hv & Heku & Hsub & Hid & Hrole & Hiss & Hser).
  unfold bind_caller in Hb. cbn [authorized_peer res_bind] in Hb.
  pose proof (client_identity_issuer _ _ _ Hid Hrole) as Hreg.
  destruct (validate_requestor (al_identity peer) (gi_requestor req)) as [bound|] eqn:Hval; [|done].
  destruct (allows _ _ _) eqn:Hall; [|done]. injection Hb as <-.
  apply validate_issuer in Hval as [-> (id & Hreq & Hcl)]; [|done|by destruct Hreg as [[-> _]|[-> _]]..].
  unfold may_issue. rewrite Hm. exists cert, (al_subject peer), (gc_namespace (al_identity peer)), id.
  split; try done.
  - by exists der.
  - intros ca Hca. apply not_true_iff_false in Hsub. rewrite existsb_elem_of in Hsub.
    destruct (issued_by_subscriber_ca ca cert) eqn:Hi; [destruct Hsub; by exists ca|].
    apply orb_false_iff in Hi as [Hi1%bool_decide_eq_false Hi2]. split; [done|].
    intros k Hk Hak. rewrite Hk, Hak, !bool_decide_eq_true_2 in Hi2; done.
  - destruct Hreg as [[-> ?]|[-> ?]]; [by left|by right].
  - destruct Hreg as [[He ?]|[He ?]]; rewrite He in Hall |- *; by apply contains_true.
  - unfold authenticated_caller_of. by rewrite Hiss, Hser.
Qed.

(** ** The profiles of a policy *)

(** A profile that a parsed policy allows is registered, and not a CA's. *)
Lemma listed_profiles_registered env profiles out entries l :
  listed_profiles env profiles out entries = Ok l →
  (∀ n, n ∈ out → ∃ p, p ∈ profiles ∧ p_name p = n ∧ p_ca p = false) →
  ∀ n, n ∈ l → ∃ p, p ∈ profiles ∧ p_name p = n ∧ p_ca p = false.
Proof.
  revert out. induction entries as [|raw entries IH]; intros out; cbn [listed_profiles]; [by intros [= <-]|].
  case_bool_decide; [by apply IH|].
  intros (p & Hp%ok_or_Ok & HH)%res_bind_Ok Hout. destruct (p_ca p) eqn:Hca; [done|].
  apply (IH _ HH). intros n Hn. apply find_some in Hp as [Hin%list_elem_of_In Hname%bool_decide_eq_true].
  destruct (contains _ out); [by apply Hout|].
  apply elem_of_app in Hn as [Hn| ->%list_elem_of_singleton]; [by apply Hout|]. by exists p.
Qed.
Lemma parsed_policy_profiles acme est clients profiles policy name profile :
  parse_policy acme est clients profiles = Ok policy → allows policy name profile = true →
  ∃ p, p ∈ profiles ∧ p_name p = profile ∧ p_ca p = false.
Proof.
  assert (∀ env namespace subjects entries l, profile_list env namespace subjects profiles entries = Ok l →
    ∀ n, n ∈ l → ∃ p, p ∈ profiles ∧ p_name p = n ∧ p_ca p = false) as Hlist.
  { intros env namespace subjects entries l (out & Ho & HH)%res_bind_Ok. destruct (_ && _); [done|].
    injection HH as <-. apply (listed_profiles_registered _ _ _ _ _ Ho). by intros n ?%elem_of_nil. }
  intros (a & Ha & HH)%res_bind_Ok. apply res_bind_Ok in HH as (e & He & [= <-]). unfold allows. cbn [ip_acme ip_est].
  case_bool_decide; [rewrite contains_true; by apply (Hlist _ _ _ _ _ Ha)|].
  case_bool_decide; [|done]. rewrite contains_true. by apply (Hlist _ _ _ _ _ He).
Qed.
End grpc.
