(* ===== verification/CaApi.v ===== *)
(** * The REST interface of the CA

    The handlers of [crates/ostrich-ca/src/rest.rs] that change the CA's state,
    with the middleware that authorizes them: issuance, revocation, CRLs and
    the approval workflow, over the engine of Approval.v and the tables of
    CaStore.v.  The user is the one the authentication layer found.  A handler
    answers with the data that its JSON shows; texts of numbers, times and
    bytes in it are left out. *)
From stdpp Require Import base strings list gmap.
From Stdlib Require Import Ascii ZArith Lia.
From S2P Require Import Prelude Programs Roles IpAddr X509Names Csr CertBuilder CaStore CaCore CrlBuilder Revocation Issuance.
From S2P Require AuditLog Approval.
#[local] Open Scope Z_scope.
#[local] Existing Instances Approval.ApprovalStatus_eq_dec Approval.RequestType_eq_dec.

(** The CA with its issuer and revocation manager, the approval engine's
    configuration and the policy of the router. *)
Record ApiState := {
  as_issuer : CertificateIssuer; as_revocation_manager : RevocationManager; as_ca_id : Uuid;
  as_ca_dn : DistinguishedName; as_approval_config : Approval.ApprovalConfig;
  as_rbac_policy : RbacPolicy
}.

Record IssueCertificateRequest := {
  ic_profile_name : string; ic_subject : option DistinguishedName;
  ic_subject_alt_names : list SubjectAltName; ic_public_key : option (list u8);
  ic_metadata : option Json; ic_csr_der : option (list u8); ic_approval_request_id : option string
}.

(** [s.split_once(':')]. *)
Fixpoint split_colon (s : string) : option (string * string) :=
  match s with
  | EmptyString => None
  | String c s' =>
      if Ascii.eqb c ":" then Some ("", s')
      else (λ p, (String c p.1, p.2)) <$> split_colon s'
  end.
(** [to_ascii_uppercase]. *)
Definition ascii_upper (c : ascii) : ascii :=
  let n := N_of_ascii c in if (97 <=? n)%N && (n <=? 122)%N then ascii_of_N (n - 32) else c.
Fixpoint to_ascii_uppercase (s : string) : string :=
  match s with EmptyString => "" | String c s' => String (ascii_upper c) (to_ascii_uppercase s') end.
Definition san_of_string (s : string) : option SubjectAltName :=
  '(kind, value) ← split_colon s;
  table_lookup (to_ascii_uppercase kind)
    [("DNS", Some (SanDns value)); ("EMAIL", Some (SanRfc822 value)); ("URI", Some (SanUri value));
     ("IP", SanIp <$> parse_ip_addr value)] ≫= id.
Definition sans_from_strings (sans : list string) : list SubjectAltName := omap san_of_string sans.

(** The names submitted with the request, or those of the CSR when it has
    none. *)
Definition resolve_approval_sans (details : Json) (csr_sans : list string) : list SubjectAltName :=
  match omap json_as_str (default [] (json_get "subject_alt_names" details ≫= json_as_array)) with
  | [] => sans_from_strings csr_sans
  | requested => sans_from_strings requested
  end.

Section api.
Context {HL : CaLib} {HO : RevokedOrder}.
Variable st : ApiState.

Definition invalid {A} (context : string) (r : result A X509Error) : result A Error :=
  map_text InvalidRequest x509_error_to_string context r.
Definition parse_id (what id : string) : result Uuid Error :=
  ok_or (uuid_parse id) (InvalidRequest ("Invalid " +:+ what)).

(** *** Issuance and revocation *)

(** Subject, key and names: those of the request, and what it leaves out from
    its CSR. *)
Definition resolve_request (req : IssueCertificateRequest)
    : result (DistinguishedName * list u8 * list SubjectAltName) Error :=
  match ic_csr_der req with
  | Some csr_der =>
      let? parsed := invalid "Invalid CSR: " (parse_csr csr_der) in
      let? subject :=
        match ic_subject req with
        | Some s => Ok s
        | None => invalid "Invalid CSR subject: " (parse_csr_subject_dn csr_der)
        end in
      Ok (subject, default (public_key parsed) (ic_public_key req),
          match ic_subject_alt_names req with
          | [] => sans_from_strings (subject_alternative_names parsed)
          | sans => sans
          end)
  | None =>
      let? subject := ok_or (ic_subject req)
        (InvalidRequest "subject is required when no CSR is supplied") in
      let? key := ok_or (ic_public_key req)
        (InvalidRequest "public_key is required when no CSR is supplied") in
      Ok (subject, key, ic_subject_alt_names req)
  end.

Definition issuance_request (user : AuthenticatedUser) (req : IssueCertificateRequest)
    : result IssuanceRequest Error :=
  let? approval :=
    match ic_approval_request_id req with
    | Some id => let? id := parse_id "approval_request_id" id in Ok (Some id)
    | None => Ok None
    end in
  let? resolved := resolve_request req in
  Ok {| ir_profile_name := ic_profile_name req; ir_subject := resolved.1.1;
        ir_subject_alt_names := resolved.2; ir_public_key := resolved.1.2;
        ir_requestor := username user; ir_authenticated_caller := None;
        ir_metadata := ic_metadata req; ir_csr_der := ic_csr_der req;
        ir_approval_request_id := approval; ir_request_id := None |}.
Definition issue_certificate (user : AuthenticatedUser) (req : IssueCertificateRequest)
    : M IssuedCertificate :=
  let# rq := lift (issuance_request user req) in issue (as_issuer st) rq.

Definition revoke_certificate (user : AuthenticatedUser) (id : string) (why : RevocationReason)
    (just : option string) : M DateTime :=
  let# certificate := lift (parse_id "certificate ID" id) in
  let# _ := revoke {| certificate_id := certificate; reason := why; requestor := username user;
                      authenticated_caller := None; justification := just |} in
  let^ now := call ENow in ret now.
Definition check_revocation_status (id : string) : M bool :=
  let# certificate := lift (parse_id "certificate ID" id) in is_revoked certificate.

Definition generate_crl (user : AuthenticatedUser) : M GeneratedCrl :=
  generate_crl_by (as_revocation_manager st) (as_ca_dn st) (User (username user)).
Definition generate_delta_crl (user : AuthenticatedUser) : M GeneratedCrl :=
  generate_delta_crl_by (as_revocation_manager st) (as_ca_dn st) (User (username user)).
(** [None] is 404. *)
Definition serve_crl (context : string) (find : Sql (option Crl)) : M (option (list u8)) :=
  let^ latest := sql find in
  let# crl := lift (crl_text context latest) in ret (l_der_encoded <$> crl).
Definition get_crl : M (option (list u8)) :=
  serve_crl "Failed to load CRL: " (find_latest_crl (as_ca_id st)).
Definition get_delta_crl : M (option (list u8)) :=
  serve_crl "Failed to load delta CRL: " (find_latest_delta_crl (as_ca_id st)).

(** *** Approvals *)

Definition ensure_principal_provisioned (user : AuthenticatedUser) : M unit :=
  match certificate_subject user with
  | None => ret tt
  | Some subject =>
      let^ r := call (EEnsureUser (user_id user) subject) in
      Done (match r with
            | Ok _ => Ok tt
            | Err e => Err (Internal ("Failed to provision requestor identity: " +:+ e))
            end)
  end.

Definition submit_approval_request (user : AuthenticatedUser) (type : Approval.RequestType)
    (details : Json) : M (Approval.ApprovalRequest Json) :=
  let# _ := ensure_principal_provisioned user in
  let^ id := call EUuid in
  let^ now := call ENow in
  let submitted := Approval.create_request (as_approval_config st) id now type user details in
  let# _ := try_sql (create_request (Approval.request_record submitted)) in
  ret submitted.

Definition decision_record (override : bool) (d : Approval.ApprovalDecision Json) : ApprovalDecisionRecord :=
  {| dr_id := Approval.decision_id d; dr_request_id := Approval.request_id d;
     dr_approver_id := Approval.approver_id d; dr_approver_username := Approval.approver_username d;
     dr_approver_roles := role_name <$> Approval.approver_roles d;
     dr_decision := Approval.decision_display (Approval.decision d);
     dr_reason := Approval.reason d; dr_justification := Approval.justification d;
     dr_decided_at := Approval.decided_at d;
     dr_metadata := if override then Some (JObject [("validation_overridden", JBool true)]) else None |}.

Definition workflow {A} (r : result A Approval.CaError) : result A Error :=
  match r with Ok x => Ok x | Err e => Err (WorkflowError e) end.

(** The decision is stored before the request's status. *)
Definition store_decision (d : ApprovalDecisionRecord) (request : Approval.ApprovalRequest Json)
    : M unit :=
  let# _ := try_sql (create_decision d) in
  let# _ := try_sql (update_request_status (Approval.id request)
    (Approval.approval_status_display (Approval.status request)) (Approval.approved_at request)) in
  ret tt.

(** The engine reads the clock for the expiry test and, when the decision is
    allowed, draws its id and reads the clock again. *)
Definition two_reads (first second : DateTime) : Clock := λ n, match n with O => first | _ => second end.

Definition approved_issuance (request : Approval.ApprovalRequest Json) : result IssuanceRequest Error :=
  let details := Approval.request_details request in
  let? csr_pem := ok_or (json_get "csr_pem" details ≫= json_as_str)
    (InvalidRequest "approved request has no csr_pem to issue from") in
  let? profile := ok_or (json_get "profile" details ≫= json_as_str)
    (InvalidRequest "approved request has no profile to issue against") in
  let? decoded := map_text InvalidRequest id "invalid CSR PEM: " (pem_decode csr_pem) in
  let? parsed := invalid "invalid CSR: " (parse_csr decoded.2) in
  let? subject := invalid "invalid CSR subject: " (parse_csr_subject_dn decoded.2) in
  Ok {| ir_profile_name := profile; ir_subject := subject;
        ir_subject_alt_names := resolve_approval_sans details (subject_alternative_names parsed);
        ir_public_key := public_key parsed; ir_requestor := Approval.requestor_username request;
        ir_authenticated_caller := None; ir_metadata := None; ir_csr_der := Some decoded.2;
        ir_approval_request_id := Some (Approval.id request); ir_request_id := None |}.
Definition issue_from_approved_request (request : Approval.ApprovalRequest Json) : M Uuid :=
  let# rq := lift (approved_issuance request) in
  let# issued := issue (as_issuer st) rq in
  ret (ic_certificate_id issued).

Definition issues_certificate (request : Approval.ApprovalRequest Json) : bool :=
  bool_decide (Approval.certificate_id request = None) &&
  contains (Approval.request_type request) [Approval.Issuance; Approval.Renewal].

Definition override_text (override : bool) (justification : option string) : string :=
  default "Approved" justification +:+ (if override then " [validation overridden]" else "").

Definition approve_request (user : AuthenticatedUser) (id : string) (override : bool)
    (justification : option string) : M (ApprovalDecisionRecord * string) :=
  let# request_id := lift (parse_id "request ID" id) in
  let# _ := ensure_principal_provisioned user in
  if override && negb (any_role_has_permission (roles user) OverrideValidation) then
    fail (WorkflowError (Approval.InsufficientRole "OverrideValidation"))
  else
    let# found := try_sql (get_request request_id) in
    let# record := lift (ok_or found (ApprovalRequestNotFound request_id)) in
    let^ checked_at := call ENow in
    let^ decision_id := call EUuid in
    let^ decided_at := call ENow in
    let '(made, request) := Approval.approve_request decision_id (two_reads checked_at decided_at)
      user (override_text override justification) (from_record record) in
    let# decision := lift (workflow made) in
    let# _ := store_decision (decision_record override decision) request in
    if issues_certificate request then
      let# certificate := issue_from_approved_request request in
      let^ now := call ENow in
      let# _ := try_sql (mark_request_completed now request_id certificate) in
      ret (decision_record override decision, "completed")
    else ret (decision_record override decision,
              Approval.approval_status_display (Approval.status request)).

Definition reject_request (user : AuthenticatedUser) (id : string) (why justification : option string)
    : M (ApprovalDecisionRecord * string) :=
  let# request_id := lift (parse_id "request ID" id) in
  let# _ := ensure_principal_provisioned user in
  let# found := try_sql (get_request request_id) in
  let# record := lift (ok_or found (ApprovalRequestNotFound request_id)) in
  let^ checked_at := call ENow in
  let^ decision_id := call EUuid in
  let^ decided_at := call ENow in
  let '(made, request) := Approval.reject_request decision_id (two_reads checked_at decided_at) user
    (default "Rejected" why) (default "Request rejected" justification) (from_record record) in
  let# decision := lift (workflow made) in
  let# _ := store_decision (decision_record false decision) request in
  ret (decision_record false decision, Approval.approval_status_display (Approval.status request)).

(** *** The router *)

Inductive ApiCall :=
| IssueCertificateCall (req : IssueCertificateRequest)
| RevokeCall (id : string) (why : RevocationReason) (just : option string)
| GenerateCrlCall | GenerateDeltaCrlCall
| SubmitCall (type : Approval.RequestType) (details : Json)
| ApproveCall (id : string) (override : bool) (justification : option string)
| RejectCall (id : string) (why justification : option string).
Definition call_permission (c : ApiCall) : Permission :=
  match c with
  | IssueCertificateCall _ => IssueCertificate | RevokeCall _ _ _ => RevokeCertificate
  | GenerateCrlCall | GenerateDeltaCrlCall => GenerateCrl | SubmitCall _ _ => SubmitRequest
  | ApproveCall _ _ _ => ApproveRequest | RejectCall _ _ _ => RejectRequest
  end.
Inductive ApiResponse := Forbidden | Failure (e : Error) | Success.
Definition respond {A} (p : M A) : Prog ApiResponse :=
  let^ r := p in Done (match r with Ok _ => Success | Err e => Failure e end).
Definition handle (user : AuthenticatedUser) (c : ApiCall) : Prog ApiResponse :=
  match c with
  | IssueCertificateCall req => respond (issue_certificate user req)
  | RevokeCall id why just => respond (revoke_certificate user id why just)
  | GenerateCrlCall => respond (generate_crl user)
  | GenerateDeltaCrlCall => respond (generate_delta_crl user)
  | SubmitCall type details => respond (submit_approval_request user type details)
  | ApproveCall id override just => respond (approve_request user id override just)
  | RejectCall id why just => respond (reject_request user id why just)
  end.
Definition route (user : AuthenticatedUser) (c : ApiCall) : Prog ApiResponse :=
  match (authorize uuid_to_string (as_rbac_policy st) user (call_permission c) "resource" []).1 with
  | Ok _ => handle user c
  | Err _ => Done Forbidden
  end.
End api.
