(* ===== verification/IssuedCert.v ===== *)
(** * What an issued certificate says

    The certificate that [sign_certificate] of Issuance.v makes: its names,
    key, validity and extensions are those of the request and its profile. *)
From stdpp Require Import base strings list gmap.
From Stdlib Require Import ZArith Lia.
From S2P Require Import Prelude Algorithm Der Signing X509Names CertParser CertProfile CertBuilder CaStore CaCore Issuance.
From S2P Require Pathval.
#[local] Open Scope Z_scope.

Section issued.
Context {HL : CaLib}.

(** An extension that is there exactly when what it is about is, with its id
    and criticality, and a value that says it. *)
Definition said {A} (field : option A) (id : string) (critical : bool)
    (says : A → list u8 → Prop) (l : list Extension) : Prop :=
  match field with
  | Some x => ∃ v, says x v ∧ l = [extension id critical v]
  | None => l = []
  end.
Definition some_of {A} (l : list A) : option (list A) := match l with [] => None | _ => Some l end.

(** The general names of the names asked for; a directory name has none. *)
Definition san_names (sans : list SubjectAltName) : list GeneralName :=
  omap (λ san, match san with
    | SanDns name => Some (GnDns name) | SanRfc822 mail => Some (GnRfc822 mail)
    | SanUri uri => Some (GnUri uri) | SanIp ip => Some (GnIp (ip_octets ip))
    | SanDirectory _ => None
    end) sans.
(** RFC 5280's first method of a key identifier. *)
Definition key_id (spki_der : list u8) : option (list u8) :=
  match spki_try_from spki_der with Ok spki => Some (sha1 (spki_raw_bytes spki)) | Err _ => None end.
Definition ca_key_id (i : CertificateIssuer) : option (list u8) :=
  match parse_certificate (c_der_encoded (ci_ca_certificate i)) with
  | Ok parsed => key_id (Pathval.public_key parsed)
  | Err _ => None
  end.
(** Where to ask about a certificate and its issuer: id-ad-ocsp, id-ad-caIssuers. *)
Definition access_locations (i : CertificateIssuer) : list (string * string) :=
  option_list (pair "1.3.6.1.5.5.7.48.1" <$> ci_ocsp_responder_url i) ++
  option_list (pair "1.3.6.1.5.5.7.48.2" <$> ci_ca_issuers_url i).

(** The extensions are these eight, in this order, and no others: the usages,
    constraints and purposes of the profile, the names asked for, the
    identifiers of the CA's and the subject's key, and the issuer's CRL and
    access locations. *)
Definition extensions_say (i : CertificateIssuer) (rq : IssuanceRequest) (p : CertificateProfile)
    (exts : list Extension) : Prop :=
  ∃ usage constraints purposes names ca_key key crls access,
    exts = usage ++ constraints ++ purposes ++ names ++ ca_key ++ key ++ crls ++ access ∧
    said (some_of (p_key_usage p)) ID_CE_KEY_USAGE true (λ us v, ∃ bits,
      bit_string_from_bytes (to_be_bytes 2 (usage_bits us)) = Ok bits ∧ bit_string_to_der bits = Ok v) usage ∧
    said (if p_ca p || bool_decide (is_Some (p_path_len p)) then Some tt else None)
      ID_CE_BASIC_CONSTRAINTS (p_ca p)
      (λ _ v, basic_constraints_to_der (p_ca p) (p_path_len p) = Ok v) constraints ∧
    said (some_of (p_extended_key_usage p)) ID_CE_EXT_KEY_USAGE false
      (λ us v, ekus_to_der (eku_oid <$> us) = Ok v) purposes ∧
    said (some_of (san_names (ir_subject_alt_names rq))) ID_CE_SUBJECT_ALT_NAME false
      (λ gns v, san_to_der gns = Ok v) names ∧
    said (ca_key_id i) ID_CE_AUTHORITY_KEY_IDENTIFIER false (λ k v, aki_to_der k = Ok v) ca_key ∧
    said (key_id (ir_public_key rq)) ID_CE_SUBJECT_KEY_IDENTIFIER false (λ k v, ski_to_der k = Ok v) key ∧
    said (ci_crl_distribution_url i) ID_CE_CRL_DISTRIBUTION_POINTS false
      (λ url v, crl_dps_to_der [url] = Ok v) crls ∧
    said (some_of (access_locations i)) ID_PE_AUTHORITY_INFO_ACCESS false
      (λ l v, aia_to_der l = Ok v) access.

Lemma optional_extension_said {A} (field : option A) i c v (says : A → list u8 → Prop) l :
  optional_extension field i c v = Ok l → (∀ x b, field = Some x → v x = Ok b → says x b) →
  said field i c says l.
Proof.
  destruct field as [x|]; [|by intros [= <-] _].
  intros (b & Hb & [= <-])%res_bind_Ok HH. exists b. split; [by apply HH|done].
Qed.
Lemma each_map {A B} (f : A → result B X509Error) (g : A → B) l ys :
  (∀ x y, f x = Ok y → y = g x) → each f l = Ok ys → ys = g <$> l.
Proof. intros Hf HH%each_Ok. induction HH as [|x y l ys Hy _ IH]; [done|]. cbn. by rewrite (Hf _ _ Hy), IH. Qed.
Lemma option_list_some {A} (o : option A) : some_of (option_list o) = (λ x, [x]) <$> o.
Proof. by destruct o. Qed.

Lemma eku_to_oid_Ok e oid : eku_to_oid e = Ok oid → oid = eku_oid e.
Proof. destruct e as [| | | | | | |o]; cbn; try by intros [= <-]. by intros (? & _ & [= <-])%res_bind_Ok. Qed.
Lemma general_names_Ok sans names : each general_name sans = Ok names → omap id names = san_names sans.
Proof.
  intros HH%each_Ok. induction HH as [|san name sans names Hn _ IH]; [done|].
  destruct san as [d|m|u|ip|d]; cbn in Hn; [..|by injection Hn as <-];
    first [apply res_bind_Ok in Hn as (_ & _ & Hn)|idtac]; injection Hn as <-; cbn; by f_equal.
Qed.
Definition access_location (a : AuthorityInfoAccess) : string * string :=
  match a with
  | Ocsp uri => ("1.3.6.1.5.5.7.48.1", uri) | CaIssuers uri => ("1.3.6.1.5.5.7.48.2", uri)
  end.
Lemma access_description_Ok a d : access_description a = Ok d → d = access_location a.
Proof. destruct a; cbn; by intros (? & _ & [= <-])%res_bind_Ok. Qed.

(** What of the request and the profile the structure that is signed has. *)
Record asked_tbs (i : CertificateIssuer) (rq : IssuanceRequest) (p : CertificateProfile)
    (t : TbsCertificate) : Prop := {
  at_usage : t_key_usage t = p_key_usage p;
  at_purposes : t_extended_key_usage t = p_extended_key_usage p;
  at_ca : t_ca t = p_ca p; at_path : t_path_len t = p_path_len p;
  at_names : t_subject_alt_names t = ir_subject_alt_names rq;
  at_ca_key : t_authority_key_id t = ca_key_id i;
  at_own_key : t_subject_key_id t = key_id (ir_public_key rq);
  at_crls : t_crl_distribution_points t = option_list (ci_crl_distribution_url i);
  at_access : access_location <$> t_authority_info_access t = access_locations i;
  at_policies : t_certificate_policies t = []
}.

Lemma build_extensions_say i rq p t exts :
  asked_tbs i rq p t → build_extensions t = Ok exts → extensions_say i rq p (default [] exts).
Proof.
  intros [A1 A2 A3 A4 A5 A6 A7 A8 A9 A10] HH. unfold build_extensions in HH.
  rewrite A1, A2, A3, A4, A5, A6, A7, A8, A10 in HH.
  apply res_bind_Ok in HH as (usage & Husage & HH).
  apply res_bind_Ok in HH as (constraints & Hcons & HH).
  apply res_bind_Ok in HH as (ekus & Hekus & HH).
  apply res_bind_Ok in HH as (names & Hnames%general_names_Ok & HH).
  apply res_bind_Ok in HH as (sans & Hs & HH). rewrite Hnames in Hs.
  apply res_bind_Ok in HH as (aki & Haki & HH).
  apply res_bind_Ok in HH as (ski & Hski & HH).
  apply res_bind_Ok in HH as (crl & Hcrl & HH).
  apply res_bind_Ok in HH as (aia & Haia & HH).
  apply res_bind_Ok in HH as (policies & Hpol & HH). injection Hpol as <-. rewrite app_nil_r in HH.
  exists usage, constraints, ekus, sans, aki, ski, crl, aia.
  split; [by destruct (usage ++ _); injection HH as <-|]. split_and!.
  - apply (optional_extension_said _ _ _ _ _ _ Husage).
    intros us b _ (bits & Hb%encoding_Ok & Hv%encoding_Ok)%res_bind_Ok. by exists bits.
  - replace (bool_decide (is_Some _)) with (negb (bool_decide (p_path_len p = None)))
      by by destruct (p_path_len p).
    apply (optional_extension_said _ _ _ _ _ _ Hcons). by intros _ b _ Hb%encoding_Ok.
  - apply (optional_extension_said _ _ _ _ _ _ Hekus).
    intros us b _ (oids & Ho & Hv%encoding_Ok)%res_bind_Ok.
    by rewrite <- (each_map _ _ _ _ eku_to_oid_Ok Ho).
  - apply (optional_extension_said _ _ _ _ _ _ Hs). by intros us b _ Hb%encoding_Ok.
  - apply (optional_extension_said _ _ _ _ _ _ Haki). by intros us b _ Hb%encoding_Ok.
  - apply (optional_extension_said _ _ _ _ _ _ Hski). by intros us b _ Hb%encoding_Ok.
  - destruct (ci_crl_distribution_url i) as [url|]; [|by injection Hcrl as <-].
    apply res_bind_Ok in Hcrl as (b & Hb & [= <-]). apply res_bind_Ok in Hb as (_ & _ & Hb%encoding_Ok).
    by exists b.
  - rewrite <- A9. destruct (t_authority_info_access t) as [|a l]; [by injection Haia as <-|].
    apply res_bind_Ok in Haia as (b & Hb & [= <-]). apply res_bind_Ok in Hb as (ds & Hds & Hb%encoding_Ok).
    exists b. by rewrite <- (each_map _ _ _ _ access_description_Ok Hds).
Qed.

(** *** The builder *)

Lemma set_optional_fields {A} (f : option A) g b (P : CertificateBuilder → Prop) :
  (∀ x b, P b → P (g x b)) → P b → P (set_optional f g b).
Proof. intros Hg Hb. destruct f; [by apply Hg|done]. Qed.

(** What the later setters leave as it is. *)
Record carries (rq : IssuanceRequest) (p : CertificateProfile) (now : DateTime) (serial : list u8)
    (issuer_dn : DistinguishedName) (a : Algorithm) (ski : list u8) (b : CertificateBuilder) : Prop := {
  cr_serial : b_serial_number b = Some serial; cr_subject : b_subject b = Some (ir_subject rq);
  cr_issuer : b_issuer b = Some issuer_dn; cr_from : b_not_before b = Some now;
  cr_until : b_not_after b = Some (now + days (p_validity_days p));
  cr_key : b_public_key b = Some (ir_public_key rq); cr_usage : b_key_usage b = p_key_usage p;
  cr_purposes : b_extended_key_usage b = p_extended_key_usage p;
  cr_ca : b_ca b = p_ca p; cr_path : b_path_len b = p_path_len p;
  cr_algorithm : b_signature_algorithm b = Some a;
  cr_ski : b_subject_key_id b = Some ski; cr_policies : b_certificate_policies b = []
}.
(** What they add. *)
Record adds (i : CertificateIssuer) (rq : IssuanceRequest) (b : CertificateBuilder) : Prop := {
  ad_names : b_subject_alt_names b = ir_subject_alt_names rq;
  ad_ca_key : b_authority_key_id b = authority_key i;
  ad_crls : b_crl_distribution_points b = option_list (ci_crl_distribution_url i);
  ad_access : b_authority_info_access b =
    option_list (Ocsp <$> ci_ocsp_responder_url i) ++ option_list (CaIssuers <$> ci_ca_issuers_url i)
}.

(** Adding names changes the names only. *)
Lemma foldl_names sans b : let b' := foldl (λ b san, add_subject_alt_name san b) b sans in
  b_subject_alt_names b' = b_subject_alt_names b ++ sans ∧
  b_authority_key_id b' = b_authority_key_id b ∧
  b_crl_distribution_points b' = b_crl_distribution_points b ∧
  b_authority_info_access b' = b_authority_info_access b.
Proof.
  revert b. induction sans as [|s sans IH]; intros b; cbn; [by rewrite app_nil_r|].
  destruct (IH (add_subject_alt_name s b)) as (-> & -> & -> & ->). cbn. by rewrite <- app_assoc.
Qed.

Lemma builder_carries i rq p now serial issuer_dn a ski :
  carries rq p now serial issuer_dn a ski (builder_of i rq p now serial issuer_dn a ski).
Proof.
  unfold builder_of. cbv zeta.
  do 3 (apply set_optional_fields; [by intros x b []|]).
  set (b := set_optional _ _ (set_subject_key_id _ _)).
  assert (carries rq p now serial issuer_dn a ski b) as Hb.
  { apply set_optional_fields; [by intros x b' []|]. done. }
  clearbody b. revert b Hb. induction (ir_subject_alt_names rq) as [|s l IH]; intros b Hb; [done|].
  apply IH. by destruct Hb.
Qed.

Lemma builder_adds i rq p now serial issuer_dn a ski :
  adds i rq (builder_of i rq p now serial issuer_dn a ski).
Proof.
  unfold builder_of. cbv zeta. set (b0 := set_optional (authority_key i) _ _).
  assert (b_subject_alt_names b0 = [] ∧ b_authority_key_id b0 = authority_key i ∧
    b_crl_distribution_points b0 = [] ∧ b_authority_info_access b0 = []) as (E1 & E2 & E3 & E4).
  { subst b0. by destruct (authority_key i). }
  destruct (foldl_names (ir_subject_alt_names rq) b0) as (F1 & F2 & F3 & F4).
  split; destruct (ci_crl_distribution_url i), (ci_ocsp_responder_url i), (ci_ca_issuers_url i);
    cbn [set_optional option_list option_fmap option_map fmap app b_subject_alt_names b_authority_key_id
      b_crl_distribution_points b_authority_info_access add_crl_distribution_point
      add_authority_info_access]; rewrite ?F1, ?F2, ?F3, ?F4, ?E1, ?E2, ?E3, ?E4; done.
Qed.

Lemma authority_key_id i : authority_key i = ca_key_id i.
Proof.
  unfold authority_key, ca_key_id, ca_subject_public_key_info, key_id, key_identifier.
  destruct (parse_certificate _) as [parsed|]; [|done]. cbn. by destruct (spki_try_from _).
Qed.
Lemma key_identifier_id spki_der k : key_identifier spki_der = Ok k → key_id spki_der = Some k.
Proof. unfold key_identifier, key_id. destruct (spki_try_from _); [|done]. by intros [= <-]. Qed.

Lemma build_tbs_carries i rq p now serial issuer_dn a ski b t :
  carries rq p now serial issuer_dn a ski b → adds i rq b → key_identifier (ir_public_key rq) = Ok ski →
  build_tbs b = Ok t →
  t_serial_number t = serial ∧ t_subject t = ir_subject rq ∧ t_issuer t = issuer_dn ∧
  t_not_before t = now ∧ t_not_after t = now + days (p_validity_days p) ∧
  t_public_key t = ir_public_key rq ∧ t_signature_algorithm t = Some a ∧
  now < now + days (p_validity_days p) ∧ asked_tbs i rq p t.
Proof.
  intros [C1 C2 C3 C4 C5 C6 C7 C8 C9 C10 C11 C12 C13] [D1 D2 D3 D4] Hk%key_identifier_id. unfold build_tbs.
  rewrite C1, C2, C3, C4, C5, C6. cbn [ok_or res_bind].
  destruct (_ <=? _) eqn:Hle; [done|]. apply Z.leb_gt in Hle. intros [= <-]. cbn.
  split_and!; try done || lia. split; cbn; try done.
  - by rewrite D2, authority_key_id.
  - by rewrite C12, Hk.
  - rewrite D4. unfold access_locations. by destruct (ci_ocsp_responder_url i), (ci_ca_issuers_url i).
Qed.

Lemma build_signed_certificate_Ok tbs tbs_der signature der :
  certificate_tbs_to_der tbs = Ok tbs_der → build_signed_certificate tbs_der signature = Ok der →
  ∃ xc, certificate_from_der der = Ok xc ∧ xc_tbs xc = tbs ∧ xc_algorithm xc = xt_signature tbs ∧
    bit_string_from_bytes signature = Ok (xc_signature xc).
Proof.
  intros Hd%certificate_tbs_roundtrip HH. unfold build_signed_certificate, issuance_text, map_text in HH.
  rewrite Hd in HH. cbn [res_bind] in HH. destruct (bit_string_from_bytes signature) as [s|]; [|done].
  cbn [res_bind] in HH. destruct (certificate_to_der _) as [d|] eqn:Hc; [|done]. injection HH as <-.
  apply certificate_roundtrip in Hc. by eexists.
Qed.

(** The fields of the structure that is signed. *)
Lemma tbs_certificate_der_Ok t a tbs_der :
  t_signature_algorithm t = Some a → tbs_certificate_der debug_algorithm crypto_text t = Ok tbs_der →
  ∃ tbs, certificate_tbs_to_der tbs = Ok tbs_der ∧
    algorithm_identifier debug_algorithm a = Ok (xt_signature tbs) ∧
    serial_number_new (t_serial_number t) = Ok (xt_serial_number tbs) ∧
    dn_to_name (t_issuer t) = Ok (xt_issuer tbs) ∧ dn_to_name (t_subject t) = Ok (xt_subject tbs) ∧
    datetime_to_time (t_not_before t) = Ok (xt_not_before tbs) ∧
    datetime_to_time (t_not_after t) = Ok (xt_not_after tbs) ∧
    spki_try_from (t_public_key t) = Ok (xt_spki tbs) ∧ build_extensions t = Ok (xt_extensions tbs).
Proof.
  intros Ha (tbs & Htbs & Hder%encoding_Ok)%res_bind_Ok. exists tbs. split; [done|].
  apply res_bind_Ok in Htbs as (serial & Hs%encoding_Ok & HH). apply res_bind_Ok in HH as (iss & Hi & HH).
  apply res_bind_Ok in HH as (sub & Hsub & HH). apply res_bind_Ok in HH as (nb & Hnb & HH).
  apply res_bind_Ok in HH as (na & Hna & HH). apply res_bind_Ok in HH as (key & Hk%encoding_Ok & HH).
  apply res_bind_Ok in HH as (alg & Halg & HH). apply res_bind_Ok in HH as (exts & Hx & [= <-]).
  cbn. unfold get_signature_algorithm in Halg. rewrite Ha in Halg.
  destruct (algorithm_identifier _ _) as [al|]; [|done]. injection Halg as ->. by split_and!.
Qed.
End issued.
