(* ===== verification/CaInv.v ===== *)
(** * The CA in every run, and its invariant

    The worlds of the CA and their steps; what holds in every world: CRL numbers and times, the rows of
    requests for approval with the decisions behind them, and for every
    certificate the request it was issued for, what was checked and what was
    signed.  Then what each statement keeps, and the rules of the program
    logic for the effects. *)
From stdpp Require Import base strings list gmap sorting relations.
From Stdlib Require Import ZArith Lia.
From S2P Require Import Prelude Roles Der Algorithm Signing Programs X509Names Csr CertProfile CertBuilder CaStore CaCore CrlBuilder Revocation Issuance CaGrpc CaApi IssuedCert.
From S2P Require Approval AuditLog.
#[local] Open Scope Z_scope.

(** ** Runs

    Any number of CA servers over one database: issuance, the approval
    workflow, revocations, CRL generations and status queries run interleaved,
    statement by statement, while the clocks of the database and of the
    servers advance.  What arrives, what is signed and what is
    audited is the trace. *)

Section world.
Context {HL : CaLib} {HO : RevokedOrder}.

(** [RqGrpc] and [RqApi] are the calls of the two interfaces; [RqRevoke],
    [RqStatus], [RqCrl] and [RqDelta] those of the server itself, such as its
    scheduler's. *)
Inductive Request :=
| RqGrpc (svc : CaGrpcService) (leaf : option (list u8)) (call : GrpcCall)
| RqRevoke (rq : RevocationRequest) | RqStatus (id : Uuid)
| RqCrl (m : RevocationManager) (issuer_dn : DistinguishedName) (actor : CrlActor)
| RqDelta (m : RevocationManager) (issuer_dn : DistinguishedName) (actor : CrlActor)
| RqApi (st : ApiState) (user : AuthenticatedUser) (call : ApiCall).

Definition answer {A} (p : Prog A) : Prog unit := let^ _ := p in Done tt.
Definition serve (r : Request) : Prog unit :=
  match r with
  | RqGrpc svc leaf call => answer (grpc_call svc leaf call)
  | RqRevoke rq => answer (revoke rq)
  | RqStatus id => answer (revocation_status id)
  | RqCrl m dn actor => answer (generate_crl_by m dn actor)
  | RqDelta m dn actor => answer (generate_delta_crl_by m dn actor)
  | RqApi st user call => answer (route st user call)
  end.

Inductive Event :=
| EvRequest (r : Request)
| EvSigned (key : KeyHandle) (a : Algorithm) (tbs signature : list u8)
| EvAudit (e : CaEvent).
Record World := { wdb : CaDb; w_db_now : DateTime; w_app_now : DateTime; wtrace : list Event }.
Definition with_db (d : CaDb) (w : World) : World :=
  {| wdb := d; w_db_now := w_db_now w; w_app_now := w_app_now w; wtrace := wtrace w |}.
Definition observe (ev : Event) (w : World) : World :=
  {| wdb := wdb w; w_db_now := w_db_now w; w_app_now := w_app_now w; wtrace := wtrace w ++ [ev] |}.
Definition at_time (db app : DateTime) (w : World) : World :=
  {| wdb := wdb w; w_db_now := db; w_app_now := app; wtrace := wtrace w |}.
Definition after {A} (f : Sql A) (w : World) : World := with_db (f (w_db_now w) (wdb w)).2 w.

(** A statement, and the sink, may fail before or after they took effect. *)
Definition answers (w : World) {X} (e : CaE X) : X → World → Prop :=
  match e in CaE X return X → World → Prop with
  | ESql f => λ x w',
      (x = (f (w_db_now w) (wdb w)).1 ∧ w' = after f w) ∨
      (∃ e, x = Err e ∧ (w' = w ∨ w' = after f w))
  | ENow => λ x w', x = w_app_now w ∧ w' = w
  | EUuid => λ _ w', w' = w
  | ERandom n => λ x w', w' = w ∧ ∀ b, x = Ok b → length b = n ∧ u8_list b
  | ESign key a tbs => λ x w',
      w' = match x with Ok s => observe (EvSigned key a tbs s) w | Err _ => w end
  | EEnsureUser _ _ => λ _ w', w' = w
  | ERecord ev => λ x w',
      (x = Ok tt ∧ w' = observe (EvAudit ev) w) ∨
      (∃ e, x = Err e ∧ (w' = w ∨ w' = observe (EvAudit ev) w))
  end.
Definition spawned {X} (e : CaE X) : list (Prog unit) := [].

(** Bulk enrollment queues requests like [submit_approval_request]. *)
Inductive env : World → World → list (Prog unit) → Prop :=
| env_request w r : env w (observe (EvRequest r) w) [serve r]
| env_tick w db app : w_db_now w ≤ db → w_app_now w ≤ app → env w (at_time db app w) []
| env_queue w c id now user details :
    env w (after (create_request (Approval.request_record
      (Approval.create_request c id now Approval.Issuance user details))) w) [].

Definition step : World * list (Prog unit) → World * list (Prog unit) → Prop :=
  Programs.step (@answers) (@spawned) env.
Definition runs {A} : Prog A → World * list (Prog unit) → A → World * list (Prog unit) → Prop :=
  Programs.runs (@answers) (@spawned) env.
Definition start (db app : DateTime) : World * list (Prog unit) :=
  ({| wdb := {| certificates := []; crls := []; approvals := []; decisions := [] |};
      w_db_now := db; w_app_now := app; wtrace := [] |}, []).
Definition reachable (s : World * list (Prog unit)) : Prop := ∃ db app, rtc step (start db app) s.
End world.

Section invariant.
Context {HL : CaLib} {HO : RevokedOrder}.

(** ** What later worlds keep *)

(** A row of [certificates] becomes revoked at most, and then stays as it is. *)
Definition same_certificate (c c' : Certificate) : Prop :=
  c' = c ∨ (c_revoked c = false ∧ ∃ now reason, c' = set_revoked now reason c).

Lemma same_certificate_revoked c c' : same_certificate c c' → c_revoked c = true → c' = c.
Proof. intros [->|[Hr _]] ?; [done|congruence]. Qed.
Lemma same_certificate_trans c1 c2 c3 :
  same_certificate c1 c2 → same_certificate c2 c3 → same_certificate c1 c3.
Proof.
  intros H12 [->|[Hr (now & reason & ->)]]; [done|]. destruct H12 as [->|[_ (? & ? & ->)]]; [|done].
  right. split; [done|]. by eexists _, _.
Qed.

(** A request for approval changes its status, its certificate and its times
    only. *)
Definition same_request (r r' : ApprovalRequestRecord) : Prop :=
  ∃ status certificate approved completed, r' = set_row status certificate approved completed r.
Lemma same_request_refl r : same_request r r.
Proof. exists (Approval.rec_status r), (Approval.rec_certificate_id r), (Approval.rec_approved_at r), (Approval.rec_completed_at r). by destruct r. Qed.
Lemma same_request_trans r1 r2 r3 : same_request r1 r2 → same_request r2 r3 → same_request r1 r3.
Proof. intros (? & ? & ? & ? & ->) (s & c & a & k & ->). by exists s, c, a, k. Qed.

Definition later (w w' : World) : Prop :=
  (∀ c, c ∈ certificates (wdb w) → ∃ c', c' ∈ certificates (wdb w') ∧ same_certificate c c') ∧
  crls (wdb w) `prefix_of` crls (wdb w') ∧ w_db_now w ≤ w_db_now w' ∧ w_app_now w ≤ w_app_now w' ∧
  wtrace w `prefix_of` wtrace w' ∧
  (∀ r, r ∈ approvals (wdb w) → ∃ r', r' ∈ approvals (wdb w') ∧ same_request r r') ∧
  decisions (wdb w) `prefix_of` decisions (wdb w').

#[export] Instance later_preorder : PreOrder later.
Proof.
  split.
  - intros w. split_and!; try done.
    + intros c Hc. exists c. split; [done|by left].
    + intros r Hr. exists r. split; [done|apply same_request_refl].
  - intros w1 w2 w3 (A1 & B1 & C1 & D1 & E1 & F1 & G1) (A2 & B2 & C2 & D2 & E2 & F2 & G2).
    split_and!; [|by etransitivity|lia|lia|by etransitivity| |by etransitivity].
    + intros c (c' & Hc' & S1)%A1. apply A2 in Hc' as (c'' & Hc'' & S2).
      exists c''. split; [done|]. by eapply same_certificate_trans.
    + intros r (r' & Hr' & S1)%F1. apply F2 in Hr' as (r'' & Hr'' & S2).
      exists r''. split; [done|]. by eapply same_request_trans.
Qed.

(** Each part of the tables that a statement can leave as it is. *)
Lemma later_with_db w d :
  (∀ c, c ∈ certificates (wdb w) → ∃ c', c' ∈ certificates d ∧ same_certificate c c') →
  crls (wdb w) `prefix_of` crls d →
  (∀ r, r ∈ approvals (wdb w) → ∃ r', r' ∈ approvals d ∧ same_request r r') →
  decisions (wdb w) `prefix_of` decisions d → later w (with_db d w).
Proof. intros Hc Hl Hr Hd. unfold later; cbn. split_and!; done || lia. Qed.
Lemma certificates_kept (cs : list Certificate) c : c ∈ cs → ∃ c', c' ∈ cs ∧ same_certificate c c'.
Proof. intros Hc. exists c. split; [done|by left]. Qed.
Lemma requests_kept (rs : list ApprovalRequestRecord) r : r ∈ rs → ∃ r', r' ∈ rs ∧ same_request r r'.
Proof. intros Hr. exists r. split; [done|apply same_request_refl]. Qed.
Lemma trace_kept w w' ev : later w w' → ev ∈ wtrace w → ev ∈ wtrace w'.
Proof. intros (_ & _ & _ & _ & [k ->] & _) Hev. apply elem_of_app. by left. Qed.

(** ** What is known of a certificate *)

(** A decision of someone who may approve and did not submit the request, made
    by a call of that user. *)
Definition decided (r : ApprovalRequestRecord) (w : World) : Prop :=
  ∃ d st user id override just,
    d ∈ decisions (wdb w) ∧ dr_request_id d = Approval.rec_id r ∧ dr_decision d = "approved" ∧
    dr_approver_id d = user_id user ∧
    EvRequest (RqApi st user (ApproveCall id override just)) ∈ wtrace w ∧
    user_id user ≠ Approval.rec_requestor_id r ∧
    any_role_has_permission (roles user) ApproveRequest = true.
Lemma decided_later r r' w w' : later w w' → same_request r r' → decided r w → decided r' w'.
Proof.
  intros Hl (? & ? & ? & ? & ->) (d & st & user & id & o & j & Hd & Hid & Hk & Ha & Hev & Hne & Hp).
  exists d, st, user, id, o, j. split_and!; try done; [|by eapply trace_kept].
  destruct Hl as (_ & _ & _ & _ & _ & _ & [k ->]). apply elem_of_app. by left.
Qed.

(** Who asked for the certificate, and that they may: a client of the gRPC
    listener that may issue when its call is authorized; a user with the
    permission; and for a request that is issued on its approval, a user who
    may approve and did not submit it, and its row. *)
Definition requested (i : CertificateIssuer) (rq : IssuanceRequest) (w : World) : Prop :=
  (∃ svc leaf req now caller id, EvRequest (RqGrpc svc leaf (GIssue req)) ∈ wtrace w ∧
     now ≤ w_app_now w ∧ may_issue svc leaf req now caller ∧ i = gs_issuer svc ∧
     grpc_issuance_request req caller id = Ok rq) ∨
  (∃ st user req, EvRequest (RqApi st user (IssueCertificateCall req)) ∈ wtrace w ∧
     any_role_has_permission (roles user) IssueCertificate = true ∧
     i = as_issuer st ∧ issuance_request user req = Ok rq) ∨
  (∃ st user id override just r, EvRequest (RqApi st user (ApproveCall id override just)) ∈ wtrace w ∧
     any_role_has_permission (roles user) ApproveRequest = true ∧ i = as_issuer st ∧
     r ∈ approvals (wdb w) ∧ user_id user ≠ Approval.rec_requestor_id r ∧
     approved_issuance (from_record r) = Ok rq).
Lemma approved_issuance_same r r' : same_request r r' →
  approved_issuance (from_record r') = approved_issuance (from_record r).
Proof. by intros (? & ? & ? & ? & ->). Qed.
Lemma requested_later i rq w w' : later w w' → requested i rq w → requested i rq w'.
Proof.
  intros Hl [(svc & leaf & q & now & c & id & He & Hn & HH)|[(st & u & q & He & HH)|(st & u & id & o & j & r & He & Hp & Hi & Hr & Hne & Ha)]].
  - left. exists svc, leaf, q, now, c, id. split; [by eapply trace_kept|].
    split; [|done]. destruct Hl as (_ & _ & _ & ? & _). lia.
  - right; left. exists st, u, q. split; [by eapply trace_kept|done].
  - right; right. destruct Hl as (A & B & C & D & E & F & G).
    apply F in Hr as (r' & Hr' & Hs). exists st, u, id, o, j, r'. split_and!; try done.
    + destruct E as [k ->]. apply elem_of_app. by left.
    + by destruct Hs as (? & ? & ? & ? & ->).
    + by rewrite (approved_issuance_same _ _ Hs).
Qed.

(** What was checked. *)
Record permitted (i : CertificateIssuer) (rq : IssuanceRequest) (p : CertificateProfile) : Prop := {
  pm_profile : ci_profiles i !! ir_profile_name rq = Some p;
  pm_valid : validate p = Ok tt;
  pm_policy : meets (ci_secure_defaults i) p;
  pm_caller : is_Some (ir_authenticated_caller rq) → p_ca p = false;
  pm_names : p_san_required p = true → ir_subject_alt_names rq ≠ [];
  pm_csr der : ir_csr_der rq = Some der → ∃ csr, parse_csr der = Ok csr ∧ possession der csr ∧
    public_key csr = ir_public_key rq;
  pm_possession : ci_require_proof_of_possession i = true → p_ca p = false → is_Some (ir_csr_der rq)
}.
(** When approval is required: an approved request for issuance. *)
Definition approved (i : CertificateIssuer) (rq : IssuanceRequest) (w : World) : Prop :=
  Approval.require_approval (ci_approval_config i) = true → ∃ r, r ∈ approvals (wdb w) ∧
    ir_approval_request_id rq = Some (Approval.rec_id r) ∧
    Approval.request_type (from_record r) = Approval.Issuance ∧ decided r w.
Lemma approved_later i rq w w' : later w w' → approved i rq w → approved i rq w'.
Proof.
  intros Hl HH Hr. destruct (HH Hr) as (r & Hin & Hid & Ht & Hd).
  pose proof Hl as (_ & _ & _ & _ & _ & F & _). destruct (F r Hin) as (r' & Hin' & Hs). exists r'.
  split; [done|]. pose proof Hs as (? & ? & ? & ? & Hs'). split; [by rewrite Hs'|].
  split; [by rewrite Hs'|by eapply decided_later].
Qed.

(** What the row and its bytes say, and that the CA's key signed them. *)
Record certified (i : CertificateIssuer) (rq : IssuanceRequest) (p : CertificateProfile)
    (c : Certificate) (xc : X509Certificate) (w : World) : Prop := {
  ct_row : c_ca_id c = c_id (ci_ca_certificate i) ∧
    c_subject_dn c = to_string_rfc4514 (ir_subject rq) ∧ c_requestor c = Some (ir_requestor rq) ∧
    c_profile_name c = Some (ir_profile_name rq) ∧ c_revoked c = false;
  ct_der : certificate_from_der (c_der_encoded c) = Ok xc;
  ct_subject : dn_to_name (ir_subject rq) = Ok (xt_subject (xc_tbs xc));
  ct_issuer : ∃ dn, parse_subject_dn (c_der_encoded (ci_ca_certificate i)) = Ok dn ∧
    dn_to_name dn = Ok (xt_issuer (xc_tbs xc));
  ct_key : spki_try_from (ir_public_key rq) = Ok (xt_spki (xc_tbs xc));
  ct_serial : serial_number_new (c_serial_number c) = Ok (xt_serial_number (xc_tbs xc)) ∧
    length (c_serial_number c) = 20%nat;
  ct_validity : datetime_to_time (c_not_before c) = Ok (xt_not_before (xc_tbs xc)) ∧
    datetime_to_time (c_not_after c) = Ok (xt_not_after (xc_tbs xc)) ∧
    c_not_before c ≤ w_app_now w ∧
    c_not_after c = c_not_before c + days (p_validity_days p) ∧ c_not_before c < c_not_after c;
  ct_extensions : extensions_say i rq p (default [] (xt_extensions (xc_tbs xc)));
  ct_signed : ∃ a tbs_der raw signature,
    recommended_signature_algorithm debug_key (kh_key_type (ci_ca_key i)) = Ok a ∧
    algorithm_identifier debug_algorithm a = Ok (xc_algorithm xc) ∧
    xt_signature (xc_tbs xc) = xc_algorithm xc ∧
    certificate_tbs_to_der (xc_tbs xc) = Ok tbs_der ∧
    EvSigned (ci_ca_key i) a tbs_der raw ∈ wtrace w ∧
    encode_x509_signature debug_length a raw = Ok signature ∧
    bit_string_from_bytes signature = Ok (xc_signature xc)
}.
Lemma certified_later i rq p c xc w w' : later w w' → certified i rq p c xc w → certified i rq p c xc w'.
Proof.
  intros Hl []. split; try done.
  - destruct ct_validity0 as (? & ? & ? & ? & ?), Hl as (_ & _ & _ & ? & _). split_and!; done || lia.
  - destruct ct_signed0 as (a & b & r & s & ? & ? & ? & ? & ? & ? & ?). exists a, b, r, s.
    split_and!; try done. by eapply trace_kept.
Qed.

Definition issued (i : CertificateIssuer) (rq : IssuanceRequest) (c : Certificate) (w : World) : Prop :=
  requested i rq w ∧ approved i rq w ∧
  ∃ p xc, permitted i rq p ∧ certified i rq p c xc w.
Lemma issue_later i rq c w w' : later w w' → issued i rq c w → issued i rq c w'.
Proof.
  intros Hl (Hr & Ha & p & xc & Hp & Hc). split; [by eapply requested_later|].
  split; [by eapply approved_later|]. exists p, xc. split; [done|by eapply certified_later].
Qed.
(** A certificate of the table: issued, and perhaps revoked since. *)
Definition accounted (c : Certificate) (w : World) : Prop :=
  ∃ i rq c0, same_certificate c0 c ∧ issued i rq c0 w.
Lemma accounted_later c c' w w' : later w w' → same_certificate c c' → accounted c w → accounted c' w'.
Proof.
  intros Hl Hs (i & rq & c0 & Hs0 & Hi). exists i, rq, c0.
  split; [by eapply same_certificate_trans|by eapply issue_later].
Qed.

(** ** The invariant *)

Definition not_before (a b : Crl) : Prop := l_this_update a ≤ l_this_update b.
Record CrlsOk (ls : list Crl) (now : DateTime) : Prop := {
  ok_numbers ca : let of_ca := List.filter (λ l, bool_decide (l_ca_id l = ca)) ls in
    l_crl_number <$> of_ca = seqZ 1 (Z.of_nat (length of_ca));
  ok_order ca : StronglySorted not_before (List.filter (λ l, bool_decide (l_ca_id l = ca)) ls);
  ok_past l : l ∈ ls → l_this_update l ≤ now
}.
Record CertificatesOk (w : World) : Prop := {
  ok_ids : NoDup (c_id <$> certificates (wdb w));
  ok_serials : NoDup ((λ c, (c_ca_id c, c_serial_number c)) <$> certificates (wdb w));
  ok_revoked c : c ∈ certificates (wdb w) → c_revoked c = true → is_Some (c_revocation_time c);
  ok_issued c : c ∈ certificates (wdb w) → accounted c w
}.
Record ApprovalsOk (w : World) : Prop := {
  ok_request_ids : NoDup (Approval.rec_id <$> approvals (wdb w));
  ok_rows r : r ∈ approvals (wdb w) → request_row_ok r = true;
  ok_approved r : r ∈ approvals (wdb w) → Approval.rec_status r = "approved" → decided r w
}.
Record Inv (w : World) : Prop := {
  inv_crls : CrlsOk (crls (wdb w)) (w_app_now w);
  inv_certificates : CertificatesOk w;
  inv_approvals : ApprovalsOk w
}.

Lemma inv_ids w : Inv w → NoDup (c_id <$> certificates (wdb w)).
Proof. intros Hi. apply ok_ids, Hi. Qed.
Lemma inv_revoked w : Inv w →
  ∀ c, c ∈ certificates (wdb w) → c_revoked c = true → is_Some (c_revocation_time c).
Proof. intros Hi. apply ok_revoked, Hi. Qed.
Lemma inv_numbers w : Inv w →
  ∀ ca, l_crl_number <$> crls_of ca (wdb w) = seqZ 1 (Z.of_nat (length (crls_of ca (wdb w)))).
Proof. intros Hi. apply ok_numbers with (now := w_app_now w), Hi. Qed.
Lemma inv_order w : Inv w → ∀ ca, StronglySorted not_before (crls_of ca (wdb w)).
Proof. intros Hi. apply ok_order with (now := w_app_now w), Hi. Qed.
Lemma inv_past w : Inv w → ∀ l, l ∈ crls (wdb w) → l_this_update l ≤ w_app_now w.
Proof. intros Hi. apply ok_past, Hi. Qed.

Definition logic : Logic CaE World := {|
  l_answers := @answers; l_inv := Inv; l_later := later; l_spawn_ok := λ _ _ _, True;
  l_later_preorder := later_preorder
|}.

(** The parts of the invariant in a later world with the same rows. *)
Lemma CrlsOk_later ls now now' : now ≤ now' → CrlsOk ls now → CrlsOk ls now'.
Proof. intros Hle [N O P]. split; [done|done|]. intros l Hl. apply P in Hl. lia. Qed.
Lemma CertificatesOk_later w w' : later w w' → certificates (wdb w') = certificates (wdb w) →
  CertificatesOk w → CertificatesOk w'.
Proof.
  intros Hl He [I S R A]. split; rewrite ?He; try done. intros c Hc.
  eapply accounted_later; [done|by left|by apply A].
Qed.
Lemma ApprovalsOk_later w w' : later w w' → approvals (wdb w') = approvals (wdb w) →
  ApprovalsOk w → ApprovalsOk w'.
Proof.
  intros Hl He [I R A]. split; rewrite ?He; try done. intros r Hr Hs.
  eapply decided_later; [done|apply same_request_refl|by apply A].
Qed.

(** ** What statements keep *)

Definition kept {A} (f : Sql A) (w : World) : Prop := Inv (after f w) ∧ later w (after f w).

Lemma with_db_same w : with_db (wdb w) w = w.
Proof. by destruct w. Qed.

Lemma kept_query {A} (f : Sql A) w : (∀ now d, (f now d).2 = d) → Inv w → kept f w.
Proof. intros Hf Hi. unfold kept, after. by rewrite Hf, with_db_same. Qed.

Lemma kept_certificates d w : Inv w → (crls d, approvals d, decisions d) =
    (crls (wdb w), approvals (wdb w), decisions (wdb w)) →
  (∀ c, c ∈ certificates (wdb w) → ∃ c', c' ∈ certificates d ∧ same_certificate c c') →
  (later w (with_db d w) → CertificatesOk (with_db d w)) → Inv (with_db d w) ∧ later w (with_db d w).
Proof.
  intros Hi [= Hl Ha Hd] Hc Hok.
  assert (later w (with_db d w)) as Hlater.
  { apply later_with_db; rewrite ?Hl, ?Ha, ?Hd; try done. apply requests_kept. }
  split; [|done]. split; [by cbn; rewrite Hl; apply Hi|by apply Hok|].
  apply (ApprovalsOk_later w); [done..|apply Hi].
Qed.

Lemma kept_revoke_row id reason w : Inv w → kept (revoke_row id reason) w.
Proof.
  intros Hi. unfold kept, after, revoke_row. destruct (existsb _ _); cbn [snd];
    [|by rewrite with_db_same].
  assert (∀ c, same_certificate c (if unrevoked id c then set_revoked (w_db_now w) reason c else c)) as Hs.
  { intros c. destruct (unrevoked id c) eqn:Hu; [|by left]. right. split; [|by eexists _, _].
    apply andb_true_iff in Hu as [_ Hu]. by destruct (c_revoked c). }
  apply kept_certificates; [done|done| |].
  - intros c Hc. eexists. split; [by apply (list_elem_of_fmap_2 (λ c, if unrevoked id c then _ else c))|].
    apply Hs.
  - intros Hl. destruct (inv_certificates w Hi) as [I S R A]. split; cbn.
    + rewrite update_keys; done.
    + rewrite update_keys; done.
    + intros c (c0 & -> & Hc0)%list_elem_of_fmap. destruct (unrevoked id c0); [by eexists|by apply R].
    + intros c (c0 & -> & Hc0)%list_elem_of_fmap. eapply accounted_later; [done|apply Hs|by apply A].
Qed.

Lemma kept_create c w : c_revoked c = false → Inv w → accounted c w → kept (create c) w.
Proof.
  intros Hc Hi Hacc. unfold kept, after, create. destruct (existsb _ _) eqn:He; cbn [snd];
    [by rewrite with_db_same|].
  apply kept_certificates; [done|done| |].
  - intros c' Hc'. exists c'. split; [apply elem_of_app; by left|by left].
  - intros Hl. destruct (inv_certificates w Hi) as [I S R A]. split; cbn.
    + eapply NoDup_insert; [|done|exact He]. intros a b Hab.
      unfold certificate_clash. by rewrite bool_decide_eq_true_2.
    + eapply NoDup_insert; [|done|exact He]. intros a b [= H1 H2].
      unfold certificate_clash. rewrite (bool_decide_eq_true_2 _ H1), (bool_decide_eq_true_2 _ H2). apply orb_true_r.
    + intros c' [Hc'| ->%list_elem_of_singleton]%elem_of_app Hr; [by apply R|congruence].
    + intros c' [Hc'| ->%list_elem_of_singleton]%elem_of_app; (eapply accounted_later; [done|by left|]);
        [by apply A|done].
Qed.

(** *** CRLs *)

Lemma crls_of_snoc ca l d :
  crls_of ca (set_crls (crls d ++ [l]) d) =
  crls_of ca d ++ (if bool_decide (l_ca_id l = ca) then [l] else []).
Proof. unfold crls_of. cbn. rewrite List.filter_app. cbn. by destruct (bool_decide _). Qed.

Lemma crls_of_prefix ca w w' : later w w' → crls_of ca (wdb w) `prefix_of` crls_of ca (wdb w').
Proof. intros (_ & [k Hk] & _). unfold crls_of. rewrite Hk, List.filter_app. by eexists. Qed.

Lemma StronglySorted_snoc {A} (R : A → A → Prop) l x :
  StronglySorted R l → Forall (λ y, R y x) l → StronglySorted R (l ++ [x]).
Proof.
  induction 1 as [|y l Hl IH Hy]; intros Hx; [by repeat constructor|].
  apply Forall_cons in Hx as [Hyx Hx]. constructor; [by apply IH|].
  apply Forall_app. split; [done|]. by constructor.
Qed.

(** A CRL whose number was taken from an earlier world is stored only when no
    other was in between. *)
Lemma number_still_next ca n w w' :
  Inv w → Inv w' → later w w' → n = Z.of_nat (length (crls_of ca (wdb w))) + 1 →
  existsb (λ m, bool_decide (l_crl_number m = n)) (crls_of ca (wdb w')) = false →
  crls_of ca (wdb w') = crls_of ca (wdb w).
Proof.
  intros Hi Hi' Hl -> Hfresh. destruct (crls_of_prefix ca _ _ Hl) as [k Hk].
  destruct k as [|m k]; [by rewrite Hk, app_nil_r|]. exfalso.
  assert (existsb (λ m, bool_decide (l_crl_number m = Z.of_nat (length (crls_of ca (wdb w))) + 1))
    (crls_of ca (wdb w')) = true) as Ht; [|by rewrite Ht in Hfresh].
  apply existsb_elem_of. exists m. split; [rewrite Hk; apply elem_of_app; right; apply list_elem_of_here|].
  apply bool_decide_eq_true.
  pose proof (inv_numbers w' Hi' ca) as Hn.
  assert ((l_crl_number <$> crls_of ca (wdb w')) !! length (crls_of ca (wdb w)) = Some (l_crl_number m)) as Hm.
  { rewrite list_lookup_fmap, Hk, lookup_app_r by done. by rewrite Nat.sub_diag. }
  rewrite Hn in Hm. apply lookup_seqZ in Hm. lia.
Qed.

Lemma kept_create_crl l w w' :
  Inv w → Inv w' → later w w' →
  l_crl_number l = Z.of_nat (length (crls_of (l_ca_id l) (wdb w))) + 1 →
  w_app_now w ≤ l_this_update l ≤ w_app_now w' → kept (create_crl l) w'.
Proof.
  intros Hi Hi' Hl Hn Ht. unfold kept, after, create_crl.
  destruct (existsb _ _) eqn:He; cbn [snd]; [by rewrite with_db_same|].
  apply (number_still_next (l_ca_id l) _ w w') in He; [|done..].
  assert (later w' (with_db (set_crls (crls (wdb w') ++ [l]) (wdb w')) w')) as Hl'.
  { apply later_with_db; cbn; [apply certificates_kept|by eexists|apply requests_kept|done]. }
  split; [|done]. split; cycle 1.
  { by apply (CertificatesOk_later w'); [| |apply Hi']. }
  { by apply (ApprovalsOk_later w'); [| |apply Hi']. }
  assert (∀ ca, List.filter (λ l, bool_decide (l_ca_id l = ca)) (crls (wdb w') ++ [l]) =
    crls_of ca (wdb w') ++ if bool_decide (l_ca_id l = ca) then [l] else []) as Hsnoc.
  { intros ca. apply crls_of_snoc. }
  split; cbn [wdb with_db w_app_now set_crls crls].
  - intros ca. cbv zeta. rewrite Hsnoc.
    case_bool_decide as Hca; [|rewrite app_nil_r; apply (inv_numbers w' Hi')]. subst ca.
    rewrite length_app, Nat2Z.inj_add, seqZ_app, fmap_app by (cbn; lia). rewrite (inv_numbers w' Hi'). f_equal.
    change (Z.of_nat (length [l])) with 1. rewrite seqZ_cons by lia. cbn. rewrite Hn, He. f_equal. lia.
  - intros ca. rewrite Hsnoc.
    case_bool_decide as Hca; [|rewrite app_nil_r; apply (inv_order w' Hi')]. subst ca.
    apply StronglySorted_snoc; [apply (inv_order w' Hi')|]. rewrite He. apply Forall_forall. intros m Hm.
    apply elem_of_filter_bool in Hm as [Hm _]. unfold not_before.
    pose proof (inv_past w Hi m Hm). lia.
  - intros m [Hm| ->%list_elem_of_singleton]%elem_of_app; [by apply (inv_past w' Hi')|]. lia.
Qed.

(** *** Approvals *)

Lemma kept_approvals d w : Inv w → (certificates d, crls d) = (certificates (wdb w), crls (wdb w)) →
  (∀ r, r ∈ approvals (wdb w) → ∃ r', r' ∈ approvals d ∧ same_request r r') →
  decisions (wdb w) `prefix_of` decisions d →
  (later w (with_db d w) → ApprovalsOk (with_db d w)) → Inv (with_db d w) ∧ later w (with_db d w).
Proof.
  intros Hi [= Hc Hl] Hr Hd Hok.
  assert (later w (with_db d w)) as Hlater.
  { apply later_with_db; rewrite ?Hc, ?Hl; try done. apply certificates_kept. }
  split; [|done]. split; [by cbn; rewrite Hl; apply Hi| |by apply Hok].
  apply (CertificatesOk_later w); [done..|apply Hi].
Qed.

Lemma kept_create_request r w : Approval.rec_status r ≠ "approved" → Inv w → kept (create_request r) w.
Proof.
  intros Hr Hi. unfold kept, after, create_request. destruct (_ || _) eqn:He; cbn [snd];
    [by rewrite with_db_same|].
  apply orb_false_iff in He as [He Hok%negb_false_iff].
  apply kept_approvals; [done|done| |done|].
  - intros r' Hr'. exists r'. split; [apply elem_of_app; by left|apply same_request_refl].
  - intros Hl. destruct (inv_approvals w Hi) as [I R A]. split; cbn.
    + rewrite fmap_app. apply NoDup_app. split; [done|]. split; [|apply NoDup_singleton].
      intros x (r' & -> & Hr')%list_elem_of_fmap Hid%list_elem_of_singleton.
      rewrite <- not_true_iff_false, existsb_elem_of in He. apply He. exists r'.
      split; [done|by apply bool_decide_eq_true].
    + intros r' [Hr'| ->%list_elem_of_singleton]%elem_of_app; [by apply R|done].
    + intros r' [Hr'| ->%list_elem_of_singleton]%elem_of_app Hs; [|done].
      eapply decided_later; [done|apply same_request_refl|by apply A].
Qed.

Lemma find_request id (rs : list ApprovalRequestRecord) r :
  find (λ r, bool_decide (Approval.rec_id r = id)) rs = Some r → r ∈ rs ∧ Approval.rec_id r = id.
Proof. intros [Hin%list_elem_of_In Hid%bool_decide_eq_true]%find_some. done. Qed.

(** An update sets a status for which there is a decision. *)
Lemma kept_update_request context id f w :
  (∀ r, same_request r (f r)) →
  (∀ r, r ∈ approvals (wdb w) → Approval.rec_id r = id → Approval.rec_status (f r) = "approved" → decided r w) →
  Inv w → kept (update_request context id f) w.
Proof.
  intros Hf Hd Hi. unfold kept, after, update_request.
  destruct (find _ _) as [r0|] eqn:Hfind; [|by cbn [snd]; rewrite with_db_same].
  destruct (request_row_ok (f r0)) eqn:Hok; cbn [snd]; [|by rewrite with_db_same].
  apply find_request in Hfind as [Hin0 Hid0].
  assert (∀ r, Approval.rec_id (f r) = Approval.rec_id r) as Hfid.
  { intros r. by destruct (Hf r) as (? & ? & ? & ? & ->). }
  assert (∀ r, r ∈ approvals (wdb w) → Approval.rec_id r = id → r = r0) as Huniq.
  { intros r Hr Hid. eapply (NoDup_key_eq Approval.rec_id); [apply ok_request_ids, Hi|done|done|congruence]. }
  apply kept_approvals; [done|done| |done|].
  - intros r Hr. eexists. split; [by apply (list_elem_of_fmap_2 (λ r, if bool_decide _ then f r else r))|].
    case_bool_decide; [apply Hf|apply same_request_refl].
  - intros Hl. destruct (inv_approvals w Hi) as [I R A]. split; cbn.
    + rewrite update_keys; done.
    + intros r (r' & -> & Hr')%list_elem_of_fmap. case_bool_decide as Hid; [|by apply R].
      by rewrite (Huniq r').
    + intros r (r' & -> & Hr')%list_elem_of_fmap. case_bool_decide as Hid; intros Hs.
      * eapply decided_later; [done|apply Hf|by apply Hd].
      * eapply decided_later; [done|apply same_request_refl|by apply A].
Qed.

Lemma kept_mark_completed now id c w : Inv w → kept (mark_request_completed now id c) w.
Proof.
  intros Hi. unfold kept, after, mark_request_completed.
  destruct (existsb _ _); [|by cbn [snd]; rewrite with_db_same].
  apply (kept_update_request _ id _ w); [|done|done]. intros r. by eexists _, _, _, _.
Qed.

Lemma kept_update_status id status t w :
  (status = "approved" → ∀ r, r ∈ approvals (wdb w) → Approval.rec_id r = id → decided r w) →
  Inv w → kept (update_request_status id status t) w.
Proof.
  intros Hd Hi. apply kept_update_request; [intros r; by eexists _, _, _, _| |done].
  intros r Hr Hid Hs. by apply Hd.
Qed.

Lemma kept_create_decision d w : Inv w → kept (create_decision d) w.
Proof.
  intros Hi. unfold kept, after, create_decision. destruct (_ && _); cbn [snd]; [|by rewrite with_db_same].
  apply kept_approvals; [done|done|apply requests_kept|by eexists|]. intros Hl.
  apply (ApprovalsOk_later w); [done..|apply Hi].
Qed.

(** ** Rules *)

Abbreviation wp := (Programs.wp (L := logic)).
Abbreviation wpm := (Programs.wpm (L := logic)).
Abbreviation safe := (Programs.safe (L := logic)).

Lemma trace_later ev w : later w (observe ev w).
Proof.
  split_and!; cbn; [apply certificates_kept|done|lia|lia|by eexists|apply requests_kept|done].
Qed.
Lemma Inv_trace ev w : Inv w → Inv (observe ev w).
Proof.
  intros Hi. split; [apply Hi| |].
  - apply (CertificatesOk_later w); [apply trace_later|done|apply Hi].
  - apply (ApprovalsOk_later w); [apply trace_later|done|apply Hi].
Qed.

Lemma wp_sql {A} (f : Sql A) (Q : result A string → World → Prop) w :
  (∀ w1, later w w1 → Inv w1 → kept f w1 ∧
     Q (f (w_db_now w1) (wdb w1)).1 (after f w1) ∧ ∀ e, Q (Err e) w1 ∧ Q (Err e) (after f w1)) →
  wp (sql f) Q w.
Proof.
  intros HH w1 Hl Hi x w2 Ha. destruct (HH w1 Hl Hi) as ([Hk1 Hk2] & HQ & HE).
  destruct Ha as [[-> ->]|(e & -> & [-> | ->])]; cbn; (split; [done|]); (split; [done|]);
    (split; [done|]); try done; apply HE.
Qed.

Lemma wpm_stage_sql {A} failure (f : Sql A) (Q : A → World → Prop) w :
  (∀ w1, later w w1 → Inv w1 → kept f w1 ∧
     ∀ a, (f (w_db_now w1) (wdb w1)).1 = Ok a → Q a (after f w1)) →
  wpm (stage_sql failure f) Q w.
Proof.
  intros HH. apply wp_bind, wp_sql. intros w1 Hl Hi. destruct (HH w1 Hl Hi) as [Hk HQ].
  split; [done|]. split; [|done]. cbn. destruct ((f _ _).1) as [a|e]; [by apply HQ|done].
Qed.
Lemma wpm_stage_read {A} failure (f : Sql A) (Q : A → World → Prop) w :
  (∀ now d, (f now d).2 = d) →
  (∀ w1 a, later w w1 → Inv w1 → (f (w_db_now w1) (wdb w1)).1 = Ok a → Q a w1) →
  wpm (stage_sql failure f) Q w.
Proof.
  intros Hr HH. apply wpm_stage_sql. intros w1 Hl Hi. split; [by apply kept_query|]. intros a Ha.
  unfold after. rewrite Hr, with_db_same. by apply HH.
Qed.

Lemma wp_clock (Q : DateTime → World → Prop) w :
  (∀ w1, later w w1 → Inv w1 → Q (w_app_now w1) w1) → wp (call ENow) Q w.
Proof. intros HH w1 Hl Hi x w2 [-> ->]. split; [done|]. split; [reflexivity|]. split; [done|]. by apply HH. Qed.

Lemma wp_new_uuid (Q : Uuid → World → Prop) w :
  (∀ w1 id, later w w1 → Inv w1 → Q id w1) → wp (call EUuid) Q w.
Proof. intros HH w1 Hl Hi x w2 ->. split; [done|]. split; [reflexivity|]. split; [done|]. by apply HH. Qed.
Lemma wp_random n (Q : result (list u8) string → World → Prop) w :
  (∀ w1 x, later w w1 → Inv w1 → (∀ b, x = Ok b → length b = n ∧ u8_list b) → Q x w1) →
  wp (call (ERandom n)) Q w.
Proof.
  intros HH w1 Hl Hi x w2 [-> Hx]. split; [done|]. split; [reflexivity|]. split; [done|]. by apply HH.
Qed.
Lemma wp_ensure id subject (Q : result unit string → World → Prop) w :
  (∀ w1 x, later w w1 → Inv w1 → Q x w1) → wp (call (EEnsureUser id subject)) Q w.
Proof. intros HH w1 Hl Hi x w2 ->. split; [done|]. split; [reflexivity|]. split; [done|]. by apply HH. Qed.

(** A statement of [try_sql] that keeps the invariant; a query. *)
Lemma wpm_try_sql {A} (f : Sql A) (Q : A → World → Prop) w :
  (∀ w1, later w w1 → Inv w1 → kept f w1 ∧
     ∀ a, (f (w_db_now w1) (wdb w1)).1 = Ok a → Q a (after f w1)) →
  wpm (try_sql f) Q w.
Proof.
  intros HH. apply wp_bind, wp_sql. intros w1 Hl Hi. destruct (HH w1 Hl Hi) as [Hk HQ].
  split; [done|]. split; [|done]. cbn. destruct ((f _ _).1) as [a|e]; [by apply HQ|done].
Qed.
Lemma wpm_try_read {A} (f : Sql A) (Q : A → World → Prop) w :
  (∀ now d, (f now d).2 = d) →
  (∀ w1 a, later w w1 → Inv w1 → (f (w_db_now w1) (wdb w1)).1 = Ok a → Q a w1) →
  wpm (try_sql f) Q w.
Proof.
  intros Hr HH. apply wpm_try_sql. intros w1 Hl Hi. split; [by apply kept_query|]. intros a Ha.
  unfold after. rewrite Hr, with_db_same. by apply HH.
Qed.

Lemma wp_sign key a tbs (Q : result (list u8) string → World → Prop) w :
  (∀ w1 x, later w w1 → Inv w1 → (∀ s, x = Ok s → EvSigned key a tbs s ∈ wtrace w1) → Q x w1) →
  wp (call (ESign key a tbs)) Q w.
Proof.
  intros HH w1 Hl Hi x w2 Ha. cbn in Ha. subst w2. destruct x as [s|e].
  - split; [by apply Inv_trace|]. split; [apply trace_later|]. split; [done|].
    apply HH; [etransitivity; [exact Hl|apply trace_later]|by apply Inv_trace|].
    intros s' [= <-]. apply elem_of_app. right. by apply list_elem_of_singleton.
  - split; [done|]. split; [reflexivity|]. split; [done|]. by apply HH.
Qed.

Lemma wp_audit ev (Q : result unit string → World → Prop) w :
  (∀ w1 x, later w w1 → Inv w1 → (x = Ok tt → EvAudit ev ∈ wtrace w1) → Q x w1) →
  wp (call (ERecord ev)) Q w.
Proof.
  intros HH w1 Hl Hi x w2 Ha.
  assert (later w (observe (EvAudit ev) w1)) as Hl2 by (etransitivity; [exact Hl|apply trace_later]).
  destruct Ha as [[-> ->]|(e & -> & [-> | ->])]; cbn.
  - split; [by apply Inv_trace|]. split; [apply trace_later|]. split; [done|].
    apply HH; [done|by apply Inv_trace|]. intros _. apply elem_of_app. right. by apply list_elem_of_singleton.
  - split; [done|]. split; [reflexivity|]. split; [done|]. by apply HH.
  - split; [by apply Inv_trace|]. split; [apply trace_later|]. split; [done|].
    apply HH; [done|by apply Inv_trace|done].
Qed.

(** A recorded event is in the trace when the record succeeded. *)
Lemma wpm_record_audit e (Q : unit → World → Prop) w :
  (∀ w1, later w w1 → Inv w1 → EvAudit e ∈ wtrace w1 → Q tt w1) → wpm (record_audit e) Q w.
Proof.
  intros HH. apply wp_bind, wp_audit. intros w1 [[]|err] Hl Hi Hx; [|done]. by apply HH; [| |apply Hx].
Qed.
Lemma wpm_fail {A} (e : Error) (Q : A → World → Prop) w : wpm (fail e) Q w.
Proof. done. Qed.
End invariant.
