(* ===== verification/CaSchedule.v ===== *)
(** * Runs of the CA that can be computed

    A schedule says which program takes its next effect and when the clocks
    advance; [play] follows it.  The libraries are instantiated with a codec
    that loads what it dumped; identifiers and serial numbers count the rows of
    the tables. *)
From stdpp Require Import base strings list gmap sorting relations.
From Stdlib Require Import Ascii ZArith Lia.
From S2P Require Import Prelude Programs Pickle Signing Algorithm Roles X509Names Csr CertProfile CertBuilder CaStore CaCore CrlBuilder Revocation Issuance CaGrpc CaApi CaInv.
From S2P Require Approval.
#[local] Open Scope Z_scope.

Section schedule.
Context {HL : CaLib} {HO : RevokedOrder}.

Definition rows (d : CaDb) : nat := length (certificates d) + length (approvals d) + length (decisions d).

(** One possible answer of each effect: nothing fails. *)
Definition perform {X} (e : CaE X) (w : World) : X * World :=
  match e in CaE X return X * World with
  | ESql f => ((f (w_db_now w) (wdb w)).1, after f w)
  | ENow => (w_app_now w, w)
  | EUuid => (N.of_nat (7 + rows (wdb w)), w)
  | ERandom n => (Ok (replicate n (Z.of_nat (7 + rows (wdb w)) mod 256)), w)
  | ESign key a tbs => (Ok [1; 2; 3], observe (EvSigned key a tbs [1; 2; 3]) w)
  | EEnsureUser _ _ => (Ok tt, w)
  | ERecord ev => (Ok tt, observe (EvAudit ev) w)
  end.

Lemma ca_perform_answers {X} (e : CaE X) w : answers w e (perform e w).1 (perform e w).2.
Proof.
  destruct e; cbn [perform answers fst snd]; auto. split; [done|]. intros b [= <-]. rewrite length_replicate.
  split; [done|]. apply Forall_replicate, is_u8_range.
  by apply Z.mod_pos_bound.
Qed.

Fixpoint exec {A} (p : Prog A) (w : World) : A * World :=
  match p with
  | Done a => (a, w)
  | Step e k => exec (k (perform e w).1) (perform e w).2
  end.

Lemma exec_ca_runs {A} (p : Prog A) w ts : runs p (w, ts) (exec p w).1 ((exec p w).2, ts).
Proof.
  revert w. induction p as [a|X e k IH]; intros w; cbn; [constructor|].
  econstructor; [reflexivity|apply (ca_perform_answers e w)|]. cbn. rewrite app_nil_r. apply IH.
Qed.

(** The state after [p] ran alone; the other programs wait. *)
Definition exec_to {A} (p : Prog A) (s : World * list (Prog unit)) : World * list (Prog unit) :=
  ((exec p s.1).2, s.2).
Lemma exec_runs_to {A} (p : Prog A) s a : (exec p s.1).1 = a → runs p s a (exec_to p s).
Proof. intros <-. destruct s as [w ts]. apply exec_ca_runs. Qed.

(** [MServe] runs a request to its end, at most sixty effects. *)
Inductive Move :=
| MRequest (r : Request)
| MServe (r : Request)
| MTick (db app : DateTime)
| MStep (program effects : nat).

Definition step_at (i : nat) (s : World * list (Prog unit)) : World * list (Prog unit) :=
  match s.2 !! i with
  | Some (Step e k) =>
      ((perform e s.1).2, take i s.2 ++ k (perform e s.1).1 :: drop (S i) s.2)
  | _ => s
  end.
Definition move (m : Move) (s : World * list (Prog unit)) : World * list (Prog unit) :=
  match m with
  | MRequest r => (observe (EvRequest r) s.1, s.2 ++ [serve r])
  | MServe r => Nat.iter 60 (step_at (length s.2)) (observe (EvRequest r) s.1, s.2 ++ [serve r])
  | MTick db app =>
      (at_time (Z.max db (w_db_now s.1)) (Z.max app (w_app_now s.1)) s.1, s.2)
  | MStep i n => Nat.iter n (step_at i) s
  end.
Definition play (ms : list Move) (s : World * list (Prog unit)) : World * list (Prog unit) :=
  foldl (λ s m, move m s) s ms.

Lemma step_at_steps i s : rtc step s (step_at i s).
Proof.
  destruct s as [w ts]. unfold step_at; cbn. destruct (ts !! i) as [[a|X e k]|] eqn:Hi; [done| |done].
  rewrite <- (take_drop_middle ts i (Step e k)) at 1 by done. apply rtc_once.
  rewrite <- (app_nil_r (drop (S i) ts)) at 2.
  apply (step_program (@answers) (@spawned) env), ca_perform_answers.
Qed.

Lemma iter_steps n i s : rtc step s (Nat.iter n (step_at i) s).
Proof. induction n as [|n IH]; [done|]. etransitivity; [exact IH|apply step_at_steps]. Qed.

Lemma move_steps m s : rtc step s (move m s).
Proof.
  destruct s as [w ts], m as [r|r|db app|i n]; cbn [move fst snd].
  - apply rtc_once, step_env, env_request.
  - eapply rtc_l; [apply step_env, env_request|apply iter_steps].
  - apply rtc_once. rewrite <- (app_nil_r ts) at 2. apply step_env, env_tick; lia.
  - apply iter_steps.
Qed.

Lemma play_steps ms s : rtc step s (play ms s).
Proof.
  revert s. induction ms as [|m ms IH]; intros s; [done|].
  etransitivity; [apply (move_steps m)|apply IH].
Qed.
Lemma play_reachable ms db app : reachable (play ms (start db app)).
Proof. exists db, app. apply play_steps. Qed.
Lemma play_further ms s : reachable s → reachable (play ms s).
Proof. intros (db & app & Hs). exists db, app. etransitivity; [exact Hs|apply play_steps]. Qed.
End schedule.

(** ** A concrete instance *)

#[local] Instance revoked_later_dec a b : Decision (revoked_later a b).
Proof.
  unfold revoked_later. destruct (c_revocation_time a), (c_revocation_time b); apply _.
Defined.
#[local] Instance revoked_later_total : Total revoked_later.
Proof.
  intros a b. unfold revoked_later. destruct (c_revocation_time a), (c_revocation_time b); auto. lia.
Qed.
#[local] Instance revoked_later_trans : Transitive revoked_later.
Proof.
  intros a b c. unfold revoked_later.
  destruct (c_revocation_time a), (c_revocation_time b), (c_revocation_time c); naive_solver lia.
Qed.
Definition toy_order : RevokedOrder := {|
  by_revocation_time := merge_sort revoked_later;
  by_revocation_time_perm := merge_sort_Permutation revoked_later;
  by_revocation_time_sorted := StronglySorted_merge_sort revoked_later
|}.

(** A CSR is its public key. *)
Definition toy_csr : CsrLib.
Proof.
  refine {|
    x509_csr b := Ok {| xr_subject := "CN=csr"; xr_subject_attributes := [("2.5.4.3", Ok "csr")];
                        xr_spki_raw := b; xr_signature := [1]; xr_algorithm_oid := "1.2.840.113549.1.1.11";
                        xr_attributes := []; xr_info_raw := b |};
    der_csr _ := Err "no"; name_from_der _ := Err "no"; set_content _ := Err "no";
    sequence_from_der _ := Err "no"; oid_from_der _ := Err "no"; boolean_from_der _ := Err "no";
    octets_from_der _ := Err "no"; general_name_from_der _ := None |}; done.
Defined.
Definition toy_verify_lib : VerifyLib := {| spki_key_bytes b := Ok (Some b); ring_verify _ _ _ _ := true |}.
Definition toy_key : list u8 :=
  match to_pickle {| spki_algorithm := "key"; spki_parameters := None; spki_unused_bits := 0;
                     spki_raw_bytes := [5] |} with Ok b => b | Err _ => [] end.

Definition toy_ca_lib : CaLib := {|
  ca_x509 := toy_x509; ca_csr := toy_csr; ca_verify := toy_verify_lib; ca_lowercase := ascii_Lowercase;
  uuid_to_string u := String (ascii_of_N u) "";
  uuid_parse s := match s with String c "" => Some (N_of_ascii c) | _ => None end;
  hex_encode _ := "hex"; escape_debug s := s; debug_key _ := "key"; debug_algorithm _ := "algorithm";
  debug_length _ := "length"; crypto_text _ := "crypto"; verify_text _ := "verify";
  pem_encode label _ := Ok label; pem_decode s := Ok (s, toy_key);
  name_to_string n := (λ a, at_value a) <$> last n; eku_from_der := of_pickle; ski_from_der := Ok;
  aki_from_der b := Ok (Some b)
|}.

Definition toy_dn : DistinguishedName :=
  {| common_name := Some "CA"; organization := None; organizational_unit := None; locality := None;
     state_or_province := None; country := None; serial_number := None |}.
Definition toy_key_handle : KeyHandle :=
  {| kh_provider_id := Software; kh_key_id := [1]; kh_key_type := Rsa2048;
     kh_algorithm := RsaPkcs1Sha256; kh_label := "ca" |}.
Definition toy_manager : RevocationManager :=
  {| ca_key := toy_key_handle; ca_certificate_id := 1%N; crl_validity_hours := 24;
     delta_crl_url := Some "http://crl.test/delta" |}.
(** The CA's own certificate, of which the subject is read. *)
Definition toy_ca_der : list u8 :=
  match to_pickle {| xc_tbs := {| xt_serial_number := [1]; xt_signature := ("rsa", true); xt_issuer := [];
      xt_not_before := UtcTime 0; xt_not_after := UtcTime 0;
      xt_subject := [{| at_oid := "2.5.4.3"; at_kind := Utf8; at_value := "CA" |}];
      xt_spki := {| spki_algorithm := "key"; spki_parameters := None; spki_unused_bits := 0;
                    spki_raw_bytes := [1] |};
      xt_extensions := None |}; xc_algorithm := ("rsa", true); xc_signature := [1] |} with
  | Ok b => b | Err _ => [] end.
Definition toy_ca_certificate : Certificate :=
  {| c_id := 1%N; c_ca_id := 1%N; c_serial_number := [1]; c_subject_dn := "CN=CA";
     c_issuer_dn := "CN=CA"; c_not_before := 0; c_not_after := 0; c_der_encoded := toy_ca_der;
     c_pem_encoded := ""; c_revoked := false; c_revocation_time := None;
     c_revocation_reason := None; c_issuer_service := None; c_requestor := None;
     c_profile_name := None; c_metadata := None; c_request_id := None |}.
Definition toy_issuer : CertificateIssuer :=
  add_profile (tls_server 365) (set_approval Approval.default_config
    (new_issuer toy_key_handle toy_ca_certificate)).
(** The issuer without the approval workflow. *)
Definition toy_open_issuer : CertificateIssuer :=
  set_approval_config {| Approval.require_approval := false; Approval.expiration_duration := 0;
    Approval.require_multi_approval := false; Approval.required_approvals := 1 |} toy_issuer.
Definition toy_issuance (approval : option Uuid) (name : string) : IssuanceRequest :=
  {| ir_profile_name := "TLS Server";
     ir_subject := {| common_name := Some name; organization := None; organizational_unit := None;
                      locality := None; state_or_province := None; country := None;
                      serial_number := None |};
     ir_subject_alt_names := [SanDns name]; ir_public_key := toy_key; ir_requestor := "acme::1";
     ir_authenticated_caller := None; ir_metadata := None; ir_csr_der := Some toy_key;
     ir_approval_request_id := approval; ir_request_id := None |}.
(** The ACME server, a client of the CA's listener. *)
Definition toy_leaf_certificate : X509Certificate :=
  {| xc_tbs := {| xt_serial_number := [2]; xt_signature := ("rsa", true); xt_issuer := [];
       xt_not_before := UtcTime 0; xt_not_after := UtcTime 1000000;
       xt_subject := [{| at_oid := "2.5.4.3"; at_kind := Utf8; at_value := "acme-server" |}];
       xt_spki := {| spki_algorithm := "key"; spki_parameters := None; spki_unused_bits := 0;
                     spki_raw_bytes := [2] |};
       xt_extensions := Some [{| extn_id := ID_CE_EXT_KEY_USAGE; critical := false;
         extn_value := match to_pickle [ID_KP_CLIENT_AUTH] with Ok b => b | Err _ => [] end |}] |};
     xc_algorithm := ("rsa", true); xc_signature := [1] |}.
Definition toy_leaf : list u8 := match to_pickle toy_leaf_certificate with Ok b => b | Err _ => [] end.
Definition toy_layer : SubjectAllowlistLayer :=
  {| ly_clients := {| gr_acme := ["acme-server"]; gr_est := []; gr_admin := [] |};
     ly_subscriber_issuers := [{| sb_subject := [{| at_oid := "2.5.4.3"; at_kind := Utf8; at_value := "CA" |}];
                                  sb_subject_key_id := None |}];
     ly_admin_anchor := None |}.
Definition toy_service : CaGrpcService :=
  {| gs_issuer := toy_open_issuer; gs_revocation_manager := toy_manager; gs_ca_id := 1%N;
     gs_ca_dn := toy_dn; gs_mode := Mtls toy_layer; gs_debug := false;
     gs_profiles := {| ip_acme := ["TLS Server"]; ip_est := [] |} |}.
Definition toy_grpc (name : string) : GrpcIssueRequest :=
  {| gi_profile_name := "TLS Server"; gi_subject := Some (ir_subject (toy_issuance None name));
     gi_subject_alt_names := [Some (PsDns name)]; gi_public_key := toy_key; gi_requestor := "acme::1";
     gi_metadata := []; gi_csr_der := toy_key; gi_request_id := "" |}.
Definition toy_issue : Request := RqGrpc toy_service (Some toy_leaf) (GIssue (toy_grpc "host.test")).
Definition toy_revocation (n : N) : RevocationRequest :=
  {| certificate_id := n; reason := KeyCompromise; requestor := "ra"; authenticated_caller := None;
     justification := None |}.
(** The serial numbers a stored CRL lists. *)
Definition listed_serials (l : Crl) : list (list u8) :=
  match of_pickle (A := CertificateList) (l_der_encoded l) with
  | Ok cl => rc_serial_number <$> default [] (tl_revoked (cl_tbs cl))
  | Err _ => []
  end.

(** Certificate 7 is issued and revoked. *)
Definition toy_past : list Move :=
  [MServe toy_issue; MServe (RqRevoke (toy_revocation 7))].
Definition toy_state : World * list (Programs.Prog CaE unit) :=
  play (HL := toy_ca_lib) (HO := toy_order) toy_past (start (seconds 5) (seconds 5)).

(** A subscriber, two officers and an operator of the CA, and its REST service. *)
Definition toy_user (n : N) (name : string) (r : Role) : AuthenticatedUser :=
  new_user n name [r] Password 0.
Definition toy_sponsor : AuthenticatedUser := toy_user 1 "sponsor" PkiSponsor.
Definition toy_officer : AuthenticatedUser := toy_user 2 "officer" RegistrationAuthority.
Definition toy_second_officer : AuthenticatedUser := toy_user 3 "second" RegistrationAuthority.
Definition toy_operator : AuthenticatedUser := toy_user 4 "operator" OperationsStaff.
Definition toy_api : ApiState :=
  {| as_issuer := toy_issuer; as_revocation_manager := toy_manager; as_ca_id := 1%N;
     as_ca_dn := toy_dn; as_approval_config := Approval.default_config; as_rbac_policy := new_policy |}.
Definition toy_details : Json :=
  JObject [("profile", JString "TLS Server"); ("csr_pem", JString "CSR");
           ("subject_alt_names", JArray [JString "DNS:host.test"])].
Definition toy_submit (type : Approval.RequestType) : Request :=
  RqApi toy_api toy_sponsor (SubmitCall type toy_details).
Definition toy_text (id : N) : string := String (ascii_of_N id) "".
Definition toy_approve (id : N) : Request :=
  RqApi toy_api toy_officer (ApproveCall (toy_text id) false None).
Definition toy_reject (id : N) : Request :=
  RqApi toy_api toy_second_officer (RejectCall (toy_text id) None None).
(** The operator issues under approval [id]. *)
Definition toy_issue_call (id : N) (name : string) : Request :=
  RqApi toy_api toy_operator (IssueCertificateCall
    {| ic_profile_name := "TLS Server"; ic_subject := Some (ir_subject (toy_issuance None name));
       ic_subject_alt_names := [SanDns name]; ic_public_key := None; ic_metadata := None;
       ic_csr_der := Some toy_key; ic_approval_request_id := Some (toy_text id) |}).
