(* ===== verification/CrlPublished.v ===== *)
(** * What generating a CRL does, and revoking a certificate

    The list that [build_full_crl] and [build_delta_crl] of Revocation.v store,
    in any run, with the bytes that are signed: [published]; then what
    [revoke] does. *)
From stdpp Require Import base strings list gmap sorting relations.
From Stdlib Require Import ZArith Lia.
From S2P Require Import Prelude Algorithm Signing Programs X509Names CaStore CaCore CrlBuilder Revocation CaInv.
From S2P Require AuditLog.
#[local] Open Scope Z_scope.

Section published.
Context {HL : CaLib} {HO : RevokedOrder}.
Abbreviation wp := (Programs.wp (L := logic)).
Abbreviation wpm := (Programs.wpm (L := logic)).
Abbreviation safe := (Programs.safe (L := logic)).

(** The row [l] is the CRL [g] that [m] generated with these entries, and its
    bytes are a signed list with them: the inner and the outer algorithm are
    the key's, the signature is the key's on the encoded inner list; issuer,
    times and entries are those given, and its extensions are the number, the
    number of the base, or where a full CRL's deltas are found, and no other. *)
Record published (m : RevocationManager) (dn : DistinguishedName) (entries : list RevokedEntry) (base : option Z)
    (g : GeneratedCrl) (l : Crl) (cl : CertificateList) (w : World) : Prop := {
  pub_row : l ∈ crls (wdb w);
  pub_ca : l_ca_id l = ca_certificate_id m;
  pub_kind : l_base_crl_number l = base ∧ l_is_delta l = bool_decide (is_Some base);
  pub_der : l_der_encoded l = g_der_encoded g ∧ l_pem_encoded l = g_pem_encoded g;
  pub_number : g_crl_number g = wrap 64 (l_crl_number l);
  pub_times : l_this_update l = g_this_update g ∧ l_next_update l = g_next_update g ∧
    g_next_update g = g_this_update g + hours (crl_validity_hours m) ∧
    g_this_update g < g_next_update g;
  pub_count : g_revoked_count g = length entries;
  pub_list : certificate_list_from_der (g_der_encoded g) = Ok cl;
  pub_algorithm : cl_algorithm cl = tl_signature (cl_tbs cl);
  pub_signed : ∃ a tbs_der raw signature, crl_signature_algorithm m = Ok a ∧
    algorithm_identifier debug_algorithm a = Ok (cl_algorithm cl) ∧
    tbs_to_der (cl_tbs cl) = Ok tbs_der ∧ EvSigned (ca_key m) a tbs_der raw ∈ wtrace w ∧
    encode_x509_signature debug_length a raw = Ok signature ∧
    bit_string_from_bytes signature = Ok (cl_signature cl);
  pub_entries : ∃ certs, revoked_certs entries = Ok certs ∧
    tl_revoked (cl_tbs cl) = match certs with [] => None | _ => Some certs end;
  pub_issuer : dn_to_name dn = Ok (tl_issuer (cl_tbs cl));
  pub_said_times : datetime_to_time (g_this_update g) = Ok (tl_this_update (cl_tbs cl)) ∧
    ∃ next, datetime_to_time (g_next_update g) = Ok next ∧ tl_next_update (cl_tbs cl) = Some next;
  pub_extensions : ∃ extra, tl_extensions (cl_tbs cl) =
      Some (extension ID_CE_CRL_NUMBER false (uint_der (g_crl_number g)) :: extra) ∧
    match base, delta_crl_url m with
    | Some b, _ => extra = [extension ID_CE_DELTA_CRL_INDICATOR true (uint_der (wrap 64 b))]
    | None, Some url => ∃ v, freshest_crl_to_der url = Ok v ∧ extra = [extension ID_CE_FRESHEST_CRL false v]
    | None, None => extra = []
    end
}.

Lemma published_later m dn entries base g l cl w w' :
  later w w' → published m dn entries base g l cl w → published m dn entries base g l cl w'.
Proof.
  intros (_ & Hc & _ & _ & Ht & _) []. split; try done.
  - destruct Hc as [k ->]. apply elem_of_app. by left.
  - destruct pub_signed0 as (a & b & r & s & ? & ? & ? & ? & ? & ?). exists a, b, r, s.
    split_and!; try done. destruct Ht as [k ->]. apply elem_of_app. by left.
Qed.

Lemma foldr_max_bounds n ns k :
  (∀ x, x ∈ n :: ns → x ≤ k) → k ∈ n :: ns → foldr Z.max n ns = k.
Proof.
  intros Hle Hin. apply Z.le_antisymm.
  - clear Hin. induction ns as [|x ns IH]; cbn; [apply Hle, list_elem_of_here|].
    apply Z.max_lub; [apply Hle, list_elem_of_further, list_elem_of_here|]. apply IH.
    intros y [->|Hy]%elem_of_cons; apply Hle; [apply list_elem_of_here|].
    by do 2 apply list_elem_of_further.
  - clear Hle. apply elem_of_cons in Hin as [->|Hin].
    + induction ns as [|x ns IH]; cbn; lia.
    + induction Hin as [x ns|x y ns Hin IH]; cbn; lia.
Qed.

Lemma max_number_seqZ ls : l_crl_number <$> ls = seqZ 1 (Z.of_nat (length ls)) →
  max_number ls = Z.of_nat (length ls).
Proof.
  unfold max_number. intros Hls. rewrite Hls. generalize (length ls) as n. clear ls Hls.
  intros [|n]; [done|]. destruct (seqZ 1 (Z.of_nat (S n))) as [|x xs] eqn:He.
  { by apply (f_equal length) in He; rewrite length_seqZ in He; cbn in He; lia. }
  apply foldr_max_bounds; rewrite <- He.
  - intros y Hy%elem_of_seqZ. lia.
  - apply elem_of_seqZ. lia.
Qed.

Lemma next_number_Ok w ca now n :
  Inv w → (next_crl_number ca now (wdb w)).1 = Ok n → n = Z.of_nat (length (crls_of ca (wdb w))) + 1.
Proof. intros Hi [= <-]. by rewrite max_number_seqZ by apply (inv_numbers w Hi). Qed.

Lemma stage_Ok {A E} f (into : E → Error) (r : result A E) x : stage f into r = Ok x ↔ r = Ok x.
Proof. destruct r; cbn; split; congruence. Qed.
Lemma crl_text_Ok {A} c (r : result A string) x : crl_text c r = Ok x ↔ r = Ok x.
Proof. destruct r; cbn; split; congruence. Qed.

Lemma build_signed_crl_Ok tbs tbs_der signature der :
  tbs_to_der tbs = Ok tbs_der → build_signed_crl tbs_der signature = Ok der →
  ∃ cl, certificate_list_from_der der = Ok cl ∧ cl_tbs cl = tbs ∧
    cl_algorithm cl = tl_signature tbs ∧ bit_string_from_bytes signature = Ok (cl_signature cl).
Proof.
  intros Hd (tbs' & Hp%crl_text_Ok & (s & Hs%crl_text_Ok & HH%crl_text_Ok)%res_bind_Ok)%res_bind_Ok.
  apply tbs_roundtrip in Hd. rewrite Hd in Hp. injection Hp as <-.
  apply certificate_list_roundtrip in HH. by eexists.
Qed.

Lemma build_extensions_Ok t exts n :
  build_extensions t = Ok exts → tc_crl_number t = Some n → tc_authority_key_id t = None →
  tc_indirect_crl t = false →
  ∃ delta fresh, exts = Some (extension ID_CE_CRL_NUMBER false (uint_der n) :: delta ++ fresh) ∧
    delta = option_list ((λ b, extension ID_CE_DELTA_CRL_INDICATOR true (uint_der b)) <$> tc_base_crl_number t) ∧
    match tc_freshest_crl_url t with
    | Some url => ∃ v, freshest_crl_to_der url = Ok v ∧ fresh = [extension ID_CE_FRESHEST_CRL false v]
    | None => fresh = []
    end.
Proof.
  intros (number & Hnumber & (aki & Haki & (delta & Hdelta & (fr & Hfr & (idp & Hidp & HH)%res_bind_Ok)%res_bind_Ok)
    %res_bind_Ok)%res_bind_Ok)%res_bind_Ok Hn Ha Hi.
  rewrite Hn in Hnumber. injection Hnumber as <-. rewrite Ha in Haki. injection Haki as <-.
  rewrite Hi in Hidp. injection Hidp as <-. rewrite app_nil_r in HH. injection HH as <-.
  exists delta, fr. split; [done|]. split.
  - destruct (tc_base_crl_number t); by injection Hdelta as <-.
  - destruct (tc_freshest_crl_url t) as [url|]; [|by injection Hfr as <-].
    apply res_bind_Ok in Hfr as (v & Hv & [= <-]). apply res_bind_Ok in Hv as (_ & _ & Hv%encoding_Ok).
    by exists v.
Qed.

Lemma build_tbs_Ok now b t : build_tbs now b = Ok t →
  tc_this_update t < tc_next_update t ∧ tc_this_update t = default now (cb_this_update b) ∧
  cb_next_update b = Some (tc_next_update t) ∧ tc_crl_number t = cb_crl_number b ∧
  tc_revoked t = cb_revoked b ∧ tc_signature_algorithm t = cb_signature_algorithm b ∧
  tc_base_crl_number t = cb_base_crl_number b ∧ cb_issuer b = Some (tc_issuer t) ∧
  tc_authority_key_id t = cb_authority_key_id b ∧ tc_indirect_crl t = cb_indirect_crl b ∧
  tc_freshest_crl_url t = cb_freshest_crl_url b.
Proof.
  intros (issuer & Hi%ok_or_Ok & (next & Hn%ok_or_Ok & HH)%res_bind_Ok)%res_bind_Ok.
  destruct (next <=? _) eqn:Hle; [done|]. apply Z.leb_gt in Hle. injection HH as <-. cbn. split_and!; done.
Qed.

Lemma tbs_cert_list_Ok t tbs a : tbs_cert_list debug_algorithm crypto_text t = Ok tbs →
  tc_signature_algorithm t = Some a →
  algorithm_identifier debug_algorithm a = Ok (tl_signature tbs) ∧
  (∃ certs, revoked_certs (tc_revoked t) = Ok certs ∧
     tl_revoked tbs = match certs with [] => None | _ => Some certs end) ∧
  build_extensions t = Ok (tl_extensions tbs) ∧
  dn_to_name (tc_issuer t) = Ok (tl_issuer tbs) ∧
  datetime_to_time (tc_this_update t) = Ok (tl_this_update tbs) ∧
  ∃ next, datetime_to_time (tc_next_update t) = Ok next ∧ tl_next_update tbs = Some next.
Proof.
  intros (iss & Hiss & (this & Hthis & (next & Hnext & (certs & Hc & (alg & Ha & (exts & He & [= <-])%res_bind_Ok)
    %res_bind_Ok)%res_bind_Ok)%res_bind_Ok)%res_bind_Ok)%res_bind_Ok Hs. cbn.
  unfold get_signature_algorithm in Ha. rewrite Hs in Ha.
  destruct (algorithm_identifier _ _) as [i|e]; [|done]. injection Ha as ->.
  split; [done|]. split; [by exists certs|]. split_and!; [done..|]. by exists next.
Qed.

(** What [build_full_crl] and [build_delta_crl] give [sign_and_store]. *)
Record built (m : RevocationManager) (dn : DistinguishedName) (entries : list RevokedEntry) (base : option Z) (n : Z)
    (t : DateTime) (a : Algorithm) (b : CrlBuilder) : Prop := {
  b_algorithm : crl_signature_algorithm m = Ok a;
  b_signature : cb_signature_algorithm b = Some a;
  b_this : cb_this_update b = Some t;
  b_next : cb_next_update b = Some (t + hours (crl_validity_hours m));
  b_number : cb_crl_number b = Some (wrap 64 n);
  b_entries : cb_revoked b = entries;
  b_base : cb_base_crl_number b = wrap 64 <$> base;
  b_issuer : cb_issuer b = Some dn;
  b_no_key : cb_authority_key_id b = None; b_direct : cb_indirect_crl b = false;
  b_freshest : cb_freshest_crl_url b = match base with Some _ => None | None => delta_crl_url m end
}.

Lemma wpm_sign_and_store m dn entries base n t a b w0 w :
  built m dn entries base n t a b → Inv w0 → later w0 w → w_app_now w0 ≤ t ≤ w_app_now w →
  n = Z.of_nat (length (crls_of (ca_certificate_id m) (wdb w0))) + 1 →
  wpm (sign_and_store m b a n (length entries) base)
    (λ g w', (∃ l cl, published m dn entries base g l cl w' ∧ l_crl_number l = n) ∧ g_this_update g = t) w.
Proof.
  intros [B1 B2 B3 B4 B5 B6 B7 B8 B9 B10 B11] Hi0 Hl0 Ht Hn.
  apply wpm_bind, wpm_lift. intros tbs Hb%stage_Ok.
  apply build_tbs_Ok in Hb as (P1 & P2 & P3 & P4 & P5 & P6 & P7 & P8 & P9 & P10 & P11).
  rewrite B3 in P2. rewrite B4 in P3. injection P3 as P3. rewrite B5 in P4. rewrite B6 in P5.
  rewrite B2 in P6. rewrite B7 in P7. cbn in P2.
  rewrite B8 in P8. injection P8 as P8. rewrite B9 in P9. rewrite B10 in P10. rewrite B11 in P11.
  apply wpm_bind, wpm_lift. intros tbs_der (tb & Htb & Hder%encoding_Ok)%stage_Ok%res_bind_Ok.
  destruct (tbs_cert_list_Ok _ _ a Htb P6) as (Halg & Hcerts & Hexts & Hissuer & Hthis & Hnext).
  rewrite P5 in Hcerts.
  destruct (build_extensions_Ok _ _ _ Hexts P4 P9 P10) as (delta & fresh & Hexts' & Hdelta & Hfresh).
  apply wp_bind, wp_sign. intros w1 signed Hl1 Hi1 Hsigned.
  apply wpm_bind, wpm_lift. intros raw Hraw%stage_Ok. specialize (Hsigned raw Hraw).
  apply wpm_bind, wpm_lift. intros signature Hsig%stage_Ok.
  apply wpm_bind, wpm_lift. intros der Hsc%stage_Ok.
  destruct (build_signed_crl_Ok _ _ _ _ Hder Hsc) as (cl & Hcl & <- & Hcalg & Hbits).
  apply wpm_bind, wpm_lift. intros pem Hpem%stage_Ok.
  apply wpm_bind, wpm_stage_sql. intros w2 Hl2 Hi2.
  set (row := Build_Crl _ _ _ _ _ _ _ _).
  assert (later w0 w2) as Hl02 by (do 2 (etransitivity; [eassumption|]); done).
  assert (w_app_now w ≤ w_app_now w2) as Hle.
  { destruct Hl1 as (_ & _ & _ & ? & _), Hl2 as (_ & _ & _ & ? & _). lia. }
  split; [apply (kept_create_crl _ w0); cbn; try done; rewrite ?P2; lia|]. intros r Hr. unfold ret. cbn. split; [|done].
  exists row, cl. split; [|done].
  assert (row ∈ crls (wdb (after (create_crl row) w2))) as Hrow.
  { unfold after, create_crl in *. destruct (existsb _ _); [done|].
    apply elem_of_app. right. by apply list_elem_of_singleton. }
  split; [exact Hrow|..]; cbn; try done.
  - split; [done|]. by destruct base.
  - split_and!; [done..| |lia]. rewrite P2. lia.
  - exists a, tbs_der, raw, signature. rewrite Hcalg. split_and!; try done.
    destruct Hl2 as (_ & _ & _ & _ & [k Hk] & _).
    unfold after; cbn. rewrite Hk. apply elem_of_app. by left.
  - by rewrite P8.
  - exists (delta ++ fresh). split; [done|]. rewrite Hdelta, P7. rewrite P11 in Hfresh.
    destruct base; cbn; [by rewrite Hfresh|]. by destruct (delta_crl_url m).
Qed.

(** ** The entries *)

(** The entry that a revoked certificate has. *)
Definition entry_of (c : Certificate) (t : DateTime) : RevokedEntry :=
  {| re_serial_number := c_serial_number c; re_revocation_time := t;
     re_reason := c_revocation_reason c ≫= from_i32 |}.
Definition revoked_at (ca : Uuid) (c : Certificate) (t : DateTime) : Prop :=
  c_ca_id c = ca ∧ c_revoked c = true ∧ c_revocation_time c = Some t.

(** Every certificate that is revoked in [w], at a time with [P], has its
    entry, and every entry is of such a certificate of [w']. *)
Definition lists (ca : Uuid) (P : DateTime → Prop) (entries : list RevokedEntry) (w w' : World)
    : Prop :=
  (∀ c t, c ∈ certificates (wdb w) → revoked_at ca c t → P t → entry_of c t ∈ entries) ∧
  (∀ e, e ∈ entries → ∃ c t, c ∈ certificates (wdb w') ∧ revoked_at ca c t ∧ P t ∧ e = entry_of c t).

Lemma lists_later ca P entries w0 w w' w1 :
  later w0 w → later w' w1 → lists ca P entries w w' → lists ca P entries w0 w1.
Proof.
  intros (H0 & _) (H1 & _) [HL1 HL2]. split.
  - intros c t (c' & Hc' & Hs)%H0 Hr Hp. apply same_certificate_revoked in Hs as ->; [|apply Hr].
    by apply HL1.
  - intros e (c & t & (c' & Hc' & Hs)%H1 & Hr & Hp)%HL2.
    apply same_certificate_revoked in Hs as ->; [|apply Hr]. by exists c, t.
Qed.

(** [pick] makes the entry of a row. *)
Lemma find_revoked_lists ca now w cs (P : DateTime → Prop) pick :
  (∀ c e, pick c = Some e ↔ ∃ t, c_revocation_time c = Some t ∧ P t ∧ e = entry_of c t) →
  (find_revoked ca now (wdb w)).1 = Ok cs → lists ca P (omap pick cs) w w.
Proof.
  intros Hpick [= <-].
  assert (∀ c, c ∈ by_revocation_time (List.filter (revoked_of ca) (certificates (wdb w))) ↔
    c ∈ certificates (wdb w) ∧ c_ca_id c = ca ∧ c_revoked c = true) as Hin.
  { intros c. rewrite by_revocation_time_perm, elem_of_filter_bool. unfold revoked_of.
    by rewrite andb_true_iff, bool_decide_eq_true. }
  split.
  - intros c t Hc (Hca & Hr & Ht) Hp. apply list_elem_of_omap. exists c. rewrite Hin, Hpick. naive_solver.
  - intros e (c & (? & ? & ?)%Hin & (t & ? & ? & ?)%Hpick)%list_elem_of_omap. by exists c, t.
Qed.

Lemma revoked_info_Some c e : revoked_info c = Some e ↔
  ∃ t, c_revocation_time c = Some t ∧ True ∧ e = entry_of c t.
Proof. unfold revoked_info. destruct (c_revocation_time c); naive_solver. Qed.
Lemma delta_info_Some base c e : delta_info base c = Some e ↔
  ∃ t, c_revocation_time c = Some t ∧ l_this_update base < t ∧ e = entry_of c t.
Proof.
  unfold delta_info, revoked_info. destruct (c_revocation_time c) as [t|]; cbn; [|naive_solver].
  destruct (t <=? l_this_update base) eqn:Ht; [apply Z.leb_le in Ht|apply Z.leb_gt in Ht]; naive_solver lia.
Qed.

Definition full_crl (m : RevocationManager) (dn : DistinguishedName) (w : World) (g : GeneratedCrl)
    (w' : World) : Prop :=
  ∃ entries l cl, published m dn entries None g l cl w' ∧
    w_app_now w ≤ g_this_update g ≤ w_app_now w' ∧
    lists (ca_certificate_id m) (λ _, True) entries w w'.

Lemma wpm_build_full_crl m dn w : wpm (build_full_crl m dn) (full_crl m dn w) w.
Proof.
  apply wpm_bind, wpm_stage_read; [done|]. intros w1 certs Hl1 Hi1 Hcerts.
  apply wpm_bind, wpm_stage_read; [done|]. intros w2 n Hl2 Hi2 Hn%next_number_Ok; [|done].
  apply wpm_bind, wpm_lift. intros a Ha%stage_Ok.
  apply wp_bind, wp_clock. intros w3 Hl3 Hi3. rewrite generate_fields.
  eapply wpm_mono; [|eapply (wpm_sign_and_store m dn (omap revoked_info certs) None n (w_app_now w3) a _ w2)].
  - intros g w' Hl' [(l & cl & Hp & _) Ht]. exists (omap revoked_info certs), l, cl. split; [done|].
    split.
    { rewrite Ht. destruct Hl1 as (_ & _ & _ & ? & _), Hl2 as (_ & _ & _ & ? & _).
      destruct Hl3 as (_ & _ & _ & ? & _), Hl' as (_ & _ & _ & ? & _). lia. }
    eapply lists_later, find_revoked_lists, Hcerts; [done| |apply revoked_info_Some].
    by do 2 (etransitivity; [eassumption|]).
  - destruct (delta_crl_url m) eqn:Hd; by (split; cbn; rewrite ?Hd).
  - done.
  - done.
  - destruct Hl3 as (_ & _ & _ & ? & _). lia.
  - done.
Qed.

Definition delta_crl (m : RevocationManager) (dn : DistinguishedName) (w : World) (g : GeneratedCrl) (base : Z) (w' : World)
    : Prop :=
  ∃ entries l cl b, published m dn entries (Some base) g l cl w' ∧
    b ∈ crls (wdb w') ∧ l_ca_id b = ca_certificate_id m ∧ l_is_delta b = false ∧
    l_crl_number b = base ∧
    (∀ f, f ∈ crls (wdb w) → l_ca_id f = ca_certificate_id m → l_is_delta f = false →
       l_crl_number f ≤ base) ∧
    lists (ca_certificate_id m) (λ t, l_this_update b < t) entries w w'.

Lemma highest_spec ls b : highest ls = Some b →
  b ∈ ls ∧ ∀ l, l ∈ ls → l_crl_number l ≤ l_crl_number b.
Proof.
  revert b. induction ls as [|l ls IH]; intros b; cbn; [done|].
  destruct (highest ls) as [m|] eqn:Hm.
  - destruct (IH m eq_refl) as [H1 H2]. intros [= <-].
    destruct (l_crl_number l <? l_crl_number m) eqn:Hlt.
    + apply Z.ltb_lt in Hlt. split; [by apply list_elem_of_further|].
      intros l' [->|Hl']%elem_of_cons; [lia|by apply H2].
    + apply Z.ltb_ge in Hlt. split; [apply list_elem_of_here|].
      intros l' [->|Hl']%elem_of_cons; [lia|]. apply H2 in Hl'. lia.
  - intros [= <-]. destruct ls as [|l' ls]; [|cbn in Hm; by destruct (highest ls)].
    split; [apply list_elem_of_here|]. intros l' ->%list_elem_of_singleton. lia.
Qed.

Lemma find_latest_Ok ca delta now d b : (find_latest ca delta now d).1 = Ok (Some b) →
  b ∈ crls d ∧ l_ca_id b = ca ∧ l_is_delta b = delta ∧
  ∀ f, f ∈ crls d → l_ca_id f = ca → l_is_delta f = delta → l_crl_number f ≤ l_crl_number b.
Proof.
  intros [= (Hb & Hmax)%highest_spec].
  apply elem_of_filter_bool in Hb as [[Hb Hca]%elem_of_filter_bool Hd].
  apply bool_decide_eq_true in Hca. apply Bool.eqb_prop in Hd. split_and!; try done.
  intros f Hf Hfca Hfd. apply Hmax, elem_of_filter_bool. split; [|subst delta; by rewrite Hfd, Bool.eqb_reflx].
  apply elem_of_filter_bool. by rewrite bool_decide_eq_true.
Qed.

Lemma wpm_build_delta_crl m dn w :
  wpm (build_delta_crl m dn) (λ '(g, base) w', delta_crl m dn w g base w') w.
Proof.
  apply wpm_bind, wpm_stage_read; [done|]. intros w1 found Hl1 Hi1 Hfound.
  apply wpm_bind, wpm_lift. intros b Hb%ok_or_Ok. rewrite Hb in Hfound.
  apply (find_latest_Ok _ _ 0) in Hfound as (Hin & Hca & Hfull & Hmax).
  apply wpm_bind, wpm_stage_read; [done|]. intros w2 certs Hl2 Hi2 Hcerts.
  apply wpm_bind, wpm_stage_read; [done|]. intros w3 n Hl3 Hi3 Hn%next_number_Ok; [|done].
  apply wpm_bind, wpm_lift. intros a Ha%stage_Ok.
  apply wp_bind, wp_clock. intros w4 Hl4 Hi4. rewrite generate_fields. apply wpm_bind.
  eapply wpm_mono; [|eapply (wpm_sign_and_store m dn (omap (delta_info b) certs)
    (Some (l_crl_number b)) n (w_app_now w4) a _ w3); [by split|done|done| |done]].
  - intros g w' Hl' [(l & cl & Hp & _) _]. exists (omap (delta_info b) certs), l, cl, b.
    assert (later w1 w') as Hl1' by (by do 3 (etransitivity; [eassumption|])).
    split_and!; try done.
    + destruct Hl1' as (_ & [k ->] & _). apply elem_of_app. by left.
    + intros f Hf. apply Hmax. destruct Hl1 as (_ & [k ->] & _). apply elem_of_app. by left.
    + eapply lists_later, find_revoked_lists, Hcerts; [by etransitivity| |apply delta_info_Some].
      by do 2 (etransitivity; [eassumption|]).
  - destruct Hl4 as (_ & _ & _ & ? & _). lia.
Qed.
End published.

(** * Revocation and CRL generation, one program at a time

    What [generate_crl_by], [generate_delta_crl_by] and [revoke] of Revocation.v
    answer, in company of any other programs of the CA. *)

Section revocation.
Context {HL : CaLib} {HO : RevokedOrder}.
Abbreviation wp := (Programs.wp (L := logic)).
Abbreviation wpm := (Programs.wpm (L := logic)).

(** ** Generating a CRL *)

Lemma wp_record_audit ev (Q : result unit Error → World → Prop) w :
  (∀ w1 x, later w w1 → (x = Ok tt → EvAudit ev ∈ wtrace w1) →
     (∀ e, x = Err e → ∃ s, e = Audit s) → Q x w1) →
  wp (record_audit ev) Q w.
Proof.
  intros HH. apply wp_bind, wp_audit. intros w1 x Hl Hi Hx. cbn.
  apply HH; [done|destruct x as [[]|]|destruct x as [[]|]]; naive_solver.
Qed.
Lemma wp_reported {A} ev (p : Prog A) (Q : A → World → Prop) w :
  (∀ w1, later w w1 → wp p Q w1) → wp (let^ _ := call (ERecord ev) in p) Q w.
Proof. intros HH. apply wp_bind, wp_audit. intros w1 x Hl _ _. by apply HH. Qed.

Lemma full_crl_later m dn w g w1 w2 : later w1 w2 → full_crl m dn w g w1 → full_crl m dn w g w2.
Proof.
  intros Hl (entries & l & cl & Hp & Ht & Hls). exists entries, l, cl.
  split; [by eapply published_later|]. split; [|by eapply lists_later].
  destruct Hl as (_ & _ & _ & ? & _). lia.
Qed.
Lemma delta_crl_later m dn w g base w1 w2 :
  later w1 w2 → delta_crl m dn w g base w1 → delta_crl m dn w g base w2.
Proof.
  intros Hl (entries & l & cl & b & Hp & Hb & Hr & Hd & Hn & Hmax & Hls). exists entries, l, cl, b.
  split; [by eapply published_later|]. split.
  - destruct Hl as (_ & [k ->] & _). apply elem_of_app. by left.
  - split_and!; try done. by eapply lists_later.
Qed.

Definition generated_event (m : RevocationManager) (actor : CrlActor) (g : GeneratedCrl) : CaEvent :=
  merge_details (crl_audit_event (ca_certificate_id m) actor CRL_ACTION_GENERATE)
    [("crl_number", DInt (g_crl_number g)); ("revoked_count", DInt (Z.of_nat (g_revoked_count g)))].
Definition generated_delta_event (m : RevocationManager) (actor : CrlActor) (g : GeneratedCrl)
    (base : Z) : CaEvent :=
  merge_details (crl_audit_event (ca_certificate_id m) actor CRL_ACTION_GENERATE_DELTA)
    [("crl_number", DInt (g_crl_number g)); ("base_crl_number", DInt base);
     ("revoked_count", DInt (Z.of_nat (g_revoked_count g)))].

Lemma wpm_generate_crl m dn actor w :
  wpm (generate_crl_by m dn actor)
    (λ g w', full_crl m dn w g w' ∧ EvAudit (generated_event m actor g) ∈ wtrace w') w.
Proof.
  apply wp_bind. eapply wp_mono; [|apply wpm_build_full_crl].
  intros [g|[f e]] w1 Hl; [intros Hg|intros _].
  - apply wpm_bind, wp_record_audit. intros w2 [[]|e] Hl2 Hx _; [|done].
    split; [by eapply full_crl_later|by apply Hx].
  - apply wp_bind, wp_reported. done.
Qed.
Lemma wpm_generate_delta_crl m dn actor w :
  wpm (generate_delta_crl_by m dn actor)
    (λ g w', ∃ base, delta_crl m dn w g base w' ∧
       EvAudit (generated_delta_event m actor g base) ∈ wtrace w') w.
Proof.
  apply wp_bind. eapply wp_mono; [|apply wpm_build_delta_crl].
  intros [[g base]|[f e]] w1 Hl; [intros Hg|intros _].
  - apply wpm_bind, wp_record_audit. intros w2 [[]|e] Hl2 Hx _; [|done].
    exists base. split; [by eapply delta_crl_later|by apply Hx].
  - apply wp_bind, wp_reported. done.
Qed.

(** ** Revoking *)

(** The request's certificate is revoked for its reason, between the times of
    the database in [w] and [w']. *)
Definition revoked_by (rq : RevocationRequest) (c : Certificate) (w w' : World) : Prop :=
  ∃ t c0, c = set_revoked t (as_i32 (reason rq)) c0 ∧ w_db_now w ≤ t ≤ w_db_now w'.
Definition row (id : Uuid) (c : Certificate) (w : World) : Prop :=
  c ∈ certificates (wdb w) ∧ c_id c = id ∧ c_revoked c = true.

Definition revoke_outcome (rq : RevocationRequest) (w : World) (r : result unit Error) (w' : World)
    : Prop :=
  match r with
  | Ok _ => ∃ c, row (certificate_id rq) c w' ∧ revoked_by rq c w w' ∧
      EvAudit (revocation_event rq c) ∈ wtrace w'
  | Err (RevocationError _) => ∃ c, row (certificate_id rq) c w' ∧
      EvAudit (with_failure "already_revoked" (revocation_event rq c)) ∈ wtrace w'
  | Err (Audit _) => ∃ c, row (certificate_id rq) c w'
  | Err (InvalidRequest _) => ∀ c, c ∈ certificates (wdb w) → c_id c ≠ certificate_id rq
  | Err _ => True
  end.

Lemma row_later id c w w' : later w w' → row id c w → row id c w'.
Proof.
  intros (Hc & _) (Hin & Hid & Hr). apply Hc in Hin as (c' & Hin & Hs).
  apply same_certificate_revoked in Hs as ->; done.
Qed.

Lemma find_by_id_Some id now d c : (find_by_id id now d).1 = Ok (Some c) →
  c ∈ certificates d ∧ c_id c = id.
Proof.
  intros [= [Hin Hid]%find_some]. apply list_elem_of_In in Hin. by apply bool_decide_eq_true in Hid.
Qed.
Lemma find_by_id_None id now d : (find_by_id id now d).1 = Ok None →
  ∀ c, c ∈ certificates d → c_id c ≠ id.
Proof.
  intros [= Hf] c Hin%list_elem_of_In Hid. eapply find_none in Hf; [|done].
  by apply bool_decide_eq_false in Hf.
Qed.

Lemma inv_unique w c c' : Inv w → c ∈ certificates (wdb w) → c' ∈ certificates (wdb w) →
  c_id c = c_id c' → c = c'.
Proof. intros Hi. apply NoDup_key_eq, (inv_ids w Hi). Qed.

Lemma revoke_row_Ok id reason w c :
  Inv w → c ∈ certificates (wdb w) → c_id c = id →
  (revoke_row id reason (w_db_now w) (wdb w)).1 = Ok tt →
  row id (set_revoked (w_db_now w) reason c) (after (revoke_row id reason) w).
Proof.
  intros Hi Hin Hid. unfold after, revoke_row. destruct (existsb _ _) eqn:He; [|done]. intros _.
  apply existsb_elem_of in He as (c' & Hin' & Hu). split; [|done]. cbn.
  assert (c' = c) as ->.
  { apply (inv_unique w); try done. apply andb_true_iff in Hu as [Hu%bool_decide_eq_true _]. congruence. }
  apply list_elem_of_fmap. exists c. by rewrite Hu.
Qed.

Lemma revocation_event_set_revoked rq t reason c :
  revocation_event rq (set_revoked t reason c) = revocation_event rq c.
Proof. done. Qed.

Lemma revocation_event_same rq c c' :
  same_certificate c c' → revocation_event rq c' = revocation_event rq c.
Proof. by intros [->|(_ & t & r & ->)]. Qed.

Lemma wp_revoke rq w : wp (revoke rq) (revoke_outcome rq w) w.
Proof.
  apply wp_bind, wp_sql. intros w1 Hl1 Hi1. split; [by apply kept_query|].
  assert (∀ w2 e, wp (let^ _ := record_revocation_failure rq "lookup_failed" in fail (Database e))
    (revoke_outcome rq w) w2) as Hdb by (intros; apply wp_bind, wp_reported; done).
  split; [|intros e; split; apply Hdb].
  unfold after. replace (find_by_id _ _ _).2 with (wdb w1) by done. rewrite with_db_same.
  destruct ((find_by_id (certificate_id rq) (w_db_now w1) (wdb w1)).1) as [[c|]|] eqn:Hf; [..|apply Hdb].
  - apply find_by_id_Some in Hf as [Hin Hid]. destruct (c_revoked c) eqn:Hr.
    + apply wp_bind, wp_record_audit. intros w2 [[]|e] Hl2 Hx He.
      * exists c. split; [by eapply row_later|by apply Hx].
      * destruct (He e eq_refl) as [s ->]. exists c. by eapply row_later.
    + apply wp_bind, wp_sql. intros w2 Hl2 Hi2. split; [by apply kept_revoke_row|].
      split; [|intros e; split; apply wp_reported; done].
      destruct ((revoke_row _ _ _ _).1) as [[]|e] eqn:Hk; [|by apply wp_reported].
      destruct Hl2 as [Hc2 Hl2']. destruct (Hc2 c Hin) as (c2 & Hin2 & Hs).
      assert (c_id c2 = certificate_id rq) as Hid2 by (by destruct Hs as [->|(_ & ? & ? & ->)]).
      apply (revoke_row_Ok _ _ w2 c2) in Hk; [|done..].
      apply wp_record_audit. intros w3 [[]|e] Hl3 Hx He.
      * eexists. split; [by eapply row_later|]. split.
        { eexists _, c2. split; [done|]. destruct Hl1 as (_ & _ & ? & _), Hl2' as (_ & ? & _), Hl3 as (_ & _ & Hle & _).
          cbn in Hle. lia. }
        rewrite revocation_event_set_revoked, (revocation_event_same _ c) by done. by apply Hx.
      * destruct (He e eq_refl) as [s ->]. eexists. by eapply row_later.
  - apply wp_bind, wp_reported. intros w2 _. cbn. intros c Hin Hid.
    destruct Hl1 as [Hc _]. apply Hc in Hin as (c' & Hin & Hs).
    eapply (find_by_id_None _ _ _ Hf); [done|]. by destruct Hs as [->|(_ & ? & ? & ->)].
Qed.
End revocation.
