(* ===== verification/IssuanceRuns.v ===== *)
(** * Issuance and the approval workflow, one program at a time

    What [issue] of Issuance.v answers, and that every handler of CaApi.v keeps
    the invariant, in company of any other programs of the CA. *)
From stdpp Require Import base strings list gmap sorting relations.
From Stdlib Require Import ZArith Lia.
From S2P Require Import Prelude Programs Signing Algorithm Roles X509Names Csr CertProfile CertBuilder CaStore CaCore CrlBuilder Revocation Issuance IssuedCert CaApi CaInv CrlPublished.
From S2P Require AuditLog Approval OcspResponder.
#[local] Open Scope Z_scope.

Section issuance.
Context {HL : CaLib} {HO : RevokedOrder}.
Abbreviation wp := (Programs.wp (L := logic)).
Abbreviation wpm := (Programs.wpm (L := logic)).

Lemma x509_Ok {A} (r : result A X509Error) x : x509 r = Ok x ↔ r = Ok x.
Proof. destruct r; cbn; split; congruence. Qed.
Lemma map_text_Ok {A E} into text context (r : result A E) x :
  map_text into text context r = Ok x ↔ r = Ok x.
Proof. destruct r; cbn; split; congruence. Qed.

Lemma wpm_refused {A} ev msg (Q : A → World → Prop) w : wpm (refused ev msg) Q w.
Proof. apply wpm_bind, wpm_record_audit. done. Qed.

(** ** The checks *)

Lemma status_approved r : request_row_ok r = true →
  Approval.status (from_record r) = Approval.Approved → Approval.rec_status r = "approved".
Proof.
  unfold request_row_ok. rewrite !andb_true_iff, !contains_true. intros [[[_ Hs] _] _] Ha.
  revert Ha. unfold from_record, Approval.from_record, Approval.approval_status_from_str. cbn [Approval.status].
  repeat (apply elem_of_cons in Hs as [-> |Hs]; [by rewrite to_lowercase_ascii|]).
  by apply elem_of_nil in Hs.
Qed.

Lemma wpm_check_approval i rq ev w : wpm (check_approval i rq ev) (λ _ w', approved i rq w') w.
Proof.
  unfold check_approval. destruct (Approval.require_approval _) eqn:Hr; cbn [negb];
    [|by intros Hr'; rewrite Hr in Hr'].
  apply wpm_bind, wpm_lift. intros id Hid%ok_or_Ok. destruct (ci_approval_repo i); [|done]. cbn [negb].
  apply wpm_bind, wpm_try_read; [done|]. intros w1 found Hl Hi [= Hf].
  apply wpm_bind, wpm_lift. intros record ->%ok_or_Ok. apply find_request in Hf as [Hin Hrid].
  cbv zeta. case_bool_decide as Hs; [|apply wpm_refused].
  case_bool_decide as Ht; [|apply wpm_refused]. cbn [negb].
  destruct (bool_decide (is_Some _)); [apply wpm_refused|].
  intros _. exists record. split_and!; [done|congruence|done|].
  destruct (inv_approvals w1 Hi) as [_ R A]. apply A; [done|]. apply status_approved; [by apply R|done].
Qed.

(** The row that was read, as it is in a later world. *)
Lemma row_read_later r r' w w' : Inv w' → later w w' → r ∈ approvals (wdb w) →
  r' ∈ approvals (wdb w') → Approval.rec_id r' = Approval.rec_id r → same_request r r'.
Proof.
  intros Hi (_ & _ & _ & _ & _ & Hr & _) (r2 & Hin2 & Hs)%Hr Hin' Hid.
  replace r' with r2; [done|].
  eapply (NoDup_key_eq Approval.rec_id); [apply ok_request_ids, Hi|done..|].
  by destruct Hs as (? & ? & ? & ? & ->).
Qed.

(** A request of another type than issuance is refused. *)
Lemma wpm_check_approval_type i rq ev r w : Approval.require_approval (ci_approval_config i) = true →
  r ∈ approvals (wdb w) → ir_approval_request_id rq = Some (Approval.rec_id r) →
  Approval.request_type (from_record r) ≠ Approval.Issuance →
  wpm (check_approval i rq ev) (λ _ _, False) w.
Proof.
  intros Hr Hin Hid Ht. unfold check_approval. rewrite Hr, Hid.
  apply wpm_bind, wpm_lift. intros id [= <-]. destruct (ci_approval_repo i); [|done]. cbn [negb].
  apply wpm_bind, wpm_try_read; [done|]. intros w1 found Hl Hi [= Hf].
  apply wpm_bind, wpm_lift. intros record ->%ok_or_Ok. apply find_request in Hf as [Hin1 Hrid].
  destruct (row_read_later r record w w1) as (? & ? & ? & ? & ->); [done..|].
  cbv zeta. case_bool_decide; [|apply wpm_refused]. case_bool_decide; [done|apply wpm_refused].
Qed.

Lemma wpm_check_csr rq ev w : wpm (check_csr rq ev) (λ _ _, ∀ der, ir_csr_der rq = Some der →
  ∃ csr, parse_csr der = Ok csr ∧ possession der csr ∧ public_key csr = ir_public_key rq) w.
Proof.
  unfold check_csr. destruct (ir_csr_der rq) as [der|]; [|done].
  apply wpm_bind, wpm_lift. intros csr Hp. destruct (parse_csr der) as [csr'|] eqn:Hparse; [|done].
  injection Hp as ->. apply wpm_bind, wpm_lift. intros valid Hv.
  destruct (verify_csr_signature verify_text csr) as [v|] eqn:Hver; [|done]. injection Hv as ->.
  destruct valid; cbn [negb]; [|apply wpm_refused]. case_bool_decide as Hk; [|apply wpm_refused].
  intros der' [= <-]. exists csr. split_and!; [done| |done]. by eapply verify_csr_signature_true.
Qed.

(** ** The certificate *)

Lemma serial_of_random_length bytes serial : serial_of_random bytes = Ok serial →
  length serial = length bytes.
Proof.
  unfold serial_of_random, OcspResponder.serial_from_bytes. destruct bytes as [|b bytes]; [done|].
  destruct (20 <? _)%nat; [done|]. destruct (negb _); [done|]. by intros [= <-].
Qed.

Lemma wpm_generate_serial w : wpm generate_serial_number (λ serial _, length serial = 20%nat) w.
Proof.
  apply wp_bind, wp_random. intros w1 drawn _ _ Hd. apply wpm_bind, wpm_lift. intros bytes Hb.
  destruct drawn as [b|]; [|done]. injection Hb as ->. destruct (Hd bytes eq_refl) as [Hlen _].
  apply wpm_lift. intros serial Hs%serial_of_random_length. by rewrite Hs.
Qed.

Lemma wpm_sign_certificate i rq p rid w :
  wpm (sign_certificate i rq p rid)
    (λ row w', (∃ xc, certified i rq p row xc w') ∧ c_request_id row = Some rid) w.
Proof.
  apply wpm_bind. eapply wpm_mono; [|apply wpm_generate_serial]. intros serial w1 _ Hserial.
  apply wpm_bind, wpm_lift. intros issuer_dn Hissuer%map_text_Ok.
  apply wpm_bind, wpm_lift. intros a Halg%map_text_Ok.
  apply wp_bind, wp_clock. intros w2 _ _.
  apply wpm_bind, wpm_lift. intros ski Hski%map_text_Ok.
  apply wpm_bind, wpm_lift. intros tbs Htbs%x509_Ok.
  destruct (build_tbs_carries _ _ _ _ _ _ _ _ _ _ (builder_carries i rq p (w_app_now w2) serial issuer_dn a ski)
    (builder_adds _ _ _ _ _ _ _ _) Hski Htbs) as (E1 & E2 & E3 & E4 & E5 & E6 & E10 & Hlt & Hasked).
  apply wpm_bind, wpm_lift. intros tbs_der Hder%x509_Ok.
  destruct (tbs_certificate_der_Ok _ _ _ E10 Hder)
    as (xt & Hxt & X1 & X2 & X3 & X4 & X5 & X6 & X7 & X8).
  apply wp_bind, wp_sign. intros w3 signed Hl3 _ Hsigned.
  apply wpm_bind, wpm_lift. intros raw Hraw. destruct signed as [r|]; [|done]. injection Hraw as ->.
  specialize (Hsigned raw eq_refl).
  apply wpm_bind, wpm_lift. intros signature Hsig%map_text_Ok.
  apply wpm_bind, wpm_lift. intros der Hsc.
  destruct (build_signed_certificate_Ok _ _ _ _ Hxt Hsc) as (xc & Hxc & <- & Hxalg & Hbits).
  apply wpm_bind, wpm_lift. intros pem _.
  apply wp_bind, wp_new_uuid. intros w4 id Hl4 _. split; [|done]. exists xc. split; cbn; try done.
  - by rewrite <- E2.
  - exists issuer_dn. split; [done|]. by rewrite <- E3.
  - by rewrite <- E6.
  - by rewrite <- E1 at 1.
  - rewrite E4, E5 in *. split_and!; try done. destruct Hl3 as (_ & _ & _ & ? & _), Hl4 as (_ & _ & _ & ? & _). lia.
  - by eapply build_extensions_say.
  - exists a, tbs_der, raw, signature. rewrite Hxalg. split_and!; try done. by eapply trace_kept.
Qed.

(** What a successful answer means: the certificate is in the table, perhaps
    revoked since, and audited. *)
Definition issue_outcome (i : CertificateIssuer) (rq : IssuanceRequest) (ic : IssuedCertificate)
    (w : World) : Prop :=
  ∃ c0 c rid, c ∈ certificates (wdb w) ∧ same_certificate c0 c ∧ issued i rq c0 w ∧
    ic = {| ic_certificate_id := c_id c0; ic_serial_number := c_serial_number c0;
            ic_der_encoded := c_der_encoded c0; ic_pem_encoded := c_pem_encoded c0;
            ic_not_before := c_not_before c0; ic_not_after := c_not_after c0 |} ∧
    c_request_id c0 = Some rid ∧ default rid (ir_request_id rq) = rid ∧
    EvAudit (issuance_event rq rid) ∈ wtrace w.

Lemma wpm_link_approval i rq id w : wpm (link_approval i rq id) (λ _ _, True) w.
Proof.
  unfold link_approval. destruct (ir_approval_request_id rq) as [a|]; [|done].
  destruct (ci_approval_repo i); [|done]. apply wp_bind, wp_clock. intros w1 _ _.
  apply wpm_bind, wpm_try_sql. intros w2 _ Hi. split; [by apply kept_mark_completed|done].
Qed.

Lemma create_Ok c now d r : (create c now d).1 = Ok r → r = c ∧ c ∈ certificates (create c now d).2.
Proof.
  unfold create. destruct (existsb _ _); [done|]. intros [= <-]. split; [done|].
  apply elem_of_app. right. by apply list_elem_of_singleton.
Qed.

(** From the checks on. *)
Lemma wpm_store_certificate i rq p rid w :
  requested i rq w → approved i rq w → permitted i rq p → default rid (ir_request_id rq) = rid →
  wpm (store_certificate i rq p rid) (issue_outcome i rq) w.
Proof.
  intros Hreq Happ Hperm Hrid. apply wpm_bind. eapply wpm_mono; [|apply wpm_sign_certificate].
  intros row w1 Hl1 [(xc & Hc) Hid].
  assert (issued i rq row w1) as Hiss.
  { split; [by eapply requested_later|]. split; [by eapply approved_later|]. by exists p, xc. }
  apply wpm_bind, wpm_try_sql. intros w2 Hl2 Hi2.
  assert (issued i rq row w2) as Hiss2 by (by eapply issue_later).
  destruct (kept_create row w2) as [Hk1 Hk2]; [apply Hc|done| |].
  { exists i, rq, row. split; [by left|done]. }
  split; [done|]. intros r [_ Hrow]%create_Ok.
  apply wpm_bind. eapply wpm_mono; [|apply wpm_link_approval]. intros [] w3 Hl3 _.
  apply wpm_bind, wpm_record_audit. intros w4 Hl4 _ Hev.
  assert (later (after (create row) w2) w4) as Hl by (by etransitivity).
  pose proof Hl as [Hcert _]. destruct (Hcert row Hrow) as (c & Hin & Hs).
  exists row, c, rid. split_and!; try done. eapply issue_later; [|exact Hiss2]. by etransitivity.
Qed.

Lemma wpm_issue_refused i rq (Q : IssuedCertificate → World → Prop) w :
  (∀ ev w', later w w' → wpm (check_approval i rq ev) (λ _ _, False) w') → wpm (issue i rq) Q w.
Proof.
  intros Hc. apply wp_bind.
  assert (∀ rid w', later w w' →
    wpm (let# profile := lift (ok_or (ci_profiles i !! ir_profile_name rq) (ProfileNotFound (ir_profile_name rq))) in
      match caller_profile_refusal (ir_authenticated_caller rq) profile with
      | Some failure => let^ _ := call (ERecord (with_failure failure (issuance_event rq rid))) in
                        fail ProfileNotPermitted
      | None => issue_under i rq profile rid
      end) Q w') as HH.
  { intros rid w' Hl. apply wpm_bind, wpm_lift. intros p _.
    destruct (caller_profile_refusal _ p) as [failure|]; [by apply wp_reported|].
    apply wpm_bind, wpm_lift. intros [] _. apply wpm_bind, wpm_lift. intros [] _.
    apply wpm_bind. eapply wpm_mono; [|by apply Hc]. done. }
  destruct (ir_request_id rq) as [rid|]; [by apply HH|].
  apply wp_new_uuid. intros w1 rid Hl _. by apply HH.
Qed.

Lemma wpm_issue_under i rq p rid w :
  requested i rq w → default rid (ir_request_id rq) = rid →
  ci_profiles i !! ir_profile_name rq = Some p →
  caller_profile_refusal (ir_authenticated_caller rq) p = None →
  wpm (issue_under i rq p rid) (issue_outcome i rq) w.
Proof.
  intros Hreq Hrid Hp Hcaller.
  apply wpm_bind, wpm_lift. intros [] Hv%x509_Ok.
  apply wpm_bind, wpm_lift. intros [] Hpol%x509_Ok. apply profile_policy in Hpol.
  apply wpm_bind. eapply wpm_mono; [|apply wpm_check_approval]. intros [] w1 Hl1 Happ.
  destruct (_ && _) eqn:Hnames; [apply wpm_refused|].
  apply wpm_bind. eapply wpm_mono; [|apply wpm_check_csr]. intros [] w2 Hl2 Hcsr.
  destruct (_ && bool_decide (ir_csr_der rq = None)) eqn:Hpop; [apply wpm_refused|].
  apply wpm_store_certificate; [|by eapply approved_later| |done].
  { eapply requested_later; [|done]. by etransitivity. }
  split; try done.
  - intros Hc. unfold caller_profile_refusal in Hcaller. rewrite bool_decide_eq_true_2 in Hcaller by done.
    by destruct (p_ca p).
  - intros Hs He. rewrite Hs, bool_decide_eq_true_2 in Hnames by done. done.
  - intros Hr Hca. destruct (ir_csr_der rq); [done|].
    by rewrite Hr, Hca, bool_decide_eq_true_2 in Hpop.
Qed.

Lemma wpm_issue i rq w : requested i rq w → wpm (issue i rq) (issue_outcome i rq) w.
Proof.
  intros Hreq. apply wp_bind.
  assert (∀ rid w', later w w' → default rid (ir_request_id rq) = rid →
    wpm (let# profile := lift (ok_or (ci_profiles i !! ir_profile_name rq) (ProfileNotFound (ir_profile_name rq))) in
      match caller_profile_refusal (ir_authenticated_caller rq) profile with
      | Some failure => let^ _ := call (ERecord (with_failure failure (issuance_event rq rid))) in
                        fail ProfileNotPermitted
      | None => issue_under i rq profile rid
      end) (issue_outcome i rq) w') as HH.
  { intros rid w' Hl Hrid. apply wpm_bind, wpm_lift. intros p Hp%ok_or_Ok.
    destruct (caller_profile_refusal _ p) as [failure|] eqn:Hc; [by apply wp_reported|].
    apply wpm_issue_under; try done. by eapply requested_later. }
  destruct (ir_request_id rq) as [rid|] eqn:Hrid.
  - apply (HH rid w); [reflexivity|done].
  - apply wp_new_uuid. intros w1 rid Hl _. by apply (HH rid w1).
Qed.
End issuance.
