(* ===== verification/CaSafety.v ===== *)
(** * Every run of the CA keeps the invariant

    What each handler of the REST and gRPC interfaces does.  The programs that requests start, and the world's own changes, keep the
    invariant of CaInv.v; so it holds in every reachable state, and what the
    program logic shows of a program holds of its runs. *)
From stdpp Require Import base strings list gmap sorting relations.
From Stdlib Require Import ZArith Lia.
From S2P Require Import Prelude Roles Programs X509Names Csr CaStore CaCore CrlBuilder Revocation Issuance CaGrpc CaApi CaInv CrlPublished IssuanceRuns.
From S2P Require Approval AuditLog.
#[local] Open Scope Z_scope.

(** * The REST handlers, one program at a time

    Every call of CaApi.v keeps the invariant of CaInv.v: a status "approved"
    is written after a decision of someone who may approve and is not the
    requestor, and what is issued is what the call asks for. *)

Section api.
Context {HL : CaLib} {HO : RevokedOrder}.
Abbreviation wp := (Programs.wp (L := logic)).
Abbreviation wpm := (Programs.wpm (L := logic)).

Lemma authorize_Ok text pol u p resource log :
  (authorize text pol u p resource log).1 = Ok tt → any_role_has_permission (roles u) p = true.
Proof. unfold authorize. cbn. by destruct (any_role_has_permission _ _). Qed.

Lemma wp_respond {A} (p : M A) Q w : wpm p Q w → wp (respond p) top w.
Proof. intros Hp. apply wp_bind. eapply wp_mono; [|exact Hp]. done. Qed.

Lemma wpm_ensure user (Q : unit → World → Prop) w :
  (∀ w1, later w w1 → Q tt w1) → wpm (ensure_principal_provisioned user) Q w.
Proof.
  intros HH. unfold ensure_principal_provisioned. destruct (certificate_subject user) as [s|]; [|by apply HH].
  apply wp_bind, wp_ensure. intros w1 [[]|e] Hl _; [by apply HH|done].
Qed.

Lemma approved_issuance_Ok request rq : approved_issuance request = Ok rq →
  ir_approval_request_id rq = Some (Approval.id request).
Proof.
  unfold approved_issuance. intros (? & _ & (? & _ & (? & _ & (? & _ & (? & _ & [= <-])
    %res_bind_Ok)%res_bind_Ok)%res_bind_Ok)%res_bind_Ok)%res_bind_Ok. done.
Qed.

(** ** Decisions *)

Lemma approve_engine did clk user just (r r' : Approval.ApprovalRequest Json) d :
  Approval.approve_request did clk user just r = (Ok d, r') →
  Approval.requestor_id r ≠ user_id user ∧ any_role_has_permission (roles user) ApproveRequest = true ∧
  Approval.decision d = Approval.DApproved ∧ Approval.approver_id d = user_id user ∧
  Approval.request_id d = Approval.id r ∧ Approval.id r' = Approval.id r ∧
  approved_issuance r' = approved_issuance r.
Proof.
  unfold Approval.approve_request. destruct (Approval.can_approve _ _ _) as [[]|] eqn:Hc; [|done].
  apply Approval.can_approve_Ok in Hc as (Hne & Hp & _ & _). by intros [= <- <-].
Qed.
Lemma reject_engine did clk user why just (r r' : Approval.ApprovalRequest Json) d :
  Approval.reject_request did clk user why just r = (Ok d, r') → Approval.status r' = Approval.Rejected.
Proof. unfold Approval.reject_request. destruct (Approval.can_reject _ _ _); [|done]. by intros [= <- <-]. Qed.

Lemma create_decision_Ok d now db r : (create_decision d now db).1 = Ok r →
  d ∈ decisions (create_decision d now db).2.
Proof.
  unfold create_decision. destruct (_ && _); [|done]. intros _. apply elem_of_app. right.
  by apply list_elem_of_singleton.
Qed.

Lemma wpm_store_decision d request (Q : unit → World → Prop) w :
  (Approval.status request = Approval.Approved → ∀ w1, later w w1 → Inv w1 → d ∈ decisions (wdb w1) →
     ∀ r, r ∈ approvals (wdb w1) → Approval.rec_id r = Approval.id request → decided r w1) →
  (∀ w1, later w w1 → Q tt w1) → wpm (store_decision d request) Q w.
Proof.
  intros Hd HQ. apply wpm_bind, wpm_try_sql. intros w1 Hl1 Hi1.
  destruct (kept_create_decision d w1 Hi1) as [Hk1 Hk2]. split; [done|].
  intros a Hin%create_decision_Ok. apply wpm_bind, wpm_try_sql. intros w2 Hl2 Hi2.
  assert (later w w2) as Hl by (do 2 (etransitivity; [eassumption|]); done).
  destruct (kept_update_status (Approval.id request)
    (Approval.approval_status_display (Approval.status request)) (Approval.approved_at request) w2)
    as [Hk3 Hk4].
  { intros Hs. apply Hd; [by destruct (Approval.status request)|done|done|].
    destruct Hl2 as (_ & _ & _ & _ & _ & _ & [k ->]). apply elem_of_app. by left. }
  { done. }
  split; [done|]. intros _ _. apply HQ. by etransitivity.
Qed.

Section state.
Variable st : ApiState.

Lemma wpm_issue_from_approved user id override just r request (Q : Uuid → World → Prop) w :
  EvRequest (RqApi st user (ApproveCall id override just)) ∈ wtrace w →
  any_role_has_permission (roles user) ApproveRequest = true →
  r ∈ approvals (wdb w) → user_id user ≠ Approval.rec_requestor_id r →
  approved_issuance request = approved_issuance (from_record r) →
  (∀ c w1, later w w1 → Q c w1) → wpm (issue_from_approved_request st request) Q w.
Proof.
  intros Hev Hp Hr Hne Heq HQ. apply wpm_bind, wpm_lift. intros rq Hrq. rewrite Heq in Hrq.
  apply wpm_bind. eapply wpm_mono; [|apply (wpm_issue (as_issuer st) rq w)].
  - intros ic w1 Hl _. by apply HQ.
  - right; right. by exists st, user, id, override, just, r.
Qed.

Lemma wpm_approve user id override just w :
  EvRequest (RqApi st user (ApproveCall id override just)) ∈ wtrace w →
  wpm (approve_request st user id override just) (λ _ _, True) w.
Proof.
  intros Hev. apply wpm_bind, wpm_lift. intros rid _. apply wpm_bind, wpm_ensure. intros w1 Hl1.
  destruct (override && _); [done|].
  apply wpm_bind, wpm_try_read; [done|]. intros w2 found Hl2 Hi2 [= Hf].
  apply wpm_bind, wpm_lift. intros record ->%ok_or_Ok. apply find_request in Hf as [Hin Hrid].
  apply wp_bind, wp_clock. intros w3 Hl3 _. apply wp_bind, wp_new_uuid. intros w4 did Hl4 _.
  apply wp_bind, wp_clock. intros w5 Hl5 _.
  destruct (Approval.approve_request _ _ _ _ _) as [made request] eqn:Hm.
  apply wpm_bind, wpm_lift. intros d Hd. destruct made as [d'|]; [|done]. injection Hd as ->.
  apply approve_engine in Hm as (Hne & Hp & Hk & Ha & Hrd & Hid & Hiss).
  assert (later w2 w5) as Hl25 by (do 2 (etransitivity; [eassumption|]); done).
  assert (EvRequest (RqApi st user (ApproveCall id override just)) ∈ wtrace w2) as Hev2.
  { eapply trace_kept; [|exact Hev]. by etransitivity. }
  apply wpm_bind, wpm_store_decision.
  { intros _ w6 Hl6 Hi6 Hdin r Hr Hrr.
    assert (later w2 w6) as Hl26 by (by etransitivity).
    eapply (decided_later record r); [reflexivity| |].
    { eapply (row_read_later _ _ w2 w6); [done..|]. by rewrite Hrr, Hid. }
    exists (decision_record override d), st, user, id, override, just.
    split_and!; try done; cbn; [by rewrite Hk|by eapply trace_kept]. }
  intros w6 Hl6. destruct (issues_certificate request); [|done].
  assert (later w2 w6) as Hl26 by (by etransitivity).
  pose proof Hl26 as (_ & _ & _ & _ & _ & Hrows & _). destruct (Hrows record Hin) as (r & Hr & Hs).
  apply wpm_bind. eapply (wpm_issue_from_approved user id override just r).
  - by eapply trace_kept.
  - done.
  - done.
  - destruct Hs as (? & ? & ? & ? & ->). by apply not_eq_sym.
  - by rewrite Hiss, (approved_issuance_same _ _ Hs).
  - intros c w7 _. apply wp_bind, wp_clock. intros w8 _ _. apply wpm_bind, wpm_try_sql.
    intros w9 _ Hi9. split; [by apply kept_mark_completed|done].
Qed.

Lemma wpm_reject user id why just w : wpm (reject_request user id why just) (λ _ _, True) w.
Proof.
  apply wpm_bind, wpm_lift. intros rid _. apply wpm_bind, wpm_ensure. intros w1 _.
  apply wpm_bind, wpm_try_read; [done|]. intros w2 found _ _ _.
  apply wpm_bind, wpm_lift. intros record _.
  apply wp_bind, wp_clock. intros w3 _ _. apply wp_bind, wp_new_uuid. intros w4 did _ _.
  apply wp_bind, wp_clock. intros w5 _ _.
  destruct (Approval.reject_request _ _ _ _ _ _) as [made request] eqn:Hm.
  apply wpm_bind, wpm_lift. intros d Hd. destruct made as [d'|]; [|done].
  apply reject_engine in Hm as Hr. apply wpm_bind, wpm_store_decision; [|done]. by rewrite Hr.
Qed.

Lemma wpm_submit user type details w :
  wpm (submit_approval_request st user type details) (λ _ _, True) w.
Proof.
  apply wpm_bind, wpm_ensure. intros w1 _. apply wp_bind, wp_new_uuid. intros w2 id _ _.
  apply wp_bind, wp_clock. intros w3 _ _. apply wpm_bind, wpm_try_sql. intros w4 _ Hi.
  split; [by apply kept_create_request|done].
Qed.

Lemma wpm_revoke rq w : wpm (revoke rq) (λ _ _, True) w.
Proof. eapply wp_mono; [|apply wp_revoke]. by intros [[]|]. Qed.

Lemma wp_route user c w : EvRequest (RqApi st user c) ∈ wtrace w → wp (route st user c) top w.
Proof.
  intros Hev. unfold route. destruct ((authorize _ _ _ _ _ _).1) as [[]|] eqn:Ha; [|done].
  apply authorize_Ok in Ha. destruct c; apply (wp_respond _ (λ _ _, True)).
  - apply wpm_bind, wpm_lift. intros rq Hrq. eapply wpm_mono; [|apply wpm_issue]; [done|].
    right; left. by exists st, user, req.
  - apply wpm_bind, wpm_lift. intros cert _. apply wpm_bind.
    eapply wpm_mono; [|apply wpm_revoke]. intros [] w1 _ _. by apply wp_bind, wp_clock.
  - eapply wpm_mono; [|apply wpm_generate_crl]. done.
  - eapply wpm_mono; [|apply wpm_generate_delta_crl]. done.
  - apply wpm_submit.
  - by apply wpm_approve.
  - apply wpm_reject.
Qed.
End state.

(** *** The gRPC interface *)

Abbreviation answered p w := (wpm p (λ _ _, True) w).
Lemma wp_call_answered {A Error} (p : Programs.Prog CaE (result A Error)) w : answered p w → wp p top w.
Proof. intros Hp. eapply wp_mono; [|exact Hp]. done. Qed.
Lemma wp_replied {A B} (p : M A) (f : A → B) w : wp p top w →
  answered (let^ r := p in Done (match r with Ok a => Ok (f a) | Err e => Err (grpc_status e) end)) w.
Proof. intros Hp. apply wp_bind. eapply wp_mono; [|exact Hp]. by intros []. Qed.

Lemma wp_grpc_issue svc leaf req peer w0 w : later w0 w →
  EvRequest (RqGrpc svc leaf (GIssue req)) ∈ wtrace w0 →
  (∀ caller, bind_caller svc peer (gi_requestor req) (Some (gi_profile_name req)) = Ok caller →
     may_issue svc leaf req (w_app_now w) caller) →
  answered (grpc_issue svc peer req) w.
Proof.
  intros Hl0 Hev Hmay. apply wpm_bind, wpm_lift. intros caller Hc. apply wp_bind.
  assert (∀ id w1, later w w1 → answered (let# rq := lift (grpc_issuance_request req caller id) in
    let^ issued := issue (gs_issuer svc) rq in
    Done (match issued with Ok ic => Ok (Issued ic) | Err e => Err (grpc_status e) end)) w1) as HH.
  { intros id w1 Hl. apply wpm_bind, wpm_lift. intros rq Hrq. apply wp_replied.
    eapply wp_mono; [|apply wpm_issue]; [done|]. left.
    exists svc, leaf, req, (w_app_now w), caller, id. split_and!; try done; [|by apply Hl|by apply Hmay].
    eapply trace_kept; [|exact Hev]. by etransitivity. }
  destruct (uuid_parse _) as [id|]; [by apply HH|]. apply wp_new_uuid. intros w1 id Hl _. by apply HH.
Qed.

Lemma wp_grpc_revoke svc peer req w : answered (grpc_revoke svc peer req) w.
Proof.
  apply wpm_bind, wpm_lift. intros caller _. destruct (revocation_request req caller) as [rq|failure].
  - apply wp_bind. eapply wp_mono; [|apply wp_revoke]. intros [[]|] w1 _ _; [|done].
    by apply wp_bind, wp_clock.
  - apply wp_bind, wp_bind, wp_audit. done.
Qed.

Lemma wp_grpc_status svc peer id w : answered (grpc_check_status svc peer id) w.
Proof.
  apply wpm_bind, wpm_lift. intros [_|] _; apply wpm_bind, wpm_lift; intros cert _; apply wp_bind;
    apply wp_bind, wp_sql; intros w1 _ Hi; (split; [by apply kept_query|]); (split; [|done]);
    by destruct ((find_by_id _ _ _).1) as [[c|]|].
Qed.

Lemma wp_grpc_handle svc peer c w :
  (∀ req, c = GIssue req → answered (grpc_issue svc peer req) w) → answered (grpc_handle svc peer c) w.
Proof.
  intros Hi. destruct c as [req|req| |id| |]; cbn [grpc_handle].
  - by apply Hi.
  - apply wp_grpc_revoke.
  - apply wpm_bind, wpm_lift. intros p _. apply wp_replied. eapply wp_mono; [|apply wpm_generate_crl]. done.
  - apply wp_grpc_status.
  - by apply wpm_lift.
  - by apply wpm_lift.
Qed.

Lemma wp_grpc_call svc leaf c w : EvRequest (RqGrpc svc leaf c) ∈ wtrace w → answered (grpc_call svc leaf c) w.
Proof.
  intros Hev. unfold grpc_call. destruct (gs_mode svc) as [layer|] eqn:Hm.
  - apply wp_bind, wp_clock. intros w1 Hl1 _.
    destruct (authorize_peer_at _ _ _ _) as [peer|] eqn:Hp; [|done].
    apply wp_grpc_handle. intros req ->. eapply wp_grpc_issue; [exact Hl1|done|].
    intros caller Hc. by eapply bind_mtls.
  - apply wp_grpc_handle. intros req ->. eapply (wp_grpc_issue _ leaf); [reflexivity|done|].
    intros caller Hc. by apply bind_plaintext.
Qed.
End api.

Section safety.
Context {HL : CaLib} {HO : RevokedOrder}.
Abbreviation wp := (Programs.wp (L := logic)).

Lemma wp_request r w : EvRequest r ∈ wtrace w → wp (serve r) top w.
Proof.
  intros Hev. destruct r as [svc leaf c|rq|id|m dn actor|m dn actor|st user c]; apply wp_bind.
  - eapply wp_mono; [|apply wp_call_answered; by apply wp_grpc_call]. by intros; apply I.
  - eapply wp_mono; [|apply wp_revoke]. by intros; apply I.
  - apply wp_bind, wp_sql. intros w1 _ Hi. split; [by apply kept_query|]. split; [|done].
    by destruct ((find_by_id _ _ _).1) as [[c|]|].
  - eapply wp_mono; [|apply wpm_generate_crl]. by intros; apply I.
  - eapply wp_mono; [|apply wpm_generate_delta_crl]. by intros; apply I.
  - eapply wp_mono; [|by apply wp_route]. by intros; apply I.
Qed.

Lemma time_later db app w : w_db_now w ≤ db → w_app_now w ≤ app → later w (at_time db app w).
Proof.
  intros Hd Ha. split_and!; try done; [apply certificates_kept|apply requests_kept].
Qed.
Lemma Inv_at_time db app w : w_db_now w ≤ db → w_app_now w ≤ app → Inv w → Inv (at_time db app w).
Proof.
  intros Hd Ha Hi. split.
  - apply (CrlsOk_later _ (w_app_now w)); [done|apply Hi].
  - by apply (CertificatesOk_later w); [apply time_later| |apply Hi].
  - by apply (ApprovalsOk_later w); [apply time_later| |apply Hi].
Qed.

Lemma ca_env_safe w w' ps : Inv w → env w w' ps →
  Inv w' ∧ later w w' ∧ Forall (λ p, wp p top w') ps.
Proof.
  intros Hi He. revert Hi. destruct He as [w0 r|w0 db app Hd Ha|w0 c id now user details]; intros Hi.
  - split; [by apply Inv_trace|]. split; [apply trace_later|]. constructor; [|constructor].
    apply wp_request. apply elem_of_app. right. by apply list_elem_of_singleton.
  - split; [by apply Inv_at_time|]. split; [by apply time_later|constructor].
  - destruct (kept_create_request (Approval.request_record
      (Approval.create_request c id now Approval.Issuance user details)) w0) as [Hk1 Hk2]; [done..|].
    split; [done|]. by split.
Qed.

Lemma Inv_start db app : Inv (start db app).1.
Proof.
  split; split; cbn; try done; try constructor; by intros ? ?%elem_of_nil.
Qed.

Lemma reachable_Sys s : reachable s → Programs.Sys (L := logic) s.
Proof.
  intros (db & app & Hs). eapply (Programs.Sys_steps (L := logic)) in Hs as [Hs _]; [done|..].
  - intros; constructor.
  - apply ca_env_safe.
  - split; [apply Inv_start|constructor].
Qed.
Lemma reachable_steps s s' : reachable s → rtc step s s' → reachable s'.
Proof. intros (db & app & Hr) Hs. exists db, app. by etransitivity. Qed.
Lemma steps_later s s' : reachable s → rtc step s s' → later s.1 s'.1.
Proof.
  intros Hr Hs. eapply (Programs.Sys_steps (L := logic)) in Hs as [_ Hl]; [done|..].
  - intros; constructor.
  - apply ca_env_safe.
  - by apply reachable_Sys.
Qed.
Lemma runs_wp {A} (p : Prog A) (Q : A → World → Prop) s a s' :
  reachable s → runs p s a s' → wp p Q s.1 → Q a s'.1.
Proof.
  intros Hr Hrun Hp. eapply (Programs.wp_runs (L := logic)); [|exact ca_env_safe|exact Hrun| |exact Hp].
  - intros; constructor.
  - by apply reachable_Sys.
Qed.
End safety.
