(* ===== verification/CrlGuarantees.v ===== *)
(** * What revocation and the CRLs guarantee

    Theorems about every run, and two runs, computed step by step, in which
    the CRLs fall behind the revocations. *)
From stdpp Require Import base strings list gmap sorting relations.
From Stdlib Require Import ZArith Lia.
From S2P Require Import Prelude Programs Pickle Algorithm Signing X509Names CaStore CaCore CrlBuilder Revocation Issuance CaApi CaInv CaSchedule CrlPublished CaSafety.
From S2P Require AuditLog.
#[local] Open Scope Z_scope.

Section guarantees.
Context {HL : CaLib} {HO : RevokedOrder}.
Abbreviation wp := (Programs.wp (L := logic)).
Abbreviation wpm := (Programs.wpm (L := logic)).
Abbreviation safe := (Programs.safe (L := logic)).

(** C28. However many servers generate CRLs at once, a CA's stored CRLs carry the
    numbers 1, 2, 3, ... in the order in which they were stored, with times of
    issue that do not go back; a stored CRL and a revocation stay for good. *)
Theorem crl_history s s' : reachable s → rtc step s s' →
  (∀ ca, l_crl_number <$> crls_of ca (wdb s'.1) = seqZ 1 (Z.of_nat (length (crls_of ca (wdb s'.1))))) ∧
  (∀ ca, StronglySorted not_before (crls_of ca (wdb s'.1))) ∧
  crls (wdb s.1) `prefix_of` crls (wdb s'.1) ∧
  (∀ c, c ∈ certificates (wdb s.1) → c_revoked c = true → c ∈ certificates (wdb s'.1)).
Proof.
  intros Hr Hs. destruct (steps_later s s' Hr Hs) as (Hc & Hl & _).
  assert (reachable s') as [Hi _]%reachable_Sys.
  { destruct Hr as (db & app & Hr). exists db, app. by etransitivity. }
  split_and!; [apply (inv_numbers _ Hi)|apply (inv_order _ Hi)|done|].
  intros c (c' & Hc' & Hsame)%Hc Hrev. by apply same_certificate_revoked in Hsame as ->.
Qed.

(** C29. A full CRL, generated while revocations and other generations run: the
    stored bytes are a CRL signed with the CA's key, of the issuer asked for
    and the number and times that are reported, the time of issue one of the
    generation, with no other extensions than its number and where its deltas
    are found; it lists, with time and reason, every certificate of
    the CA that was revoked when the generation began, and no certificate
    that is not revoked; and it is audited. *)
Theorem full_crl_spec m dn actor s g s' : reachable s →
  runs (generate_crl_by m dn actor) s (Ok g) s' →
  ∃ entries l cl, published m dn entries None g l cl s'.1 ∧
    w_app_now s.1 ≤ g_this_update g ≤ w_app_now s'.1 ∧
    lists (ca_certificate_id m) (λ _, True) entries s.1 s'.1 ∧
    EvAudit (generated_event m actor g) ∈ wtrace s'.1.
Proof.
  intros Hr Hrun. destruct (runs_wp _ _ _ _ _ Hr Hrun (wpm_generate_crl m dn actor s.1))
    as [(entries & l & cl & Hp & Ht & Hls) Ha].
  by exists entries, l, cl.
Qed.

(** C30. A delta CRL is relative to a stored full CRL at least as new as any when
    its generation began, and lists what was revoked after that CRL's time of
    issue. *)
Theorem delta_crl_spec m dn actor s g s' : reachable s →
  runs (generate_delta_crl_by m dn actor) s (Ok g) s' →
  ∃ entries l cl b, published m dn entries (Some (l_crl_number b)) g l cl s'.1 ∧
    b ∈ crls (wdb s'.1) ∧ l_ca_id b = ca_certificate_id m ∧ l_is_delta b = false ∧
    (∀ f, f ∈ crls (wdb s.1) → l_ca_id f = ca_certificate_id m → l_is_delta f = false →
       l_crl_number f ≤ l_crl_number b) ∧
    lists (ca_certificate_id m) (λ t, l_this_update b < t) entries s.1 s'.1 ∧
    EvAudit (generated_delta_event m actor g (l_crl_number b)) ∈ wtrace s'.1.
Proof.
  intros Hr Hrun. destruct (runs_wp _ _ _ _ _ Hr Hrun (wpm_generate_delta_crl m dn actor s.1))
    as (base & (entries & l & cl & b & Hp & Hb & Hca & Hd & <- & Hmax & Hls) & Ha).
  exists entries, l, cl, b. by split_and!.
Qed.

(** C31. What each answer to a revocation request means: success is a revoked row
    and an audit record; a request for a revoked certificate is refused and
    recorded; an unknown certificate was not there when the request began;
    a failure of the audit sink comes after the row is revoked. *)
Theorem revoke_spec rq s r s' : reachable s → runs (revoke rq) s r s' →
  revoke_outcome rq s.1 r s'.1.
Proof. intros Hr Hrun. exact (runs_wp _ _ _ _ _ Hr Hrun (wp_revoke rq s.1)). Qed.
End guarantees.

(** ** Computed runs *)

#[local] Existing Instance toy_ca_lib.
#[local] Existing Instance toy_order.

Lemma toy_state_reachable : reachable toy_state.
Proof. apply play_reachable. Qed.

Lemma crl_history_witness :
  crls_of 1%N (wdb (play [MRequest (RqCrl toy_manager toy_dn System); MStep 2 9] toy_state).1) ≠ [] ∧
  ∀ ca, l_crl_number <$> crls_of ca (wdb (play [MRequest (RqCrl toy_manager toy_dn System); MStep 2 9]
      toy_state).1) =
    seqZ 1 (Z.of_nat (length (crls_of ca (wdb (play [MRequest (RqCrl toy_manager toy_dn System);
      MStep 2 9] toy_state).1)))).
Proof.
  split; [by vm_compute|]. apply (crl_history toy_state _ toy_state_reachable), play_steps.
Defined.

Lemma full_crl_spec_witness : ∃ g s' entries l cl,
  published toy_manager toy_dn entries None g l cl s' ∧ length entries = 1%nat.
Proof.
  destruct (full_crl_spec toy_manager toy_dn System toy_state
    match (exec (generate_crl_by toy_manager toy_dn System) toy_state.1).1 with
    | Ok g => g | Err _ => Build_GeneratedCrl 0 0 0 0 [] "" end
    (exec_to (generate_crl_by toy_manager toy_dn System) toy_state)
    toy_state_reachable ltac:(by apply exec_runs_to; vm_compute))
    as (entries & l & cl & Hp & _).
  match type of Hp with published _ _ _ _ ?g _ _ ?w => exists g, w, entries, l, cl end.
  split; [exact Hp|].
  destruct Hp as [_ _ _ _ _ _ Hc _ _ _ _ _ _ _]. rewrite <- Hc. by vm_compute.
Defined.

Lemma delta_crl_spec_witness :
  let s := play [MRequest (RqCrl toy_manager toy_dn System); MStep 2 9;
                 MServe toy_issue; MTick (seconds 9) (seconds 9);
                 MServe (RqRevoke (toy_revocation 8))] toy_state in
  ∃ g w' entries l cl b, published toy_manager toy_dn entries (Some (l_crl_number b)) g l cl w' ∧
    lists (ca_certificate_id toy_manager) (λ t, l_this_update b < t) entries s.1 w' ∧ length entries = 1%nat.
Proof.
  intros s.
  destruct (delta_crl_spec toy_manager toy_dn System s
    match (exec (generate_delta_crl_by toy_manager toy_dn System) s.1).1 with
    | Ok g => g | Err _ => Build_GeneratedCrl 0 0 0 0 [] "" end
    (exec_to (generate_delta_crl_by toy_manager toy_dn System) s))
    as (entries & l & cl & b & Hp & _ & _ & _ & _ & Hl & _).
  - apply play_further, toy_state_reachable.
  - by apply exec_runs_to; vm_compute.
  - match type of Hp with published _ _ _ _ ?g _ _ ?w => exists g, w, entries, l, cl, b end.
    split; [exact Hp|]. split; [exact Hl|].
    destruct Hp as [_ _ _ _ _ _ Hc _ _ _ _ _ _ _]. rewrite <- Hc. by vm_compute.
Defined.

Lemma revoke_spec_witness :
  let s := play [MServe toy_issue] toy_state in
  revoke_outcome (toy_revocation 8) s.1 (Ok tt) (exec_to (revoke (toy_revocation 8)) s).1 ∧
  revoke_outcome (toy_revocation 7) s.1 (Err (RevocationError "Certificate already revoked"))
    (exec_to (revoke (toy_revocation 7)) s).1.
Proof.
  intros s. assert (reachable s) as Hs by apply play_further, toy_state_reachable.
  split; apply (revoke_spec _ s _ _ Hs); by apply exec_runs_to; vm_compute.
Defined.

(** A full CRL whose generation read the revoked certificates before a
    revocation, and its number after another generation had stored a CRL, is
    newer than that CRL and lacks the revocation that it lists. *)
Theorem newer_crl_forgets_revocation : ∃ s old new c,
  reachable s ∧ crls (wdb s.1) !! 0%nat = Some old ∧ crls (wdb s.1) !! 1%nat = Some new ∧
  certificates (wdb s.1) !! 0%nat = Some c ∧ c_revoked c = true ∧
  l_ca_id old = c_ca_id c ∧ l_ca_id new = c_ca_id c ∧
  l_is_delta old = false ∧ l_is_delta new = false ∧ l_crl_number old < l_crl_number new ∧
  l_this_update old < l_this_update new ∧
  c_serial_number c ∈ listed_serials old ∧ c_serial_number c ∉ listed_serials new.
Proof.
  exists (play [MServe toy_issue; MRequest (RqCrl toy_manager toy_dn System); MStep 1 1;
    MServe (RqRevoke (toy_revocation 7)); MServe (RqCrl toy_manager toy_dn System);
    MTick 10 10; MStep 1 9] (start 5 5)).
  eexists _, _, _. split; [apply play_reachable|].
  do 3 (split; [vm_compute; reflexivity|]).
  split_and!; try by vm_compute.
  - rewrite <- (bool_decide_spec (_ ∈ _)). by vm_compute.
  - rewrite <- (bool_decide_spec (_ ∉ _)). by vm_compute.
Qed.

(** A certificate revoked after a full CRL's generation read the revoked
    certificates and before it read the clock is on neither that CRL nor the
    delta CRL relative to it, though it was revoked before the delta was
    begun. *)
Theorem delta_crl_misses_revocation : ∃ s full delta c,
  reachable s ∧ crls (wdb s.1) !! 0%nat = Some full ∧ crls (wdb s.1) !! 1%nat = Some delta ∧
  certificates (wdb s.1) !! 0%nat = Some c ∧ c_revoked c = true ∧
  l_ca_id full = c_ca_id c ∧ l_ca_id delta = c_ca_id c ∧ l_is_delta full = false ∧
  l_base_crl_number delta = Some (l_crl_number full) ∧
  (∃ t, c_revocation_time c = Some t ∧ t < l_this_update full ∧ t < l_this_update delta) ∧
  c_serial_number c ∉ listed_serials full ∧ c_serial_number c ∉ listed_serials delta.
Proof.
  exists (play [MServe toy_issue; MRequest (RqCrl toy_manager toy_dn System); MStep 1 1;
    MServe (RqRevoke (toy_revocation 7)); MTick 10 10; MStep 1 9;
    MServe (RqDelta toy_manager toy_dn System)] (start 5 5)).
  eexists _, _, _. split; [apply play_reachable|].
  do 3 (split; [vm_compute; reflexivity|]).
  split_and!; try by vm_compute.
  - eexists. split; [vm_compute; reflexivity|]. by vm_compute.
  - rewrite <- (bool_decide_spec (_ ∉ _)). by vm_compute.
  - rewrite <- (bool_decide_spec (_ ∉ _)). by vm_compute.
Qed.
