(* ===== verification/IssuanceGuarantees.v ===== *)
(** * What issuance and the approval workflow guarantee

    Theorems about every run, and runs, computed step by step, in which one
    approval serves two certificates, a rejected request is issued and an
    error answer leaves a certificate. *)
From stdpp Require Import base strings list gmap sorting relations.
From Stdlib Require Import ZArith Lia.
From S2P Require Import Prelude Programs Roles X509Names Csr CertBuilder CaStore CaCore CrlBuilder Revocation Issuance CaGrpc CaApi CaInv CaSchedule IssuanceRuns CaSafety.
From S2P Require Approval.
#[local] Open Scope Z_scope.

Section guarantees.
Context {HL : CaLib} {HO : RevokedOrder}.
Abbreviation wpm := (Programs.wpm (L := logic)).

(** Every issuer that was called requires approval. *)
Definition approval_required (w : World) : bool :=
  forallb (λ ev, match ev with
    | EvRequest (RqGrpc svc _ _) => Approval.require_approval (ci_approval_config (gs_issuer svc))
    | EvRequest (RqApi st _ _) => Approval.require_approval (ci_approval_config (as_issuer st))
    | _ => true
    end) (wtrace w).
Lemma approval_required_requested i rq w : approval_required w = true → requested i rq w →
  Approval.require_approval (ci_approval_config i) = true.
Proof.
  unfold approval_required. rewrite forallb_forall. intros HH Hr.
  destruct Hr as [(svc & l & q & t & c & id & He & _ & _ & -> & _)|[(st & u & q & He & _ & -> & _)|(st & u & id & o & j & r & He & _ & -> & _)]];
    apply list_elem_of_In, HH in He; exact He.
Qed.


(** C2. Every certificate of the table was asked for by someone who may: a client
    of the gRPC listener whose certificate is an issuer's, for a requestor and
    a profile of its namespace (on the plaintext listener of a debug build
    anyone, for a listed profile), a user with the permission to issue, or one
    who may approve and did not submit the request.  It passed every check
    and was signed; no two share an id, or the serial number under one CA. *)
Theorem certificates_accounted s : reachable s →
  (∀ c, c ∈ certificates (wdb s.1) → accounted c s.1) ∧
  NoDup (c_id <$> certificates (wdb s.1)) ∧
  NoDup ((λ c, (c_ca_id c, c_serial_number c)) <$> certificates (wdb s.1)).
Proof. by intros [[_ [? ? _ ?] _] _]%reachable_Sys. Qed.

(** C3. When every issuer that was called requires approval, a certificate was
    issued for a request that names an approval request: it is of the table,
    for issuance, and someone with the permission, and not its requestor,
    approved it in a call of their own. *)
Theorem issued_after_approval s c : reachable s →
  approval_required s.1 = true →
  c ∈ certificates (wdb s.1) →
  ∃ i rq c0 r, same_certificate c0 c ∧ issued i rq c0 s.1 ∧
    ir_approval_request_id rq = Some (Approval.rec_id r) ∧ r ∈ approvals (wdb s.1) ∧
    Approval.request_type (from_record r) = Approval.Issuance ∧ decided r s.1.
Proof.
  intros [Hi _]%reachable_Sys Hall Hc.
  destruct (ok_issued s.1 (inv_certificates _ Hi) c Hc) as (i & rq & c0 & Hs & Hiss).
  pose proof Hiss as (Hreq & Happ & _).
  destruct (Happ (approval_required_requested i rq _ Hall Hreq)) as (r & Hr & Hid & Ht & Hd).
  by exists i, rq, c0, r.
Qed.

(** The issuance step of an approved renewal never succeeds where approval is
    required: the issuer takes requests of type issuance only. *)
Theorem renewal_never_issued st request row s r s' : reachable s →
  row ∈ approvals (wdb s.1) → Approval.rec_id row = Approval.id request →
  Approval.request_type (from_record row) = Approval.Renewal →
  Approval.require_approval (ci_approval_config (as_issuer st)) = true →
  runs (issue_from_approved_request st request) s r s' → ∀ c, r ≠ Ok c.
Proof.
  intros Hr Hin Hid Ht Hreq Hrun c ->.
  refine (runs_wp _ (λ r _, match r with Ok _ => False | Err _ => True end) _ _ _ Hr Hrun _).
  apply wpm_bind, wpm_lift. intros rq Hrq. apply wpm_bind, wpm_issue_refused.
  intros ev w1 Hl. pose proof Hl as (_ & _ & _ & _ & _ & Hrows & _). destruct (Hrows row Hin) as (row' & Hin' & Hs).
  eapply wpm_check_approval_type; [done|exact Hin'| |]; destruct Hs as (? & ? & ? & ? & ->).
  - rewrite (approved_issuance_Ok _ _ Hrq). cbn. by rewrite Hid.
  - unfold from_record, Approval.from_record in *. cbn in *. by rewrite Ht.
Qed.
End guarantees.

(** ** Computed runs *)

#[local] Existing Instance toy_ca_lib.
#[local] Existing Instance toy_order.


(** A request that is submitted and approved; the officer's call issues. *)
#[local] Definition approved_state :=
  play [MServe (toy_submit Approval.Issuance); MServe (toy_approve 7)] (start 5 5).
Lemma certificates_accounted_witness : ∃ c, certificates (wdb approved_state.1) = [c] ∧
  accounted c approved_state.1.
Proof.
  eexists. split; [vm_compute; reflexivity|].
  apply (certificates_accounted approved_state); [apply play_reachable|].
  vm_compute. apply list_elem_of_here.
Defined.

Lemma issued_after_approval_witness : ∃ c rq r, certificates (wdb approved_state.1) = [c] ∧
  ir_approval_request_id rq = Some (Approval.rec_id r) ∧
  r ∈ approvals (wdb approved_state.1) ∧ decided r approved_state.1.
Proof.
  eexists.
  destruct (issued_after_approval approved_state (default toy_ca_certificate
    (certificates (wdb approved_state.1) !! 0%nat))) as (i & rq & c0 & r & _ & _ & Hid & Hr & _ & Hd).
  - apply play_reachable.
  - by vm_compute.
  - vm_compute. apply list_elem_of_here.
  - exists rq, r. split; [vm_compute; reflexivity|done].
Defined.

(** A renewal is approved, and its issuance is refused. *)
#[local] Definition renewal_state :=
  play [MServe (toy_submit Approval.Renewal); MServe (toy_approve 7)] (start 5 5).
#[local] Definition renewal_row : ApprovalRequestRecord :=
  match approvals (wdb renewal_state.1) with r :: _ => r
  | [] => Approval.request_record (Approval.create_request Approval.default_config 0 0 Approval.Renewal
                            toy_sponsor JNull) end.
Lemma renewal_never_issued_witness : Approval.rec_status renewal_row = "approved" ∧
  ∀ c, (exec (issue_from_approved_request toy_api (from_record renewal_row)) renewal_state.1).1 ≠ Ok c.
Proof.
  split; [reflexivity|].
  apply (renewal_never_issued toy_api (from_record renewal_row) renewal_row renewal_state _
    (exec_to (issue_from_approved_request toy_api (from_record renewal_row)) renewal_state)).
  - apply play_reachable.
  - vm_compute. apply list_elem_of_here.
  - by vm_compute.
  - by vm_compute.
  - by vm_compute.
  - by apply exec_runs_to.
Defined.

(** An approval is used by two issuances that both read it before either
    marks it completed; and the subject of the first, which a caller with the
    permission to issue names, is not the one that was approved. *)
Theorem approval_reused : ∃ s r rq c1 c2,
  reachable s ∧ approval_required s.1 = true ∧ approvals (wdb s.1) = [r] ∧
  approved_issuance (from_record r) = Ok rq ∧ certificates (wdb s.1) = [c1; c2] ∧
  c_serial_number c1 ≠ c_serial_number c2 ∧
  c_subject_dn c1 ≠ to_string_rfc4514 (ir_subject rq) ∧
  c_subject_dn c2 = to_string_rfc4514 (ir_subject rq).
Proof.
  exists (play [MServe (toy_submit Approval.Issuance); MRequest (toy_approve 7); MStep 1 8;
    MServe (toy_issue_call 7 "other.test"); MStep 1 30] (start 5 5)).
  eexists _, _, _, _. split; [apply play_reachable|].
  split; [by vm_compute|]. do 3 (split; [vm_compute; reflexivity|]).
  split_and!; by vm_compute.
Qed.

(** A request that one officer rejected is issued: another's approval had read
    it while it was pending, and its status overwrites the rejection. *)
Theorem rejected_request_issued : ∃ s r c d,
  reachable s ∧ approvals (wdb s.1) = [r] ∧ decisions (wdb s.1) !! 0%nat = Some d ∧
  dr_request_id d = Approval.rec_id r ∧ dr_decision d = "rejected" ∧
  certificates (wdb s.1) = [c] ∧ Approval.rec_status r = "completed" ∧
  Approval.rec_certificate_id r = Some (c_id c).
Proof.
  exists (play [MServe (toy_submit Approval.Issuance); MRequest (toy_approve 7); MStep 1 2;
    MServe (toy_reject 7); MStep 1 40] (start 5 5)).
  eexists _, _, _. split; [apply play_reachable|].
  do 2 (split; [vm_compute; reflexivity|]). do 2 (split; [by vm_compute|]).
  split; [vm_compute; reflexivity|]. split; by vm_compute.
Qed.

(** An issuance that answers an error has stored its certificate: the request
    it names is marked after the row is written, and there is none. *)
Theorem error_leaves_certificate : ∃ s rq e s',
  reachable s ∧ certificates (wdb s.1) = [] ∧ runs (issue toy_open_issuer rq) s (Err e) s' ∧
  c_subject_dn <$> certificates (wdb s'.1) = [to_string_rfc4514 (ir_subject rq)].
Proof.
  exists (start 5 5), (toy_issuance (Some 99%N) "host.test").
  eexists _, (exec_to (issue toy_open_issuer (toy_issuance (Some 99%N) "host.test")) (start 5 5)).
  split; [by exists 5, 5|]. split; [done|].
  split; [|by vm_compute]. apply exec_runs_to. vm_compute. reflexivity.
Qed.
