(* ===== verification/EstLabel.v ===== *)
(** * EST profile labels

    [crates/ostrich-est/src/label.rs]: the path segment that selects the
    certificate profile and the CA of an enrollment, and the catalog that
    advertises what it accepts. *)
From stdpp Require Import base strings list pretty.
From Stdlib Require Import Ascii ZArith Lia.
From S2P Require Import Prelude Text.
From S2P Require CertProfile.
#[local] Open Scope Z_scope.

Definition MAX_VALIDITY_DAYS : Z := 1185.
Definition MAX_CCSA_LEN : nat := 16.

Inductive LabelError :=
| Empty | MissingProfileType | UnknownProfileType (s : string) | UnsupportedProfileType (s : string)
| UnknownKeyAlgorithm (s : string) | InvalidValidity (s : string) (max : Z)
| InvalidCcsa (s : string) | BadSegment (s : string).
Definition label_error_to_string (e : LabelError) : string :=
  match e with
  | Empty => "empty label"
  | MissingProfileType => "label must begin with a PT<profile-type> segment"
  | UnknownProfileType s => "unknown profile type '" +:+ s +:+ "'"
  | UnsupportedProfileType s =>
      "profile type '" +:+ s +:+ "' is recognized but not yet supported for issuance"
  | UnknownKeyAlgorithm s => "unknown key algorithm '" +:+ s +:+ "' (expected 2048 or P384)"
  | InvalidValidity s max => "invalid validity '" +:+ s +:+ "' (expected 1..=" +:+ pretty max +:+ " days)"
  | InvalidCcsa s => "invalid CC/S/A code '" +:+ s +:+ "'"
  | BadSegment s => "unknown or duplicate label segment '" +:+ s +:+ "'"
  end.

Inductive KeyAlgo := Rsa2048 | EcP384.
#[export] Instance KeyAlgo_eq_dec : EqDecision KeyAlgo.
Proof. solve_decision. Defined.
Definition token (a : KeyAlgo) : string := match a with Rsa2048 => "2048" | EcP384 => "P384" end.
Definition from_token (t : string) : option KeyAlgo :=
  table_lookup t [("2048", Rsa2048); ("P384", EcP384)].

Record ParsedLabel := {
  profile_type : string; key_algo : option KeyAlgo; validity_days : option Z; ccsa : option string
}.

Definition KNOWN_PROFILE_TYPES : list string :=
  ["DEV"; "TLS"; "DC"; "EMAIL"; "IPSEC"; "MCAUTH"; "MCKEY"; "KERB"; "EFS"].

Definition profile_name (l : ParsedLabel) : result string LabelError :=
  ok_or (table_lookup (profile_type l)
      [("DEV", "tls_client"); ("TLS", "tls_server"); ("DC", "tls_server_client"); ("EFS", "efs")])
    (UnsupportedProfileType (profile_type l)).

(** ** Parsing *)

Definition set_key_algo (a : KeyAlgo) (l : ParsedLabel) : ParsedLabel :=
  {| profile_type := profile_type l; key_algo := Some a; validity_days := validity_days l; ccsa := ccsa l |}.
Definition set_validity (d : Z) (l : ParsedLabel) : ParsedLabel :=
  {| profile_type := profile_type l; key_algo := key_algo l; validity_days := Some d; ccsa := ccsa l |}.
Definition set_ccsa (c : string) (l : ParsedLabel) : ParsedLabel :=
  {| profile_type := profile_type l; key_algo := key_algo l; validity_days := validity_days l; ccsa := Some c |}.

Definition is_some {A} (o : option A) : bool := match o with Some _ => true | None => false end.

(** The segments after the profile type. *)
Definition segment (l : ParsedLabel) (seg : string) : result ParsedLabel LabelError :=
  match strip_prefix "AK" seg with
  | Some v =>
      if is_some (key_algo l) then Err (BadSegment seg)
      else let? a := ok_or (from_token v) (UnknownKeyAlgorithm v) in Ok (set_key_algo a l)
  | None =>
  match strip_prefix "VP" seg with
  | Some v =>
      if is_some (validity_days l) then Err (BadSegment seg)
      else
        let? days := ok_or (CertProfile.parse_u32 (String.list_ascii_of_string v))
          (InvalidValidity v MAX_VALIDITY_DAYS) in
        if (days =? 0) || (MAX_VALIDITY_DAYS <? days) then Err (InvalidValidity v MAX_VALIDITY_DAYS)
        else Ok (set_validity days l)
  | None =>
  match strip_prefix "CC" seg with
  | Some v =>
      if is_some (ccsa l) then Err (BadSegment seg)
      else if bool_decide (v = "") || (MAX_CCSA_LEN <? String.length v)%nat ||
              negb (forallb is_alnum (String.list_ascii_of_string v)) then Err (InvalidCcsa v)
      else Ok (set_ccsa v l)
  | None => Err (BadSegment seg)
  end end end.
Fixpoint segments (l : ParsedLabel) (segs : list string) : result ParsedLabel LabelError :=
  match segs with
  | [] => Ok l
  | seg :: segs => let? l := segment l seg in segments l segs
  end.

Definition parse_label (raw : string) : result ParsedLabel LabelError :=
  let raw := trim raw in
  if bool_decide (raw = "") then Err Empty
  else match split_on "-" raw with
  | [] => Err MissingProfileType
  | first :: rest =>
      let? ptval := ok_or (strip_prefix "PT" first) MissingProfileType in
      if contains ptval KNOWN_PROFILE_TYPES then
        segments {| profile_type := ptval; key_algo := None; validity_days := None; ccsa := None |} rest
      else Err (UnknownProfileType ptval)
  end.

(** ** The catalog *)

Record CatalogProfile := {
  cp_token : string; cp_profile_name : option string; cp_display : string; cp_description : string;
  cp_issuable : bool; cp_server_keygen : bool
}.
Record CatalogKeyAlgo := { ck_token : string; ck_display : string; ck_description : string }.
Record EstCatalog := {
  ec_label_format : string; ec_labeled_enrollment : bool; ec_default_profile : string;
  ec_profiles : list CatalogProfile; ec_key_algorithms : list CatalogKeyAlgo;
  ec_max_validity_days : Z; ec_max_ccsa_len : nat; ec_examples : list string
}.

Definition PROFILE_META : list (string * string * string * bool) :=
  [("DEV", "Device (TLS client)",
    "Client-authentication TLS certificate for a device or non-person entity.", false);
   ("TLS", "TLS server",
    "Server-authentication TLS certificate (id-kp-serverAuth; capped at 397 days).", false);
   ("DC", "Domain controller (mutual TLS)", "Both client and server authentication.", false);
   ("EFS", "EFS file encryption",
    "Microsoft Encrypting File System: server-side RSA-2048 key generation delivered as an encrypted PKCS#12. Use serverkeygen (no CSR).",
    true);
   ("EMAIL", "S/MIME email", "Email protection (S/MIME). Recognized but not yet issuable.", false);
   ("IPSEC", "IPsec", "IPsec endpoint. Recognized but not yet issuable.", false);
   ("MCAUTH", "Mobile-code authentication", "Recognized but not yet issuable.", false);
   ("MCKEY", "Mobile-code key management", "Recognized but not yet issuable.", false);
   ("KERB", "Kerberos / smartcard logon", "Recognized but not yet issuable.", false)].

Definition catalog_profile (meta : string * string * string * bool) : CatalogProfile :=
  let '(token, display, description, server_keygen) := meta in
  let name := match profile_name {| profile_type := token; key_algo := None; validity_days := None;
                                    ccsa := None |} with Ok n => Some n | Err _ => None end in
  {| cp_token := token; cp_profile_name := name; cp_display := display;
     cp_description := description; cp_issuable := is_some name; cp_server_keygen := server_keygen |}.

Definition catalog (configured_algo_tokens : list string) (labeled_enrollment : bool)
    (default_profile : string) : EstCatalog :=
  let key_algorithms :=
    omap (λ '(algo, display, description),
      if contains (token algo) configured_algo_tokens then
        Some {| ck_token := token algo; ck_display := display; ck_description := description |}
      else None)
    [(Rsa2048, "RSA 2048", "RSA-2048 issuing CA backend.");
     (EcP384, "EC P-384", "Elliptic-curve P-384 issuing CA backend.")] in
  {| ec_label_format := "PT<profile>[-AK<key-algo>][-VP<validity-days>][-CC<cc/s/a>]";
     ec_labeled_enrollment := labeled_enrollment; ec_default_profile := default_profile;
     ec_profiles := catalog_profile <$> PROFILE_META; ec_key_algorithms := key_algorithms;
     ec_max_validity_days := MAX_VALIDITY_DAYS; ec_max_ccsa_len := MAX_CCSA_LEN;
     ec_examples := ["PTDEV"; "PTTLS"; "PTEFS"] ++
       (if labeled_enrollment then
          match key_algorithms with
          | k :: _ => ["PTTLS-AK" +:+ ck_token k +:+ "-VP397"; "PTDC-AK" +:+ ck_token k +:+ "-CCUSAF"]
          | [] => ["PTDC-CCUSAF"]
          end
        else []) |}.

(** ** What labels mean *)

(** The label that is written for a choice of each part. *)
Definition render_label (l : ParsedLabel) : string :=
  "PT" +:+ profile_type l +:+
  match key_algo l with Some a => "-AK" +:+ token a | None => "" end +:+
  match validity_days l with Some d => "-VP" +:+ pretty d | None => "" end +:+
  match ccsa l with Some c => "-CC" +:+ c | None => "" end.
(** The limits of the parts. *)
Record label_ok (l : ParsedLabel) : Prop := {
  lo_type : profile_type l ∈ KNOWN_PROFILE_TYPES;
  lo_days d : validity_days l = Some d → 1 ≤ d ≤ MAX_VALIDITY_DAYS;
  lo_ccsa c : ccsa l = Some c → c ≠ "" ∧ (String.length c ≤ MAX_CCSA_LEN)%nat ∧
    Forall (λ x, is_alnum x = true) (String.list_ascii_of_string c)
}.

Lemma days_text d : 1 ≤ d ≤ MAX_VALIDITY_DAYS →
  CertProfile.parse_u32 (String.list_ascii_of_string (pretty d)) = Some d ∧
  forallb is_alnum (String.list_ascii_of_string (pretty d)) = true.
Proof.
  intros Hd.
  assert (forallb (λ d, bool_decide (CertProfile.parse_u32 (String.list_ascii_of_string (pretty d)) = Some d) &&
    forallb is_alnum (String.list_ascii_of_string (pretty d))) (seqZ 1 MAX_VALIDITY_DAYS) = true) as HH
    by (by vm_compute).
  rewrite forallb_forall in HH. specialize (HH d). rewrite <- list_elem_of_In, elem_of_seqZ in HH.
  apply andb_true_iff in HH as [H1 H2]; [by apply bool_decide_eq_true in H1|].
  unfold MAX_VALIDITY_DAYS in *. lia.
Qed.

Lemma alnum_no_dash s : forallb is_alnum (String.list_ascii_of_string s) = true → has_char "-" s = false.
Proof.
  unfold has_char. induction s as [|c s IH]; [done|].
  cbn [String.list_ascii_of_string forallb existsb]. intros [Hc Hs]%andb_true_iff.
  rewrite (IH Hs), orb_false_r. by destruct (Ascii.eqb_spec "-" c) as [<-|].
Qed.

Lemma alnum_Forall s : Forall (λ x, is_alnum x = true) (String.list_ascii_of_string s) →
  forallb is_alnum (String.list_ascii_of_string s) = true.
Proof. intros HH. apply forallb_forall. intros x Hx%list_elem_of_In. by rewrite Forall_forall in HH; apply HH. Qed.

(** The text of a part has letters and digits. *)
Definition plain (s : string) : Prop := has_char "-" s = false.
Lemma plain_app a b : plain a → plain b → plain (a +:+ b).
Proof. unfold plain. intros Ha Hb. by rewrite has_char_app, Ha, Hb. Qed.

Fixpoint dashed (segs : list string) : string :=
  match segs with [] => "" | s :: segs => String "-" s +:+ dashed segs end.
Definition options (l : ParsedLabel) : list string :=
  match key_algo l with Some a => ["AK" +:+ token a] | None => [] end ++
  match validity_days l with Some d => ["VP" +:+ pretty d] | None => [] end ++
  match ccsa l with Some c => ["CC" +:+ c] | None => [] end.
Lemma render_options l : render_label l = ("PT" +:+ profile_type l) +:+ dashed (options l).
Proof.
  unfold render_label, options. rewrite string_app_assoc.
  destruct (key_algo l), (validity_days l), (ccsa l); cbn [app dashed]; by rewrite ?string_app_nil.
Qed.
Lemma split_dashed s segs : plain s → Forall plain segs → split_on "-" (s +:+ dashed segs) = s :: segs.
Proof.
  intros Hs Hsegs. revert s Hs. induction Hsegs as [|x segs Hx Hsegs IH]; intros s Hs; cbn [dashed].
  - rewrite string_app_nil. by apply split_on_plain.
  - rewrite string_app_cons, split_on_app by done. by rewrite IH.
Qed.

Lemma options_plain l : label_ok l → Forall plain (options l).
Proof.
  intros [_ Hd Hc]. unfold options. rewrite !Forall_app. split_and!.
  - destruct (key_algo l) as [[]|]; repeat constructor.
  - destruct (validity_days l) as [d|]; [|constructor]. constructor; [|constructor].
    apply plain_app; [done|]. by apply alnum_no_dash, days_text, Hd.
  - destruct (ccsa l) as [c|]; [|constructor]. constructor; [|constructor].
    apply plain_app; [done|]. by apply alnum_no_dash, alnum_Forall, (Hc c).
Qed.

Lemma segments_app l a b : segments l (a ++ b) = (let? l := segments l a in segments l b).
Proof.
  revert l. induction a as [|s a IH]; intros l; [done|]. cbn [segments app].
  destruct (segment l s); cbn [res_bind]; [apply IH|done].
Qed.

Lemma segments_options l : label_ok l →
  segments {| profile_type := profile_type l; key_algo := None; validity_days := None; ccsa := None |}
    (options l) = Ok l.
Proof.
  intros [_ Hd Hc]. destruct l as [t ka vd cc]. cbn [key_algo validity_days ccsa profile_type] in *.
  unfold options; cbn [key_algo validity_days ccsa profile_type]. rewrite segments_app.
  set (s0 := Build_ParsedLabel t ka None None).
  assert (segments {| profile_type := t; key_algo := None; validity_days := None; ccsa := None |}
    match ka with Some a => ["AK" +:+ token a] | None => [] end = Ok s0) as ->
    by (destruct ka as [[]|]; reflexivity).
  cbn [res_bind]. rewrite segments_app. set (s1 := Build_ParsedLabel t ka vd None).
  assert (segments s0 match vd with Some d => ["VP" +:+ pretty d] | None => [] end = Ok s1) as ->.
  { destruct vd as [d|]; [|done]. specialize (Hd d eq_refl). destruct (days_text d Hd) as [Hp _].
    cbn [segments]. unfold segment. rewrite !string_app_cons. cbn [strip_prefix Ascii.eqb Bool.eqb].
    change ("" +:+ pretty d) with (pretty d). rewrite Hp. cbn [ok_or res_bind is_some validity_days s0].
    rewrite (proj2 (Z.eqb_neq d 0)), (proj2 (Z.ltb_ge _ d)) by lia. done. }
  cbn [res_bind]. destruct cc as [c|]; [|done]. destruct (Hc c eq_refl) as (Hne & Hlen & Hall%alnum_Forall).
  cbn [segments]. unfold segment. rewrite !string_app_cons. cbn [strip_prefix Ascii.eqb Bool.eqb].
  change ("" +:+ c) with c. cbn [is_some ccsa s1].
  rewrite bool_decide_eq_false_2, Hall, (proj2 (Nat.ltb_ge _ _)) by done. done.
Qed.

(** *** The ends of a label *)

Definition ends_alnum (s : string) : Prop := ∃ x c, is_alnum c = true ∧ s = x +:+ String c "".
Lemma ends_alnum_app a b : ends_alnum b → ends_alnum (a +:+ b).
Proof. intros (x & c & Hc & ->). exists (a +:+ x), c. by rewrite string_app_assoc. Qed.
Lemma ends_alnum_text s : forallb is_alnum (String.list_ascii_of_string s) = true → s ≠ "" → ends_alnum s.
Proof.
  induction s as [|c s IH]; [done|]. cbn [String.list_ascii_of_string forallb].
  intros [Hc Hs]%andb_true_iff _. destruct s as [|d s]; [by exists "", c|].
  change (String c (String d s)) with (String c "" +:+ String d s). by apply ends_alnum_app, IH.
Qed.
Lemma ends_alnum_dashed s segs : ends_alnum s → Forall ends_alnum segs → ends_alnum (s +:+ dashed segs).
Proof.
  intros Hs Hsegs. revert s Hs. induction Hsegs as [|x segs Hx Hsegs IH]; intros s Hs; cbn [dashed].
  - by rewrite string_app_nil.
  - rewrite string_app_cons. apply ends_alnum_app. change (String "-" (x +:+ dashed segs)) with
      (String "-" "" +:+ (x +:+ dashed segs)). by apply ends_alnum_app, IH.
Qed.

Lemma type_ok l : label_ok l → plain ("PT" +:+ profile_type l) ∧ ends_alnum ("PT" +:+ profile_type l).
Proof.
  intros [Ht _ _]. unfold plain.
  assert (forallb is_alnum (String.list_ascii_of_string (profile_type l)) = true ∧ profile_type l ≠ "")
    as [Ha Hne].
  { revert Ht. repeat (intros [->|Ht]%elem_of_cons; [done|revert Ht]). by intros ?%elem_of_nil. }
  split; [by rewrite has_char_app, (alnum_no_dash _ Ha)|by apply ends_alnum_app, ends_alnum_text].
Qed.
Lemma options_ends l : label_ok l → Forall ends_alnum (options l).
Proof.
  intros [_ Hd Hc]. unfold options. rewrite !Forall_app. split_and!.
  - destruct (key_algo l) as [[]|]; constructor; try constructor; by apply ends_alnum_app, ends_alnum_text.
  - destruct (validity_days l) as [d|]; [|constructor]. constructor; [|constructor].
    destruct (days_text d (Hd d eq_refl)) as [Hp Ha]. apply ends_alnum_app, ends_alnum_text; [done|].
    intros He. by rewrite He in Hp.
  - destruct (ccsa l) as [c|]; [|constructor]. constructor; [|constructor].
    destruct (Hc c eq_refl) as (Hne & _ & Ha%alnum_Forall). by apply ends_alnum_app, ends_alnum_text.
Qed.
Lemma trim_label l : label_ok l → trim (render_label l) = render_label l.
Proof.
  intros Hl. rewrite render_options. destruct (type_ok l Hl) as [_ He].
  destruct (ends_alnum_dashed _ _ He (options_ends l Hl)) as (x & c & Hc & Hx).
  apply trim_same; [reflexivity|]. rewrite Hx, reverse_app. cbn [reverse]. rewrite string_app_cons.
  by apply alnum_not_white.
Qed.

Lemma render_label_parses l : label_ok l → parse_label (render_label l) = Ok l.
Proof.
  intros Hl. unfold parse_label. rewrite (trim_label l Hl), bool_decide_eq_false_2 by done.
  destruct (type_ok l Hl) as [Hp _]. rewrite render_options, split_dashed; [|done|by apply options_plain].
  cbn [res_bind]. replace (strip_prefix "PT" ("PT" +:+ profile_type l)) with (Some (profile_type l))
    by (symmetry; by apply strip_prefix_Some).
  cbn [ok_or res_bind]. rewrite (proj2 (contains_true _ _)) by apply Hl. by apply segments_options.
Qed.

(** *** What is accepted *)

Lemma parse_digits_nonneg acc l d : 0 ≤ acc → CertProfile.parse_digits acc l = Some d → 0 ≤ d.
Proof.
  revert acc. induction l as [|c l IH]; intros acc Ha; cbn [CertProfile.parse_digits]; [by intros [= <-]|].
  destruct (_ && _) eqn:Hc; [|done]. destruct (_ * 10 + _ <=? _); [|done].
  apply andb_true_iff in Hc as [H0 _]. apply IH. lia.
Qed.
Lemma parse_u32_nonneg l d : CertProfile.parse_u32 l = Some d → 0 ≤ d.
Proof.
  unfold CertProfile.parse_u32. destruct l as [|c [|c' l]]; [done| |].
  - by apply parse_digits_nonneg.
  - destruct (Ascii.eqb c "+"); by apply parse_digits_nonneg.
Qed.

Lemma segment_ok l seg l' : label_ok l → segment l seg = Ok l' → label_ok l'.
Proof.
  intros [Ht Hd Hc]. unfold segment. destruct (strip_prefix "AK" seg) as [v|].
  { destruct (is_some _); [done|]. intros (a & _ & [= <-])%res_bind_Ok. by split. }
  destruct (strip_prefix "VP" seg) as [v|].
  { destruct (is_some _); [done|]. intros (d & Hp%ok_or_Ok & Hr)%res_bind_Ok.
    apply parse_u32_nonneg in Hp. destruct (_ || _) eqn:Hb; [done|]. injection Hr as <-.
    apply orb_false_iff in Hb as [H0 H1].
    split; cbn; [done| |done]. intros ? [= <-]. unfold MAX_VALIDITY_DAYS in *. lia. }
  destruct (strip_prefix "CC" seg) as [v|]; [|done]. destruct (is_some _); [done|].
  destruct (_ || _) eqn:Hb; [done|]. intros [= <-].
  apply orb_false_iff in Hb as [[H0 H1]%orb_false_iff H2]. apply negb_false_iff in H2.
  split; cbn; [done..|]. intros ? [= <-]. apply bool_decide_eq_false in H0.
  split; [done|]. split; [by apply Nat.ltb_ge in H1|]. apply Forall_forall. intros x Hx%list_elem_of_In.
  by rewrite forallb_forall in H2; apply H2.
Qed.
Lemma segments_ok l segs l' : label_ok l → segments l segs = Ok l' → label_ok l'.
Proof.
  revert l. induction segs as [|s segs IH]; intros l Hl; cbn [segments]; [by intros [= <-]|].
  intros (l1 & H1 & H2)%res_bind_Ok. by eapply IH, H2; eapply segment_ok.
Qed.
Lemma parse_label_ok raw l : parse_label raw = Ok l → label_ok l.
Proof.
  unfold parse_label. destruct (bool_decide _); [done|]. destruct (split_on "-" _) as [|s segs]; [done|].
  intros (t & _ & Hr)%res_bind_Ok. destruct (contains t _) eqn:Ht; [|done].
  apply contains_true in Ht. eapply segments_ok; [|exact Hr]. by split.
Qed.

(** The labels that are accepted are those whose parts are within their limits,
    and every such label has a text that is read as it. *)
Theorem label_roundtrip l : label_ok l ↔ parse_label (render_label l) = Ok l.
Proof. split; [apply render_label_parses|apply parse_label_ok]. Qed.

(** What the catalog shows is accepted: each example is read, resolves to a
    profile and names only key algorithms that are configured; a profile is
    shown as issuable when labels with it resolve. *)
Theorem catalog_accepted algos labeled default_profile :
  (∀ e, e ∈ ec_examples (catalog algos labeled default_profile) → ∃ l, parse_label e = Ok l ∧
     is_ok (profile_name l) = true ∧ ∀ a, key_algo l = Some a → token a ∈ algos) ∧
  (∀ p, p ∈ ec_profiles (catalog algos labeled default_profile) → cp_token p ∈ KNOWN_PROFILE_TYPES ∧
     ∀ l, profile_type l = cp_token p → is_ok (profile_name l) = cp_issuable p).
Proof.
  split.
  - intros e. unfold catalog; cbn [ec_examples omap list_omap app].
    assert (∀ a, contains (token a) algos = true → token a ∈ algos) as Hin
      by (intros; by apply contains_true).
    pose proof (Hin Rsa2048) as H1. pose proof (Hin EcP384) as H2. clear Hin.
    cbn [omap list_omap].
    destruct labeled, (contains (token Rsa2048) algos), (contains (token EcP384) algos);
      cbn [ck_token token app];
      repeat (intros [->|He]%elem_of_cons;
        [eexists; split; [vm_compute; reflexivity|]; split; [done|];
         intros a [= <-]; first [by apply H1|by apply H2]|revert He]);
      by intros ?%elem_of_nil.
  - intros p. unfold catalog; cbn [ec_profiles].
    change (catalog_profile <$> PROFILE_META) with (map catalog_profile PROFILE_META). cbn [map PROFILE_META].
    repeat (intros [->|He]%elem_of_cons; [split; [by apply contains_true|]; intros l Hl;
      unfold profile_name; rewrite Hl; reflexivity|revert He]).
    by intros ?%elem_of_nil.
Qed.
