(* ===== verification/EstStore.v ===== *)
(** * The tables of the EST server

    [crates/ostrich-db/src/repository/est.rs] on the tables of
    [migrations/00001_create_base_tables.sql],
    [00010_est_account_identities.sql], [00013_est_enrollment_tokens.sql] and
    [00017_est_token_multi_use.sql] with their constraints, and what the server
    reads of the CA's certificates.  Rows are in the order of insertion; columns
    that no code reads are left out.  [Stmt] has the statements as data, so that
    a run can record which were sent; the time of [now()] is the database's.
    [OrderDesc] is [ORDER BY .. DESC].  The table of authorized clients, which
    no service uses, is left out. *)
From stdpp Require Import base strings list sorting.
From Stdlib Require Import ZArith Lia.
From S2P Require Import Prelude Text.
From S2P Require CaStore.
#[local] Open Scope Z_scope.

Abbreviation Certificate := CaStore.Certificate.

Record EstEnrollment := {
  e_id : Uuid; client_identifier : string; enrollment_type : string; csr_der : list u8;
  certificate_id : option Uuid; e_status : string; e_profile_name : option string;
  e_created_at : DateTime; e_updated_at : DateTime
}.

(** [t_profile] and [token_hash] are columns that the row type of the listing
    leaves out. *)
Record EstEnrollmentTokenRow := {
  t_id : Uuid; token_hash : list u8; t_identity : string; t_profile : option string;
  created_by : string; t_created_at : DateTime; expires_at : DateTime; used_at : option DateTime;
  used_by_cert : option Uuid; max_uses : Z; uses_remaining : Z; revoked_at : option DateTime
}.

Record EstDb := {
  enrollments : list EstEnrollment; identities : list (string * string);
  tokens : list EstEnrollmentTokenRow; certs : list Certificate
}.
Definition set_enrollments (l : list EstEnrollment) (d : EstDb) : EstDb :=
  {| enrollments := l; identities := identities d; tokens := tokens d; certs := certs d |}.
Definition set_identities (l : list (string * string)) (d : EstDb) : EstDb :=
  {| enrollments := enrollments d; identities := l; tokens := tokens d; certs := certs d |}.
Definition set_tokens (l : list EstEnrollmentTokenRow) (d : EstDb) : EstDb :=
  {| enrollments := enrollments d; identities := identities d; tokens := l; certs := certs d |}.
Definition set_certs (l : list Certificate) (d : EstDb) : EstDb :=
  {| enrollments := enrollments d; identities := identities d; tokens := tokens d; certs := l |}.

Class OrderDesc {R : Type} (key : R → DateTime) := {
  desc : list R → list R;
  desc_perm l : desc l ≡ₚ l;
  desc_sorted l : StronglySorted (λ a b, key b ≤ key a) (desc l)
}.

Definition Sql (A : Type) : Type := DateTime → EstDb → result A string * EstDb.

Definition CONSTRAINT : string := "constraint violation".
Definition NO_ROW : string := "no rows returned by a query that expected to return at least one row".
Definition varchar (n : nat) (s : string) : bool := (char_count s <=? n)%nat.
(** [INTEGER]. *)
Definition i32_MAX : Z := 2 ^ 31 - 1.

Section store.
Context {HE : OrderDesc e_created_at} {HT : OrderDesc t_created_at} {HW : Lowercase}.

Definition with_id (id : Uuid) (e : EstEnrollment) : bool := bool_decide (e_id e = id).
Definition cert_exists (id : Uuid) (d : EstDb) : bool :=
  existsb (λ c, bool_decide (CaStore.c_id c = id)) (certs d).

(** ** Enrollments *)

Definition insert_enrollment (e : EstEnrollment) : Sql EstEnrollment :=
  λ _ d,
    if existsb (with_id (e_id e)) (enrollments d) || negb (varchar 255 (client_identifier e))
    then (Err CONSTRAINT, d)
    else (Ok e, set_enrollments (enrollments d ++ [e]) d).
Definition find_enrollment (id : Uuid) : Sql (option EstEnrollment) :=
  λ _ d, (Ok (find (with_id id) (enrollments d)), d).
Definition list_enrollments_by_client (client : string) : Sql (list EstEnrollment) :=
  λ _ d, (Ok (desc (List.filter (λ e, bool_decide (client_identifier e = client)) (enrollments d))), d).
Definition find_client_by_certificate_id (cert : Uuid) : Sql (option string) :=
  λ _ d, (Ok (client_identifier <$> head (desc
    (List.filter (λ e, bool_decide (certificate_id e = Some cert)) (enrollments d)))), d).

(** [UPDATE est_enrollments SET .. WHERE id = ..  RETURNING *], where the new
    row has to satisfy the constraints. *)
Definition update_enrollment (id : Uuid) (f : EstEnrollment → EstEnrollment) : Sql EstEnrollment :=
  λ _ d,
    match find (with_id id) (enrollments d) with
    | None => (Err NO_ROW, d)
    | Some e =>
        if match certificate_id (f e) with Some c => cert_exists c d | None => true end &&
           varchar 50 (e_status (f e)) && match e_profile_name (f e) with Some p => varchar 255 p | None => true end
        then (Ok (f e), set_enrollments ((λ e, if with_id id e then f e else e) <$> enrollments d) d)
        else (Err CONSTRAINT, d)
    end.
Definition set_row (certificate : option Uuid) (status : string) (profile : option string)
    (now : DateTime) (e : EstEnrollment) : EstEnrollment :=
  {| e_id := e_id e; client_identifier := client_identifier e; enrollment_type := enrollment_type e;
     csr_der := csr_der e; certificate_id := certificate; e_status := status;
     e_profile_name := profile; e_created_at := e_created_at e; e_updated_at := now |}.
Definition update_enrollment_status (now : DateTime) (id : Uuid) (status : string) : Sql EstEnrollment :=
  update_enrollment id (λ e, set_row (certificate_id e) status (e_profile_name e) now e).
Definition update_enrollment_certificate (now : DateTime) (id cert : Uuid) (profile : string)
    : Sql EstEnrollment :=
  update_enrollment id (λ e, set_row (Some cert) (e_status e) (Some profile) now e).
Definition mark_enrollment_issued (now : DateTime) (id cert : Uuid) (profile : string)
    : Sql EstEnrollment :=
  update_enrollment id (set_row (Some cert) "issued" (Some profile) now).

(** ** Allowed identities *)

Definition list_allowed_identities (account : string) : Sql (list string) :=
  λ _ d, (Ok (omap (λ p : string * string, if bool_decide (p.1 = account) then Some p.2 else None)
                (identities d)), d).
Definition add_allowed_identity (account identity : string) : Sql unit :=
  λ _ d,
    if varchar 255 account && varchar 255 identity then
      (Ok tt, if contains (account, identity) (identities d) then d
              else set_identities (identities d ++ [(account, identity)]) d)
    else (Err CONSTRAINT, d).
Definition remove_allowed_identity (account identity : string) : Sql bool :=
  λ _ d,
    (Ok (contains (account, identity) (identities d)),
     set_identities (List.filter (λ p, negb (bool_decide (p = (account, identity)))) (identities d)) d).

(** ** Enrollment tokens *)

Definition token_clash (t t' : EstEnrollmentTokenRow) : bool :=
  bool_decide (t_id t = t_id t') || bool_decide (token_hash t = token_hash t').
Definition create_enrollment_token (id : Uuid) (hash : list u8) (identity : string)
    (profile : option string) (by_user : string) (expires : DateTime) (uses : Z) : Sql unit :=
  λ now d,
    let t := {| t_id := id; token_hash := hash; t_identity := identity; t_profile := profile;
                created_by := by_user; t_created_at := now; expires_at := expires; used_at := None;
                used_by_cert := None; max_uses := uses; uses_remaining := uses; revoked_at := None |} in
    if existsb (token_clash t) (tokens d) || negb (varchar 255 identity) || negb (varchar 255 by_user) ||
       negb match profile with Some p => varchar 64 p | None => true end || (uses <? 1)
    then (Err CONSTRAINT, d)
    else (Ok tt, set_tokens (tokens d ++ [t]) d).

(** [uses_remaining > 0 AND expires_at > now()]. *)
Definition live (now : DateTime) (t : EstEnrollmentTokenRow) : bool :=
  (0 <? uses_remaining t) && (now <? expires_at t).
Definition find_live_enrollment_token (hash : list u8) : Sql (option (Uuid * string * DateTime)) :=
  λ now d, (Ok ((λ t, (t_id t, t_identity t, expires_at t)) <$>
    find (λ t, bool_decide (token_hash t = hash) && live now t) (tokens d)), d).

Definition set_use (remaining : Z) (cert : option Uuid) (used revoked : option DateTime)
    (t : EstEnrollmentTokenRow) : EstEnrollmentTokenRow :=
  {| t_id := t_id t; token_hash := token_hash t; t_identity := t_identity t; t_profile := t_profile t;
     created_by := created_by t; t_created_at := t_created_at t; expires_at := expires_at t;
     used_at := used; used_by_cert := cert; max_uses := max_uses t; uses_remaining := remaining;
     revoked_at := revoked |}.
(** [UPDATE est_enrollment_tokens SET .. WHERE p] for a [p] that includes
    [id = ..]; whether a row changed. *)
Definition update_token (p : EstEnrollmentTokenRow → bool)
    (f : EstEnrollmentTokenRow → EstEnrollmentTokenRow) (ok : EstDb → bool) : Sql bool :=
  λ _ d,
    if existsb p (tokens d) then
      if ok d && forallb (λ t, negb (p t) || (uses_remaining (f t) <=? i32_MAX)) (tokens d)
      then (Ok true, set_tokens ((λ t, if p t then f t else t) <$> tokens d) d)
      else (Err CONSTRAINT, d)
    else (Ok false, d).
Definition token_with_id (id : Uuid) (t : EstEnrollmentTokenRow) : bool := bool_decide (t_id t = id).
Definition cert_ok (cert : option Uuid) (d : EstDb) : bool :=
  match cert with Some c => cert_exists c d | None => true end.

Definition consume_enrollment_token (id : Uuid) (cert : option Uuid) : Sql bool :=
  λ now,
    update_token (λ t, token_with_id id t && live now t)
      (λ t, set_use (uses_remaining t - 1) (match cert with Some c => Some c | None => used_by_cert t end)
              (if uses_remaining t - 1 =? 0 then Some now else used_at t) (revoked_at t) t)
      (cert_ok cert) now.
Definition refund_enrollment_token (id : Uuid) : Sql bool :=
  update_token (token_with_id id)
    (λ t, set_use (uses_remaining t + 1) (used_by_cert t) (used_at t) (revoked_at t) t) (λ _, true).
Definition record_enrollment_token_cert (id cert : Uuid) : Sql bool :=
  update_token (token_with_id id)
    (λ t, set_use (uses_remaining t) (Some cert) (used_at t) (revoked_at t) t) (cert_ok (Some cert)).
Definition enrollment_token_profile (id : Uuid) : Sql (option string) :=
  λ _ d, (Ok (find (token_with_id id) (tokens d) ≫= t_profile), d).

Definition by_creator (by_user : option string) (t : EstEnrollmentTokenRow) : bool :=
  match by_user with Some u => bool_decide (created_by t = u) | None => true end.
Definition list_enrollment_tokens (by_user : option string) (limit : nat)
    : Sql (list EstEnrollmentTokenRow) :=
  λ _ d, (Ok (take limit (desc (List.filter (by_creator by_user) (tokens d)))), d).
Definition list_enrollment_tokens_for_identity (identity : string) (by_user : option string) (limit : nat)
    : Sql (list EstEnrollmentTokenRow) :=
  λ _ d, (Ok (take limit (desc (List.filter
    (λ t, bool_decide (to_lowercase (t_identity t) = identity) && by_creator by_user t) (tokens d)))), d).
Definition revoke_enrollment_token (id : Uuid) (by_user : option string) : Sql bool :=
  λ now,
    update_token (λ t, token_with_id id t && live now t && by_creator by_user t)
      (λ t, set_use 0 (used_by_cert t) (used_at t) (Some now) t) (λ _, true) now.

(** ** Certificates *)

Definition find_by_id (id : Uuid) : Sql (option Certificate) :=
  λ _ d, (Ok (find (λ c, bool_decide (CaStore.c_id c = id)) (certs d)), d).
Definition find_by_der (der : list u8) : Sql (option Certificate) :=
  λ _ d, (Ok (find (λ c, bool_decide (CaStore.c_der_encoded c = der)) (certs d)), d).

(** ** The statements *)

Inductive Stmt : Type → Type :=
| InsertEnrollment (e : EstEnrollment) : Stmt EstEnrollment
| FindEnrollment (id : Uuid) : Stmt (option EstEnrollment)
| ListEnrollments (client : string) : Stmt (list EstEnrollment)
| FindClient (cert : Uuid) : Stmt (option string)
| UpdateStatus (now : DateTime) (id : Uuid) (status : string) : Stmt EstEnrollment
| UpdateCertificate (now : DateTime) (id cert : Uuid) (profile : string) : Stmt EstEnrollment
| MarkIssued (now : DateTime) (id cert : Uuid) (profile : string) : Stmt EstEnrollment
| ListIdentities (account : string) : Stmt (list string)
| AddIdentity (account identity : string) : Stmt unit
| RemoveIdentity (account identity : string) : Stmt bool
| InsertToken (id : Uuid) (hash : list u8) (identity : string) (profile : option string)
    (by_user : string) (expires : DateTime) (uses : Z) : Stmt unit
| FindLiveToken (hash : list u8) : Stmt (option (Uuid * string * DateTime))
| ConsumeToken (id : Uuid) (cert : option Uuid) : Stmt bool
| RefundToken (id : Uuid) : Stmt bool
| RecordTokenCert (id cert : Uuid) : Stmt bool
| TokenProfile (id : Uuid) : Stmt (option string)
| ListTokens (by_user : option string) (limit : nat) : Stmt (list EstEnrollmentTokenRow)
| ListTokensFor (identity : string) (by_user : option string) (limit : nat)
    : Stmt (list EstEnrollmentTokenRow)
| RevokeToken (id : Uuid) (by_user : option string) : Stmt bool
| FindCertificate (id : Uuid) : Stmt (option Certificate)
| FindCertificateByDer (der : list u8) : Stmt (option Certificate).

Definition execute {A} (s : Stmt A) : Sql A :=
  match s in Stmt A return Sql A with
  | InsertEnrollment e => insert_enrollment e
  | FindEnrollment id => find_enrollment id
  | ListEnrollments client => list_enrollments_by_client client
  | FindClient cert => find_client_by_certificate_id cert
  | UpdateStatus now id status => update_enrollment_status now id status
  | UpdateCertificate now id cert profile => update_enrollment_certificate now id cert profile
  | MarkIssued now id cert profile => mark_enrollment_issued now id cert profile
  | ListIdentities account => list_allowed_identities account
  | AddIdentity account identity => add_allowed_identity account identity
  | RemoveIdentity account identity => remove_allowed_identity account identity
  | InsertToken id hash identity profile by_user expires uses =>
      create_enrollment_token id hash identity profile by_user expires uses
  | FindLiveToken hash => find_live_enrollment_token hash
  | ConsumeToken id cert => consume_enrollment_token id cert
  | RefundToken id => refund_enrollment_token id
  | RecordTokenCert id cert => record_enrollment_token_cert id cert
  | TokenProfile id => enrollment_token_profile id
  | ListTokens by_user limit => list_enrollment_tokens by_user limit
  | ListTokensFor identity by_user limit => list_enrollment_tokens_for_identity identity by_user limit
  | RevokeToken id by_user => revoke_enrollment_token id by_user
  | FindCertificate id => find_by_id id
  | FindCertificateByDer der => find_by_der der
  end.
End store.
