(* ===== verification/EstCore.v ===== *)
(** * What the EST server's operations share

    Errors ([crates/ostrich-est/src/error.rs]), responses, credentials
    ([crates/ostrich-common/src/auth/provider.rs]) and the effects of the
    server's programs: SQL statements, the clock, randomness, the call that asks
    a CA for a certificate, accounts and sessions, keys, and audit records.
    [EstLib] has the other crates: base64, JSON, CMS, UUIDs.  A JSON body is
    parsed before its handler, but for the one the source parses itself. *)
From stdpp Require Import base strings list gmap pretty.
From Stdlib Require Import Ascii ZArith Lia.
From S2P Require Import Prelude Text Programs Algorithm Roles X509Names Csr CaStore CaCore EstStore.
From S2P Require AuditLog.
#[local] Open Scope Z_scope.

(** ** Errors and responses *)

Inductive Error :=
| Unauthorized | Forbidden (s : string) | BadRequest (s : string) | InvalidCsr (s : string)
| NotFound | Internal (s : string) | Database (s : string) | Common (s : string).

Definition status_code (e : Error) : Z :=
  match e with
  | Unauthorized => 401
  | Forbidden _ => 403
  | BadRequest _ | InvalidCsr _ => 400
  | NotFound => 404
  | Internal _ | Database _ | Common _ => 500
  end.
Definition error_to_string (e : Error) : string :=
  match e with
  | Unauthorized => "Client authentication required"
  | Forbidden s => "Client not authorized: " +:+ s
  | BadRequest s => "Malformed request: " +:+ s
  | InvalidCsr s => "Invalid CSR: " +:+ s
  | NotFound => "Certificate not found"
  | Internal s => "Internal server error: " +:+ s
  | Database s => "Database error: " +:+ s
  | Common s => "Common error: " +:+ s
  end.
Definition error_type (e : Error) : string :=
  match e with
  | Unauthorized => "unauthorized" | Forbidden _ => "forbidden" | BadRequest _ => "bad_request"
  | InvalidCsr _ => "invalid_csr" | NotFound => "not_found" | Internal _ => "internal_error"
  | Database _ => "database_error" | Common _ => "common_error"
  end.
(** The type and the description that are sent. *)
Definition to_response (e : Error) : string * string :=
  (error_type e,
   match e with
   | Internal _ | Database _ | Common _ => "An internal error occurred"
   | other => error_to_string other
   end).

Inductive Body := BEmpty | BText (s : string) | BBytes (b : list u8) | BJson (j : Json).
Record Response := { status : Z; response_headers : list (string * string); response_body : Body }.
Definition respond (status : Z) (headers : list (string * string)) (body : Body) : Response :=
  {| status := status; response_headers := headers; response_body := body |}.
(** [into_response]. *)
Definition error_response (e : Error) : Response :=
  respond (status_code e) []
    (BJson (JObject [("error", JString (to_response e).1);
                     ("errorDescription", JString (to_response e).2)])).

(** What the TLS layer and HTTP hand over. *)
Record HttpRequest := {
  peer_certificate : option (list u8); request_headers : list (string * string); body : list u8
}.
(** [headers.get(name).and_then(|h| h.to_str().ok())]: the first of that name,
    when it is visible ASCII. *)
Definition is_visible_ascii (c : ascii) : bool :=
  let n := N_of_ascii c in (((32 <=? n) && (n <? 127)) || (n =? 9))%N.
Definition header (name : string) (rq : HttpRequest) : option string :=
  v ← table_lookup name (request_headers rq);
  if forallb is_visible_ascii (String.list_ascii_of_string v) then Some v else None.

(** ** Authentication *)

Inductive Credentials :=
| PasswordCredentials (username password : string)
| CertificateCredentials (cert_chain : list (list u8)) (client_ip : option string)
| ApiKeyCredentials (key : string)
| SessionTokenCredentials (token : string).
Definition credentials_auth_method (c : Credentials) : AuthMethod :=
  match c with
  | PasswordCredentials _ _ => Password
  | CertificateCredentials _ _ => Roles.Certificate
  | ApiKeyCredentials _ => ApiKey
  | SessionTokenCredentials _ => Password
  end.
Inductive AuthError :=
| InvalidCredentials | AccountLocked (until : string) | AccountSuspended | AccountDisabled
| UserNotFound | SessionExpired | InvalidSession | CertificateValidationFailed (reason : string)
| CertificateExpired | CertificateRevoked | CertificateNotAuthorized | InvalidApiKey
| UnsupportedAuthMethod | SessionLimitReached | AuthInternal (s : string).
Record SessionInfo := {
  si_token : string; si_user : AuthenticatedUser; si_expires_at : Z; si_is_valid : bool
}.

(** ** The call to a CA *)

Inductive SubjectAltName :=
| DnsName (s : string) | Rfc822Name (s : string) | Uri (s : string) | IpAddress (s : string)
| DirectoryName (s : string).
Record IssueCertificateRequest := {
  rq_profile_name : string; rq_subject : option DistinguishedName;
  rq_subject_alt_names : list SubjectAltName; rq_public_key : list u8; rq_requestor : string;
  rq_metadata : gmap string string; rq_csr_der : list u8; rq_request_id : string
}.
(** The channel to a CA. *)
Record EstCaClient := { endpoint : string }.

(** ** Effects *)

Inductive EstE : Type → Type :=
| EStmt {A} (s : Stmt A) : EstE (result A string)
| ENow : EstE DateTime
| EUuid : EstE Uuid
(** [rand::random]. *)
| ERandom (n : nat) : EstE (list u8)
(** The identifier of the certificate, as text, or the error's. *)
| EIssue (ca : EstCaClient) (rq : IssueCertificateRequest) : EstE (result string string)
(** A provider of accounts or sessions, by name. *)
| EAuthenticate (provider : string) (c : Credentials) : EstE (result AuthenticatedUser AuthError)
| ESession (provider token : string) : EstE (result SessionInfo AuthError)
| EGenerateKey (type : KeyType) (label : string) (extractable : bool) : EstE (result KeyHandle string)
| EExportPublic (key : KeyHandle) : EstE (result (list u8) string)
| EExportPrivate (key : KeyHandle) : EstE (result (list u8) string)
| ESign (key : KeyHandle) (a : Algorithm) (tbs : list u8) : EstE (result (list u8) string)
| EDestroyKey (key : KeyHandle) : EstE (result unit string)
(** [build_encrypted_pkcs12], which draws salts. *)
| EPkcs12 (key cert : list u8) (password : string) : EstE (result (list u8) string)
| ERecord (ev : CaEvent) : EstE (result unit string).
Abbreviation Prog := (Programs.Prog EstE).
Abbreviation M A := (Programs.Prog EstE (result A Error)).

Definition sql {A} (s : Stmt A) : Prog (result A string) := call (EStmt s).
(** [repository.call(..).await.map_err(..)?]. *)
Definition try_sql {A} (into : string → Error) (s : Stmt A) : M A :=
  let^ r := sql s in Done (match r with Ok x => Ok x | Err e => Err (into e) end).
Definition internal (context : string) (e : string) : Error := Internal (context +:+ e).
(** [let _ = audit_sink.record(..)]. *)
Definition record (e : CaEvent) : Prog unit := let^ _ := call (ERecord e) in Done tt.
(** [map_err(|e| into(format!("<context>{}", e)))?]. *)
Definition map_err {A E} (into : E → Error) (r : result A E) : result A Error :=
  match r with Ok x => Ok x | Err e => Err (into e) end.

Record EfsKeygenRequest := { sans : list string; key_strength : option Z }.

Class EstLib := {
  es_ca :: CaLib;
  (** [STANDARD], and [URL_SAFE_NO_PAD]. *)
  base64_encode : list u8 → string;
  base64_decode : list u8 → option (list u8);
  base64url_encode : list u8 → string;
  token_digest : list u8 → list u8;
  uuid_new_v5 : N → list u8 → Uuid;
  to_rfc3339 : DateTime → string;
  efs_from_slice : list u8 → result EfsKeygenRequest string;
  (** [x509_cert::Certificate::from_der], and [Display] of its subject. *)
  certificate_subject_text : list u8 → option string;
  (** [from_utf8]. *)
  from_utf8 : list u8 → option string;
  (** CMS: a certificate, a [SetOfVec] of them, the [SignedData] of a set
      without content or signers, and its [ContentInfo]. *)
  CmsCertificate : Type;
  CmsSet : Type;
  cms_certificate_from_der : list u8 → result CmsCertificate string;
  cms_set_new : CmsSet;
  cms_set_insert : CmsCertificate → CmsSet → result CmsSet string;
  cms_signed_data : CmsSet → result (list u8) string;
  cms_content_info : list u8 → result (list u8) string;
  (** [Attribute::try_from(ExtensionReq)], [Attributes], [CertReqInfo] and
      [CertReq]. *)
  CsrAttribute : Type;
  CsrAttributes : Type;
  CsrInfo : Type;
  extension_request : Extension → result CsrAttribute string;
  csr_attributes_new : CsrAttributes;
  csr_attributes_insert : CsrAttribute → CsrAttributes → result CsrAttributes string;
  csr_info_to_der : Name → SubjectPublicKeyInfo → CsrAttributes → result (list u8) string;
  csr_info_from_der : list u8 → result CsrInfo string;
  csr_to_der : CsrInfo → string * bool → list u8 → result (list u8) string
}.
