(* ===== verification/EstAuth.v ===== *)
(** * Authentication of EST clients

    The providers of [crates/ostrich-common/src/auth/provider.rs] as records of
    operations, those the EST server puts around them
    ([crates/ostrich-est/src/enrollment_token.rs], [device_cert.rs]), and the
    layers of [crates/ostrich-common/src/auth/middleware.rs] and [basic.rs],
    which find the user of a request or answer it.  Accounts and sessions
    (Lockout.v, Session.v) answer the effects of the innermost providers.  The
    operations on sessions that EST does not use are left out. *)
From stdpp Require Import base strings list gmap.
From Stdlib Require Import Ascii ZArith Lia.
From S2P Require Import Prelude Text Programs Roles CaStore CaCore EstStore EstCore.
#[local] Open Scope Z_scope.

Abbreviation AM A := (Programs.Prog EstE (result A AuthError)).

Record AuthProvider := {
  authenticate : Credentials → AM AuthenticatedUser;
  validate_session : string → AM SessionInfo;
  supported_methods : list AuthMethod
}.
#[export] Instance AuthMethod_eq_dec : EqDecision AuthMethod.
Proof. solve_decision. Defined.

(** ** Providers *)

(** [PasswordAuthProvider] and [CertificateAuthProvider]. *)
Definition account_provider (name : string) (method : AuthMethod) : AuthProvider := {|
  authenticate c := call (EAuthenticate name c);
  validate_session t := call (ESession name t);
  supported_methods := [method]
|}.

Definition find_provider (providers : list AuthProvider) (m : AuthMethod) : option AuthProvider :=
  find (λ p, contains m (supported_methods p)) providers.
Fixpoint first_session (providers : list AuthProvider) (token : string) : AM SessionInfo :=
  match providers with
  | [] => fail InvalidSession
  | p :: providers =>
      let^ r := validate_session p token in
      match r with Ok s => ret s | Err _ => first_session providers token end
  end.
(** [CompositeAuthProvider]. *)
Definition composite (providers : list AuthProvider) : AuthProvider := {|
  authenticate c :=
    let# p := lift (ok_or (find_provider providers (credentials_auth_method c)) UnsupportedAuthMethod) in
    authenticate p c;
  validate_session t := first_session providers t;
  supported_methods := []
|}.

Section auth.
Context {HL : EstLib}.

Definition hash_token (token : string) : list u8 := token_digest (as_bytes token).

(** [EnrollmentTokenAuthProvider]. *)
Definition token_session (inner : AuthProvider) (token : string) : AM SessionInfo :=
  let^ r := sql (FindLiveToken (hash_token token)) in
  match r with
  | Ok (Some (id, identity, expires)) =>
      let^ now := call ENow in
      ret {| si_token := token; si_user := new_user id identity [EstEnrollee] ApiKey now;
             si_expires_at := expires / NANOS; si_is_valid := true |}
  | Ok None => validate_session inner token
  | Err _ => validate_session inner token
  end.
Definition enrollment_token_provider (inner : AuthProvider) : AuthProvider := {|
  authenticate := authenticate inner;
  validate_session := token_session inner;
  supported_methods := supported_methods inner
|}.

Definition with_certificate_subject (subject : string) (u : AuthenticatedUser) : AuthenticatedUser :=
  {| user_id := user_id u; username := username u; display_name := display_name u; email := email u;
     roles := roles u; auth_method := auth_method u; authenticated_at := authenticated_at u;
     session_token := session_token u; certificate_subject := Some subject; source_ip := source_ip u |}.

Definition validation_failed (context e : string) : AuthError :=
  CertificateValidationFailed (context +:+ e).
Definition authenticate_device_cert (leaf_der : list u8) : AM (option AuthenticatedUser) :=
  let^ found := sql (FindCertificateByDer leaf_der) in
  match found with
  | Err e => fail (validation_failed "certificate store lookup failed: " e)
  | Ok None => ret None
  | Ok (Some cert) =>
      let^ client := sql (FindClient (c_id cert)) in
      match client with
      | Err e => fail (validation_failed "enrollment lookup failed: " e)
      | Ok None => ret None
      | Ok (Some client) =>
          if c_revoked cert then fail CertificateRevoked
          else
            let^ now := call ENow in
            if c_not_after cert <=? now then fail CertificateExpired
            else
              let^ now := call ENow in
              ret (Some (with_certificate_subject (c_subject_dn cert)
                (new_user (c_id cert) client [EstDevice] Roles.Certificate now)))
      end
  end.
(** [EstDeviceCertAuthProvider]. *)
Definition device_authenticate (inner : AuthProvider) (c : Credentials) : AM AuthenticatedUser :=
  match c with
  | CertificateCredentials (leaf_der :: _) _ =>
      let# user := authenticate_device_cert leaf_der in
      match user with Some user => ret user | None => authenticate inner c end
  | _ => authenticate inner c
  end.
Definition device_cert_provider (inner : AuthProvider) : AuthProvider := {|
  authenticate := device_authenticate inner;
  validate_session := validate_session inner;
  supported_methods := supported_methods inner
|}.

(** ** Layers *)

Inductive AuthResponse := RUnauthorized | RForbidden | RSessionExpired | BasicChallenge.
Definition auth_response (r : AuthResponse) : Response :=
  match r with
  | BasicChallenge =>
      respond 401 [("www-authenticate", "Basic realm=" +:+ quoted "EST")] (BText "Unauthorized")
  | RUnauthorized => respond 401 [] (BText "Unauthorized")
  | RForbidden => respond 403 [] (BText "Forbidden")
  | RSessionExpired => respond 401 [] (BText "Session expired")
  end.
Abbreviation LM A := (Programs.Prog EstE (result A AuthResponse)).
Definition map_auth {A} (into : AuthError → AuthResponse) (m : AM A) : LM A :=
  let^ r := m in Done (match r with Ok x => Ok x | Err e => Err (into e) end).

Definition bearer_token (rq : HttpRequest) : option string :=
  h ← header "authorization" rq; strip_prefix "Bearer " h.
Definition session_error (e : AuthError) : AuthResponse :=
  match e with SessionExpired => RSessionExpired | _ => RUnauthorized end.
(** [AuthLayer], and the bearer branch of the layers with two ways. *)
Definition bearer_layer (p : AuthProvider) (rq : HttpRequest) : LM AuthenticatedUser :=
  let# token := lift (ok_or (bearer_token rq) RUnauthorized) in
  let# session := map_auth session_error (validate_session p token) in
  ret (si_user session).

Definition account_error (otherwise : AuthResponse) (e : AuthError) : AuthResponse :=
  match e with AccountLocked _ => RForbidden | _ => otherwise end.
Definition certificate_login (p : AuthProvider) (cert_der : list u8) : LM AuthenticatedUser :=
  map_auth (account_error RUnauthorized) (authenticate p (CertificateCredentials [cert_der] None)).
Definition mtls_layer (p : AuthProvider) (rq : HttpRequest) : LM AuthenticatedUser :=
  let# cert_der := lift (ok_or (peer_certificate rq) RUnauthorized) in
  certificate_login p cert_der.
Definition mtls_or_bearer_layer (p : AuthProvider) (rq : HttpRequest) : LM AuthenticatedUser :=
  match peer_certificate rq with
  | Some cert_der => certificate_login p cert_der
  | None => bearer_layer p rq
  end.

Definition basic_credentials (rq : HttpRequest) : option (string * string) :=
  h ← header "authorization" rq;
  encoded ← strip_prefix "Basic " h;
  decoded ← base64_decode (as_bytes (trim encoded));
  text ← from_utf8 decoded;
  split_once ":" text.
Definition authenticate_basic (p : AuthProvider) (rq : HttpRequest) : LM AuthenticatedUser :=
  let# c := lift (ok_or (basic_credentials rq) BasicChallenge) in
  map_auth (account_error BasicChallenge) (authenticate p (PasswordCredentials c.1 c.2)).
Definition mtls_or_basic_layer (p : AuthProvider) (rq : HttpRequest) : LM AuthenticatedUser :=
  match peer_certificate rq with
  | Some cert_der => certificate_login p cert_der
  | None => authenticate_basic p rq
  end.

(** *** The portal's identity *)

Definition HEADER_NPE_USER : string := "x-npe-user".
Definition HEADER_NPE_SUBJECT : string := "x-npe-subject".
Definition HEADER_NPE_ROLES : string := "x-npe-roles".
(** [allowed_subjects]. *)
Record TrustedProxyConfig := { allowed_subjects : list string }.
Definition is_trusted_subject (cfg : TrustedProxyConfig) (subject : string) : bool :=
  contains subject (allowed_subjects cfg).
Definition is_enabled (cfg : TrustedProxyConfig) : bool :=
  match allowed_subjects cfg with [] => false | _ => true end.
(** [certificate_subject_dn] of grpc_tls.rs. *)
Definition peer_cert_subject (cert_der : list u8) : option string :=
  dn ← certificate_subject_text cert_der; if bool_decide (dn = "") then None else Some dn.
Definition MAX_PROXY_IDENTITY_LEN : nat := 512.
Definition is_bridgeable_role (r : Role) : bool :=
  contains r [PkiSponsor; PkiSponsorAdmin; RegistrationAuthority; CaaAdmin; NpeAuditor].
Definition NPE_PROXY_NAMESPACE : N := 0x4f5354524943484e504550524f585930%N.
Definition from_trusted_proxy (subject name : string) (rs : list Role) (now : DateTime)
    : AuthenticatedUser :=
  with_certificate_subject subject
    (new_user (uuid_new_v5 NPE_PROXY_NAMESPACE (as_bytes subject)) name rs Roles.Certificate now).
Definition nonempty (s : string) : option string := if bool_decide (s = "") then None else Some s.
(** The subject, the name and the roles of the headers. *)
Definition trusted_proxy_identity (rq : HttpRequest) : option (string * string * list Role) :=
  name ← header HEADER_NPE_USER rq ≫= (nonempty ∘ trim);
  let subject := default name (header HEADER_NPE_SUBJECT rq ≫= (nonempty ∘ trim)) in
  if (MAX_PROXY_IDENTITY_LEN <? String.length name)%nat ||
     (MAX_PROXY_IDENTITY_LEN <? String.length subject)%nat then None
  else
    let named := omap (nonempty ∘ trim) (split_on "," (default "" (header HEADER_NPE_ROLES rq))) in
    Some (subject, name, List.filter is_bridgeable_role (omap role_from_name named)).
Definition trusted_proxy_layer (p : AuthProvider) (cfg : TrustedProxyConfig) (rq : HttpRequest)
    : LM AuthenticatedUser :=
  match (if is_enabled cfg then
           cert_der ← peer_certificate rq; subject ← peer_cert_subject cert_der;
           if is_trusted_subject cfg subject then Some subject else None
         else None) with
  | Some _ =>
      let# i := lift (ok_or (trusted_proxy_identity rq) RUnauthorized) in
      let^ now := call ENow in
      ret (from_trusted_proxy i.1.1 i.1.2 i.2 now)
  | None => bearer_layer p rq
  end.

(** *** Authorization *)

(** [policy.authorize(..)]; its log is not read. *)
Definition permitted (policy : RbacPolicy) (user : AuthenticatedUser) (p : Permission)
    (resource : string) : bool :=
  is_ok (Roles.authorize uuid_to_string policy user p resource []).1.
(** [AuthzLayer::authorize] after the layer that found the user. *)
Definition authz_layer (policy : RbacPolicy) (p : Permission) (resource : string)
    (user : AuthenticatedUser) : result unit AuthResponse :=
  if permitted policy user p resource then Ok tt else Err RForbidden.

Lemma permitted_spec policy user p resource :
  permitted policy user p resource = any_role_has_permission (roles user) p.
Proof. unfold permitted, Roles.authorize. cbn [fst]. by destruct (any_role_has_permission _ _). Qed.
End auth.
