(* ===== verification/EstPolicy.v ===== *)
(** * Whose certificate may be asked for

    The rules of [crates/ostrich-est/src/rest.rs] that need no database: which
    names of a request must be the client's, how identities and lists of names
    are compared, and which profile a renewal keeps. *)
From stdpp Require Import base strings list sets sorting.
From Stdlib Require Import Ascii ZArith Lia.
From S2P Require Import Prelude Text.
#[local] Open Scope Z_scope.

(** ** Identities *)

(** A name is its text after the kind: [DNS:], [email:] and so on. *)
Definition san_value (san : string) : string :=
  match split_once ":" san with Some (_, v) => v | None => san end.

Definition csr_identity_matches_principal (username : string) (cn : option string) (sans : list string) : bool :=
  bool_decide (cn = Some username) || existsb (λ san, bool_decide (san_value san = username)) sans.
Definition csr_asserted_identities (cn : option string) (sans : list string) : list string :=
  option_list cn ++ (san_value <$> sans).

Definition MAX_IDENTITY_LEN : nat := 255.
Definition normalize_identity (identity : string) : string := to_ascii_lowercase (trim identity).

(** What is wrong with an identity. *)
Definition validate_identity (raw : string) : result string string :=
  let id := normalize_identity raw in
  if bool_decide (id = "") then Err "identity must not be empty"
  else if (MAX_IDENTITY_LEN <? char_count id)%nat then Err "identity must be at most 255 characters"
  else if has_control id then Err "identity must not contain control characters"
  else Ok id.

(** The rule for the principal of an enrollment token. *)
Definition enrollee_matches (username : string) (cn : option string) (sans : list string) : bool :=
  let want := normalize_identity username in
  match cn with Some c => bool_decide (normalize_identity c = want) | None => false end ||
  existsb (λ san, bool_decide (normalize_identity (san_value san) = want)) sans.
(** The rule of an allow-list. *)
Definition all_allowed (allowed : list string) (cn : option string) (sans : list string) : bool :=
  forallb (λ id, contains (normalize_identity id) (normalize_identity <$> allowed))
    (csr_asserted_identities cn sans).

(** ** Lists of names *)

(** [String]'s order: that of the bytes. *)
Definition string_le (a b : string) : Prop := String.leb a b = true.
#[export] Instance string_le_dec a b : Decision (string_le a b).
Proof. unfold string_le. apply _. Defined.
(** [dedup]. *)
Fixpoint dedup (l : list string) : list string :=
  match l with
  | a :: ((b :: _) as l') => if bool_decide (a = b) then dedup l' else a :: dedup l'
  | _ => l
  end.
Definition normalize_san_set (sans : list string) : list string :=
  dedup (merge_sort string_le (trim <$> sans)).

(** ** Profiles *)

Definition EFS_PROFILE_NAME : string := "efs".
Definition OFFERABLE_EST_PROFILES : list string :=
  ["tls_client"; "tls_server"; "tls_server_client"; EFS_PROFILE_NAME].
Definition offerable (profile : string) : bool := contains profile OFFERABLE_EST_PROFILES.

Definition profile_capability_rank (profile : string) : nat :=
  default 0%nat (table_lookup profile [("tls_server_client", 2%nat); ("tls_server", 1%nat); ("tls_client", 1%nat)]).
Definition is_efs (profile : string) : bool := bool_decide (profile = EFS_PROFILE_NAME).
Definition broadest_est_profile (current candidate : option string) : option string :=
  let candidate := p ← candidate; if offerable p then Some p else None in
  match current, candidate with
  | Some cur, Some cand =>
      if negb (Bool.eqb (is_efs cur) (is_efs cand)) then Some cur
      else if (profile_capability_rank cur <? profile_capability_rank cand)%nat then Some cand
      else Some cur
  | Some cur, None => Some cur
  | None, Some cand => Some cand
  | None, None => None
  end.

(** ** Lemmas *)

Lemma string_le_total a b : string_le a b ∨ string_le b a.
Proof.
  unfold string_le, String.leb. pose proof (String.compare_antisym a b) as HH.
  rewrite HH. destruct (String.compare b a); cbn; auto.
Qed.
#[export] Instance string_le_Total : Total string_le. Proof. exact string_le_total. Qed.

Lemma ascii_compare_Lt a b : Ascii.compare a b = Lt ↔ (N_of_ascii a < N_of_ascii b)%N.
Proof. unfold Ascii.compare. apply N.compare_lt_iff. Qed.
Lemma ascii_compare_Eq a b : Ascii.compare a b = Eq ↔ a = b.
Proof.
  unfold Ascii.compare. rewrite N.compare_eq_iff. split; [|by intros ->].
  intros HH. by rewrite <- (ascii_N_embedding a), HH, ascii_N_embedding.
Qed.

(** [leb] is the lexicographic order of the bytes. *)
Lemma string_le_cons a s b t : string_le (String a s) (String b t) ↔
  (N_of_ascii a < N_of_ascii b)%N ∨ a = b ∧ string_le s t.
Proof.
  unfold string_le, String.leb. cbn [String.compare]. destruct (Ascii.compare a b) eqn:Hc.
  - apply ascii_compare_Eq in Hc as ->. split; [by right|]. intros [?|[_ ?]]; [lia|done].
  - apply ascii_compare_Lt in Hc. split; [by left|done].
  - assert ((N_of_ascii b < N_of_ascii a)%N) as Hlt by (unfold Ascii.compare in Hc; by apply N.compare_gt_iff in Hc).
    split; [done|]. intros [?|[-> _]]; lia.
Qed.
#[export] Instance string_le_trans : Transitive string_le.
Proof.
  intros s. induction s as [|a s IH]; intros [|b t] [|c u]; try done.
  rewrite !string_le_cons. intros [H1|[-> H1]] [H2|[-> H2]]; [left; lia|by left|by left|].
  right. split; [done|]. by eapply IH.
Qed.
#[export] Instance string_le_antisym : AntiSymm (=) string_le.
Proof.
  intros s. induction s as [|a s IH]; intros [|b t]; try done.
  rewrite !string_le_cons. intros [H1|[-> H1]] [H2|[H2 H2']]; subst; try lia.
  f_equal. by apply IH.
Qed.

Lemma dedup_cons a b l : dedup (a :: b :: l) = if bool_decide (a = b) then dedup (b :: l) else a :: dedup (b :: l).
Proof. done. Qed.
Lemma elem_of_dedup x l : x ∈ dedup l ↔ x ∈ l.
Proof.
  induction l as [|a [|b l] IH]; [done..|]. rewrite dedup_cons. case_bool_decide as Hab.
  - subst b. rewrite IH. set_solver.
  - rewrite !elem_of_cons, IH. set_solver.
Qed.

(** Strictly sorted lists with the same elements are equal. *)
Lemma dedup_sorted l : StronglySorted string_le l → StronglySorted (λ a b, string_le a b ∧ a ≠ b) (dedup l).
Proof.
  induction l as [|a [|b l] IH]; intros Hs; [constructor|constructor; constructor|].
  apply StronglySorted_inv in Hs as [Hs Ha]. rewrite dedup_cons. case_bool_decide as Hab; [by apply IH|].
  constructor; [by apply IH|]. rewrite Forall_forall in Ha |- *.
  intros x. rewrite elem_of_dedup. intros Hx. split; [by apply Ha|]. intros <-.
  apply StronglySorted_inv in Hs as [_ Hb]. rewrite Forall_forall in Hb.
  apply Hab. apply elem_of_cons in Hx as [Hx|Hx]; [done|].
  apply (anti_symm string_le); [apply Ha, list_elem_of_here|by apply Hb].
Qed.
Lemma strictly_sorted_ext l1 l2 :
  StronglySorted (λ a b, string_le a b ∧ a ≠ b) l1 → StronglySorted (λ a b, string_le a b ∧ a ≠ b) l2 →
  (∀ x, x ∈ l1 ↔ x ∈ l2) → l1 = l2.
Proof.
  revert l2. induction l1 as [|a l1 IH]; intros [|b l2] H1 H2 HH; [done| | |].
  - exfalso. apply (not_elem_of_nil b), HH, list_elem_of_here.
  - exfalso. apply (not_elem_of_nil a), HH, list_elem_of_here.
  - apply StronglySorted_inv in H1 as [H1 Ha], H2 as [H2 Hb]. rewrite Forall_forall in Ha, Hb.
    assert (a = b) as <-.
    { assert (a ∈ b :: l2) as [->|Hi]%elem_of_cons by (apply HH, list_elem_of_here); [done|].
      assert (b ∈ a :: l1) as [->|Hj]%elem_of_cons by (apply HH, list_elem_of_here); [done|].
      apply (anti_symm string_le); [by apply Ha|by apply Hb]. }
    f_equal. apply IH; [done..|]. intros x. specialize (HH x). rewrite !elem_of_cons in HH.
    split; intros Hx.
    + destruct (proj1 HH (or_intror Hx)) as [->|]; [|done]. by destruct (Ha _ Hx).
    + destruct (proj2 HH (or_intror Hx)) as [->|]; [|done]. by destruct (Hb _ Hx).
Qed.

(** The comparison of a renewal's names is that of sets. *)
Theorem normalize_san_set_spec a b :
  normalize_san_set a = normalize_san_set b ↔ (∀ x, x ∈ trim <$> a ↔ x ∈ trim <$> b).
Proof.
  assert (∀ l x, x ∈ normalize_san_set l ↔ x ∈ trim <$> l) as Hn.
  { intros l x. unfold normalize_san_set. rewrite elem_of_dedup. by rewrite merge_sort_Permutation. }
  split; [intros HH x; by rewrite <- !Hn, HH|]. intros HH.
  apply strictly_sorted_ext; [by apply dedup_sorted, StronglySorted_merge_sort; apply _..|].
  intros x. rewrite !Hn. apply HH.
Qed.
