(* ===== verification/EstClient.v ===== *)
(** * The EST server's calls to a CA, and the keys it generates

    [crates/ostrich-est/src/ca_integration.rs]: the requestor under which the
    server asks, the request made from an enrollment's CSR, the record of the
    certificate that comes back, and when a channel may be plaintext. *)
From stdpp Require Import base strings list gmap.
From Stdlib Require Import Ascii ZArith Lia.
From S2P Require Import Prelude Algorithm Signing Programs Text X509Names Csr CertBuilder CaStore CaCore EstStore GrpcIdentity EstCore.
From S2P Require AuditLog.
#[local] Open Scope Z_scope.

Definition CLIENT_ID_NOT_ISSUABLE : string :=
  "the EST client identifier cannot be used for certificate issuance: it must be 1 to 250 printable ASCII characters (no spaces or control characters)".

Definition ca_requestor (client_id : string) : result string Error :=
  match validate_requestor EST ("est::" +:+ client_id) with
  | Ok (Some bound) => Ok bound
  | _ => Err (Forbidden CLIENT_ID_NOT_ISSUABLE)
  end.

(** ** Names *)

(** [None] for a kind of name the protocol lacks: it is skipped. *)
Definition san_to_proto (san : string) : option SubjectAltName :=
  match strip_prefix "DNS:" san with Some dns => Some (DnsName dns) | None =>
  match strip_prefix "email:" san with Some email => Some (Rfc822Name email) | None =>
  match strip_prefix "URI:" san with Some uri => Some (Uri uri) | None =>
  match strip_prefix "IP:" san with Some ip => Some (IpAddress ip) | None =>
  match strip_prefix "DirName:" san with Some dn => Some (DirectoryName dn) | None => None
  end end end end end.
Definition convert_sans_to_proto (sans : list string) : list SubjectAltName := omap san_to_proto sans.

(** ** The channel *)

(** What follows the last [sep]. *)
Fixpoint after_last (fuel : nat) (sep s : string) : string :=
  match fuel with
  | O => s
  | S fuel => match split_once sep s with Some (_, rest) => after_last fuel sep rest | None => s end
  end.
Definition before_first (sep s : string) : string :=
  match split_once sep s with Some (a, _) => a | None => s end.
Definition endpoint_host (endpoint : string) : string :=
  let after_scheme := after_last (String.length endpoint) "://" endpoint in
  let host_port := before_first "/" after_scheme in
  let host_port := after_last (String.length host_port) "@" host_port in
  match strip_prefix "[" host_port with
  | Some rest => before_first "]" rest
  | None => before_first ":" host_port
  end.
Definition endpoint_is_loopback (endpoint : string) : bool :=
  let host := endpoint_host endpoint in
  contains host ["localhost"; "127.0.0.1"; "::1"] ||
  match strip_prefix "127." host with Some _ => true | None => false end.

Definition plaintext_policy (endpoint : string)
    (has_tls_material is_loopback allow_insecure release_build : bool) : result bool Error :=
  if release_build then
    if allow_insecure then
      Err (Internal "--ca-insecure / caInsecure is a development escape hatch and is not available in release builds; configure CA mTLS (client cert/key + CA cert)")
    else if negb has_tls_material then
      Err (Internal ("refusing a plaintext gRPC channel to CA endpoint '" +:+ endpoint +:+
        "' in a release build (the loopback exception is debug-only); configure CA mTLS (client cert/key + CA cert)"))
    else Ok false
  else if negb has_tls_material && negb is_loopback && negb allow_insecure then
    Err (Internal ("refusing to open a plaintext gRPC channel to non-loopback CA endpoint '" +:+ endpoint +:+
      "'; configure CA mTLS (client cert/key + CA cert) or set --ca-insecure for development only"))
  else Ok (allow_insecure || is_loopback).

Section client.
Context {HL : EstLib}.

Definition invalid_csr (context : string) (e : string) : Error := InvalidCsr (context +:+ e).
Definition x509_invalid (context : string) (e : X509Error) : Error :=
  InvalidCsr (context +:+ x509_error_to_string e).

Definition convert_subject_to_proto (csr : DerCsr) : result DistinguishedName Error :=
  let? name_der := map_err (invalid_csr "Failed to encode subject DN: ") (dc_subject_der csr) in
  let? name := map_err (invalid_csr "Failed to parse subject DN: ") (name_from_der name_der) in
  map_err (x509_invalid "Failed to extract DN attributes: ") (parse_distinguished_name name.2).

Definition issuance_metadata (enrollment : Uuid) (client_id : string) (extra : list (string * string))
    : gmap string string :=
  foldl (λ m p, <[p.1 := p.2]> m)
    (<["est_client_id" := client_id]> {["est_enrollment_id" := uuid_to_string enrollment]}) extra.

Definition issue_request (enrollment : Uuid) (csr_der : list u8) (client_id profile : string)
    (extra : list (string * string)) : result IssueCertificateRequest Error :=
  let? csr := map_err (invalid_csr "Failed to parse CSR: ") (Csr.der_csr csr_der) in
  let? subject := convert_subject_to_proto csr in
  let? parsed := map_err (x509_invalid "Failed to parse CSR for SANs: ") (parse_csr csr_der) in
  let? public_key := map_err (invalid_csr "Failed to encode public key: ") (dc_spki_der csr) in
  let? requestor := ca_requestor client_id in
  Ok {| rq_profile_name := profile; rq_subject := Some subject;
        rq_subject_alt_names := convert_sans_to_proto (subject_alternative_names parsed);
        rq_public_key := public_key; rq_requestor := requestor;
        rq_metadata := issuance_metadata enrollment client_id extra; rq_csr_der := csr_der;
        rq_request_id := uuid_to_string enrollment |}.

(** [EstRepository::create_enrollment], [mark_enrollment_issued]. *)
Definition create_enrollment (client type : string) (csr : list u8) (status : string)
    : Prog (result EstEnrollment string) :=
  let^ id := call EUuid in
  let^ now := call ENow in
  sql (InsertEnrollment {| e_id := id; client_identifier := client; enrollment_type := type;
    EstStore.csr_der := csr; certificate_id := None; e_status := status; e_profile_name := None;
    e_created_at := now; e_updated_at := now |}).
Definition mark_issued (enrollment cert : Uuid) (profile : string) : Prog (result EstEnrollment string) :=
  let^ now := call ENow in sql (MarkIssued now enrollment cert profile).

Definition enroll (ca : EstCaClient) (enrollment : Uuid) (csr_der : list u8) (client_id profile : string)
    (extra : list (string * string)) : M Uuid :=
  let# request := lift (issue_request enrollment csr_der client_id profile extra) in
  let^ issued := call (EIssue ca request) in
  let# text := lift (map_err (internal "CA service call failed: ") issued) in
  let# cert := lift (ok_or (uuid_parse text) (Internal "Invalid certificate ID from CA")) in
  let^ r := mark_issued enrollment cert profile in
  let# _ := lift (map_err Database r) in
  ret cert.

Fixpoint cms_certificates (certs : list (list u8)) (set : CmsSet) : result CmsSet X509Error :=
  match certs with
  | [] => Ok set
  | der :: certs =>
      let? c :=
        match cms_certificate_from_der der with
        | Ok c => Ok c | Err e => Err (XDer ("invalid certificate DER: " +:+ e))
        end in
      let? set := encoding "too many certificates: " (cms_set_insert c set) in
      cms_certificates certs set
  end.
(** [encode_certs_only_pkcs7] of pkcs7.rs, and of rest.rs. *)
Definition x509_certs_only (certs : list (list u8)) : result (list u8) X509Error :=
  let? set := cms_certificates certs cms_set_new in
  let? content := encoding "failed to encode SignedData: " (cms_signed_data set) in
  encoding "failed to encode PKCS#7: " (cms_content_info content).
Definition encode_certs_only_pkcs7 (certs : list (list u8)) : result (list u8) Error :=
  map_err (λ e, Internal ("PKCS#7 encoding failed: " +:+ x509_error_to_string e)) (x509_certs_only certs).
Definition get_certificate (id : Uuid) : M (list u8) :=
  let# found := try_sql Database (FindCertificate id) in
  let# cert := lift (ok_or found NotFound) in
  lift (encode_certs_only_pkcs7 [c_der_encoded cert]).

(** ** What can be asked for *)

Theorem ca_requestor_spec id r :
  ca_requestor id = Ok r ↔ r = "est::" +:+ id ∧ claimable 3 id.
Proof.
  unfold ca_requestor. change ("est::" +:+ id) with (gc_namespace EST +:+ "::" +:+ id).
  rewrite validate_requestor_claim by done. change (String.length (gc_namespace EST)) with 3%nat.
  case_decide as Hd; split; try done.
  - intros [_ [Hs Hl Hb]]. exfalso. destruct Hd as [?|[?|?]]; [done|lia|done].
  - intros [= <-]. split; [done|]. split; [naive_solver|lia|].
    destruct (decide (Forall (λ c, is_allowed_requestor_byte c = true) (String.list_ascii_of_string id)));
      [done|naive_solver].
  - by intros [-> _].
Qed.
End client.

(** ** Keys that the EST server generates

    [crates/ostrich-x509/src/builder/csr.rs], which builds a certification
    request, and [crates/ostrich-est/src/serverkeygen.rs], which generates a key
    and signs a request with it. *)

Section keygen.
Context {HL : EstLib}.

(** ** Building a request *)

(** The attributes in the order of [dn_to_x509_name]. *)
Definition csr_dn_attributes : list (string * StringKind * string * string *
    (DistinguishedName → option string)) :=
  [("2.5.4.6", Printable, "country", "country", country);
   ("2.5.4.8", Utf8, "DN attribute", "DN attribute", state_or_province);
   ("2.5.4.7", Utf8, "DN attribute", "DN attribute", locality);
   ("2.5.4.10", Utf8, "DN attribute", "DN attribute", organization);
   ("2.5.4.11", Utf8, "DN attribute", "DN attribute", organizational_unit);
   ("2.5.4.3", Utf8, "DN attribute", "DN attribute", common_name);
   ("2.5.4.5", Utf8, "DN attribute", "DN attribute", serial_number)].
Definition dn_to_x509_name : DistinguishedName → result Name X509Error := name_of csr_dn_attributes.

Fixpoint san_names (sans : list CertBuilder.SubjectAltName) : result (list GeneralName) X509Error :=
  match sans with
  | [] => Ok []
  | san :: sans =>
      let? name := general_name san in
      let? names := san_names sans in
      Ok (match name with Some n => n :: names | None => names end)
  end.
Definition san_extension (sans : list CertBuilder.SubjectAltName) : result (option Extension) X509Error :=
  let? names := san_names sans in
  match names with
  | [] => Ok None
  | _ =>
      let? der := encoding "Failed to encode SAN: " (san_to_der names) in
      Ok (Some (extension SUBJECT_ALT_NAME false der))
  end.

Definition build_csr_info_der (subject : DistinguishedName) (spki_der : list u8)
    (sans : list CertBuilder.SubjectAltName) : result (list u8) X509Error :=
  let? name := dn_to_x509_name subject in
  let? spki := encoding "Invalid SubjectPublicKeyInfo: " (spki_try_from spki_der) in
  let? ext := san_extension sans in
  let? attributes :=
    match ext with
    | None => Ok csr_attributes_new
    | Some ext =>
        let? attr := encoding "Failed to build extensionRequest: " (extension_request ext) in
        encoding "Failed to add CSR attribute: " (csr_attributes_insert attr csr_attributes_new)
    end in
  encoding "Failed to encode CertReqInfo: " (csr_info_to_der name spki attributes).

Definition assemble_csr (info_der : list u8) (sig_alg : Algorithm) (signature : list u8)
    : result (list u8) X509Error :=
  let? info := encoding "Failed to re-parse CertReqInfo: " (csr_info_from_der info_der) in
  let? algorithm :=
    match algorithm_identifier debug_algorithm sig_alg with Ok a => Ok a | Err e => Err (XCrypto (crypto_text e)) end in
  let? signature := encoding "Failed to encode signature: " (bit_string_from_bytes signature) in
  encoding "Failed to encode CSR: " (csr_to_der info algorithm signature).

(** ** Generating a key *)

Record ServerKeyGenRequest := {
  kg_subject : DistinguishedName; kg_key_type : KeyType; kg_dns_sans : list string;
  kg_profile_name : string
}.
Record ServerKeyGenMaterial := {
  key_handle : KeyHandle; private_key_pkcs8 : list u8; material_csr_der : list u8
}.

Definition try_call {A} (context : string) (e : EstE (result A string)) : M A :=
  let^ r := call e in lift (map_err (internal context) r).
Definition internal_x509 {A} (context : string) (r : result A X509Error) : result A Error :=
  map_err (λ e, Internal (context +:+ x509_error_to_string e)) r.
Definition internal_crypto {A} (context : string) (r : result A CryptoErr) : result A Error :=
  map_err (λ e, Internal (context +:+ crypto_text e)) r.

(** The key stays in the provider when a later step fails. *)
Definition generate_key_pair_for_client (request : ServerKeyGenRequest) (client_id : string)
    : M ServerKeyGenMaterial :=
  let^ label := call EUuid in
  let# key := try_call "Key generation failed: "
    (EGenerateKey (kg_key_type request) ("est-serverkeygen-" +:+ uuid_to_string label) true) in
  let# spki := try_call "Public key export failed: " (EExportPublic key) in
  let# private := try_call "Private key export failed (key type unsupported?): " (EExportPrivate key) in
  let# alg := lift (internal_crypto "No signature algorithm for key type: "
    (recommended_signature_algorithm debug_key (kg_key_type request))) in
  let# info := lift (internal_x509 "CSR construction failed: "
    (build_csr_info_der (kg_subject request) spki (SanDns <$> kg_dns_sans request))) in
  let# raw := try_call "CSR signing failed: " (ESign key alg info) in
  let# sig := lift (internal_crypto "CSR signature encoding failed: " (encode_x509_signature debug_length alg raw)) in
  let# csr := lift (internal_x509 "CSR assembly failed: " (assemble_csr info alg sig)) in
  let# _ := try_call "Audit logging failed: " (ERecord
    {| ce_type := AuditLog.KeyGeneration; ce_actor := client_id; ce_target := "est-serverkeygen";
       ce_action := "server_side_key_generation"; ce_outcome := AuditLog.Success;
       ce_details := <["subject" := DStr (to_string_rfc4514 (kg_subject request))]>
         (<["key_type" := DStr (debug_key (kg_key_type request))]>
         {["profile" := DStr (kg_profile_name request)]}) |}) in
  ret {| key_handle := key; private_key_pkcs8 := private; material_csr_der := csr |}.
End keygen.
