(* ===== verification/EstServer.v ===== *)
(** * The EST server

    The handlers of [crates/ostrich-est/src/rest.rs], with the middleware that
    authenticates and authorizes them, as programs: the CA's certificates, CSR
    attributes and the catalog; enrollment, re-enrollment and server-side key
    generation, with what they do to the enrollment token that authenticated
    them; the management of tokens and of allowed identities.  The arguments of
    a route are its path's parts, decoded; a JSON body is decoded unless the
    source does it itself. *)
From stdpp Require Import base strings list gmap pretty.
From Stdlib Require Import Ascii ZArith Lia.
From S2P Require Import Prelude Text Programs Algorithm Roles X509Names Csr CertParser CaStore CaCore GrpcIdentity EstStore EstCore EstPolicy EstClient EstAuth.
From S2P Require AuditLog EstLabel CertParser CertBuilder.
#[local] Open Scope Z_scope.

(** ** Configuration *)

Inductive EstAuthMode := BearerToken | Mtls | MtlsWithBasicFallback | MtlsWithTokenBootstrap.
Inductive EstIdentityPolicy := MatchUsername | AccountAllowList.
Record CaBackend := { cb_client : EstCaClient; certificate_der : option (list u8) }.
Record LabelRoutingConfig := { algo_backends : gmap string string; default_backend : string }.
Record EstState := {
  auth_provider : AuthProvider; rbac_policy : RbacPolicy; ca_client : option EstCaClient;
  ca_certificate_der : option (list u8); enroll_profile : string; auth_mode : EstAuthMode;
  identity_policy : EstIdentityPolicy; trusted_proxy : option TrustedProxyConfig;
  ca_backends : gmap string CaBackend; label_routing : option LabelRoutingConfig
}.
Record ResolvedEnrollment := {
  client : EstCaClient; profile : string; key_algo : option EstLabel.KeyAlgo;
  validity_days : option Z; ccsa : option string
}.
Definition label_metadata (r : ResolvedEnrollment) : list (string * string) :=
  match ccsa r with Some cc => [("ccsa", cc)] | None => [] end ++
  match validity_days r with Some v => [("requested_validity_days", pretty v)] | None => [] end.

Definition CRLF : string := String (ascii_of_N 13) (String (ascii_of_N 10) "").
(** [chars().take(n)]. *)
Fixpoint take_chars (n : nat) (s : string) : string :=
  match s with
  | EmptyString => ""
  | String c s =>
      if (N.shiftr (N_of_ascii c) 6 =? 2)%N then String c (take_chars n s)
      else match n with O => "" | S n => String c (take_chars n s) end
  end.

Section server.
Context {HL : EstLib}.
Variable st : EstState.

(** ** Audit *)

Definition audit_event (type : AuditLog.EventType) (actor target action : string)
    (outcome : AuditLog.EventOutcome) (details : gmap string Detail) : CaEvent :=
  {| ce_type := type; ce_actor := actor; ce_target := target; ce_action := action;
     ce_outcome := outcome; ce_details := details |}.
Definition emit_enrollment_audit (actor : string) (enrollment : Uuid) (action : string)
    (outcome : AuditLog.EventOutcome) : Prog unit :=
  record (audit_event AuditLog.CertificateIssuance actor
    ("est:enrollment:" +:+ uuid_to_string enrollment) action outcome ∅).
Definition emit_failure_audit (actor resource action : string) : Prog unit :=
  record (audit_event AuditLog.AccessViolation actor resource action AuditLog.Failure ∅).
Definition emit_config_change_audit (actor account action identity : string)
    (outcome : AuditLog.EventOutcome) : Prog unit :=
  record (audit_event AuditLog.ConfigurationChange actor
    ("est:account:" +:+ account +:+ ":identities") action outcome
    (<["account" := DStr account]> {["identity" := DStr identity]})).
(** A failure that is audited and answered. *)
Definition deny {A} (actor resource action : string) (e : Error) : M A :=
  let^ _ := emit_failure_audit actor resource action in fail e.
(** The same of an enrollment. *)
Definition deny_enrollment {A} (actor : string) (enrollment : Uuid) (action : string) (e : Error) : M A :=
  let^ _ := emit_enrollment_audit actor enrollment action AuditLog.Failure in fail e.
(** [match .. { Ok(x) => x, Err(e) => { .. return Err(e) } }]. *)
Definition on_error {A} (m : M A) (handler : Error → M A) : M A :=
  let^ r := m in match r with Ok x => ret x | Err e => handler e end.

Definition reject_unissuable_client_id (client_id resource : string) : M unit :=
  match ca_requestor client_id with
  | Ok _ => ret tt
  | Err e =>
      deny (escape_debug (take_chars 300 client_id)) resource "client_identifier_not_issuable" e
  end.

(** ** The enrollment token of a client *)

(** The principal's id is that of its token. *)
Definition token_of (user : AuthenticatedUser) : option Uuid :=
  if has_role user EstEnrollee then Some (user_id user) else None.

Definition enforce_token_profile_pin (user : AuthenticatedUser) (requested : string) : M unit :=
  match token_of user with
  | None => ret tt
  | Some token =>
      let# pinned := try_sql Database (TokenProfile token) in
      match pinned with
      | Some pinned =>
          if bool_decide (pinned = requested) then ret tt
          else fail (Forbidden ("enrollment token is pinned to profile '" +:+ pinned +:+
                                "'; label requests '" +:+ requested +:+ "'"))
      | None => ret tt
      end
  end.
Definition reserve_enrollment_token_if_present (user : AuthenticatedUser) : M unit :=
  match token_of user with
  | None => ret tt
  | Some token =>
      let# spent := try_sql Database (ConsumeToken token None) in
      if spent then ret tt
      else fail (Forbidden "enrollment token has no remaining uses or has expired")
  end.
Definition refund_enrollment_token_if_present (user : AuthenticatedUser) : Prog unit :=
  match token_of user with
  | None => Done tt
  | Some token => let^ _ := sql (RefundToken token) in Done tt
  end.
Definition audit_consumption (user : AuthenticatedUser) (token cert : Uuid) (done : bool) : Prog unit :=
  record (audit_event AuditLog.ConfigurationChange (username user) "est:enrollment-tokens"
    "consume_est_token" (if done then AuditLog.Success else AuditLog.Failure)
    (<["identity" := DStr (username user)]> (<["token_id" := DStr (uuid_to_string token)]>
      {["certificate_id" := DStr (uuid_to_string cert)]}))).
Definition finalize_enrollment_token_if_present (user : AuthenticatedUser) (cert : Uuid) : Prog unit :=
  match token_of user with
  | None => Done tt
  | Some token =>
      let^ r := sql (RecordTokenCert token cert) in audit_consumption user token cert (is_ok r)
  end.
Definition consume_enrollment_token_if_present (user : AuthenticatedUser) (cert : Uuid) : Prog unit :=
  match token_of user with
  | None => Done tt
  | Some token =>
      let^ r := sql (ConsumeToken token (Some cert)) in
      audit_consumption user token cert (match r with Ok spent => spent | Err _ => false end)
  end.
Definition resolve_enroll_profile (user : AuthenticatedUser) : Prog string :=
  match token_of user with
  | None => Done (enroll_profile st)
  | Some token =>
      let^ r := sql (TokenProfile token) in
      Done (match r with
            | Ok (Some p) => if offerable p then p else enroll_profile st
            | _ => enroll_profile st
            end)
  end.

(** ** Where a label leads *)

Definition parse_label (raw : string) : result EstLabel.ParsedLabel Error :=
  map_err (λ e, BadRequest ("invalid EST label: " +:+ EstLabel.label_error_to_string e))
    (EstLabel.parse_label raw).
Definition select_backend (parsed : EstLabel.ParsedLabel) : result CaBackend Error :=
  let? routing := ok_or (label_routing st) (BadRequest "labeled EST enrollment is not configured") in
  let? name :=
    match EstLabel.key_algo parsed with
    | Some algo => ok_or (algo_backends routing !! EstLabel.token algo)
        (BadRequest ("no CA backend is configured for key algorithm '" +:+ EstLabel.token algo +:+ "'"))
    | None => Ok (default_backend routing)
    end in
  ok_or (ca_backends st !! name) (Internal ("no CA backend configured for '" +:+ name +:+ "'")).

Definition resolve_enrollment (label : option string) (user : AuthenticatedUser) : M ResolvedEnrollment :=
  match label with
  | None =>
      let# ca := lift (ok_or (ca_client st) (Internal "EST CA integration not configured")) in
      let^ p := resolve_enroll_profile user in
      ret {| client := ca; profile := p; key_algo := None; validity_days := None; ccsa := None |}
  | Some raw =>
      let# parsed := lift (parse_label raw) in
      let# p := lift (map_err (λ e, BadRequest (EstLabel.label_error_to_string e))
                       (EstLabel.profile_name parsed)) in
      let# _ := enforce_token_profile_pin user p in
      let# backend := lift (select_backend parsed) in
      ret {| client := cb_client backend; profile := p; key_algo := EstLabel.key_algo parsed;
             validity_days := EstLabel.validity_days parsed; ccsa := EstLabel.ccsa parsed |}
  end.
Definition resolve_ca_certificate (label : option string) : result (option (list u8)) Error :=
  match label with
  | None => Ok (ca_certificate_der st)
  | Some raw =>
      let? parsed := parse_label raw in
      let? backend := select_backend parsed in
      Ok (certificate_der backend)
  end.

(** ** Public information *)

Definition get_ca_certs (label : option string) : result Response Error :=
  let? cert := resolve_ca_certificate label in
  let? der := encode_certs_only_pkcs7 (option_list cert) in
  Ok (respond 200 [("content-type", "application/pkcs7-mime")] (BBytes der)).
Definition get_csr_attrs : Response := respond 200 [("content-type", "application/csrattrs")] (BBytes []).
Definition get_catalog : EstLabel.EstCatalog :=
  EstLabel.catalog
    (match label_routing st with Some r => (map_to_list (algo_backends r)).*1 | None => [] end)
    (EstLabel.is_some (label_routing st)) (enroll_profile st).

(** ** Enrollment *)

Definition identity_authorized (user : AuthenticatedUser) (cn : option string) (sans : list string) : M bool :=
  if has_role user EstEnrollee then ret (enrollee_matches (username user) cn sans)
  else
    match identity_policy st with
    | MatchUsername => ret (csr_identity_matches_principal (username user) cn sans)
    | AccountAllowList =>
        match csr_asserted_identities cn sans with
        | [] => ret false
        | _ =>
            let# allowed := try_sql (internal "Failed to load account allow-list: ")
              (ListIdentities (username user)) in
            ret (all_allowed allowed cn sans)
        end
    end.

(** A request of at least ten octets, in base64. *)
Definition decode_body (client_id resource : string) (body : list u8) : M (list u8) :=
  match base64_decode body with
  | Some der =>
      if (10 <=? length der)%nat then ret der
      else deny client_id resource "invalid_csr_encoding" (BadRequest "Invalid or too-short CSR")
  | None => deny client_id resource "invalid_csr_encoding" (BadRequest "Invalid or too-short CSR")
  end.
(** The CSR of a client that has its key. *)
Definition proven_csr (client_id resource : string) (body : list u8) : M (list u8 * ParsedCsr) :=
  let# der := decode_body client_id resource body in
  let# parsed :=
    match parse_csr der with
    | Ok c => ret c
    | Err e => deny client_id resource "csr_parse_failed" (x509_invalid "Failed to parse CSR: " e)
    end in
  let# valid := lift (map_err (x509_invalid "CSR signature verification failed: ")
                       (verify_csr_signature verify_text parsed)) in
  if valid : bool then ret (der, parsed)
  else deny client_id resource "csr_pop_failed" (InvalidCsr "Invalid CSR signature").

(** The certificate that was issued, as the answer. *)
Definition certificate_response (client_id : string) (enrollment cert : Uuid) (action missing : string)
    : M Response :=
  let# found := try_sql Database (FindCertificate cert) in
  let# certificate := lift (ok_or found (Internal missing)) in
  let# pkcs7 := lift (encode_certs_only_pkcs7 [c_der_encoded certificate]) in
  let^ _ := emit_enrollment_audit client_id enrollment action AuditLog.Success in
  ret (respond 200 [("content-type", "application/pkcs7-mime");
                    ("location", "/est/enrollments/" +:+ uuid_to_string enrollment)]
        (BText (base64_encode pkcs7))).

Definition new_enrollment (context client_id type : string) (csr : list u8) : M EstEnrollment :=
  let^ r := create_enrollment client_id type csr "pending" in lift (map_err (internal context) r).

(** What follows the checks: the token's use is reserved before the CA is
    asked, and refunded when that fails. *)
Definition issue_enrollment (user : AuthenticatedUser) (label : option string) (csr : list u8) : M Response :=
  let client_id := username user in
  let# enrollment := new_enrollment "Failed to create enrollment: " client_id "simple-enroll" csr in
  let denied {A} (e : Error) : M A := deny_enrollment client_id (e_id enrollment) "simpleenroll" e in
  let# resolved := on_error (resolve_enrollment label user) denied in
  let# _ := on_error (reserve_enrollment_token_if_present user) denied in
  let# cert := on_error
    (enroll (client resolved) (e_id enrollment) csr client_id (profile resolved) (label_metadata resolved))
    (λ e, let^ _ := refund_enrollment_token_if_present user in denied e) in
  let^ _ := finalize_enrollment_token_if_present user cert in
  certificate_response client_id (e_id enrollment) cert "simpleenroll" "Issued certificate not found".

Definition simple_enroll (user : AuthenticatedUser) (label : option string) (body : list u8) : M Response :=
  let client_id := username user in
  let# _ := reject_unissuable_client_id client_id "est:enroll" in
  let# csr := proven_csr client_id "est:enroll" body in
  let cn := match parse_csr_subject_dn csr.1 with Ok dn => common_name dn | Err _ => None end in
  let# bound := identity_authorized user cn (subject_alternative_names csr.2) in
  if bound : bool then issue_enrollment user label csr.1
  else deny client_id "est:enroll" "identity_not_bound"
    (Forbidden "CSR subject CN or a SAN must match the authenticated client identity").

(** *** Renewal *)

(** The loop over the client's earlier enrollments: whether one of them has a
    certificate, whether one has that of the request, and the profile. *)
Definition renews (requested_subject : string) (requested_sans : list string) (cert : EstStore.Certificate) : bool :=
  match parse_certificate (c_der_encoded cert) with
  | Ok prior =>
      bool_decide (trim (Pathval.subject_dn prior) = requested_subject) &&
      bool_decide (normalize_san_set (Pathval.subject_alt_names prior) = requested_sans)
  | Err _ => false
  end.
Fixpoint prior_certificates (subject : string) (sans : list string) (prior : list EstEnrollment)
    (found : bool * bool * option string) : M (bool * bool * option string) :=
  match prior with
  | [] => ret found
  | e :: prior =>
      match certificate_id e with
      | None => prior_certificates subject sans prior found
      | Some cert_id =>
          let# cert := try_sql (internal "Failed to load prior certificate: ") (FindCertificate cert_id) in
          let matched := match cert with Some c => renews subject sans c | None => false end in
          prior_certificates subject sans prior
            (true, found.1.2 || matched,
             if matched then broadest_est_profile found.2 (e_profile_name e) else found.2)
      end
  end.
(** The prior profile, when it can be offered, or the resolved one. *)
Definition renewal_profile (prior : option string) (resolved : string) : string :=
  match prior with Some p => if offerable p then p else resolved | None => resolved end.

Definition issue_renewal (user : AuthenticatedUser) (label : option string) (csr : list u8)
    (prior_profile : option string) : M Response :=
  let client_id := username user in
  let# enrollment := new_enrollment "Failed to create re-enrollment: " client_id "simple-reenroll" csr in
  let denied {A} (e : Error) : M A := deny_enrollment client_id (e_id enrollment) "simplereenroll" e in
  let# resolved := on_error (resolve_enrollment label user) denied in
  let# cert := on_error
    (enroll (client resolved) (e_id enrollment) csr client_id
      (renewal_profile prior_profile (profile resolved)) (label_metadata resolved)) denied in
  certificate_response client_id (e_id enrollment) cert "simplereenroll" "Re-issued certificate not found".

Definition simple_reenroll (user : AuthenticatedUser) (label : option string) (body : list u8) : M Response :=
  let client_id := username user in
  let# _ := reject_unissuable_client_id client_id "est:reenroll" in
  let# csr := proven_csr client_id "est:reenroll" body in
  let subject := trim (Csr.subject_dn csr.2) in
  let sans := normalize_san_set (subject_alternative_names csr.2) in
  let# prior := try_sql (internal "Failed to load prior enrollments: ") (ListEnrollments client_id) in
  let# found := prior_certificates subject sans prior (false, false, None) in
  if found.1.2 : bool then issue_renewal user label csr.1 found.2
  else
    let why := if found.1.1 : bool
      then "CSR subject/SANs do not match any certificate previously issued to this client"
      else "no existing certificate to renew for this client" in
    deny client_id "est:reenroll" "reenroll_subject_mismatch"
      (Forbidden ("re-enrollment denied: " +:+ why +:+ " (RFC 7030 §4.2.2)")).

(** *** Server-side keys *)

Definition KEYGEN : string := "est:serverkeygen".
(** [eq_ignore_ascii_case] of the media type. *)
Definition is_json (rq : HttpRequest) : bool :=
  match header "content-type" rq with
  | Some ct => bool_decide (to_ascii_lowercase (trim (before_first ";" ct)) = "application/json")
  | None => false
  end.
Definition efs_request (client_id : string) (efs : bool) (body : list u8)
    : M (DistinguishedName * list string) :=
  if negb efs then
    deny client_id KEYGEN "structured_input_non_efs"
      (BadRequest "structured (JSON) server-side key generation is only supported for the EFS profile")
  else
    match efs_from_slice body with
    | Err e => deny client_id KEYGEN "invalid_efs_request"
        (BadRequest ("invalid EFS server-keygen request: " +:+ e))
    | Ok req =>
        let subject := set_attribute "2.5.4.3" client_id no_name in
        match key_strength req with
        | Some bits =>
            if bits =? 2048 then ret (subject, sans req)
            else deny client_id KEYGEN "unsupported_key_strength"
              (BadRequest ("EFS server-side key generation supports only RSA-2048 (requested " +:+ pretty bits +:+ ")"))
        | None => ret (subject, sans req)
        end
    end.
Definition csr_request (client_id : string) (body : list u8) : M (DistinguishedName * list string) :=
  let# der := decode_body client_id KEYGEN body in
  match parse_csr der with
  | Err e => deny client_id KEYGEN "csr_parse_failed" (x509_invalid "Failed to parse serverkeygen CSR: " e)
  | Ok parsed =>
      let# subject := lift (map_err (x509_invalid "Failed to parse CSR subject: ") (parse_csr_subject_dn der)) in
      ret (subject, subject_alternative_names parsed)
  end.

Definition efs_response (cert : EstStore.Certificate) (id : Uuid) (key : list u8) : M Response :=
  let^ bytes := call (ERandom 18) in
  let password := base64url_encode bytes in
  let# pkcs12 := try_call "PKCS#12 assembly failed: " (EPkcs12 key (c_der_encoded cert) password) in
  ret (respond 200 [("content-type", "application/json")]
    (BJson (JObject [("format", JString "pkcs12"); ("certificateId", JString (uuid_to_string id));
                     ("pkcs12", JString (base64_encode pkcs12)); ("password", JString password)]))).
Definition BOUNDARY : string := "estServerKeyGenBoundary".
Definition multipart_body (key cert : string) : string :=
  String.concat CRLF ["--" +:+ BOUNDARY; "Content-Type: application/pkcs8";
    "Content-Transfer-Encoding: base64"; ""; key; "--" +:+ BOUNDARY;
    "Content-Type: application/pkcs7-mime; smime-type=certs-only";
    "Content-Transfer-Encoding: base64"; ""; cert; "--" +:+ BOUNDARY +:+ "--"; ""].
Definition multipart_response (cert : EstStore.Certificate) (key : list u8) : result Response Error :=
  let? pkcs7 := map_err (λ e, Internal ("PKCS#7 encoding failed: " +:+ error_to_string e))
    (encode_certs_only_pkcs7 [c_der_encoded cert]) in
  Ok (respond 200 [("content-type", "multipart/mixed; boundary=" +:+ quoted BOUNDARY)]
    (BText (multipart_body (base64_encode key) (base64_encode pkcs7)))).

(** What follows the checks: the key is destroyed once the CA answered, and
    the token's use is spent after that. *)
Definition issue_server_key (user : AuthenticatedUser) (resolved : ResolvedEnrollment)
    (subject : DistinguishedName) (sans : list string) : M Response :=
  let client_id := username user in
  let efs := is_efs (profile resolved) in
  let# material := generate_key_pair_for_client
    {| kg_subject := subject; kg_key_type := if efs then Rsa2048 else EcP256;
       kg_dns_sans := omap (strip_prefix "DNS:") sans; kg_profile_name := profile resolved |} client_id in
  let# enrollment := new_enrollment "Failed to create enrollment: " client_id "server-keygen"
    (material_csr_der material) in
  let^ issued := enroll (client resolved) (e_id enrollment) (material_csr_der material) client_id
    (profile resolved) (label_metadata resolved) in
  let^ _ := call (EDestroyKey (key_handle material)) in
  let# id := on_error (lift issued) (deny_enrollment client_id (e_id enrollment) "serverkeygen") in
  let^ _ := consume_enrollment_token_if_present user id in
  let# found := try_sql (internal "Failed to load issued certificate: ") (FindCertificate id) in
  let# cert := lift (ok_or found (Internal "Issued certificate not found")) in
  let# response :=
    if efs then efs_response cert id (private_key_pkcs8 material)
    else lift (multipart_response cert (private_key_pkcs8 material)) in
  let^ _ := emit_enrollment_audit client_id (e_id enrollment) "serverkeygen" AuditLog.Success in
  ret response.

Definition server_key_gen (user : AuthenticatedUser) (label : option string) (rq : HttpRequest) : M Response :=
  let client_id := username user in
  let# _ := reject_unissuable_client_id client_id KEYGEN in
  let# resolved := on_error (resolve_enrollment label user) (deny client_id KEYGEN "ca_not_configured") in
  match key_algo resolved with
  | Some algo =>
      deny client_id KEYGEN "serverkeygen_keyalgo_unsupported"
        (BadRequest ("server-side key generation does not support a label-requested key algorithm '" +:+
                     EstLabel.token algo +:+ "' yet"))
  | None =>
      let# asked := if is_json rq then efs_request client_id (is_efs (profile resolved)) (body rq)
                    else csr_request client_id (body rq) in
      let# bound := identity_authorized user (common_name asked.1) asked.2 in
      if bound : bool then issue_server_key user resolved asked.1 asked.2
      else deny client_id KEYGEN "identity_not_bound"
        (Forbidden "subject CN or a SAN must match the authenticated client identity")
  end.
End server.
