(* ===== verification/EstApi.v ===== *)
(** * The management of the EST server, and its routes

    The rest of [crates/ostrich-est/src/rest.rs]: enrollment tokens are minted,
    listed and revoked; an account's allowed identities are listed, added and
    removed; and the router, which authenticates a request in the way of the
    configuration before it authorizes it.  [services/est-server/src/main.rs]
    composes the providers for each way. *)
From stdpp Require Import base strings list gmap pretty.
From Stdlib Require Import Ascii ZArith Lia.
From S2P Require Import Prelude Text Programs Roles CaStore CaCore EstStore EstCore EstPolicy EstClient EstAuth EstServer.
From S2P Require AuditLog EstLabel.
#[local] Open Scope Z_scope.

Abbreviation LM A := (Programs.Prog EstE (result A AuthResponse)).

Record MintEnrollmentTokenRequest := {
  mt_identity : string; ttl_seconds : option Z; mt_profile : option string; mt_max_uses : option Z
}.
Record EnrollmentTokenSummaryDto := {
  ts_id : string; ts_identity : string; ts_created_by : string; ts_created_at : string;
  ts_expires_at : string; ts_status : string; ts_max_uses : Z; ts_uses_remaining : Z
}.

Definition MIN_TTL : Z := 60.
Definition MAX_TTL : Z := 7 * 24 * 3600.
Definition DEFAULT_TTL : Z := 3600.
Definition MAX_USE_BUDGET : Z := 1000.
Definition clamp (low high n : Z) : Z := Z.max low (Z.min high n).

(** [None] when no profile is asked for; an error has the profile. *)
Definition token_profile (asked : option string) : result (option string) string :=
  match trim <$> asked with
  | None => Ok None
  | Some p =>
      if bool_decide (p = "") then Ok None else if offerable p then Ok (Some p) else Err p
  end.

(** [live | used | revoked | expired]. *)
Definition token_status (now : DateTime) (t : EstEnrollmentTokenRow) : string :=
  if EstLabel.is_some (revoked_at t) then "revoked"
  else if uses_remaining t <=? 0 then "used"
  else if expires_at t <=? now then "expired"
  else "live".

Definition enrollment_token_owner_scope (user : AuthenticatedUser) : option string :=
  let is_npe_sponsor := has_any_role user [PkiSponsor; PkiSponsorAdmin] in
  let has_global_oversight := has_any_role user [Administrator; OperationsStaff] ||
    any_role_has_permission (roles user) ApproveRequest in
  if is_npe_sponsor && negb has_global_oversight then Some (username user) else None.

Section api.
Context {HL : EstLib}.
Variable st : EstState.

Definition TOKENS : string := "est:enrollment-tokens".
Definition authorize_token_mgmt (user : AuthenticatedUser) (action : string) : M unit :=
  if permitted (rbac_policy st) user GenerateEstToken "est-enrollment-tokens" then ret tt
  else deny (username user) TOKENS (action +:+ "_denied") (Forbidden "insufficient permission").
Definition json_string (s : option string) : Detail := match s with Some s => DStr s | None => DNull end.

Definition create_enrollment_token (user : AuthenticatedUser) (req : MintEnrollmentTokenRequest) : M Response :=
  let# _ := authorize_token_mgmt user "generate_est_token" in
  let# identity := lift (map_err BadRequest (validate_identity (mt_identity req))) in
  let# profile :=
    match token_profile (mt_profile req) with
    | Ok p => ret p
    | Err p => deny (username user) TOKENS "generate_est_token_invalid_profile"
                 (BadRequest ("unknown certificate profile '" +:+ p +:+ "'"))
    end in
  let ttl := clamp MIN_TTL MAX_TTL (default DEFAULT_TTL (ttl_seconds req)) in
  let^ now := call ENow in
  let expires := now + seconds ttl in
  let uses := clamp 1 MAX_USE_BUDGET (default 1 (mt_max_uses req)) in
  let^ bytes := call (ERandom 32) in
  let token := base64url_encode bytes in
  let^ id := call EUuid in
  let^ r := sql (InsertToken id (hash_token token) identity profile (username user) expires uses) in
  let^ _ := record (audit_event AuditLog.ConfigurationChange (username user) TOKENS "generate_est_token"
    (if is_ok r then AuditLog.Success else AuditLog.Failure)
    (<["identity" := DStr identity]> (<["ttl_seconds" := DInt ttl]>
      (<["token_id" := DStr (uuid_to_string id)]> (<["profile" := json_string profile]>
        {["max_uses" := DInt uses]}))))) in
  if negb (is_ok r) then fail (Internal "Failed to store enrollment token")
  else ret (respond 201 [] (BJson (JObject [("token", JString token); ("identity", JString identity);
    ("expiresAt", JString (to_rfc3339 expires)); ("expiresInSeconds", JNumber (pretty ttl));
    ("maxUses", JNumber (pretty uses))]))).

Definition token_summary (now : DateTime) (t : EstEnrollmentTokenRow) : EnrollmentTokenSummaryDto :=
  {| ts_id := uuid_to_string (t_id t); ts_identity := t_identity t; ts_created_by := created_by t;
     ts_created_at := to_rfc3339 (t_created_at t); ts_expires_at := to_rfc3339 (expires_at t);
     ts_status := token_status now t; ts_max_uses := max_uses t; ts_uses_remaining := uses_remaining t |}.
Definition list_enrollment_tokens (user : AuthenticatedUser) : M (list EnrollmentTokenSummaryDto) :=
  let# _ := authorize_token_mgmt user "list_est_tokens" in
  let# rows := try_sql (internal "Failed to list enrollment tokens: ")
    (ListTokens (enrollment_token_owner_scope user) 200) in
  let^ now := call ENow in
  ret (token_summary now <$> rows).

Definition revoke_enrollment_token (user : AuthenticatedUser) (id : string) : M Response :=
  let# _ := authorize_token_mgmt user "revoke_est_token" in
  match uuid_parse id with
  | None => ret (respond 400 [] (BText "invalid token id"))
  | Some token =>
      let# revoked := try_sql (internal "Failed to revoke enrollment token: ")
        (RevokeToken token (enrollment_token_owner_scope user)) in
      let^ _ := record (audit_event AuditLog.ConfigurationChange (username user) TOKENS "revoke_est_token"
        (if revoked : bool then AuditLog.Success else AuditLog.Failure)
        (<["token_id" := DStr (uuid_to_string token)]> {["revoked" := DBool revoked]})) in
      ret (if revoked : bool then respond 200 [] (BJson (JObject [("revoked", JBool true)]))
           else respond 404 [] (BText "no live token with that id"))
  end.

(** ** Allowed identities *)

Definition authorize_admin (user : AuthenticatedUser) (p : Permission) (account action : string) : M unit :=
  if permitted (rbac_policy st) user p "est-account-identities" then ret tt
  else deny (username user) ("est:account:" +:+ account +:+ ":identities") (action +:+ "_denied")
         (Forbidden "insufficient permission").
Definition list_account_identities (user : AuthenticatedUser) (account : string) : M (list string) :=
  let# _ := authorize_admin user ViewConfig account "list_allowed_identities" in
  try_sql (internal "Failed to list allowed identities: ") (ListIdentities account).
(** A change of the list, which is audited either way. *)
Definition audited_change {A} (user : AuthenticatedUser) (account action identity context : string)
    (s : Stmt A) (kept : A → bool) : M A :=
  let^ r := sql s in
  match r with
  | Err e =>
      let^ _ := emit_config_change_audit (username user) account action identity AuditLog.Failure in
      fail (Internal (context +:+ e))
  | Ok x =>
      if kept x then
        let^ _ := emit_config_change_audit (username user) account action identity AuditLog.Success in ret x
      else fail NotFound
  end.
Definition add_account_identity (user : AuthenticatedUser) (account identity : string) : M Response :=
  let# _ := authorize_admin user ModifyConfig account "add_allowed_identity" in
  let# identity := lift (map_err BadRequest (validate_identity identity)) in
  let# _ := audited_change user account "add_allowed_identity" identity
    "Failed to add allowed identity: " (AddIdentity account identity) (λ _, true) in
  ret (respond 201 [] (BJson (JObject [("account", JString account); ("identity", JString identity)]))).
Definition delete_account_identity (user : AuthenticatedUser) (account identity : string) : M Response :=
  let# _ := authorize_admin user ModifyConfig account "remove_allowed_identity" in
  let identity := normalize_identity identity in
  let# _ := audited_change user account "remove_allowed_identity" identity
    "Failed to remove allowed identity: " (RemoveIdentity account identity) (λ removed, removed) in
  ret (respond 204 [] BEmpty).

(** ** Routes *)

Inductive EstCall :=
| CaCertsCall (label : option string) | CsrAttrsCall | CatalogCall
| SimpleEnrollCall (label : option string) | SimpleReenrollCall (label : option string)
| ServerKeygenCall (label : option string)
| ListIdentitiesCall (account : string) | AddIdentityCall (account identity : string)
| DeleteIdentityCall (account identity : string)
| MintTokenCall (req : MintEnrollmentTokenRequest) | ListTokensCall | RevokeTokenCall (id : string).

(** What the layers of a route found wrong is an answer too. *)
Definition answered (m : M Response) : Prog Response :=
  let^ r := m in Done (match r with Ok resp => resp | Err e => error_response e end).
Definition when_authenticated (m : LM AuthenticatedUser) (f : AuthenticatedUser → Prog Response) : Prog Response :=
  let^ r := m in match r with Ok user => f user | Err e => Done (auth_response e) end.

Definition protected_layer (rq : HttpRequest) : LM AuthenticatedUser :=
  match auth_mode st with
  | Mtls => mtls_layer (auth_provider st) rq
  | MtlsWithBasicFallback => mtls_or_basic_layer (auth_provider st) rq
  | BearerToken => bearer_layer (enrollment_token_provider (auth_provider st)) rq
  | MtlsWithTokenBootstrap => mtls_or_bearer_layer (enrollment_token_provider (auth_provider st)) rq
  end.
Definition admin_layer (rq : HttpRequest) : LM AuthenticatedUser :=
  match trusted_proxy st, auth_mode st with
  | Some cfg, BearerToken => trusted_proxy_layer (auth_provider st) cfg rq
  | _, Mtls => mtls_layer (auth_provider st) rq
  | _, MtlsWithBasicFallback => mtls_or_basic_layer (auth_provider st) rq
  | _, BearerToken => bearer_layer (auth_provider st) rq
  | _, MtlsWithTokenBootstrap => mtls_or_bearer_layer (auth_provider st) rq
  end.

(** [DefaultBodyLimit::max(64 * 1024)], where the body is read. *)
Definition MAX_BODY : nat := 64 * 1024.
Definition protected (rq : HttpRequest) (p : Permission) (resource : string)
    (handler : AuthenticatedUser → M Response) : Prog Response :=
  when_authenticated (protected_layer rq) (λ user,
    match authz_layer (rbac_policy st) p resource user with
    | Err e => Done (auth_response e)
    | Ok _ =>
        if (MAX_BODY <? length (body rq))%nat then Done (respond 413 [] BEmpty)
        else answered (handler user)
    end).
Definition admin (rq : HttpRequest) (handler : AuthenticatedUser → M Response) : Prog Response :=
  when_authenticated (admin_layer rq) (λ user, answered (handler user)).

Definition json_of (t : EnrollmentTokenSummaryDto) : Json :=
  JObject [("id", JString (ts_id t)); ("identity", JString (ts_identity t));
    ("createdBy", JString (ts_created_by t)); ("createdAt", JString (ts_created_at t));
    ("expiresAt", JString (ts_expires_at t)); ("status", JString (ts_status t));
    ("maxUses", JNumber (pretty (ts_max_uses t))); ("usesRemaining", JNumber (pretty (ts_uses_remaining t)))].
Definition catalog_json (c : EstLabel.EstCatalog) : Json :=
  let text := λ s, JString s in
  JObject [("labelFormat", text (EstLabel.ec_label_format c));
    ("labeledEnrollment", JBool (EstLabel.ec_labeled_enrollment c));
    ("defaultProfile", text (EstLabel.ec_default_profile c));
    ("profiles", JArray ((λ p, JObject [("token", text (EstLabel.cp_token p));
       ("profileName", match EstLabel.cp_profile_name p with Some n => text n | None => JNull end);
       ("display", text (EstLabel.cp_display p)); ("description", text (EstLabel.cp_description p));
       ("issuable", JBool (EstLabel.cp_issuable p)); ("serverKeygen", JBool (EstLabel.cp_server_keygen p))])
       <$> EstLabel.ec_profiles c));
    ("keyAlgorithms", JArray ((λ k, JObject [("token", text (EstLabel.ck_token k));
       ("display", text (EstLabel.ck_display k)); ("description", text (EstLabel.ck_description k))])
       <$> EstLabel.ec_key_algorithms c));
    ("maxValidityDays", JNumber (pretty (EstLabel.ec_max_validity_days c)));
    ("maxCcsaLen", JNumber (pretty (Z.of_nat (EstLabel.ec_max_ccsa_len c))));
    ("examples", JArray (text <$> EstLabel.ec_examples c))].

Definition route (rq : HttpRequest) (call : EstCall) : Prog Response :=
  match call with
  | CaCertsCall label =>
      Done (match get_ca_certs st label with Ok r => r | Err e => error_response e end)
  | CsrAttrsCall => Done get_csr_attrs
  | CatalogCall => Done (respond 200 [] (BJson (catalog_json (get_catalog st))))
  | SimpleEnrollCall label => protected rq SubmitRequest "est-enrollment"
      (λ user, simple_enroll st user label (body rq))
  | SimpleReenrollCall label => protected rq RenewCertificate "est-reenrollment"
      (λ user, simple_reenroll st user label (body rq))
  | ServerKeygenCall label => protected rq SubmitRequest "est-serverkeygen"
      (λ user, server_key_gen st user label rq)
  | ListIdentitiesCall account => admin rq (λ user,
      let# ids := list_account_identities user account in
      ret (respond 200 [] (BJson (JObject [("account", JString account);
                                           ("identities", JArray (JString <$> ids))]))))
  | AddIdentityCall account identity => admin rq (λ user, add_account_identity user account identity)
  | DeleteIdentityCall account identity => admin rq (λ user, delete_account_identity user account identity)
  | MintTokenCall req => admin rq (λ user, create_enrollment_token user req)
  | ListTokensCall => admin rq (λ user,
      let# rows := list_enrollment_tokens user in
      ret (respond 200 [] (BJson (JObject [("tokens", JArray (json_of <$> rows))]))))
  | RevokeTokenCall id => admin rq (λ user, revoke_enrollment_token user id)
  end.

(** The providers of est-server for each way to authenticate. *)
Definition password_provider : AuthProvider := account_provider "password" Password.
Definition cert_provider : AuthProvider := account_provider "certificate" Roles.Certificate.
Definition server_provider (mode : EstAuthMode) : AuthProvider :=
  match mode with
  | MtlsWithBasicFallback | MtlsWithTokenBootstrap =>
      composite [device_cert_provider cert_provider; password_provider]
  | Mtls => device_cert_provider cert_provider
  | BearerToken => password_provider
  end.
End api.
