(* ===== verification/EstInv.v ===== *)
(** * The EST server in every run, and its invariant

    The worlds of the server and their steps; what holds in every world: what is known of each enrollment
    token, who minted it, and of each request that was sent to a CA, for whom
    and on which grounds.  Then what the effects keep, and the rules of the
    program logic. *)
From stdpp Require Import base strings list gmap relations.
From Stdlib Require Import ZArith Lia.
From S2P Require Import Prelude Roles Algorithm Signing Programs Credits Text X509Names Csr CertBuilder CaStore CaCore EstStore GrpcIdentity EstCore EstAuth EstPolicy EstClient EstServer EstApi.
From S2P Require EstLabel.
#[local] Open Scope Z_scope.

(** ** Runs

    Any number of EST servers over one database: requests are served
    interleaved, effect by effect, while the clocks advance and the CA changes
    its certificates.  The trace has the requests that came in and every effect
    with its answer. *)

Section world.
Context {HL : EstLib} {HE : OrderDesc e_created_at} {HT : OrderDesc t_created_at}.

Inductive Event :=
| EvRequest (st : EstState) (rq : HttpRequest) (c : EstCall)
| EvDid {X : Type} (e : EstE X) (x : X).
Record World := { wdb : EstDb; w_db_now : DateTime; w_app_now : DateTime; wtrace : list Event }.
Definition with_db (d : EstDb) (w : World) : World :=
  {| wdb := d; w_db_now := w_db_now w; w_app_now := w_app_now w; wtrace := wtrace w |}.
Definition observe (ev : Event) (w : World) : World :=
  {| wdb := wdb w; w_db_now := w_db_now w; w_app_now := w_app_now w; wtrace := wtrace w ++ [ev] |}.
Definition at_time (db app : DateTime) (w : World) : World :=
  {| wdb := wdb w; w_db_now := db; w_app_now := app; wtrace := wtrace w |}.

Definition run_stmt {A} (s : Stmt A) (w : World) : result A string * EstDb :=
  execute (HW := ca_lowercase) s (w_db_now w) (wdb w).
(** What an effect may answer, and the tables it leaves.  A statement may fail
    before or after it took effect. *)
Definition effect (w : World) {X} (e : EstE X) : X → EstDb → Prop :=
  match e in EstE X return X → EstDb → Prop with
  | EStmt s => λ x d,
      (x = (run_stmt s w).1 ∧ d = (run_stmt s w).2) ∨
      (∃ err, x = Err err ∧ (d = wdb w ∨ d = (run_stmt s w).2))
  | ENow => λ x d, x = w_app_now w ∧ d = wdb w
  | ERandom n => λ x d, length x = n ∧ u8_list x ∧ d = wdb w
  | _ => λ _ d, d = wdb w
  end.
Definition answers (w : World) {X} (e : EstE X) (x : X) (w' : World) : Prop :=
  ∃ d, effect w e x d ∧ w' = observe (EvDid e x) (with_db d w).
Definition spawned {X} (e : EstE X) : list (Prog unit) := [].

(** A server authenticates as its main function composes it. *)
Definition configured (st : EstState) : Prop := auth_provider st = server_provider (auth_mode st).
Definition serve (st : EstState) (rq : HttpRequest) (c : EstCall) : Prog unit :=
  let^ _ := route st rq c in Done tt.
Inductive env : World → World → list (Prog unit) → Prop :=
| env_request w st rq c : configured st → env w (observe (EvRequest st rq c) w) [serve st rq c]
| env_tick w db app : w_db_now w ≤ db → w_app_now w ≤ app → env w (at_time db app w) []
| env_ca w cs : env w (with_db (set_certs cs (wdb w)) w) [].

Definition step : World * list (Prog unit) → World * list (Prog unit) → Prop :=
  Programs.step (@answers) (@spawned) env.
Definition runs {A} : Prog A → World * list (Prog unit) → A → World * list (Prog unit) → Prop :=
  Programs.runs (@answers) (@spawned) env.
Definition start (db app : DateTime) : World * list (Prog unit) :=
  ({| wdb := {| enrollments := []; identities := []; tokens := []; certs := [] |};
      w_db_now := db; w_app_now := app; wtrace := [] |}, []).
Definition reachable (s : World * list (Prog unit)) : Prop := ∃ db app, rtc step (start db app) s.

(** Who a request was found to be from, with what was asked to find it. *)
Definition did (w : World) {X} (e : EstE X) (x : X) : Prop := EvDid e x ∈ wtrace w.

Definition presented (rq : HttpRequest) (c : Credentials) : Prop :=
  match c with
  | CertificateCredentials [der] None => peer_certificate rq = Some der
  | PasswordCredentials user password => basic_credentials rq = Some (user, password)
  | _ => False
  end.
Inductive principal (rq : HttpRequest) (user : AuthenticatedUser) (w : World) : Prop :=
| by_account name c : presented rq c → did w (EAuthenticate name c) (Ok user) → principal rq user w
| by_session name token info : bearer_token rq = Some token →
    did w (ESession name token) (Ok info) → user = si_user info → principal rq user w
| by_token token id identity expires now : bearer_token rq = Some token →
    did w (EStmt (FindLiveToken (hash_token token))) (Ok (Some (id, identity, expires))) →
    user = new_user id identity [EstEnrollee] ApiKey now → principal rq user w
| by_device der cert client now now' : peer_certificate rq = Some der →
    did w (EStmt (FindCertificateByDer der)) (Ok (Some cert)) →
    did w (EStmt (FindClient (CaStore.c_id cert))) (Ok (Some client)) →
    CaStore.c_revoked cert = false → did w ENow now → now < CaStore.c_not_after cert →
    user = with_certificate_subject (CaStore.c_subject_dn cert)
      (new_user (CaStore.c_id cert) client [EstDevice] Roles.Certificate now') → principal rq user w.
(** The portal names its user to the management routes. *)
Definition bridged (st : EstState) (rq : HttpRequest) (user : AuthenticatedUser) : Prop :=
  ∃ cfg der subject i now, trusted_proxy st = Some cfg ∧ peer_certificate rq = Some der ∧
    peer_cert_subject der = Some subject ∧ subject ∈ allowed_subjects cfg ∧
    trusted_proxy_identity rq = Some i ∧ user = from_trusted_proxy i.1.1 i.1.2 i.2 now.
Definition administrator (st : EstState) (rq : HttpRequest) (user : AuthenticatedUser) (w : World) : Prop :=
  principal rq user w ∨ bridged st rq user.
End world.

Section invariant.
Context {HL : EstLib} {HE : OrderDesc e_created_at} {HT : OrderDesc t_created_at}.

(** ** What later worlds keep *)

Definition same_token (t t' : EstEnrollmentTokenRow) : Prop :=
  ∃ remaining cert used revoked, t' = set_use remaining cert used revoked t.
Lemma same_token_refl t : same_token t t.
Proof. exists (uses_remaining t), (used_by_cert t), (used_at t), (revoked_at t). by destruct t. Qed.
Lemma same_token_trans t1 t2 t3 : same_token t1 t2 → same_token t2 t3 → same_token t1 t3.
Proof. intros (? & ? & ? & ? & ->) (r & c & u & v & ->). by exists r, c, u, v. Qed.

Definition later (w w' : World) : Prop :=
  wtrace w `prefix_of` wtrace w' ∧
  ∀ t, t ∈ tokens (wdb w) → ∃ t', t' ∈ tokens (wdb w') ∧ same_token t t'.
#[export] Instance est_later_preorder : PreOrder later.
Proof.
  split.
  - intros w. split; [done|]. intros t Ht. exists t. split; [done|apply same_token_refl].
  - intros w1 w2 w3 [A1 B1] [A2 B2]. split; [by etransitivity|].
    intros t (t' & Ht' & S1)%B1. apply B2 in Ht' as (t'' & Ht'' & S2). exists t''.
    split; [done|]. by eapply same_token_trans.
Qed.

Lemma est_trace_kept w w' ev : later w w' → ev ∈ wtrace w → ev ∈ wtrace w'.
Proof. intros [[k ->] _] Hev. apply elem_of_app. by left. Qed.
Lemma did_later {X} (e : EstE X) x w w' : later w w' → did w e x → did w' e x.
Proof. apply est_trace_kept. Qed.
Lemma principal_later rq user w w' : later w w' → principal rq user w → principal rq user w'.
Proof.
  intros Hl []; [eapply by_account|eapply by_session|eapply by_token|eapply by_device];
    try eassumption; eapply did_later; eassumption.
Qed.
Lemma administrator_later st rq user w w' :
  later w w' → administrator st rq user w → administrator st rq user w'.
Proof. intros Hl [Hp|Hb]; [left; by eapply principal_later|by right]. Qed.

(** ** What is known of a token *)

(** Someone who may asked for a token with that identity, profile and number
    of uses. *)
Definition mintable (identity : string) (profile : option string) (by_user : string) (uses : Z)
    (w : World) : Prop :=
  ∃ st rq req user, EvRequest st rq (MintTokenCall req) ∈ wtrace w ∧ administrator st rq user w ∧
    any_role_has_permission (roles user) GenerateEstToken = true ∧ by_user = username user ∧
    validate_identity (mt_identity req) = Ok identity ∧ token_profile (mt_profile req) = Ok profile ∧
    uses = clamp 1 MAX_USE_BUDGET (default 1 (mt_max_uses req)).
Definition minted (t : EstEnrollmentTokenRow) (w : World) : Prop :=
  mintable (t_identity t) (t_profile t) (created_by t) (max_uses t) w.
Lemma mintable_later identity profile by_user uses w w' :
  later w w' → mintable identity profile by_user uses w → mintable identity profile by_user uses w'.
Proof.
  intros Hl (st & rq & req & user & He & Ha & HH).
  exists st, rq, req, user. split; [by eapply est_trace_kept|]. split; [by eapply administrator_later|done].
Qed.
Lemma minted_later t t' w w' : later w w' → same_token t t' → minted t w → minted t' w'.
Proof. intros Hl (? & ? & ? & ? & ->). by apply mintable_later. Qed.

(** ** What is known of a request to a CA *)

(** The label of an enrollment call, the type of the enrollment, and the
    permission that the route asks for. *)
Definition enrollment_call (c : EstCall) : option (option string * string * Permission) :=
  match c with
  | SimpleEnrollCall label => Some (label, "simple-enroll", SubmitRequest)
  | SimpleReenrollCall label => Some (label, "simple-reenroll", RenewCertificate)
  | ServerKeygenCall label => Some (label, "server-keygen", SubmitRequest)
  | _ => None
  end.

(** The CA that the configuration names. *)
Definition asked_ca (st : EstState) (label : option string) (ca : EstCaClient) : Prop :=
  match label with
  | None => ca_client st = Some ca
  | Some raw => ∃ parsed backend, EstServer.parse_label raw = Ok parsed ∧
      select_backend st parsed = Ok backend ∧ ca = cb_client backend
  end.
(** The profile that the label, the token or the configuration names. *)
Definition offered (st : EstState) (label : option string) (user : AuthenticatedUser) (p : string)
    (w : World) : Prop :=
  match label with
  | None => p = enroll_profile st ∨ (∃ tok, token_of user = Some tok ∧
      did w (EStmt (TokenProfile tok)) (Ok (Some p)) ∧ offerable p = true)
  | Some raw => ∃ parsed, EstServer.parse_label raw = Ok parsed ∧ EstLabel.profile_name parsed = Ok p ∧
      ∀ tok, token_of user = Some tok →
        ∃ pinned, did w (EStmt (TokenProfile tok)) (Ok pinned) ∧ (pinned = None ∨ pinned = Some p)
  end.
(** The names of a request are those of the client, by the rule that applies. *)
Definition named (st : EstState) (user : AuthenticatedUser) (cn : option string) (sans : list string)
    (w : World) : Prop :=
  if has_role user EstEnrollee then enrollee_matches (username user) cn sans = true
  else match identity_policy st with
       | MatchUsername => csr_identity_matches_principal (username user) cn sans = true
       | AccountAllowList => csr_asserted_identities cn sans ≠ [] ∧
           ∃ allowed, did w (EStmt (ListIdentities (username user))) (Ok allowed) ∧
             all_allowed allowed cn sans = true
       end.
(** A CSR that was sent, signed with the key that it names. *)
Definition submitted (rq : HttpRequest) (der : list u8) (csr : ParsedCsr) : Prop :=
  base64_decode (body rq) = Some der ∧ parse_csr der = Ok csr ∧ possession der csr.
(** An enrollment of the client whose certificate has the names of the CSR. *)
Definition renewed (user : AuthenticatedUser) (csr : ParsedCsr) (e : EstEnrollment) (w : World) : Prop :=
  ∃ prior id cert, did w (EStmt (ListEnrollments (username user))) (Ok prior) ∧ e ∈ prior ∧
    certificate_id e = Some id ∧ did w (EStmt (FindCertificate id)) (Ok (Some cert)) ∧
    renews (trim (Csr.subject_dn csr)) (normalize_san_set (subject_alternative_names csr)) cert = true.
(** A CSR that the server built and signed with a key it generated. *)
Definition generated (subject : DistinguishedName) (sans : list string) (type : KeyType) (der : list u8)
    (w : World) : Prop :=
  ∃ label key spki alg info raw signature,
    did w (EGenerateKey type label true) (Ok key) ∧ did w (EExportPublic key) (Ok spki) ∧
    recommended_signature_algorithm debug_key type = Ok alg ∧
    build_csr_info_der subject spki (SanDns <$> omap (strip_prefix "DNS:") sans) = Ok info ∧
    did w (ESign key alg info) (Ok raw) ∧ encode_x509_signature debug_length alg raw = Ok signature ∧
    assemble_csr info alg signature = Ok der.

Definition entitled (st : EstState) (rq : HttpRequest) (c : EstCall) (user : AuthenticatedUser)
    (der : list u8) (profile : string) (w : World) : Prop :=
  match c with
  | SimpleEnrollCall label => offered st label user profile w ∧
      (∃ csr, submitted rq der csr ∧
        named st user match parse_csr_subject_dn der with Ok dn => common_name dn | Err _ => None end
          (subject_alternative_names csr) w) ∧
      ∀ tok, token_of user = Some tok → did w (EStmt (ConsumeToken tok None)) (Ok true)
  | SimpleReenrollCall label =>
      ∃ csr e p, submitted rq der csr ∧ renewed user csr e w ∧ offered st label user p w ∧
        (profile = p ∨ offerable profile = true ∧
          ∃ e', renewed user csr e' w ∧ e_profile_name e' = Some profile)
  | ServerKeygenCall label => offered st label user profile w ∧
      ∃ subject sans, named st user (common_name subject) sans w ∧
        generated subject sans (if is_efs profile then Rsa2048 else EcP256) der w
  | _ => False
  end.

Definition authorized (ca : EstCaClient) (ask : IssueCertificateRequest) (w : World) : Prop :=
  ∃ st rq c label type p user e profile extra,
    configured st ∧ EvRequest st rq c ∈ wtrace w ∧ enrollment_call c = Some (label, type, p) ∧
    principal rq user w ∧ any_role_has_permission (roles user) p = true ∧
    did w (EStmt (InsertEnrollment e)) (Ok e) ∧ client_identifier e = username user ∧
    enrollment_type e = type ∧ asked_ca st label ca ∧
    issue_request (e_id e) (EstStore.csr_der e) (username user) profile extra = Ok ask ∧
    entitled st rq c user (EstStore.csr_der e) profile w.

Lemma offered_later st label user p w w' : later w w' → offered st label user p w → offered st label user p w'.
Proof.
  intros Hl. destruct label as [raw|]; cbn.
  - intros (parsed & H1 & H2 & HH). exists parsed. split_and!; [done..|]. intros tok (pin & Hd & ?)%HH.
    exists pin. split; [by eapply did_later|done].
  - intros [->|(tok & H1 & H2 & H3)]; [by left|]. right. exists tok. split_and!; [done| |done]. by eapply did_later.
Qed.
Lemma named_later st user cn sans w w' : later w w' → named st user cn sans w → named st user cn sans w'.
Proof.
  intros Hl. unfold named. destruct (has_role _ _); [done|]. destruct (identity_policy st); [done|].
  intros (Hne & allowed & Hd & Ha). split; [done|]. exists allowed. split; [by eapply did_later|done].
Qed.
Lemma renewed_later user csr e w w' : later w w' → renewed user csr e w → renewed user csr e w'.
Proof.
  intros Hl (prior & id & cert & H1 & H2 & H3 & H4 & H5). exists prior, id, cert.
  split_and!; try done; by eapply did_later.
Qed.
Lemma generated_later subject sans type der w w' :
  later w w' → generated subject sans type der w → generated subject sans type der w'.
Proof.
  intros Hl (l & key & spki & alg & info & raw & s & H1 & H2 & H3 & H4 & H5 & H6 & H7).
  exists l, key, spki, alg, info, raw, s. split_and!; try done; by eapply did_later.
Qed.
Lemma entitled_later st rq c user der profile w w' :
  later w w' → entitled st rq c user der profile w → entitled st rq c user der profile w'.
Proof.
  intros Hl. destruct c; cbn; try done.
  - intros (Ho & (csr & Hs & Hn) & Ht). split; [by eapply offered_later|].
    split; [exists csr; split; [done|by eapply named_later]|]. intros tok Htok%Ht. by eapply did_later.
  - intros (csr & e & p & Hs & Hr & Ho & Hp). exists csr, e, p. split; [done|].
    split; [by eapply renewed_later|]. split; [by eapply offered_later|].
    destruct Hp as [->|(Hp & e' & Hr' & He')]; [by left|]. right. split; [done|]. exists e'.
    split; [by eapply renewed_later|done].
  - intros (Ho & subject & sans & Hn & Hg). split; [by eapply offered_later|]. exists subject, sans.
    split; [by eapply named_later|by eapply generated_later].
Qed.
Lemma asked_later ca ask w w' : later w w' → authorized ca ask w → authorized ca ask w'.
Proof.
  intros Hl (st & rq & c & label & type & p & user & e & profile & extra & H1 & H2 & H3 & H4 & H5 & H6 & H7 & H8 & H9 & H10 & H11).
  exists st, rq, c, label, type, p, user, e, profile, extra. split_and!; try done.
  - by eapply est_trace_kept.
  - by eapply principal_later.
  - by eapply did_later.
  - by eapply entitled_later.
Qed.

(** The user of an enrollment call, who may make it. *)
Definition caller (st : EstState) (rq : HttpRequest) (c : EstCall) (label : option string)
    (type : string) (user : AuthenticatedUser) (w : World) : Prop :=
  configured st ∧ EvRequest st rq c ∈ wtrace w ∧ principal rq user w ∧
  ∃ p, enrollment_call c = Some (label, type, p) ∧ any_role_has_permission (roles user) p = true.
Lemma caller_later st rq c label type user w w' :
  later w w' → caller st rq c label type user w → caller st rq c label type user w'.
Proof.
  intros Hl (Hst & He & Hp & HH). split_and!; [done|by eapply est_trace_kept|by eapply principal_later|done].
Qed.

(** ** The invariant *)

(** What an event says that a token's row has. *)
Definition found_token (ev : Event) : option (list u8 * (Uuid * string * DateTime)) :=
  match ev with
  | EvDid (EStmt (FindLiveToken hash)) (Ok (Some row)) => Some (hash, row)
  | _ => None
  end.
Definition found_profile (ev : Event) : option (Uuid * string) :=
  match ev with EvDid (EStmt (TokenProfile tok)) (Ok (Some p)) => Some (tok, p) | _ => None end.
Definition asked_for (ev : Event) : option (EstCaClient * IssueCertificateRequest) :=
  match ev with EvDid (EIssue ca ask) _ => Some (ca, ask) | _ => None end.

Record Inv (w : World) : Prop := {
  inv_token_ids : NoDup (t_id <$> tokens (wdb w));
  inv_hashes : NoDup (token_hash <$> tokens (wdb w));
  inv_minted t : t ∈ tokens (wdb w) → minted t w;
  inv_uses t : t ∈ tokens (wdb w) → 0 ≤ uses_remaining t;
  inv_found ev hash row : ev ∈ wtrace w → found_token ev = Some (hash, row) →
    ∃ t, t ∈ tokens (wdb w) ∧ token_hash t = hash ∧ row = (t_id t, t_identity t, expires_at t);
  inv_profile ev tok p : ev ∈ wtrace w → found_profile ev = Some (tok, p) →
    ∃ t, t ∈ tokens (wdb w) ∧ t_id t = tok ∧ t_profile t = Some p;
  inv_asked ev ca ask : ev ∈ wtrace w → asked_for ev = Some (ca, ask) → authorized ca ask w
}.

#[export] Instance est_logic : Logic EstE World := {|
  l_answers := @answers HL HE HT; l_inv := Inv; l_later := later; l_spawn_ok := λ _ _ _, True;
  l_later_preorder := est_later_preorder
|}.

(** ** What effects keep *)

(** What has to be known before an effect. *)
Definition allowed (w : World) {X} (e : EstE X) : Prop :=
  match e with
  | EIssue ca ask => authorized ca ask w
  | EStmt (InsertToken _ _ identity profile by_user _ uses) => mintable identity profile by_user uses w
  | _ => True
  end.
Lemma allowed_later {X} (e : EstE X) w w' : later w w' → allowed w e → allowed w' e.
Proof.
  intros Hl. destruct e as [A s| | | |ca ask| | | | | | | | |]; try done; [|by apply asked_later].
  destruct s; try done. by apply mintable_later.
Qed.

(** Rows of tokens that only their use changes. *)
Definition rewritten (l l' : list EstEnrollmentTokenRow) : Prop :=
  ∃ g, l' = g <$> l ∧ ∀ t, ∃ remaining cert used revoked,
    g t = set_use remaining cert used revoked t ∧ (0 ≤ uses_remaining t → 0 ≤ remaining).
Lemma rewritten_refl l : rewritten l l.
Proof.
  exists id. split; [by rewrite list_fmap_id|]. intros t.
  exists (uses_remaining t), (used_by_cert t), (used_at t), (revoked_at t). by destruct t.
Qed.
Lemma rewritten_update p f ok now d :
  (∀ t, p t = true → ∃ r c u v, f t = set_use r c u v t ∧ (0 ≤ uses_remaining t → 0 ≤ r)) →
  rewritten (tokens d) (tokens (update_token p f ok now d).2).
Proof.
  intros Hf. unfold update_token. destruct (existsb p (tokens d)); [|apply rewritten_refl].
  destruct (_ && _); [|apply rewritten_refl]. cbn [snd tokens set_tokens].
  exists (λ t, if p t then f t else t). split; [done|]. intros t. destruct (p t) eqn:Hp; [by apply Hf|].
  exists (uses_remaining t), (used_by_cert t), (used_at t), (revoked_at t). by destruct t.
Qed.
Lemma enrollments_tokens id f now d : tokens (update_enrollment id f now d).2 = tokens d.
Proof. unfold update_enrollment. destruct (find _ _); [|done]. by destruct (_ && _). Qed.

(** Every statement but the one that adds a token. *)
Lemma stmt_rewritten {A} (s : Stmt A) w :
  match s with InsertToken _ _ _ _ _ _ _ => False | _ => True end →
  rewritten (tokens (wdb w)) (tokens (run_stmt s w).2).
Proof.
  unfold run_stmt. destruct s; intros Hs; try done; try apply rewritten_refl; cbn [execute].
  - unfold insert_enrollment. destruct (_ || _); apply rewritten_refl.
  - unfold update_enrollment_status. rewrite enrollments_tokens. apply rewritten_refl.
  - unfold update_enrollment_certificate. rewrite enrollments_tokens. apply rewritten_refl.
  - unfold mark_enrollment_issued. rewrite enrollments_tokens. apply rewritten_refl.
  - unfold add_allowed_identity. destruct (_ && _); [|apply rewritten_refl].
    destruct (contains _ _); apply rewritten_refl.
  - apply rewritten_update. intros t [_ Hl]%andb_true_iff. apply andb_true_iff in Hl as [Hl _].
    eexists _, _, _, _. split; [done|]. lia.
  - apply rewritten_update. intros t _. eexists _, _, _, _. split; [done|]. lia.
  - apply rewritten_update. intros t _. eexists _, _, _, _. split; [done|]. done.
  - apply rewritten_update. intros t _. eexists _, _, _, _. split; [done|]. lia.
Qed.

Lemma rewritten_later l l' : rewritten l l' → ∀ t, t ∈ l → ∃ t', t' ∈ l' ∧ same_token t t'.
Proof.
  intros (g & -> & Hg) t Ht. exists (g t). split; [by apply list_elem_of_fmap_2|].
  destruct (Hg t) as (r & c & u & v & -> & _). by exists r, c, u, v.
Qed.
Lemma rewritten_before l l' : rewritten l l' → ∀ t', t' ∈ l' → ∃ t, t ∈ l ∧ same_token t t' ∧
  (0 ≤ uses_remaining t → 0 ≤ uses_remaining t').
Proof.
  intros (g & -> & Hg) t' (t & -> & Ht)%list_elem_of_fmap. exists t. split; [done|].
  destruct (Hg t) as (r & c & u & v & -> & Hr). split; [by exists r, c, u, v|done].
Qed.
Lemma rewritten_keys {K} (key : EstEnrollmentTokenRow → K) l l' :
  (∀ t r c u v, key (set_use r c u v t) = key t) → rewritten l l' → key <$> l' = key <$> l.
Proof.
  intros Hk (g & -> & Hg). rewrite <- list_fmap_compose. apply list_fmap_ext. intros i t _. cbn.
  destruct (Hg t) as (r & c & u & v & -> & _). apply Hk.
Qed.

Definition moved (w : World) (ev : Event) (d : EstDb) : World := observe ev (with_db d w).

(** The rows that events speak of stay. *)
Lemma kept_found w ev d : Inv w →
  (∀ t, t ∈ tokens (wdb w) → ∃ t', t' ∈ tokens d ∧ same_token t t') →
  (∀ hash row, found_token ev = Some (hash, row) →
    ∃ t, t ∈ tokens (wdb w) ∧ token_hash t = hash ∧ row = (t_id t, t_identity t, expires_at t)) →
  (∀ tok p, found_profile ev = Some (tok, p) →
    ∃ t, t ∈ tokens (wdb w) ∧ t_id t = tok ∧ t_profile t = Some p) →
  (∀ ev' hash row, ev' ∈ wtrace (moved w ev d) → found_token ev' = Some (hash, row) →
    ∃ t, t ∈ tokens d ∧ token_hash t = hash ∧ row = (t_id t, t_identity t, expires_at t)) ∧
  (∀ ev' tok p, ev' ∈ wtrace (moved w ev d) → found_profile ev' = Some (tok, p) →
    ∃ t, t ∈ tokens d ∧ t_id t = tok ∧ t_profile t = Some p).
Proof.
  intros Hi Hkept Hf Hp. split.
  - intros ev' hash row Hev He.
    assert (∃ t, t ∈ tokens (wdb w) ∧ token_hash t = hash ∧ row = (t_id t, t_identity t, expires_at t))
      as (t & Ht & Hh & Hr).
    { cbn in Hev. apply elem_of_app in Hev as [Hev| ->%list_elem_of_singleton]; [|by apply Hf].
      by eapply inv_found. }
    apply Hkept in Ht as (t' & Ht' & r & c & u & v & ->). eexists. split; [exact Ht'|done].
  - intros ev' tok p Hev He.
    assert (∃ t, t ∈ tokens (wdb w) ∧ t_id t = tok ∧ t_profile t = Some p) as (t & Ht & Hh & Hr).
    { cbn in Hev. apply elem_of_app in Hev as [Hev| ->%list_elem_of_singleton]; [|by apply Hp].
      by eapply inv_profile. }
    apply Hkept in Ht as (t' & Ht' & r & c & u & v & ->). eexists. split; [exact Ht'|done].
Qed.
Lemma kept_asked w ev d : Inv w → later w (moved w ev d) →
  (∀ ca ask, asked_for ev = Some (ca, ask) → authorized ca ask w) →
  ∀ ev' ca ask, ev' ∈ wtrace (moved w ev d) → asked_for ev' = Some (ca, ask) →
    authorized ca ask (moved w ev d).
Proof.
  intros Hi Hl Ha ev' ca ask Hev He. eapply asked_later; [done|]. cbn in Hev.
  apply elem_of_app in Hev as [Hev| ->%list_elem_of_singleton]; [by eapply inv_asked|by apply Ha].
Qed.

Lemma later_moved w ev d : (∀ t, t ∈ tokens (wdb w) → ∃ t', t' ∈ tokens d ∧ same_token t t') →
  later w (moved w ev d).
Proof. intros HH. split; [by eexists|exact HH]. Qed.

Lemma kept_rewritten w ev d : Inv w → rewritten (tokens (wdb w)) (tokens d) →
  (∀ hash row, found_token ev = Some (hash, row) →
    ∃ t, t ∈ tokens (wdb w) ∧ token_hash t = hash ∧ row = (t_id t, t_identity t, expires_at t)) →
  (∀ tok p, found_profile ev = Some (tok, p) →
    ∃ t, t ∈ tokens (wdb w) ∧ t_id t = tok ∧ t_profile t = Some p) →
  (∀ ca ask, asked_for ev = Some (ca, ask) → authorized ca ask w) →
  Inv (moved w ev d) ∧ later w (moved w ev d).
Proof.
  intros Hi Hr Hf Hp Ha. pose proof (rewritten_later _ _ Hr) as Hkept.
  pose proof (later_moved w ev d Hkept) as Hl. split; [|done].
  destruct (kept_found w ev d Hi Hkept Hf Hp) as [Hf' Hp']. split.
  - cbn. rewrite (rewritten_keys t_id _ _ (λ _ _ _ _ _, eq_refl) Hr). apply Hi.
  - cbn. rewrite (rewritten_keys token_hash _ _ (λ _ _ _ _ _, eq_refl) Hr). apply Hi.
  - intros t' (t & Ht & Hs & _)%(rewritten_before _ _ Hr). eapply minted_later; [done..|]. by apply Hi.
  - intros t' (t & Ht & _ & Hu)%(rewritten_before _ _ Hr). apply Hu. by apply (inv_uses _ Hi).
  - exact Hf'.
  - exact Hp'.
  - by apply kept_asked.
Qed.

(** A new token. *)
Lemma kept_insert w ev t : Inv w → minted t w → 0 ≤ uses_remaining t →
  existsb (token_clash t) (tokens (wdb w)) = false →
  found_token ev = None → found_profile ev = None → asked_for ev = None →
  let d := set_tokens (tokens (wdb w) ++ [t]) (wdb w) in
  Inv (moved w ev d) ∧ later w (moved w ev d).
Proof.
  intros Hi Hm Hu Hc Hf Hp Ha d.
  assert (∀ t, t ∈ tokens (wdb w) → ∃ t', t' ∈ tokens d ∧ same_token t t') as Hkept.
  { intros t' Ht'. exists t'. split; [apply elem_of_app; by left|apply same_token_refl]. }
  pose proof (later_moved w ev d Hkept) as Hl. split; [|done].
  destruct (kept_found w ev d Hi Hkept) as [Hf' Hp']; [congruence..|]. split.
  - eapply NoDup_insert; [|by apply Hi|exact Hc]. intros a b Hab. unfold token_clash.
    by rewrite (bool_decide_eq_true_2 _ Hab).
  - eapply NoDup_insert; [|by apply Hi|exact Hc]. intros a b Hab. unfold token_clash.
    rewrite (bool_decide_eq_true_2 _ Hab). apply orb_true_r.
  - intros t' [Ht'| ->%list_elem_of_singleton]%elem_of_app; (eapply minted_later; [done|apply same_token_refl|]);
      [by apply Hi|done].
  - intros t' [Ht'| ->%list_elem_of_singleton]%elem_of_app; [by apply (inv_uses _ Hi)|done].
  - exact Hf'.
  - exact Hp'.
  - apply kept_asked; [done..|congruence].
Qed.

Lemma effect_found {A} (s : Stmt A) w x d hash row :
  effect w (EStmt s) x d → found_token (EvDid (EStmt s) x) = Some (hash, row) →
  ∃ t, t ∈ tokens (wdb w) ∧ token_hash t = hash ∧ row = (t_id t, t_identity t, expires_at t).
Proof.
  intros He Hf. destruct s; try discriminate Hf. cbn in He.
  destruct He as [[-> _]|(err & -> & _)]; [|discriminate Hf].
  destruct (find _ _) as [t|] eqn:Ht; [|discriminate Hf]. injection Hf as <- <-.
  apply find_some in Ht as [Hin%list_elem_of_In [Hh%bool_decide_eq_true _]%andb_true_iff].
  by exists t.
Qed.
Lemma effect_profile {A} (s : Stmt A) w x d tok p :
  effect w (EStmt s) x d → found_profile (EvDid (EStmt s) x) = Some (tok, p) →
  ∃ t, t ∈ tokens (wdb w) ∧ t_id t = tok ∧ t_profile t = Some p.
Proof.
  intros He Hf. destruct s; try discriminate Hf. cbn in He.
  destruct He as [[-> _]|(err & -> & _)]; [|discriminate Hf].
  destruct (find _ _) as [t|] eqn:Ht; [|discriminate Hf]. cbn in Hf.
  destruct (t_profile t) eqn:Hp; [|discriminate Hf]. injection Hf as <- <-.
  apply find_some in Ht as [Hin%list_elem_of_In Hid%bool_decide_eq_true].
  by exists t.
Qed.

Lemma kept_statement {A} (s : Stmt A) w x d :
  match s with InsertToken _ _ _ _ _ _ _ => False | _ => True end →
  Inv w → effect w (EStmt s) x d →
  Inv (moved w (EvDid (EStmt s) x) d) ∧ later w (moved w (EvDid (EStmt s) x) d).
Proof.
  intros Hs Hi He. apply kept_rewritten; [done| | | |done].
  - destruct He as [[_ ->]|(err & _ & [-> | ->])]; [by apply stmt_rewritten|apply rewritten_refl|by apply stmt_rewritten].
  - intros hash row. by eapply effect_found.
  - intros tok p. by eapply effect_profile.
Qed.

Lemma kept_quiet ev w : found_token ev = None → found_profile ev = None → 
  (∀ ca ask, asked_for ev = Some (ca, ask) → authorized ca ask w) → Inv w →
  Inv (observe ev w) ∧ later w (observe ev w).
Proof.
  intros Hf Hp Ha Hi. assert (observe ev w = moved w ev (wdb w)) as -> by by destruct w.
  apply kept_rewritten; [done|apply rewritten_refl|congruence..|done].
Qed.

Lemma kept_token_insert id hash identity profile by_user expires uses w x d :
  mintable identity profile by_user uses w → Inv w →
  effect w (EStmt (InsertToken id hash identity profile by_user expires uses)) x d →
  let ev := EvDid (EStmt (InsertToken id hash identity profile by_user expires uses)) x in
  Inv (moved w ev d) ∧ later w (moved w ev d).
Proof.
  intros Hm Hi He ev.
  assert (Inv (moved w ev (wdb w)) ∧ later w (moved w ev (wdb w))) as Hsame.
  { apply kept_rewritten; [done|apply rewritten_refl|done..]. }
  cut (Inv (moved w ev (run_stmt (InsertToken id hash identity profile by_user expires uses) w).2) ∧
       later w (moved w ev (run_stmt (InsertToken id hash identity profile by_user expires uses) w).2)).
  { intros Hrun. by destruct He as [[_ ->]|(err & _ & [-> | ->])]. }
  clear He. unfold run_stmt. cbn [execute]. unfold EstStore.create_enrollment_token.
  destruct (_ || _) eqn:Hc; [exact Hsame|]. cbn [snd].
  apply orb_false_iff in Hc as [Hc Hu%Z.ltb_ge]. do 3 apply orb_false_iff in Hc as [Hc _].
  apply kept_insert; [done|exact Hm|cbn; lia|exact Hc|done..].
Qed.

Lemma kept_effect {X} (e : EstE X) w x w' : allowed w e → Inv w → answers w e x w' → Inv w' ∧ later w w'.
Proof.
  intros Ha Hi (d & He & ->). change (observe (EvDid e x) (with_db d w)) with (moved w (EvDid e x) d).
  destruct e as [A s| | | |ca ask| | | | | | | | |];
    try (assert (d = wdb w) as -> by (cbn in He; tauto);
         apply kept_rewritten; [done|apply rewritten_refl|done..|]; intros ? ? [= <- <-]; exact Ha);
    try (assert (d = wdb w) as -> by (cbn in He; tauto);
         apply kept_rewritten; [done|apply rewritten_refl|done..]).
  destruct s; try (by apply kept_statement). by apply kept_token_insert.
Qed.

(** ** Rules *)

Abbreviation wp := (Programs.wp (L := est_logic)).
Abbreviation wpm := (Programs.wpm (L := est_logic)).
Abbreviation safe := (Programs.safe (L := est_logic)).

Lemma answered_did {X} (e : EstE X) w x w' : answers w e x w' → did w' e x.
Proof. intros (d & _ & ->). apply elem_of_app. right. by apply list_elem_of_singleton. Qed.

(** An answer that the effect has from some world. *)
Definition possible {X} (e : EstE X) (x : X) : Prop := ∃ w d, effect w e x d.
Lemma wp_possible {X} (e : EstE X) (Q : X → World → Prop) w : allowed w e →
  (∀ w1 x, later w w1 → did w1 e x → possible e x → Q x w1) → wp (call e) Q w.
Proof.
  intros Ha HQ w1 Hl Hi x w2 Hans.
  destruct (kept_effect e w1 x w2) as [Hi2 Hl2]; [by eapply allowed_later|done..|].
  split; [done|]. split; [done|]. split; [done|].
  apply HQ; [exact (transitivity Hl Hl2)|eapply answered_did; exact Hans|].
  destruct Hans as (d & He & _). by exists w1, d.
Qed.
Lemma wp_effect {X} (e : EstE X) (Q : X → World → Prop) w : allowed w e →
  (∀ w1 x, later w w1 → did w1 e x → Q x w1) → wp (call e) Q w.
Proof. intros Ha HQ. apply wp_possible; [done|]. auto. Qed.

(** *** The order of events *)

(** After [w], and until [w'], these events came one after the other, perhaps
    with others in between. *)
Definition in_order (w w' : World) (evs : list Event) : Prop :=
  ∃ new, wtrace w' = wtrace w ++ new ∧ evs `sublist_of` new.
Lemma in_order_trans w1 w2 w3 l1 l2 : in_order w1 w2 l1 → in_order w2 w3 l2 → in_order w1 w3 (l1 ++ l2).
Proof.
  intros (n1 & E1 & S1) (n2 & E2 & S2). exists (n1 ++ n2).
  split; [by rewrite E2, E1, app_assoc|by apply sublist_app].
Qed.
Lemma in_order_later w w' : later w w' → in_order w w' [].
Proof. intros [[k Hk] _]. exists k. split; [done|apply sublist_nil_l]. Qed.
Lemma in_order_since w w1 w2 l : later w w1 → in_order w1 w2 l → in_order w w2 l.
Proof. intros Hl Ho. exact (in_order_trans w w1 w2 [] l (in_order_later _ _ Hl) Ho). Qed.
Lemma in_order_did {X} (e : EstE X) x w w' l : in_order w w' l → EvDid e x ∈ l → did w' e x.
Proof.
  intros (new & Hn & Hs) He. unfold did. rewrite Hn. apply elem_of_app. right.
  by eapply elem_of_sublist.
Qed.
(** As [wp_possible]; the effect comes last. *)
Lemma wp_ordered {X} (e : EstE X) (Q : X → World → Prop) w : allowed w e →
  (∀ w1 x, later w w1 → in_order w w1 [EvDid e x] → possible e x → Q x w1) → wp (call e) Q w.
Proof.
  intros Ha HQ w1 Hl Hi x w2 Hans.
  destruct (kept_effect e w1 x w2) as [Hi2 Hl2]; [by eapply allowed_later|done..|].
  split; [done|]. split; [done|]. split; [done|].
  destruct Hans as (d & He & ->). apply HQ; [exact (transitivity Hl Hl2)| |by exists w1, d].
  destruct Hl as [[k Hk] _]. exists (k ++ [EvDid e x]). cbn. rewrite Hk, app_assoc.
  split; [done|]. apply sublist_inserts_l. done.
Qed.

(** Effects that need nothing. *)
Definition calm {X} (e : EstE X) : Prop :=
  match e with EIssue _ _ => False | EStmt (InsertToken _ _ _ _ _ _ _) => False | _ => True end.
Lemma calm_allowed {X} (e : EstE X) w : calm e → allowed w e.
Proof. destruct e as [A s| | | | | | | | | | | | |]; try done. by destruct s. Qed.
Lemma calm_safe {A} (p : Prog A) : only (@calm) p → safe p.
Proof.
  induction p as [a|X e k IH]; [done|]. intros [Hc Hk] w.
  apply (wp_bind (call e) k). apply wp_effect; [by apply calm_allowed|]. intros w1 x _ _. by apply IH.
Qed.

Lemma wpm_try_stmt {A} into (s : Stmt A) (Q : A → World → Prop) w : calm (EStmt s) →
  (∀ w1 x, later w w1 → did w1 (EStmt s) (Ok x) → Q x w1) → wpm (try_sql into s) Q w.
Proof.
  intros Hs HQ. apply wp_bind, wp_effect; [by apply calm_allowed|]. intros w1 [x|err] Hl Hd; [|done].
  by apply HQ.
Qed.
Lemma wpm_try_call {A} context (e : EstE (result A string)) (Q : A → World → Prop) w : calm e →
  (∀ w1 x, later w w1 → did w1 e (Ok x) → Q x w1) → wpm (try_call context e) Q w.
Proof.
  intros Hs HQ. apply wp_bind, wp_effect; [by apply calm_allowed|]. intros w1 [x|err] Hl Hd; [|done].
  by apply HQ.
Qed.
Lemma wpm_ordered_stmt {A} into (s : Stmt A) (Q : A → World → Prop) w : calm (EStmt s) →
  (∀ w1 x, later w w1 → in_order w w1 [EvDid (EStmt s) (Ok x)] → Q x w1) → wpm (try_sql into s) Q w.
Proof.
  intros Hs HQ. apply wp_bind, wp_ordered; [by apply calm_allowed|]. intros w1 [x|err] Hl Ho _; [|done].
  by apply HQ.
Qed.
Lemma wpm_on_error {A} (m : M A) (handler : Error → M A) (Q : A → World → Prop) w :
  wpm m Q w → (∀ e w1, wpm (handler e) Q w1) → wpm (on_error m handler) Q w.
Proof.
  intros Hm Hh. apply wp_bind. eapply wp_mono; [|exact Hm]. intros [a|e] w' _ HQ; [exact HQ|apply Hh].
Qed.

(** A denial is an error, whatever happens to its record. *)
Lemma wpm_denied {A B} (p : Prog A) (e : Error) (Q : B → World → Prop) w :
  safe p → wpm (let^ _ := p in fail e) Q w.
Proof. intros Hp. apply wp_bind. eapply wp_mono; [|apply Hp]. done. Qed.
Lemma safe_est_record e : safe (record e).
Proof. by apply calm_safe. Qed.
Lemma wpm_deny {A} actor resource action e (Q : A → World → Prop) w :
  wpm (deny actor resource action e) Q w.
Proof. apply wpm_denied, safe_est_record. Qed.
Lemma wpm_deny_enrollment {A} actor enrollment action e (Q : A → World → Prop) w :
  wpm (deny_enrollment actor enrollment action e) Q w.
Proof. apply wpm_denied, safe_est_record. Qed.
End invariant.

(** The way from one world to a later one, and facts along it. *)
Ltac chain := first [eassumption|etransitivity; [eassumption|]; chain].
Ltac since H :=
  first [ eapply did_later; [|exact H] | eapply named_later; [|exact H] | eapply offered_later; [|exact H]
        | eapply renewed_later; [|exact H] | eapply generated_later; [|exact H]
        | eapply principal_later; [|exact H] | eapply caller_later; [|exact H]
        | eapply est_trace_kept; [|exact H] ]; chain.
