(* ===== verification/EnrollRuns.v ===== *)
(** * Requests of the EST server

    Who a request is found to be from; the rules of the enrollment handlers of
    EstServer.v, what each step establishes about the client, the names and the
    profile, so that the CA is asked for what is [authorized] only; what a
    successful answer carries; and server-side key generation. *)
From stdpp Require Import base strings list gmap relations.
From Stdlib Require Import ZArith Lia.
From S2P Require Import Prelude Roles Algorithm Signing Programs Credits Text X509Names Csr CertBuilder CaStore CaCore EstStore GrpcIdentity EstCore EstAuth EstPolicy EstClient EstServer EstApi EstInv.
From S2P Require CaStore EstLabel.
#[local] Open Scope Z_scope.

(** * Who a request is found to be from

    A provider is sound when every user it answers is the principal of the
    request that presented the credentials or the session token.  The providers
    of EstAuth.v keep that, and the layers of a route use one. *)

Section auth.
Context {HL : EstLib} {HE : OrderDesc e_created_at} {HT : OrderDesc t_created_at}.
Abbreviation wp := (Programs.wp (L := est_logic)).
Abbreviation wpm := (Programs.wpm (L := est_logic)).

Record sound (p : AuthProvider) : Prop := {
  sound_login rq c w : presented rq c → wpm (authenticate p c) (λ user w', principal rq user w') w;
  sound_session rq token w : bearer_token rq = Some token →
    wpm (validate_session p token) (λ s w', principal rq (si_user s) w') w
}.

Lemma account_sound name method : sound (account_provider name method).
Proof.
  split.
  - intros rq c w Hc. apply wp_effect; [done|]. intros w1 [user|e] _ Hd; [|done]. by eapply by_account.
  - intros rq token w Ht. apply wp_effect; [done|]. intros w1 [s|e] _ Hd; [|done]. by eapply by_session.
Qed.

Lemma composite_sound ps : Forall sound ps → sound (composite ps).
Proof.
  intros Hps. split.
  - intros rq c w Hc. apply wpm_bind, wpm_lift. intros p Hp%ok_or_Ok.
    apply find_some in Hp as [Hp%list_elem_of_In _]. rewrite Forall_forall in Hps. by apply Hps.
  - intros rq token w Ht. cbn [validate_session composite]. revert w.
    induction Hps as [|p ps Hp _ IH]; intros w; [done|]. apply wp_bind.
    eapply wp_mono; [|by apply (sound_session p Hp rq)]. intros [s|e] w1 _ HQ; [exact HQ|apply IH].
Qed.

Lemma device_sound p : sound p → sound (device_cert_provider p).
Proof.
  intros Hp. split; [|apply Hp]. intros rq c w Hc. cbn [authenticate device_cert_provider].
  unfold device_authenticate. destruct c as [| [|der chain] [ip|] | |]; try (by apply Hp); cbn in Hc.
  - by destruct chain.
  - destruct chain as [|]; [|done]. apply wpm_bind. unfold authenticate_device_cert.
    apply wp_bind, wp_effect; [done|]. intros w1 [[cert|]|e] Hl1 Hd1; [| |done]; [|by apply Hp].
    apply wp_bind, wp_effect; [done|]. intros w2 [[client|]|e] Hl2 Hd2; [| |done]; [|by apply Hp].
    destruct (CaStore.c_revoked cert) eqn:Hr; [done|].
    apply wp_bind, wp_effect; [done|]. intros w3 now Hl3 Hd3.
    destruct (Z.leb_spec (CaStore.c_not_after cert) now) as [|Hnow]; [done|].
    apply wp_bind, wp_effect; [done|]. intros w4 now' Hl4 Hd4.
    eapply by_device; [done| | |done| |done|done].
    + since Hd1.
    + since Hd2.
    + since Hd3.
Qed.

Lemma token_sound p : sound p → sound (enrollment_token_provider p).
Proof.
  intros Hp. split; [apply Hp|]. intros rq token w Ht. cbn [validate_session enrollment_token_provider].
  unfold token_session. apply wp_bind, wp_effect; [done|].
  intros w1 [[[[id identity] expires]|]|e] Hl1 Hd1; [|by apply (sound_session p Hp rq)..].
  apply wp_bind, wp_effect; [done|]. intros w2 now Hl2 _.
  eapply by_token; [done| |done]. since Hd1.
Qed.

Lemma server_sound mode : sound (server_provider mode).
Proof.
  destruct mode; cbn [server_provider].
  - apply account_sound.
  - apply device_sound, account_sound.
  - apply composite_sound, Forall_cons. split; [apply device_sound, account_sound|].
    apply Forall_singleton, account_sound.
  - apply composite_sound, Forall_cons. split; [apply device_sound, account_sound|].
    apply Forall_singleton, account_sound.
Qed.

(** ** Who presents an enrollment token *)

Lemma wpm_map_auth {A} into (m : AM A) (Q : A → World → Prop) w : wpm m Q w → wpm (map_auth into m) Q w.
Proof. intros Hm. apply wp_bind. eapply wp_mono; [|exact Hm]. by intros [a|e] w' _ HQ. Qed.

(** The user of a token's row, which had a use left when it was looked up. *)
Definition token_user (token : string) (user : AuthenticatedUser) (w : World) : Prop :=
  ∃ t0 t now, t ∈ tokens (wdb w) ∧ same_token t0 t ∧ token_hash t = hash_token token ∧
    0 < uses_remaining t0 ∧ user = new_user (t_id t) (t_identity t) [EstEnrollee] ApiKey now.
Lemma token_user_later token user w w' : later w w' → token_user token user w → token_user token user w'.
Proof.
  intros [_ Hl] (t0 & t & now & Ht & Hs & Hh & Hu & ->). apply Hl in Ht as (t' & Ht' & Hs').
  exists t0, t', now. split; [done|]. split; [by eapply same_token_trans|].
  by destruct Hs' as (? & ? & ? & ? & ->).
Qed.

(** A row that the lookup finds. *)
Lemma wp_find_token hash (Q : result (option (Uuid * string * DateTime)) string → World → Prop) w :
  (∀ w1 x, later w w1 → (∀ row, x = Ok (Some row) → ∃ t, t ∈ tokens (wdb w1) ∧ token_hash t = hash ∧
     0 < uses_remaining t ∧ row = (t_id t, t_identity t, expires_at t)) → Q x w1) →
  wp (sql (FindLiveToken hash)) Q w.
Proof.
  intros HQ w1 Hl Hi x w2 Ha.
  destruct (kept_effect (EStmt (FindLiveToken hash)) w1 x w2) as [Hi2 Hl2]; [done..|].
  split; [done|]. split; [done|]. split; [done|]. apply HQ; [by etransitivity|].
  intros row ->. destruct Ha as (d & He & ->). cbn in He. destruct He as [[Hx ->]|(err & [=] & _)].
  destruct (find _ _) as [t|] eqn:Ht; [|done]. injection Hx as ->.
  apply find_some in Ht as [Hin%list_elem_of_In [Hh%bool_decide_eq_true Hlive]%andb_true_iff].
  apply andb_true_iff in Hlive as [Hu%Z.ltb_lt _]. by exists t.
Qed.

(** A session that an account provider gave. *)
Definition session_user (token : string) (user : AuthenticatedUser) (w : World) : Prop :=
  ∃ name info, did w (ESession name token) (Ok info) ∧ user = si_user info.
Lemma server_session mode token w :
  wpm (validate_session (server_provider mode) token) (λ info w', session_user token (si_user info) w') w.
Proof.
  assert (∀ name (Q : result SessionInfo AuthError → World → Prop) w',
    (∀ w1 x, later w' w1 → (∀ info, x = Ok info → session_user token (si_user info) w1) → Q x w1) →
    wp (call (ESession name token)) Q w') as Hcall.
  { intros name Q w' HQ. apply wp_effect; [done|]. intros w1 x Hl Hd. apply HQ; [done|].
    intros info ->. by exists name, info. }
  assert (∀ name w', wpm (call (ESession name token)) (λ info w', session_user token (si_user info) w') w') as Hone.
  { intros name w'. apply Hcall. intros w1 [info|e] _ HH; [by apply HH|done]. }
  destruct mode; cbn [server_provider validate_session composite device_cert_provider]; try apply Hone;
    cbn [first_session validate_session device_cert_provider]; apply wp_bind, Hcall;
    intros w1 [info|e] _ HH; try (by apply (HH info));
    apply wp_bind, Hcall; intros w2 [info|e'] _ HH'; try (by apply (HH' info)); done.
Qed.
Lemma token_session_user mode token w :
  wpm (token_session (server_provider mode) token)
    (λ info w', token_user token (si_user info) w' ∨ session_user token (si_user info) w') w.
Proof.
  assert (∀ w', wpm (validate_session (server_provider mode) token)
    (λ info w', token_user token (si_user info) w' ∨ session_user token (si_user info) w') w') as Hinner.
  { intros w'. eapply wpm_mono; [|apply server_session]. by right. }
  unfold token_session. apply wp_bind, wp_find_token. intros w1 [[row|]|e] Hl1 HH; [|by apply Hinner..].
  destruct (HH row eq_refl) as (t & Ht & Hh & Hu & ->). apply wp_bind, wp_effect; [done|].
  intros w2 now Hl2 _. left. apply (token_user_later _ _ w1 w2 Hl2).
  exists t, t, now. split_and!; try done. apply same_token_refl.
Qed.

(** A server takes tokens, and the request presents one and no certificate. *)
Definition presents_token (st : EstState) (rq : HttpRequest) (token : string) : Prop :=
  bearer_token rq = Some token ∧ (auth_mode st = BearerToken ∨
    auth_mode st = MtlsWithTokenBootstrap ∧ peer_certificate rq = None).
Lemma wpm_token_layer st rq token w : configured st → presents_token st rq token →
  wpm (protected_layer st rq) (λ user w', token_user token user w' ∨ session_user token user w') w.
Proof.
  intros Hst [Ht Hm].
  assert (wpm (bearer_layer (enrollment_token_provider (auth_provider st)) rq)
    (λ user w', token_user token user w' ∨ session_user token user w') w) as Hb.
  { apply wpm_bind, wpm_lift. intros token' Ht'%ok_or_Ok. rewrite Ht in Ht'. injection Ht' as <-.
    rewrite Hst. apply wpm_bind, wpm_map_auth. cbn [validate_session enrollment_token_provider].
    eapply wpm_mono; [|apply token_session_user]. done. }
  unfold protected_layer. destruct Hm as [->|[-> Hc]]; [done|]. unfold mtls_or_bearer_layer. by rewrite Hc.
Qed.

(** ** Layers *)

Lemma bearer_sound p rq w : sound p → wpm (bearer_layer p rq) (λ user w', principal rq user w') w.
Proof.
  intros Hp. apply wpm_bind, wpm_lift. intros token Ht%ok_or_Ok. apply wpm_bind, wpm_map_auth.
  eapply wpm_mono; [|by apply (sound_session p Hp rq)]. done.
Qed.
Lemma certificate_sound p rq der w : sound p → peer_certificate rq = Some der →
  wpm (certificate_login p der) (λ user w', principal rq user w') w.
Proof. intros Hp Hc. by apply wpm_map_auth, Hp. Qed.
Lemma mtls_sound p rq w : sound p → wpm (mtls_layer p rq) (λ user w', principal rq user w') w.
Proof. intros Hp. apply wpm_bind, wpm_lift. intros der Hd%ok_or_Ok. by apply certificate_sound. Qed.
Lemma mtls_or_bearer_sound p rq w : sound p →
  wpm (mtls_or_bearer_layer p rq) (λ user w', principal rq user w') w.
Proof.
  intros Hp. unfold mtls_or_bearer_layer. destruct (peer_certificate rq) eqn:Hc;
    [by apply certificate_sound|by apply bearer_sound].
Qed.
Lemma mtls_or_basic_sound p rq w : sound p →
  wpm (mtls_or_basic_layer p rq) (λ user w', principal rq user w') w.
Proof.
  intros Hp. unfold mtls_or_basic_layer. destruct (peer_certificate rq) eqn:Hc;
    [by apply certificate_sound|]. apply wpm_bind, wpm_lift. intros [name password] Hb%ok_or_Ok.
  by apply wpm_map_auth, Hp.
Qed.

Lemma protected_sound st rq w : configured st →
  wpm (protected_layer st rq) (λ user w', principal rq user w') w.
Proof.
  intros Hst. unfold protected_layer. rewrite Hst. pose proof (server_sound (auth_mode st)) as Hs.
  destruct (auth_mode st).
  - by apply bearer_sound, token_sound.
  - by apply mtls_sound.
  - by apply mtls_or_basic_sound.
  - by apply mtls_or_bearer_sound, token_sound.
Qed.

Lemma trusted_proxy_sound st cfg p rq w : sound p → trusted_proxy st = Some cfg →
  wpm (trusted_proxy_layer p cfg rq) (λ user w', administrator st rq user w') w.
Proof.
  intros Hp Hcfg. unfold trusted_proxy_layer.
  destruct (if is_enabled cfg then _ else _) as [subject|] eqn:Hs.
  - apply wpm_bind, wpm_lift. intros i Hi%ok_or_Ok. apply wp_bind, wp_effect; [done|]. intros w1 now _ _.
    right. destruct (is_enabled cfg); [|done]. apply bind_Some in Hs as (der & Hder & Hs).
    apply bind_Some in Hs as (subject' & Hsub & Hs).
    destruct (is_trusted_subject cfg subject') eqn:Ht; [|done].
    exists cfg, der, subject', i, now. split_and!; try done. by apply contains_true in Ht.
  - eapply wpm_mono; [|by apply bearer_sound]. by left.
Qed.
Lemma admin_sound st rq w : configured st →
  wpm (admin_layer st rq) (λ user w', administrator st rq user w') w.
Proof.
  intros Hst. unfold admin_layer. rewrite Hst. pose proof (server_sound (auth_mode st)) as Hs.
  assert (∀ (m : LM AuthenticatedUser), wpm m (λ user w', principal rq user w') w →
    wpm m (λ user w', administrator st rq user w') w) as Hleft.
  { intros m. apply wpm_mono. by left. }
  destruct (trusted_proxy st) as [cfg|] eqn:Ht, (auth_mode st);
    first [by apply trusted_proxy_sound
          |apply Hleft; first [by apply bearer_sound|by apply mtls_sound|by apply mtls_or_basic_sound
                              |by apply mtls_or_bearer_sound]].
Qed.
End auth.

Section enroll.
Context {HL : EstLib} {HE : OrderDesc e_created_at} {HT : OrderDesc t_created_at}.
Abbreviation wp := (Programs.wp (L := est_logic)).
Abbreviation wpm := (Programs.wpm (L := est_logic)).
Abbreviation safe := (Programs.safe (L := est_logic)).

(** ** Steps *)

Lemma wpm_new_enrollment context client type csr (Q : EstEnrollment → World → Prop) w :
  (∀ w1 e, later w w1 → in_order w w1 [EvDid (EStmt (InsertEnrollment e)) (Ok e)] →
     client_identifier e = client → enrollment_type e = type → EstStore.csr_der e = csr → Q e w1) →
  wpm (new_enrollment context client type csr) Q w.
Proof.
  intros HQ. apply wp_bind, wp_bind, wp_effect; [done|]. intros w1 id Hl1 _.
  apply wp_bind, wp_effect; [done|]. intros w2 now Hl2 _. apply wp_ordered; [done|].
  intros w3 [e|err] Hl3 Hd (w0 & d & He); [|done].
  assert (e = {| e_id := id; client_identifier := client; enrollment_type := type;
    EstStore.csr_der := csr; certificate_id := None; e_status := "pending"; e_profile_name := None;
    e_created_at := now; e_updated_at := now |}) as ->.
  { destruct He as [[Hx _]|(err & [=] & _)]. unfold run_stmt in Hx. cbn [execute] in Hx.
    unfold insert_enrollment in Hx. destruct (_ || _); [done|]. by injection Hx. }
  apply HQ; [chain|eapply in_order_since; [|exact Hd]; chain|done..].
Qed.

Lemma wpm_named st user cn sans (Q : bool → World → Prop) w :
  (∀ w1 b, later w w1 → (b = true → named st user cn sans w1) → Q b w1) →
  wpm (identity_authorized st user cn sans) Q w.
Proof.
  intros HQ. unfold identity_authorized, named in *. destruct (has_role user EstEnrollee); [by apply HQ|].
  destruct (identity_policy st); [by apply HQ|].
  destruct (csr_asserted_identities cn sans) eqn:Hc; [by apply HQ|].
  apply wpm_bind, wpm_try_stmt; [done|]. intros w1 allowed Hl Hd. apply HQ; [done|]. intros Ha.
  split; [done|]. by exists allowed.
Qed.

Lemma wpm_pinned user p (Q : unit → World → Prop) w :
  (∀ w1, later w w1 → (∀ tok, token_of user = Some tok →
     ∃ pinned, did w1 (EStmt (TokenProfile tok)) (Ok pinned) ∧ (pinned = None ∨ pinned = Some p)) → Q tt w1) →
  wpm (enforce_token_profile_pin user p) Q w.
Proof.
  intros HQ. unfold enforce_token_profile_pin. destruct (token_of user) as [tok|]; [|by apply HQ].
  apply wpm_bind, wpm_try_stmt; [done|]. intros w1 pinned Hl Hd.
  destruct pinned as [q|]; [destruct (bool_decide_reflect (q = p)) as [->|]; [|done]|];
    apply HQ; try done; intros ? [= <-]; eexists; eauto.
Qed.

Lemma wp_resolve_profile st user (Q : string → World → Prop) w :
  (∀ w1 p, later w w1 → offered st None user p w1 → Q p w1) →
  wp (resolve_enroll_profile st user) Q w.
Proof.
  intros HQ. unfold resolve_enroll_profile. destruct (token_of user) as [tok|] eqn:Ht; [|by apply HQ; [|left]].
  apply wp_bind, wp_effect; [done|]. intros w1 [[p|]|e] Hl Hd; try (by apply HQ; [|left]).
  cbn [Programs.wp]. destruct (offerable p) eqn:Hp; apply HQ; try done; [right|by left]. by exists tok.
Qed.

Lemma wpm_resolve st label user (Q : ResolvedEnrollment → World → Prop) w :
  (∀ w1 r, later w w1 → asked_ca st label (client r) → offered st label user (profile r) w1 → Q r w1) →
  wpm (resolve_enrollment st label user) Q w.
Proof.
  intros HQ. destruct label as [raw|]; cbn [resolve_enrollment].
  - apply wpm_bind, wpm_lift. intros parsed Hparsed. apply wpm_bind, wpm_lift. intros p Hp.
    apply wpm_bind, wpm_pinned. intros w1 Hl Hpin. apply wpm_bind, wpm_lift. intros backend Hb.
    apply HQ; [done|by exists parsed, backend|]. exists parsed. split_and!; [done| |done].
    unfold map_err in Hp. destruct (EstLabel.profile_name parsed); [|done]. by injection Hp as ->.
  - apply wpm_bind, wpm_lift. intros ca Hca%ok_or_Ok. apply wp_bind, wp_resolve_profile.
    intros w1 p Hl Hp. by apply HQ.
Qed.

(** What a client with a token does before the CA is asked, and after. *)
Definition reserved (user : AuthenticatedUser) : list Event :=
  match token_of user with
  | Some tok => [EvDid (EStmt (ConsumeToken tok None)) (Ok true)]
  | None => []
  end.
Definition recorded (user : AuthenticatedUser) (cert : Uuid) (evs : list Event) : Prop :=
  match token_of user with
  | Some tok => ∃ r, evs = [EvDid (EStmt (RecordTokenCert tok cert)) r]
  | None => evs = []
  end.
Lemma wpm_reserve user (Q : unit → World → Prop) w :
  (∀ w1, later w w1 → in_order w w1 (reserved user) → Q tt w1) →
  wpm (reserve_enrollment_token_if_present user) Q w.
Proof.
  intros HQ. unfold reserve_enrollment_token_if_present, reserved in *.
  destruct (token_of user) as [tok|]; [|by apply HQ; [|apply in_order_later]].
  apply wpm_bind, wpm_ordered_stmt; [done|]. intros w1 [] Hl Hd; [|done]. by apply HQ.
Qed.

Lemma wpm_proven client_id resource rq (Q : list u8 * ParsedCsr → World → Prop) w :
  (∀ w1 der csr, later w w1 → submitted rq der csr → Q (der, csr) w1) →
  wpm (proven_csr client_id resource (body rq)) Q w.
Proof.
  intros HQ. unfold proven_csr. apply wpm_bind. unfold decode_body.
  destruct (base64_decode (body rq)) as [der|] eqn:Hb; [|apply wpm_deny].
  destruct (10 <=? length der)%nat; [|apply wpm_deny].
  apply wpm_bind. destruct (parse_csr der) as [csr|e] eqn:Hp; [|apply wpm_deny].
  apply wpm_bind, wpm_lift. intros valid Hv. destruct valid; [|apply wpm_deny].
  apply HQ; [done|]. split_and!; [done..|].
  apply (verify_csr_signature_true verify_text); [done|].
  unfold map_err in Hv. destruct (verify_csr_signature verify_text csr); [|done]. by injection Hv as ->.
Qed.

Lemma wpm_issuable client_id resource (Q : unit → World → Prop) w :
  Q tt w → wpm (reject_unissuable_client_id client_id resource) Q w.
Proof. intros HQ. unfold reject_unissuable_client_id. destruct (ca_requestor _); [done|apply wpm_deny]. Qed.

Lemma safe_refund user : safe (refund_enrollment_token_if_present user).
Proof. apply calm_safe. unfold refund_enrollment_token_if_present. by destruct (token_of user). Qed.
Lemma wp_finalize user cert (Q : unit → World → Prop) w :
  (∀ w1 evs, later w w1 → recorded user cert evs → in_order w w1 evs → Q tt w1) →
  wp (finalize_enrollment_token_if_present user cert) Q w.
Proof.
  intros HQ. unfold finalize_enrollment_token_if_present, recorded in *.
  destruct (token_of user) as [tok|]; [|by apply (HQ w []); [| |apply in_order_later]].
  apply wp_bind, wp_ordered; [done|]. intros w1 r Hl1 Hd _. apply wp_bind, wp_effect; [done|].
  intros w2 x Hl2 _. eapply HQ; [chain|by exists r|].
  exact (in_order_trans _ _ _ _ [] Hd (in_order_later _ _ Hl2)).
Qed.
Lemma safe_consume user cert : safe (consume_enrollment_token_if_present user cert).
Proof.
  apply calm_safe. unfold consume_enrollment_token_if_present. destruct (token_of user); [|done].
  by apply only_bind.
Qed.

(** ** The CA *)

(** A CA issued certificate [cert] for the enrollment. *)
Definition obtained (user : AuthenticatedUser) (e : EstEnrollment) (cert : Uuid) (w : World) : Prop :=
  ∃ ca ask text profile extra now row, did w (EIssue ca ask) (Ok text) ∧ uuid_parse text = Some cert ∧
    issue_request (e_id e) (EstStore.csr_der e) (username user) profile extra = Ok ask ∧
    did w (EStmt (MarkIssued now (e_id e) cert profile)) (Ok row).
(** The same, as the events of a part of the run. *)
Definition obtaining (st : EstState) (label : option string) (user : AuthenticatedUser)
    (e : EstEnrollment) (cert : Uuid) (evs : list Event) : Prop :=
  ∃ ca ask text profile extra now row, uuid_parse text = Some cert ∧ asked_ca st label ca ∧
    issue_request (e_id e) (EstStore.csr_der e) (username user) profile extra = Ok ask ∧
    evs = [EvDid (EIssue ca ask) (Ok text);
           EvDid (EStmt (MarkIssued now (e_id e) cert profile)) (Ok row)].
Lemma obtaining_obtained st label user e cert evs w w' :
  obtaining st label user e cert evs → in_order w w' evs → obtained user e cert w'.
Proof.
  intros (ca & ask & text & p & x & now & row & H1 & H2 & H3 & ->) Ho.
  exists ca, ask, text, p, x, now, row. split_and!; try done; (eapply in_order_did; [exact Ho|]).
  - apply list_elem_of_here.
  - apply list_elem_of_further, list_elem_of_here.
Qed.
Lemma obtained_later user e cert w w' : later w w' → obtained user e cert w → obtained user e cert w'.
Proof.
  intros Hl (ca & ask & text & p & x & now & row & H1 & H2 & H3 & H4).
  exists ca, ask, text, p, x, now, row. split_and!; try done; by eapply did_later.
Qed.

Lemma wpm_enroll st rq c label type user e ca p extra (Q : Uuid → World → Prop) w :
  caller st rq c label type user w → did w (EStmt (InsertEnrollment e)) (Ok e) →
  client_identifier e = username user → enrollment_type e = type → asked_ca st label ca →
  entitled st rq c user (EstStore.csr_der e) p w →
  (∀ w1 cert evs, later w w1 → obtaining st label user e cert evs → in_order w w1 evs → Q cert w1) →
  wpm (enroll ca (e_id e) (EstStore.csr_der e) (username user) p extra) Q w.
Proof.
  intros (Hst & Hev & Hpr & perm & Hc & Hperm) Hd Hid Hty Hca Hent HQ. unfold enroll.
  apply wpm_bind, wpm_lift. intros ask Hask. apply wp_bind, wp_ordered.
  { exists st, rq, c, label, type, perm, user, e, p, extra. by split_and!. }
  intros w1 issued Hl1 Hd1 _. apply wpm_bind, wpm_lift. intros text Htext.
  destruct issued as [text'|err]; [|done]. injection Htext as ->.
  apply wpm_bind, wpm_lift. intros cert Hcert%ok_or_Ok. apply wp_bind. unfold mark_issued.
  apply wp_bind, wp_effect; [done|]. intros w2 now Hl2 _. apply wp_ordered; [done|].
  intros w3 [row|err] Hl3 Hd3 _; [|done].
  eapply HQ; [chain|by exists ca, ask, text, p, extra, now, row|].
  exact (in_order_trans _ _ _ _ _ Hd1 (in_order_since _ _ _ _ Hl2 Hd3)).
Qed.

(** The answer carries the certificate's row, as the CA stored it. *)
Definition delivered (cert : Uuid) (resp : Response) (w : World) : Prop :=
  ∃ row pkcs7, did w (EStmt (FindCertificate cert)) (Ok (Some row)) ∧
    encode_certs_only_pkcs7 [c_der_encoded row] = Ok pkcs7 ∧ status resp = 200 ∧
    response_body resp = BText (base64_encode pkcs7).
Definition delivering (cert : Uuid) (resp : Response) (evs : list Event) : Prop :=
  ∃ row pkcs7, encode_certs_only_pkcs7 [c_der_encoded row] = Ok pkcs7 ∧ status resp = 200 ∧
    response_body resp = BText (base64_encode pkcs7) ∧
    evs = [EvDid (EStmt (FindCertificate cert)) (Ok (Some row))].
Lemma delivering_delivered cert resp evs w w' :
  delivering cert resp evs → in_order w w' evs → delivered cert resp w'.
Proof.
  intros (row & pkcs7 & H1 & H2 & H3 & ->) Ho. exists row, pkcs7. split_and!; try done.
  eapply in_order_did; [exact Ho|apply list_elem_of_here].
Qed.
Lemma wpm_certificate_response client_id enrollment cert action missing (Q : Response → World → Prop) w :
  (∀ w1 resp evs, later w w1 → delivering cert resp evs → in_order w w1 evs → Q resp w1) →
  wpm (certificate_response client_id enrollment cert action missing) Q w.
Proof.
  intros HQ. unfold certificate_response. apply wpm_bind, wpm_ordered_stmt; [done|]. intros w1 found Hl1 Hd1.
  apply wpm_bind, wpm_lift. intros row Hrow%ok_or_Ok. subst found.
  apply wpm_bind, wpm_lift. intros pkcs7 Hp. apply wp_bind.
  apply wp_bind, wp_effect; [done|]. intros w2 x Hl2 _. eapply HQ; [chain|by exists row, pkcs7|].
  exact (in_order_trans _ _ _ _ [] Hd1 (in_order_later _ _ Hl2)).
Qed.

(** ** Enrollment *)

Definition enrolled (user : AuthenticatedUser) (resp : Response) (w : World) : Prop :=
  ∃ e cert, did w (EStmt (InsertEnrollment e)) (Ok e) ∧ client_identifier e = username user ∧
    obtained user e cert w ∧ delivered cert resp w.

(** A simple enrollment as its run does it, step after step: the enrollment of
    the CSR that was sent is stored; a use of the token, if one was presented,
    is taken; a CA is asked for the certificate of that enrollment, and the
    enrollment marked; the certificate is sent to be recorded with the token,
    whatever the answer; and it is read, and carried by the answer. *)
Definition enrollment_steps (st : EstState) (rq : HttpRequest) (label : option string)
    (user : AuthenticatedUser) (resp : Response) (evs : list Event) : Prop :=
  ∃ e csr cert issuing recording delivery, client_identifier e = username user ∧
    submitted rq (EstStore.csr_der e) csr ∧ obtaining st label user e cert issuing ∧
    recorded user cert recording ∧ delivering cert resp delivery ∧
    evs = EvDid (EStmt (InsertEnrollment e)) (Ok e) :: reserved user ++ issuing ++ recording ++ delivery.

Lemma wpm_issue_enrollment st rq label user der csr w0 w : later w0 w →
  caller st rq (SimpleEnrollCall label) label "simple-enroll" user w → submitted rq der csr →
  named st user match parse_csr_subject_dn der with Ok dn => common_name dn | Err _ => None end
    (subject_alternative_names csr) w →
  wpm (issue_enrollment st user label der) (λ resp w', ∃ evs,
    enrollment_steps st rq label user resp evs ∧ in_order w0 w' evs) w.
Proof.
  intros Hl0 Hcall Hsub Hn. unfold issue_enrollment. apply wpm_bind, wpm_new_enrollment.
  intros w1 e Hl1 Ho1 Hid Hty Hcsr. cbv zeta beta.
  pose proof (in_order_did _ _ _ _ _ Ho1 (list_elem_of_here _ _)) as Hd1.
  apply wpm_bind, wpm_on_error; [|intros; apply wpm_deny_enrollment]. apply wpm_resolve.
  intros w2 r Hl2 Hca Hoff.
  apply wpm_bind, wpm_on_error; [|intros; apply wpm_deny_enrollment]. apply wpm_reserve.
  intros w3 Hl3 Hres.
  apply wpm_bind, wpm_on_error;
    [|intros; apply wp_bind, safe_wp; [intros; apply wpm_deny_enrollment|apply safe_refund]].
  rewrite <- Hcsr. eapply wpm_enroll; [since Hcall|since Hd1|done|done|exact Hca| |].
  { rewrite Hcsr. split; [since Hoff|]. split; [exists csr; split; [done|]; since Hn|].
    intros tok Ht. unfold reserved in Hres. rewrite Ht in Hres.
    eapply in_order_did; [exact Hres|apply list_elem_of_here]. }
  intros w4 cert issuing Hl4 Hob Ho4. apply wp_bind, wp_finalize. intros w5 recording Hl5 Hrec Ho5.
  apply wpm_certificate_response. intros w6 resp delivery Hl6 Hdel Ho6. eexists.
  split; [by exists e, csr, cert, issuing, recording, delivery; rewrite Hcsr|].
  apply (in_order_trans _ w1 _ [_]); [by eapply in_order_since|].
  apply (in_order_trans _ w3); [by eapply in_order_since|].
  eapply in_order_trans; [exact Ho4|]. by eapply in_order_trans.
Qed.

Lemma wpm_simple_enroll st rq label user w0 w : later w0 w →
  caller st rq (SimpleEnrollCall label) label "simple-enroll" user w →
  wpm (simple_enroll st user label (body rq)) (λ resp w', ∃ evs,
    enrollment_steps st rq label user resp evs ∧ in_order w0 w' evs) w.
Proof.
  intros Hl0 Hcall. unfold simple_enroll. apply wpm_bind, wpm_issuable.
  apply wpm_bind, wpm_proven. intros w1 der csr Hl1 Hsub.
  cbv zeta. cbn [fst snd]. apply wpm_bind, wpm_named. intros w2 bound Hl2 Hn.
  destruct bound; [|apply wpm_deny].
  eapply wpm_issue_enrollment; [|since Hcall|done|by apply Hn]. chain.
Qed.

(** ** Renewal *)

Lemma broadest_prior cur cand p : broadest_est_profile cur cand = Some p →
  cur = Some p ∨ cand = Some p ∧ offerable p = true.
Proof.
  unfold broadest_est_profile. destruct cand as [q|]; cbn; [|destruct cur; auto].
  destruct (offerable q) eqn:Hq; destruct cur as [u|]; try (by left);
    repeat case_match; intros [= <-]; auto.
Qed.

(** What the loop over earlier enrollments has found. *)
Definition found_prior (user : AuthenticatedUser) (csr : ParsedCsr) (found : bool * bool * option string)
    (w : World) : Prop :=
  (found.1.2 = true → ∃ e, renewed user csr e w) ∧
  ∀ p, found.2 = Some p → offerable p = true ∧ ∃ e, renewed user csr e w ∧ e_profile_name e = Some p.
Lemma found_prior_later user csr found w w' :
  later w w' → found_prior user csr found w → found_prior user csr found w'.
Proof.
  intros Hl [Hm Hp]. split.
  - intros (e & He)%Hm. exists e. by eapply renewed_later.
  - intros p (Ho & e & He & Hep)%Hp. split; [done|]. exists e. split; [by eapply renewed_later|done].
Qed.

Lemma wpm_prior user csr all prior found (Q : bool * bool * option string → World → Prop) w :
  did w (EStmt (ListEnrollments (username user))) (Ok all) → prior ⊆ all → found_prior user csr found w →
  (∀ w1 found, later w w1 → found_prior user csr found w1 → Q found w1) →
  wpm (prior_certificates (trim (Csr.subject_dn csr)) (normalize_san_set (subject_alternative_names csr))
    prior found) Q w.
Proof.
  revert found w. induction prior as [|e prior IH]; intros found w Hall Hsub Hf HQ; [by apply HQ|].
  assert (e ∈ all) as He by (apply Hsub, list_elem_of_here).
  assert (prior ⊆ all) as Hsub' by (intros x Hx; by apply Hsub, list_elem_of_further).
  cbn [prior_certificates]. destruct (certificate_id e) as [id|] eqn:Hid; [|by apply IH].
  apply wpm_bind, wpm_try_stmt; [done|]. intros w1 cert Hl1 Hd1.
  set (matched := match cert with Some c => _ | None => _ end).
  assert (matched = true → renewed user csr e w1) as Hren.
  { subst matched. destruct cert as [row|]; [|done]. intros Hr. exists all, id, row.
    split_and!; try done. since Hall. }
  apply IH; [since Hall|done| |].
  - apply (found_prior_later _ _ _ _ _ Hl1) in Hf as [Hm Hp]. split; cbn.
    + intros [Hx|Hx]%orb_true_iff; [by apply Hm|]. exists e. by apply Hren.
    + intros p. destruct matched; [|apply Hp].
      intros [Hx|[Hx Ho]]%broadest_prior; [by apply Hp|]. split; [done|]. exists e. split; [by apply Hren|done].
  - intros w2 found' Hl2. apply HQ. chain.
Qed.

Lemma wpm_issue_renewal st rq label user der csr prior w :
  caller st rq (SimpleReenrollCall label) label "simple-reenroll" user w → submitted rq der csr →
  found_prior user csr (true, true, prior) w →
  wpm (issue_renewal st user label der prior) (enrolled user) w.
Proof.
  intros Hcall Hsub Hf. unfold issue_renewal. apply wpm_bind, wpm_new_enrollment.
  intros w1 e Hl1 Ho1 Hid Hty Hcsr. cbv zeta beta.
  pose proof (in_order_did _ _ _ _ _ Ho1 (list_elem_of_here _ _)) as Hd1.
  apply wpm_bind, wpm_on_error; [|intros; apply wpm_deny_enrollment]. apply wpm_resolve.
  intros w2 r Hl2 Hca Hoff. assert (later w w2) as Hl by chain.
  apply wpm_bind, wpm_on_error; [|intros; apply wpm_deny_enrollment]. rewrite <- Hcsr.
  eapply wpm_enroll; [since Hcall|since Hd1|done|done|exact Hca| |].
  { rewrite Hcsr. apply (found_prior_later _ _ _ _ _ Hl) in Hf as [Hm Hp].
    destruct (Hm eq_refl) as [e0 He0]. exists csr, e0, (profile r). split_and!; try done.
    unfold renewal_profile. destruct prior as [p|]; [|by left].
    destruct (offerable p) eqn:Ho; [|by left]. right. split; [done|].
    destruct (Hp p eq_refl) as (_ & e' & He' & Hep). by exists e'. }
  intros w4 cert issuing Hl4 Hob Ho4. apply (obtaining_obtained _ _ _ _ _ _ _ _ Hob) in Ho4.
  apply wpm_certificate_response. intros w5 resp delivery Hl5 Hdel Ho5.
  apply (delivering_delivered _ _ _ _ _ Hdel) in Ho5. clear Hob Hdel. rename Ho4 into Hob.
  exists e, cert. split_and!; [since Hd1|done|eapply obtained_later; [|exact Hob]; chain|done].
Qed.

Lemma wpm_simple_reenroll st rq label user w :
  caller st rq (SimpleReenrollCall label) label "simple-reenroll" user w →
  wpm (simple_reenroll st user label (body rq)) (enrolled user) w.
Proof.
  intros Hcall. unfold simple_reenroll. apply wpm_bind, wpm_issuable.
  apply wpm_bind, wpm_proven. intros w1 der csr Hl1 Hsub. cbv zeta. cbn [fst snd].
  apply wpm_bind, wpm_try_stmt; [done|]. intros w2 all Hl2 Hd2.
  apply wpm_bind. eapply (wpm_prior user csr all); [exact Hd2|done|done|].
  intros w3 [[any matched] prior] Hl3 Hf. cbn [fst snd]. destruct matched; [|apply wpm_deny].
  eapply wpm_issue_renewal; [|done|].
  - since Hcall.
  - destruct Hf as [Hm Hp]. by split.
Qed.
End enroll.

(** * What server-side key generation asks a CA for

    As EnrollRuns.v, for the handler that generates the key: the CSR is the
    server's own, and the key is destroyed once the CA has answered. *)

Section keygen.
Context {HL : EstLib} {HE : OrderDesc e_created_at} {HT : OrderDesc t_created_at}.
Abbreviation wp := (Programs.wp (L := est_logic)).
Abbreviation wpm := (Programs.wpm (L := est_logic)).
Abbreviation safe := (Programs.safe (L := est_logic)).

Lemma map_err_Ok {A E} (into : E → Error) (r : result A E) x : map_err into r = Ok x ↔ r = Ok x.
Proof. destruct r; cbn; naive_solver. Qed.

Lemma safe_efs_request client_id efs body : safe (efs_request client_id efs body).
Proof. apply calm_safe. only_auto. Qed.
Lemma safe_csr_request client_id body : safe (csr_request client_id body).
Proof. apply calm_safe. only_auto. Qed.

Lemma wpm_generate_key subject type sans p client_id (Q : ServerKeyGenMaterial → World → Prop) w :
  (∀ w1 m, later w w1 →
     (∃ label, did w1 (EGenerateKey type label true) (Ok (key_handle m))) →
     generated subject sans type (material_csr_der m) w1 → Q m w1) →
  wpm (generate_key_pair_for_client {| kg_subject := subject; kg_key_type := type;
    kg_dns_sans := omap (strip_prefix "DNS:") sans; kg_profile_name := p |} client_id) Q w.
Proof.
  intros HQ. unfold generate_key_pair_for_client. cbn [kg_subject kg_key_type kg_dns_sans kg_profile_name].
  apply wp_bind, wp_effect; [done|]. intros w1 label Hl1 _.
  apply wpm_bind, wpm_try_call; [done|]. intros w2 key Hl2 Hkey.
  apply wpm_bind, wpm_try_call; [done|]. intros w3 spki Hl3 Hspki.
  apply wpm_bind, wpm_try_call; [done|]. intros w4 private Hl4 _.
  apply wpm_bind, wpm_lift. intros alg Halg%map_err_Ok.
  apply wpm_bind, wpm_lift. intros info Hinfo%map_err_Ok.
  apply wpm_bind, wpm_try_call; [done|]. intros w5 raw Hl5 Hraw.
  apply wpm_bind, wpm_lift. intros signature Hsig%map_err_Ok.
  apply wpm_bind, wpm_lift. intros der Hder%map_err_Ok.
  apply wpm_bind, wpm_try_call; [done|]. intros w6 [] Hl6 _.
  apply HQ; [chain|eexists; since Hkey|].
  eexists _, key, spki, alg, info, raw, signature. split_and!; try done; [since Hkey|since Hspki|since Hraw].
Qed.

(** A key of the server was certified, and destroyed. *)
Definition keyed (user : AuthenticatedUser) (w : World) : Prop :=
  ∃ e cert type label key x, did w (EStmt (InsertEnrollment e)) (Ok e) ∧
    client_identifier e = username user ∧ obtained user e cert w ∧
    did w (EGenerateKey type label true) (Ok key) ∧ did w (EDestroyKey key) x.

Lemma safe_key_response efs cert id key :
  safe (if efs : bool then efs_response cert id key else lift (multipart_response cert key)).
Proof. apply calm_safe. only_auto. Qed.

Lemma wpm_issue_server_key st rq label user r subject sans w :
  caller st rq (ServerKeygenCall label) label "server-keygen" user w →
  asked_ca st label (client r) → offered st label user (profile r) w →
  named st user (common_name subject) sans w →
  wpm (issue_server_key user r subject sans) (λ _ w', keyed user w') w.
Proof.
  intros Hcall Hca Hoff Hn. unfold issue_server_key. cbv zeta.
  apply wpm_bind, wpm_generate_key. intros w1 m Hl1 [lbl Hkey] Hgen.
  apply wpm_bind, wpm_new_enrollment. intros w2 e Hl2 Ho2 Hid Hty Hcsr. rewrite <- Hcsr.
  pose proof (in_order_did _ _ _ _ _ Ho2 (list_elem_of_here _ _)) as Hd2.
  apply wp_bind. eapply wp_mono; cycle 1.
  { eapply (wpm_enroll st rq (ServerKeygenCall label)); [since Hcall|done|done|done|exact Hca| |].
    - rewrite Hcsr. split; [since Hoff|]. exists subject, sans. split; [since Hn|since Hgen].
    - intros w3 cert issuing _ Hob Ho3. exact (obtaining_obtained _ _ _ _ _ _ _ _ Hob Ho3). }
  intros issued w3 Hl3 Hob. apply wp_bind, wp_effect; [done|]. intros w4 x Hl4 Hdest.
  apply wpm_bind, wpm_on_error; [|intros; apply wpm_deny_enrollment]. apply wpm_lift.
  intros cert ->. cbn beta iota in Hob.
  assert (keyed user w4) as Hdone.
  { eexists e, cert, _, lbl, (key_handle m), x. split_and!; [since Hd2|done| |since Hkey|done].
    eapply obtained_later; [|exact Hob]; chain. }
  apply wp_bind, safe_wp; [|apply safe_consume]. intros _ w5 Hl5.
  apply wpm_bind, wpm_try_stmt; [done|]. intros w6 found Hl6 _.
  apply wpm_bind, wpm_lift. intros row _.
  apply safe_wpm; [apply safe_key_response|]. intros resp w7 Hl7.
  apply wp_bind, safe_wp; [|apply safe_est_record]. intros _ w8 Hl8.
  destruct Hdone as (e' & cert' & type & lbl' & key & x' & H1 & H2 & H3 & H4 & H5).
  exists e', cert', type, lbl', key, x'. split_and!; [since H1|done| |since H4|since H5].
  eapply obtained_later; [|exact H3]; chain.
Qed.

Lemma wpm_server_key_gen st rq label user w :
  caller st rq (ServerKeygenCall label) label "server-keygen" user w →
  wpm (server_key_gen st user label rq) (λ _ w', keyed user w') w.
Proof.
  intros Hcall. unfold server_key_gen. cbv zeta. apply wpm_bind, wpm_issuable.
  apply wpm_bind, wpm_on_error; [|intros; apply wpm_deny]. apply wpm_resolve. intros w1 r Hl1 Hca Hoff.
  destruct (key_algo r) as [algo|]; [apply wpm_deny|]. apply safe_wpm.
  { destruct (is_json rq); [apply safe_efs_request|apply safe_csr_request]. }
  intros [subject sans] w2 Hl2. cbn [fst snd]. apply wpm_bind, wpm_named. intros w3 bound Hl3 Hn.
  destruct bound; [|apply wpm_deny].
  eapply wpm_issue_server_key; [since Hcall|exact Hca|since Hoff|by apply Hn].
Qed.
End keygen.
