(* ===== verification/EstSafety.v ===== *)
(** * Every run of the EST server keeps the invariant

    The routes, the world's own changes, and so every reachable state; and what
    the program logic shows of a program holds of its runs. *)
From stdpp Require Import base strings list gmap relations.
From Stdlib Require Import ZArith Lia.
From S2P Require Import Prelude Text Programs Credits Roles CaCore EstStore EstCore EstPolicy EstClient EstAuth EstServer EstApi EstInv EnrollRuns.
#[local] Open Scope Z_scope.

Section safety.
Context {HL : EstLib} {HE : OrderDesc e_created_at} {HT : OrderDesc t_created_at}.
Abbreviation wp := (Programs.wp (L := est_logic)).
Abbreviation wpm := (Programs.wpm (L := est_logic)).
Abbreviation safe := (Programs.safe (L := est_logic)).

(** ** Management *)

Lemma wpm_authorize_mgmt st user action (Q : unit → World → Prop) w :
  (any_role_has_permission (roles user) GenerateEstToken = true → Q tt w) →
  wpm (authorize_token_mgmt st user action) Q w.
Proof.
  intros HQ. unfold authorize_token_mgmt. rewrite permitted_spec.
  destruct (any_role_has_permission _ _); [by apply HQ|apply wpm_deny].
Qed.

Lemma wpm_mint st rq req user w :
  EvRequest st rq (MintTokenCall req) ∈ wtrace w → administrator st rq user w →
  wpm (create_enrollment_token st user req) top w.
Proof.
  intros Hev Hadm. unfold create_enrollment_token. apply wpm_bind, wpm_authorize_mgmt. intros Hp.
  apply wpm_bind, wpm_lift. intros identity Hid%map_err_Ok.
  apply wpm_bind. destruct (token_profile (mt_profile req)) as [profile|p] eqn:Hprofile; [|apply wpm_deny].
  cbv zeta. apply wp_bind, wp_effect; [done|]. intros w1 now Hl1 _.
  apply wp_bind, wp_effect; [done|]. intros w2 bytes Hl2 _.
  apply wp_bind, wp_effect; [done|]. intros w3 id Hl3 _.
  apply wp_bind, wp_effect.
  { cbn. exists st, rq, req, user. split_and!; try done; [since Hev|].
    eapply administrator_later; [|exact Hadm]; chain. }
  intros w4 r Hl4 _. apply wp_bind, safe_wp; [|apply safe_est_record]. intros _ w5 _.
  by destruct (is_ok r).
Qed.

Lemma safe_list_tokens st user : safe (list_enrollment_tokens st user).
Proof. apply calm_safe. only_auto. Qed.
Lemma safe_revoke_token st user id : safe (revoke_enrollment_token st user id).
Proof. apply calm_safe. only_auto. Qed.
Lemma safe_list_identities st user account : safe (list_account_identities st user account).
Proof. apply calm_safe. only_auto. Qed.
Lemma safe_add_identity st user account identity : safe (add_account_identity st user account identity).
Proof. apply calm_safe. only_auto. Qed.
Lemma safe_delete_identity st user account identity : safe (delete_account_identity st user account identity).
Proof. apply calm_safe. only_auto. Qed.

(** ** Routes *)

Lemma wp_answered {A} (m : Programs.Prog EstE (result A Error)) (f : A → Response) (Q : A → World → Prop)
    (R : Response → World → Prop) w : wpm m Q w →
  (∀ a w', Q a w' → R (f a) w') → (∀ e w', R (error_response e) w') →
  wp (let^ r := m in Done (match r with Ok a => f a | Err e => error_response e end)) R w.
Proof.
  intros Hm Hok Herr. apply wp_bind. eapply wp_mono; [|exact Hm]. intros [a|e] w' _ HQ; [by apply Hok|apply Herr].
Qed.
Lemma wp_answered_top m w : wpm m top w → wp (answered m) top w.
Proof. intros Hm. by eapply (wp_answered m (λ r, r)). Qed.
Lemma safe_answered_top m w : safe m → wp (answered m) top w.
Proof. intros Hm. eapply wp_answered_top, wp_mono; [|apply Hm]. by intros [] ? _ _. Qed.

(** A handler behind authentication and authorization. *)
Lemma wp_protected st rq p resource handler (R : Response → World → Prop) w : configured st →
  (∀ user w1, later w w1 → principal rq user w1 → any_role_has_permission (roles user) p = true →
     wp (answered (handler user)) R w1) →
  (∀ resp w', status resp ≠ 200 → R resp w') →
  wp (protected st rq p resource handler) R w.
Proof.
  intros Hst Hh Hr. unfold protected, when_authenticated. apply wp_bind.
  pose proof (protected_sound st rq w Hst) as Hp.
  assert (wpm (protected_layer st rq) (λ user w', later w w' ∧ principal rq user w') w) as Hp'.
  { eapply wp_mono; [|exact Hp]. intros [user|e] w' Hl HQ; [by split|done]. }
  eapply wp_mono; [|exact Hp']. intros [user|e] w' _ HQ; [|apply Hr; by destruct e].
  destruct HQ as [Hl HQ]. unfold authz_layer. rewrite permitted_spec.
  destruct (any_role_has_permission (roles user) p) eqn:Hperm; [|by apply Hr].
  destruct (_ <? _)%nat; [by apply Hr|]. by apply Hh.
Qed.
Lemma wp_admin st rq handler w : configured st →
  (∀ user w1, later w w1 → administrator st rq user w1 → wpm (handler user) top w1) →
  wp (admin st rq handler) top w.
Proof.
  intros Hst Hh. unfold admin, when_authenticated. apply wp_bind.
  eapply wp_mono; [|apply (admin_sound st rq w Hst)]. intros [user|e] w' Hl HQ; [|done].
  by apply wp_answered_top, Hh.
Qed.

Lemma wp_enroll_call st rq label type p (c : EstCall) (handler : AuthenticatedUser → M Response)
    (Q : AuthenticatedUser → Response → World → Prop) resource w :
  configured st → EvRequest st rq c ∈ wtrace w → enrollment_call c = Some (label, type, p) →
  (∀ user w1, caller st rq c label type user w1 → wpm (handler user) (Q user) w1) →
  wp (protected st rq p resource handler) top w.
Proof.
  intros Hst Hev Hc Hh. apply wp_protected; [done| |done]. intros user w1 Hl Hp Hperm.
  apply wp_answered_top. apply (wpm_mono _ (Q user)); [by intros|]. apply Hh.
  split_and!; [done|since Hev|done|]. by exists p.
Qed.

Lemma wp_est_route st rq c w : configured st → EvRequest st rq c ∈ wtrace w → wp (route st rq c) top w.
Proof.
  intros Hst Hev. destruct c; cbn [route]; try done;
    try (apply wp_admin; [done|]; intros user w1 Hl Hadm).
  - apply (wp_enroll_call _ _ label "simple-enroll" SubmitRequest (SimpleEnrollCall label) _ (λ _, top));
      [done..|]. intros user w1 Hc. eapply wpm_mono; [|by apply (wpm_simple_enroll st rq label user w1 w1)]. done.
  - eapply wp_enroll_call; [done..|]. intros user w1. apply wpm_simple_reenroll.
  - eapply wp_enroll_call; [done..|]. intros user w1. apply wpm_server_key_gen.
  - apply safe_wpm; [apply safe_list_identities|done].
  - eapply wp_mono; [|apply safe_add_identity]. by intros [] ? _ _.
  - eapply wp_mono; [|apply safe_delete_identity]. by intros [] ? _ _.
  - eapply wpm_mint; [since Hev|done].
  - apply safe_wpm; [apply safe_list_tokens|done].
  - eapply wp_mono; [|apply safe_revoke_token]. by intros [] ? _ _.
Qed.

(** ** Every run *)

Lemma later_same_tokens w w' : wtrace w `prefix_of` wtrace w' → tokens (wdb w') = tokens (wdb w) → later w w'.
Proof.
  intros Ht He. split; [done|]. rewrite He. intros t Hin. exists t. split; [done|apply same_token_refl].
Qed.
Lemma Inv_same w w' : wtrace w' = wtrace w → tokens (wdb w') = tokens (wdb w) → Inv w → Inv w'.
Proof.
  intros Ht He Hi. assert (later w w') as Hl by (apply later_same_tokens; [by rewrite Ht|done]).
  destruct Hi as [I1 I2 I3 I4 I5 I6 I7]. split; rewrite ?Ht, ?He; try done.
  - intros t Hin. eapply minted_later; [done|apply same_token_refl|by apply I3].
  - intros ev ca ask Hev Ha. eapply asked_later; [done|by eapply I7].
Qed.

Lemma est_env_safe w w' ps : Inv w → env w w' ps →
  Inv w' ∧ later w w' ∧ Forall (λ p, wp p top w') ps.
Proof.
  intros Hi He. revert Hi. destruct He as [w0 st rq c Hst|w0 db app Hd Ha|w0 cs]; intros Hi.
  - destruct (kept_quiet (EvRequest st rq c) w0) as [Hi' Hl]; [done..|]. split; [done|]. split; [done|].
    constructor; [|constructor]. apply wp_bind. eapply wp_mono; [|apply wp_est_route]; [by intros|done|].
    apply elem_of_app. right. by apply list_elem_of_singleton.
  - split; [by apply (Inv_same w0)|]. split; [by apply later_same_tokens|constructor].
  - split; [by apply (Inv_same w0)|]. split; [by apply later_same_tokens|constructor].
Qed.

Lemma est_Inv_start db app : Inv (start db app).1.
Proof. split; cbn; try constructor; by intros ? ?; intros; exfalso; eapply not_elem_of_nil. Qed.

Lemma est_reachable_Sys s : reachable s → Programs.Sys (L := est_logic) s.
Proof.
  intros (db & app & Hs). eapply (Programs.Sys_steps (L := est_logic)) in Hs as [Hs _]; [done|..].
  - intros; constructor.
  - apply est_env_safe.
  - split; [apply est_Inv_start|constructor].
Qed.
Lemma est_reachable_steps s s' : reachable s → rtc step s s' → reachable s'.
Proof. intros (db & app & Hr) Hs. exists db, app. by etransitivity. Qed.
Lemma est_runs_wp {A} (p : Prog A) (Q : A → World → Prop) s a s' :
  reachable s → runs p s a s' → wp p Q s.1 → Q a s'.1.
Proof.
  intros Hr Hrun Hp. eapply (Programs.wp_runs (L := est_logic)); [|exact est_env_safe|exact Hrun| |exact Hp].
  - intros; constructor.
  - by apply est_reachable_Sys.
Qed.
End safety.
