(* ===== verification/TokenBudget.v ===== *)
(** * The uses of an enrollment token

    A simple enrollment reserves a use of its token before the CA is asked, and
    spends it by recording the certificate, or returns it.  So along every run
    the certificates recorded with a token, what programs hold in reserve and
    what remains of it are at most the uses it was minted with. *)
From stdpp Require Import base strings list gmap relations.
From Stdlib Require Import ZArith Lia.
From S2P Require Import Prelude Text Programs Credits Roles CaCore EstStore EstCore EstPolicy EstClient EstAuth EstServer EstApi EstInv EnrollRuns EstSafety.
#[local] Open Scope Z_scope.

(** ** Sums over rows *)

Section total.
Context {R : Type} (f : R → Z).
Definition total (l : list R) : Z := sum_of (f <$> l).

Lemma total_nil : total [] = 0.
Proof. done. Qed.
Lemma total_cons x l : total (x :: l) = f x + total l.
Proof. done. Qed.
Lemma total_app l k : total (l ++ k) = total l + total k.
Proof. unfold total. by rewrite fmap_app, sum_of_app. Qed.
Lemma total_map_le g l : (∀ x, x ∈ l → f x ≤ f (g x)) → total l ≤ total (g <$> l).
Proof.
  induction l as [|x l IH]; intros Hg; [done|]. rewrite fmap_cons, !total_cons.
  pose proof (Hg x (list_elem_of_here _ _)). cut (total l ≤ total (g <$> l)); [lia|].
  apply IH. intros y Hy. by apply Hg, list_elem_of_further.
Qed.
Lemma total_map_lt g l x : x ∈ l → f x + 1 ≤ f (g x) → (∀ x, x ∈ l → f x ≤ f (g x)) →
  total l + 1 ≤ total (g <$> l).
Proof.
  induction 1 as [x l|x y l _ IH]; intros Hx Hg; rewrite fmap_cons, !total_cons.
  - cut (total l ≤ total (g <$> l)); [lia|]. apply total_map_le. intros y Hy.
    by apply Hg, list_elem_of_further.
  - pose proof (Hg y (list_elem_of_here _ _)). cut (total l + 1 ≤ total (g <$> l)); [lia|].
    apply IH; [done|]. intros z Hz. by apply Hg, list_elem_of_further.
Qed.
(** At most the row with key [k] loses, one. *)
Lemma total_map_key {K} `{EqDecision K} (key : R → K) k g l : NoDup (key <$> l) →
  (∀ x, x ∈ l → f x - (if decide (key x = k) then 1 else 0) ≤ f (g x)) →
  total l - 1 ≤ total (g <$> l).
Proof.
  induction l as [|x l IH]; intros Hn Hg; [cbn; lia|].
  apply NoDup_cons in Hn as [Hx Hn]. rewrite fmap_cons, !total_cons.
  pose proof (Hg x (list_elem_of_here _ _)) as Hgx.
  assert (∀ y, y ∈ l → f y - (if decide (key y = k) then 1 else 0) ≤ f (g y)) as Hl.
  { intros y Hy. by apply Hg, list_elem_of_further. }
  destruct (decide (key x = k)) as [<-|]; [|specialize (IH Hn Hl); lia].
  cut (total l ≤ total (g <$> l)); [lia|]. apply total_map_le. intros y Hy.
  pose proof (Hl y Hy) as Hgy. rewrite decide_False in Hgy; [lia|]. intros He. apply Hx.
  apply list_elem_of_fmap. by exists y.
Qed.
Lemma total_elem x l : x ∈ l → (∀ y, y ∈ l → 0 ≤ f y) → f x ≤ total l.
Proof.
  induction 1 as [x l|x y l _ IH]; intros H0; rewrite total_cons.
  - cut (0 ≤ total l); [lia|]. assert (∀ y, y ∈ l → 0 ≤ f y) as Hl.
    { intros y Hy. by apply H0, list_elem_of_further. }
    clear H0. induction l as [|z l IH]; [done|]. rewrite total_cons.
    pose proof (Hl z (list_elem_of_here _ _)). cut (0 ≤ total l); [lia|]. apply IH.
    intros y Hy. by apply Hl, list_elem_of_further.
  - pose proof (H0 y (list_elem_of_here _ _)). cut (f x ≤ total l); [lia|]. apply IH.
    intros z Hz. by apply H0, list_elem_of_further.
Qed.
End total.
#[global] Arguments total {R} f l : simpl never.

Section budget.
Context {HL : EstLib} {HE : OrderDesc e_created_at} {HT : OrderDesc t_created_at}.
Variable tok : Uuid.

Definition one_of (id : Uuid) : Z := if decide (id = tok) then 1 else 0.
Lemma one_of_range id : 0 ≤ one_of id ≤ 1.
Proof. unfold one_of. case_decide; lia. Qed.

(** ** What answers give and take *)

Definition stmt_gain {A} (s : Stmt A) : result A string → Z :=
  match s in Stmt A return result A string → Z with
  | ConsumeToken id _ => λ x, match x with Ok true => one_of id | _ => 0 end
  | RefundToken id => λ _, - one_of id
  | RecordTokenCert id _ => λ _, - one_of id
  | _ => λ _, 0
  end.
Definition gain (X : Type) (e : EstE X) : X → Z :=
  match e in EstE X return X → Z with EStmt s => stmt_gain s | _ => λ _, 0 end.

(** ** The balance of the world *)

Definition spent (t : EstEnrollmentTokenRow) : Z :=
  if decide (t_id t = tok) then max_uses t - uses_remaining t else 0.
(** A certificate was recorded with the token. *)
Definition recorded (ev : Event) : bool :=
  match ev with EvDid (EStmt (RecordTokenCert id _)) _ => bool_decide (id = tok) | _ => false end.
Definition records (w : World) : Z := Z.of_nat (length (List.filter recorded (wtrace w))).
Definition balance (w : World) : Z := total spent (tokens (wdb w)) - records w.

Lemma records_observe ev w : records (observe ev w) = records w + (if recorded ev then 1 else 0).
Proof.
  unfold records. cbn. rewrite List.filter_app, length_app. cbn. destruct (recorded ev); cbn; lia.
Qed.
Lemma balance_moved w ev d : balance (moved w ev d) =
  total spent (tokens d) - records w - (if recorded ev then 1 else 0).
Proof.
  unfold balance, moved. rewrite records_observe.
  change (records (with_db d w)) with (records w). cbn. lia.
Qed.

(** A statement gains [n] and leaves the tokens [l]. *)
Lemma spent_update p f ok now d n :
  (∀ t, t ∈ tokens d → p t = true → spent t + n ≤ spent (f t)) → 0 ≤ n →
  total spent (tokens d) ≤ total spent (tokens (update_token p f ok now d).2) ∧
  ((update_token p f ok now d).1 = Ok true →
   total spent (tokens d) + Z.min n 1 ≤ total spent (tokens (update_token p f ok now d).2)).
Proof.
  intros Hf Hn. unfold update_token. destruct (existsb p (tokens d)) eqn:He; [|split; [cbn; lia|done]].
  destruct (_ && _); [|split; [cbn; lia|done]]. cbn [fst snd tokens set_tokens].
  assert (∀ t, t ∈ tokens d → spent t ≤ spent (if p t then f t else t)) as Hle.
  { intros t Ht. destruct (p t) eqn:Hp; [|done]. specialize (Hf t Ht Hp). lia. }
  split; [by apply total_map_le|]. intros _.
  apply existsb_elem_of in He as (t & Ht & Hp).
  destruct (Z_lt_le_dec n 1) as [|Hn1].
  - rewrite Z.min_l by lia. assert (n = 0) as -> by lia. rewrite Z.add_0_r. by apply total_map_le.
  - rewrite Z.min_r by lia. eapply total_map_lt; [exact Ht| |done]. cbn. rewrite Hp.
    specialize (Hf t Ht Hp). lia.
Qed.

Lemma spent_set_use r c u v t : t_id t = tok → spent (set_use r c u v t) = max_uses t - r.
Proof. intros Ht. unfold spent. cbn. by rewrite decide_True. Qed.
Lemma spent_other r c u v t : t_id t ≠ tok → spent (set_use r c u v t) = spent t.
Proof. intros Ht. unfold spent. cbn. by rewrite !decide_False by done. Qed.

Lemma consume_balance id cert now d :
  total spent (tokens d) ≤ total spent (tokens (consume_enrollment_token id cert now d).2) ∧
  ((consume_enrollment_token id cert now d).1 = Ok true →
   total spent (tokens d) + one_of id ≤ total spent (tokens (consume_enrollment_token id cert now d).2)).
Proof.
  unfold consume_enrollment_token. pose proof (one_of_range id) as Hone.
  match goal with |- context [update_token ?p ?f ?ok now d] =>
    destruct (spent_update p f ok now d (one_of id)) as [Hle Hok] end.
  - intros t _ [Hid%bool_decide_eq_true _]%andb_true_iff.
    unfold one_of. subst id. case_decide as Ht.
    + rewrite spent_set_use by done. unfold spent. rewrite decide_True by done. lia.
    + rewrite spent_other by done. lia.
  - apply Hone.
  - split; [exact Hle|]. intros Hx. specialize (Hok Hx). rewrite Z.min_l in Hok by lia. exact Hok.
Qed.

Lemma refund_balance id now d : NoDup (t_id <$> tokens d) →
  total spent (tokens d) - one_of id ≤ total spent (tokens (refund_enrollment_token id now d).2).
Proof.
  intros Hn. pose proof (one_of_range id) as Hone. unfold refund_enrollment_token, update_token.
  destruct (existsb _ _); [|cbn; lia]. destruct (_ && _); [|cbn; lia]. cbn [snd tokens set_tokens].
  unfold one_of in *. destruct (decide (id = tok)) as [->|Hne].
  - apply (total_map_key spent t_id tok); [done|]. intros t Ht. unfold token_with_id.
    case_decide as Hid; case_bool_decide; try done; [|lia].
    rewrite spent_set_use by done. unfold spent. rewrite decide_True by done. lia.
  - rewrite Z.sub_0_r. apply total_map_le. intros t Ht. unfold token_with_id.
    case_bool_decide as Hid; [|done]. rewrite spent_other; [done|congruence].
Qed.

Lemma record_balance id cert now d :
  total spent (tokens d) ≤ total spent (tokens (record_enrollment_token_cert id cert now d).2).
Proof.
  unfold record_enrollment_token_cert. eapply spent_update with (n := 0); [|done]. intros t _ _.
  destruct (decide (t_id t = tok)) as [Ht|]; [|rewrite spent_other by done; lia].
  rewrite spent_set_use by done. unfold spent. rewrite decide_True by done. lia.
Qed.
Lemma revoke_balance id by_user now d :
  total spent (tokens d) ≤ total spent (tokens (EstStore.revoke_enrollment_token id by_user now d).2).
Proof.
  unfold EstStore.revoke_enrollment_token. eapply spent_update with (n := 0); [|done].
  intros t _ Hp. apply andb_true_iff in Hp as [Hp _]. apply andb_true_iff in Hp as [_ Hl].
  apply andb_true_iff in Hl as [Hl%Z.ltb_lt _].
  destruct (decide (t_id t = tok)) as [Ht|]; [|rewrite spent_other by done; lia].
  rewrite spent_set_use by done. unfold spent. rewrite decide_True by done. lia.
Qed.
Lemma insert_balance id hash identity profile by_user expires uses now d :
  total spent (tokens (EstStore.create_enrollment_token id hash identity profile by_user expires uses now d).2) =
  total spent (tokens d).
Proof.
  unfold EstStore.create_enrollment_token. destruct (_ || _); [done|]. cbn [snd tokens set_tokens].
  rewrite total_app, total_cons, total_nil. unfold spent at 2. cbn. case_decide; lia.
Qed.

(** Every statement, whether its answer is that of its run or an error. *)
Lemma run_balance {A} (s : Stmt A) w : Inv w →
  let d := (run_stmt s w).2 in
  (∀ e, total spent (tokens (wdb w)) + stmt_gain s (Err e) ≤
    total spent (tokens d) - (if recorded (EvDid (EStmt s) (Err e)) then 1 else 0)) ∧
  total spent (tokens (wdb w)) + stmt_gain s (run_stmt s w).1 ≤
    total spent (tokens d) - (if recorded (EvDid (EStmt s) (run_stmt s w).1) then 1 else 0).
Proof.
  intros Hi. unfold run_stmt. cbv zeta.
  destruct s; cbn [execute recorded stmt_gain]; try (cbn; split; [intros|]; lia).
  - unfold insert_enrollment. destruct (_ || _); cbn; split; [intros| |intros|]; lia.
  - unfold update_enrollment_status. rewrite enrollments_tokens. split; [intros|]; lia.
  - unfold update_enrollment_certificate. rewrite enrollments_tokens. split; [intros|]; lia.
  - unfold mark_enrollment_issued. rewrite enrollments_tokens. split; [intros|]; lia.
  - unfold add_allowed_identity. destruct (_ && _); [destruct (contains _ _)|]; cbn; split; [intros| |intros| |intros|]; lia.
  - rewrite insert_balance. split; [intros|]; lia.
  - destruct (consume_balance id cert (w_db_now w) (wdb w)) as [Hle Hok].
    split; [intros; lia|]. destruct ((consume_enrollment_token _ _ _ _).1) as [[]|] eqn:Hx; [|lia..].
    rewrite Z.sub_0_r. by apply Hok.
  - pose proof (refund_balance id (w_db_now w) (wdb w) (inv_token_ids _ Hi)). split; [intros|]; lia.
  - pose proof (record_balance id cert (w_db_now w) (wdb w)). unfold one_of.
    case_decide; case_bool_decide; try done; split; [intros| |intros|]; lia.
  - pose proof (revoke_balance id by_user (w_db_now w) (wdb w)). split; [intros|]; lia.
Qed.
(** A statement that had no effect. *)
Lemma failed_gain {A} (s : Stmt A) e :
  stmt_gain s (Err e) + (if recorded (EvDid (EStmt s) (Err e)) then 1 else 0) ≤ 0.
Proof.
  destruct s; cbn; try lia; pose proof (one_of_range id); [lia|]. unfold one_of.
  case_decide; case_bool_decide; try done; lia.
Qed.

Lemma answers_balance w X (e : EstE X) x w' : Inv w → answers w e x w' →
  balance w + gain X e x ≤ balance w'.
Proof.
  intros Hi (d & He & ->). change (observe (EvDid e x) (with_db d w)) with (moved w (EvDid e x) d).
  rewrite balance_moved. unfold balance.
  destruct e as [A s| | | | | | | | | | | | |];
    try (assert (d = wdb w) as -> by (cbn in He; tauto); cbn; lia).
  cbn [gain]. destruct (run_balance s w Hi) as [Herr Hok].
  destruct He as [[-> ->]|(err & -> & [-> | ->])].
  - lia.
  - pose proof (failed_gain s err). lia.
  - specialize (Herr err). lia.
Qed.

(** ** What programs hold *)

(** Effects that take nothing. *)
Definition frugal (X : Type) (e : EstE X) : Prop :=
  match e with
  | EStmt (RefundToken id) | EStmt (RecordTokenCert id _) => id ≠ tok
  | _ => True
  end.
Lemma frugal_gain X (e : EstE X) x : frugal X e → 0 ≤ gain X e x.
Proof.
  destruct e as [A s| | | | | | | | | | | | |]; try done. destruct s; cbn; try done.
  - intros _. pose proof (one_of_range id). destruct x as [[]|]; lia.
  - intros Hid. unfold one_of. rewrite decide_False by done. lia.
  - intros Hid. unfold one_of. rewrite decide_False by done. lia.
Qed.

Record frugal_provider (p : AuthProvider) : Prop := {
  frugal_login c : only frugal (authenticate p c);
  frugal_session t : only frugal (validate_session p t)
}.
Lemma account_frugal name method : frugal_provider (account_provider name method).
Proof. by split. Qed.
Lemma composite_frugal ps : Forall frugal_provider ps → frugal_provider (composite ps).
Proof.
  intros Hps. split.
  - intros c. cbn. destruct (find_provider ps _) as [p|] eqn:Hp; [|done].
    apply find_some in Hp as [Hp%list_elem_of_In _]. rewrite Forall_forall in Hps. by apply Hps.
  - intros t. cbn [validate_session composite]. induction Hps as [|p ps Hp _ IH]; [done|].
    apply only_bind; [apply Hp|]. intros [s|e]; [done|exact IH].
Qed.
Lemma device_frugal p : frugal_provider p → frugal_provider (device_cert_provider p).
Proof.
  intros Hp. split; [|apply Hp]. intros c. pose proof (frugal_login p Hp c).
  cbn [authenticate device_cert_provider]. only_auto.
Qed.
Lemma token_frugal p : frugal_provider p → frugal_provider (enrollment_token_provider p).
Proof.
  intros Hp. split; [apply Hp|]. intros t. pose proof (frugal_session p Hp t).
  cbn [validate_session enrollment_token_provider]. only_auto.
Qed.
Lemma server_frugal mode : frugal_provider (server_provider mode).
Proof.
  destruct mode; cbn [server_provider].
  - apply account_frugal.
  - apply device_frugal, account_frugal.
  - apply composite_frugal, Forall_cons. split; [apply device_frugal, account_frugal|].
    apply Forall_singleton, account_frugal.
  - apply composite_frugal, Forall_cons. split; [apply device_frugal, account_frugal|].
    apply Forall_singleton, account_frugal.
Qed.

Lemma login_frugal p cert : frugal_provider p → only frugal (certificate_login p cert).
Proof. intros [Hl _]. only_auto. Qed.
Lemma bearer_frugal p rq : frugal_provider p → only frugal (bearer_layer p rq).
Proof. intros [_ Hs]. only_auto. Qed.
Lemma basic_frugal p rq : frugal_provider p → only frugal (authenticate_basic p rq).
Proof. intros [Hl _]. only_auto. Qed.
#[local] Hint Resolve login_frugal bearer_frugal basic_frugal token_frugal : only.

Lemma protected_layer_frugal st rq : configured st → only frugal (protected_layer st rq).
Proof.
  intros Hst. unfold protected_layer. rewrite Hst. pose proof (server_frugal (auth_mode st)).
  only_auto.
Qed.
Lemma admin_layer_frugal st rq : configured st → only frugal (admin_layer st rq).
Proof.
  intros Hst. unfold admin_layer. rewrite Hst. pose proof (server_frugal (auth_mode st)).
  only_auto.
Qed.

(** ** Handlers *)

Lemma prior_frugal subject sans prior found : only frugal (prior_certificates subject sans prior found).
Proof.
  revert found. induction prior as [|e prior IH]; intros found; [done|]. cbn [prior_certificates].
  only_auto.
Qed.
#[local] Hint Resolve prior_frugal protected_layer_frugal admin_layer_frugal : only.

Lemma refund_frugal user : token_of user ≠ Some tok → only frugal (refund_enrollment_token_if_present user).
Proof.
  intros Hu. unfold refund_enrollment_token_if_present. destruct (token_of user) as [id|]; [|done].
  by apply only_bind; [apply only_call; congruence|].
Qed.
Lemma finalize_frugal user cert : token_of user ≠ Some tok →
  only frugal (finalize_enrollment_token_if_present user cert).
Proof.
  intros Hu. unfold finalize_enrollment_token_if_present. destruct (token_of user) as [id|]; [|done].
  apply only_bind; [apply only_call; congruence|]. intros r. only_auto.
Qed.
#[local] Hint Resolve refund_frugal finalize_frugal : only.
Lemma simple_enroll_frugal st user label body : token_of user ≠ Some tok →
  only frugal (simple_enroll st user label body).
Proof. intros Hu. only_auto. Qed.

(** Parts that take nothing, with [n] in hand before and after. *)
Lemma credit_frugal {A} (p : Prog A) (Q : A → Z → Prop) n :
  only frugal p → 0 ≤ n → (∀ a m, n ≤ m → Q a m) → credit gain p Q n.
Proof. intros Hp. by apply (credit_free gain frugal); [apply frugal_gain|]. Qed.
Lemma credit_frugalM {A B} (m : M A) (f : A → M B) n : only frugal m → 0 ≤ n →
  (∀ a k, n ≤ k → credit gain (f a) (λ _ j, 0 ≤ j) k) →
  credit gain (bind m f) (λ _ j, 0 ≤ j) n.
Proof.
  intros Hm Hn Hf. apply credit_bind, credit_frugal; [done..|]. intros [a|e] k Hk; [by apply Hf|].
  cbn. lia.
Qed.

(** An error is answered, and nothing taken. *)
Lemma deny_solvent {A} actor enrollment action e (Q : result A Error → Z → Prop) n : 0 ≤ n →
  (∀ m, n ≤ m → Q (Err e) m) → credit gain (deny_enrollment actor enrollment action e) Q n.
Proof.
  intros Hn HQ. apply credit_bind, credit_frugal; [only_auto|done|]. intros _ m Hm. by apply HQ.
Qed.

(** A use is reserved, and then spent or returned. *)
Lemma issue_solvent st user label csr n : token_of user = Some tok → 0 ≤ n →
  credit gain (issue_enrollment st user label csr) (λ _ m, 0 ≤ m) n.
Proof.
  intros Hu Hn. unfold issue_enrollment.
  apply credit_frugalM; [only_auto|done|]. intros e n1 H1. cbv zeta beta.
  apply credit_frugalM; [only_auto|lia|]. intros r n2 H2.
  unfold reserve_enrollment_token_if_present. rewrite Hu.
  apply credit_bind, credit_bind, credit_bind, credit_bind. split; [lia|]. intros spent.
  pose proof (one_of_range tok) as Hone.
  assert (one_of tok = 1) as H1t by (unfold one_of; by rewrite decide_True).
  destruct spent as [[]|err]; cbn [gain stmt_gain credit];
    try (apply deny_solvent; [lia|]; intros; cbn; lia).
  rewrite H1t. apply credit_bind, credit_bind, credit_frugal; [only_auto|lia|]. intros [cert|err] n3 H3.
  - cbn [credit]. apply credit_bind. unfold finalize_enrollment_token_if_present. rewrite Hu.
    apply credit_bind. split; [lia|]. intros x. cbn [gain stmt_gain credit call]. rewrite H1t.
    apply credit_frugal; [only_auto|lia|]. intros _ n4 H4.
    apply credit_frugal; [only_auto|lia|]. intros _ n5 H5. lia.
  - apply credit_bind. unfold refund_enrollment_token_if_present. rewrite Hu.
    apply credit_bind. split; [lia|]. intros x. cbn [gain stmt_gain credit call]. rewrite H1t.
    apply deny_solvent; [lia|]. intros n4 H4. cbn. lia.
Qed.

Lemma simple_enroll_solvent st user label body n : 0 ≤ n →
  credit gain (simple_enroll st user label body) (λ _ m, 0 ≤ m) n.
Proof.
  intros Hn. destruct (decide (token_of user = Some tok)) as [Hu|Hu].
  - unfold simple_enroll. apply credit_frugalM; [only_auto|done|]. intros _ n1 H1.
    apply credit_frugalM; [only_auto|lia|]. intros csr n2 H2. cbv zeta.
    apply credit_frugalM; [only_auto|lia|]. intros [] n3 H3; [apply issue_solvent; [done|lia]|].
    apply credit_frugal; [only_auto|lia|]. intros a m Hm. lia.
  - apply credit_frugal; [by apply simple_enroll_frugal|done|]. intros a m Hm. lia.
Qed.

Lemma serve_solvent st rq c : configured st → solvent gain (serve st rq c) 0.
Proof.
  intros Hst. split; [done|]. apply credit_bind.
  destruct c; try (apply credit_frugal; [cbn [route]; only_auto|done|]; intros a m Hm; cbn; lia).
  cbn [route]. unfold protected, when_authenticated. apply credit_bind, credit_frugal; [only_auto|done|].
  intros [user|e] m Hm; [|cbn; lia]. destruct (authz_layer _ _ _ _); [|cbn; lia].
  destruct (_ <? _)%nat; [cbn; lia|]. apply credit_bind.
  eapply credit_mono; [|by apply simple_enroll_solvent]. intros a k Hk. cbv beta in Hk. cbn. lia.
Qed.

(** ** Every run *)

Lemma est_env_balance w w' ps : Inv w → env w w' ps →
  balance w ≤ balance w' ∧ Forall (λ p, solvent gain p 0) ps.
Proof.
  intros _ He. destruct He as [w0 st rq c Hst|w0 db app Hd Ha|w0 cs].
  - split; [|by constructor; [apply serve_solvent|]]. unfold balance. rewrite records_observe. cbn. lia.
  - split; [|done]. by unfold balance.
  - split; [|done]. by unfold balance.
Qed.

Lemma reachable_backed s : reachable s → backed gain balance s.
Proof.
  intros (db & app & Hs).
  revert s Hs. apply rtc_ind_r.
  - exists []. split; [constructor|]. done.
  - intros s1 s2 Hr Hstep IH.
    eapply (backed_step gain (@answers HL HE HT) (@spawned) env balance Inv); [| | | |exact Hstep|exact IH].
    + intros. by eapply answers_balance.
    + intros. constructor.
    + intros. by eapply est_env_balance.
    + apply (est_reachable_Sys s1). by exists db, app.
Qed.

Lemma reachable_budget s t : reachable s → t ∈ tokens (wdb s.1) → t_id t = tok →
  records s.1 + uses_remaining t ≤ max_uses t.
Proof.
  intros Hr Ht Hid. pose proof (backed_balance gain balance s (reachable_backed s Hr)) as Hb.
  unfold balance in Hb.
  assert (total spent (tokens (wdb s.1)) = spent t) as Heq.
  { pose proof (inv_token_ids _ (proj1 (est_reachable_Sys s Hr))) as Hn. clear Hb.
    induction Ht as [t l|t t' l Ht IH]; rewrite total_cons; apply NoDup_cons in Hn as [Hx Hn].
    - assert (∀ k, (∀ x, x ∈ k → t_id x ≠ tok) → total spent k = 0) as Hz.
      { intros k. induction k as [|x k IH]; intros Hk; [done|]. rewrite total_cons.
        unfold spent at 1. rewrite decide_False by (apply Hk, list_elem_of_here).
        rewrite IH; [lia|]. intros y Hy. by apply Hk, list_elem_of_further. }
      rewrite Hz; [lia|]. intros x Hxl He. apply Hx, list_elem_of_fmap. exists x. by split; [congruence|].
    - unfold spent at 1. rewrite decide_False; [by rewrite IH|]. intros He. apply Hx, list_elem_of_fmap.
      exists t. by split; [congruence|]. }
  rewrite Heq in Hb. unfold spent in Hb. rewrite decide_True in Hb by done. lia.
Qed.
End budget.
