(* ===== verification/EstGuarantees.v ===== *)
(** * What the EST server guarantees

    Runs that can be computed; the theorems about every run of EstInv.v, with
    such a run as the witness of each; and runs that show what does not hold. *)
From stdpp Require Import base strings list gmap sorting relations.
From Stdlib Require Import Ascii ZArith Lia.
From S2P Require Import Prelude Pickle Roles Algorithm Signing Programs Credits Text X509Names Csr CaStore CaCore EstStore GrpcIdentity EstCore EstAuth EstPolicy EstClient EstServer EstApi EstInv EnrollRuns EstSafety TokenBudget.
From S2P Require AuditLog CaSchedule.
#[local] Open Scope Z_scope.

(** * Runs of the EST server that can be computed

    As CaSchedule.v: a schedule says which program takes its next effects, when
    the clocks advance and what the CA's table holds; [play] follows it.  The
    libraries are instantiated: a CSR is its common name and its names, a token
    its own digest, identifiers and keys are counted along the trace. *)

(** ** Orders *)

Section order.
Context {R : Type} (key : R → DateTime).
Definition newer (a b : R) : Prop := key b ≤ key a.
#[local] Instance newer_dec a b : Decision (newer a b). Proof. unfold newer. apply _. Defined.
#[local] Instance newer_total : Total newer. Proof. intros a b. unfold newer. lia. Qed.
#[local] Instance newer_trans : Transitive newer. Proof. intros a b c. unfold newer. lia. Qed.
Definition sorted_desc : OrderDesc key := {|
  desc := merge_sort newer;
  desc_perm := merge_sort_Permutation newer;
  desc_sorted := StronglySorted_merge_sort newer
|}.
End order.
Definition toy_by_enrollment : OrderDesc e_created_at := sorted_desc e_created_at.
Definition toy_by_token : OrderDesc t_created_at := sorted_desc t_created_at.
#[local] Existing Instance toy_by_enrollment.
#[local] Existing Instance toy_by_token.

(** ** Libraries *)

Definition bytes_text (l : list u8) : string :=
  String.string_of_list_ascii ((λ b, ascii_of_N (Z.to_N b)) <$> l).
(** An element with a length of one octet. *)
Definition toy_seq (content : list u8) : list u8 := 48 :: Z.of_nat (length content) :: content.
Definition toy_sequence (b : list u8) : result (list u8 * list u8) string :=
  match b with
  | 48 :: n :: rest => Ok (take (Z.to_nat n) rest, drop (Z.to_nat n) rest)
  | _ => Err "no sequence"
  end.
Definition toy_name (s : string) : list u8 := Z.of_nat (String.length s) :: as_bytes s.
Definition toy_general_name (b : list u8) : option (ParsedName * list u8) :=
  match b with
  | n :: rest => Some (X509Names.DnsName (bytes_text (take (Z.to_nat n) rest)), drop (Z.to_nat n) rest)
  | [] => None
  end.
(** A CSR for a name, with DNS names in its extensionRequest. *)
Definition toy_csr_der (cn : string) (dns : list string) : list u8 :=
  toy_name cn ++ toy_seq (toy_seq (toy_seq (concat (toy_name <$> dns)))).
Definition toy_cn (b : list u8) : string := bytes_text (take (Z.to_nat (default 0 (head b))) (drop 1 b)).
Definition toy_attributes (b : list u8) : list u8 := drop (1 + Z.to_nat (default 0 (head b))) b.

Definition toy_est_csr : CsrLib.
Proof.
  refine {|
    x509_csr b := Ok {| xr_subject := "CN=" +:+ toy_cn b;
      xr_subject_attributes := [("2.5.4.3", Ok (toy_cn b))]; xr_spki_raw := [5]; xr_signature := [1];
      xr_algorithm_oid := "1.2.840.113549.1.1.11";
      xr_attributes := [(EXTENSION_REQUEST, toy_attributes b)]; xr_info_raw := b |};
    der_csr b := Ok {| dc_subject_der := Ok b; dc_subject_text := toy_cn b; dc_spki_der := Ok [5];
      dc_algorithm_oid := "1.2.840.113549.1.1.11"; dc_signature := Some [1]; dc_attributes := [] |};
    name_from_der b := Ok ("CN=" +:+ toy_cn b, [("2.5.4.3", Ok (toy_cn b))]);
    set_content := Ok; sequence_from_der := toy_sequence; oid_from_der b := Ok (SUBJECT_ALT_NAME, b);
    boolean_from_der := Ok; octets_from_der := Ok; general_name_from_der := toy_general_name |}.
  - intros b c rest HH. unfold toy_sequence in HH.
    repeat (case_match; try discriminate HH). injection HH as <- <-. rewrite length_drop. cbn. lia.
  - intros [|n r] c rest HH; [done|]. injection HH as <- <-. rewrite length_drop. cbn. lia.
Defined.

Definition toy_id (u : Uuid) : string := String (ascii_of_N u) "".
Definition toy_est_ca : CaLib := {|
  ca_x509 := toy_x509; ca_csr := toy_est_csr; ca_verify := CaSchedule.toy_verify_lib;
  ca_lowercase := ascii_Lowercase; uuid_to_string := toy_id;
  uuid_parse s := match s with String c "" => Some (N_of_ascii c) | _ => None end;
  hex_encode _ := "hex"; escape_debug s := s; debug_key _ := "key"; debug_algorithm _ := "algorithm";
  debug_length _ := "length"; crypto_text _ := "crypto"; verify_text _ := "verify";
  pem_encode label _ := Ok label; pem_decode s := Err "no";
  name_to_string n := (λ a, at_value a) <$> last n; eku_from_der := of_pickle; ski_from_der := Ok;
  aki_from_der b := Ok (Some b)
|}.
Definition toy_est : EstLib := {|
  es_ca := toy_est_ca;
  base64_encode := bytes_text; base64_decode := Some; base64url_encode b := bytes_text (take 1 b);
  token_digest b := b; uuid_new_v5 n b := n; to_rfc3339 t := "time"; efs_from_slice b := Err "no";
  certificate_subject_text b := Some (bytes_text b); from_utf8 b := Some (bytes_text b);
  CmsCertificate := list u8; CmsSet := list (list u8);
  cms_certificate_from_der := Ok; cms_set_new := []; cms_set_insert c s := Ok (s ++ [c]);
  cms_signed_data s := Ok (concat s); cms_content_info := Ok;
  CsrAttribute := list u8; CsrAttributes := list u8; CsrInfo := list u8;
  extension_request ext := Ok []; csr_attributes_new := []; csr_attributes_insert a s := Ok s;
  csr_info_to_der name spki s :=
    Ok (toy_csr_der (default "" (at_value <$> head name)) []);
  csr_info_from_der := Ok; csr_to_der info a s := Ok info
|}.
#[local] Existing Instance toy_est.

(** ** Answers *)

Definition count (f : Event → bool) (w : World) : nat := length (List.filter f (wtrace w)).
Definition is_uuid (ev : Event) : bool := match ev with EvDid EUuid _ => true | _ => false end.
Definition is_random (ev : Event) : bool := match ev with EvDid (ERandom _) _ => true | _ => false end.
Definition is_issued (ev : Event) : bool := match ev with EvDid (EIssue _ _) (Ok _) => true | _ => false end.

Definition toy_handle (type : KeyType) (label : string) : KeyHandle :=
  {| kh_provider_id := Software; kh_key_id := as_bytes label; kh_key_type := type;
     kh_algorithm := RsaPkcs1Sha256; kh_label := label |}.
Definition toy_public_key : list u8 :=
  match to_pickle {| spki_algorithm := "key"; spki_parameters := None; spki_unused_bits := 0;
                     spki_raw_bytes := [5] |} with Ok b => b | Err _ => [] end.
Definition toy_admin : AuthenticatedUser := new_user 1%N "admin" [Administrator] Password 0.

(** One possible answer of each effect.  The CA that is named "down" fails, and
    so does every login but the session "admin". *)
Definition perform {X} (e : EstE X) (w : World) : X * EstDb :=
  match e in EstE X return X * EstDb with
  | EStmt s => run_stmt s w
  | ENow => (w_app_now w, wdb w)
  | EUuid => (N.of_nat (1 + count is_uuid w), wdb w)
  | ERandom n => (replicate n (Z.of_nat (97 + count is_random w) mod 256), wdb w)
  | EIssue ca _ =>
      (if bool_decide (endpoint ca = "down") then Err "unavailable"
       else Ok (toy_id (N.of_nat (1 + count is_issued w))), wdb w)
  | EAuthenticate _ _ => (Err InvalidCredentials, wdb w)
  | ESession _ token =>
      (if bool_decide (token = "admin") then
         Ok {| si_token := token; si_user := toy_admin; si_expires_at := 0; si_is_valid := true |}
       else Err InvalidSession, wdb w)
  | EGenerateKey type label _ => (Ok (toy_handle type label), wdb w)
  | EExportPublic _ => (Ok toy_public_key, wdb w)
  | EExportPrivate _ => (Ok [9], wdb w)
  | ESign _ _ _ => (Ok (replicate 64 1), wdb w)
  | EDestroyKey _ => (Ok tt, wdb w)
  | EPkcs12 _ _ _ => (Ok [7], wdb w)
  | ERecord _ => (Ok tt, wdb w)
  end.
Definition performed {X} (e : EstE X) (w : World) : World :=
  observe (EvDid e (perform e w).1) (with_db (perform e w).2 w).

Lemma est_perform_answers {X} (e : EstE X) w : answers w e (perform e w).1 (performed e w).
Proof.
  exists (perform e w).2. split; [|done]. destruct e; cbn [perform effect fst snd]; try done.
  - left. by destruct (run_stmt s w).
  - rewrite length_replicate. split_and!; [done| |done]. apply Forall_replicate, is_u8_range.
    by apply Z.mod_pos_bound.
Qed.

Fixpoint exec {A} (p : Prog A) (w : World) : A * World :=
  match p with
  | Done a => (a, w)
  | Step e k => exec (k (perform e w).1) (performed e w)
  end.
Lemma exec_est_runs {A} (p : Prog A) w ts : runs p (w, ts) (exec p w).1 ((exec p w).2, ts).
Proof.
  revert w. induction p as [a|X e k IH]; intros w; cbn [exec]; [constructor|].
  econstructor; [reflexivity|apply (est_perform_answers e w)|].
  unfold spawned. rewrite app_nil_r. apply IH.
Qed.
(** The state after [p] ran alone; the other programs wait. *)
Definition exec_to {A} (p : Prog A) (s : World * list (Prog unit)) : World * list (Prog unit) :=
  ((exec p s.1).2, s.2).
Lemma est_exec_runs_to {A} (p : Prog A) s a : (exec p s.1).1 = a → runs p s a (exec_to p s).
Proof. intros <-. destruct s as [w ts]. apply exec_est_runs. Qed.

(** ** Schedules *)

(** [MServe] runs a request to its end, at most sixty effects. *)
Inductive Move :=
| MRequest (st : EstState) (rq : HttpRequest) (c : EstCall)
| MServe (st : EstState) (rq : HttpRequest) (c : EstCall)
| MTick (db app : DateTime)
| MCa (cs : list Certificate)
| MStep (program effects : nat).

Definition step_at (i : nat) (s : World * list (Prog unit)) : World * list (Prog unit) :=
  match s.2 !! i with
  | Some (Step e k) => (performed e s.1, take i s.2 ++ k (perform e s.1).1 :: drop (S i) s.2)
  | _ => s
  end.
Definition requested (st : EstState) (rq : HttpRequest) (c : EstCall) (s : World * list (Prog unit))
    : World * list (Prog unit) :=
  (observe (EvRequest st rq c) s.1, s.2 ++ [serve st rq c]).
Definition move (m : Move) (s : World * list (Prog unit)) : World * list (Prog unit) :=
  match m with
  | MRequest st rq c => requested st rq c s
  | MServe st rq c => Nat.iter 60 (step_at (length s.2)) (requested st rq c s)
  | MTick db app => (at_time (Z.max db (w_db_now s.1)) (Z.max app (w_app_now s.1)) s.1, s.2)
  | MCa cs => (with_db (set_certs cs (wdb s.1)) s.1, s.2)
  | MStep i n => Nat.iter n (step_at i) s
  end.
Definition play (ms : list Move) (s : World * list (Prog unit)) : World * list (Prog unit) :=
  foldl (λ s m, move m s) s ms.
Definition move_ok (m : Move) : Prop :=
  match m with MRequest st _ _ | MServe st _ _ => configured st | _ => True end.

Lemma est_step_at i s : rtc step s (step_at i s).
Proof.
  destruct s as [w ts]. unfold step_at; cbn [fst snd].
  destruct (ts !! i) as [[a|X e k]|] eqn:Hi; [done| |done].
  rewrite <- (take_drop_middle ts i (Step e k)) at 1 by done. apply rtc_once.
  rewrite <- (app_nil_r (drop (S i) ts)) at 2.
  apply (step_program (@answers _ _ _) (@spawned) env), est_perform_answers.
Qed.
Lemma est_iter_steps n i s : rtc step s (Nat.iter n (step_at i) s).
Proof. induction n as [|n IH]; [done|]. etransitivity; [exact IH|apply est_step_at]. Qed.
Lemma est_request_step st rq c s : configured st → rtc step s (requested st rq c s).
Proof. intros Hst. destruct s as [w ts]. by apply rtc_once, step_env, env_request. Qed.

Lemma est_move_steps m s : move_ok m → rtc step s (move m s).
Proof.
  intros Hm. destruct m as [st rq c|st rq c|db app|cs|i n]; cbn [move].
  - by apply est_request_step.
  - etransitivity; [by apply est_request_step|apply est_iter_steps].
  - destruct s as [w ts]. cbn [fst snd]. apply rtc_once. rewrite <- (app_nil_r ts) at 2.
    apply step_env, env_tick; lia.
  - destruct s as [w ts]. cbn [fst snd]. apply rtc_once. rewrite <- (app_nil_r ts) at 2.
    apply step_env, env_ca.
  - apply est_iter_steps.
Qed.
Lemma est_play_steps ms s : Forall move_ok ms → rtc step s (play ms s).
Proof.
  intros Hms. revert s. induction Hms as [|m ms Hm _ IH]; intros s; [done|].
  etransitivity; [by apply (est_move_steps m)|apply IH].
Qed.
Lemma est_play_reachable ms db app : Forall move_ok ms → reachable (play ms (start db app)).
Proof. intros Hms. exists db, app. by apply est_play_steps. Qed.

(** ** A server, its users and its devices *)

Definition toy_server (ca : string) : EstState := {|
  auth_provider := server_provider BearerToken; rbac_policy := new_policy;
  ca_client := Some {| endpoint := ca |}; ca_certificate_der := None; enroll_profile := "tls_client";
  auth_mode := BearerToken; identity_policy := MatchUsername; trusted_proxy := None;
  ca_backends := ∅; label_routing := None |}.
Definition toy_bearer (token : string) (body : list u8) : HttpRequest := {|
  peer_certificate := None; request_headers := [("authorization", "Bearer " +:+ token)]; body := body |}.
(** Certificates 1, 2 and 3 of the CA. *)
Definition toy_row (n : N) : Certificate := {|
  c_id := n; c_ca_id := 1%N; c_serial_number := [Z.of_N n]; c_subject_dn := "CN=dev"; c_issuer_dn := "CN=CA";
  c_not_before := 0; c_not_after := 0; c_der_encoded := [48; Z.of_N n]; c_pem_encoded := ""; c_revoked := false;
  c_revocation_time := None; c_revocation_reason := None; c_issuer_service := None; c_requestor := None;
  c_profile_name := None; c_metadata := None; c_request_id := None |}.
Definition toy_certs : Move := MCa (toy_row <$> [1%N; 2%N; 3%N]).
(** The administrator mints a token for the device, of so many uses: "a". *)
Definition toy_mint (uses : Z) : Move :=
  MServe (toy_server "up") (toy_bearer "admin" [])
    (MintTokenCall {| mt_identity := "dev"; ttl_seconds := None; mt_profile := None; mt_max_uses := Some uses |}).
Definition toy_enroll (ca : string) (dns : list string) : EstState * HttpRequest * EstCall :=
  (toy_server ca, toy_bearer "a" (toy_csr_der "dev" dns), SimpleEnrollCall None).
Definition toy_keygen : EstState * HttpRequest * EstCall :=
  (toy_server "up", toy_bearer "a" (toy_csr_der "dev" []), ServerKeygenCall None).
Definition asks (r : EstState * HttpRequest * EstCall) : Move := MRequest r.1.1 r.1.2 r.2.
Definition serves (r : EstState * HttpRequest * EstCall) : Move := MServe r.1.1 r.1.2 r.2.
Definition toy_start : World * list (Prog unit) := start (seconds 5) (seconds 5).

Section guarantees.
Context {HL : EstLib} {HE : OrderDesc e_created_at} {HT : OrderDesc t_created_at}.
Abbreviation wp := (Programs.wp (L := est_logic)).

Lemma reachable_inv s : reachable s → Inv s.1.
Proof. intros Hr. apply (est_reachable_Sys s Hr). Qed.

Lemma issue_request_requestor enrollment der client p extra ask :
  issue_request enrollment der client p extra = Ok ask →
  rq_requestor ask = "est::" +:+ client ∧ claimable 3 client ∧ rq_csr_der ask = der ∧
  rq_profile_name ask = p ∧ rq_request_id ask = uuid_to_string enrollment.
Proof.
  unfold issue_request. intros (csr & _ & (subject & _ & (parsed & _ & (key & _ & (r & Hr & HH)%res_bind_Ok)%res_bind_Ok)%res_bind_Ok)%res_bind_Ok)%res_bind_Ok.
  injection HH as <-. cbn. apply ca_requestor_spec in Hr as [-> Hc]. done.
Qed.

(** C5. Whatever requests are served at the same time, and whatever fails: a CA is
    asked only on behalf of a user whom the authentication of a request gave and
    who has the permission, over an enrollment that was stored for that user,
    under the user's own name as the requestor; for a CSR that was sent and
    whose key its sender has, or that the server built for a key it generated;
    for names that the identity rule, or a certificate that is renewed, allow;
    under a profile that the configuration, the label, the token or the renewed
    enrollment gives; and with a reserved use when a token was presented. *)
Theorem enrollment_authorized s ca ask x : reachable s → did s.1 (EIssue ca ask) x →
  authorized ca ask s.1 ∧ ∃ client, rq_requestor ask = "est::" +:+ client ∧ claimable 3 client.
Proof.
  intros Hr Hd. pose proof (reachable_inv s Hr) as Hi.
  assert (authorized ca ask s.1) as Ha by (by eapply inv_asked; [|exact Hd|]).
  split; [done|]. destruct Ha as (st & rq & c & label & type & p & user & e & profile & extra & HH).
  exists (username user). destruct HH as (_ & _ & _ & _ & _ & _ & _ & _ & _ & Hask & _).
  apply issue_request_requestor in Hask as (H1 & H2 & _). done.
Qed.

(** C6. In every run, the certificates that simple enrollments record with a token
    and the uses that remain of it are together at most the uses it was minted
    with, which are 1 to 1000; the uses that remain are never negative. *)
Theorem token_budget s t : reachable s → t ∈ tokens (wdb s.1) →
  0 ≤ uses_remaining t ∧ records (t_id t) s.1 + uses_remaining t ≤ max_uses t ∧ 1 ≤ max_uses t ≤ 1000.
Proof.
  intros Hr Ht. pose proof (reachable_inv s Hr) as Hi. split; [by apply (inv_uses _ Hi)|].
  split; [by apply (reachable_budget (t_id t) s t)|].
  destruct (inv_minted _ Hi t Ht) as (st & rq & req & user & _ & _ & _ & _ & _ & _ & ->).
  unfold clamp, MAX_USE_BUDGET. lia.
Qed.

(** C18. In every run each token was minted in a call of someone who may, for the
    identity that was asked for, as [validate_identity] accepts and normalizes
    it, and for a profile that is offered, if any; no two
    tokens have the same identifier or hash; and the user that the layer before
    an enrollment finds for a request that presents a token is an enrollee with
    the identifier and the identity of the row of that token's hash, which had
    a use left, or else that of a session of an account. *)
Theorem tokens_minted s : reachable s →
  NoDup (t_id <$> tokens (wdb s.1)) ∧ NoDup (token_hash <$> tokens (wdb s.1)) ∧
  (∀ t, t ∈ tokens (wdb s.1) → minted t s.1 ∧
     ∀ p, t_profile t = Some p → offerable p = true) ∧
  ∀ st rq token user s', configured st → presents_token st rq token →
    runs (protected_layer st rq) s (Ok user) s' →
    token_user token user s'.1 ∨ session_user token user s'.1.
Proof.
  intros Hr. pose proof (reachable_inv s Hr) as Hi.
  split; [apply Hi|]. split; [apply Hi|]. split.
  - intros t Ht. pose proof (inv_minted _ Hi t Ht) as Hm. split; [done|].
    destruct Hm as (st & rq & req & user & _ & _ & _ & _ & _ & Hp & _).
    intros p Hpr. rewrite Hpr in Hp. unfold token_profile in Hp. destruct (trim <$> _) as [q|]; [|done].
    destruct (bool_decide (q = "")); [done|]. destruct (offerable q) eqn:Ho; [|done].
    by injection Hp as ->.
  - intros st rq token user s' Hst Ht Hrun.
    exact (est_runs_wp _ _ _ _ _ Hr Hrun (wpm_token_layer st rq token s.1 Hst Ht)).
Qed.

(** C17. What a successful answer to a simple enrollment means, in company of any
    other operations: these steps came one after the other since the request
    was served.  An enrollment of the CSR that was sent was stored, for an
    authenticated user with the permission; a use of the token, if one was
    presented, was taken; then the CA that the configuration names issued a
    certificate for the enrollment, whose row was marked; the certificate was
    sent to be recorded with the token, whatever the answer to that; and it
    was read, as the CA stored it, and is the answer. *)
Theorem simple_enroll_spec s st rq label resp s' : reachable s → configured st →
  EvRequest st rq (SimpleEnrollCall label) ∈ wtrace s.1 →
  runs (route st rq (SimpleEnrollCall label)) s resp s' → status resp = 200 →
  ∃ user evs, principal rq user s'.1 ∧ any_role_has_permission (roles user) SubmitRequest = true ∧
    enrollment_steps st rq label user resp evs ∧ in_order s.1 s'.1 evs.
Proof.
  intros Hr Hst Hev Hrun Hok.
  pose (R := λ (resp : Response) (w : World), status resp = 200 →
    ∃ user evs, principal rq user w ∧ any_role_has_permission (roles user) SubmitRequest = true ∧
      enrollment_steps st rq label user resp evs ∧ in_order s.1 w evs).
  assert (R resp s'.1) as HR; [|by apply HR].
  eapply est_runs_wp; [exact Hr|exact Hrun|]. cbn [route].
  apply wp_protected; [done| |intros resp' w' Hne; by intros ?].
  intros user w1 Hl Hp Hperm. eapply (wp_answered (simple_enroll st user label (body rq)) (λ r, r)).
  - eapply wp_mono; [|apply (wpm_simple_enroll st rq label user s.1 w1 Hl)].
    + intros [a|e] w2 Hl2 HQ; [|exact I]. exact (conj Hl2 HQ).
    + split_and!; [done|since Hev|done|]. by exists SubmitRequest.
  - intros a w2 (Hl2 & evs & He & Ho) _. exists user, evs. split_and!; [since Hp|done|done|done].
  - intros e w2 He. exfalso. by destruct e.
Qed.
End guarantees.

(** ** Runs *)

#[local] Existing Instance toy_by_enrollment.
#[local] Existing Instance toy_by_token.
#[local] Existing Instance toy_est.

(** What a CA issued: for which request, under which identifier. *)
Definition issued_for (ev : Event) : option (IssueCertificateRequest * string) :=
  match ev with EvDid (EIssue _ ask) (Ok text) => Some (ask, text) | _ => None end.
Definition issuances (w : World) : list (IssueCertificateRequest * string) := omap issued_for (wtrace w).

Lemma asked_did w ca ask : find_map asked_for (wtrace w) = Some (ca, ask) → ∃ x, did w (EIssue ca ask) x.
Proof.
  intros (ev & Hev & Ha)%find_map_Some. destruct ev as [|X e x]; [done|].
  destruct e; try discriminate Ha. injection Ha as -> ->. by exists x.
Qed.

(** A device enrolled with a token for a single use. *)
#[local] Definition toy_enrolled : World * list (Prog unit) :=
  play [toy_certs; toy_mint 1; serves (toy_enroll "up" ["admin.test"])] toy_start.
Lemma toy_enrolled_reachable : reachable toy_enrolled.
Proof. apply est_play_reachable. by repeat constructor. Qed.

Lemma enrollment_authorized_witness : ∃ ca ask x,
  reachable toy_enrolled ∧ did toy_enrolled.1 (EIssue ca ask) x ∧ authorized ca ask toy_enrolled.1.
Proof.
  destruct (find_map asked_for (wtrace toy_enrolled.1)) as [[ca ask]|] eqn:Hf; [|vm_compute in Hf; discriminate Hf].
  destruct (asked_did _ _ _ Hf) as [x Hx]. exists ca, ask, x.
  split; [exact toy_enrolled_reachable|]. split; [exact Hx|].
  apply (enrollment_authorized toy_enrolled ca ask x toy_enrolled_reachable Hx).
Defined.

(** Its token, with the use spent. *)
#[local] Definition toy_token : EstEnrollmentTokenRow := {|
  t_id := 1; token_hash := [97]; t_identity := "dev"; t_profile := None; created_by := "admin";
  t_created_at := seconds 5; expires_at := seconds 3605; used_at := Some (seconds 5);
  used_by_cert := Some 1%N; max_uses := 1; uses_remaining := 0; revoked_at := None |}.
Lemma token_budget_witness : toy_token ∈ tokens (wdb toy_enrolled.1) ∧
  records (t_id toy_token) toy_enrolled.1 = 1 ∧
  records (t_id toy_token) toy_enrolled.1 + uses_remaining toy_token ≤ max_uses toy_token.
Proof.
  assert (toy_token ∈ tokens (wdb toy_enrolled.1)) as Hin.
  { apply (list_elem_of_lookup_2 _ 0). vm_compute. reflexivity. }
  split; [exact Hin|]. split; [vm_compute; reflexivity|].
  apply (token_budget toy_enrolled toy_token toy_enrolled_reachable Hin).
Defined.

(** A token was minted, and its holder authenticates. *)
#[local] Definition toy_minted : World * list (Prog unit) := play [toy_certs; toy_mint 1] toy_start.
#[local] Definition toy_login : Prog (result AuthenticatedUser AuthResponse) :=
  protected_layer (toy_server "up") (toy_bearer "a" []).
#[local] Definition toy_holder : AuthenticatedUser := new_user 1%N "dev" [EstEnrollee] ApiKey (seconds 5).
Lemma tokens_minted_witness : runs toy_login toy_minted (Ok toy_holder) (exec_to toy_login toy_minted) ∧
  (token_user "a" toy_holder (exec_to toy_login toy_minted).1 ∨
   session_user "a" toy_holder (exec_to toy_login toy_minted).1) ∧
  NoDup (t_id <$> tokens (wdb toy_minted.1)) ∧ length (tokens (wdb toy_minted.1)) = 1%nat.
Proof.
  assert (reachable toy_minted) as Hr by (apply est_play_reachable; by repeat constructor).
  assert (runs toy_login toy_minted (Ok toy_holder) (exec_to toy_login toy_minted)) as Hrun
    by (apply est_exec_runs_to; vm_compute; reflexivity).
  destruct (tokens_minted toy_minted Hr) as (Hid & _ & _ & Hlogin).
  split; [exact Hrun|]. split; [|split; [exact Hid|vm_compute; reflexivity]].
  apply (Hlogin (toy_server "up") (toy_bearer "a" []) "a" toy_holder _ eq_refl); [|exact Hrun].
  split; [vm_compute; reflexivity|by left].
Defined.

(** The request has come in, and is not served yet. *)
#[local] Definition toy_request : EstState * HttpRequest * EstCall := toy_enroll "up" ["dev"].
#[local] Definition toy_asked : World * list (Prog unit) :=
  play [toy_certs; toy_mint 1; asks toy_request] toy_start.
#[local] Definition toy_route : Prog Response := route toy_request.1.1 toy_request.1.2 (SimpleEnrollCall None).
Lemma toy_asked_reachable : reachable toy_asked.
Proof. apply est_play_reachable. by repeat constructor. Qed.
Lemma simple_enroll_spec_witness : ∃ resp user,
  runs toy_route toy_asked resp (exec_to toy_route toy_asked) ∧ status resp = 200 ∧
  ∃ evs, enrollment_steps toy_request.1.1 toy_request.1.2 None user resp evs ∧
    in_order toy_asked.1 (exec_to toy_route toy_asked).1 evs.
Proof.
  pose proof (est_exec_runs_to toy_route toy_asked _ eq_refl) as Hrun.
  set (resp := (exec toy_route toy_asked.1).1) in Hrun.
  assert (status resp = 200) as Hok by (vm_compute; reflexivity).
  assert (EvRequest toy_request.1.1 toy_request.1.2 (SimpleEnrollCall None) ∈ wtrace toy_asked.1) as Hev.
  { apply elem_of_app. right. apply list_elem_of_here. }
  destruct (simple_enroll_spec toy_asked toy_request.1.1 toy_request.1.2 None resp _
    toy_asked_reachable eq_refl Hev Hrun Hok) as (user & evs & _ & _ & He & Ho).
  exists resp, user. split; [exact Hrun|]. split; [exact Hok|]. exists evs. by split.
Defined.

(** ** What does not hold *)

(** One matching name is enough: a client whose token is for one identity obtains
    a certificate that names another host as well. *)
Theorem extra_names_certified : ∃ s t ask,
  reachable s ∧ tokens (wdb s.1) = [t] ∧ t_identity t = "dev" ∧
  issuances s.1 = [(ask, toy_id 1)] ∧ rq_requestor ask = "est::" +:+ t_identity t ∧
  EstCore.DnsName "admin.test" ∈ rq_subject_alt_names ask.
Proof.
  exists toy_enrolled. destruct (tokens (wdb toy_enrolled.1)) as [|t [|]] eqn:Ht;
    [vm_compute in Ht; discriminate Ht| |vm_compute in Ht; discriminate Ht].
  destruct (issuances toy_enrolled.1) as [|[ask text] [|]] eqn:Hi;
    [vm_compute in Hi; discriminate Hi| |vm_compute in Hi; discriminate Hi].
  exists t, ask. split; [exact toy_enrolled_reachable|]. split; [done|].
  vm_compute in Ht. injection Ht as <-. vm_compute in Hi. injection Hi as <- <-.
  split; [done|]. split; [done|]. split; [done|]. apply list_elem_of_here.
Qed.

(** A token for a single use pays for two certificates with server-side keys: the
    use is taken after the certificate was issued, and whether there was one left
    is not looked at. *)
Theorem single_use_token_twice : ∃ s t a1 a2,
  reachable s ∧ tokens (wdb s.1) = [t] ∧ max_uses t = 1 ∧
  issuances s.1 = [(a1, toy_id 1); (a2, toy_id 2)] ∧
  rq_requestor a1 = "est::" +:+ t_identity t ∧ rq_requestor a2 = "est::" +:+ t_identity t ∧
  did s.1 (EStmt (ConsumeToken (t_id t) (Some 1%N))) (Ok true) ∧
  did s.1 (EStmt (ConsumeToken (t_id t) (Some 2%N))) (Ok false).
Proof.
  set (s := play [toy_certs; toy_mint 1; asks toy_keygen; asks toy_keygen; MStep 1 2; MStep 2 60;
    MStep 1 60] toy_start). exists s.
  destruct (tokens (wdb s.1)) as [|t [|]] eqn:Ht;
    [vm_compute in Ht; discriminate Ht| |vm_compute in Ht; discriminate Ht].
  destruct (issuances s.1) as [|[a1 x1] [|[a2 x2] [|]]] eqn:Hi;
    [vm_compute in Hi; discriminate Hi|vm_compute in Hi; discriminate Hi|
    |vm_compute in Hi; discriminate Hi].
  exists t, a1, a2. split; [apply est_play_reachable; by repeat constructor|]. split; [done|].
  vm_compute in Ht. injection Ht as <-. vm_compute in Hi. injection Hi as <- <- <- <-.
  split_and!; try done.
  - apply (list_elem_of_lookup_2 _ 27). vm_compute. reflexivity.
  - apply (list_elem_of_lookup_2 _ 45). vm_compute. reflexivity.
Qed.

(** A revoked token lives again when an enrollment that had reserved a use fails:
    the refund does not look at the revocation, and the token then pays for a
    certificate. *)
Theorem revoked_token_revived : ∃ s before later id hash identity expires ca ask text,
  reachable s ∧ wtrace s.1 = before ++ EvDid (EStmt (RevokeToken id None)) (Ok true) :: later ∧
  EvDid (EStmt (FindLiveToken hash)) (Ok (Some (id, identity, expires))) ∈ later ∧
  EvDid (EIssue ca ask) (Ok text) ∈ later ∧ rq_requestor ask = "est::" +:+ identity.
Proof.
  set (s := play [toy_certs; toy_mint 2; asks (toy_enroll "down" []); MStep 1 7;
    MServe (toy_server "up") (toy_bearer "admin" []) (RevokeTokenCall (toy_id 1)); MStep 1 60;
    serves (toy_enroll "up" [])] toy_start).
  destruct (issuances s.1) as [|[ask text] [|]] eqn:Hi;
    [vm_compute in Hi; discriminate Hi| |vm_compute in Hi; discriminate Hi].
  exists s, (take 17 (wtrace s.1)), (drop 18 (wtrace s.1)), 1%N, [97], "dev", (seconds 3605),
    {| endpoint := "up" |}, ask, text.
  vm_compute in Hi. injection Hi as <- <-.
  split; [apply est_play_reachable; by repeat constructor|]. split.
  - symmetry. apply take_drop_middle. vm_compute. reflexivity.
  - split_and!; [|  |done].
    + apply (list_elem_of_lookup_2 _ 5). vm_compute. reflexivity.
    + apply (list_elem_of_lookup_2 _ 12). vm_compute. reflexivity.
Qed.
