(* ===== verification/ScmsStore.v ===== *)
(** * The smartcard tables

    [crates/ostrich-db/src/repository/scms.rs] and [models/scms.rs], on the tables
    of [migrations/00001_create_base_tables.sql] and [00005_scms_token_fields.sql]
    with their unique constraints and foreign keys.  Rows are in the order of
    insertion.  [Uuid::new_v4()] and [Utc::now()] of a call are its arguments; a
    statement may fail on its own, so the lengths of columns are left out, and so is
    the reference of a key to a certificate, which no caller gives. *)
From stdpp Require Import base list strings sorting.
From Stdlib Require Import ZArith.
From S2P Require Import Prelude.
#[local] Open Scope Z_scope.

(** The values that the servers put into details. *)
Inductive Json :=
| JStr (s : string) | JNum (n : Z) | JBool (b : bool) | JUuid (u : Uuid) | JStrs (l : list string) | JNull.

Record TokenModelRow := {
  m_id : Uuid; m_manufacturer : string; m_model : string; m_atr : option string;
  m_supported_key_types : list string; m_max_pin_length : Z; m_min_pin_length : Z; m_supports_puk : bool;
  m_firmware_version : option string; m_key_capacity : option Z; m_cert_capacity : option Z;
  m_pkcs11_support : bool; m_created_at : DateTime
}.
Record TokenRow := {
  t_id : Uuid; t_serial_number : string; t_token_model_id : Uuid; t_status : string;
  t_assigned_to : option string; t_pin_attempts_remaining : Z; t_puk_attempts_remaining : Z;
  t_so_pin_attempts_remaining : Z; t_label : option string; t_assigned_at : option DateTime;
  t_blocked_at : option DateTime; t_retired_at : option DateTime; t_initialized_at : option DateTime;
  t_expires_at : option DateTime; t_created_at : DateTime; t_updated_at : DateTime
}.
Record TokenKeyRow := {
  k_id : Uuid; k_token_id : Uuid; k_label : string; k_key_type : string; k_algorithm : string;
  k_key_size : option Z; k_usage : list string; k_certificate_id : option Uuid; k_created_at : DateTime
}.
Record TokenEventRow := {
  ev_id : Uuid; ev_token_id : Uuid; ev_event_type : string; ev_actor : string;
  ev_details : option (list (string * Json)); ev_timestamp : DateTime
}.
Record ScmsDb := {
  models : list TokenModelRow; tokens : list TokenRow; keys : list TokenKeyRow; events : list TokenEventRow
}.
Definition set_models x (d : ScmsDb) : ScmsDb := {| models := x; tokens := tokens d; keys := keys d; events := events d |}.
Definition set_tokens x (d : ScmsDb) : ScmsDb := {| models := models d; tokens := x; keys := keys d; events := events d |}.
Definition set_keys x (d : ScmsDb) : ScmsDb := {| models := models d; tokens := tokens d; keys := x; events := events d |}.
Definition set_events x (d : ScmsDb) : ScmsDb := {| models := models d; tokens := tokens d; keys := keys d; events := x |}.

(** The changes of a token that the update statements make. *)
Record TokenChange := {
  c_status : option string; c_assigned_to : option string; c_pin : option Z; c_puk : option Z;
  c_so_pin : option Z; c_label : option (option string);
  c_initialized_at : option (option DateTime); c_expires_at : option (option DateTime)
}.
Definition apply_change (now : DateTime) (c : TokenChange) (t : TokenRow) : TokenRow := {|
  t_id := t_id t; t_serial_number := t_serial_number t; t_token_model_id := t_token_model_id t;
  t_status := default (t_status t) (c_status c);
  t_assigned_to := match c_assigned_to c with Some a => Some a | None => t_assigned_to t end;
  t_pin_attempts_remaining := default (t_pin_attempts_remaining t) (c_pin c);
  t_puk_attempts_remaining := default (t_puk_attempts_remaining t) (c_puk c);
  t_so_pin_attempts_remaining := default (t_so_pin_attempts_remaining t) (c_so_pin c);
  t_label := default (t_label t) (c_label c); t_assigned_at := t_assigned_at t;
  t_blocked_at := t_blocked_at t; t_retired_at := t_retired_at t;
  t_initialized_at := default (t_initialized_at t) (c_initialized_at c);
  t_expires_at := default (t_expires_at t) (c_expires_at c);
  t_created_at := t_created_at t; t_updated_at := now
|}.

(** ** The statements *)

Inductive Stmt : Type → Type :=
| InsertModel (m : TokenModelRow) : Stmt TokenModelRow
| ListModels : Stmt (list TokenModelRow)
| FindModel (id : Uuid) : Stmt (option TokenModelRow)
| InsertToken (t : TokenRow) : Stmt TokenRow
| UpdateToken (id : Uuid) (now : DateTime) (c : TokenChange) : Stmt TokenRow
| FindToken (id : Uuid) : Stmt (option TokenRow)
| FindTokenBySerial (serial : string) : Stmt (option TokenRow)
| ListTokens (status assigned_to : option string) (limit offset : option Z) : Stmt (list TokenRow)
| DeleteToken (id : Uuid) : Stmt unit
| InsertKey (k : TokenKeyRow) : Stmt TokenKeyRow
| ListKeys (token_id : Uuid) : Stmt (list TokenKeyRow)
| FindKey (id : Uuid) : Stmt (option TokenKeyRow)
| DeleteKey (id : Uuid) : Stmt unit
| InsertEvent (e : TokenEventRow) : Stmt TokenEventRow
| ListEvents (token_id : Uuid) : Stmt (list TokenEventRow).

Definition UNIQUE_VIOLATION : string := "duplicate key value violates unique constraint".
Definition FOREIGN_KEY_VIOLATION : string := "violates foreign key constraint".
Definition ROW_NOT_FOUND : string := "no rows returned by a query that expected to return at least one row".

Definition model_clash (a b : TokenModelRow) : bool :=
  bool_decide (m_id a = m_id b) ||
  bool_decide (m_manufacturer a = m_manufacturer b) && bool_decide (m_model a = m_model b).
Definition token_clash (a b : TokenRow) : bool :=
  bool_decide (t_id a = t_id b) || bool_decide (t_serial_number a = t_serial_number b).
Definition key_clash (a b : TokenKeyRow) : bool :=
  bool_decide (k_id a = k_id b) ||
  bool_decide (k_token_id a = k_token_id b) && bool_decide (k_label a = k_label b).
Definition has_token (id : Uuid) (d : ScmsDb) : bool := existsb (λ t, bool_decide (t_id t = id)) (tokens d).

Definition insert {R} (clash : R → R → bool) (parent : bool) (r : R) (rows : list R)
    (set_rows : list R → ScmsDb) (d : ScmsDb) : result R string * ScmsDb :=
  if existsb (clash r) rows then (Err UNIQUE_VIOLATION, d)
  else if negb parent then (Err FOREIGN_KEY_VIOLATION, d)
  else (Ok r, set_rows (rows ++ [r])).
(** [LIMIT] and [OFFSET]. *)
Definition page {R} (limit offset : option Z) (rows : list R) : list R :=
  let rows := match offset with Some n => drop (Z.to_nat n) rows | None => rows end in
  match limit with Some n => take (Z.to_nat n) rows | None => rows end.
Definition matches (wanted : option string) (value : option string) : bool :=
  match wanted with None => true | Some s => bool_decide (value = Some s) end.

(** [ORDER BY manufacturer, model]; texts are ordered by their bytes. *)
Definition model_le (a b : TokenModelRow) : bool :=
  if bool_decide (m_manufacturer a = m_manufacturer b) then String.leb (m_model a) (m_model b)
  else String.leb (m_manufacturer a) (m_manufacturer b).
(** [ORDER BY created_at]; rows of one instant are in the order of insertion. *)
Definition by_time {R} (time : R → DateTime) : list R → list R := merge_sort (λ a b, time a <=? time b).
Definition newest {R} (time : R → DateTime) : list R → list R := merge_sort (λ a b, time b <=? time a).
Definition execute {A} (s : Stmt A) (d : ScmsDb) : result A string * ScmsDb :=
  match s in Stmt A return result A string * ScmsDb with
  | InsertModel m => insert model_clash true m (models d) (λ x, set_models x d) d
  | ListModels => (Ok (merge_sort model_le (models d)), d)
  | FindModel id => (Ok (head (List.filter (λ m, bool_decide (m_id m = id)) (models d))), d)
  | InsertToken t =>
      insert token_clash (existsb (λ m, bool_decide (m_id m = t_token_model_id t)) (models d)) t
        (tokens d) (λ x, set_tokens x d) d
  | UpdateToken id now c =>
      match head (List.filter (λ t, bool_decide (t_id t = id)) (tokens d)) with
      | Some t =>
          (Ok (apply_change now c t),
           set_tokens ((λ t, if bool_decide (t_id t = id) then apply_change now c t else t) <$> tokens d) d)
      | None => (Err ROW_NOT_FOUND, d)
      end
  | FindToken id => (Ok (head (List.filter (λ t, bool_decide (t_id t = id)) (tokens d))), d)
  | FindTokenBySerial serial =>
      (Ok (head (List.filter (λ t, bool_decide (t_serial_number t = serial)) (tokens d))), d)
  | ListTokens status assigned_to limit offset =>
      (Ok (page limit offset (List.filter (λ t, matches status (Some (t_status t)) &&
                                                 matches assigned_to (t_assigned_to t)) (newest t_created_at (tokens d)))), d)
  | DeleteToken id =>
      (Ok tt, {| models := models d; tokens := List.filter (λ t, negb (bool_decide (t_id t = id))) (tokens d);
                 keys := List.filter (λ k, negb (bool_decide (k_token_id k = id))) (keys d);
                 events := List.filter (λ e, negb (bool_decide (ev_token_id e = id))) (events d) |})
  | InsertKey k => insert key_clash (has_token (k_token_id k) d) k (keys d) (λ x, set_keys x d) d
  | ListKeys token_id => (Ok (by_time k_created_at (List.filter (λ k, bool_decide (k_token_id k = token_id)) (keys d))), d)
  | FindKey id => (Ok (head (List.filter (λ k, bool_decide (k_id k = id)) (keys d))), d)
  | DeleteKey id => (Ok tt, set_keys (List.filter (λ k, negb (bool_decide (k_id k = id))) (keys d)) d)
  | InsertEvent e =>
      insert (λ a b, bool_decide (ev_id a = ev_id b)) (has_token (ev_token_id e) d) e (events d)
        (λ x, set_events x d) d
  | ListEvents token_id => (Ok (newest ev_timestamp (List.filter (λ e, bool_decide (ev_token_id e = token_id)) (events d))), d)
  end.

(** ** The calls of the repository *)

Definition create_token_model (id : Uuid) (now : DateTime) (manufacturer model : string) (atr : option string)
    (supported_key_types : list string) (max_pin_length min_pin_length : Z) (supports_puk : bool)
    (firmware_version : option string) (key_capacity cert_capacity : option Z) (pkcs11_support : bool)
    : Stmt TokenModelRow :=
  InsertModel {| m_id := id; m_manufacturer := manufacturer; m_model := model; m_atr := atr;
    m_supported_key_types := supported_key_types; m_max_pin_length := max_pin_length;
    m_min_pin_length := min_pin_length; m_supports_puk := supports_puk;
    m_firmware_version := firmware_version; m_key_capacity := key_capacity;
    m_cert_capacity := cert_capacity; m_pkcs11_support := pkcs11_support; m_created_at := now |}.
Definition create_token (id : Uuid) (now : DateTime) (serial_number : string) (token_model_id : Uuid)
    (status : string) (label : option string) : Stmt TokenRow :=
  InsertToken {| t_id := id; t_serial_number := serial_number; t_token_model_id := token_model_id;
    t_status := status; t_assigned_to := None; t_pin_attempts_remaining := 3;
    t_puk_attempts_remaining := 10; t_so_pin_attempts_remaining := 3; t_label := label;
    t_assigned_at := None; t_blocked_at := None; t_retired_at := None; t_initialized_at := None;
    t_expires_at := None; t_created_at := now; t_updated_at := now |}.
Definition update_token (now : DateTime) (id : Uuid) (status assigned_to : option string)
    (pin_attempts puk_attempts : option Z) : Stmt TokenRow :=
  UpdateToken id now {| c_status := status; c_assigned_to := assigned_to; c_pin := pin_attempts;
    c_puk := puk_attempts; c_so_pin := None; c_label := None; c_initialized_at := None; c_expires_at := None |}.
Definition update_token_lifecycle (now : DateTime) (id : Uuid)
    (initialized_at expires_at : option (option DateTime)) : Stmt TokenRow :=
  UpdateToken id now {| c_status := None; c_assigned_to := None; c_pin := None; c_puk := None;
    c_so_pin := None; c_label := None; c_initialized_at := initialized_at; c_expires_at := expires_at |}.
Definition update_token_so_pin_attempts (now : DateTime) (id : Uuid) (so_pin_attempts : Z) : Stmt TokenRow :=
  UpdateToken id now {| c_status := None; c_assigned_to := None; c_pin := None; c_puk := None;
    c_so_pin := Some so_pin_attempts; c_label := None; c_initialized_at := None; c_expires_at := None |}.
Definition update_token_label (now : DateTime) (id : Uuid) (label : option string) : Stmt TokenRow :=
  UpdateToken id now {| c_status := None; c_assigned_to := None; c_pin := None; c_puk := None;
    c_so_pin := None; c_label := Some label; c_initialized_at := None; c_expires_at := None |}.
Definition create_token_key (id : Uuid) (now : DateTime) (token_id : Uuid) (label key_type algorithm : string)
    (key_size : option Z) (usage : list string) (certificate_id : option Uuid) : Stmt TokenKeyRow :=
  InsertKey {| k_id := id; k_token_id := token_id; k_label := label; k_key_type := key_type;
    k_algorithm := algorithm; k_key_size := key_size; k_usage := usage;
    k_certificate_id := certificate_id; k_created_at := now |}.
Definition record_token_event (id : Uuid) (now : DateTime) (token_id : Uuid) (event_type actor : string)
    (details : option (list (string * Json))) : Stmt TokenEventRow :=
  InsertEvent {| ev_id := id; ev_token_id := token_id; ev_event_type := event_type; ev_actor := actor;
    ev_details := details; ev_timestamp := now |}.
