(* ===== verification/ScmsServer.v ===== *)
(** * The smartcard management server

    [crates/ostrich-scms/src/token.rs], [error.rs] and [rest.rs]: tokens and their
    life cycle as the service sees them, and every handler as a program over the
    tables.  The user of a request is the one that [AuthLayer::authenticate] found;
    the probes are left out. *)
From stdpp Require Import base list strings pretty.
From Stdlib Require Import ZArith.
From S2P Require Import Prelude Programs Roles ScmsStore.
#[local] Open Scope Z_scope.

(** ** Tokens (token.rs) *)

Inductive TokenStatus := Uninitialized | Initialized | Active | Suspended | Blocked | Expired | Revoked.
#[export] Instance TokenStatus_eq_dec : EqDecision TokenStatus.
Proof. solve_decision. Defined.

Record TokenModel := {
  tm_id : Uuid; manufacturer : string; model_name : string; firmware_version : string;
  supported_algorithms : list string; key_capacity : Z; cert_capacity : Z; pkcs11_support : bool;
  tm_created_at : DateTime
}.
Record Token := {
  id : Uuid; serial_number : string; model_id : Uuid; label : string; status : TokenStatus;
  assigned_to : option string; pin_retry_count : u8; max_pin_retries : u8; so_pin_retry_count : u8;
  max_so_pin_retries : u8; manufactured_at : DateTime; initialized_at : option DateTime;
  personalized_at : option DateTime; expires_at : option DateTime; revoked_at : option DateTime;
  created_at : DateTime; updated_at : DateTime
}.
Record TokenKey := {
  tk_id : Uuid; token_id : Uuid; tk_label : string; key_type : string; key_size : Z; algorithm : string;
  certificate_id : option Uuid; usage : list string; tk_created_at : DateTime
}.
Record TokenEvent := {
  te_id : Uuid; te_token_id : Uuid; event_type : string; actor : string;
  details : option (list (string * Json)); occurred_at : DateTime
}.

(** A token with other values in the fields that change. *)
Definition set_token (st : TokenStatus) (to : option string) (pin : u8) (init pers rev : option DateTime)
    (updated : DateTime) (t : Token) : Token := {|
  id := id t; serial_number := serial_number t; model_id := model_id t; label := label t; status := st;
  assigned_to := to; pin_retry_count := pin; max_pin_retries := max_pin_retries t;
  so_pin_retry_count := so_pin_retry_count t; max_so_pin_retries := max_so_pin_retries t;
  manufactured_at := manufactured_at t; initialized_at := init; personalized_at := pers;
  expires_at := expires_at t; revoked_at := rev; created_at := created_at t; updated_at := updated
|}.
Definition set_status (st : TokenStatus) (now : DateTime) (t : Token) : Token :=
  set_token st (assigned_to t) (pin_retry_count t) (initialized_at t) (personalized_at t) (revoked_at t) now t.

(** The methods; [now] and [now'] are the calls of [Utc::now()] in order. *)
Definition Token_new (new_id : Uuid) (serial_number : string) (model_id : Uuid) (label : string) (now : DateTime)
    : Token := {|
  id := new_id; serial_number := serial_number; model_id := model_id; label := label;
  status := Uninitialized; assigned_to := None; pin_retry_count := 3; max_pin_retries := 3;
  so_pin_retry_count := 3; max_so_pin_retries := 3; manufactured_at := now; initialized_at := None;
  personalized_at := None; expires_at := None; revoked_at := None; created_at := now; updated_at := now
|}.
Definition initialize (now now' : DateTime) (t : Token) : Token :=
  set_token Initialized (assigned_to t) (pin_retry_count t) (Some now) (personalized_at t) (revoked_at t) now' t.
Definition personalize (to : string) (now now' : DateTime) (t : Token) : Token :=
  set_token Active (Some to) (pin_retry_count t) (initialized_at t) (Some now) (revoked_at t) now' t.
Definition suspend : DateTime → Token → Token := set_status Suspended.
Definition resume (now : DateTime) (t : Token) : Token :=
  if bool_decide (status t = Suspended) then set_status Active now t else t.
Definition block : DateTime → Token → Token := set_status Blocked.
Definition unblock (now : DateTime) (t : Token) : Token :=
  if bool_decide (status t = Blocked) then
    set_token Active (assigned_to t) (max_pin_retries t) (initialized_at t) (personalized_at t) (revoked_at t) now t
  else t.
Definition revoke (now now' : DateTime) (t : Token) : Token :=
  set_token Revoked (assigned_to t) (pin_retry_count t) (initialized_at t) (personalized_at t) (Some now) now' t.
Definition set_pin (pin : u8) (now : DateTime) (t : Token) : Token :=
  set_token (status t) (assigned_to t) pin (initialized_at t) (personalized_at t) (revoked_at t) now t.
Definition decrement_pin_retries (now now' : DateTime) (t : Token) : bool * Token :=
  if 0 <? pin_retry_count t then
    let t := set_pin (pin_retry_count t - 1) now t in
    if pin_retry_count t =? 0 then (false, block now' t) else (true, t)
  else (false, t).
Definition reset_pin_retries (now : DateTime) (t : Token) : Token := set_pin (max_pin_retries t) now t.

(** ** Errors (error.rs) *)

Inductive Error :=
| TokenNotFound (s : string) | TokenAlreadyExists (s : string) | TokenLocked | InvalidPin | PinBlocked
| TokenOperationFailed (s : string) | Pkcs11Error (s : string) | KeyNotFound (s : string)
| TokenModelNotFound (s : string) | SerialNumberExists (s : string) | DatabaseError (s : string)
| InvalidRequest (s : string) | Forbidden (s : string) | Database (s : string) | Common (s : string)
| Internal (s : string).

Definition status_code (e : Error) : Z :=
  match e with
  | TokenNotFound _ | KeyNotFound _ | TokenModelNotFound _ => 404
  | TokenAlreadyExists _ | SerialNumberExists _ => 409
  | TokenLocked | InvalidPin | PinBlocked => 401
  | Forbidden _ => 403
  | InvalidRequest _ => 400
  | TokenOperationFailed _ | Pkcs11Error _ | DatabaseError _ | Database _ | Common _ | Internal _ => 500
  end.
Definition error_type (e : Error) : string :=
  match e with
  | TokenNotFound _ => "token_not_found" | TokenAlreadyExists _ => "token_already_exists"
  | TokenModelNotFound _ => "token_model_not_found" | SerialNumberExists _ => "serial_number_exists"
  | TokenLocked => "token_locked" | InvalidPin => "invalid_pin" | PinBlocked => "pin_blocked"
  | TokenOperationFailed _ => "token_operation_failed" | Pkcs11Error _ => "pkcs11_error"
  | KeyNotFound _ => "key_not_found" | Forbidden _ => "forbidden" | InvalidRequest _ => "invalid_request"
  | DatabaseError _ | Database _ => "database_error" | Common _ => "common_error" | Internal _ => "internal_error"
  end.
Definition authorization_error (e : AuthorizationError) : string :=
  match e with
  | PermissionDenied p => "Access denied: missing permission '" +:+ permission_name p +:+ "'"
  | RoleDenied _ => "Access denied: missing required role"
  | ResourceNotFound r => "Resource not found or not accessible: " +:+ r
  | OperationNotAllowed r => "Operation not allowed: " +:+ r
  | SeparationOfDutiesViolation r => "Separation of duties violation: " +:+ r
  | SelfApprovalProhibited => "Self-approval not allowed"
  end.

(** ** Rows as the service shows them (rest.rs) *)

Definition status_table : list (string * TokenStatus) :=
  [("uninitialized", Uninitialized); ("initialized", Initialized); ("active", Active);
   ("suspended", Suspended); ("blocked", Blocked); ("expired", Expired); ("revoked", Revoked)].
Definition parse_token_status (s : string) : TokenStatus := default Uninitialized (table_lookup s status_table).
Definition token_status_to_string (s : TokenStatus) : string :=
  match s with
  | Uninitialized => "uninitialized" | Initialized => "initialized" | Active => "active"
  | Suspended => "suspended" | Blocked => "blocked" | Expired => "expired" | Revoked => "revoked"
  end.
(** [as u8] and [as u32]. *)
Definition as_u8 (x : Z) : u8 := x mod 256.
Definition as_u32 (x : Z) : Z := x mod 2 ^ 32.

Definition map_db_token_to_service (db : TokenRow) : Token := {|
  id := t_id db; serial_number := t_serial_number db; model_id := t_token_model_id db;
  label := default "" (t_label db); status := parse_token_status (t_status db);
  assigned_to := t_assigned_to db; pin_retry_count := as_u8 (t_pin_attempts_remaining db);
  max_pin_retries := 3; so_pin_retry_count := as_u8 (t_so_pin_attempts_remaining db);
  max_so_pin_retries := 3; manufactured_at := t_created_at db; initialized_at := t_initialized_at db;
  personalized_at := t_assigned_at db; expires_at := t_expires_at db; revoked_at := t_retired_at db;
  created_at := t_created_at db; updated_at := t_updated_at db
|}.
Definition map_db_token_model_to_service (db : TokenModelRow) : TokenModel := {|
  tm_id := m_id db; manufacturer := m_manufacturer db; model_name := m_model db;
  firmware_version := default "" (m_firmware_version db); supported_algorithms := m_supported_key_types db;
  key_capacity := as_u32 (default 0 (m_key_capacity db)); cert_capacity := as_u32 (default 0 (m_cert_capacity db));
  pkcs11_support := m_pkcs11_support db; tm_created_at := m_created_at db
|}.
Definition map_db_token_key_to_service (db : TokenKeyRow) : TokenKey := {|
  tk_id := k_id db; token_id := k_token_id db; tk_label := k_label db; key_type := k_key_type db;
  key_size := as_u32 (default 0 (k_key_size db)); algorithm := k_algorithm db; usage := k_usage db;
  certificate_id := k_certificate_id db; tk_created_at := k_created_at db
|}.
Definition map_db_token_event_to_service (db : TokenEventRow) : TokenEvent := {|
  te_id := ev_id db; te_token_id := ev_token_id db; event_type := ev_event_type db; actor := ev_actor db;
  details := ev_details db; occurred_at := ev_timestamp db
|}.

(** ** Effects *)

Inductive AuditType := TokenLifecycle | ConfigurationChange.
Record AuditEvent := {
  a_type : AuditType; a_actor : string; a_target : string; a_action : string; a_success : bool;
  a_details : option (list (string * Json))
}.
Inductive ScmsE : Type → Type :=
| EStmt {A} (s : Stmt A) : ScmsE (result A string)
| ENow : ScmsE DateTime
| ENewUuid : ScmsE Uuid
| ERecord (ev : AuditEvent) : ScmsE (result unit string).

Abbreviation Prog := (Programs.Prog ScmsE).
Abbreviation M A := (Programs.Prog ScmsE (result A Error)).

(** [.await.map_err(|e| Error::DatabaseError(format!("{what}: {e}")))?]. *)
Definition db {A} (what : string) (s : Stmt A) : M A :=
  let^ r := call (EStmt s) in
  Done match r with Ok a => Ok a | Err e => Err (DatabaseError (what +:+ ": " +:+ e)) end.

Inductive Body :=
| BodyEmpty | BodyToken (t : Token) | BodyTokens (l : list Token) | BodyKey (k : TokenKey)
| BodyKeys (l : list TokenKey) | BodyModel (m : TokenModel) | BodyModels (l : list TokenModel)
| BodyEvents (l : list TokenEvent) | BodyVerified.
Record Response := { rs_status : Z; rs_body : Body }.
Definition respond (s : Z) (b : Body) : M Response := ret {| rs_status := s; rs_body := b |}.

Record ListTokensQuery := {
  q_status : option TokenStatus; q_assigned_to : option string; q_page : option Z; q_limit : option Z
}.
Record CreateTokenRequest := { ct_serial_number : string; ct_model_id : Uuid; ct_label : string }.
Record PersonalizeTokenRequest := { pt_assigned_to : string; pt_pin_hash : string }.
Record ChangePinRequest := { current_pin : string; new_pin : string }.
Record GenerateKeyRequest := { gk_label : string; gk_key_type : string; gk_key_size : Z; gk_usage : list string }.
Record CreateTokenModelRequest := { cm_manufacturer : string; cm_model_name : string }.

Section server.
Context (uuid_to_string : Uuid → string) (rbac_policy : RbacPolicy).

Definition check_permission (user : AuthenticatedUser) (p : Permission) (resource : string) : result unit Error :=
  match (authorize uuid_to_string rbac_policy user p resource []).1 with
  | Ok _ => Ok tt
  | Err e => Err (Forbidden (authorization_error e))
  end.

(** A record that fails is logged only. *)
Definition record (ev : AuditEvent) : M unit := let^ _ := call (ERecord ev) in ret tt.
Definition token_target (id : Uuid) : string := "scms:token:" +:+ uuid_to_string id.
Definition audit_token_event (user : AuthenticatedUser) (target action : string) (success : bool)
    (details : option (list (string * Json))) : M unit :=
  record {| a_type := TokenLifecycle; a_actor := username user; a_target := target; a_action := action;
            a_success := success; a_details := details |}.

(** [find_token] and its errors, as the handlers call it. *)
Definition load_token (id : Uuid) : M TokenRow :=
  let# found := db "Failed to find token" (FindToken id) in
  lift (ok_or found (TokenNotFound (uuid_to_string id))).
Definition must_be (state to : string) (t : TokenRow) : result unit Error :=
  if bool_decide (t_status t = state) then Ok tt
  else Err (InvalidRequest ("Token must be in " +:+ state +:+ " state" +:+ to +:+ ", current state: " +:+ t_status t)).
(** [update_token] reads the clock first. *)
Definition update (what : string) (id : Uuid) (status assigned_to : option string) (pin_attempts : option Z)
    : M TokenRow :=
  let^ now := call ENow in db what (update_token now id status assigned_to pin_attempts None).

(** *** Tokens *)

Definition list_tokens (user : AuthenticatedUser) (query : ListTokensQuery) : M Response :=
  let# _ := lift (check_permission user ViewUsers "scms:tokens") in
  let limit := Z.min (default 100 (q_limit query)) 500 in
  let page := Z.max (default 1 (q_page query)) 1 in
  let offset := (page - 1) * limit in
  let# rows := db "Failed to list tokens"
                 (ListTokens (token_status_to_string <$> q_status query) (q_assigned_to query)
                    (Some limit) (Some offset)) in
  respond 200 (BodyTokens (map_db_token_to_service <$> rows)).

Definition create_token (user : AuthenticatedUser) (request : CreateTokenRequest) : M Response :=
  let# _ := lift (check_permission user CreateUser "scms:tokens") in
  let# model := db "Failed to verify model" (FindModel (ct_model_id request)) in
  let# _ := lift (ok_or model (TokenModelNotFound (uuid_to_string (ct_model_id request)))) in
  let# existing := db "Failed to check serial" (FindTokenBySerial (ct_serial_number request)) in
  if (match existing with Some _ => true | None => false end) then fail (SerialNumberExists (ct_serial_number request))
  else
    let^ new_id := call ENewUuid in
    let^ now := call ENow in
    let# db_token := db "Failed to create token"
                       (ScmsStore.create_token new_id now (ct_serial_number request) (ct_model_id request)
                          "uninitialized" (Some (ct_label request))) in
    let# _ := audit_token_event user (token_target (t_id db_token)) "create_token" true
                (Some [("serial_number", JStr (ct_serial_number request));
                       ("model_id", JUuid (ct_model_id request)); ("label", JStr (ct_label request))]) in
    respond 201 (BodyToken (map_db_token_to_service db_token)).

Definition get_token (user : AuthenticatedUser) (id : Uuid) : M Response :=
  let# _ := lift (check_permission user ViewUsers "scms:token") in
  let# db_token := load_token id in
  respond 200 (BodyToken (map_db_token_to_service db_token)).

Definition update_token_handler (user : AuthenticatedUser) (id : Uuid) : M Response :=
  let# _ := lift (check_permission user ModifyUser "scms:token") in
  let# db_token := load_token id in
  let# _ := audit_token_event user (token_target id) "update_token" true
              (Some [("no_op", JBool true); ("reason", JStr "field updates deferred to Phase 1c")]) in
  respond 200 (BodyToken (map_db_token_to_service db_token)).

Definition revoke_token (user : AuthenticatedUser) (id : Uuid) : M Response :=
  let# _ := lift (check_permission user DeleteUser "scms:token") in
  let# db_token := load_token id in
  let# _ := update "Failed to revoke token" id (Some "revoked") None None in
  let# _ := audit_token_event user (token_target id) "revoke_token" true
              (Some [("previous_status", JStr (t_status db_token));
                     ("assigned_to", match t_assigned_to db_token with Some s => JStr s | None => JNull end)]) in
  let token := map_db_token_to_service db_token in
  let^ now := call ENow in
  respond 200 (BodyToken (set_token Revoked (assigned_to token) (pin_retry_count token) (initialized_at token)
                            (personalized_at token) (Some now) (updated_at token) token)).

Definition initialize_token (user : AuthenticatedUser) (id : Uuid) : M Response :=
  let# _ := lift (check_permission user ModifyUser "scms:token") in
  let# db_token := load_token id in
  let# _ := lift (must_be "uninitialized" "" db_token) in
  let# _ := update "Failed to initialize token" id (Some "initialized") None None in
  let^ now := call ENow in
  let^ now' := call ENow in
  let# updated := db "Failed to record initialization time"
                    (update_token_lifecycle now' id (Some (Some now)) None) in
  let# _ := audit_token_event user (token_target id) "initialize_token" true
              (Some [("serial_number", JStr (t_serial_number db_token))]) in
  let token := map_db_token_to_service updated in
  respond 200 (BodyToken (set_status Initialized (updated_at token) token)).

Definition personalize_token (user : AuthenticatedUser) (id : Uuid) (request : PersonalizeTokenRequest)
    : M Response :=
  let# _ := lift (check_permission user ModifyUser "scms:token") in
  let# db_token := load_token id in
  let# _ := lift (must_be "initialized" "" db_token) in
  let# _ := update "Failed to personalize token" id (Some "active") (Some (pt_assigned_to request)) None in
  let# _ := audit_token_event user (token_target id) "personalize_token" true
              (Some [("assigned_to", JStr (pt_assigned_to request))]) in
  let token := map_db_token_to_service db_token in
  let^ now := call ENow in
  respond 200 (BodyToken (set_token Active (Some (pt_assigned_to request)) (pin_retry_count token)
                            (initialized_at token) (Some now) (revoked_at token) (updated_at token) token)).

Definition suspend_token (user : AuthenticatedUser) (id : Uuid) : M Response :=
  let# _ := lift (check_permission user ModifyUser "scms:token") in
  let# db_token := load_token id in
  let# _ := lift (must_be "active" " to suspend" db_token) in
  let# _ := update "Failed to suspend token" id (Some "suspended") None None in
  let# _ := audit_token_event user (token_target id) "suspend_token" true None in
  let token := map_db_token_to_service db_token in
  respond 200 (BodyToken (set_status Suspended (updated_at token) token)).

Definition resume_token (user : AuthenticatedUser) (id : Uuid) : M Response :=
  let# _ := lift (check_permission user ModifyUser "scms:token") in
  let# db_token := load_token id in
  let# _ := lift (must_be "suspended" " to resume" db_token) in
  let# _ := update "Failed to resume token" id (Some "active") None None in
  let# _ := audit_token_event user (token_target id) "resume_token" true None in
  let token := map_db_token_to_service db_token in
  respond 200 (BodyToken (set_status Active (updated_at token) token)).

(** *** PINs *)

Definition unblock_token (user : AuthenticatedUser) (id : Uuid) : M Response :=
  let# _ := lift (check_permission user UnlockAccount "scms:token") in
  let# db_token := load_token id in
  if 0 <? t_pin_attempts_remaining db_token then
    fail (InvalidRequest "Token is not locked, unblock not required")
  else
    let# _ := update "Failed to unblock token" id (Some "active") None (Some 3) in
    let^ now := call ENow in
    let# _ := db "Failed to reset SO-PIN attempts" (update_token_so_pin_attempts now id 3) in
    let# _ := audit_token_event user (token_target id) "unblock_token" true
                (Some [("pin_attempts_reset_to", JNum 3)]) in
    let token := map_db_token_to_service db_token in
    respond 200 (BodyToken (set_pin (max_pin_retries token) (updated_at token) token)).

(** The placeholder for [C_Login]. *)
Definition verified : bool := false.

Definition verify_pin (user : AuthenticatedUser) (id : Uuid) (pin : string) : M Response :=
  let# _ := lift (check_permission user ViewUsers "scms:token") in
  if bool_decide (pin = "") then fail (InvalidRequest "PIN cannot be empty")
  else
    let# db_token := load_token id in
    if (t_pin_attempts_remaining db_token <=? 0) || bool_decide (t_status db_token = "blocked") then
      let# _ := audit_token_event user (token_target id) "verify_pin" false
                  (Some [("reason", JStr "token_blocked"); ("attempts_remaining", JNum 0)]) in
      fail PinBlocked
    else if negb verified then
      let new_attempts := t_pin_attempts_remaining db_token - 1 in
      let new_status := if new_attempts <=? 0 then Some "blocked" else None in
      let# _ := update "Failed to update PIN attempts" id new_status None (Some new_attempts) in
      let# _ := audit_token_event user (token_target id) "verify_pin" false
                  (Some [("reason", JStr "invalid_pin"); ("attempts_remaining", JNum (Z.max new_attempts 0));
                         ("newly_blocked", JBool (new_attempts <=? 0))]) in
      if new_attempts <=? 0 then fail PinBlocked else fail InvalidPin
    else
      let# _ := update "Failed to reset PIN attempts" id None None (Some 3) in
      let# _ := audit_token_event user (token_target id) "verify_pin" true None in
      respond 200 BodyVerified.

Definition change_pin (user : AuthenticatedUser) (id : Uuid) (request : ChangePinRequest) : M Response :=
  let# _ := lift (check_permission user ModifyUser "scms:token") in
  if bool_decide (current_pin request = "") || bool_decide (new_pin request = "") then
    fail (InvalidRequest "PINs cannot be empty")
  else
    let# db_token := load_token id in
    if t_pin_attempts_remaining db_token <=? 0 then fail PinBlocked
    else
      let# _ := update "Failed to reset PIN attempts" id None None (Some 3) in
      let# _ := audit_token_event user (token_target id) "change_pin" true None in
      respond 200 BodyEmpty.

(** *** Keys *)

Definition list_token_keys (user : AuthenticatedUser) (id : Uuid) : M Response :=
  let# _ := lift (check_permission user ViewUsers "scms:token_keys") in
  let# _ := load_token id in
  let# rows := db "Failed to list keys" (ListKeys id) in
  respond 200 (BodyKeys (map_db_token_key_to_service <$> rows)).

(** [i32::try_from(..).ok()]. *)
Definition as_i32 (n : Z) : option Z := if n <? 2 ^ 31 then Some n else None.

Definition generate_key (user : AuthenticatedUser) (id : Uuid) (request : GenerateKeyRequest) : M Response :=
  let# _ := lift (check_permission user ModifyUser "scms:token_keys") in
  if bool_decide (gk_label request = "") then fail (InvalidRequest "Key label cannot be empty")
  else
    let# db_token := load_token id in
    let# _ := lift (must_be "active" " to generate keys" db_token) in
    let algorithm := gk_key_type request +:+ "-" +:+ pretty (gk_key_size request) in
    let^ new_id := call ENewUuid in
    let^ now := call ENow in
    let# key := db "Failed to create key"
                  (create_token_key new_id now id (gk_label request) (gk_key_type request) algorithm
                     (as_i32 (gk_key_size request)) (gk_usage request) None) in
    let# _ := audit_token_event user (token_target id) "generate_token_key" true
                (Some [("key_id", JUuid (k_id key)); ("label", JStr (gk_label request));
                       ("key_type", JStr (gk_key_type request)); ("key_size", JNum (gk_key_size request));
                       ("usage", JStrs (gk_usage request))]) in
    respond 201 (BodyKey (map_db_token_key_to_service key)).

Definition delete_key (user : AuthenticatedUser) (token_id key_id : Uuid) : M Response :=
  let# _ := lift (check_permission user ModifyUser "scms:token_keys") in
  let# _ := load_token token_id in
  let# rows := db "Failed to list keys" (ListKeys token_id) in
  if negb (existsb (λ k, bool_decide (k_id k = key_id)) rows) then fail (KeyNotFound (uuid_to_string key_id))
  else
    let# _ := db "Failed to delete key" (DeleteKey key_id) in
    let# _ := audit_token_event user (token_target token_id) "delete_token_key" true
                (Some [("key_id", JUuid key_id)]) in
    respond 204 BodyEmpty.

(** *** Models and events *)

Definition list_models (user : AuthenticatedUser) : M Response :=
  let# _ := lift (check_permission user ViewConfig "scms:models") in
  let# rows := db "Failed to list models" ListModels in
  respond 200 (BodyModels (map_db_token_model_to_service <$> rows)).

Definition create_model (user : AuthenticatedUser) (request : CreateTokenModelRequest) : M Response :=
  let# _ := lift (check_permission user ModifyConfig "scms:models") in
  let^ new_id := call ENewUuid in
  let^ now := call ENow in
  let# db_model := db "Failed to create model"
                     (create_token_model new_id now (cm_manufacturer request) (cm_model_name request) None []
                        12 4 false None None None true) in
  let# _ := record {| a_type := ConfigurationChange; a_actor := username user;
                      a_target := "scms:model:" +:+ uuid_to_string (m_id db_model);
                      a_action := "create_token_model"; a_success := true;
                      a_details := Some [("manufacturer", JStr (cm_manufacturer request));
                                         ("model_name", JStr (cm_model_name request))] |} in
  respond 201 (BodyModel (map_db_token_model_to_service db_model)).

Definition get_token_events (user : AuthenticatedUser) (id : Uuid) : M Response :=
  let# _ := lift (check_permission user ReadAuditLog "scms:token_events") in
  let# _ := load_token id in
  let# rows := db "Failed to list events" (ListEvents id) in
  respond 200 (BodyEvents (map_db_token_event_to_service <$> rows)).

(** *** Routes *)

Inductive ScmsCall :=
| ListTokensCall (q : ListTokensQuery) | CreateTokenCall (r : CreateTokenRequest) | GetTokenCall (id : Uuid)
| UpdateTokenCall (id : Uuid) | RevokeTokenCall (id : Uuid) | InitializeCall (id : Uuid)
| PersonalizeCall (id : Uuid) (r : PersonalizeTokenRequest) | SuspendCall (id : Uuid) | ResumeCall (id : Uuid)
| UnblockCall (id : Uuid) | VerifyPinCall (id : Uuid) (pin : string) | ChangePinCall (id : Uuid) (r : ChangePinRequest)
| ListKeysCall (id : Uuid) | GenerateKeyCall (id : Uuid) (r : GenerateKeyRequest)
| DeleteKeyCall (token_id key_id : Uuid) | ListModelsCall | CreateModelCall (r : CreateTokenModelRequest)
| GetEventsCall (id : Uuid).

Definition route (user : AuthenticatedUser) (c : ScmsCall) : M Response :=
  match c with
  | ListTokensCall q => list_tokens user q
  | CreateTokenCall r => create_token user r
  | GetTokenCall id => get_token user id
  | UpdateTokenCall id => update_token_handler user id
  | RevokeTokenCall id => revoke_token user id
  | InitializeCall id => initialize_token user id
  | PersonalizeCall id r => personalize_token user id r
  | SuspendCall id => suspend_token user id
  | ResumeCall id => resume_token user id
  | UnblockCall id => unblock_token user id
  | VerifyPinCall id pin => verify_pin user id pin
  | ChangePinCall id r => change_pin user id r
  | ListKeysCall id => list_token_keys user id
  | GenerateKeyCall id r => generate_key user id r
  | DeleteKeyCall t k => delete_key user t k
  | ListModelsCall => list_models user
  | CreateModelCall r => create_model user r
  | GetEventsCall id => get_token_events user id
  end.
End server.
