(* ===== verification/ScmsRuns.v ===== *)
(** * The smartcard server in every run

    Any number of servers over one database: requests are served interleaved,
    effect by effect.  The trace has the requests that came in and every effect
    with its answer.  The invariant says what the tables always satisfy, and on
    which grounds each statement that changes them was made. *)
From stdpp Require Import base list strings relations.
From Stdlib Require Import ZArith Lia.
From S2P Require Import Prelude Programs Roles ScmsStore ScmsServer.
#[local] Open Scope Z_scope.

Section runs.
Context (uuid_to_string : Uuid → string) (rbac_policy : RbacPolicy).
Abbreviation route := (route uuid_to_string rbac_policy).

(** ** The world *)

Inductive Event :=
| EvRequest (user : AuthenticatedUser) (c : ScmsCall)
| EvDid {X : Type} (e : ScmsE X) (x : X).
Record World := { wdb : ScmsDb; wnow : DateTime; wtrace : list Event }.
Definition with_db (d : ScmsDb) (w : World) : World := {| wdb := d; wnow := wnow w; wtrace := wtrace w |}.
Definition observe (ev : Event) (w : World) : World :=
  {| wdb := wdb w; wnow := wnow w; wtrace := wtrace w ++ [ev] |}.

(** A statement may fail before or after it took effect. *)
Definition effect (w : World) {X} (e : ScmsE X) : X → ScmsDb → Prop :=
  match e in ScmsE X return X → ScmsDb → Prop with
  | EStmt s => λ x d,
      (x = (execute s (wdb w)).1 ∧ d = (execute s (wdb w)).2) ∨
      (∃ err, x = Err err ∧ (d = wdb w ∨ d = (execute s (wdb w)).2))
  | ENow => λ x d, x = wnow w ∧ d = wdb w
  | ENewUuid | ERecord _ => λ _ d, d = wdb w
  end.
Definition answers (w : World) {X} (e : ScmsE X) (x : X) (w' : World) : Prop :=
  ∃ d, effect w e x d ∧ w' = observe (EvDid e x) (with_db d w).
Definition spawned {X} (e : ScmsE X) : list (Prog unit) := [].

Definition serve (user : AuthenticatedUser) (c : ScmsCall) : Prog unit := let^ _ := route user c in Done tt.
Inductive env : World → World → list (Prog unit) → Prop :=
| env_request w user c : env w (observe (EvRequest user c) w) [serve user c]
| env_tick w now : wnow w ≤ now → env w {| wdb := wdb w; wnow := now; wtrace := wtrace w |} [].

Definition step : World * list (Prog unit) → World * list (Prog unit) → Prop :=
  Programs.step (@answers) (@spawned) env.
Definition runs {A} : Prog A → World * list (Prog unit) → A → World * list (Prog unit) → Prop :=
  Programs.runs (@answers) (@spawned) env.
Definition start (now : DateTime) : World * list (Prog unit) :=
  ({| wdb := {| models := []; tokens := []; keys := []; events := [] |}; wnow := now; wtrace := [] |}, []).
Definition reachable (s : World * list (Prog unit)) : Prop := ∃ now, rtc step (start now) s.

(** ** Grounds for a statement *)

Definition asked (t : list Event) (c : ScmsCall) (p : Permission) : Prop :=
  ∃ user, EvRequest user c ∈ t ∧ any_role_has_permission (roles user) p = true.
Definition saw (t : list Event) (id : Uuid) (tok : TokenRow) : Prop :=
  EvDid (EStmt (FindToken id)) (Ok (Some tok)) ∈ t.

Definition only_status (s : string) : TokenChange :=
  {| c_status := Some s; c_assigned_to := None; c_pin := None; c_puk := None; c_so_pin := None;
     c_label := None; c_initialized_at := None; c_expires_at := None |}.
Definition only_pin (status : option string) (n : Z) : TokenChange :=
  {| c_status := status; c_assigned_to := None; c_pin := Some n; c_puk := None; c_so_pin := None;
     c_label := None; c_initialized_at := None; c_expires_at := None |}.

(** Why a token may change: who asked for it, and the token that the server saw. *)
Inductive allowed_change (t : list Event) (id : Uuid) : TokenChange → Prop :=
| by_revocation : asked t (RevokeTokenCall id) DeleteUser → allowed_change t id (only_status "revoked")
| by_initialization tok : asked t (InitializeCall id) ModifyUser → saw t id tok → t_status tok = "uninitialized" →
    allowed_change t id (only_status "initialized")
| by_initialization_time tok now : asked t (InitializeCall id) ModifyUser → saw t id tok →
    t_status tok = "uninitialized" →
    allowed_change t id {| c_status := None; c_assigned_to := None; c_pin := None; c_puk := None;
      c_so_pin := None; c_label := None; c_initialized_at := Some (Some now); c_expires_at := None |}
| by_personalization tok r : asked t (PersonalizeCall id r) ModifyUser → saw t id tok → t_status tok = "initialized" →
    allowed_change t id {| c_status := Some "active"; c_assigned_to := Some (pt_assigned_to r); c_pin := None;
      c_puk := None; c_so_pin := None; c_label := None; c_initialized_at := None; c_expires_at := None |}
| by_suspension tok : asked t (SuspendCall id) ModifyUser → saw t id tok → t_status tok = "active" →
    allowed_change t id (only_status "suspended")
| by_resumption tok : asked t (ResumeCall id) ModifyUser → saw t id tok → t_status tok = "suspended" →
    allowed_change t id (only_status "active")
| by_unblocking tok : asked t (UnblockCall id) UnlockAccount → saw t id tok → t_pin_attempts_remaining tok ≤ 0 →
    allowed_change t id (only_pin (Some "active") 3)
| by_so_reset tok : asked t (UnblockCall id) UnlockAccount → saw t id tok → t_pin_attempts_remaining tok ≤ 0 →
    allowed_change t id {| c_status := None; c_assigned_to := None; c_pin := None; c_puk := None;
      c_so_pin := Some 3; c_label := None; c_initialized_at := None; c_expires_at := None |}
| by_wrong_pin tok pin : asked t (VerifyPinCall id pin) ViewUsers → saw t id tok → t_status tok ≠ "blocked" →
    0 < t_pin_attempts_remaining tok →
    allowed_change t id (only_pin (if t_pin_attempts_remaining tok - 1 <=? 0 then Some "blocked" else None)
                           (t_pin_attempts_remaining tok - 1))
| by_new_pin tok r : asked t (ChangePinCall id r) ModifyUser → saw t id tok → 0 < t_pin_attempts_remaining tok →
    allowed_change t id (only_pin None 3).

Definition stmt_ok (t : list Event) {A} (s : Stmt A) : Prop :=
  match s with
  | InsertModel m => ∃ r, asked t (CreateModelCall r) ModifyConfig ∧ m_manufacturer m = cm_manufacturer r ∧
      m_model m = cm_model_name r
  | InsertToken tok => ∃ r m, asked t (CreateTokenCall r) CreateUser ∧
      EvDid (EStmt (FindModel (ct_model_id r))) (Ok (Some m)) ∈ t ∧
      EvDid (EStmt (FindTokenBySerial (ct_serial_number r))) (Ok None) ∈ t ∧
      ∃ new_id now, InsertToken tok = ScmsStore.create_token new_id now (ct_serial_number r) (ct_model_id r)
                                        "uninitialized" (Some (ct_label r))
  | UpdateToken id now c => allowed_change t id c
  | InsertKey k => ∃ r tok, asked t (GenerateKeyCall (k_token_id k) r) ModifyUser ∧ saw t (k_token_id k) tok ∧
      t_status tok = "active" ∧ k_label k = gk_label r ∧ gk_label r ≠ "" ∧ k_certificate_id k = None
  | DeleteKey id => ∃ token k rows, asked t (DeleteKeyCall token id) ModifyUser ∧
      EvDid (EStmt (ListKeys token)) (Ok rows) ∈ t ∧ k ∈ rows ∧ k_id k = id
  | DeleteToken _ | InsertEvent _ => False
  | _ => True
  end.
Definition effect_ok (t : list Event) {X} (e : ScmsE X) : Prop :=
  match e with EStmt s => stmt_ok t s | _ => True end.
Definition event_ok (t : list Event) (ev : Event) : Prop :=
  match ev with EvDid e _ => effect_ok t e | EvRequest _ _ => True end.

(** ** The tables *)

Definition statuses : list string := ["uninitialized"; "initialized"; "active"; "suspended"; "blocked"; "revoked"].
Record row_ok (t : TokenRow) : Prop := {
  row_status : t_status t ∈ statuses;
  row_pin : 0 ≤ t_pin_attempts_remaining t ≤ 3;
  row_puk : t_puk_attempts_remaining t = 10;
  row_so_pin : t_so_pin_attempts_remaining t = 3;
  row_label : t_label t ≠ None;
  row_times : t_assigned_at t = None ∧ t_blocked_at t = None ∧ t_retired_at t = None ∧ t_expires_at t = None
}.
Record db_ok (d : ScmsDb) : Prop := {
  ok_rows : Forall row_ok (tokens d);
  ok_ids : NoDup (t_id <$> tokens d);
  ok_serials : NoDup (t_serial_number <$> tokens d);
  ok_models : ∀ t, t ∈ tokens d → t_token_model_id t ∈ m_id <$> models d;
  ok_keys : ∀ k, k ∈ keys d → k_token_id k ∈ t_id <$> tokens d;
  ok_key_ids : NoDup (k_id <$> keys d);
  ok_key_labels : NoDup ((λ k, (k_token_id k, k_label k)) <$> keys d);
  ok_events : events d = []
}.
(** A token that a statement found satisfied its constraints. *)
Definition stmt_seen {A} (s : Stmt A) : result A string → Prop :=
  match s in Stmt A return result A string → Prop with
  | FindToken _ => λ x, match x with Ok (Some tok) => row_ok tok | _ => True end
  | _ => λ _, True
  end.
Definition event_seen (ev : Event) : Prop :=
  match ev with
  | EvDid e x => match e in ScmsE X return X → Prop with EStmt s => stmt_seen s | _ => λ _, True end x
  | EvRequest _ _ => True
  end.
Record Inv (w : World) : Prop := {
  inv_db : db_ok (wdb w);
  inv_seen : Forall event_seen (wtrace w);
  inv_did : ∀ t1 ev t2, wtrace w = t1 ++ ev :: t2 → event_ok t1 ev
}.
Definition later (w w' : World) : Prop := wtrace w `prefix_of` wtrace w'.
#[export] Instance scms_later_preorder : PreOrder later.
Proof.
  split; [intros w; unfold later; reflexivity|]. intros w1 w2 w3. unfold later. intros. by etransitivity.
Qed.
#[export] Instance scms_logic : Logic ScmsE World := {|
  l_answers := @answers; l_inv := Inv; l_later := later; l_spawn_ok := λ _ _ _, True
|}.

(** *** What statements keep *)

Ltac in_statuses := by apply (bool_decide_eq_true_1 (_ ∈ statuses)).
Lemma allowed_row_ok t id c now tok : (∀ i tok, saw t i tok → row_ok tok) → allowed_change t id c →
  row_ok tok → row_ok (apply_change now c tok).
Proof.
  intros Hseen Hc [Hst Hpin Hpuk Hso Hlab (H1 & H2 & H3 & H4)].
  destruct Hc; split; cbn; try done; try lia; try in_statuses.
  - case_match; cbn; [in_statuses|done].
  - match goal with H : saw t id _ |- _ => apply Hseen in H as [] end. lia.
Qed.

Lemma changed_ids {B} (f : TokenRow → B) id now c (l : list TokenRow) :
  (∀ t, f (apply_change now c t) = f t) →
  f <$> ((λ t, if bool_decide (t_id t = id) then apply_change now c t else t) <$> l) = f <$> l.
Proof.
  intros Hf. rewrite <- list_fmap_compose. apply list_fmap_ext. intros _ t _. cbn. by case_bool_decide.
Qed.
Lemma no_clash {R B} (f : R → B) (clash : R → R → bool) r l :
  (∀ a b, f a = f b → clash a b = true) → existsb (clash r) l = false → f r ∉ f <$> l.
Proof.
  intros Hf Hno (r' & Heq & Hin)%list_elem_of_fmap. apply not_true_iff_false in Hno. apply Hno, existsb_exists.
  exists r'. split; [by apply list_elem_of_In|by apply Hf].
Qed.
Lemma NoDup_snoc_fmap {R B} (f : R → B) r (l : list R) : NoDup (f <$> l) → f r ∉ f <$> l → NoDup (f <$> l ++ [r]).
Proof.
  intros Hl Hr. rewrite fmap_app. apply NoDup_app. split_and!; [done| |apply NoDup_singleton].
  intros x Hx Hx'. cbn in Hx'. apply list_elem_of_singleton in Hx'. by subst.
Qed.
Lemma NoDup_filter_fmap {R B} (f : R → B) P (l : list R) : NoDup (f <$> l) → NoDup (f <$> List.filter P l).
Proof.
  induction l as [|r l IH]; cbn; [done|]. rewrite NoDup_cons. intros [Hr Hl]. destruct (P r); [|by apply IH].
  cbn. rewrite NoDup_cons. split; [|by apply IH]. intros (r' & Heq & Hin)%list_elem_of_fmap. apply Hr.
  apply list_elem_of_fmap. exists r'. split; [exact Heq|]. apply list_elem_of_In in Hin. apply filter_In in Hin as [Hin _].
  by apply list_elem_of_In.
Qed.

Lemma execute_ok {A} (s : Stmt A) t d : (∀ id tok, saw t id tok → row_ok tok) → db_ok d → stmt_ok t s →
  db_ok (execute s d).2.
Proof.
  intros Hseen Hd Hs. destruct s; cbn [execute snd]; try done.
  - unfold insert. destruct (existsb _ _); [done|]. cbn. destruct Hd. split; try done. cbn.
    intros t0 Ht. rewrite fmap_app. apply elem_of_app. left. by apply ok_models0.
  - destruct Hs as (r & m & _ & _ & _ & new_id & now & [= ->]). unfold insert.
    destruct (existsb _ (tokens d)) eqn:Hno; [done|]. destruct (existsb _ (models d)) eqn:Hm; [|done]. cbn.
    apply existsb_exists in Hm as (m' & Hm' & Heq). apply bool_decide_eq_true in Heq. apply list_elem_of_In in Hm'.
    destruct Hd as [D1 D2 D3 D4 D5 D6 D7 D8]. split; cbn; try done.
    + apply Forall_app. split; [done|]. apply Forall_singleton. split; cbn; try done; in_statuses.
    + apply NoDup_snoc_fmap; [done|]. eapply no_clash; [|exact Hno]. intros a b Hab. unfold token_clash.
      by rewrite bool_decide_eq_true_2.
    + apply NoDup_snoc_fmap; [done|]. eapply no_clash; [|exact Hno]. intros a b Hab. unfold token_clash.
      rewrite (bool_decide_eq_true_2 (t_serial_number a = _)) by done. apply orb_true_r.
    + intros t0 [Ht|Ht]%elem_of_app; [by apply D4|]. apply list_elem_of_singleton in Ht as ->. cbn.
      apply list_elem_of_fmap. exists m'. by split.
    + intros k Hk. rewrite fmap_app. apply elem_of_app. left. by apply D5.
  - destruct (head _) as [tok|]; [|done]. cbn. destruct Hd as [D1 D2 D3 D4 D5 D6 D7 D8]. split; cbn; try done.
    + apply Forall_fmap, (Forall_impl _ _ _ D1). intros tok' Htok. cbn. case_bool_decide; [|done].
      by eapply allowed_row_ok.
    + by rewrite changed_ids.
    + by rewrite changed_ids.
    + intros t0 (t1 & -> & Ht1)%list_elem_of_fmap. case_bool_decide; cbn; by apply D4.
    + intros k Hk. rewrite changed_ids by done. by apply D5.
  - unfold insert. destruct (existsb _ _) eqn:Hno; [done|]. destruct (has_token _ _) eqn:Hp; [|done]. cbn.
    destruct Hd as [D1 D2 D3 D4 D5 D6 D7 D8]. split; cbn; try done.
    + intros k' [Hk|Hk]%elem_of_app; [by apply D5|]. apply list_elem_of_singleton in Hk as ->.
      apply existsb_exists in Hp as (t' & Ht' & Heq). apply bool_decide_eq_true in Heq.
      apply list_elem_of_fmap. exists t'. split; [done|by apply list_elem_of_In].
    + apply NoDup_snoc_fmap; [done|]. eapply no_clash; [|exact Hno]. intros a b Hab. unfold key_clash.
      by rewrite bool_decide_eq_true_2.
    + apply (NoDup_snoc_fmap (λ k, (k_token_id k, k_label k))); [done|].
      apply (no_clash (λ k, (k_token_id k, k_label k)) key_clash); [|exact Hno]. intros a b [= Hab Hlab]. unfold key_clash.
      rewrite (bool_decide_eq_true_2 (k_token_id a = _)), (bool_decide_eq_true_2 (k_label a = _)) by done.
      apply orb_true_r.
  - destruct Hd as [D1 D2 D3 D4 D5 D6 D7 D8]. split; cbn; try done.
    + intros k [Hk _]%list_elem_of_In%filter_In. apply D5. by apply list_elem_of_In.
    + by apply NoDup_filter_fmap.
    + by apply (NoDup_filter_fmap (λ k, (k_token_id k, k_label k))).
Qed.

Lemma saw_ok t id tok : Forall event_seen t → saw t id tok → row_ok tok.
Proof. intros Ht Hs. rewrite Forall_forall in Ht. exact (Ht _ Hs). Qed.

Lemma found_ok {A} (s : Stmt A) d : db_ok d → stmt_seen s (execute s d).1.
Proof.
  intros Hd. destruct s; try done. cbn. destruct (head _) as [tok|] eqn:Hf; [|done].
  destruct (List.filter _ _) as [|tok' l] eqn:Hl; [done|]. injection Hf as ->.
  assert (tok ∈ tokens d) as Htok.
  { apply list_elem_of_In, (filter_In (λ t, bool_decide (t_id t = id))). rewrite Hl. by left. }
  pose proof (ok_rows _ Hd) as Hrows. rewrite Forall_forall in Hrows. by apply Hrows.
Qed.

Lemma inv_observe w d ev : Inv w → db_ok d → event_seen ev → event_ok (wtrace w) ev →
  Inv (observe ev (with_db d w)) ∧ later w (observe ev (with_db d w)).
Proof.
  intros [H1 H2 H3] Hd Hs Hok. split; [split; cbn|].
  - done.
  - apply Forall_app. split; [done|by apply Forall_singleton].
  - intros t1 ev' t2 Heq. destruct t2 as [|ev2 t2 _] using rev_ind.
    + apply app_inj_tail in Heq as [<- <-]. done.
    + rewrite app_comm_cons, app_assoc in Heq. apply app_inj_tail in Heq as [Heq _]. by eapply H3.
  - unfold later, observe. cbn. by apply prefix_app_r.
Qed.

Lemma inv_answers w X (e : ScmsE X) x w' : Inv w → effect_ok (wtrace w) e → answers w e x w' → Inv w' ∧ later w w'.
Proof.
  intros Hi Hok (d & Heff & ->). apply inv_observe; [done| | |done].
  - destruct e; cbn in Heff; destruct_and?; subst; try apply (inv_db _ Hi).
    assert (db_ok (execute s (wdb w)).2).
    { eapply execute_ok; [|apply (inv_db _ Hi)|exact Hok]. intros id tok. apply saw_ok, (inv_seen _ Hi). }
    destruct Heff as [[_ ->]|(err & _ & [->| ->])]; [done|apply (inv_db _ Hi)|done].
  - destruct e; try done. cbn in Heff. destruct Heff as [[-> _]|(err & -> & _)]; [|by destruct s].
    apply found_ok, (inv_db _ Hi).
Qed.

(** ** Rules *)

Abbreviation wp := (Programs.wp (L := scms_logic)).
Abbreviation wpm := (Programs.wpm (L := scms_logic)).

(** What a program needs of a later trace: the earlier events. *)
Definition did (w : World) {X} (e : ScmsE X) (x : X) : Prop := EvDid e x ∈ wtrace w.
Lemma in_later w w' ev : later w w' → ev ∈ wtrace w → ev ∈ wtrace w'.
Proof. intros [k ->] Hev. apply elem_of_app. by left. Qed.

Lemma wp_scms_effect {X} (e : ScmsE X) Q w :
  (∀ w1, later w w1 → effect_ok (wtrace w1) e) →
  (∀ x w2, later w w2 → did w2 e x → Q x w2) → wp (call e) Q w.
Proof.
  intros Hok HQ w1 Hl Hi x w2 Ha. destruct (inv_answers _ _ _ _ _ Hi (Hok w1 Hl) Ha) as [Hi2 Hl2].
  split; [done|]. split; [done|]. split; [done|]. apply HQ; [by etransitivity|].
  destruct Ha as (d & _ & ->). unfold did, observe. cbn. apply elem_of_app. right. by apply list_elem_of_singleton.
Qed.
Lemma wpm_db {A} what (s : Stmt A) Q w :
  (∀ w1, later w w1 → stmt_ok (wtrace w1) s) →
  (∀ a w2, later w w2 → did w2 (EStmt s) (Ok a) → Q a w2) → wpm (db what s) Q w.
Proof. intros Hok HQ. apply wp_bind, wp_scms_effect; [done|]. intros [a|e] w2 Hl Hd; [by apply HQ|done]. Qed.
Lemma wpm_record ev Q w : (∀ w2, later w w2 → Q tt w2) → wpm (record ev) Q w.
Proof. intros HQ. apply wp_bind, wp_scms_effect; [done|]. intros r w2 Hl _. by apply HQ. Qed.
Lemma wp_scms_now Q w : (∀ now w2, later w w2 → Q now w2) → wp (call ENow) Q w.
Proof. intros HQ. apply wp_scms_effect; [done|]. intros now w2 Hl _. by apply HQ. Qed.
Lemma wp_scms_uuid Q w : (∀ u w2, later w w2 → Q u w2) → wp (call ENewUuid) Q w.
Proof. intros HQ. apply wp_scms_effect; [done|]. intros u w2 Hl _. by apply HQ. Qed.
Lemma wpm_update what id status to pin Q w :
  (∀ w1, later w w1 → allowed_change (wtrace w1) id
     {| c_status := status; c_assigned_to := to; c_pin := pin; c_puk := None; c_so_pin := None;
        c_label := None; c_initialized_at := None; c_expires_at := None |}) →
  (∀ a w2, later w w2 → Q a w2) → wpm (update what id status to pin) Q w.
Proof.
  intros Hok HQ. apply wp_bind, wp_scms_now. intros now w1 Hl1. apply wpm_db.
  - intros w2 Hl2. apply Hok. by etransitivity.
  - intros a w2 Hl2 _. apply HQ. by etransitivity.
Qed.
Lemma wpm_load id Q w : (∀ tok w2, later w w2 → saw (wtrace w2) id tok → Q tok w2) →
  wpm (load_token uuid_to_string id) Q w.
Proof.
  intros HQ. apply wpm_bind, wpm_db; [done|]. intros found w2 Hl Hd. apply wpm_lift.
  intros tok [= ->]%ok_or_Ok. by apply HQ.
Qed.
Lemma wpm_check user p resource Q w : (any_role_has_permission (roles user) p = true → Q tt w) →
  wpm (lift (check_permission uuid_to_string rbac_policy user p resource)) Q w.
Proof.
  intros HQ. apply wpm_lift. intros [] Hc. apply HQ. unfold check_permission, authorize in Hc. cbn [fst] in Hc.
  by destruct (any_role_has_permission _ _).
Qed.
Lemma wpm_must_be state to tok Q w : (t_status tok = state → Q tt w) → wpm (lift (must_be state to tok)) Q w.
Proof. intros HQ. apply wpm_lift. intros [] Hm. apply HQ. unfold must_be in Hm. by case_bool_decide. Qed.

(** ** The handlers *)

Ltac chain := first [reflexivity | assumption | etransitivity; [eassumption|chain]].
Ltac known :=
  match goal with
  | H : EvRequest _ _ ∈ wtrace ?w |- EvRequest _ _ ∈ wtrace ?w' => apply (in_later w w'); [chain|exact H]
  | H : saw (wtrace ?w) _ _ |- saw (wtrace ?w') _ _ => apply (in_later w w'); [chain|exact H]
  | H : did ?w _ _ |- EvDid _ _ ∈ wtrace ?w' => apply (in_later w w'); [chain|exact H]
  end.
Ltac is_asked := eexists; split; [known|eassumption].
(** One step of a handler; obligations about its statements are left. *)
Ltac handler_step :=
  lazymatch goal with
  | |- context [check_permission] => idtac
  | _ => idtac
  end;
  first
    [ apply wpm_bind, wpm_check; intros ?
    | apply wpm_bind, wpm_load; intros ? ? ? ?
    | apply wpm_bind, wpm_must_be; intros ?
    | apply wpm_bind, wpm_update; [intros ? ?|intros ? ? ?]
    | apply wpm_bind, wpm_db; [intros ? ?|intros ? ? ? ?]
    | apply wpm_bind, wpm_record; intros ? ?
    | apply wpm_bind, wpm_lift; intros ? ?
    | apply wp_bind, wp_scms_now; intros ? ? ?
    | apply wp_bind, wp_scms_uuid; intros ? ? ? ].
Ltac handler :=
  cbv zeta;
  lazymatch goal with
  | |- allowed_change _ _ _ => idtac
  | |- stmt_ok _ _ => try exact I
  | |- Programs.wpm (respond _ _) _ _ => done
  | |- Programs.wpm (fail _) _ _ => done
  | |- Programs.wp (respond _ _) _ _ => done
  | |- Programs.wp (fail _) _ _ => done
  | |- Programs.wp (match ?b with true => _ | false => _ end) _ _ => destruct b eqn:?; handler
  | |- Programs.wpm (match ?b with true => _ | false => _ end) _ _ => destruct b eqn:?; handler
  | |- _ => handler_step; handler
  end.

Ltac handler_grounds :=
  first
    [ eapply by_revocation; is_asked
    | eapply by_initialization; [is_asked|known|assumption]
    | eapply by_initialization_time; [is_asked|known|assumption]
    | eapply by_personalization; [is_asked|known|assumption]
    | eapply by_suspension; [is_asked|known|assumption]
    | eapply by_resumption; [is_asked|known|assumption]
    | eapply by_unblocking; [is_asked|known|lia]
    | eapply by_so_reset; [is_asked|known|lia] ].

Lemma wpm_verify_pin user id pin w : EvRequest user (VerifyPinCall id pin) ∈ wtrace w →
  wpm (verify_pin uuid_to_string rbac_policy user id pin) top w.
Proof.
  intros Hreq. unfold verify_pin, audit_token_event. change (negb verified) with true. handler.
  match goal with H : _ || _ = false |- _ => apply orb_false_iff in H as [Hpin Hst] end.
  eapply by_wrong_pin; [is_asked|known|by apply bool_decide_eq_false_1 in Hst|lia].
Qed.
Lemma wpm_create_token user r w : EvRequest user (CreateTokenCall r) ∈ wtrace w →
  wpm (create_token uuid_to_string rbac_policy user r) top w.
Proof.
  intros Hreq. unfold create_token, audit_token_event. handler.
  match goal with H : ok_or ?a _ = Ok ?m |- _ => apply ok_or_Ok in H; subst a end.
  match goal with H : match ?a with _ => _ end = false |- _ => destruct a; [discriminate H|] end.
  eexists r, _. split; [is_asked|]. split; [known|]. split; [known|]. by eexists _, _.
Qed.
Lemma wpm_route user c w : EvRequest user c ∈ wtrace w → wpm (route user c) top w.
Proof.
  intros Hreq. destruct c; cbn [ScmsServer.route].
  - unfold list_tokens. handler.
  - by apply wpm_create_token.
  - unfold get_token. handler.
  - unfold update_token_handler, audit_token_event. handler.
  - unfold revoke_token, audit_token_event. handler. handler_grounds.
  - unfold initialize_token, audit_token_event. handler; handler_grounds.
  - unfold personalize_token, audit_token_event. handler. handler_grounds.
  - unfold suspend_token, audit_token_event. handler. handler_grounds.
  - unfold resume_token, audit_token_event. handler. handler_grounds.
  - unfold unblock_token, audit_token_event. handler; handler_grounds.
  - by apply wpm_verify_pin.
  - unfold change_pin, audit_token_event. handler. eapply by_new_pin; [is_asked|known|lia].
  - unfold list_token_keys. handler.
  - unfold generate_key, audit_token_event. handler. eexists r, _. split; [is_asked|]. split; [known|].
    split_and!; try done. match goal with H : bool_decide _ = false |- _ => by apply bool_decide_eq_false_1 in H end.
  - unfold delete_key, audit_token_event. handler.
    match goal with H : negb _ = false |- _ => apply negb_false_iff, existsb_exists in H as (k & Hk & Hid) end.
    apply bool_decide_eq_true in Hid. eexists _, k, _. split; [is_asked|]. split; [known|].
    split; [by apply list_elem_of_In|done].
  - unfold list_models. handler.
  - unfold create_model. handler. exists r. split; [is_asked|done].
  - unfold get_token_events. handler.
Qed.

(** *** Every run *)

Definition Sys := Programs.Sys (L := scms_logic).
Lemma scms_spawn_safe (w : World) X (e : ScmsE X) : Inv w → True → Forall (λ p, wp p top w) (spawned e).
Proof. intros _ _. constructor. Qed.
Lemma scms_env_safe (w w' : World) ps : Inv w → env w w' ps → Inv w' ∧ later w w' ∧ Forall (λ p, wp p top w') ps.
Proof.
  intros Hi He. destruct He as [w0 user c|w0 now Hnow].
  - destruct (inv_observe w0 (wdb w0) (EvRequest user c) Hi (inv_db _ Hi)) as [Hi' Hl']; [done..|].
    replace (with_db (wdb w0) w0) with w0 in * by by destruct w0.
    split; [done|]. split; [done|]. apply Forall_singleton. apply wp_bind, wpm_safe, wpm_route.
    unfold observe. cbn. apply elem_of_app. right. by apply list_elem_of_singleton.
  - split; [by destruct Hi|]. split; [|constructor]. unfold later. cbn. done.
Qed.
Lemma scms_reachable_Sys s : reachable s → Sys s.
Proof.
  intros [now Hr]. assert (Sys (start now)) as Hs.
  { split; [|constructor]. split; cbn; [|constructor|by intros []].
    split; cbn; try constructor; try done; by intros ? ?%not_elem_of_nil. }
  revert Hs. induction Hr as [s|s1 s2 s3 Hstep _ IH]; [done|]. intros Hs. apply IH.
  eapply (Sys_step (L := scms_logic) (@spawned)); [exact scms_spawn_safe|exact scms_env_safe|exact Hstep|exact Hs].
Qed.
End runs.
