(* ===== verification/ScmsGuarantees.v ===== *)
(** * What the smartcard server guarantees

    The theorems about every run of ScmsRuns.v; what a handler does when no other
    program comes between its statements, next to the methods of a token; and
    schedules that show what does not hold. *)
From stdpp Require Import base list strings relations.
From Stdlib Require Import ZArith Lia.
From S2P Require Import Prelude Programs Roles ScmsStore ScmsServer ScmsRuns.
#[local] Open Scope Z_scope.

Section guarantees.
Context (uuid_to_string : Uuid → string) (rbac_policy : RbacPolicy).
Abbreviation route := (route uuid_to_string rbac_policy).
Abbreviation reachable := (reachable uuid_to_string rbac_policy).

(** C19. In every run, with any number of requests interleaved and any statement
    failing, each statement that changes the tables has its grounds: a request for
    it, by a user with the permission, and for a change of a token a state that
    allows it, as the server saw it before; and no statement deletes a token or
    writes a token event. *)
Theorem changes_have_grounds w ts t1 ev t2 :
  reachable (w, ts) → wtrace w = t1 ++ ev :: t2 → event_ok t1 ev.
Proof. intros [Hi _]%scms_reachable_Sys Ht. exact (inv_did _ Hi t1 ev t2 Ht). Qed.

(** In every run the tables are well formed: identifiers, serial numbers and key
    labels are unique, references lead to rows, the status of a token is one of
    six, and its counters are in range. *)
Theorem tables_well_formed w ts : reachable (w, ts) → db_ok (wdb w).
Proof. intros [Hi _]%scms_reachable_Sys. exact (inv_db _ Hi). Qed.

(** ** A handler alone *)

Section alone.
Context (now : DateTime) (u : Uuid).

Definition perform {X} (e : ScmsE X) (d : ScmsDb) : X * ScmsDb :=
  match e in ScmsE X return X * ScmsDb with
  | EStmt s => execute s d
  | ENow => (now, d)
  | ENewUuid => (u, d)
  | ERecord _ => (Ok tt, d)
  end.
Fixpoint exec {A} (p : Prog A) (d : ScmsDb) : A * ScmsDb :=
  match p with
  | Done a => (a, d)
  | Step e k => let '(x, d) := perform e d in exec (k x) d
  end.

Lemma exec_bind {A B} (m : M A) (f : A → M B) d :
  exec (bind m f) d = match exec m d with (Ok a, d) => exec (f a) d | (Err e, d) => (Err e, d) end.
Proof.
  unfold bind. revert d. induction m as [[a|e]|X e k IH]; intros d; [done|done|]. cbn.
  destruct (perform e d) as [x d']. apply IH.
Qed.
Lemma exec_record ev d : exec (record ev) d = (Ok tt, d).
Proof. done. Qed.

(** The token with an identifier, and the change of it. *)
Definition row (id : Uuid) (d : ScmsDb) : option TokenRow :=
  head (List.filter (λ t, bool_decide (t_id t = id)) (tokens d)).
Definition changed (id : Uuid) (c : TokenChange) (d : ScmsDb) : ScmsDb :=
  set_tokens ((λ t, if bool_decide (t_id t = id) then apply_change now c t else t) <$> tokens d) d.

Lemma row_id id d t : row id d = Some t → t_id t = id.
Proof.
  unfold row. destruct (List.filter _ _) as [|t' l] eqn:Hl; [done|]. intros [= ->].
  assert (In t (t :: l)) as Hin by by left. rewrite <- Hl in Hin. apply filter_In in Hin as [_ Hin].
  by apply bool_decide_eq_true in Hin.
Qed.
Lemma row_changed id c d t : row id d = Some t → row id (changed id c d) = Some (apply_change now c t).
Proof.
  unfold row, changed. cbn. induction (tokens d) as [|t' l IH]; [done|]. cbn.
  destruct (decide (t_id t' = id)) as [Hid|Hid].
  - rewrite (bool_decide_eq_true_2 (t_id t' = id)) by done. rewrite bool_decide_eq_true_2 by done.
    by intros [= ->].
  - rewrite (bool_decide_eq_false_2 (t_id t' = id)) by done. rewrite bool_decide_eq_false_2 by done. exact IH.
Qed.
Lemma exec_load id d : exec (load_token uuid_to_string id) d =
  (match row id d with Some t => Ok t | None => Err (TokenNotFound (uuid_to_string id)) end, d).
Proof. unfold load_token. rewrite exec_bind. cbn. unfold row. by destruct (head _). Qed.
Lemma exec_update what id status to pin d t : row id d = Some t →
  let c := {| c_status := status; c_assigned_to := to; c_pin := pin; c_puk := None; c_so_pin := None;
              c_label := None; c_initialized_at := None; c_expires_at := None |} in
  exec (update what id status to pin) d = (Ok (apply_change now c t), changed id c d).
Proof. unfold row. intros Ht. cbn. unfold execute. rewrite Ht. done. Qed.
Lemma exec_change what id c d t : row id d = Some t →
  exec (db what (UpdateToken id now c)) d = (Ok (apply_change now c t), changed id c d).
Proof. unfold row. intros Ht. cbn. rewrite Ht. done. Qed.
Lemma check_permission_spec user p resource :
  check_permission uuid_to_string rbac_policy user p resource =
  if any_role_has_permission (roles user) p then Ok tt
  else Err (Forbidden ("Access denied: missing permission '" +:+ permission_name p +:+ "'")).
Proof. unfold check_permission, authorize. cbn. by destruct (any_role_has_permission _ _). Qed.

(** The calls that take a token through its life cycle: the token, the permission,
    the state that the handler asks for, and the method of the token. *)
Definition lifecycle (c : ScmsCall) : option (Uuid * Permission * (TokenRow → bool) * (Token → Token)) :=
  match c with
  | InitializeCall id => Some (id, ModifyUser, λ t, bool_decide (t_status t = "uninitialized"), initialize now now)
  | PersonalizeCall id r =>
      Some (id, ModifyUser, λ t, bool_decide (t_status t = "initialized"), personalize (pt_assigned_to r) now now)
  | SuspendCall id => Some (id, ModifyUser, λ t, bool_decide (t_status t = "active"), suspend now)
  | ResumeCall id => Some (id, ModifyUser, λ t, bool_decide (t_status t = "suspended"), resume now)
  | RevokeTokenCall id => Some (id, DeleteUser, λ _, true, revoke now now)
  | UnblockCall id =>
      Some (id, UnlockAccount, λ t, t_pin_attempts_remaining t <=? 0, λ t, unblock now (block now t))
  | VerifyPinCall id pin =>
      Some (id, ViewUsers, λ t, negb (bool_decide (pin = "")) && negb (bool_decide (t_status t = "blocked")) &&
                                (0 <? t_pin_attempts_remaining t), λ t, (decrement_pin_retries now now t).2)
  | ChangePinCall id r =>
      Some (id, ModifyUser, λ t, negb (bool_decide (current_pin r = "")) && negb (bool_decide (new_pin r = "")) &&
                                 (0 <? t_pin_attempts_remaining t), reset_pin_retries now)
  | _ => None
  end.
Definition expected_answer (c : ScmsCall) (t : TokenRow) (r : result Response Error) : Prop :=
  match c with
  | VerifyPinCall _ _ => r = Err (if t_pin_attempts_remaining t =? 1 then PinBlocked else InvalidPin)
  | _ => ∃ b, r = Ok {| rs_status := 200; rs_body := b |}
  end.
(** Without the times that the tables do not record. *)
Definition untimed (t : Token) : Token :=
  set_token (status t) (assigned_to t) (pin_retry_count t) (initialized_at t) None None 0 t.
Definition with_row (id : Uuid) (f : TokenRow → TokenRow) (d : ScmsDb) : ScmsDb :=
  set_tokens ((λ t, if bool_decide (t_id t = id) then f t else t) <$> tokens d) d.

Lemma changed_with_row id c d : changed id c d = with_row id (apply_change now c) d.
Proof. done. Qed.
Lemma changed_twice id c c' d :
  changed id c' (changed id c d) = with_row id (λ t, apply_change now c' (apply_change now c t)) d.
Proof.
  unfold changed, with_row. destruct d as [ms ts ks es]. unfold set_tokens. cbn. f_equal.
  rewrite <- list_fmap_compose. apply list_fmap_ext. intros _ t _. cbn.
  destruct (decide (t_id t = id)) as [Hid|Hid].
  - rewrite !(bool_decide_eq_true_2 (t_id t = id)) by done. cbn. by rewrite ?bool_decide_eq_true_2 by done.
  - rewrite !(bool_decide_eq_false_2 (t_id t = id)) by done. done.
Qed.

Lemma exec_must_be state to t d :
  t_status t = state → exec (lift (must_be state to t)) d = (Ok tt, d).
Proof. intros Hs. unfold lift, must_be. rewrite bool_decide_eq_true_2 by done. done. Qed.
Lemma exec_check user p resource d : any_role_has_permission (roles user) p = true →
  exec (lift (check_permission uuid_to_string rbac_policy user p resource)) d = (Ok tt, d).
Proof. intros Hp. rewrite check_permission_spec, Hp. done. Qed.
Lemma exec_found id d t : row id d = Some t → exec (load_token uuid_to_string id) d = (Ok t, d).
Proof. intros Ht. by rewrite exec_load, Ht. Qed.

(** The beginning that the handlers share. *)
Lemma exec_opening {A} user p resource id (k : TokenRow → M A) d t :
  any_role_has_permission (roles user) p = true → row id d = Some t →
  exec (bind (lift (check_permission uuid_to_string rbac_policy user p resource))
             (λ _, bind (load_token uuid_to_string id) k)) d = exec (k t) d.
Proof. intros Hp Ht. by rewrite exec_bind, exec_check, exec_bind, (exec_found _ _ t). Qed.

Lemma exec_now {A} (k : DateTime → Prog A) d : exec (let^ n := call ENow in k n) d = exec (k now) d.
Proof. done. Qed.

Ltac one_update :=
  lazymatch goal with
  | Ht : row ?id ?d = Some ?t |- context [update ?what ?id ?st ?to ?pin] =>
      rewrite exec_bind, (exec_update what id st to pin d t Ht)
  end.
Ltac another :=
  unfold update_token_lifecycle, update_token_so_pin_attempts;
  lazymatch goal with
  | Ht : row ?id ?d = Some ?t |- context [exec (bind (db ?what (UpdateToken ?id ?n ?c)) _) (changed ?id ?c' ?d)] =>
      rewrite exec_bind, (exec_change what id c (changed id c' d) _ (row_changed id c' d t Ht))
  end.
Ltac answered := split; [by eexists|eexists; split; [first [apply changed_twice|apply changed_with_row]|]].

Lemma status_read t s st : t_status t = s → table_lookup s status_table = Some st →
  status (map_db_token_to_service t) = st.
Proof. intros <- Hl. unfold map_db_token_to_service, parse_token_status. cbn [status]. by rewrite Hl. Qed.
Lemma as_u8_small x : 0 ≤ x ≤ 3 → as_u8 x = x.
Proof. intros Hx. unfold as_u8. apply Z.mod_small. lia. Qed.
Lemma wrong_pin_method t : 0 ≤ t_pin_attempts_remaining t ≤ 3 → 0 < t_pin_attempts_remaining t →
  untimed (map_db_token_to_service (apply_change now
    (only_pin (if t_pin_attempts_remaining t =? 1 then Some "blocked" else None) (t_pin_attempts_remaining t - 1)) t)) =
  untimed (decrement_pin_retries now now (map_db_token_to_service t)).2.
Proof.
  intros Hr Hn. unfold decrement_pin_retries. cbn [pin_retry_count map_db_token_to_service]. rewrite as_u8_small by done.
  replace (0 <? t_pin_attempts_remaining t) with true by lia. cbn [pin_retry_count set_pin set_token].
  replace (t_pin_attempts_remaining t - 1 =? 0) with (t_pin_attempts_remaining t =? 1) by lia.
  destruct (t_pin_attempts_remaining t =? 1); unfold untimed, map_db_token_to_service; cbn;
    by rewrite (as_u8_small (t_pin_attempts_remaining t - 1)) by lia.
Qed.
Lemma verify_pin_alone user id pin d t :
  any_role_has_permission (roles user) ViewUsers = true → row id d = Some t →
  pin ≠ "" → t_status t ≠ "blocked" → 0 < t_pin_attempts_remaining t →
  exec (verify_pin uuid_to_string rbac_policy user id pin) d =
  (Err (if t_pin_attempts_remaining t =? 1 then PinBlocked else InvalidPin),
   changed id (only_pin (if t_pin_attempts_remaining t =? 1 then Some "blocked" else None)
                        (t_pin_attempts_remaining t - 1)) d).
Proof.
  intros Hp Hrow Hpin Hst Hpos. unfold verify_pin. rewrite exec_bind, exec_check by done.
  rewrite (bool_decide_eq_false_2 (pin = "")) by done. rewrite exec_bind, (exec_found _ _ t) by done.
  rewrite (bool_decide_eq_false_2 (_ = "blocked")) by done.
  replace (t_pin_attempts_remaining t <=? 0) with false by lia.
  replace (t_pin_attempts_remaining t - 1 <=? 0) with (t_pin_attempts_remaining t =? 1) by lia.
  change (negb verified) with true. cbv iota zeta beta delta [orb]. one_update.
  by destruct (t_pin_attempts_remaining t =? 1).
Qed.

Lemma lifecycle_accepted user c id p pre method d t :
  lifecycle c = Some (id, p, pre, method) → any_role_has_permission (roles user) p = true →
  row id d = Some t → row_ok t → pre t = true →
  expected_answer c t (exec (route user c) d).1 ∧
  ∃ f, (exec (route user c) d).2 = with_row id f d ∧
    untimed (map_db_token_to_service (f t)) = untimed (method (map_db_token_to_service t)).
Proof.
  intros Hc Hp Hrow Hok Hpre. pose proof (as_u8_small _ (row_pin _ Hok)) as Hu8.
  destruct c; cbn [lifecycle] in Hc; try discriminate Hc; injection Hc as <- <- <- <-; cbn [ScmsServer.route expected_answer].
  - unfold revoke_token. rewrite (exec_opening _ _ _ _ _ _ t) by done. one_update. answered. reflexivity.
  - unfold initialize_token. rewrite (exec_opening _ _ _ _ _ _ t) by done. apply bool_decide_eq_true in Hpre.
    rewrite exec_bind, exec_must_be by done. one_update. rewrite !exec_now. another. answered. reflexivity.
  - unfold personalize_token. rewrite (exec_opening _ _ _ _ _ _ t) by done. apply bool_decide_eq_true in Hpre.
    rewrite exec_bind, exec_must_be by done. one_update. answered. reflexivity.
  - unfold suspend_token. rewrite (exec_opening _ _ _ _ _ _ t) by done. apply bool_decide_eq_true in Hpre.
    rewrite exec_bind, exec_must_be by done. one_update. answered. reflexivity.
  - unfold resume_token. rewrite (exec_opening _ _ _ _ _ _ t) by done. apply bool_decide_eq_true in Hpre.
    rewrite exec_bind, exec_must_be by done. one_update. answered.
    unfold resume. rewrite (status_read t "suspended" Suspended) by done. reflexivity.
  - unfold unblock_token. rewrite (exec_opening _ _ _ _ _ _ t) by done.
    replace (0 <? t_pin_attempts_remaining t) with false by lia.
    one_update. rewrite exec_now. another. answered.
    unfold untimed, map_db_token_to_service. cbn. by rewrite (row_so_pin _ Hok).
  - rewrite !andb_true_iff, !negb_true_iff, !bool_decide_eq_false in Hpre. destruct Hpre as [[Hpin Hst] Hn].
    rewrite (verify_pin_alone _ _ _ _ t) by (done || lia). cbn [fst snd]. split; [done|].
    eexists. split; [apply changed_with_row|]. apply wrong_pin_method; [exact (row_pin _ Hok)|lia].
  - rewrite !andb_true_iff, !negb_true_iff, !bool_decide_eq_false in Hpre. destruct Hpre as [[Hcur Hnew] Hn].
    unfold change_pin. rewrite exec_bind, exec_check by done.
    rewrite !(bool_decide_eq_false_2 (_ = "")) by done. cbv iota beta delta [orb].
    rewrite exec_bind, (exec_found _ _ t) by done. replace (t_pin_attempts_remaining t <=? 0) with false by lia.
    one_update. answered. reflexivity.
Qed.

(** In any other state a call is refused. *)
Lemma lifecycle_refused user c id p pre method d t :
  lifecycle c = Some (id, p, pre, method) → any_role_has_permission (roles user) p = true →
  row id d = Some t → pre t = false → ∃ e, exec (route user c) d = (Err e, d).
Proof.
  intros Hc Hp Hrow Hpre.
  assert (∀ state to A (k : unit → M A), bool_decide (t_status t = state) = false →
    ∃ e, exec (bind (lift (must_be state to t)) k) d = (Err e, d)) as Hstate.
  { intros state to A k Hs. rewrite exec_bind. unfold must_be. rewrite Hs. by eexists. }
  destruct c; cbn [lifecycle] in Hc; try discriminate Hc; injection Hc as <- <- <- <-;
    cbn [ScmsServer.route]; try discriminate Hpre.
  - unfold initialize_token. rewrite (exec_opening _ _ _ _ _ _ t) by done. by apply Hstate.
  - unfold personalize_token. rewrite (exec_opening _ _ _ _ _ _ t) by done. by apply Hstate.
  - unfold suspend_token. rewrite (exec_opening _ _ _ _ _ _ t) by done. by apply Hstate.
  - unfold resume_token. rewrite (exec_opening _ _ _ _ _ _ t) by done. by apply Hstate.
  - unfold unblock_token. rewrite (exec_opening _ _ _ _ _ _ t) by done.
    replace (0 <? t_pin_attempts_remaining t) with true by lia. by eexists.
  - unfold verify_pin. rewrite exec_bind, exec_check by done.
    destruct (bool_decide (_ = "")); [by eexists|]. rewrite exec_bind, (exec_found _ _ t) by done.
    simpl in Hpre. destruct (bool_decide (t_status t = "blocked")); [rewrite orb_true_r; by eexists|].
    replace (t_pin_attempts_remaining t <=? 0) with true by (simpl in Hpre; lia). by eexists.
  - unfold change_pin. rewrite exec_bind, exec_check by done.
    destruct (bool_decide (current_pin _ = "")); [by eexists|].
    destruct (bool_decide (new_pin _ = "")); [by eexists|].
    cbv iota beta delta [orb]. rewrite exec_bind, (exec_found _ _ t) by done.
    replace (t_pin_attempts_remaining t <=? 0) with true by (simpl in Hpre; lia). by eexists.
Qed.

(** C20. Alone, each call of the life cycle that a user with its permission makes
    of a token there is, in the state the code asks for, changes that token as
    its method of [Token] does, and nothing else; in any other state it is
    refused and changes nothing.  The unblock asks only that no attempts are
    left, and acts as the method does on a blocked token, whatever the status
    was: a token that was revoked, and whose PIN was then tried three times,
    becomes active. *)
Theorem lifecycle_refines user c id p pre method d t :
  lifecycle c = Some (id, p, pre, method) → any_role_has_permission (roles user) p = true →
  row id d = Some t → row_ok t →
  if pre t then
    expected_answer c t (exec (route user c) d).1 ∧
    ∃ f, (exec (route user c) d).2 = with_row id f d ∧
      untimed (map_db_token_to_service (f t)) = untimed (method (map_db_token_to_service t))
  else ∃ e, exec (route user c) d = (Err e, d).
Proof.
  intros Hc Hp Hrow Hok. destruct (pre t) eqn:Hpre; [by eapply lifecycle_accepted|by eapply lifecycle_refused].
Qed.
Lemma verify_pin_blocked user id pin d t :
  any_role_has_permission (roles user) ViewUsers = true → row id d = Some t → pin ≠ "" →
  t_pin_attempts_remaining t ≤ 0 → exec (verify_pin uuid_to_string rbac_policy user id pin) d = (Err PinBlocked, d).
Proof.
  intros Hp Hrow Hpin Hn. unfold verify_pin. rewrite exec_bind, exec_check by done.
  rewrite (bool_decide_eq_false_2 (pin = "")) by done. rewrite exec_bind, (exec_found _ _ t) by done.
  replace (t_pin_attempts_remaining t <=? 0) with true by lia. reflexivity.
Qed.
End alone.

(** *** Lockout *)

(** One attempt after the other, each alone. *)
Record Attempt := { at_time : DateTime; at_user : AuthenticatedUser; at_pin : string }.
Definition genuine (a : Attempt) : Prop :=
  any_role_has_permission (roles (at_user a)) ViewUsers = true ∧ at_pin a ≠ "".
Fixpoint attempts (id : Uuid) (l : list Attempt) (d : ScmsDb) : list (result Response Error) * ScmsDb :=
  match l with
  | [] => ([], d)
  | a :: l =>
      let '(r, d) := exec (at_time a) 0%N (route (at_user a) (VerifyPinCall id (at_pin a))) d in
      let '(rs, d) := attempts id l d in (r :: rs, d)
  end.

Lemma attempts_blocked id l d t : row id d = Some t → t_pin_attempts_remaining t ≤ 0 → Forall genuine l →
  attempts id l d = (replicate (length l) (Err PinBlocked), d).
Proof.
  intros Hrow Hn. induction 1 as [|a l [Hp Hpin] _ IH]; [done|]. cbn [attempts ScmsServer.route].
  rewrite (verify_pin_blocked _ _ _ _ _ _ t) by done. by rewrite IH.
Qed.

(** C21. Of the PINs tried on a token that is not blocked, one after the other and
    whoever tries them, each but the last that is left answers 401 "Invalid PIN",
    the last one blocks the token, and from then on each answers that the PIN is
    blocked and changes nothing. *)
Theorem lockout id l d t :
  row id d = Some t → t_status t ≠ "blocked" → 0 < t_pin_attempts_remaining t → Forall genuine l →
  let left := (Z.to_nat (t_pin_attempts_remaining t) - 1)%nat in
  (attempts id l d).1 = take (length l) (replicate left (Err InvalidPin)) ++
                        replicate (length l - left) (Err PinBlocked) ∧
  ∃ t', row id (attempts id l d).2 = Some t' ∧
    t_pin_attempts_remaining t' = Z.max 0 (t_pin_attempts_remaining t - Z.of_nat (length l)) ∧
    t_status t' = if (left <? length l)%nat then "blocked" else t_status t.
Proof.
  revert d t. induction l as [|a l IH]; intros d t Hrow Hst Hpos Hl left; subst left.
  { split; [by rewrite take_0|]. exists t. split; [done|]. cbn. split; [lia|done]. }
  apply Forall_cons in Hl as [[Hp Hpin] Hl]. cbn [attempts ScmsServer.route].
  rewrite (verify_pin_alone _ _ _ _ _ _ t) by done.
  pose proof (row_changed (at_time a) id (only_pin (if t_pin_attempts_remaining t =? 1 then Some "blocked" else None)
                        (t_pin_attempts_remaining t - 1)) d t Hrow) as Hrow'.
  destruct (t_pin_attempts_remaining t =? 1) eqn:H1.
  - apply Z.eqb_eq in H1. rewrite H1 in *. erewrite attempts_blocked; [|exact Hrow'|cbn; lia|done].
    cbn. split; [done|]. eexists. split; [exact Hrow'|]. cbn. split; [lia|done].
  - apply Z.eqb_neq in H1. destruct (IH _ _ Hrow') as [Hrs (t' & Hrow2 & Hn & Hs)]; [done|cbn; lia|done|].
    cbn [t_pin_attempts_remaining apply_change only_pin c_pin default Datatypes.id] in Hrs, Hn, Hs.
    destruct (attempts id l _) as [rs d']. cbn [fst snd] in *.
    destruct (Z.to_nat (t_pin_attempts_remaining t)) as [|[|n]] eqn:Hnat; [lia..|].
    replace (Z.to_nat (t_pin_attempts_remaining t - 1)) with (S n) in * by lia.
    replace (S n - 1)%nat with n in * by lia. replace (S (S n) - 1)%nat with (S n) by lia. cbn [length replicate take app].
    split; [by rewrite Hrs|].
    exists t'. split; [done|]. split; [cbn in Hn; lia|exact Hs].
Qed.

(** ** Schedules *)

(** Answers of the database and the clock; identifiers are never used twice. *)
Definition perform_in {X} (e : ScmsE X) (w : World) : X * ScmsDb :=
  perform (wnow w) (N.of_nat (length (wtrace w))) e (wdb w).
Definition performed {X} (e : ScmsE X) (w : World) : World :=
  observe (EvDid e (perform_in e w).1) (with_db (perform_in e w).2 w).
Lemma scms_perform_answers {X} (e : ScmsE X) w : answers w e (perform_in e w).1 (performed e w).
Proof. exists (perform_in e w).2. split; [|done]. destruct e; cbn; try done. by left. Qed.

(** A request comes in; a request comes in and is served alone, with at most
    twenty effects; a program takes some effects. *)
Inductive Move :=
| MRequest (user : AuthenticatedUser) (c : ScmsCall)
| MServe (user : AuthenticatedUser) (c : ScmsCall)
| MStep (program effects : nat).
Definition step_at (i : nat) (s : World * list (Prog unit)) : World * list (Prog unit) :=
  match s.2 !! i with
  | Some (Step e k) => (performed e s.1, take i s.2 ++ k (perform_in e s.1).1 :: drop (S i) s.2)
  | _ => s
  end.
Definition requested (user : AuthenticatedUser) (c : ScmsCall) (s : World * list (Prog unit))
    : World * list (Prog unit) :=
  (observe (EvRequest user c) s.1, s.2 ++ [serve uuid_to_string rbac_policy user c]).
Definition move (m : Move) (s : World * list (Prog unit)) : World * list (Prog unit) :=
  match m with
  | MRequest user c => requested user c s
  | MServe user c => Nat.iter 20 (step_at (length s.2)) (requested user c s)
  | MStep i n => Nat.iter n (step_at i) s
  end.
Definition play (ms : list Move) (s : World * list (Prog unit)) : World * list (Prog unit) :=
  foldl (λ s m, move m s) s ms.

Abbreviation steps := (rtc (step uuid_to_string rbac_policy)).
Lemma scms_step_at i s : steps s (step_at i s).
Proof.
  destruct s as [w ts]. unfold step_at; cbn [fst snd].
  destruct (ts !! i) as [[a|X e k]|] eqn:Hi; [done| |done].
  rewrite <- (take_drop_middle ts i (Step e k)) at 1 by done. apply rtc_once.
  rewrite <- (app_nil_r (drop (S i) ts)) at 2. apply step_program, scms_perform_answers.
Qed.
Lemma scms_move_steps m s : steps s (move m s).
Proof.
  assert (∀ n i s, steps s (Nat.iter n (step_at i) s)) as Hiter.
  { intros n i s'. induction n as [|n IH]; [done|]. etransitivity; [exact IH|apply scms_step_at]. }
  assert (∀ user c, steps s (requested user c s)) as Hreq.
  { intros user c. destruct s as [w ts]. by apply rtc_once, step_env, env_request. }
  destruct m as [user c|user c|i n]; cbn [move]; [apply Hreq| |apply Hiter].
  etransitivity; [apply Hreq|apply Hiter].
Qed.
Lemma scms_play_reachable ms now : reachable ((play ms (start now)).1, (play ms (start now)).2).
Proof.
  exists now. rewrite <- surjective_pairing. generalize (start now). induction ms as [|m ms IH]; intros s; [done|].
  etransitivity; [apply (scms_move_steps m)|apply IH].
Qed.
End guarantees.

(** ** Runs *)

#[local] Definition toy_uuid (_ : Uuid) : string := "id".
#[local] Definition toy_admin : AuthenticatedUser := new_user 1%N "admin" [Administrator] Password 0.
#[local] Definition toy_play (ms : list Move) : World := (play toy_uuid new_policy ms (start 0)).1.
#[local] Definition toy_token (w : World) : option (string * Z) :=
  (λ t, (t_status t, t_pin_attempts_remaining t)) <$> head (tokens (wdb w)).
#[local] Definition ask (c : ScmsCall) : Move := MServe toy_admin c.
#[local] Definition toy_model : Uuid := 1%N.
#[local] Definition toy_provision : list Move :=
  [ask (CreateModelCall {| cm_manufacturer := "maker"; cm_model_name := "card" |});
   ask (CreateTokenCall {| ct_serial_number := "s"; ct_model_id := toy_model; ct_label := "l" |})].
#[local] Definition toy_card : Uuid := 8%N.
#[local] Definition toy_try (pin : string) : Move := ask (VerifyPinCall toy_card pin).
#[local] Definition toy_tries : list Move := toy_try <$> ["1"; "2"; "3"].

(** Nothing but the attempts is asked of a token whose PIN is tried or that is
    unblocked: one that was revoked, and was never initialized, becomes active. *)
Example revoked_token_returns :
  (toy_token ∘ toy_play) <$>
    [toy_provision; toy_provision ++ [ask (RevokeTokenCall toy_card)];
     toy_provision ++ [ask (RevokeTokenCall toy_card)] ++ toy_tries;
     toy_provision ++ [ask (RevokeTokenCall toy_card)] ++ toy_tries ++ [ask (UnblockCall toy_card)]] =
  [Some ("uninitialized", 3); Some ("revoked", 3); Some ("blocked", 0); Some ("active", 3)].
Proof. vm_compute. reflexivity. Qed.

(** Two PINs that are tried at the same time cost one attempt. *)
Example attempt_lost :
  toy_token (toy_play (toy_provision ++
    [MRequest toy_admin (VerifyPinCall toy_card "1"); MRequest toy_admin (VerifyPinCall toy_card "2");
     MStep 2 1; MStep 3 1; MStep 2 20; MStep 3 20])) = Some ("uninitialized", 2) ∧
  toy_token (toy_play (toy_provision ++ [toy_try "1"; toy_try "2"])) = Some ("uninitialized", 1).
Proof. split; vm_compute; reflexivity. Qed.

(** ** Examples of the theorems *)

#[local] Definition toy_run : list Move := toy_provision ++ [ask (InitializeCall toy_card); toy_try "1"].
#[local] Definition is_update (ev : Event) : bool :=
  match ev with EvDid (EStmt (UpdateToken _ _ _)) _ => true | _ => false end.
Lemma changes_have_grounds_witness : ∃ ev, wtrace (toy_play toy_run) !! 15%nat = Some ev ∧ is_update ev = true ∧
  event_ok (take 15 (wtrace (toy_play toy_run))) ev.
Proof.
  eexists. split; [vm_compute; reflexivity|]. split; [reflexivity|].
  refine (changes_have_grounds toy_uuid new_policy _ _ _ _ _ (scms_play_reachable toy_uuid new_policy toy_run 0) _).
  symmetry. apply take_drop_middle. vm_compute. reflexivity.
Defined.
Lemma tables_well_formed_witness : toy_token (toy_play toy_run) = Some ("initialized", 2) ∧ db_ok (wdb (toy_play toy_run)).
Proof.
  split; [vm_compute; reflexivity|].
  exact (tables_well_formed toy_uuid new_policy _ _ (scms_play_reachable toy_uuid new_policy toy_run 0)).
Defined.

#[local] Definition toy_row : TokenRow := {|
  t_id := toy_card; t_serial_number := "s"; t_token_model_id := toy_model; t_status := "active";
  t_assigned_to := Some "alice"; t_pin_attempts_remaining := 2; t_puk_attempts_remaining := 10;
  t_so_pin_attempts_remaining := 3; t_label := Some "l"; t_assigned_at := None; t_blocked_at := None;
  t_retired_at := None; t_initialized_at := Some 1; t_expires_at := None; t_created_at := 0; t_updated_at := 0 |}.
#[local] Definition toy_db : ScmsDb := {| models := []; tokens := [toy_row]; keys := []; events := [] |}.
Lemma toy_row_ok : row_ok toy_row.
Proof. split; cbn; try done. by apply (bool_decide_eq_true_1 (_ ∈ statuses)). Qed.

#[local] Definition toy_revoked_row : TokenRow := {|
  t_id := toy_card; t_serial_number := "s"; t_token_model_id := toy_model; t_status := "revoked";
  t_assigned_to := Some "alice"; t_pin_attempts_remaining := 0; t_puk_attempts_remaining := 10;
  t_so_pin_attempts_remaining := 3; t_label := Some "l"; t_assigned_at := None; t_blocked_at := None;
  t_retired_at := None; t_initialized_at := Some 1; t_expires_at := None; t_created_at := 0; t_updated_at := 0 |}.
#[local] Definition toy_revoked_db : ScmsDb :=
  {| models := []; tokens := [toy_revoked_row]; keys := []; events := [] |}.
Lemma toy_revoked_row_ok : row_ok toy_revoked_row.
Proof. split; cbn; try done. by apply (bool_decide_eq_true_1 (_ ∈ statuses)). Qed.

(** Suspending an active token, and unblocking a revoked one without attempts. *)
Lemma lifecycle_refines_witness :
  (∃ f, (exec 5 0%N (route toy_uuid new_policy toy_admin (SuspendCall toy_card)) toy_db).2 = with_row toy_card f toy_db ∧
     untimed (map_db_token_to_service (f toy_row)) = untimed (suspend 5 (map_db_token_to_service toy_row))) ∧
  (∃ f, (exec 5 0%N (route toy_uuid new_policy toy_admin (UnblockCall toy_card)) toy_revoked_db).2 =
       with_row toy_card f toy_revoked_db ∧
     status (map_db_token_to_service (f toy_revoked_row)) = Active).
Proof.
  split.
  - exact (proj2 (lifecycle_refines toy_uuid new_policy 5 0%N toy_admin (SuspendCall toy_card) toy_card ModifyUser
      (λ t, bool_decide (t_status t = "active")) (suspend 5) toy_db toy_row eq_refl eq_refl eq_refl toy_row_ok)).
  - destruct (proj2 (lifecycle_refines toy_uuid new_policy 5 0%N toy_admin (UnblockCall toy_card) toy_card UnlockAccount
      (λ t, t_pin_attempts_remaining t <=? 0) (λ t, unblock 5 (block 5 t)) toy_revoked_db toy_revoked_row
      eq_refl eq_refl eq_refl toy_revoked_row_ok)) as (f & Hf & Hm).
    exists f. split; [exact Hf|]. exact (f_equal status Hm).
Defined.
Lemma lockout_witness :
  (attempts toy_uuid new_policy toy_card (replicate 3 {| at_time := 1; at_user := toy_admin; at_pin := "1" |}) toy_db).1 =
  [Err InvalidPin; Err PinBlocked; Err PinBlocked].
Proof.
  refine (proj1 (lockout toy_uuid new_policy toy_card (replicate 3 {| at_time := 1; at_user := toy_admin; at_pin := "1" |})
            toy_db toy_row _ _ _ _)).
  - vm_compute. reflexivity.
  - done.
  - reflexivity.
  - apply Forall_replicate. split; [vm_compute; reflexivity|done].
Defined.
